(* ===== verification/_CoqProject ===== *)
-Q . S2P
Prelude.v
Machine.v
State.v
Monad.v
Utility.v
Process.v
Device.v
SuperTable.v
ShellSort.v
Links.v
Cache.v
CacheInv.v
DiskView.v
Flush.v
CacheSpec.v
CacheContract.v
Bitmap.v
BitmapSpec.v
RamDisk.v
Inode.v
InodeSpec.v
InodeContract.v
FileMap.v
Permission.v
Path.v
Protect.v
Filedes.v
Lock.v
Stadir.v
SelectTable.v
Pipe.v
Select.v
ReadWrite.v
DeviceOpen.v
Sync.v
Open.v
Mount.v
Link.v
Dmap.v
Misc.v
Main.v
FileMapSpec.v
PathSpec.v
ProcessSpec.v
LockSpec.v
FiledesSpec.v
SuperSpec.v
DmapSpec.v
Server.v
L4Types.v
Message.v
Console.v
Keymap.v
Keyboard.v
TaskServer.v
TaskServerSpec.v
ElfLoader.v
ElfLoaderSpec.v
SimpleFs.v
SimpleFsSpec.v
Heap.v
HeapSpec.v
AppPager.v
AppPagerSpec.v
Print.v
PrintSpec.v
Root.v
RootSpec.v
Shell.v
ShellSpec.v
Sigma0.v
Sigma0Pool.v
Sigma0Spec.v
Sigma0Contract.v
Kickstart.v
KickstartSpec.v
Witness.v
WitnessCalls.v
WitnessServers.v
WitnessLibs.v
