(* ===== verification/Prelude.v ===== *)
(** * SDI-OS: its file server, a port of the MINIX 3 file server to L4
    (src/sdios/src/minix3fs/servers/fs), and the servers around it that are written for
    SDI-OS in C++ (src/sdios/src), with properties of their parts.

    ** The program

    The file server is one process.  It waits for a message, finds the caller in a table
    of processes, calls the routine of the system call and replies (main.c).  The
    routines work on tables in memory: inodes, super blocks, open files (filp),
    processes, locks, the device map and pending selects.  Files are read and
    written through a block cache (cache.c), which asks the drivers for blocks
    through device.c.  A call that cannot go on (an empty pipe, a lock, a slow
    device) is suspended with what is needed to restart it, and revived by the call
    or the device that makes it possible (pipe.c).

    The C++ servers answer calls that IDL4 delivers: the task server keeps the address
    spaces, their threads and the clients that wait for one; the RAM data space manager
    loads the pages of the boot modules on page faults; the simple file system hands out
    files of whole pages; the console and the keyboard server drive the screen and the
    keyboard.  They allocate from the heap of lib/sdi.  The root task loads the data space
    manager itself and has the task server start the others; it also is the name service
    at which they find each other.  The shell is a client of the keyboard, the console,
    the file system and the task server.  Kickstart starts the kernel from the boot loader
    and leaves it the memory map; sigma0 gives the root task and the servers their memory.

    ** The model

    [State] has the tables as records of lists, a pointer into a table being an
    index, and the globals; [Monad] a state monad whose outcomes are a value, a
    panic with its number, undefined behaviour of C (a NIL pointer, an index outside
    its table) and lack of fuel.  A routine that a theorem with [wp] speaks of
    returns: [wp m Q s] says that [m] neither panics nor is undefined nor runs out
    of fuel in [s], and that the result satisfies [Q].  Integers have their width
    written out where the source stores them ([u8] .. [i32] of [Machine]), and
    structures on the disk are lists of bytes loaded and stored field by field.

    The kernel calls and the drivers are not part of the repository.  They are the
    class [Kernel] of [State]; the theorems about the disk add the laws of the
    class [Disk] ([DiskView]), which state what drivers answer to the requests of
    cache.c, partial transfers of a vector included.  [RamDisk] is an
    implementation of both at which the theorems are tried in [Witness] and
    [WitnessCalls].

    ** The files

    - [Prelude], [Machine], [Monad], [Links]: records, counting and summing over
      tables, machine integers, bytes and structures, the rules of [wp], doubly
      linked lists in a table.
    - [State]: buf.h, inode.h, super.h, file.h, fproc.h, lock.h, glo.h, type.h,
      const.h and the message of minix/ipc.h.
    - [Utility]: utility.c.  [Process]: [suspend], [revive], [reply], [lock_revive]
      of pipe.c, main.c, lock.c.  [Device], [DeviceOpen]: device.c.
    - [Cache], [ShellSort]: cache.c.  [Bitmap], [SuperTable]: super.c and the zones
      of cache.c.  [Inode]: inode.c.  [FileMap]: the maps of read.c and write.c,
      [truncate] of link.c, [put_inode].
    - [Permission], [Protect]: protect.c and time.c.  [Path]: path.c.  [Filedes]:
      filedes.c.  [Lock]: lock.c.  [Pipe]: pipe.c.  [SelectTable], [Select]:
      select.c and timers.c.  [ReadWrite]: the transfers of read.c and write.c.
      [Open]: open.c.  [Link]: link.c.  [Stadir]: stadir.c.  [Mount]: mount.c.
      [Dmap]: dmap.c.  [Sync], [Misc]: misc.c.  [Main]: main.c and the call vector
      of table.c.

    A routine has the name it has in the source; parts of a long routine that are a
    definition of their own say so.

    The C++ servers have a monad and files of their own:

    - [Server]: the monad [Srv] over the globals of one server, whose outcomes are a
      value, [panic()], undefined behaviour and a loop without an end; arrays of
      globals; the string routines of include/stdlib.h and include/string.h.
      [L4Types]: thread ids, flexpages, clocks and periods of
      include/l4/types.h.
    - [Console]: consoleserver/console.cc.  [Keymap], [Keyboard]: keymap.cc,
      keyboard.cc.  [TaskServer]: taskserver/taskserver.cc.  [ElfLoader]:
      ram_dsm/bielfloader.cc and main.cc.  [SimpleFs]: simplefs/filesystem.cc.
      [Heap]: lib/sdi/heap.cc.
    - [AppPager]: apppager/util.cc and apppager.cc.
    - [Print]: lib/io/print.cc, in the same monad over the locals of [vsnprintf]
      ([goto Done] is the outcome of [panic()] there), and lib/io/get_hex.cc.
    - [Root]: root/main.cc, locator.cc, syscall.cc and pager.cc; the calls of the kernel
      and of the other servers are a log, their answers the class [Boot], and so is what the stack
      holds where [start_task] does not initialise its variables.
    - [Shell]: shell/main.cc; the calls are a log, their effects the class [System].
    - [Sigma0]: serv/sigma0/sigma0.cc with the memory descriptors of include/l4/kip.h: the
      region structures are a store of linked records, the pools and the free list the
      paths through it; where its objects are is the class [Boot_memory].
    - [Message]: include/l4/message.h and the registers of include/l4/ia32/vregs.h; a
      message is the list of its words, the registers a map from their places.
    - [Kickstart]: util/kickstart, which starts the kernel; all of it works on physical
      memory, a function from addresses to bytes; the class [Kickstart_image] says where
      its objects are.
    ** What is proved

    The cache ([CacheInv], [DiskView], [Flush], [CacheSpec], [CacheContract]):
    [cache_ok] is the invariant of the pool (free list, hash chains, no block in
    two buffers, clean buffers equal to the disk), and [view] the abstract device
    the clients see, in which the buffers hide the blocks of the disk they hold.
    Every routine of cache.c keeps the invariant and is transparent: the view
    changes only when a client stores into a buffer.  The use count of a buffer is a
    char: a block can be got while no count is 127 ([available], [has_free]).  The clients are proved against
    these contracts: the bit maps ([BitmapSpec]), super blocks and zones
    ([SuperSpec]), inodes and their images in both formats and byte orders
    ([InodeSpec], [InodeContract]), the map from positions to blocks through both
    levels of indirection ([FileMapSpec]), directory blocks and path names
    ([PathSpec]) and [sync], after which the disk itself holds everything
    ([SuperSpec]).

    The processes: suspension, revival and restart of calls, with the count of the
    processes to be revived ([ProcessSpec]); who is released from a pipe and how
    much may be written to it ([ProcessSpec]); the table of locks, in which no byte is
    locked by two processes one of which writes ([LockSpec]); pending selects and
    the count of ready descriptors ([DmapSpec]); file descriptors, the count of a
    filp slot being the number of descriptors that name it, in all processes
    ([FiledesSpec]); permissions ([PathSpec]); file positions ([FiledesSpec]);
    drivers that exit ([DmapSpec]); messages that are not calls ([DmapSpec]).

    The C++ servers: the console implements a terminal of 25 lines, and the ports get
    the place of its cursor ([Console]); the keyboard server is a queue of the
    characters the tables give for the scancodes, from which clients are served in
    order ([Keyboard]; the laws of its controller, [ControllerLaws], let keys arrive at any
    time and the keyboard answer what is written to it); the task server keeps the chain of the threads of each space and
    of the listeners of each thread, through [startTask], [createThread], [waitTid] and
    [kill] ([TaskServerSpec]); a page fault fills a page with the bytes of the ELF image,
    and no page is given out twice ([ElfLoaderSpec]); the files of the simple file system
    are disjoint and its calls change the map from names to files as they say
    ([SimpleFsSpec]); [alloc] and [free] move exactly the units of a block out of and
    into the free list, which stays in order and joined ([HeapSpec]).  [WitnessServers]
    has the theorems at concrete states.

    The application pager keeps the chain of all threads, those of the threads and of the
    pages of each space and those of what is free, so no page is in two spaces, through
    page faults, new tasks and deleted threads ([AppPagerSpec]).  [PrintSpec] gives the
    formats of lib/io/print.cc an abstract syntax ([item]) and two meanings: [text] is what
    the code prints, [printf_text] what printf(3) says, for the formats on which the two
    agree; [vsnprintf] stores that text, cut off at the size; for any format it ends, and
    stays in its buffer if it is defined; and [get_hex] reads back what it prints.  [WitnessLibs] has these at
    concrete states.

    The root task performs one script of calls that brings the system up, to its end or to
    the first call that is refused ([RootSpec]; the words of its startup message are those
    the stack makes of it); its ELF loader puts every byte of a program where it
    expects itself, and its name service is a map in which the first announcement wins
    ([RootSpec]).  A text the shell prints arrives on the terminal of [Console], through
    the buffers of 8 characters in between ([ShellSpec]); a typed line, with its
    backspaces, is edited ([ShellSpec]), cut into words and run as a command
    ([ShellSpec]).  What the keyboard server answers ([Keyboard]) is what the rounds of
    the shell start from.

    sigma0: [Sigma0Pool] relates the linked structures to lists of regions ([pools_ok]) and
    says what linking, unlinking, changing and freeing one does to them; [Sigma0Spec] has
    the arithmetic of pages in a region, insertion with its joins, allocation with its
    splits, and the invariant [s0_ok] (lists in order, no address in two pools);
    [Sigma0Contract] the searches and what a request amounts to: a page is given exactly
    when each of its parts is the thread's, everybody's or free, in one piece or part by
    part, and no request takes an address from a thread.  The splits and joins need free
    structures, two for each part; the contracts ask for them, and for a page that is not
    the last one of the address space (see the findings for what the code does there).

    Messages: what is appended to a message in any order arrives through the registers
    and is read back ([Message]); periods are rounded down by less than one part in 512,
    and the two ways to compute them agree ([L4Types]).

    kickstart ([KickstartSpec]): the descriptors it makes of the memory map of the boot
    loader say to sigma0, with the accessors [Sigma0] uses, what the map says; the memory
    it takes for the boot information touches nothing that is in use; and the numbers on
    its command line are found and read as they are written.
    ** Bounds and fuel

    Loops that the source bounds are structural or have fuel that their bound
    computes: the chains of the cache are at most [NR_BUFS] long, a queue of
    blocks shrinks in every round, [alloc_bit] visits each map block once and the
    first one twice; the contracts prove that this fuel is enough.  [loop_fuel] of
    [Config] bounds the loops to which the source gives no bound: the messages a
    driver sends for others before its answer, mount points crossed by a component
    of a path, directories climbed by rename.  The recursion of [advance] through
    mounted roots and of [call_io] through the controlling terminal has a fixed
    depth, past which the outcome is [NoFuel].

    In the C++ servers a search of the task server visits at most two rounds of its
    table, after which it repeats itself ([Spins]); the doubling of a file size is over
    or at 0 after 33 rounds; the pages below 32 MB are 8192; an ELF header counts fewer
    than 65536 segments; the root task asks for fewer pages of a module than it has bytes,
    or for ever; a round of the shell reads 8 characters and a line has 200;
    [alloc] and [free] need as much fuel as there are free blocks; the loops of
    [vsnprintf] over the format have a round more than it has characters, and the one that
    leaves the fraction of a double has two.  In sigma0 a walk through
    a pool has as much fuel as there are structures, a page fewer parts than the address
    space, and [alloc] nests 64 deep, a page of the machine for each level.
    A search for a string in kickstart looks at 4097 bytes, one more than its buffer of
    strings has; its other loops have as much fuel as their bounds allow without
    wrapping around.
    The requests to the locator are bounded by an argument, with the hypothesis that it
    knows the pager by then ([pager_known]).

    ** Not modelled

    cache2.c is compiled out.  cdprobe.c, [load_ram], [igetenv] and the rest of
    [fs_init] of main.c run once before the loop: they look for a CD-ROM and copy the
    RAM disk and the boot parameters; so does the part of dmap.c that asks the
    boot monitor for the driver of the controller.  Messages printed to the console
    are left out.  [do_getsysinfo] copies the memory image of a table, which is a
    kernel call here.

    Of the C++ servers: the loops that wait for messages and their vtables are generated
    by IDL4; messages that are printed are left out.  So are the requests to the locator
    with which the shell starts, and the logger of the root task, which is not started.
    The I/O data space manager and the demonstrations are glue over L4 calls; the calls of
    the RAM disk copy nothing; the files of kickstart for
    other processors, and the L4 headers for other processors, come from L4Ka::Pistachio.
    *)

From stdpp Require Export prelude list list_numbers.
From Stdlib Require Export ZArith Lia.

#[global] Open Scope Z_scope.

(** * Record update: [r <| field := v |>] *)

(** A record type says how a value is rebuilt from its fields; the setter of a
    field is then derived from the projection by abstracting it there. *)
Class Fields (R : Type) := fields : R → R.
Class Setter {R T : Type} (p : R → T) := set_field : (T → T) → R → R.
Arguments set_field {R T} p {Setter} f r : simpl never.

Ltac build_setter :=
  match goal with
  | |- @Setter ?R ?T ?p =>
      let e := constr:(@fields R _) in
      let e := eval hnf in e in
      match eval pattern p in e with
      | ?F _ =>
          let s := constr:(λ (f : T → T) (r : R), F (λ r', f (p r')) r) in
          let s := eval cbv beta in s in
          exact s
      end
  end.

#[global] Hint Extern 1 (Setter _) => build_setter : typeclass_instances.

Notation "r <| p := v |>" := (set_field p (λ _, v) r)
  (at level 1, left associativity, p at level 20, v at level 200,
   format "r <| p  :=  v |>").
Notation "r <| p ::= f |>" := (set_field p f r)
  (at level 1, left associativity, p at level 20, f at level 200,
   format "r <| p  ::=  f |>").

(** Linear arithmetic with [/], [mod] and literal powers of two. *)
Ltac zlia := Z.to_euclidean_division_equations; lia.


(** * Counting the slots of a table *)

Section count.
Context {A : Type} (P : A → Prop) {Pdec : ∀ x, Decision (P x)}.

Definition count_if (x : A) : Z := if decide (P x) then 1 else 0.
Definition count (l : list A) : Z := Z.of_nat (length (filter P l)).

Lemma count_if_True x : P x → count_if x = 1.
Proof. intros H. unfold count_if. by rewrite decide_True. Qed.
Lemma count_if_False x : ¬ P x → count_if x = 0.
Proof. intros H. unfold count_if. by rewrite decide_False. Qed.

Lemma count_insert l i x y :
  l !! i = Some x → count (<[i := y]> l) = count l - count_if x + count_if y.
Proof.
  intros Hl. rewrite <- (take_drop_middle l i x Hl) at 2.
  rewrite insert_take_drop by by eapply lookup_lt_Some.
  unfold count, count_if. rewrite !filter_app, !length_app, !filter_cons.
  repeat case_decide; simpl; lia.
Qed.

Lemma count_all l : (∀ x, x ∈ l → P x) → count l = Z.of_nat (length l).
Proof.
  intros H. unfold count. f_equal. induction l as [|x l IH]; [done|].
  rewrite filter_cons_True by (apply H; by left). simpl. rewrite IH; [done|].
  intros y Hy. apply H. by right.
Qed.

Lemma count_pos l : 0 < count l ↔ ∃ i x, l !! i = Some x ∧ P x.
Proof.
  unfold count. split.
  - intros Hlen. destruct (filter P l) as [|x l'] eqn:E; [simpl in Hlen; lia|].
    assert (x ∈ filter P l) as [HP Hx]%list_elem_of_filter by (rewrite E; by left).
    apply list_elem_of_lookup in Hx as [i Hi]. eauto.
  - intros (i & x & Hi%list_elem_of_lookup_2 & HP).
    assert (x ∈ filter P l) as Hx by by apply list_elem_of_filter.
    destruct (filter P l); [by apply not_elem_of_nil in Hx|simpl; lia].
Qed.
End count.

(** * Summing a weight over the slots of a table *)

Section total.
Context {A : Type}.

Definition total (w : A → Z) (l : list A) : Z := foldr (λ x n, w x + n) 0 l.

Lemma total_app w l1 l2 : total w (l1 ++ l2) = total w l1 + total w l2.
Proof. induction l1 as [|x l1 IH]; simpl; [done|]. rewrite IH. lia. Qed.

Lemma total_insert w l i x y : l !! i = Some x → total w (<[i := y]> l) = total w l - w x + w y.
Proof.
  intros Hl. rewrite <- (take_drop_middle l i x Hl) at 2.
  rewrite insert_take_drop by by eapply lookup_lt_Some. rewrite !total_app. simpl. lia.
Qed.

Lemma total_ext w w' l : (∀ x, x ∈ l → w x = w' x) → total w l = total w' l.
Proof.
  induction l as [|x l IH]; intros H; simpl; [done|].
  rewrite (H x), IH; [done| |by left]. intros y Hy. apply H. by right.
Qed.

Lemma total_nonneg w l : (∀ x, x ∈ l → 0 ≤ w x) → 0 ≤ total w l.
Proof.
  induction l as [|x l IH]; intros H; simpl; [done|].
  assert (0 ≤ w x) by (apply H; by left).
  assert (0 ≤ total w l) by (apply IH; intros y Hy; apply H; by right). lia.
Qed.

Lemma total_zero w l : (∀ x, x ∈ l → 0 ≤ w x) → total w l = 0 → ∀ x, x ∈ l → w x = 0.
Proof.
  intros Hw Ht x Hx. apply list_elem_of_lookup in Hx as [i Hi].
  rewrite <- (take_drop_middle l i x Hi), total_app in Ht. simpl in Ht.
  assert (0 ≤ w x) by (by eapply Hw, list_elem_of_lookup_2).
  assert (0 ≤ total w (take i l)).
  { apply total_nonneg. intros y Hy. apply Hw. rewrite list_elem_of_lookup in Hy.
    destruct Hy as [j Hj]. apply lookup_take_Some in Hj as [Hj _]. by eapply list_elem_of_lookup_2. }
  assert (0 ≤ total w (drop (S i) l)).
  { apply total_nonneg. intros y Hy. apply Hw. rewrite list_elem_of_lookup in Hy.
    destruct Hy as [j Hj]. rewrite lookup_drop in Hj. by eapply list_elem_of_lookup_2. }
  lia.
Qed.
End total.

Lemma count_nonneg {A} (P : A → Prop) `{∀ x, Decision (P x)} l : 0 ≤ count P l.
Proof. unfold count. lia. Qed.
