(* ===== verification/Machine.v ===== *)
(** Machine integers of the ILP32 target and little-endian views of a block.

    [short], [int]/[long] and their unsigned versions are integers of [Z] kept
    in range by [i8], [i16], [i32], [u8], [u16], [u32]; the data of a buffer is
    a list of bytes, and the fields of the structures overlaid on it by the
    union of buf.h are read and written with [load_le] and [store_le]. *)

From stdpp Require Import strings.
From S2P Require Import Prelude.

(** * Integers at their width *)

Definition u8 (x : Z) : Z := x mod 2 ^ 8.
Definition u16 (x : Z) : Z := x mod 2 ^ 16.
Definition u32 (x : Z) : Z := x mod 2 ^ 32.
Definition i8 (x : Z) : Z := (x + 2 ^ 7) mod 2 ^ 8 - 2 ^ 7.
Definition i16 (x : Z) : Z := (x + 2 ^ 15) mod 2 ^ 16 - 2 ^ 15.
Definition i32 (x : Z) : Z := (x + 2 ^ 31) mod 2 ^ 32 - 2 ^ 31.

(** The bytes of a string literal. *)
Definition txt (s : string) : list Z := (λ c, Z.of_N (Ascii.N_of_ascii c)) <$> String.list_ascii_of_string s.
Arguments txt s%_string_scope.

(** The truth value of a C condition on an integer. *)
Definition truth (x : Z) : bool := negb (x =? 0).
(** [x & m] used as a condition. *)
Definition has (x m : Z) : bool := truth (Z.land x m).

Lemma u8_range x : 0 ≤ u8 x < 2 ^ 8.
Proof. unfold u8. zlia. Qed.
Lemma u16_range x : 0 ≤ u16 x < 2 ^ 16.
Proof. unfold u16. zlia. Qed.
Lemma u32_range x : 0 ≤ u32 x < 2 ^ 32.
Proof. unfold u32. zlia. Qed.
Lemma i32_range x : - 2 ^ 31 ≤ i32 x < 2 ^ 31.
Proof. unfold i32. zlia. Qed.

Lemma u16_id x : 0 ≤ x < 2 ^ 16 → u16 x = x.
Proof. unfold u16. zlia. Qed.
Lemma u32_id x : 0 ≤ x < 2 ^ 32 → u32 x = x.
Proof. unfold u32. zlia. Qed.
Lemma i8_id x : - 2 ^ 7 ≤ x < 2 ^ 7 → i8 x = x.
Proof. unfold i8. zlia. Qed.
Lemma i16_id x : - 2 ^ 15 ≤ x < 2 ^ 15 → i16 x = x.
Proof. unfold i16. zlia. Qed.
Lemma i32_id x : - 2 ^ 31 ≤ x < 2 ^ 31 → i32 x = x.
Proof. unfold i32. zlia. Qed.

Create HintDb machine discriminated.
#[export] Hint Resolve u8_range u16_range u32_range i32_range : machine.

(** * Bytes of a block *)

Definition byte_ok (b : Z) : Prop := 0 ≤ b < 2 ^ 8.

(** The [n] bytes at offset [off], when they are inside the block. *)
Definition slice (off n : nat) (d : list Z) : option (list Z) :=
  if decide (off + n ≤ length d)%nat then Some (take n (drop off d)) else None.

(** The block with the bytes [bs] written at [off], when they fit. *)
Definition splice (off : nat) (bs d : list Z) : option (list Z) :=
  if decide (off + length bs ≤ length d)%nat
  then Some (take off d ++ bs ++ drop (off + length bs) d) else None.

Definition load_le (n off : nat) (d : list Z) : option Z :=
  little_endian_to_Z 8 <$> slice off n d.
Definition store_le (n off : nat) (v : Z) (d : list Z) : option (list Z) :=
  splice off (Z_to_little_endian (Z.of_nat n) 8 v) d.

Lemma slice_Some off n d bs :
  slice off n d = Some bs ↔ (off + n ≤ length d)%nat ∧ bs = take n (drop off d).
Proof.
  unfold slice. case_decide; split; [by intros [= <-] | by intros [_ ->] | done | lia].
Qed.

Lemma splice_Some off bs d d' :
  splice off bs d = Some d' ↔
  (off + length bs ≤ length d)%nat ∧ d' = take off d ++ bs ++ drop (off + length bs) d.
Proof.
  unfold splice. case_decide; split; [by intros [= <-] | by intros [_ ->] | done | lia].
Qed.

Lemma length_splice off bs d d' : splice off bs d = Some d' → length d' = length d.
Proof.
  intros [Hle ->]%splice_Some.
  rewrite !length_app, length_take, length_drop. lia.
Qed.

Lemma lookup_splice off bs d d' i :
  splice off bs d = Some d' →
  d' !! i = if decide (off ≤ i < off + length bs)%nat then bs !! (i - off)%nat else d !! i.
Proof.
  intros [Hle ->]%splice_Some. case_decide.
  - rewrite lookup_app_r; rewrite length_take; [|lia].
    rewrite lookup_app_l by lia. f_equal. lia.
  - destruct (decide (i < off)%nat).
    + rewrite lookup_app_l by (rewrite length_take; lia). apply lookup_take_lt. lia.
    + rewrite lookup_app_r by (rewrite length_take; lia).
      rewrite length_take, lookup_app_r by lia.
      rewrite lookup_drop. f_equal. lia.
Qed.

Lemma slice_splice_eq off bs d d' :
  splice off bs d = Some d' → slice off (length bs) d' = Some bs.
Proof.
  intros H. apply slice_Some. rewrite (length_splice _ _ _ _ H).
  apply splice_Some in H as [Hle ->]. split; [lia|].
  rewrite drop_app_length' by (rewrite length_take; lia).
  by rewrite take_app_length.
Qed.

Lemma slice_splice_ne off bs d d' off2 n :
  splice off bs d = Some d' →
  (off2 + n ≤ off ∨ off + length bs ≤ off2)%nat →
  slice off2 n d' = slice off2 n d.
Proof.
  intros H Hdis. unfold slice. rewrite (length_splice _ _ _ _ H).
  case_decide; [|done]. f_equal. apply list_eq. intros i.
  destruct (decide (i < n)%nat).
  - rewrite !lookup_take_lt, !lookup_drop by lia.
    rewrite (lookup_splice _ _ _ _ _ H), decide_False by lia. done.
  - rewrite !lookup_take_ge by lia. done.
Qed.

Lemma length_le n v : length (Z_to_little_endian (Z.of_nat n) 8 v) = n.
Proof. apply Nat2Z.inj. apply length_Z_to_little_endian. lia. Qed.

Lemma le_bytes_ok n v : Forall byte_ok (Z_to_little_endian (Z.of_nat n) 8 v).
Proof.
  pose proof (Z_to_little_endian_bound (Z.of_nat n) 8 v) as H.
  eapply Forall_impl; [apply H; lia|]. unfold byte_ok. lia.
Qed.

Lemma store_le_is_Some n off v d :
  (off + n ≤ length d)%nat → is_Some (store_le n off v d).
Proof. intros. unfold store_le, splice. rewrite length_le, decide_True by lia. eauto. Qed.

Lemma load_le_is_Some n off d : (off + n ≤ length d)%nat → is_Some (load_le n off d).
Proof. intros. unfold load_le, slice. rewrite decide_True by lia. eauto. Qed.

Lemma length_store_le n off v d d' : store_le n off v d = Some d' → length d' = length d.
Proof. apply length_splice. Qed.

(** Reading back what was written gives the value modulo the width of the field. *)
Lemma load_store_eq n off v d d' :
  store_le n off v d = Some d' → load_le n off d' = Some (v mod 2 ^ (Z.of_nat n * 8)).
Proof.
  unfold store_le, load_le. intros H%slice_splice_eq.
  rewrite length_le in H. rewrite H. simpl. f_equal.
  rewrite little_endian_to_Z_to_little_endian by lia. done.
Qed.

Lemma load_store_ne n off v d d' n2 off2 :
  store_le n off v d = Some d' →
  (off2 + n2 ≤ off ∨ off + n ≤ off2)%nat →
  load_le n2 off2 d' = load_le n2 off2 d.
Proof.
  intros H Hdis. unfold load_le. erewrite slice_splice_ne; [done|exact H|].
  rewrite length_le. done.
Qed.

Lemma splice_bytes_ok off bs d d' :
  splice off bs d = Some d' → Forall byte_ok bs → Forall byte_ok d → Forall byte_ok d'.
Proof.
  intros [_ ->]%splice_Some Hbs Hd.
  rewrite !Forall_app. auto using Forall_take, Forall_drop.
Qed.

Lemma load_le_range n off d v :
  Forall byte_ok d → load_le n off d = Some v → 0 ≤ v < 2 ^ (8 * Z.of_nat n).
Proof.
  intros Hd. unfold load_le. destruct (slice off n d) as [bs|] eqn:E; simpl; [|done].
  intros [= <-]. apply slice_Some in E as [Hle ->].
  set (bs := take n (drop off d)).
  assert (Forall byte_ok bs) as Hbs by (subst bs; auto using Forall_take, Forall_drop).
  assert (length bs = n) as Hlen by (subst bs; rewrite length_take, length_drop; lia).
  pose proof (little_endian_to_Z_bound 8 bs) as Hb. rewrite Hlen in Hb.
  replace (8 * Z.of_nat n) with (Z.of_nat n * 8) by lia. apply Hb; [lia|].
  eapply Forall_impl; [exact Hbs|]. unfold byte_ok. lia.
Qed.

(** * Bit operations as arithmetic *)

Lemma land_mask n x : 0 ≤ n → Z.land x (2 ^ n - 1) = x mod 2 ^ n.
Proof. intros. rewrite <- Z.land_ones by done. by rewrite Z.ones_equiv, Z.sub_1_r. Qed.

(** Two bit fields that do not overlap are joined by [|] as by [+]. *)
Lemma lor_shiftl_add n a b : 0 ≤ n → 0 ≤ b < 2 ^ n → Z.lor (Z.shiftl a n) b = a * 2 ^ n + b.
Proof.
  intros Hn Hb. rewrite <- Z.shiftl_mul_pow2 by done.
  rewrite <- Z.lxor_lor, <- Z.add_nocarry_lxor; [done|..].
  all: apply Z.bits_inj'; intros i Hi; rewrite Z.land_spec, Z.bits_0.
  all: destruct (decide (i < n)); [by rewrite Z.shiftl_spec_low by lia|].
  all: apply andb_false_intro2, (Z.bounded_iff_bits_nonneg n b); lia.
Qed.

(** * Structures overlaid on a block

    The fields of a structure without padding are described by their widths in
    bytes; the structure is loaded from and stored at an offset. *)

Fixpoint load_fields (ws : list nat) (off : nat) (d : list Z) : option (list Z) :=
  match ws with
  | [] => Some []
  | w :: ws =>
      v ← load_le w off d; vs ← load_fields ws (off + w) d; Some (v :: vs)
  end.
Fixpoint store_fields (ws : list nat) (off : nat) (vs d : list Z) : option (list Z) :=
  match ws, vs with
  | w :: ws, v :: vs => d' ← store_le w off v d; store_fields ws (off + w) vs d'
  | _, _ => Some d
  end.

(** The values [vs] cut to the widths [ws]. *)
Definition trim_fields (ws : list nat) (vs : list Z) : list Z :=
  zip_with (λ w v, v mod 2 ^ (Z.of_nat w * 8)) ws vs.

Lemma length_store_fields ws off vs d d' :
  store_fields ws off vs d = Some d' → length d' = length d.
Proof.
  revert off vs d. induction ws as [|w ws IH]; intros off [|v vs] d; simpl; try by intros [= <-].
  destruct (store_le w off v d) as [d1|] eqn:E; simpl; [|done].
  intros H%IH. by rewrite H, (length_store_le _ _ _ _ _ E).
Qed.

Lemma store_fields_is_Some ws off vs d :
  (off + sum_list ws ≤ length d)%nat → is_Some (store_fields ws off vs d).
Proof.
  revert off vs d. induction ws as [|w ws IH]; intros off [|v vs] d; simpl; eauto.
  intros Hlen. destruct (store_le_is_Some w off v d) as [d' Hd]; [lia|].
  rewrite Hd; simpl. apply IH. rewrite (length_store_le _ _ _ _ _ Hd). lia.
Qed.

Lemma load_fields_is_Some ws off d :
  (off + sum_list ws ≤ length d)%nat → is_Some (load_fields ws off d).
Proof.
  revert off. induction ws as [|w ws IH]; intros off; simpl; eauto. intros Hlen.
  destruct (load_le_is_Some w off d) as [v ->]; [lia|]. simpl.
  destruct (IH (off + w)%nat) as [vs ->]; [lia|]. simpl. eauto.
Qed.

Lemma load_store_fields_ne ws off vs d d' n2 off2 :
  store_fields ws off vs d = Some d' →
  (off2 + n2 ≤ off ∨ off + sum_list ws ≤ off2)%nat →
  load_le n2 off2 d' = load_le n2 off2 d.
Proof.
  revert off vs d. induction ws as [|w ws IH]; intros off [|v vs] d; simpl; try by intros [= <-].
  destruct (store_le w off v d) as [d1|] eqn:E; simpl; [|done].
  intros H Hdis. rewrite (IH _ _ _ H) by lia. eapply load_store_ne; [exact E|]. lia.
Qed.

(** What was stored is loaded again, cut to the widths of the fields. *)
Lemma load_store_fields ws off vs d d' :
  length vs = length ws → store_fields ws off vs d = Some d' →
  load_fields ws off d' = Some (trim_fields ws vs).
Proof.
  revert off vs d. induction ws as [|w ws IH]; intros off [|v vs] d; simpl; try done.
  intros [= Hlen]. destruct (store_le w off v d) as [d1|] eqn:E; simpl; [|done].
  intros H. rewrite (load_store_fields_ne _ _ _ _ _ w off H) by lia.
  rewrite (load_store_eq _ _ _ _ _ E). simpl. by rewrite (IH _ _ _ Hlen H).
Qed.

(** A structure elsewhere in the block is not touched. *)
Lemma load_fields_store_ne ws off vs d d' ws2 off2 :
  store_fields ws off vs d = Some d' →
  (off2 + sum_list ws2 ≤ off ∨ off + sum_list ws ≤ off2)%nat →
  load_fields ws2 off2 d' = load_fields ws2 off2 d.
Proof.
  intros H. revert off2. induction ws2 as [|w2 ws2 IH]; intros off2; simpl; [done|].
  intros Hdis. rewrite (load_store_fields_ne _ _ _ _ _ w2 off2 H) by lia.
  by rewrite IH by lia.
Qed.

Lemma length_load_fields ws off d vs : load_fields ws off d = Some vs → length vs = length ws.
Proof.
  revert off vs. induction ws as [|w ws IH]; intros off vs; simpl; [by intros [= <-]|].
  destruct (load_le w off d) as [v|]; simpl; [|done].
  destruct (load_fields ws (off + w) d) as [vs'|] eqn:E; simpl; [|done].
  intros [= <-]. simpl. f_equal. by eapply IH.
Qed.

Lemma load_le_take n off m d : (off + n ≤ m)%nat → load_le n off (take m d) = load_le n off d.
Proof.
  intros Hm. unfold load_le, slice. rewrite length_take.
  repeat case_decide; try lia; [|done]. by rewrite skipn_firstn_comm, take_take, Nat.min_l by lia.
Qed.

Lemma load_fields_take ws off m d :
  (off + sum_list ws ≤ m)%nat → load_fields ws off (take m d) = load_fields ws off d.
Proof.
  revert off. induction ws as [|w ws IH]; intros off; simpl; [done|]. intros H.
  by rewrite load_le_take, IH by lia.
Qed.

Lemma store_fields_bytes_ok ws off vs d d' :
  store_fields ws off vs d = Some d' → Forall byte_ok d → Forall byte_ok d'.
Proof.
  revert off vs d. induction ws as [|w ws IH]; intros off [|v vs] d; simpl; try by intros [= <-].
  destruct (store_le w off v d) as [d1|] eqn:E; simpl; [|done]. intros H Hd.
  apply (IH _ _ _ H). eapply splice_bytes_ok; [exact E|apply le_bytes_ok|done].
Qed.

Lemma land_bound a m : 0 ≤ m → 0 ≤ Z.land a m ≤ m.
Proof.
  intros Hm. split; [apply Z.land_nonneg; lia|].
  assert (Z.land a m + Z.ldiff m a = m) as E.
  { rewrite Z.add_nocarry_lxor.
    - apply Z.bits_inj'. intros n _. rewrite Z.lxor_spec, Z.land_spec, Z.ldiff_spec.
      by destruct (Z.testbit a n), (Z.testbit m n).
    - apply Z.bits_inj'. intros n _. rewrite !Z.land_spec, Z.ldiff_spec, Z.bits_0.
      by destruct (Z.testbit a n), (Z.testbit m n). }
  assert (0 ≤ Z.ldiff m a) by (apply Z.ldiff_nonneg; lia). lia.
Qed.

(** A test of one bit. *)
Lemma has_bit k i : 0 ≤ i → has k (Z.shiftl 1 i) = Z.testbit k i.
Proof.
  intros Hi. unfold has, truth. rewrite Z.shiftl_1_l.
  destruct (Z.testbit k i) eqn:E.
  - apply negb_true_iff, Z.eqb_neq. intros H. apply (f_equal (λ z, Z.testbit z i)) in H.
    rewrite Z.land_spec, E, Z.pow2_bits_true, Z.bits_0 in H by done. done.
  - apply negb_false_iff, Z.eqb_eq, Z.bits_inj'. intros j Hj.
    rewrite Z.land_spec, Z.bits_0, Z.pow2_bits_eqb by done.
    destruct (Z.eqb_spec i j) as [->|]; [by rewrite E|apply andb_false_r].
Qed.
