(* ===== verification/State.v ===== *)
(** The data of the file server: the tables declared in buf.h, inode.h,
    super.h, file.h, fproc.h, lock.h and dmap.h, the globals of glo.h, the
    message of minix/ipc.h, and the interface of the kernel below it. *)

From S2P Require Import Prelude Machine.

(** * Constants *)

(** minix/const.h *)
Definition HZ : Z := 60.
Definition MAJOR : Z := 8.
Definition MINOR : Z := 0.
Definition BYTE : Z := 255.
Definition I_TYPE : Z := 61440.           (* 0170000 *)
Definition I_REGULAR : Z := 32768.        (* 0100000 *)
Definition I_BLOCK_SPECIAL : Z := 24576.  (* 0060000 *)
Definition I_DIRECTORY : Z := 16384.      (* 0040000 *)
Definition I_CHAR_SPECIAL : Z := 8192.    (* 0020000 *)
Definition I_NAMED_PIPE : Z := 4096.      (* 0010000 *)
Definition I_SET_UID_BIT : Z := 2048.     (* 0004000 *)
Definition I_SET_GID_BIT : Z := 1024.     (* 0002000 *)
Definition ALL_MODES : Z := 3583.         (* 0006777 *)
Definition RWX_MODES : Z := 511.          (* 0000777 *)
Definition R_BIT : Z := 4.
Definition W_BIT : Z := 2.
Definition X_BIT : Z := 1.
Definition I_NOT_ALLOC : Z := 0.
Definition MAX_FILE_POS : Z := 4294967295. (* (off_t) 037777777777 *)
Definition NO_BLOCK : Z := 0.
Definition NO_ZONE : Z := 0.
Definition NO_DEV : Z := 0.

(** dirent.h, sys/dir.h, limits_minix.h *)
Definition MIN_BLOCK_SIZE : Z := 1024.
Definition MAX_BLOCK_SIZE : Z := 4096.
Definition STATIC_BLOCK_SIZE : Z := 1024.
Definition NAME_MAX : Z := 60.
Definition PATH_MAX : Z := 255.
Definition OPEN_MAX : nat := 20.
Definition CHAR_MAX : Z := 127.
Definition SHRT_MAX : Z := 32767.

(** const.h *)
Definition V1_NR_DZONES : Z := 7.
Definition V1_NR_TZONES : nat := 9.
Definition V2_NR_DZONES : Z := 7.
Definition V2_NR_TZONES : nat := 10.
Definition NR_FILPS : nat := 128.
Definition NR_INODES : nat := 64.
Definition NR_SUPERS : nat := 8.
Definition NR_LOCKS : nat := 8.
Definition NR_PROCS : nat := 100.
Definition NR_TASKS : Z := 4.
Definition SU_UID : Z := 0.
Definition ROOT_INODE : Z := 1.
Definition SUPER_BLOCK_BYTES : Z := 1024.
Definition START_BLOCK : Z := 2.
Definition END_OF_FILE : Z := -104.
Definition NO_BIT : Z := 0.
Definition V1 : Z := 1.
Definition V2 : Z := 2.
Definition V3 : Z := 3.
Definition ATIME : Z := 2.
Definition CTIME : Z := 4.
Definition MTIME : Z := 8.
Definition V1_INDIRECTS : Z := 512.       (* STATIC_BLOCK_SIZE / 2 *)
Definition V1_INODES_PER_BLOCK : Z := 32. (* STATIC_BLOCK_SIZE / 32 *)
Definition V2_INDIRECTS (b : Z) : Z := b / 4.
Definition V2_INODES_PER_BLOCK (b : Z) : Z := b / 64.
Definition DIR_ENTRY_SIZE : Z := 64.
Definition NR_DIR_ENTRIES (b : Z) : Z := b / DIR_ENTRY_SIZE.
Definition FS_BITMAP_CHUNKS (b : Z) : Z := b / 2.
Definition FS_BITCHUNK_BITS : Z := 16.
Definition FS_BITS_PER_BLOCK (b : Z) : Z := FS_BITMAP_CHUNKS b * FS_BITCHUNK_BITS.
Definition PIPE_SIZE (b : Z) : Z := V1_NR_DZONES * b.

(** errno.h, the FS being compiled with [_SYSTEM] (negative codes) *)
Definition OK : Z := 0.
Definition EGENERIC : Z := -99.
Definition EPERM : Z := -1.
Definition ENOENT : Z := -2.
Definition EINTR : Z := -4.
Definition EIO : Z := -5.
Definition ENXIO : Z := -6.
Definition EBADF : Z := -9.
Definition EAGAIN : Z := -11.
Definition EACCES : Z := -13.
Definition ENOTBLK : Z := -15.
Definition EBUSY : Z := -16.
Definition EEXIST : Z := -17.
Definition EXDEV : Z := -18.
Definition ENODEV : Z := -19.
Definition ENOTDIR : Z := -20.
Definition EISDIR : Z := -21.
Definition EINVAL : Z := -22.
Definition ENFILE : Z := -23.
Definition EMFILE : Z := -24.
Definition ENOTTY : Z := -25.
Definition EFBIG : Z := -27.
Definition ENOSPC : Z := -28.
Definition ESPIPE : Z := -29.
Definition EROFS : Z := -30.
Definition EMLINK : Z := -31.
Definition EPIPE : Z := -32.
Definition ENAMETOOLONG : Z := -36.
Definition ENOLCK : Z := -37.
Definition ENOSYS : Z := -38.
Definition ENOTEMPTY : Z := -39.
Definition ELOCKED : Z := -101.
Definition EDEADSRCDST : Z := -105.
Definition ESRCDIED : Z := -108.
Definition EDSTDIED : Z := -109.

(** minix/com.h, minix/callnr.h *)
Definition SUSPEND : Z := -998.
Definition NONE : Z := 27342.             (* 0x6ace *)
Definition ANY : Z := 31438.              (* 0x7ace *)
Definition PM_PROC_NR : Z := 0.
Definition FS_PROC_NR : Z := 1.
Definition INIT_PROC_NR : nat := 8.
Definition CANCEL : Z := 1024.
Definition DEV_READ : Z := 1027.
Definition DEV_WRITE : Z := 1028.
Definition DEV_IOCTL : Z := 1029.
Definition DEV_OPEN : Z := 1030.
Definition DEV_CLOSE : Z := 1031.
Definition DEV_SCATTER : Z := 1032.
Definition DEV_GATHER : Z := 1033.
Definition DEV_SELECT : Z := 1036.
Definition DEV_STATUS : Z := 1037.
Definition DEV_REVIVE : Z := 1282.
Definition DEV_IO_READY : Z := 1283.
Definition DEV_NO_STATUS : Z := 1284.
Definition REVIVE : Z := 67.
Definition XPIPE : Z := -5.               (* -NR_TASKS-1 *)
Definition XLOCK : Z := -6.
Definition XPOPEN : Z := -7.
Definition XSELECT : Z := -8.
Definition READ : Z := 3.
Definition WRITE : Z := 4.
Definition OPEN : Z := 5.
Definition CREAT : Z := 8.
Definition UNLINK : Z := 10.
Definition SETUID : Z := 23.
Definition ACCESS : Z := 33.
Definition SETGID : Z := 46.
Definition SIGPIPE : Z := 13.
Definition SELF : Z := 35534.             (* 0x8ace *)
Definition SEG_D : Z := 1.                (* D, the data segment *)
Definition DEV_RAM : Z := 256.            (* 0x0100 *)
Definition NR_DEVICES : nat := 32.

(** fcntl.h, unistd.h *)
Definition F_DUPFD : Z := 0.
Definition F_GETFD : Z := 1.
Definition F_SETFD : Z := 2.
Definition F_GETFL : Z := 3.
Definition F_SETFL : Z := 4.
Definition F_GETLK : Z := 5.
Definition F_SETLK : Z := 6.
Definition F_SETLKW : Z := 7.
Definition FD_CLOEXEC : Z := 1.
Definition F_RDLCK : Z := 1.
Definition F_WRLCK : Z := 2.
Definition F_UNLCK : Z := 3.
Definition O_WRONLY : Z := 1.
Definition O_CREAT : Z := 64.             (* 00100 *)
Definition O_EXCL : Z := 128.             (* 00200 *)
Definition O_NOCTTY : Z := 256.           (* 00400 *)
Definition O_TRUNC : Z := 512.            (* 01000 *)
Definition O_APPEND : Z := 1024.          (* 02000 *)
Definition O_NONBLOCK : Z := 2048.        (* 04000 *)
Definition O_ACCMODE : Z := 3.
Definition SEEK_SET : Z := 0.
Definition SEEK_CUR : Z := 1.
Definition SEEK_END : Z := 2.

(** Directions of a transfer and the dirty flag of a buffer or an inode. *)
Inductive rw := READING | WRITING.
#[global] Instance rw_eq_dec : EqDecision rw.
Proof. solve_decision. Defined.
Abbreviation DIRTY := true (only parsing).
Abbreviation CLEAN := false (only parsing).

(** How [get_block] treats a block that is not in the cache. *)
Inductive search_mode := NORMAL | NO_READ | PREFETCH.
#[global] Instance search_mode_eq_dec : EqDecision search_mode.
Proof. solve_decision. Defined.

(** * The tables

    A pointer into a table is the index of the slot, NIL is [None]. *)

(** buf.h.  The free list is doubly linked by [b_next] and [b_prev], the hash
    chains are linked by [b_hash].  [b_count] is a char. *)
Record buf := Buf {
  b_data : list Z;
  b_next : option nat;
  b_prev : option nat;
  b_hash : option nat;
  b_blocknr : Z;
  b_dev : Z;
  b_dirt : bool;
  b_count : Z
}.
#[global] Instance buf_fields : Fields buf := λ r,
  Buf (b_data r) (b_next r) (b_prev r) (b_hash r) (b_blocknr r) (b_dev r)
    (b_dirt r) (b_count r).

(** inode.h *)
Record inode := Inode {
  i_mode : Z;
  i_nlinks : Z;
  i_uid : Z;
  i_gid : Z;
  i_size : Z;
  i_atime : Z;
  i_mtime : Z;
  i_ctime : Z;
  i_zone : list Z;
  i_dev : Z;
  i_num : Z;
  i_count : Z;
  i_ndzones : Z;
  i_nindirs : Z;
  i_sp : option nat;
  i_dirt : bool;
  i_pipe : bool;
  i_mount : bool;
  i_seek : bool;
  i_update : Z
}.
#[global] Instance inode_fields : Fields inode := λ r,
  Inode (i_mode r) (i_nlinks r) (i_uid r) (i_gid r) (i_size r) (i_atime r)
    (i_mtime r) (i_ctime r) (i_zone r) (i_dev r) (i_num r) (i_count r)
    (i_ndzones r) (i_nindirs r) (i_sp r) (i_dirt r) (i_pipe r) (i_mount r)
    (i_seek r) (i_update r).

(** super.h *)
Record super_block := SuperBlock {
  s_ninodes : Z;
  s_nzones : Z;
  s_imap_blocks : Z;
  s_zmap_blocks : Z;
  s_firstdatazone : Z;
  s_log_zone_size : Z;
  s_max_size : Z;
  s_zones : Z;
  s_magic : Z;
  s_block_size : Z;
  s_disk_version : Z;
  s_isup : option nat;
  s_imount : option nat;
  s_inodes_per_block : Z;
  s_dev : Z;
  s_rd_only : Z;
  s_native : Z;
  s_version : Z;
  s_ndzones : Z;
  s_nindirs : Z;
  s_isearch : Z;
  s_zsearch : Z
}.
#[global] Instance super_block_fields : Fields super_block := λ r,
  SuperBlock (s_ninodes r) (s_nzones r) (s_imap_blocks r) (s_zmap_blocks r)
    (s_firstdatazone r) (s_log_zone_size r) (s_max_size r) (s_zones r)
    (s_magic r) (s_block_size r) (s_disk_version r) (s_isup r) (s_imount r)
    (s_inodes_per_block r) (s_dev r) (s_rd_only r) (s_native r) (s_version r)
    (s_ndzones r) (s_nindirs r) (s_isearch r) (s_zsearch r).

(** file.h *)
Record filp := Filp {
  filp_mode : Z;
  filp_flags : Z;
  filp_count : Z;
  filp_ino : option nat;
  filp_pos : Z;
  filp_selectors : Z;
  filp_select_ops : Z;
  filp_pipe_select_ops : Z
}.
#[global] Instance filp_fields : Fields filp := λ r,
  Filp (filp_mode r) (filp_flags r) (filp_count r) (filp_ino r) (filp_pos r)
    (filp_selectors r) (filp_select_ops r) (filp_pipe_select_ops r).
Definition FILP_CLOSED : Z := 0.
Definition DMAP_MUTABLE : Z := 1.
Definition DMAP_BUSY : Z := 2.
Definition DMAP_BABY : Z := 4.

(** fproc.h *)
Record fproc := Fproc {
  fp_umask : Z;
  fp_workdir : option nat;
  fp_rootdir : option nat;
  fp_filp : list (option nat);
  fp_realuid : Z;
  fp_effuid : Z;
  fp_realgid : Z;
  fp_effgid : Z;
  fp_tty : Z;
  fp_fd : Z;
  fp_buffer : Z;
  fp_nbytes : Z;
  fp_cum_io_partial : Z;
  fp_suspended : bool;
  fp_revived : bool;
  fp_task : Z;
  fp_sesldr : bool;
  fp_execced : bool;
  fp_pid : Z;
  fp_cloexec : Z
}.
#[global] Instance fproc_fields : Fields fproc := λ r,
  Fproc (fp_umask r) (fp_workdir r) (fp_rootdir r) (fp_filp r) (fp_realuid r)
    (fp_effuid r) (fp_realgid r) (fp_effgid r) (fp_tty r) (fp_fd r)
    (fp_buffer r) (fp_nbytes r) (fp_cum_io_partial r) (fp_suspended r)
    (fp_revived r) (fp_task r) (fp_sesldr r) (fp_execced r) (fp_pid r)
    (fp_cloexec r).
Definition PID_FREE : Z := 0.

(** [isokprocnr]: system processes included. *)
Definition isokprocnr (n : Z) : bool :=
  u32 (n + NR_TASKS) <? Z.of_nat NR_PROCS + NR_TASKS.

(** lock.h *)
Record file_lock := FileLock {
  lock_type : Z;
  lock_pid : Z;
  lock_inode : option nat;
  lock_first : Z;
  lock_last : Z
}.
#[global] Instance file_lock_fields : Fields file_lock := λ r,
  FileLock (lock_type r) (lock_pid r) (lock_inode r) (lock_first r) (lock_last r).

(** select.c: a pending [select].  A set of file descriptors is one word of bits
    ([FD_SETSIZE] is [OPEN_MAX]). *)
Record selectentry := SelectEntry {
  requestor : option nat;
  req_procnr : Z;
  readfds : Z;
  writefds : Z;
  errorfds : Z;
  ready_readfds : Z;
  ready_writefds : Z;
  ready_errorfds : Z;
  vir_readfds : Z;
  vir_writefds : Z;
  vir_errorfds : Z;
  sel_filps : list (option nat);
  sel_type : list Z;
  nfds : Z;
  nreadyfds : Z;
  expiry : Z
}.
#[global] Instance selectentry_fields : Fields selectentry := λ r,
  SelectEntry (requestor r) (req_procnr r) (readfds r) (writefds r) (errorfds r)
    (ready_readfds r) (ready_writefds r) (ready_errorfds r) (vir_readfds r)
    (vir_writefds r) (vir_errorfds r) (sel_filps r) (sel_type r) (nfds r)
    (nreadyfds r) (expiry r).
Definition MAXSELECTS : nat := 25.
Definition FD_SETSIZE : nat := OPEN_MAX.
Definition SEL_RD : Z := 1.
Definition SEL_WR : Z := 2.
Definition SEL_ERR : Z := 4.
Definition SEL_NOTIFY : Z := 8.

(** minix/dmap.h: the routines an entry may hold are those of device.c. *)
Inductive opcl_routine := no_dev_opcl | gen_opcl_r | tty_opcl_r | ctty_opcl_r | clone_opcl_r | null_opcl.
Inductive io_routine := no_dev_io_r | gen_io_r | ctty_io_r | null_io.
Record dmap_entry := Dmap {
  dmap_opcl : opcl_routine;
  dmap_io : io_routine;
  dmap_driver : Z;
  dmap_flags : Z
}.
#[global] Instance dmap_entry_fields : Fields dmap_entry := λ r,
  Dmap (dmap_opcl r) (dmap_io r) (dmap_driver r) (dmap_flags r).

(** minix/ipc.h.  The formats [mess_1] .. [mess_8] of the union overlay the
    same words, so a message is its words and every field name is the word it
    denotes; [m3_ca1], the string of format 3, is kept apart. *)
Record message := Message {
  m_source : Z;
  m_type : Z;
  m_w0 : Z;
  m_w1 : Z;
  m_w2 : Z;
  m_w3 : Z;
  m_w4 : Z;
  m_w5 : Z;
  m3_ca1 : list Z
}.
#[global] Instance message_fields : Fields message := λ r,
  Message (m_source r) (m_type r) (m_w0 r) (m_w1 r) (m_w2 r) (m_w3 r) (m_w4 r)
    (m_w5 r) (m3_ca1 r).
Definition M3_STRING : Z := 14.

Abbreviation m1_i1 := m_w0 (only parsing).
Abbreviation m1_i2 := m_w1 (only parsing).
Abbreviation m1_i3 := m_w2 (only parsing).
Abbreviation m1_p1 := m_w3 (only parsing).
Abbreviation m1_p2 := m_w4 (only parsing).
Abbreviation m2_i1 := m_w0 (only parsing).
Abbreviation m2_i2 := m_w1 (only parsing).
Abbreviation m2_i3 := m_w2 (only parsing).
Abbreviation m2_l1 := m_w3 (only parsing).
Abbreviation m2_l2 := m_w4 (only parsing).
Abbreviation m2_p1 := m_w5 (only parsing).
Abbreviation m3_i1 := m_w0 (only parsing).
Abbreviation m3_i2 := m_w1 (only parsing).
Abbreviation m3_p1 := m_w2 (only parsing).
(** Requests to drivers and their replies (minix/com.h). *)
Abbreviation DEVICE := m2_i1 (only parsing).
Abbreviation PROC_NR := m2_i2 (only parsing).
Abbreviation COUNT := m2_i3 (only parsing).
Abbreviation POSITION := m2_l1 (only parsing).
Abbreviation ADDRESS := m2_p1 (only parsing).
Abbreviation TTY_FLAGS := m2_l2 (only parsing).
Abbreviation REP_PROC_NR := m2_i1 (only parsing).
Abbreviation REP_STATUS := m2_i2 (only parsing).
(** The names of param.h for the parameters of a system call. *)
Abbreviation in_fd := m1_i1 (only parsing).
Abbreviation in_fd2 := m1_i2 (only parsing).
Abbreviation in_nbytes := m1_i2 (only parsing).
Abbreviation in_request := m1_i2 (only parsing).
Abbreviation in_addr := m1_i3 (only parsing).
Abbreviation in_buffer := m1_p1 (only parsing).
Abbreviation in_name1 := m1_p1 (only parsing).
Abbreviation in_name2 := m1_p2 (only parsing).
Abbreviation in_name1_length := m1_i1 (only parsing).
Abbreviation in_name2_length := m1_i2 (only parsing).
Abbreviation in_name := m3_p1 (only parsing).
Abbreviation in_name_length := m3_i1 (only parsing).
Abbreviation in_mode := m3_i2 (only parsing).
Abbreviation in_slot1 := m1_i1 (only parsing).
Abbreviation in_pro := m1_i1 (only parsing).
Abbreviation in_ls_fd := m2_i1 (only parsing).
Abbreviation in_whence := m2_i2 (only parsing).
Abbreviation in_offset := m2_l1 (only parsing).
Abbreviation in_owner := m1_i2 (only parsing).
Abbreviation in_group := m1_i3 (only parsing).
Abbreviation in_co_mode := m1_i1 (only parsing).
Abbreviation in_utime_actime := m2_l1 (only parsing).
Abbreviation in_utime_modtime := m2_l2 (only parsing).
Abbreviation in_utime_file := m2_p1 (only parsing).
Abbreviation in_utime_length := m2_i1 (only parsing).
Abbreviation in_utime_strlen := m2_i2 (only parsing).
Abbreviation in_pm_stime := m1_i1 (only parsing).
Abbreviation in_mk_mode := m1_i2 (only parsing).
Abbreviation in_mk_z0 := m1_i3 (only parsing).
Abbreviation in_c_mode := m1_i3 (only parsing).
Abbreviation in_c_name := m1_p1 (only parsing).
Abbreviation in_rd_only := m1_i3 (only parsing).
Abbreviation in_parent := m1_i1 (only parsing).
Abbreviation in_child := m1_i2 (only parsing).
Abbreviation in_pid := m1_i3 (only parsing).
Abbreviation in_real_user_id := m1_i2 (only parsing).
Abbreviation in_eff_user_id := m1_i3 (only parsing).
Abbreviation in_real_grp_id := m1_i2 (only parsing).
Abbreviation in_eff_grp_id := m1_i3 (only parsing).
Abbreviation in_svrctl_req := m2_i1 (only parsing).
Abbreviation in_svrctl_argp := m2_p1 (only parsing).
Abbreviation in_ctl_req := m_w0 (only parsing).
Abbreviation in_driver_nr := m_w1 (only parsing).
Abbreviation in_dev_nr := m_w2 (only parsing).
Abbreviation in_dev_style := m_w3 (only parsing).

(** * Build-time configuration and the kernel *)

(** minix/config.h leaves the size of the cache to the builder; the bounds are
    those [fs_init] and the comments of config.h ask for.  [inode_at] says which
    slot of the inode table a machine address denotes, for the pointers that
    [read_super] copies from the disk into a super block.  [loop_fuel] bounds the
    loops to which the source gives no bound: the messages a driver sends for
    other processes before it answers a request, the mount points crossed by a
    component of a path, the directories climbed by [do_rename]. *)
Class Config := {
  NR_BUFS : nat;
  NR_BUF_HASH : Z;
  inode_at : Z → option nat;
  loop_fuel : nat;
  NR_BUFS_min : (6 ≤ NR_BUFS)%nat;
  NR_BUF_HASH_pos : 0 < NR_BUF_HASH;
  loop_fuel_pos : (1 < loop_fuel)%nat
}.
Definition NR_IOREQS {cfg : Config} : nat := Nat.min NR_BUFS 64.

(** The memory of the server that a request lends to a driver: an entry of an
    I/O vector, with the bytes at its address and what is left to transfer. *)
Record iov := Iov { iov_data : list Z; iov_size : Z }.

(** The kernel calls the server makes and the timer library it is linked with
    (lib/timers of the system).  They are not part of the repository: [K] is the
    state of everything outside the server, the queue of timers included; the
    timer of a [select] is known by the slot of its entry.  [k_sysinfo] copies
    the memory image of a table to a process; [k_sigismember] is the library's
    [sigismember]. *)
Class Kernel := {
  K : Type;
  k_sendrec : Z → message → list iov → K → Z * message * list iov * K;
  k_receive : Z → list iov → K → Z * message * list iov * K;
  k_send : Z → message → K → Z * K;
  k_vircopy_from : Z → Z → Z → Z → K → Z * list Z;
  k_vircopy_to : Z → Z → Z → list Z → K → Z * K;
  k_umap : Z → Z → Z → Z → K → Z;
  k_getuptime : K → Z * Z;
  k_kill : Z → Z → K → K;
  k_setalarm : Z → Z → K → Z * K;
  k_tmr_inittimer : nat → K → K;
  k_tmrs_settimer : nat → Z → K → Z * Z * K;
  k_tmrs_clrtimer : nat → K → Z * Z * K;
  k_tmrs_exptimers : Z → K → list nat * Z * K;
  k_sysinfo : Z → Z → Z → K → Z * K;
  k_sigismember : Z → Z → bool
}.

(** * The state of the server *)

(** buf.h: the pool, the hash table, the free list; [rdwt_err] of glo.h is the
    status of the last disk transfer of the cache. *)
Record cache_state := CacheState {
  bufs : list buf;
  buf_hash : list (option nat);
  front : option nat;
  rear : option nat;
  bufs_in_use : Z;
  rdwt_err : Z
}.
#[global] Instance cache_state_fields : Fields cache_state := λ r,
  CacheState (bufs r) (buf_hash r) (front r) (rear r) (bufs_in_use r) (rdwt_err r).

Record tables := Tables {
  inodes : list inode;
  supers : list super_block;
  filps : list filp;
  fprocs : list fproc;
  file_locks : list file_lock;
  dmaps : list dmap_entry;
  selecttab : list selectentry
}.
#[global] Instance tables_fields : Fields tables := λ r,
  Tables (inodes r) (supers r) (filps r) (fprocs r) (file_locks r) (dmaps r)
    (selecttab r).

(** glo.h *)
Record globals := Globals {
  fp : nat;
  super_user : bool;
  susp_count : Z;
  nr_locks : Z;
  reviving : Z;
  rdahedpos : Z;
  rdahed_inode : option nat;
  root_dev : Z;
  boottime : Z;
  m_in : message;
  m_out : message;
  who : Z;
  call_nr : Z;
  user_path : list Z;
  err_code : Z
}.
#[global] Instance globals_fields : Fields globals := λ r,
  Globals (fp r) (super_user r) (susp_count r) (nr_locks r) (reviving r)
    (rdahedpos r) (rdahed_inode r) (root_dev r) (boottime r) (m_in r) (m_out r)
    (who r) (call_nr r) (user_path r) (err_code r).

Record st {krn : Kernel} := St {
  kern : K;
  cache : cache_state;
  tabs : tables;
  glo : globals
}.
#[global] Instance st_fields {krn : Kernel} : Fields st := λ r,
  St krn (kern r) (cache r) (tabs r) (glo r).

(** A table of the state, addressed by the type of its slots. *)
Class Table {krn : Kernel} (T : Type) := {
  table : st → list T;
  with_table : list T → st → st;
  table_with l s : table (with_table l s) = l;
  with_table_self s : with_table (table s) s = s;
  with_table_twice l l' s : with_table l (with_table l' s) = with_table l s
}.

Section tables.
Context {krn : Kernel}.

#[global] Program Instance buf_table : Table buf := {|
  table s := bufs (cache s);
  with_table l s := s <| cache ::= λ c, c <| bufs := l |> |>
|}.
#[global] Program Instance inode_table : Table inode := {|
  table s := inodes (tabs s);
  with_table l s := s <| tabs ::= λ t, t <| inodes := l |> |>
|}.
#[global] Program Instance super_table : Table super_block := {|
  table s := supers (tabs s);
  with_table l s := s <| tabs ::= λ t, t <| supers := l |> |>
|}.
#[global] Program Instance filp_table : Table filp := {|
  table s := filps (tabs s);
  with_table l s := s <| tabs ::= λ t, t <| filps := l |> |>
|}.
#[global] Program Instance fproc_table : Table fproc := {|
  table s := fprocs (tabs s);
  with_table l s := s <| tabs ::= λ t, t <| fprocs := l |> |>
|}.
#[global] Program Instance lock_table : Table file_lock := {|
  table s := file_locks (tabs s);
  with_table l s := s <| tabs ::= λ t, t <| file_locks := l |> |>
|}.
#[global] Program Instance dmap_table : Table dmap_entry := {|
  table s := dmaps (tabs s);
  with_table l s := s <| tabs ::= λ t, t <| dmaps := l |> |>
|}.
#[global] Program Instance select_table : Table selectentry := {|
  table s := selecttab (tabs s);
  with_table l s := s <| tabs ::= λ t, t <| selecttab := l |> |>
|}.
Solve All Obligations with (intros; try by destruct s as [? [] [] []]).
End tables.
