(* ===== verification/Monad.v ===== *)
(** The effects of the server's code: a state that a call may change, and the
    three ways a call does not return: [panic()], undefined behaviour of C (a
    NIL or dangling pointer, an index outside its table) and, for the loops
    without a bound in the source, running out of the fuel the model gives. *)

From S2P Require Import Prelude Machine State.

Inductive outcome (S A : Type) :=
  | Ret (a : A) (s : S)
  | Panic (num : Z) (s : S)
  | Fault
  | NoFuel.
Arguments Ret {S A} a s.
Arguments Panic {S A} num s.
Arguments Fault {S A}.
Arguments NoFuel {S A}.

(** The argument of [panic()] when there is no number to print. *)
Definition NO_NUM : Z := 32768.

Section monad.
Context {krn : Kernel}.

Definition M (A : Type) : Type := st → outcome st A.

#[global] Instance M_ret : MRet M := λ A a s, Ret a s.
#[global] Instance M_fmap : FMap M := λ A B f m s,
  match m s with
  | Ret a s' => Ret (f a) s'
  | Panic n s' => Panic n s'
  | Fault => Fault
  | NoFuel => NoFuel
  end.
#[global] Instance M_bind : MBind M := λ A B k m s,
  match m s with
  | Ret a s' => k a s'
  | Panic n s' => Panic n s'
  | Fault => Fault
  | NoFuel => NoFuel
  end.

Definition gets {A} (f : st → A) : M A := λ s, Ret (f s) s.
Definition modify (f : st → st) : M unit := λ s, Ret tt (f s).
Definition panic {A} (num : Z) : M A := λ s, Panic num s.
Definition fault {A} : M A := λ _, Fault.
Definition no_fuel {A} : M A := λ _, NoFuel.

(** Dereferencing a pointer that may be NIL. *)
Definition deref {A} (p : option A) : M A :=
  match p with Some a => mret a | None => fault end.

(** Fields of the slot [i] of a table. *)
Definition rd {T A} `{!Table T} (f : T → A) (i : nat) : M A := λ s,
  match table s !! i with Some x => Ret (f x) s | None => Fault end.
Definition wr {T} `{!Table T} (i : nat) (f : T → T) : M unit := λ s,
  match table s !! i with
  | Some x => Ret tt (with_table (<[i := f x]> (table s)) s)
  | None => Fault
  end.

Definition rg {A} (f : globals → A) : M A := gets (λ s, f (glo s)).
Definition wg (f : globals → globals) : M unit := modify (λ s, s <| glo ::= f |>).
Definition rc {A} (f : cache_state → A) : M A := gets (λ s, f (cache s)).
Definition wc (f : cache_state → cache_state) : M unit :=
  modify (λ s, s <| cache ::= f |>).

(** [err_code = e; return(r)] of the routines that report through [err_code]. *)
Definition set_err (e : Z) : M unit := wg (λ g, g <| err_code := e |>).

(** A kernel call that only changes the world outside the server. *)
Definition kcall {A} (f : K → A * K) : M A := λ s,
  let '(a, k) := f (kern s) in Ret a (s <| kern := k |>).

(** [for (i in l) body] without an exit. *)
Fixpoint for_each {X} (l : list X) (body : X → M unit) : M unit :=
  match l with
  | [] => mret tt
  | x :: l => body x;; for_each l body
  end.

(** [for (i in l) body] left by the first [Some]: a [break] or a [return]. *)
Fixpoint for_break {X R} (l : list X) (body : X → M (option R)) : M (option R) :=
  match l with
  | [] => mret None
  | x :: l => r ← body x; match r with Some r => mret (Some r) | None => for_break l body end
  end.

(** [for (;;) body] on the local variables [x], left by [inr]. *)
Fixpoint loop {X R} (fuel : nat) (body : X → M (X + R)) (x : X) : M R :=
  match fuel with
  | O => no_fuel
  | S fuel => r ← body x; match r with inl x => loop fuel body x | inr r => mret r end
  end.

Definition when (b : bool) (m : M unit) : M unit := if b then m else mret tt.
End monad.

Arguments M {krn} A.

(** * Total correctness *)

Section wp.
Context {krn : Kernel}.

(** [m] returns from [s], and what it returns satisfies [Q]. *)
Definition wp {A} (m : M A) (Q : A → st → Prop) (s : st) : Prop :=
  match m s with Ret a s' => Q a s' | _ => False end.

Implicit Types s : st.

Lemma wp_unfold {A} (m : M A) Q s :
  wp m Q s ↔ ∃ a s', m s = Ret a s' ∧ Q a s'.
Proof.
  unfold wp. destruct (m s) as [a0 s0|n s0| |] eqn:E.
  - split; [intros HQ; by exists a0, s0|]. intros (a'&s'&[= <- <-]&HQ). exact HQ.
  - split; [intros []|]. by intros (a'&s'&[=]&_).
  - split; [intros []|]. by intros (a'&s'&[=]&_).
  - split; [intros []|]. by intros (a'&s'&[=]&_).
Qed.

Lemma wp_same {A} (m m' : M A) Q s s' : m s = m' s' → wp m' Q s' → wp m Q s.
Proof. unfold wp. by intros ->. Qed.

Lemma run_bind {A B} (m : M A) (k : A → M B) s a s' :
  m s = Ret a s' → (m ≫= k) s = k a s'.
Proof. intros E. unfold mbind, M_bind. by rewrite E. Qed.

Lemma wp_mono {A} (m : M A) (P Q : A → st → Prop) s :
  wp m P s → (∀ a s', P a s' → Q a s') → wp m Q s.
Proof. unfold wp. destruct (m s); auto. Qed.

Lemma wp_run {A} (m : M A) (Q : A → st → Prop) s a s' :
  m s = Ret a s' → Q a s' → wp m Q s.
Proof. intros E HQ. unfold wp. by rewrite E. Qed.

Lemma wp_bind {A B} (m : M A) (k : A → M B) Q s :
  wp m (λ a s', wp (k a) Q s') s → wp (m ≫= k) Q s.
Proof. unfold wp, mbind, M_bind. destruct (m s); auto. Qed.

Lemma wp_bind_inv {A B} (m : M A) (k : A → M B) Q s :
  wp (m ≫= k) Q s → wp m (λ a s', wp (k a) Q s') s.
Proof. unfold wp, mbind, M_bind. destruct (m s); auto. Qed.

Lemma wp_ret {A} (a : A) (Q : A → st → Prop) s : Q a s → wp (mret a) Q s.
Proof. done. Qed.
Lemma wp_gets {A} (f : st → A) (Q : A → st → Prop) s : Q (f s) s → wp (gets f) Q s.
Proof. done. Qed.
Lemma wp_modify f (Q : unit → st → Prop) s : Q tt (f s) → wp (modify f) Q s.
Proof. done. Qed.
Lemma wp_rg {A} (f : globals → A) (Q : A → st → Prop) s : Q (f (glo s)) s → wp (rg f) Q s.
Proof. done. Qed.
Lemma wp_wg f (Q : unit → st → Prop) s : Q tt (s <| glo ::= f |>) → wp (wg f) Q s.
Proof. done. Qed.
Lemma wp_rc {A} (f : cache_state → A) (Q : A → st → Prop) s : Q (f (cache s)) s → wp (rc f) Q s.
Proof. done. Qed.
Lemma wp_wc f (Q : unit → st → Prop) s : Q tt (s <| cache ::= f |>) → wp (wc f) Q s.
Proof. done. Qed.
Lemma wp_set_err e (Q : unit → st → Prop) s :
  Q tt (s <| glo ::= λ g, g <| err_code := e |> |>) → wp (set_err e) Q s.
Proof. done. Qed.

Lemma wp_kcall {A} (f : K → A * K) (Q : A → st → Prop) s a k :
  f (kern s) = (a, k) → Q a (s <| kern := k |>) → wp (kcall f) Q s.
Proof. intros E HQ. unfold wp, kcall. by rewrite E. Qed.

Lemma wp_deref {A} (p : option A) (Q : A → st → Prop) s a :
  p = Some a → Q a s → wp (deref p) Q s.
Proof. intros ->. done. Qed.

Lemma wp_rd {T A} `{!Table T} (f : T → A) i (Q : A → st → Prop) s x :
  table s !! i = Some x → Q (f x) s → wp (rd f i) Q s.
Proof. intros E HQ. unfold wp, rd. by rewrite E. Qed.

Lemma wp_wr {T} `{!Table T} i (f : T → T) (Q : unit → st → Prop) s x :
  table s !! i = Some x →
  Q tt (with_table (<[i := f x]> (table s)) s) → wp (wr i f) Q s.
Proof. intros E HQ. unfold wp, wr. by rewrite E. Qed.

(** Several accesses to the same slot. *)
Lemma wp_wr_with {T} `{!Table T} (l : list T) i (f : T → T) (Q : unit → st → Prop) s x :
  (i < length l)%nat → Q tt (with_table (<[i := f x]> l) s) →
  wp (wr i f) Q (with_table (<[i := x]> l) s).
Proof.
  intros Hi HQ. eapply wp_wr; [rewrite table_with; by apply list_lookup_insert_eq|].
  by rewrite table_with, with_table_twice, list_insert_insert_eq.
Qed.

Lemma wp_rd_with {T A} `{!Table T} (f : T → A) (l : list T) i (Q : A → st → Prop) s x :
  (i < length l)%nat → Q (f x) (with_table (<[i := x]> l) s) →
  wp (rd f i) Q (with_table (<[i := x]> l) s).
Proof. intros Hi HQ. eapply wp_rd; [rewrite table_with; by apply list_lookup_insert_eq|done]. Qed.

Lemma wp_if {A} (b : bool) (m1 m2 : M A) Q s :
  (b = true → wp m1 Q s) → (b = false → wp m2 Q s) → wp (if b then m1 else m2) Q s.
Proof. destruct b; auto. Qed.

Lemma wp_when (b : bool) (m : M unit) Q s :
  (b = true → wp m Q s) → (b = false → Q tt s) → wp (when b m) Q s.
Proof. destruct b; intros H1 H2; [by apply H1|by apply H2]. Qed.

(** Invariant rules: [I done s] with the elements treated so far. *)
Lemma wp_for_each {X} (l : list X) (body : X → M unit) (I : list X → st → Prop) s :
  I [] s →
  (∀ pre x post s, l = pre ++ x :: post → I pre s →
     wp (body x) (λ _ s', I (pre ++ [x]) s') s) →
  wp (for_each l body) (λ _ s', I l s') s.
Proof.
  intros H0 Hstep.
  assert (∀ rest pre s, l = pre ++ rest → I pre s →
    wp (for_each rest body) (λ _ s', I l s') s) as H; [|by apply (H l [] s)].
  induction rest as [|x rest IH]; intros pre s' Hl HI; simpl.
  - apply wp_ret. by rewrite app_nil_r in Hl; subst.
  - apply wp_bind. eapply wp_mono; [by eapply Hstep|]. intros [] s'' HI'.
    apply (IH (pre ++ [x])); [by rewrite <- app_assoc|done].
Qed.

Lemma wp_for_break {X R} (l : list X) (body : X → M (option R))
    (I : list X → st → Prop) (Q : option R → st → Prop) s :
  I [] s →
  (∀ pre x post s, l = pre ++ x :: post → I pre s →
     wp (body x) (λ r s', match r with Some _ => Q r s' | None => I (pre ++ [x]) s' end) s) →
  (∀ s, I l s → Q None s) →
  wp (for_break l body) Q s.
Proof.
  intros H0 Hstep Hend.
  assert (∀ rest pre s, l = pre ++ rest → I pre s → wp (for_break rest body) Q s)
    as H; [|by apply (H l [] s)].
  induction rest as [|x rest IH]; intros pre s' Hl HI; simpl.
  - apply wp_ret, Hend. by rewrite app_nil_r in Hl; subst.
  - apply wp_bind. eapply wp_mono; [by eapply Hstep|]. intros [r|] s'' HI'; [done|].
    apply (IH (pre ++ [x])); [by rewrite <- app_assoc|done].
Qed.

(** A loop that threads a local variable [acc] through [l]. *)
Lemma wp_foldl {X A} (l : list X) (body : A → X → M A) (I : list X → A → st → Prop) a s :
  I [] a s →
  (∀ pre x post a s, l = pre ++ x :: post → I pre a s → wp (body a x) (I (pre ++ [x])) s) →
  wp (foldl (λ acc x, a ← acc; body a x) (mret a) l) (I l) s.
Proof.
  intros H0 Hstep.
  assert (∀ post pre, l = pre ++ post → wp (foldl (λ acc x, a ← acc; body a x) (mret a) pre) (I pre) s) as H.
  { intros post pre. revert post. induction pre as [|x pre IH] using rev_ind; intros post Hl; [done|].
    rewrite foldl_app. simpl. apply wp_bind. eapply wp_mono.
    - apply (IH (x :: post)). by rewrite Hl, <- app_assoc.
    - intros a' s' HI. eapply Hstep; [|done]. by rewrite Hl, <- app_assoc. }
  apply (H []). by rewrite app_nil_r.
Qed.

Lemma for_each_ext {X} (l : list X) (body body' : X → M unit) s :
  (∀ x s, body x s = body' x s) → for_each l body s = for_each l body' s.
Proof.
  intros E. revert s. induction l as [|x l IH]; intros s; simpl; [done|].
  unfold mbind, M_bind. rewrite E. destruct (body' x s); auto.
Qed.

(** Assigning to every slot of a table. *)
Lemma for_each_wr {T} `{!Table T} (f : nat → T → T) s :
  for_each (seq 0 (length (table s))) (λ i, wr i (f i)) s = Ret tt (with_table (imap f (table s)) s).
Proof.
  cut (∀ l l1 l2, l = l1 ++ l2 →
    for_each (seq (length l1) (length l2)) (λ i, wr i (f i)) (with_table (imap f l1 ++ l2) s)
    = Ret tt (with_table (imap f l) s)).
  { intros H. pose proof (H (table s) [] (table s) eq_refl) as H0. simpl in H0.
    by rewrite with_table_self in H0. }
  intros l l1 l2. revert l1. induction l2 as [|x l2 IH]; intros l1 ->; simpl.
  - by rewrite !app_nil_r.
  - assert (wr (length l1) (f (length l1)) (with_table (imap f l1 ++ x :: l2) s) =
      Ret tt (with_table (imap f (l1 ++ [x]) ++ l2) s)) as E.
    { unfold wr. rewrite table_with, lookup_app_r by (by rewrite length_imap).
      rewrite length_imap, Nat.sub_diag. simpl. rewrite with_table_twice. do 2 f_equal.
      rewrite insert_app_r_alt by (by rewrite length_imap). rewrite length_imap, Nat.sub_diag.
      simpl. rewrite imap_app, <- app_assoc. simpl. by rewrite Nat.add_0_r. }
    unfold mbind, M_bind. rewrite E.
    specialize (IH (l1 ++ [x])). rewrite length_app in IH. simpl in IH.
    rewrite Nat.add_1_r in IH. apply IH. by rewrite <- app_assoc.
Qed.

Lemma rd_wr {T A} `{!Table T} (g : T → A) (f : A → T → T) i s :
  (a ← rd g i; wr i (f a)) s = wr i (λ x, f (g x) x) s.
Proof. unfold mbind, M_bind, rd, wr. by destruct (table s !! i) as [x|] eqn:E; rewrite ?E. Qed.

Lemma rd_when_wr {T A} `{!Table T} (g : T → A) (p : A → bool) (f : T → T) i s :
  (a ← rd g i; when (p a) (wr i f)) s = wr i (λ x, if p (g x) then f x else x) s.
Proof.
  unfold mbind, M_bind, rd, wr, when. destruct (table s !! i) as [x|] eqn:E; [|done].
  destruct (p (g x)); rewrite ?E; [done|].
  rewrite list_insert_id by done. by rewrite with_table_self.
Qed.

(** A loop whose iterations decrease [m] does not run out of fuel. *)
Lemma wp_loop {X R} (fuel : nat) (body : X → M (X + R)) (I : X → st → Prop)
    (m : X → st → nat) (Q : R → st → Prop) x s :
  I x s → (m x s < fuel)%nat →
  (∀ x s, I x s →
     wp (body x) (λ r s', match r with
       | inl x' => I x' s' ∧ (m x' s' < m x s)%nat
       | inr r => Q r s'
       end) s) →
  wp (loop fuel body x) Q s.
Proof.
  intros HI Hf Hstep. revert x s HI Hf.
  induction fuel as [|fuel IH]; intros x s HI Hf; [lia|]. simpl.
  apply wp_bind. eapply wp_mono; [by apply Hstep|].
  intros [x'|r] s'; [|done]. intros [? ?]. apply IH; [done|lia].
Qed.
End wp.

(** One step of symbolic execution, and all the steps without a side condition. *)
Ltac wp_pure :=
  lazymatch goal with
  | |- wp (_ ≫= _) _ _ => apply wp_bind
  | |- wp (mret _) _ _ => apply wp_ret
  | |- wp (gets _) _ _ => apply wp_gets
  | |- wp (modify _) _ _ => apply wp_modify
  | |- wp (rg _) _ _ => apply wp_rg
  | |- wp (wg _) _ _ => apply wp_wg
  | |- wp (rc _) _ _ => apply wp_rc
  | |- wp (wc _) _ _ => apply wp_wc
  | |- wp (set_err _) _ _ => apply wp_set_err
  end.
Ltac wp_rd := eapply wp_rd; [eassumption || (simpl; eassumption)|].
Ltac wp_wr := eapply wp_wr; [eassumption || (simpl; eassumption)|].
Ltac wp_auto := repeat (wp_pure || wp_rd || wp_wr); simpl.
