(* ===== verification/Utility.v ===== *)
(** utility.c: the clock, path names passed by system calls, byte swapping. *)

From S2P Require Import Prelude Machine State Monad.

(** [conv2(norm, w)]: a 16-bit word, swapped when [norm] is FALSE. *)
Definition conv2 (norm : bool) (w : Z) : Z :=
  if norm then Z.land w 65535
  else Z.lor (Z.shiftl (Z.land w BYTE) 8) (Z.land (Z.shiftr w 8) BYTE).

(** [conv4(norm, x)]: a 32-bit [long], swapped when [norm] is FALSE. *)
Definition conv4 (norm : bool) (x : Z) : Z :=
  if norm then x
  else
    let lo := conv2 false (Z.land x 65535) in
    let hi := conv2 false (Z.land (Z.shiftr x 16) 65535) in
    i32 (Z.lor (Z.shiftl lo 16) hi).

(** [M1] and [M3], the third argument of [fetch_name]. *)
Inductive name_format := M1 | M3.

Section utility.
Context {krn : Kernel}.

Definition clock_time : M Z :=
  k ← gets (λ s, k_getuptime (kern s));
  if negb (k.1 =? OK) then panic k.1
  else boot ← rg boottime; mret (i32 (boot + k.2 / HZ)).

(** The bytes are copied over the start of [user_path]; a call that fails
    copies nothing. *)
Definition store_path (bs : list Z) : M unit :=
  p ← rg user_path;
  match splice 0 bs p with
  | Some p' => wg (λ g, g <| user_path := p' |>)
  | None => fault
  end.

Definition fetch_name (path len : Z) (flag : name_format) : M Z :=
  if len <=? 0 then set_err EINVAL;; mret EGENERIC
  else if PATH_MAX <? len then set_err ENAMETOOLONG;; mret EGENERIC
  else
    match flag, len <=? M3_STRING with
    | M3, true =>
        m ← rg m_in;
        store_path (take (Z.to_nat len) (m3_ca1 m));;
        mret OK
    | _, _ =>
        w ← rg who;
        rb ← gets (λ s, k_vircopy_from w 1 path len (kern s));
        when (rb.1 =? OK) (store_path rb.2);;
        mret rb.1
    end.

Definition no_sys : M Z := mret EINVAL.
End utility.

(** * Byte swapping *)

Lemma conv2_norm w : conv2 true w = w mod 2 ^ 16.
Proof. unfold conv2. apply (land_mask 16). lia. Qed.

Lemma conv2_swap w : conv2 false w = w mod 2 ^ 8 * 2 ^ 8 + w / 2 ^ 8 mod 2 ^ 8.
Proof.
  unfold conv2, BYTE. change 255 with (2 ^ 8 - 1). rewrite !land_mask by lia.
  rewrite Z.shiftr_div_pow2 by lia. apply lor_shiftl_add; [lia|]. apply Z.mod_pos_bound. lia.
Qed.

Lemma conv2_range norm w : 0 ≤ conv2 norm w < 2 ^ 16.
Proof. destruct norm; rewrite ?conv2_norm, ?conv2_swap; zlia. Qed.

Lemma conv4_swap x :
  conv4 false x =
    i32 (conv2 false (x mod 2 ^ 16) * 2 ^ 16 + conv2 false (x / 2 ^ 16 mod 2 ^ 16)).
Proof.
  unfold conv4. change 65535 with (2 ^ 16 - 1). rewrite !land_mask by lia.
  rewrite Z.shiftr_div_pow2 by lia. f_equal.
  apply lor_shiftl_add; [lia|apply conv2_range].
Qed.

Lemma conv2_twice norm w : conv2 norm (conv2 norm w) = w mod 2 ^ 16.
Proof. destruct norm; rewrite ?conv2_norm, ?conv2_swap; zlia. Qed.

Lemma conv4_twice norm x : - 2 ^ 31 ≤ x < 2 ^ 31 → conv4 norm (conv4 norm x) = x.
Proof.
  destruct norm; [done|]. intros Hx. rewrite !conv4_swap, !conv2_swap. unfold i32. zlia.
Qed.
