(* ===== verification/Process.v ===== *)
(** Suspending and reviving the callers of the server: [suspend] and [revive]
    of pipe.c, [reply] of main.c, [lock_revive] of lock.c. *)

From S2P Require Import Prelude Machine State Monad.

Section process.
Context {krn : Kernel}.

(** Indices computed by the source are C integers; a negative one is outside
    every table. *)
Definition index (i : Z) : M nat := if i <? 0 then fault else mret (Z.to_nat i).

(** [reply(whom, result)]: the result of [send] is ignored. *)
Definition reply (whom result : Z) : M unit :=
  wg (λ g, g <| m_out ::= λ m, m <| m_type := result |> |>);;
  m ← rg m_out;
  _ ← kcall (k_send whom m);
  mret tt.

Definition suspend (task : Z) : M unit :=
  when ((task =? XPIPE) || (task =? XPOPEN))
    (wg (λ g, g <| susp_count ::= Z.add 1 |>));;
  p ← rg fp; m ← rg m_in; call ← rg call_nr;
  wr p (λ r, r <| fp_suspended := true |>);;
  wr p (λ r, r <| fp_fd := Z.lor (i32 (Z.shiftl (in_fd m) 8)) call |>);;
  wr p (λ r, r <| fp_task := i8 (- task) |>);;
  if task =? XLOCK then
    wr p (λ r, r <| fp_buffer := in_name1 m |> <| fp_nbytes := in_request m |>)
  else
    wr p (λ r, r <| fp_buffer := in_buffer m |> <| fp_nbytes := in_nbytes m |>).

Definition revive (proc_nr returned : Z) : M unit :=
  if (proc_nr <? 0) || (Z.of_nat NR_PROCS <=? proc_nr) then panic proc_nr
  else
    let p := Z.to_nat proc_nr in
    susp ← rd fp_suspended p;
    rev ← rd fp_revived p;
    if negb susp || rev then mret tt
    else
      t ← rd fp_task p;
      let task := - t in
      if (task =? XPIPE) || (task =? XLOCK) then
        wr p (λ r, r <| fp_revived := true |>);;
        wg (λ g, g <| reviving ::= Z.add 1 |>)
      else
        wr p (λ r, r <| fp_suspended := false |>);;
        if task =? XPOPEN then
          f ← rd fp_fd p;
          reply proc_nr (Z.shiftr f 8)
        else if task =? XSELECT then reply proc_nr returned
        else
          wr p (λ r, r <| fp_nbytes := returned |>);;
          reply proc_nr returned.

(** Every process waiting for a lock is revived; those that are still blocked
    will block again when they run. *)
Definition lock_revive : M unit :=
  for_each (seq (INIT_PROC_NR + 1) (NR_PROCS - (INIT_PROC_NR + 1))) (λ p,
    t ← rd fp_task p;
    susp ← rd fp_suspended p;
    when (susp && (- t =? XLOCK)) (revive (Z.of_nat p) 0)).
End process.
