(* ===== verification/Device.v ===== *)
(** device.c: the requests to the device drivers. *)

From S2P Require Import Prelude Machine State Monad Process.

(** A message of which only the fields that are set matter. *)
Definition blank_message : message := Message 0 0 0 0 0 0 0 0 [].

(** The major and minor numbers of a device. *)
Definition major_of (dev : Z) : Z := Z.land (Z.shiftr dev MAJOR) BYTE.
Definition minor_of (dev : Z) : Z := Z.land (Z.shiftr dev MINOR) BYTE.

Section device.
Context {cfg : Config} {krn : Kernel}.

(** The first loop of [gen_io]: [sendrec] until it is not refused to avoid a
    deadlock.  [None] is the early return of a cancelled request. *)
Definition gen_io_send (task proc_nr : Z) (m : message) (v : list iov) :
    M (option Z * message * list iov) :=
  loop loop_fuel (λ '(m, v),
    rm ← kcall (λ k, let '(r, m', v', k') := k_sendrec task m v k in ((r, m', v'), k'));
    let '(r, m, v) := rm in
    if negb (r =? ELOCKED) then mret (inr (Some r, m, v))
    else
      rl ← kcall (λ k, let '(r, l, _, k') := k_receive task [] k in ((r, l), k'));
      let '(r, l) := rl in
      if negb (r =? OK) then mret (inr (Some r, m, v))
      else if (m_type m =? CANCEL) && (REP_PROC_NR l =? proc_nr) then mret (inr (None, m, v))
      else if negb (m_type l =? REVIVE) then mret (inl (m, v))
      else revive (REP_PROC_NR l) (REP_STATUS l);; mret (inl (m, v))) (m, v).

(** The second loop: wait for the reply to this request, reviving the other
    processes the driver reports meanwhile. *)
Definition gen_io_wait (task proc_nr r : Z) (m : message) (v : list iov) :
    M (message * list iov) :=
  loop loop_fuel (λ '(r, m, v),
    if negb (r =? OK) then
      if (r =? EDEADSRCDST) || (r =? EDSTDIED) || (r =? ESRCDIED) || (r =? ELOCKED)
      then mret (inr (m, v)) else panic r
    else if REP_PROC_NR m =? proc_nr then mret (inr (m, v))
    else if m_type m =? REVIVE then
      revive (REP_PROC_NR m) (REP_STATUS m);;
      rm ← kcall (λ k, let '(r, m', v', k') := k_receive task v k in ((r, m', v'), k'));
      let '(r, m, v) := rm in
      mret (inl (r, m, v))
    else mret (inr (m, v))) (r, m, v).

Definition gen_io (task : Z) (m : message) (v : list iov) : M (message * list iov) :=
  let proc_nr := PROC_NR m in
  if negb (isokprocnr proc_nr) then mret (m, v)
  else
    o ← gen_io_send task proc_nr m v;
    match o with
    | (None, m, v) => mret (m, v)
    | (Some r, m, v) => gen_io_wait task proc_nr r m v
    end.

(** Calling the I/O routine of an entry with its driver.  [ctty_io] hands the message over to the
    entry of the controlling terminal, [depth] levels of it at most. *)
Fixpoint call_io (depth : nat) (io : io_routine) (driver : Z) (m : message)
    (v : list iov) : M (message * list iov) :=
  match depth with
  | O => no_fuel
  | S depth =>
      match io with
      | null_io => fault
      | no_dev_io_r => mret (m, v)
      | gen_io_r => gen_io driver m v
      | ctty_io_r =>
          p ← rg fp; tty ← rd fp_tty p;
          if tty =? 0 then mret (m <| REP_STATUS := EIO |>, v)
          else
            d ← index (major_of tty);
            io ← rd dmap_io d; driver ← rd dmap_driver d;
            call_io depth io driver (m <| DEVICE := minor_of tty |>) v
      end
  end.

Definition ctty_io (m : message) (v : list iov) : M (message * list iov) :=
  call_io 2 ctty_io_r 0 m v.

(** [dev_io(op, dev, proc, buf, pos, bytes, flags)].  [addr] is the address
    [buf] in a user process, [v] the memory of the server it denotes. *)
Definition dev_io (op dev proc addr : Z) (v : list iov) (pos bytes flags : Z) :
    M (Z * list iov) :=
  d ← index (major_of dev);
  driver ← rd dmap_driver d;
  if driver =? NONE then mret (ENXIO, v)
  else
    let m := blank_message <| m_type := op |> <| DEVICE := minor_of dev |>
      <| POSITION := pos |> <| PROC_NR := proc |> <| ADDRESS := addr |>
      <| COUNT := bytes |> <| TTY_FLAGS := flags |> in
    io ← rd dmap_io d;
    mv ← call_io 2 io driver m v;
    let '(m, v) := mv in
    if REP_STATUS m =? SUSPEND then
      if has flags O_NONBLOCK then
        let m := m <| m_type := CANCEL |> <| PROC_NR := proc |>
          <| DEVICE := minor_of dev |> in
        mv ← call_io 2 io driver m v;
        let '(m, v) := mv in
        mret (if REP_STATUS m =? EINTR then EAGAIN else REP_STATUS m, v)
      else suspend driver;; mret (SUSPEND, v)
    else mret (REP_STATUS m, v).

Definition no_dev : M Z := mret ENODEV.
Definition no_dev_io (m : message) : M message := mret m.

Definition do_setsid : M Z :=
  w ← rg who;
  if negb (w =? PM_PROC_NR) then mret ENOSYS
  else
    m ← rg m_in; p ← index (in_slot1 m);
    wr p (λ r, r <| fp_sesldr := true |>);;
    wr p (λ r, r <| fp_tty := 0 |>);;
    mret OK.
End device.
