(* ===== verification/SuperTable.v ===== *)
(** The super block table of super.c: searching it for a device. *)

From S2P Require Import Prelude Machine State Monad.

Section super_table.
Context {krn : Kernel}.

(** The first slot [sp] of the table with [s_dev == dev]. *)
Definition find_super (dev : Z) (l : list super_block) : option (nat * super_block) :=
  list_find (λ sp, s_dev sp = dev) l.

Definition get_super (dev : Z) : M nat :=
  if dev =? NO_DEV then panic NO_NUM
  else
    l ← gets (λ s, supers (tabs s));
    match find_super dev l with
    | Some (i, _) => mret i
    | None => panic dev
    end.

Definition get_block_size (dev : Z) : M Z :=
  if dev =? NO_DEV then panic NO_NUM
  else
    l ← gets (λ s, supers (tabs s));
    match find_super dev l with
    | Some (_, sp) => mret (s_block_size sp)
    | None => mret MIN_BLOCK_SIZE
    end.

(** The device held by the special file [rip] is the root or mounted. *)
Definition mounted (rip : nat) : M bool :=
  zs ← rd i_zone rip;
  dev ← i16 <$> deref (zs !! 0%nat);
  root ← rg root_dev;
  if dev =? root then mret true
  else
    l ← gets (λ s, supers (tabs s));
    match find_super dev l with Some _ => mret true | None => mret false end.
End super_table.
