(* ===== verification/ShellSort.v ===== *)
(** The sort of [rw_scattered] (cache.c): a Shell sort of the array of buffer
    pointers by block number, with the gaps ..., 40, 13, 4, 1. *)

From S2P Require Import Prelude.
From stdpp Require Import sorting.
#[local] Open Scope Z_scope.

Section shell_sort.
Context {A : Type} (key : A → Z).

(** [do gap = 3 * gap + 1; while (gap <= bufqsize)] *)
Fixpoint initial_gap (fuel gap n : nat) : nat :=
  let gap := (3 * gap + 1)%nat in
  match fuel with
  | O => gap
  | S fuel => if (gap <=? n)%nat then initial_gap fuel gap n else gap
  end.

Definition swap (i j : nat) (q : list A) : list A :=
  match q !! i, q !! j with
  | Some a, Some b => <[i := b]> (<[j := a]> q)
  | _, _ => q
  end.

(** The innermost loop: the element at [i + gap], [k] here, moves down in
    steps of [gap] while it is smaller than the one below it. *)
Fixpoint sift (fuel gap k : nat) (q : list A) : list A :=
  match fuel with
  | O => q
  | S fuel =>
      if (gap <=? k)%nat then
        match q !! (k - gap)%nat, q !! k with
        | Some a, Some b =>
            if key b <? key a then sift fuel gap (k - gap) (swap (k - gap) k q) else q
        | _, _ => q
        end
      else q
  end.

(** [for (j = gap; j < bufqsize; j++)] *)
Definition gap_pass (gap : nat) (q : list A) : list A :=
  fold_left (λ q j, sift j gap j q) (seq gap (length q - gap)) q.

(** [while (gap != 1) { gap /= 3; ... }] *)
Fixpoint gap_loop (fuel gap : nat) (q : list A) : list A :=
  match fuel with
  | O => q
  | S fuel =>
      if (gap =? 1)%nat then q
      else let gap := (gap / 3)%nat in gap_loop fuel gap (gap_pass gap q)
  end.

Definition shell_sort (q : list A) : list A :=
  let gap := initial_gap (length q) 1 (length q) in gap_loop gap gap q.

(** * The result is a permutation *)

Lemma swap_Permutation i j q : swap i j q ≡ₚ q.
Proof.
  unfold swap. destruct (q !! i) eqn:Ei; [|done]. destruct (q !! j) eqn:Ej; [|done].
  by apply Permutation_insert_swap.
Qed.

Lemma sift_Permutation fuel gap k q : sift fuel gap k q ≡ₚ q.
Proof.
  revert k q. induction fuel as [|fuel IH]; intros k q; simpl; [done|].
  repeat case_match; try done. rewrite IH. apply swap_Permutation.
Qed.

Lemma gap_pass_Permutation gap q : gap_pass gap q ≡ₚ q.
Proof.
  unfold gap_pass. generalize (seq gap (length q - gap)). intros l.
  revert q. induction l as [|j l IH]; intros q; simpl; [done|].
  rewrite IH. apply sift_Permutation.
Qed.

Lemma gap_loop_Permutation fuel gap q : gap_loop fuel gap q ≡ₚ q.
Proof.
  revert gap q. induction fuel as [|fuel IH]; intros gap q; simpl; [done|].
  case_match; [done|]. rewrite IH. apply gap_pass_Permutation.
Qed.

Lemma shell_sort_Permutation q : shell_sort q ≡ₚ q.
Proof. apply gap_loop_Permutation. Qed.

(** * The pass with gap 1 sorts *)

Definition key_le (a b : A) : Prop := key a ≤ key b.

#[local] Instance key_le_trans : Transitive key_le.
Proof. unfold key_le. intros ???. lia. Qed.

(** What [sift] with gap 1 does to a prefix [l] (reversed) and an element [x]. *)
Fixpoint insert_rev (x : A) (l : list A) : list A :=
  match l with
  | [] => [x]
  | a :: l' => if key x <? key a then a :: insert_rev x l' else x :: a :: l'
  end.

Lemma swap_adjacent l a x r :
  swap (length l) (S (length l)) (l ++ a :: x :: r) = l ++ x :: a :: r.
Proof.
  unfold swap. rewrite !lookup_app_r by lia.
  replace (length l - length l)%nat with 0%nat by lia.
  replace (S (length l) - length l)%nat with 1%nat by lia. simpl.
  rewrite insert_app_r_alt, Nat.sub_succ_l, Nat.sub_diag by lia. simpl.
  by rewrite insert_app_r_alt, Nat.sub_diag by lia.
Qed.

Lemma sift_1 fuel l x r :
  (length l ≤ fuel)%nat →
  sift fuel 1 (length l) (reverse l ++ x :: r) = reverse (insert_rev x l) ++ r.
Proof.
  revert l r. induction fuel as [|fuel IH]; intros [|a l] r Hf; simpl in *; try done; [lia|].
  replace (length l - 0)%nat with (length l) by lia.
  rewrite reverse_cons, <- app_assoc. simpl.
  rewrite !lookup_app_r by (rewrite length_reverse; lia).
  rewrite length_reverse, Nat.sub_diag, Nat.sub_succ_l, Nat.sub_diag by lia. simpl.
  case_match.
  - pose proof (swap_adjacent (reverse l) a x r) as Hs. rewrite length_reverse in Hs.
    rewrite Hs, IH by lia. by rewrite reverse_cons, <- app_assoc.
  - by rewrite !reverse_cons, <- !app_assoc.
Qed.

Lemma insert_rev_Forall (P : A → Prop) x l : P x → Forall P l → Forall P (insert_rev x l).
Proof.
  intros Hx. induction 1 as [|a l Ha Hl IH]; simpl; [by constructor|].
  case_match; by repeat constructor.
Qed.

Lemma insert_rev_sorted x l :
  StronglySorted (flip key_le) l → StronglySorted (flip key_le) (insert_rev x l).
Proof.
  induction 1 as [|a l Hl IH Ha]; simpl; [by repeat constructor|].
  destruct (Z.ltb_spec (key x) (key a)) as [Hlt|Hge].
  - constructor; [done|]. apply insert_rev_Forall; [|done]. unfold flip, key_le. lia.
  - constructor; [by constructor|]. constructor; [done|].
    eapply Forall_impl; [exact Ha|]. unfold flip, key_le. lia.
Qed.

(** After [n] steps of the pass the first [n + 1] elements are sorted. *)
Lemma gap_pass_1_steps l r :
  StronglySorted (flip key_le) l →
  ∃ l', StronglySorted (flip key_le) l' ∧
    fold_left (λ q j, sift j 1 j q) (seq (length l) (length r)) (reverse l ++ r) = reverse l'.
Proof.
  revert l. induction r as [|x r IH]; intros l Hl; simpl.
  - exists l. by rewrite app_nil_r.
  - rewrite sift_1 by done.
    assert (length (insert_rev x l) = S (length l)) as Hlen.
    { clear. induction l as [|a l IH]; simpl; [done|]. case_match; simpl; lia. }
    rewrite <- Hlen. apply IH. by apply insert_rev_sorted.
Qed.

Lemma gap_pass_1_sorted q : StronglySorted key_le (gap_pass 1 q).
Proof.
  unfold gap_pass. destruct q as [|x r]; [constructor|].
  destruct (gap_pass_1_steps [x] r) as (l' & Hl' & E); [by repeat constructor|].
  simpl in E. simpl. rewrite Nat.sub_0_r, E. clear -Hl'.
  induction Hl' as [|a l Hl IH Ha]; [constructor|]. rewrite reverse_cons.
  apply StronglySorted_app_2; [|done|by repeat constructor].
  intros b c Hb Hc%list_elem_of_singleton. subst c. rewrite elem_of_reverse in Hb.
  by rewrite Forall_forall in Ha; apply Ha.
Qed.

(** The gaps are (3^k - 1) / 2, so the last pass is the one with gap 1. *)
Definition shell_gap (k gap : nat) : Prop := (2 * gap + 1 = 3 ^ k)%nat.

Lemma initial_gap_shell fuel gap n k :
  shell_gap k gap → ∃ k', (k < k')%nat ∧ shell_gap k' (initial_gap fuel gap n).
Proof.
  revert gap k. induction fuel as [|fuel IH]; intros gap k Hg; simpl.
  - exists (S k). split; [lia|]. unfold shell_gap in *. simpl. lia.
  - assert (shell_gap (S k) (gap + (gap + (gap + 0)) + 1)) as Hg'
      by (unfold shell_gap in *; simpl; lia).
    case_match; [|exists (S k); split; [lia|done]].
    destruct (IH _ _ Hg') as (k' & ? & ?). exists k'. split; [lia|done].
Qed.

Lemma gap_loop_sorted fuel gap q k :
  shell_gap (S (S k)) gap → (gap ≤ fuel)%nat → StronglySorted key_le (gap_loop fuel gap q).
Proof.
  revert gap q k. induction fuel as [|fuel IH]; intros gap q k Hg Hf; unfold shell_gap in Hg.
  { simpl in Hg. pose proof (Nat.pow_nonzero 3 k). lia. }
  simpl in Hg. cbn [gap_loop]. case_match eqn:E1; [apply Nat.eqb_eq in E1; lia|].
  assert (shell_gap (S k) (gap / 3)) as Hg3.
  { unfold shell_gap. rewrite Nat.pow_succ_r'. pose proof (Nat.div_mod_eq gap 3).
    assert (gap mod 3 < 3)%nat by (apply Nat.mod_upper_bound; lia). lia. }
  destruct k as [|k].
  - assert (gap / 3 = 1)%nat as -> by (unfold shell_gap in Hg3; change (3 ^ 1)%nat with 3%nat in Hg3; lia).
    destruct fuel; apply gap_pass_1_sorted.
  - eapply IH; [exact Hg3|]. apply Nat.eqb_neq in E1.
    assert (gap / 3 < gap)%nat by (apply Nat.div_lt; lia). lia.
Qed.

Lemma shell_sort_ordered q : StronglySorted key_le (shell_sort q).
Proof.
  unfold shell_sort.
  destruct (initial_gap_shell (length q) 1 (length q) 1) as (k & Hk & Hg); [done|].
  destruct k as [|[|k]]; [lia|lia|]. by eapply gap_loop_sorted.
Qed.

(** C40: the sort of the queue of buffers keeps the buffers, each as often as it was in
    the queue, and yields ascending block numbers. *)
Theorem shell_sort_sorted q : shell_sort q ≡ₚ q ∧ StronglySorted key_le (shell_sort q).
Proof. split; [apply shell_sort_Permutation|apply shell_sort_ordered]. Qed.
End shell_sort.
