(* ===== verification/Links.v ===== *)
(** Linked lists in a table of slots: the hash chains and, in both directions,
    the free list of the block cache.  A link field is seen as a function from
    a slot to the content of its field, when the slot exists. *)

From S2P Require Import Prelude.

Section links.
Implicit Types nxt : nat → option (option nat).
Implicit Types l : list nat.

Definition head_or (e : option nat) l : option nat :=
  match l with [] => e | i :: _ => Some i end.

(** [seg nxt l e]: following [nxt] one meets the slots [l] in this order and
    then [e]. *)
Fixpoint seg nxt l (e : option nat) : Prop :=
  match l with
  | [] => True
  | i :: l => nxt i = Some (head_or e l) ∧ seg nxt l e
  end.

Lemma head_or_None l : head_or None l = head l.
Proof. by destruct l. Qed.

Lemma head_or_app e l1 l2 : head_or e (l1 ++ l2) = head_or (head_or e l2) l1.
Proof. by destruct l1. Qed.

Lemma seg_app nxt l1 l2 e : seg nxt (l1 ++ l2) e ↔ seg nxt l1 (head_or e l2) ∧ seg nxt l2 e.
Proof.
  induction l1 as [|i l1 IH]; simpl; [tauto|]. rewrite IH, head_or_app. tauto.
Qed.

Lemma seg_snoc nxt l i e : seg nxt (l ++ [i]) e ↔ seg nxt l (Some i) ∧ nxt i = Some e.
Proof. rewrite seg_app. simpl. tauto. Qed.

Lemma seg_ext nxt nxt' l e :
  (∀ i, i ∈ l → nxt' i = nxt i) → seg nxt l e → seg nxt' l e.
Proof.
  induction l as [|i l IH]; simpl; [done|]. intros Hext [Hi Hl]. split.
  - rewrite Hext; [done|by left].
  - apply IH; [|done]. intros j Hj. apply Hext. by right.
Qed.

(** Changing the link of the last slot, or of slots that are not on the list. *)
Lemma seg_relink nxt nxt' l i e e' :
  NoDup (l ++ [i]) → nxt' i = Some e' → (∀ j, j ≠ i → nxt' j = nxt j) →
  seg nxt (l ++ [i]) e → seg nxt' (l ++ [i]) e'.
Proof.
  intros Hnd Hi Hext. rewrite !seg_snoc. intros [Hl _]. split; [|done].
  apply NoDup_app in Hnd as (_ & Hnin & _).
  eapply seg_ext; [|exact Hl]. intros j Hj. apply Hext. intros ->.
  by apply (Hnin i Hj), list_elem_of_here.
Qed.

Lemma seg_lookup nxt l e k i :
  seg nxt l e → l !! k = Some i → nxt i = Some (head_or e (drop (S k) l)).
Proof.
  revert k. induction l as [|j l IH]; intros [|k]; simpl; try done.
  - intros [Hj _] [= <-]. by destruct l.
  - intros [_ Hl]. by apply IH.
Qed.

Lemma last_head_reverse l : last l = head (reverse l).
Proof.
  destruct l as [|i l _] using rev_ind; [done|].
  by rewrite last_snoc, reverse_snoc.
Qed.

(** Unlinking [i]: the slot before it, if there is one, skips it. *)
Lemma seg_remove nxt nxt' l1 i l2 e :
  NoDup (l1 ++ i :: l2) → seg nxt (l1 ++ i :: l2) e →
  (∀ p, last l1 = Some p → nxt' p = Some (head_or e l2)) →
  (∀ j, last l1 ≠ Some j → nxt' j = nxt j) →
  seg nxt' (l1 ++ l2) e.
Proof.
  intros Hnd Hseg Hp Hext. rewrite seg_app in Hseg. destruct Hseg as [Hl1 Hl2].
  simpl in Hl2. destruct Hl2 as [_ Hl2]. apply NoDup_app in Hnd as (Hnd1 & Hdis & Hnd2).
  rewrite seg_app. split.
  - destruct l1 as [|p l1 _] using rev_ind; [done|]. rewrite last_snoc in Hp, Hext.
    eapply seg_relink; [exact Hnd1|by apply Hp| |exact Hl1].
    intros j Hj. apply Hext. congruence.
  - eapply seg_ext; [|exact Hl2]. intros j Hj. apply Hext. intros Hlast.
    apply last_Some in Hlast as [l1' ->]. apply (Hdis j).
    + apply elem_of_app. right. by apply list_elem_of_here.
    + by apply list_elem_of_further.
Qed.

(** Linking [i] behind the last slot. *)
Lemma seg_push nxt nxt' l i e e' :
  NoDup l → seg nxt l e → nxt' i = Some e' →
  (∀ p, last l = Some p → nxt' p = Some (Some i)) →
  (∀ j, j ∈ l → last l ≠ Some j → nxt' j = nxt j) →
  seg nxt' (l ++ [i]) e'.
Proof.
  intros Hnd Hseg Hi Hp Hext. rewrite seg_snoc. split; [|done].
  destruct l as [|p l _] using rev_ind; [done|]. rewrite last_snoc in Hp, Hext.
  rewrite seg_snoc in Hseg. destruct Hseg as [Hl _].
  rewrite seg_snoc. split; [|by apply Hp].
  eapply seg_ext; [|exact Hl]. intros j Hj. apply Hext.
  - apply elem_of_app. by left.
  - intros [= ->]. apply NoDup_app in Hnd as (_ & Hdis & _).
    by apply (Hdis j Hj), list_elem_of_here.
Qed.

Lemma NoDup_middle l1 i l2 : NoDup (l1 ++ i :: l2) ↔ (i ∉ l1 ++ l2) ∧ NoDup (l1 ++ l2).
Proof. by rewrite <- Permutation_middle, NoDup_cons. Qed.

Lemma seg_last nxt l e i : seg nxt l e → last l = Some i → nxt i = Some e.
Proof.
  destruct l as [|p l _] using rev_ind; [done|]. rewrite last_snoc, seg_snoc.
  by intros [_ ?] [= ->].
Qed.

Lemma seg_mid nxt l1 i l2 e : seg nxt (l1 ++ i :: l2) e → nxt i = Some (head_or e l2).
Proof. rewrite seg_app. simpl. tauto. Qed.
(** Consecutive slots. *)
Lemma seg_seq nxt k n e :
  (∀ i, (k ≤ i < k + n)%nat → nxt i = Some (if decide (S i = k + n)%nat then e else Some (S i))) →
  seg nxt (seq k n) e.
Proof.
  revert k. induction n as [|n IH]; intros k H; simpl; [done|]. split.
  - rewrite H by lia. destruct n as [|n]; simpl.
    + by rewrite decide_True by lia.
    + by rewrite decide_False by lia.
  - apply IH. intros i Hi. rewrite H by lia.
    by replace (S k + n)%nat with (k + S n)%nat by lia.
Qed.

Lemma seg_seq_reverse nxt n :
  (∀ i, (i < n)%nat → nxt i = Some (if decide (i = 0)%nat then None else Some (pred i))) →
  seg nxt (reverse (seq 0 n)) None.
Proof.
  induction n as [|n IH]; intros H; [done|]. rewrite seq_S, reverse_snoc. simpl. split.
  - rewrite H, head_or_None, <- last_head_reverse by lia. case_decide as E; [by subst n|].
    destruct n as [|n]; [done|]. by rewrite seq_S, last_snoc.
  - apply IH. intros i Hi. apply H. lia.
Qed.
End links.
