(* ===== verification/Cache.v ===== *)
(** cache.c: the block cache.  A buffer that is in use has a positive count; the
    others are on the free list, least recently used first; all of them are on
    the hash chain of their block number.  The second level cache is compiled
    out ([ENABLE_CACHE2] is 0 in minix/config.h). *)

From S2P Require Import Prelude Machine State Monad Device SuperTable ShellSort.

(** buf.h: the usage passed to [put_block]. *)
Definition WRITE_IMMED : Z := 64.   (* 0100 *)
Definition ONE_SHOT : Z := 128.     (* 0200 *)
Definition INODE_BLOCK : Z := 0.
Definition DIRECTORY_BLOCK : Z := 1.
Definition INDIRECT_BLOCK : Z := 2.
Definition MAP_BLOCK : Z := 3.
Definition FULL_DATA_BLOCK : Z := 5.
Definition PARTIAL_DATA_BLOCK : Z := 6.

(** How far the block numbers continue those from [first] on: the buffers of
    one I/O vector of [rw_scattered], at most [max] of them. *)
Fixpoint run_length (max : nat) (first : Z) (l : list Z) : nat :=
  match max, l with
  | S max, b :: l => if b =? u32 first then S (run_length max (first + 1) l) else O
  | _, _ => O
  end.

Section cache.
Context {cfg : Config} {krn : Kernel}.

Definition hash (block : Z) : nat := Z.to_nat (Z.land block (NR_BUF_HASH - 1)).

(** [buf_hash[b]] *)
Definition rd_hash (b : nat) : M (option nat) :=
  h ← rc buf_hash; deref (h !! b).
Definition wr_hash (b : nat) (v : option nat) : M unit :=
  h ← rc buf_hash;
  match h !! b with
  | Some _ => wc (λ c, c <| buf_hash := <[b := v]> h |>)
  | None => fault
  end.

Definition rm_lru (bp : nat) : M unit :=
  wc (λ c, c <| bufs_in_use ::= Z.add 1 |>);;
  next_ptr ← rd b_next bp;
  prev_ptr ← rd b_prev bp;
  match prev_ptr with
  | Some p => wr p (λ b, b <| b_next := next_ptr |>)
  | None => wc (λ c, c <| front := next_ptr |>)
  end;;
  match next_ptr with
  | Some n => wr n (λ b, b <| b_prev := prev_ptr |>)
  | None => wc (λ c, c <| rear := prev_ptr |>)
  end.

(** [rw_block]: the only routine that transfers a single block.  The memory
    of the buffer is lent to the driver. *)
Definition rw_block (bp : nat) (rw_flag : rw) : M unit :=
  dev ← rd b_dev bp;
  block_size ← get_block_size dev;
  when (negb (dev =? NO_DEV)) (
    blocknr ← rd b_blocknr bp;
    data ← rd b_data bp;
    let pos := u32 (blocknr * block_size) in
    let op := match rw_flag with READING => DEV_READ | WRITING => DEV_WRITE end in
    rv ← dev_io op dev FS_PROC_NR 0 [Iov data block_size] pos block_size 0;
    match rv.2 with
    | [v] => wr bp (λ b, b <| b_data := iov_data v |>)
    | _ => fault
    end;;
    when (negb (rv.1 =? block_size)) (
      let r := if 0 <=? rv.1 then END_OF_FILE else rv.1 in
      wr bp (λ b, b <| b_dev := NO_DEV |>);;
      match rw_flag with
      | READING => wc (λ c, c <| rdwt_err := r |>)
      | WRITING => mret tt
      end));;
  wr bp (λ b, b <| b_dirt := CLEAN |>).

(** The free list gets [bp] at the front or at the rear. *)
Definition put_front (bp : nat) : M unit :=
  f ← rc front;
  wr bp (λ b, b <| b_prev := None |> <| b_next := f |>);;
  match f with
  | None => wc (λ c, c <| rear := Some bp |>)
  | Some f => wr f (λ b, b <| b_prev := Some bp |>)
  end;;
  wc (λ c, c <| front := Some bp |>).
Definition put_rear (bp : nat) : M unit :=
  r ← rc rear;
  wr bp (λ b, b <| b_prev := r |> <| b_next := None |>);;
  match r with
  | None => wc (λ c, c <| front := Some bp |>)
  | Some r => wr r (λ b, b <| b_next := Some bp |>)
  end;;
  wc (λ c, c <| rear := Some bp |>).

Definition put_block (obp : option nat) (block_type : Z) : M unit :=
  match obp with
  | None => mret tt
  | Some bp =>
      wr bp (λ b, b <| b_count ::= λ n, i8 (n - 1) |>);;
      count ← rd b_count bp;
      if negb (count =? 0) then mret tt
      else
        wc (λ c, c <| bufs_in_use ::= λ n, n - 1 |>);;
        dev ← rd b_dev bp;
        (if (dev =? DEV_RAM) || has block_type ONE_SHOT then put_front bp else put_rear bp);;
        dirt ← rd b_dirt bp;
        dev ← rd b_dev bp;
        when (has block_type WRITE_IMMED && dirt && negb (dev =? NO_DEV))
          (rw_block bp WRITING)
  end.

(** Harvesting the results of one vector: the buffers [q] and what is left of
    their entries [v]; the count of the buffers that are done. *)
Fixpoint harvest (dev r : Z) (rw_flag : rw) (i : nat) (q : list nat) (v : list iov) : M nat :=
  match q, v with
  | bp :: q, io :: v =>
      if negb (iov_size io =? 0) then
        when (negb (r =? OK) && (i =? 0)%nat) (wr bp (λ b, b <| b_dev := NO_DEV |>));;
        mret i
      else
        match rw_flag with
        | READING =>
            wr bp (λ b, b <| b_dev := dev |>);;
            put_block (Some bp) PARTIAL_DATA_BLOCK
        | WRITING => wr bp (λ b, b <| b_dirt := CLEAN |>)
        end;;
        harvest dev r rw_flag (S i) q v
  | _, _ => mret i
  end.

(** The driver leaves what it read in the memory of the buffers. *)
Fixpoint store_iovs (q : list nat) (v : list iov) : M unit :=
  match q, v with
  | bp :: q, io :: v => wr bp (λ b, b <| b_data := iov_data io |>);; store_iovs q v
  | _, _ => mret tt
  end.

Fixpoint load_bufs {A} (f : buf → A) (q : list nat) : M (list A) :=
  match q with
  | [] => mret []
  | bp :: q => a ← rd f bp; l ← load_bufs f q; mret (a :: l)
  end.

(** One round of the loop of [rw_scattered] on the queue [q]; [inr] leaves it. *)
Definition scatter_round (dev block_size : Z) (rw_flag : rw) (q : list nat) :
    M (list nat + unit) :=
  match q with
  | [] => mret (inr tt)
  | bp0 :: _ =>
      first ← rd b_blocknr bp0;
      blocks ← load_bufs b_blocknr q;
      let j := run_length NR_IOREQS first blocks in
      data ← load_bufs b_data (take j q);
      rv ← dev_io (match rw_flag with WRITING => DEV_SCATTER | READING => DEV_GATHER end)
             dev FS_PROC_NR 0 ((λ d, Iov d block_size) <$> data)
             (u32 (first * block_size)) (Z.of_nat j) 0;
      store_iovs (take j q) rv.2;;
      i ← harvest dev rv.1 rw_flag 0 (take j q) rv.2;
      let q := drop i q in
      match rw_flag with
      | READING =>
          for_each q (λ bp, put_block (Some bp) PARTIAL_DATA_BLOCK);;
          mret (inr tt)
      | WRITING => if (i =? 0)%nat then mret (inr tt) else mret (inl q)
      end
  end.

Definition rw_scattered (dev : Z) (bufq : list nat) (rw_flag : rw) : M unit :=
  block_size ← get_block_size dev;
  s ← gets (λ s, bufs (cache s));
  let blocknr bp := from_option b_blocknr 0 (s !! bp) in
  loop (S (length bufq)) (scatter_round dev block_size rw_flag) (shell_sort blocknr bufq).

(** Indices of the dirty blocks of a device, in the order of the pool. *)
Definition dirty_bufs (dev : Z) (l : list buf) : list nat :=
  (filter (λ ib, b_dirt ib.2 = true ∧ b_dev ib.2 = dev) (zip (seq 0 NR_BUFS) l)).*1.

Definition flushall (dev : Z) : M unit :=
  l ← gets (λ s, bufs (cache s));
  rw_scattered dev (dirty_bufs dev l) WRITING.

Definition invalidate (device : Z) : M unit :=
  for_each (seq 0 NR_BUFS) (λ bp,
    dev ← rd b_dev bp;
    when (dev =? device) (wr bp (λ b, b <| b_dev := NO_DEV |>))).

(** The search of the hash chain of [block] from [bp] on. *)
Definition hash_search (dev block : Z) (bp : option nat) : M (option nat) :=
  loop (S NR_BUFS) (λ bp,
    match bp with
    | None => mret (inr None)
    | Some i =>
        nr ← rd b_blocknr i; d ← rd b_dev i;
        if (nr =? block) && (d =? dev) then mret (inr (Some i))
        else n ← rd b_hash i; mret (inl n)
    end) bp.

(** Taking [bp] off the chain [b]: the walk from [prev_ptr], which is not [bp]. *)
Definition hash_remove (b bp : nat) : M unit :=
  prev_ptr ← rd_hash b;
  next ← rd b_hash bp;
  if decide (prev_ptr = Some bp) then wr_hash b next
  else
    p ← deref prev_ptr;
    loop (S NR_BUFS) (λ p,
      n ← rd b_hash p;
      match n with
      | None => mret (inr tt)
      | Some i =>
          if decide (i = bp) then wr p (λ b, b <| b_hash := next |>);; mret (inr tt)
          else mret (inl i)
      end) p.

(** The oldest free buffer, taken off the free list and off its hash chain;
    if it is dirty every dirty block of its device is written. *)
Definition evict : M nat :=
  f ← rc front;
  match f with
  | None => panic (Z.of_nat NR_BUFS)
  | Some bp =>
      rm_lru bp;;
      nr ← rd b_blocknr bp;
      hash_remove (hash nr) bp;;
      dev ← rd b_dev bp;
      dirt ← rd b_dirt bp;
      when (negb (dev =? NO_DEV) && dirt) (flushall dev);;
      mret bp
  end.

Definition get_block (dev block : Z) (only_search : search_mode) : M nat :=
  found ← (if dev =? NO_DEV then mret None
           else h ← rd_hash (hash block); hash_search dev block h);
  match found with
  | Some bp =>
      count ← rd b_count bp;
      when (count =? 0) (rm_lru bp);;
      wr bp (λ b, b <| b_count ::= λ n, i8 (n + 1) |>);;
      mret bp
  | None =>
      bp ← evict;
      wr bp (λ b, b <| b_dev := dev |>);;
      wr bp (λ b, b <| b_blocknr := block |>);;
      wr bp (λ b, b <| b_count ::= λ n, i8 (n + 1) |>);;
      h ← rd_hash (hash block);
      wr bp (λ b, b <| b_hash := h |>);;
      wr_hash (hash block) (Some bp);;
      when (negb (dev =? NO_DEV))
        match only_search with
        | PREFETCH => wr bp (λ b, b <| b_dev := NO_DEV |>)
        | NORMAL => rw_block bp READING
        | NO_READ => mret tt
        end;;
      mret bp
  end.

(** [buf_pool] of main.c. *)
Definition buf_pool : M unit :=
  wc (λ c, c <| bufs_in_use := 0 |> <| front := Some 0%nat |>
             <| rear := Some (NR_BUFS - 1)%nat |>);;
  for_each (seq 0 NR_BUFS) (λ bp,
    wr bp (λ b, b <| b_blocknr := NO_BLOCK |> <| b_dev := NO_DEV |>
      <| b_next := Some (S bp) |> <| b_prev := Some (pred bp) |>));;
  wr 0%nat (λ b, b <| b_prev := None |>);;
  wr (NR_BUFS - 1)%nat (λ b, b <| b_next := None |>);;
  for_each (seq 0 NR_BUFS) (λ bp,
    n ← rd b_next bp; wr bp (λ b, b <| b_hash := n |>));;
  wr_hash 0 (Some 0%nat).
End cache.
