(* ===== verification/CacheInv.v ===== *)
(** The invariant of the block cache (cache.c, buf.h): the free list, the hash
    chains and the use counts describe the same pool, and no block is cached
    twice.  The routines that only relink buffers preserve it; what they leave
    alone is stated as an equality of the pool without its links. *)

From S2P Require Import Prelude Machine State Monad Device SuperTable ShellSort Links Cache.

(** * The free list *)

(** A field of slot [i] of the pool, when the slot exists. *)
Definition field {A} (f : buf → A) (l : list buf) (i : nat) : option A := f <$> l !! i.

Lemma field_Some {A} (f : buf → A) l i v :
  field f l i = Some v ↔ ∃ b, l !! i = Some b ∧ f b = v.
Proof. unfold field. rewrite fmap_Some. split; intros (b & ? & ?); exists b; auto. Qed.

Lemma field_insert {A} (f : buf → A) l i b b' j :
  l !! i = Some b → field f (<[i := b']> l) j = if decide (i = j) then Some (f b') else field f l j.
Proof.
  intros Hi%lookup_lt_Some. unfold field. case_decide.
  - subst j. by rewrite list_lookup_insert_eq.
  - by rewrite list_lookup_insert_ne.
Qed.

Lemma field_insert_same {A} (f : buf → A) l i b b' j :
  l !! i = Some b → f b' = f b → field f (<[i := b']> l) j = field f l j.
Proof.
  intros Hi Hf. rewrite (field_insert _ _ _ b) by done. case_decide; [|done].
  subst j. unfold field. rewrite Hi. simpl. by rewrite Hf.
Qed.

(** [l] is the free list from [front] to [rear], linked both ways. *)
Record lru_ok (c : cache_state) (l : list nat) : Prop := {
  lru_NoDup : NoDup l;
  lru_front : front c = head l;
  lru_rear : rear c = last l;
  lru_next : seg (field b_next (bufs c)) l None;
  lru_prev : seg (field b_prev (bufs c)) (reverse l) None
}.

(** Two pools that are equal once [g] has erased some fields. *)
Definition upto (g : buf → buf) (l l' : list buf) : Prop := g <$> l' = g <$> l.

#[global] Instance upto_equiv g : Equivalence (upto g).
Proof. unfold upto. split; [by intros l|by intros l l' ->|by intros l l' l'' -> ->]. Qed.

Lemma upto_field {A} (f : buf → A) g l l' i :
  (∀ b, f (g b) = f b) → upto g l l' → field f l' i = field f l i.
Proof.
  intros Hf E. unfold field. apply (f_equal (.!! i)) in E. rewrite !list_lookup_fmap in E.
  destruct (l' !! i) as [b'|], (l !! i) as [b|]; try done. simpl in *.
  apply (inj Some), (f_equal f) in E. rewrite !Hf in E. by rewrite E.
Qed.

Lemma upto_length g l l' : upto g l l' → length l' = length l.
Proof. intros E. apply (f_equal length) in E. by rewrite !length_fmap in E. Qed.

Lemma upto_insert g l i b b' : l !! i = Some b → g b' = g b → upto g l (<[i := b']> l).
Proof.
  intros Hi E. unfold upto. rewrite list_fmap_insert, E. apply list_insert_id.
  by rewrite list_lookup_fmap, Hi.
Qed.

(** A buffer without its free list links, without its hash link. *)
Definition unlinked (b : buf) : buf := b <| b_next := None |> <| b_prev := None |>.
Definition unchained (b : buf) : buf := b <| b_hash := None |>.

(** [c'] is [c] up to the free list and the count of the buffers in use. *)
Record relinked (c c' : cache_state) : Prop := {
  relinked_bufs : upto unlinked (bufs c) (bufs c');
  relinked_hash : buf_hash c' = buf_hash c;
  relinked_err : rdwt_err c' = rdwt_err c
}.
#[global] Instance relinked_equiv : Equivalence relinked.
Proof.
  split.
  - intros c. by split.
  - intros c c' []. by split.
  - intros c c' c'' [] []. split; [by etrans|congruence..].
Qed.

(** [c'] is [c] up to the hash chains. *)
Record rechained (c c' : cache_state) : Prop := {
  rechained_bufs : upto unchained (bufs c) (bufs c');
  rechained_front : front c' = front c;
  rechained_rear : rear c' = rear c;
  rechained_in_use : bufs_in_use c' = bufs_in_use c;
  rechained_err : rdwt_err c' = rdwt_err c
}.
#[global] Instance rechained_equiv : Equivalence rechained.
Proof.
  split.
  - intros c. by split.
  - intros c c' []. by split.
  - intros c c' c'' [] []. split; [by etrans|congruence..].
Qed.

(** * The hash chains *)

(** [ch] is the chain at entry [h] of the hash table. *)
Record chain_ok (c : cache_state) (h : nat) (ch : list nat) : Prop := {
  chain_head : buf_hash c !! h = Some (head ch);
  chain_NoDup : NoDup ch;
  chain_seg : seg (field b_hash (bufs c)) ch None
}.

Lemma chain_lookup c h ch i : chain_ok c h ch → i ∈ ch → is_Some (bufs c !! i).
Proof.
  intros Hch Hi. apply list_elem_of_lookup in Hi as [k Hk].
  pose proof (seg_lookup _ _ _ _ _ (chain_seg _ _ _ Hch) Hk) as E.
  apply field_Some in E as (b & ? & _). eauto.
Qed.

(** A list of different slots of the pool is no longer than the pool. *)
Lemma slots_length (c : cache_state) (l : list nat) :
  NoDup l → (∀ i, i ∈ l → is_Some (bufs c !! i)) → (length l ≤ length (bufs c))%nat.
Proof.
  intros Hnd Hl. rewrite <- (length_seq (length (bufs c)) 0).
  apply submseteq_length, NoDup_submseteq; [done|].
  intros i Hi. apply elem_of_seq. apply Hl, lookup_lt_is_Some in Hi. lia.
Qed.

Lemma chain_length c h ch : chain_ok c h ch → (length ch ≤ length (bufs c))%nat.
Proof.
  intros Hch. eapply slots_length; [apply Hch|]. intros i. by apply (chain_lookup _ h).
Qed.

Section lists.
Context {cfg : Config} {krn : Kernel}.

(** The rest of the server is unchanged. *)
Record same_rest (s s' : st) : Prop := {
  same_tabs : tabs s' = tabs s;
  same_glo : glo s' = glo s
}.

#[global] Instance same_rest_equiv : Equivalence same_rest.
Proof.
  split.
  - intros s. by split.
  - intros s s' []. by split.
  - intros s s' s'' [] []. split; congruence.
Qed.

(** What a routine that only relinks the free list may do; [d] is the change of
    the count of the buffers in use. *)
Record relinks (d : Z) (s s' : st) : Prop := {
  relinks_rest : same_rest s s';
  relinks_kern : kern s' = kern s;
  relinks_cache : relinked (cache s) (cache s');
  relinks_count : bufs_in_use (cache s') = bufs_in_use (cache s) + d
}.

Lemma relinks_trans d1 d2 s1 s2 s3 : relinks d1 s1 s2 → relinks d2 s2 s3 → relinks (d1 + d2) s1 s3.
Proof.
  intros [? ? ? ?] [? ? ? ?].
  split; [by etrans|by etrans|by etrans|lia].
Qed.

Lemma lru_lookup c l i : lru_ok c l → i ∈ l → ∃ b, bufs c !! i = Some b.
Proof.
  intros Hl Hi. apply list_elem_of_lookup in Hi as [k Hk].
  pose proof (seg_lookup _ _ _ _ _ (lru_next _ _ Hl) Hk) as E.
  apply field_Some in E as (b & ? & _). eauto.
Qed.

Lemma lru_links c l1 i l2 :
  lru_ok c (l1 ++ i :: l2) →
  ∃ b, bufs c !! i = Some b ∧ b_next b = head l2 ∧ b_prev b = last l1.
Proof.
  intros Hl. pose proof (seg_mid _ _ _ _ _ (lru_next _ _ Hl)) as Hn.
  pose proof (lru_prev _ _ Hl) as Hp.
  rewrite reverse_app, reverse_cons, <- app_assoc in Hp. simpl in Hp.
  apply seg_mid in Hp. rewrite head_or_None in Hn, Hp. rewrite <- last_head_reverse in Hp.
  apply field_Some in Hn as (b & Hb & Hn). apply field_Some in Hp as (b' & Hb' & Hp).
  exists b. split_and!; [done|done|congruence].
Qed.

(** Relinking the neighbours of [i] in both directions takes it off the list. *)
Lemma lru_ok_remove c c' l1 i l2 :
  lru_ok c (l1 ++ i :: l2) →
  front c' = head (l1 ++ l2) → rear c' = last (l1 ++ l2) →
  (∀ j, field b_next (bufs c') j =
     if decide (last l1 = Some j) then Some (head l2) else field b_next (bufs c) j) →
  (∀ j, field b_prev (bufs c') j =
     if decide (head l2 = Some j) then Some (last l1) else field b_prev (bufs c) j) →
  lru_ok c' (l1 ++ l2).
Proof.
  intros [Hnd _ _ Hnext Hprev] Hf Hr Hn Hp. split; [|done|done| |].
  - by apply NoDup_middle in Hnd as [_ ?].
  - eapply seg_remove; [exact Hnd|exact Hnext|..].
    + intros p Hlast. by rewrite Hn, decide_True, head_or_None.
    + intros j Hj. by rewrite Hn, decide_False.
  - assert (reverse (l1 ++ i :: l2) = reverse l2 ++ i :: reverse l1) as E
      by by rewrite reverse_app, reverse_cons, <- app_assoc.
    rewrite E in Hprev. rewrite reverse_app. eapply seg_remove; [|exact Hprev|..].
    + by rewrite <- E, reverse_Permutation.
    + intros p Hlast. rewrite last_head_reverse, reverse_involutive in Hlast.
      by rewrite Hp, decide_True, head_or_None, <- last_head_reverse.
    + intros j Hj. rewrite last_head_reverse, reverse_involutive in Hj.
      by rewrite Hp, decide_False.
Qed.

(** The two writes that link slots [p] and [n] of the list, or its ends. *)
Definition set_next (p v : option nat) : M unit :=
  match p with
  | Some p => wr p (λ b, b <| b_next := v |>)
  | None => wc (λ c, c <| front := v |>)
  end.
Definition set_prev (n v : option nat) : M unit :=
  match n with
  | Some n => wr n (λ b, b <| b_prev := v |>)
  | None => wc (λ c, c <| rear := v |>)
  end.

Lemma set_next_spec p v s :
  (∀ i, p = Some i → is_Some (bufs (cache s) !! i)) →
  wp (set_next p v) (λ _ s', relinks 0 s s' ∧
    front (cache s') = match p with Some _ => front (cache s) | None => v end ∧ rear (cache s') = rear (cache s) ∧
    (∀ j, field b_next (bufs (cache s')) j =
       if decide (p = Some j) then Some v else field b_next (bufs (cache s)) j) ∧
    (∀ j, field b_prev (bufs (cache s')) j = field b_prev (bufs (cache s)) j)) s.
Proof.
  intros Hp. destruct p as [p|]; simpl.
  - destruct (Hp p eq_refl) as [b Hb]. wp_wr. unfold set_field. simpl. split_and!; try done.
    + split; simpl; [done|done|split; [|done|done]|lia]. simpl. by eapply upto_insert.
    + intros j. rewrite (field_insert _ _ _ b) by done.
      repeat case_decide; congruence || done.
    + intros j. by rewrite (field_insert_same _ _ _ b).
  - wp_pure. split_and!; try done. split; simpl; [done|done|done|lia].
Qed.

Lemma set_prev_spec n v s :
  (∀ i, n = Some i → is_Some (bufs (cache s) !! i)) →
  wp (set_prev n v) (λ _ s', relinks 0 s s' ∧
    front (cache s') = front (cache s) ∧ rear (cache s') = match n with Some _ => rear (cache s) | None => v end ∧
    (∀ j, field b_prev (bufs (cache s')) j =
       if decide (n = Some j) then Some v else field b_prev (bufs (cache s)) j) ∧
    (∀ j, field b_next (bufs (cache s')) j = field b_next (bufs (cache s)) j)) s.
Proof.
  intros Hn. destruct n as [n|]; simpl.
  - destruct (Hn n eq_refl) as [b Hb]. wp_wr. unfold set_field. simpl. split_and!; try done.
    + split; simpl; [done|done|split; [|done|done]|lia]. simpl. by eapply upto_insert.
    + intros j. rewrite (field_insert _ _ _ b) by done.
      repeat case_decide; congruence || done.
    + intros j. by rewrite (field_insert_same _ _ _ b).
  - wp_pure. split_and!; try done. split; simpl; [done|done|done|lia].
Qed.

Lemma relinks_in_use s f d :
  f (bufs_in_use (cache s)) = bufs_in_use (cache s) + d →
  relinks d s (s <| cache ::= λ c, c <| bufs_in_use ::= f |> |>).
Proof. intros Hd. by split. Qed.

Lemma lru_lookup_relinks d s s' l i :
  lru_ok (cache s) l → relinks d s s' → i ∈ l → is_Some (bufs (cache s') !! i).
Proof.
  intros Hl R Hi. destruct (lru_lookup _ _ _ Hl Hi) as [b Hb%lookup_lt_Some].
  apply lookup_lt_is_Some. by rewrite (upto_length _ _ _ (relinked_bufs _ _ (relinks_cache _ _ _ R))).
Qed.

Lemma rm_lru_spec s l1 i l2 :
  lru_ok (cache s) (l1 ++ i :: l2) →
  wp (rm_lru i) (λ _ s', relinks 1 s s' ∧ lru_ok (cache s') (l1 ++ l2)) s.
Proof.
  intros Hl. destruct (lru_links _ _ _ _ Hl) as (b & Hb & Hnext & Hprev).
  unfold rm_lru. wp_pure. wp_pure.
  pose proof (relinks_in_use s (Z.add 1) 1 ltac:(lia)) as R0.
  wp_pure. wp_rd. wp_pure. wp_rd. rewrite Hnext, Hprev.
  wp_pure. eapply wp_mono; [apply (set_next_spec (last l1) (head l2))|].
  { intros j Hj%last_Some_elem_of. eapply lru_lookup_relinks; [exact Hl|exact R0|set_solver]. }
  intros [] s1 (R1 & Hf1 & Hr1 & Hn1 & Hp1). pose proof (relinks_trans _ _ _ _ _ R0 R1) as R.
  eapply wp_mono; [apply (set_prev_spec (head l2) (last l1))|].
  { intros j Hj%head_Some_elem_of. eapply lru_lookup_relinks; [exact Hl|exact R|set_solver]. }
  intros [] s2 (R2 & Hf2 & Hr2 & Hp2 & Hn2). split; [exact (relinks_trans _ _ _ _ _ R R2)|].
  clear R R0 R1 R2. unfold set_field in *. simpl in *.
  eapply lru_ok_remove; [exact Hl|..].
  - rewrite Hf2, Hf1, (lru_front _ _ Hl). by destruct l1 as [|x l1 _] using rev_ind;
      [|rewrite last_snoc, <- app_assoc; destruct l1].
  - rewrite Hr2, Hr1, (lru_rear _ _ Hl). destruct l2 as [|x l2 _] using rev_ind; simpl.
    + by rewrite app_nil_r.
    + rewrite app_comm_cons, !app_assoc, !last_snoc. by destruct l2.
  - intros j. by rewrite Hn2, Hn1.
  - intros j. by rewrite Hp2, Hp1.
Qed.

(** Linking [i] behind the last or before the first slot. *)
Lemma lru_ok_push_rear c c' l i :
  lru_ok c l → i ∉ l →
  front c' = head (l ++ [i]) → rear c' = Some i →
  (∀ j, field b_next (bufs c') j =
     if decide (i = j) then Some None
     else if decide (last l = Some j) then Some (Some i) else field b_next (bufs c) j) →
  (∀ j, field b_prev (bufs c') j =
     if decide (i = j) then Some (last l) else field b_prev (bufs c) j) →
  lru_ok c' (l ++ [i]).
Proof.
  intros [Hnd _ _ Hnext Hprev] Hi Hf Hr Hn Hp. split; [|done|by rewrite last_snoc|..].
  - apply NoDup_app. split_and!; [done| |apply NoDup_singleton].
    by intros x Hx ->%list_elem_of_singleton.
  - eapply seg_push; [done|exact Hnext|..].
    + by rewrite Hn, decide_True.
    + intros p Hlast. rewrite Hn, decide_False, decide_True; [done..|].
      intros ->. by apply last_Some_elem_of in Hlast.
    + intros j Hj Hlast. rewrite Hn, !decide_False; [done..|]. intros ->. done.
  - rewrite reverse_snoc. simpl. rewrite head_or_None, <- last_head_reverse. split.
    + by rewrite Hp, decide_True.
    + eapply seg_ext; [|exact Hprev]. intros j Hj. rewrite elem_of_reverse in Hj. 
      rewrite Hp, decide_False; [done|]. by intros ->.
Qed.

Lemma lru_ok_push_front c c' l i :
  lru_ok c l → i ∉ l →
  front c' = Some i → rear c' = last (i :: l) →
  (∀ j, field b_next (bufs c') j =
     if decide (i = j) then Some (head l) else field b_next (bufs c) j) →
  (∀ j, field b_prev (bufs c') j =
     if decide (i = j) then Some None
     else if decide (head l = Some j) then Some (Some i) else field b_prev (bufs c) j) →
  lru_ok c' (i :: l).
Proof.
  intros [Hnd _ _ Hnext Hprev] Hi Hf Hr Hn Hp. split; [by constructor|done|done|..].
  - simpl. rewrite head_or_None. split.
    + by rewrite Hn, decide_True.
    + eapply seg_ext; [|exact Hnext]. intros j Hj.
      rewrite Hn, decide_False; [done|]. by intros ->.
  - rewrite reverse_cons. eapply seg_push; [by rewrite reverse_Permutation|exact Hprev|..].
    + by rewrite Hp, decide_True.
    + intros p Hlast. rewrite last_head_reverse, reverse_involutive in Hlast.
      rewrite Hp, decide_False, decide_True; [done..|].
      intros ->. by apply head_Some_elem_of in Hlast.
    + intros j Hj Hlast. rewrite elem_of_reverse in Hj. rewrite last_head_reverse, reverse_involutive in Hlast.
      rewrite Hp, !decide_False; [done..|]. by intros ->.
Qed.

(** Writing both links of a buffer that is not on the list. *)
Lemma wr_links_spec s i b n p :
  bufs (cache s) !! i = Some b →
  wp (wr i (λ b, b <| b_prev := p |> <| b_next := n |>)) (λ _ s', relinks 0 s s' ∧
    front (cache s') = front (cache s) ∧ rear (cache s') = rear (cache s) ∧
    (∀ j, field b_next (bufs (cache s')) j =
       if decide (i = j) then Some n else field b_next (bufs (cache s)) j) ∧
    (∀ j, field b_prev (bufs (cache s')) j =
       if decide (i = j) then Some p else field b_prev (bufs (cache s)) j)) s.
Proof.
  intros Hb. wp_wr. unfold set_field. simpl. split_and!; try done.
  - split; simpl; [done|done|split; [|done|done]|lia]. simpl. by eapply upto_insert.
  - intros j. by rewrite (field_insert _ _ _ b).
  - intros j. by rewrite (field_insert _ _ _ b).
Qed.

Lemma relinks_front d s s' v : relinks d s s' → relinks d s (s' <| cache ::= λ c, c <| front := v |> |>).
Proof. intros [[] ? [] ?]. by repeat split. Qed.
Lemma relinks_rear d s s' v : relinks d s s' → relinks d s (s' <| cache ::= λ c, c <| rear := v |> |>).
Proof. intros [[] ? [] ?]. by repeat split. Qed.

Lemma put_rear_spec s l i :
  lru_ok (cache s) l → i ∉ l → is_Some (bufs (cache s) !! i) →
  wp (put_rear i) (λ _ s', relinks 0 s s' ∧ lru_ok (cache s') (l ++ [i])) s.
Proof.
  intros Hl Hi [b Hb]. unfold put_rear. wp_pure. wp_pure.
  wp_pure. eapply wp_mono; [by eapply wr_links_spec|].
  intros [] s1 (R1 & Hf1 & Hr1 & Hn1 & Hp1). rewrite (lru_rear _ _ Hl) in *.
  wp_pure. eapply wp_mono; [apply (set_next_spec (last l) (Some i))|].
  { intros j Hj%last_Some_elem_of. eapply lru_lookup_relinks; [exact Hl|exact R1|done]. }
  intros [] s2 (R2 & Hf2 & Hr2 & Hn2 & Hp2). wp_pure. split.
  - apply (relinks_trans _ _ _ _ _ R1 (relinks_rear _ _ _ _ R2)).
  - eapply lru_ok_push_rear; [exact Hl|done|..]; unfold set_field; simpl.
    + rewrite Hf2, Hf1, (lru_front _ _ Hl). destruct l as [|x l _] using rev_ind; [done|].
      rewrite last_snoc. by destruct l.
    + done.
    + intros j. rewrite Hn2, Hn1. repeat case_decide; try done. subst j.
      by apply last_Some_elem_of in H.
    + intros j. by rewrite Hp2, Hp1.
Qed.

Lemma put_front_spec s l i :
  lru_ok (cache s) l → i ∉ l → is_Some (bufs (cache s) !! i) →
  wp (put_front i) (λ _ s', relinks 0 s s' ∧ lru_ok (cache s') (i :: l)) s.
Proof.
  intros Hl Hi [b Hb]. unfold put_front. wp_pure. wp_pure.
  wp_pure. eapply wp_mono; [by eapply wr_links_spec|].
  intros [] s1 (R1 & Hf1 & Hr1 & Hn1 & Hp1). rewrite (lru_front _ _ Hl) in *.
  wp_pure. eapply wp_mono; [apply (set_prev_spec (head l) (Some i))|].
  { intros j Hj%head_Some_elem_of. eapply lru_lookup_relinks; [exact Hl|exact R1|done]. }
  intros [] s2 (R2 & Hf2 & Hr2 & Hp2 & Hn2). wp_pure. split.
  - apply (relinks_trans _ _ _ _ _ R1 (relinks_front _ _ _ _ R2)).
  - eapply lru_ok_push_front; [exact Hl|done|..]; unfold set_field; simpl.
    + done.
    + rewrite Hr2, Hr1, (lru_rear _ _ Hl). by destruct l.
    + intros j. by rewrite Hn2, Hn1.
    + intros j. rewrite Hp2, Hp1. repeat case_decide; try done. subst j.
      by apply head_Some_elem_of in H.
Qed.

(** What a routine that only relinks hash chains may do. *)
Record rechains (s s' : st) : Prop := {
  rechains_rest : same_rest s s';
  rechains_kern : kern s' = kern s;
  rechains_cache : rechained (cache s) (cache s')
}.

Definition holds (s : st) (dev block : Z) (i : nat) : Prop :=
  ∃ b, bufs (cache s) !! i = Some b ∧ b_blocknr b = block ∧ b_dev b = dev.

Lemma hash_search_loop s dev block ch fuel :
  seg (field b_hash (bufs (cache s))) ch None → (length ch < fuel)%nat →
  wp (loop fuel (λ bp,
      match bp with
      | None => mret (inr None)
      | Some i =>
          nr ← rd b_blocknr i; d ← rd b_dev i;
          if (nr =? block) && (d =? dev) then mret (inr (Some i))
          else n ← rd b_hash i; mret (inl n)
      end) (head ch))
    (λ r s', s' = s ∧ match r with
       | Some i => i ∈ ch ∧ holds s dev block i
       | None => ∀ i, i ∈ ch → ¬ holds s dev block i
       end) s.
Proof.
  revert ch. induction fuel as [|fuel IH]; intros ch Hch Hlen; [lia|]. simpl.
  wp_pure. destruct ch as [|i ch]; simpl.
  { wp_pure. wp_pure. split; [done|]. intros i Hi. by apply not_elem_of_nil in Hi. }
  destruct Hch as [(b & Hb & Hn)%field_Some Hch]. wp_pure. wp_rd. wp_pure. wp_rd.
  destruct ((b_blocknr b =? block) && (b_dev b =? dev)) eqn:E.
  - wp_pure. wp_pure. split; [done|]. split; [by left|]. exists b.
    apply andb_prop in E as [?%Z.eqb_eq ?%Z.eqb_eq]. done.
  - wp_pure. wp_rd. wp_pure. rewrite Hn, head_or_None.
    eapply wp_mono; [apply IH; [done|simpl in Hlen; lia]|].
    intros r s' [-> Hr]. split; [done|]. destruct r as [j|].
    + split; [right|]; apply Hr.
    + intros j [->|Hj]%elem_of_cons; [|by apply Hr].
      intros (b' & Hb' & <- & <-). rewrite Hb in Hb'. simplify_eq.
      by rewrite !Z.eqb_refl in E.
Qed.

Lemma hash_search_spec s dev block h ch :
  chain_ok (cache s) h ch → length (bufs (cache s)) = NR_BUFS →
  wp (hash_search dev block (head ch)) (λ r s', s' = s ∧ match r with
       | Some i => i ∈ ch ∧ holds s dev block i
       | None => ∀ i, i ∈ ch → ¬ holds s dev block i
       end) s.
Proof.
  intros Hch Hlen. apply hash_search_loop; [apply Hch|].
  apply chain_length in Hch. lia.
Qed.

(** The hash link of [p] alone has changed. *)
Definition relinks_hash (p : option nat) (v : option nat) (s s' : st) : Prop :=
  rechains s s' ∧ buf_hash (cache s') = buf_hash (cache s) ∧
  ∀ j, field b_hash (bufs (cache s')) j =
    if decide (p = Some j) then Some v else field b_hash (bufs (cache s)) j.

Lemma wr_hash_link_spec s p v :
  is_Some (bufs (cache s) !! p) →
  wp (wr p (λ b, b <| b_hash := v |>)) (λ _ s', relinks_hash (Some p) v s s') s.
Proof.
  intros [b Hb]. wp_wr. unfold set_field. simpl. split_and!; [|done|].
  - split; simpl; [done|done|split; try done]. simpl. by eapply upto_insert.
  - intros j. simpl. rewrite (field_insert _ _ _ b) by done.
    repeat case_decide; congruence || done.
Qed.

Lemma hash_remove_loop s i next p l1 l2 fuel :
  NoDup (p :: l1 ++ i :: l2) → seg (field b_hash (bufs (cache s))) (p :: l1 ++ i :: l2) None →
  (length l1 < fuel)%nat →
  wp (loop fuel (λ p,
      n ← rd b_hash p;
      match n with
      | None => mret (inr tt)
      | Some j =>
          if decide (j = i) then wr p (λ b, b <| b_hash := next |>);; mret (inr tt)
          else mret (inl j)
      end) p)
    (λ _ s', relinks_hash (last (p :: l1)) next s s') s.
Proof.
  revert p l1. induction fuel as [|fuel IH]; intros p l1 Hnd Hseg Hlen; [lia|].
  cbn [loop]. destruct Hseg as [(b & Hb & Hn)%field_Some Hseg].
  wp_pure. wp_pure. wp_rd. rewrite Hn. destruct l1 as [|q l1]; simpl.
  - rewrite decide_True by done. wp_pure.
    eapply wp_mono; [by apply wr_hash_link_spec|]. intros [] s' Hs'. by do 2 wp_pure.
  - apply NoDup_cons in Hnd as [_ Hnd]. rewrite decide_False.
    + wp_pure. apply IH; [done|done|simpl in Hlen; lia].
    + intros ->. apply NoDup_cons in Hnd as [Hq _]. apply Hq, elem_of_app. right. by left.
Qed.

Lemma wr_hash_spec s h v w :
  buf_hash (cache s) !! h = Some w →
  wp (wr_hash h v) (λ _ s', rechains s s' ∧ bufs (cache s') = bufs (cache s) ∧
    buf_hash (cache s') = <[h := v]> (buf_hash (cache s))) s.
Proof.
  intros Hh. unfold wr_hash. wp_pure. wp_pure. rewrite Hh. wp_pure. by repeat split.
Qed.

Lemma hash_remove_spec s h l1 i l2 :
  chain_ok (cache s) h (l1 ++ i :: l2) → length (bufs (cache s)) = NR_BUFS →
  wp (hash_remove h i) (λ _ s', rechains s s' ∧ chain_ok (cache s') h (l1 ++ l2) ∧
    length (buf_hash (cache s')) = length (buf_hash (cache s)) ∧
    (∀ k, k ≠ h → buf_hash (cache s') !! k = buf_hash (cache s) !! k) ∧
    (∀ j, last l1 ≠ Some j →
       field b_hash (bufs (cache s')) j = field b_hash (bufs (cache s)) j)) s.
Proof.
  intros Hch Hlen. pose proof (chain_length _ _ _ Hch) as Hlen'.
  destruct Hch as [Hhead Hnd Hseg]. unfold hash_remove, rd_hash.
  pose proof (seg_mid _ _ _ _ _ Hseg) as Hi.
  apply field_Some in Hi as (b & Hb & Hn). rewrite head_or_None in Hn.
  wp_pure. wp_pure. wp_pure. eapply wp_deref; [exact Hhead|]. wp_pure. wp_rd. rewrite Hn.
  destruct l1 as [|p l1]; cbn [app head].
  - rewrite decide_True by done. eapply wp_mono; [by eapply wr_hash_spec|].
    intros [] s' (R & Hbufs & Hhash). simpl in Hhead.
    split_and!; [done| |by rewrite Hhash, length_insert|intros k Hk|intros j _];
      rewrite ?Hbufs; [|by rewrite Hhash, list_lookup_insert_ne|done].
    apply NoDup_cons in Hnd as [_ Hnd]. split; [|done|].
    + rewrite Hhash. apply lookup_lt_Some in Hhead. by rewrite list_lookup_insert_eq.
    + rewrite Hbufs. apply Hseg.
  - assert (p ≠ i) as Hpi by by (intros ->; apply (NoDup_middle (i :: l1)) in Hnd as [Hi _]; apply Hi; by left).
    rewrite decide_False by congruence. wp_pure. eapply wp_deref; [done|].
    eapply wp_mono; [eapply (hash_remove_loop _ i _ p l1 l2)|].
    + done.
    + done.
    + simpl in Hlen'. rewrite length_app in Hlen'. lia.
    + intros _ s' (R & Hhash & Hf). rewrite Hhash. split_and!; [done| |done|done|].
      * split; [by rewrite Hhash| |].
        -- by apply (NoDup_middle (p :: l1)) in Hnd as [_ ?].
        -- eapply (seg_remove _ _ (p :: l1)); [exact Hnd|exact Hseg|..].
           ++ intros q Hq. by rewrite Hf, decide_True, head_or_None.
           ++ intros j Hj. by rewrite Hf, decide_False.
      * intros j Hj. by rewrite Hf, decide_False.
Qed.
End lists.
