(* ===== verification/DiskView.v ===== *)
(** The interface between the block cache and the disk drivers: what a driver that does not
    fail answers to the requests of cache.c, and what [dev_io] (device.c) then does.  The
    drivers are not part of the file server; the laws state the protocol of device.c's
    requests ([DEV_READ], [DEV_WRITE] and the vectors of [DEV_SCATTER]).

    What the block cache promises its clients: a device seen through the cache, where the
    buffers hide the blocks of the disk they hold.  [view] is that device, [coherent] the
    invariant that a clean buffer agrees with the disk. *)

From S2P Require Import Prelude Machine State Monad Process Device SuperTable Cache.

(** [n] bytes from position [p] on. *)
Definition span (f : Z → Z) (p : Z) (n : nat) : list Z := (λ j, f (p + Z.of_nat j)) <$> seq 0 n.

(** The bytes [d] over the positions from [p] on. *)
Definition overlay (f : Z → Z) (p : Z) (d : list Z) : Z → Z := λ q,
  if decide (p ≤ q) then from_option id (f q) (d !! Z.to_nat (q - p)) else f q.

(** The first [t] blocks [ds] of size [n] written from [p] on. *)
Fixpoint overlay_blocks (f : Z → Z) (p n : Z) (t : nat) (ds : list (list Z)) : Z → Z :=
  match t, ds with
  | S t, d :: ds => overlay_blocks (overlay f p (take (Z.to_nat n) d)) (p + n) n t ds
  | _, _ => f
  end.

(** The drive [minor] of the driver [task]. *)
Definition request (op minor pos count : Z) (m : message) : Prop :=
  m_type m = op ∧ DEVICE m = minor ∧ POSITION m = pos ∧ COUNT m = count ∧
  PROC_NR m = FS_PROC_NR.
Definition answer (status : Z) (m : message) : Prop :=
  REP_PROC_NR m = FS_PROC_NR ∧ REP_STATUS m = status.

Class Disk {krn : Kernel} := {
  disk_driver : Z → Prop;
  sector : K → Z → Z → Z → Z;
  sector_byte k task minor pos : byte_ok (sector k task minor pos);
  disk_read task minor pos n data m k :
    disk_driver task → request DEV_READ minor pos n m →
    0 < n → n ≤ Z.of_nat (length data) → 0 ≤ pos → pos + n ≤ 2 ^ 32 →
    ∃ m' z k', k_sendrec task m [Iov data n] k =
        (OK, m', [Iov (span (sector k task minor) pos (Z.to_nat n) ++ drop (Z.to_nat n) data) z], k') ∧
      answer n m' ∧ sector k' = sector k;
  disk_write task minor pos n data m k :
    disk_driver task → request DEV_WRITE minor pos n m → Forall byte_ok data →
    0 < n → n ≤ Z.of_nat (length data) → 0 ≤ pos → pos + n ≤ 2 ^ 32 →
    ∃ m' z k', k_sendrec task m [Iov data n] k = (OK, m', [Iov data z], k') ∧
      answer n m' ∧
      (∀ task' minor', sector k' task' minor' =
         if decide (task' = task ∧ minor' = minor)
         then overlay (sector k task minor) pos (take (Z.to_nat n) data)
         else sector k task' minor');
  (** A driver may write only some of the blocks of a vector, at least one. *)
  disk_scatter task minor pos n (ds : list (list Z)) m k :
    disk_driver task → request DEV_SCATTER minor pos (Z.of_nat (length ds)) m →
    Forall (Forall byte_ok) ds → 0 < n → Forall (λ d, n ≤ Z.of_nat (length d)) ds → ds ≠ [] →
    0 ≤ pos → pos + n * Z.of_nat (length ds) ≤ 2 ^ 32 →
    ∃ m' t k', (0 < t ≤ length ds)%nat ∧
      k_sendrec task m ((λ d, Iov d n) <$> ds) k =
        (OK, m', ((λ d, Iov d 0) <$> take t ds) ++ ((λ d, Iov d n) <$> drop t ds), k') ∧
      answer OK m' ∧
      (∀ task' minor', sector k' task' minor' =
         if decide (task' = task ∧ minor' = minor)
         then overlay_blocks (sector k task minor) pos n t ds
         else sector k task' minor')
}.

(** * One request *)

Section dev_io.
Context {cfg : Config} {krn : Kernel}.

Lemma major_of_index dev : index (major_of dev) = mret (Z.to_nat (major_of dev)).
Proof.
  unfold index, major_of, BYTE. change 255 with (2 ^ 8 - 1). rewrite land_mask by lia.
  by destruct (Z.ltb_spec (Z.shiftr dev MAJOR mod 2 ^ 8) 0); [zlia|].
Qed.

(** A driver that answers the request at once. *)
Lemma gen_io_answer s task m v m' v' k' status :
  PROC_NR m = FS_PROC_NR → k_sendrec task m v (kern s) = (OK, m', v', k') → answer status m' →
  wp (gen_io task m v) (λ r s', r = (m', v') ∧ s' = s <| kern := k' |>) s.
Proof.
  intros Hproc Hsend [Hrep _]. unfold gen_io. rewrite Hproc. simpl.
  pose proof loop_fuel_pos. destruct loop_fuel as [|fuel] eqn:Ef; [lia|].
  unfold gen_io_send, gen_io_wait. rewrite Ef. simpl.
  do 2 wp_pure. wp_pure. eapply wp_kcall; [by rewrite Hsend|]. simpl.
  do 2 wp_pure. wp_pure. simpl. rewrite Hrep. simpl. by do 2 wp_pure.
Qed.

Lemma dev_io_answer s dev op addr v pos n flags d status (P : list iov → K → Prop) :
  dmaps (tabs s) !! Z.to_nat (major_of dev) = Some d →
  dmap_io d = gen_io_r → dmap_driver d ≠ NONE → status ≠ SUSPEND →
  (∀ m, request op (minor_of dev) pos n m → ∃ m' v' k',
     k_sendrec (dmap_driver d) m v (kern s) = (OK, m', v', k') ∧ answer status m' ∧ P v' k') →
  wp (dev_io op dev FS_PROC_NR addr v pos n flags)
    (λ r s', r.1 = status ∧ ∃ k', s' = s <| kern := k' |> ∧ P r.2 k') s.
Proof.
  intros Hd Hio Hdr Hst Hsend. unfold dev_io. wp_pure. rewrite major_of_index. wp_pure.
  wp_pure. wp_rd. apply Z.eqb_neq in Hdr. rewrite Hdr.
  wp_pure. wp_rd. rewrite Hio. wp_pure. cbn [call_io].
  match goal with |- wp (gen_io _ ?m _) _ _ => destruct (Hsend m) as (m' & v' & k' & E & Hans & HP) end.
  { by split_and!. }
  eapply wp_mono; [eapply gen_io_answer; [done|exact E|exact Hans]|].
  intros r s' [-> ->]. destruct Hans as [_ ->]. apply Z.eqb_neq in Hst. rewrite Hst.
  wp_pure. split; [done|]. by exists k'.
Qed.
End dev_io.

(** * Blocks of a disk *)

Lemma length_span f p n : length (span f p n) = n.
Proof. unfold span. by rewrite length_fmap, length_seq. Qed.

Lemma lookup_span f p n i : (i < n)%nat → span f p n !! i = Some (f (p + Z.of_nat i)).
Proof. intros Hi. unfold span. by rewrite list_lookup_fmap, lookup_seq_lt. Qed.

Lemma span_ext f g p n :
  (∀ q, p ≤ q < p + Z.of_nat n → f q = g q) → span f p n = span g p n.
Proof.
  intros E. apply list_eq. intros i. destruct (decide (i < n)%nat).
  - rewrite !lookup_span by done. f_equal. apply E. lia.
  - rewrite !lookup_ge_None_2; rewrite ?length_span; [done|lia..].
Qed.

Lemma overlay_in f p d q i x :
  d !! i = Some x → q = p + Z.of_nat i → overlay f p d q = x.
Proof.
  intros Hi ->. unfold overlay. rewrite decide_True by lia.
  replace (Z.to_nat (p + Z.of_nat i - p)) with i by lia. by rewrite Hi.
Qed.

Lemma overlay_out f p d q :
  q < p ∨ p + Z.of_nat (length d) ≤ q → overlay f p d q = f q.
Proof.
  intros Hq. unfold overlay. case_decide; [|done]. rewrite lookup_ge_None_2; [done|lia].
Qed.

(** Writing one block: positions are multiples of the block size [n]. *)
Lemma span_overlay f a b n d :
  length d = n → (0 < n)%nat →
  span (overlay f (a * Z.of_nat n) d) (b * Z.of_nat n) n =
    if decide (a = b) then d else span f (b * Z.of_nat n) n.
Proof.
  intros Hd Hn. case_decide.
  - subst b. apply list_eq. intros i. destruct (decide (i < n)%nat).
    + rewrite lookup_span by done. destruct (lookup_lt_is_Some_2 d i) as [x Hx]; [lia|].
      rewrite Hx. f_equal. by eapply overlay_in.
    + rewrite !lookup_ge_None_2; rewrite ?length_span; [done|lia..].
  - apply span_ext. intros q Hq. apply overlay_out. rewrite Hd.
    assert (a + 1 ≤ b ∨ b + 1 ≤ a) as [?|?] by lia; [right|left]; nia.
Qed.

Lemma span_overlay_blocks f a b n t ds :
  (0 < n)%nat → Forall (λ d, n ≤ length d)%nat ds →
  span (overlay_blocks f (a * Z.of_nat n) (Z.of_nat n) t ds) (b * Z.of_nat n) n =
    match (if decide (a ≤ b) then take t ds !! Z.to_nat (b - a) else None) with
    | Some d => take n d
    | None => span f (b * Z.of_nat n) n
    end.
Proof.
  intros Hn. revert f a t. induction ds as [|d ds IH]; intros f a [|t] Hds; simpl.
  - by case_decide.
  - by case_decide.
  - by case_decide.
  - apply Forall_cons in Hds as [Hd Hds].
    replace (a * Z.of_nat n + Z.of_nat n) with ((a + 1) * Z.of_nat n) by lia.
    rewrite IH by done. rewrite Nat2Z.id, span_overlay by (rewrite ?length_take; lia).
    destruct (decide (a = b)) as [->|].
    + rewrite decide_False, decide_True by lia. by rewrite Z.sub_diag.
    + repeat case_decide; try lia; [|done].
      by replace (Z.to_nat (b - a)) with (S (Z.to_nat (b - (a + 1)))) by lia.
Qed.

(** * Devices *)

Section view.
Context {cfg : Config} {krn : Kernel} {dk : Disk}.

(** The size of the blocks of a device, as [get_block_size] finds it, and the
    driver of the device. *)
Definition dev_bs (t : tables) (dev : Z) : Z :=
  match find_super dev (supers t) with
  | Some (_, sp) => s_block_size sp
  | None => MIN_BLOCK_SIZE
  end.
Definition drive (t : tables) (dev : Z) : Z :=
  from_option dmap_driver NONE (dmaps t !! Z.to_nat (major_of dev)).

(** A block of a disk. *)
Definition disk_block (t : tables) (k : K) (dev blk : Z) : list Z :=
  span (sector k (drive t dev) (minor_of dev)) (blk * dev_bs t dev) (Z.to_nat (dev_bs t dev)).
Definition addressable (t : tables) (dev blk : Z) : Prop :=
  0 ≤ blk ∧ (blk + 1) * dev_bs t dev ≤ 2 ^ 32.

(** The devices [D] are different disks with working drivers. *)
Record disk_ok (t : tables) (dev : Z) : Prop := {
  disk_dev : dev ≠ NO_DEV;
  disk_bs : MIN_BLOCK_SIZE ≤ dev_bs t dev ≤ MAX_BLOCK_SIZE;
  disk_dmap : ∃ d, dmaps t !! Z.to_nat (major_of dev) = Some d ∧ dmap_io d = gen_io_r ∧
    dmap_driver d ≠ NONE ∧ disk_driver (dmap_driver d)
}.
Record disks (t : tables) (D : Z → Prop) : Prop := {
  disks_ok : ∀ dev, D dev → disk_ok t dev;
  disks_inj : ∀ dev dev', D dev → D dev' → drive t dev = drive t dev' →
    minor_of dev = minor_of dev' → dev = dev'
}.

(** * The pool against the disks *)

Definition named (dev blk : Z) (b : buf) : Prop := b_dev b = dev ∧ b_blocknr b = blk.
#[global] Instance named_dec dev blk b : Decision (named dev blk b).
Proof. unfold named. apply _. Defined.

(** What a buffer holds: the part of its memory that is the block. *)
Definition block_data (t : tables) (b : buf) : list Z := take (Z.to_nat (dev_bs t (b_dev b))) (b_data b).

(** The memory of a buffer. *)
Definition page_ok (d : list Z) : Prop := Z.of_nat (length d) = MAX_BLOCK_SIZE ∧ Forall byte_ok d.

Record buf_wf (t : tables) (D : Z → Prop) (b : buf) : Prop := {
  wf_data : page_ok (b_data b);
  wf_dev : b_dev b ≠ NO_DEV → D (b_dev b) ∧ addressable t (b_dev b) (b_blocknr b)
}.

(** No block has two buffers. *)
Definition unique_names (l : list buf) : Prop := ∀ i j dev blk b b',
  dev ≠ NO_DEV → l !! i = Some b → l !! j = Some b' → named dev blk b → named dev blk b' → i = j.

Record coherent (t : tables) (D : Z → Prop) (k : K) (l : list buf) : Prop := {
  co_wf : ∀ i b, l !! i = Some b → buf_wf t D b;
  co_unique : unique_names l;
  co_clean : ∀ i b, l !! i = Some b → b_dev b ≠ NO_DEV → b_dirt b = CLEAN →
    block_data t b = disk_block t k (b_dev b) (b_blocknr b)
}.

Definition cached (l : list buf) (dev blk : Z) : option buf := snd <$> list_find (named dev blk) l.

(** The block [blk] of [dev] as the clients of the cache see it. *)
Definition view (t : tables) (k : K) (l : list buf) (dev blk : Z) : list Z :=
  match cached l dev blk with
  | Some b => block_data t b
  | None => disk_block t k dev blk
  end.

Lemma cached_Some l i b dev blk :
  unique_names l → dev ≠ NO_DEV → l !! i = Some b → named dev blk b → cached l dev blk = Some b.
Proof.
  intros Hu Hdev Hb Hn. unfold cached.
  destruct (list_find _ l) as [[j b']|] eqn:E.
  - apply list_find_Some in E as (Hb' & Hn' & _). simpl.
    assert (i = j) as -> by by eapply Hu. congruence.
  - exfalso. apply (list_find_None (named dev blk)) in E. rewrite Forall_lookup in E.
    by apply (E i b Hb).
Qed.

Lemma cached_inv l dev blk b : cached l dev blk = Some b → ∃ i, l !! i = Some b ∧ named dev blk b.
Proof.
  unfold cached. intros ([i b'] & E & ->)%fmap_Some. apply list_find_Some in E as (? & ? & _).
  by exists i.
Qed.

Lemma cached_None l dev blk :
  cached l dev blk = None ↔ ∀ i b, l !! i = Some b → ¬ named dev blk b.
Proof. unfold cached. by rewrite fmap_None, list_find_None, Forall_lookup. Qed.

Lemma view_cached t k l i b dev blk :
  unique_names l → dev ≠ NO_DEV → l !! i = Some b → named dev blk b →
  view t k l dev blk = block_data t b.
Proof. intros Hu Hdev Hb Hn. unfold view. by erewrite cached_Some. Qed.

Lemma view_uncached t k l dev blk :
  (∀ i b, l !! i = Some b → ¬ named dev blk b) → view t k l dev blk = disk_block t k dev blk.
Proof. intros H%cached_None. unfold view. by rewrite H. Qed.

(** The contents of the pool decide both; links and counts do not matter. *)
Definition content (b : buf) : list Z * Z * Z * bool := (b_data b, b_dev b, b_blocknr b, b_dirt b).

Lemma content_lookup (l l' : list buf) i b :
  content <$> l' = content <$> l → l' !! i = Some b → ∃ b', l !! i = Some b' ∧ content b = content b'.
Proof.
  intros E Hb. apply (f_equal (.!! i)) in E. rewrite !list_lookup_fmap, Hb in E. simpl in E.
  destruct (l !! i) as [b'|]; simpl in E; [|done]. apply (inj Some) in E. eauto.
Qed.

Lemma unique_content (l l' : list buf) : content <$> l' = content <$> l → unique_names l → unique_names l'.
Proof.
  intros E Hu i j dev blk b b' Hdev Hi Hj Hb Hb'.
  destruct (content_lookup _ _ _ _ E Hi) as (c & Hc & [= E1 E2 E3 E4]).
  destruct (content_lookup _ _ _ _ E Hj) as (c' & Hc' & [= E1' E2' E3' E4']).
  eapply (Hu i j dev blk); [done|exact Hc|exact Hc'|..]; unfold named in *; split_and!; destruct Hb, Hb'; congruence.
Qed.

Lemma coherent_content t D k (l l' : list buf) :
  content <$> l' = content <$> l → coherent t D k l → coherent t D k l'.
Proof.
  intros E [Hwf Hu Hcl]. split; [| by eapply unique_content |].
  - intros i b Hb. destruct (content_lookup _ _ _ _ E Hb) as (c & Hc & [= E1 E2 E3 E4]).
    destruct (Hwf _ _ Hc) as [H1 H2]. split; [by rewrite E1|by rewrite E2, E3].
  - intros i b Hb Hd Hdirt. destruct (content_lookup _ _ _ _ E Hb) as (c & Hc & [= E1 E2 E3 E4]).
    unfold block_data. rewrite E1, E2, E3. eapply Hcl; [exact Hc|congruence..].
Qed.

Lemma view_content t k (l l' : list buf) :
  content <$> l' = content <$> l → unique_names l →
  ∀ dev blk, dev ≠ NO_DEV → view t k l' dev blk = view t k l dev blk.
Proof.
  intros E Hu dev blk Hdev.
  destruct (cached l' dev blk) as [b|] eqn:Ec.
  - destruct (cached_inv _ _ _ _ Ec) as (i & Hb & Hn).
    destruct (content_lookup _ _ _ _ E Hb) as (c & Hc & [= E1 E2 E3 E4]).
    rewrite (view_cached t k l i c dev blk); [|done..|]; last by unfold named in *; destruct Hn; split; congruence.
    unfold view. rewrite Ec. unfold block_data. by rewrite E1, E2.
  - unfold view. rewrite Ec. destruct (cached l dev blk) as [b|] eqn:Ec'; [|done].
    destruct (cached_inv _ _ _ _ Ec') as (i & Hb & Hn).
    symmetry in E. destruct (content_lookup _ _ _ _ E Hb) as (c & Hc & [= E1 E2 E3 E4]).
    exfalso. rewrite cached_None in Ec. eapply (Ec i c Hc).
    unfold named in *; destruct Hn; split; congruence.
Qed.

(** * Requests to a disk *)

Lemma disk_drive t dev : disk_ok t dev → ∃ d, dmaps t !! Z.to_nat (major_of dev) = Some d ∧
  dmap_io d = gen_io_r ∧ dmap_driver d ≠ NONE ∧ dmap_driver d = drive t dev ∧ disk_driver (drive t dev).
Proof.
  intros [_ _ (d & Hd & Hio & Hne & Hdd)]. exists d. unfold drive. by rewrite Hd.
Qed.

(** The drive of [dev] is changed by [f], the others are not. *)
Definition drive_update (t : tables) (dev : Z) (f : (Z → Z) → Z → Z) (k k' : K) : Prop :=
  ∀ task minor, sector k' task minor =
    if decide (task = drive t dev ∧ minor = minor_of dev)
    then f (sector k (drive t dev) (minor_of dev)) else sector k task minor.

(** A request for [n] bytes at [pos] that the drive can serve. *)
Record in_range (pos n : Z) : Prop := {
  range_n : 0 < n;
  range_pos : 0 ≤ pos;
  range_max : pos + n ≤ 2 ^ 32
}.

Lemma dev_io_read s dev pos n data :
  disk_ok (tabs s) dev → in_range pos n → n ≤ Z.of_nat (length data) →
  wp (dev_io DEV_READ dev FS_PROC_NR 0 [Iov data n] pos n 0) (λ r s', r.1 = n ∧
    ∃ k', s' = s <| kern := k' |> ∧ sector k' = sector (kern s) ∧ ∃ z,
      r.2 = [Iov (span (sector (kern s) (drive (tabs s) dev) (minor_of dev)) pos (Z.to_nat n) ++
                  drop (Z.to_nat n) data) z]) s.
Proof.
  intros Hok [H1 H2 H3] H4. destruct (disk_drive _ _ Hok) as (d & Hd & Hio & Hne & Hdr & Hdd).
  eapply wp_mono.
  { eapply (dev_io_answer _ _ _ _ _ _ _ _ d n (λ v k', sector k' = sector (kern s) ∧ ∃ z,
      v = [Iov (span (sector (kern s) (drive (tabs s) dev) (minor_of dev)) pos (Z.to_nat n) ++
                drop (Z.to_nat n) data) z])); [done|done|done|unfold SUSPEND; lia|].
    rewrite Hdr. intros m Hm.
    destruct (disk_read _ _ _ _ data m (kern s) Hdd Hm H1 H4 H2 H3) as (m' & z & k' & E & Ha & Hk).
    eexists m', _, k'. split; [exact E|]. split; [done|]. split; [done|]. by exists z. }
  intros r s' (Hr & k' & -> & Hk & Hv). split; [done|]. by exists k'.
Qed.

Lemma dev_io_write s dev pos n data :
  disk_ok (tabs s) dev → in_range pos n → n ≤ Z.of_nat (length data) → Forall byte_ok data →
  wp (dev_io DEV_WRITE dev FS_PROC_NR 0 [Iov data n] pos n 0) (λ r s', r.1 = n ∧
    ∃ k', s' = s <| kern := k' |> ∧
      drive_update (tabs s) dev (λ f, overlay f pos (take (Z.to_nat n) data)) (kern s) k' ∧
      ∃ z, r.2 = [Iov data z]) s.
Proof.
  intros Hok [H1 H2 H3] H4 H5. destruct (disk_drive _ _ Hok) as (d & Hd & Hio & Hne & Hdr & Hdd).
  eapply wp_mono.
  { eapply (dev_io_answer _ _ _ _ _ _ _ _ d n (λ v k',
      drive_update (tabs s) dev (λ f, overlay f pos (take (Z.to_nat n) data)) (kern s) k' ∧
      ∃ z, v = [Iov data z])); [done|done|done|unfold SUSPEND; lia|].
    rewrite Hdr. intros m Hm.
    destruct (disk_write _ _ _ _ data m (kern s) Hdd Hm H5 H1 H4 H2 H3) as (m' & z & k' & E & Ha & Hk).
    eexists m', _, k'. split; [exact E|]. split; [done|]. split; [done|]. by exists z. }
  intros r s' (Hr & k' & -> & Hk & Hv). split; [done|]. by exists k'.
Qed.

Lemma dev_io_scatter s dev pos n (ds : list (list Z)) :
  disk_ok (tabs s) dev → ds ≠ [] → 0 < n → in_range pos (n * Z.of_nat (length ds)) →
  Forall (λ d, n ≤ Z.of_nat (length d)) ds → Forall (Forall byte_ok) ds →
  wp (dev_io DEV_SCATTER dev FS_PROC_NR 0 ((λ d, Iov d n) <$> ds) pos (Z.of_nat (length ds)) 0)
    (λ r s', r.1 = OK ∧ ∃ k', s' = s <| kern := k' |> ∧ ∃ c, (0 < c ≤ length ds)%nat ∧
      r.2 = ((λ d, Iov d 0) <$> take c ds) ++ ((λ d, Iov d n) <$> drop c ds) ∧
      drive_update (tabs s) dev (λ f, overlay_blocks f pos n c ds) (kern s) k') s.
Proof.
  intros Hok Hds Hn [H1 H2 H3] H4 H5. destruct (disk_drive _ _ Hok) as (d & Hd & Hio & Hne & Hdr & Hdd).
  eapply wp_mono.
  { eapply (dev_io_answer _ _ _ _ _ _ _ _ d OK (λ v k', ∃ c, (0 < c ≤ length ds)%nat ∧
      v = ((λ d, Iov d 0) <$> take c ds) ++ ((λ d, Iov d n) <$> drop c ds) ∧
      drive_update (tabs s) dev (λ f, overlay_blocks f pos n c ds) (kern s) k'));
      [done|done|done|done|].
    rewrite Hdr. intros m Hm.
    destruct (disk_scatter _ _ _ _ ds m (kern s) Hdd Hm H5 Hn H4 Hds H2 H3)
      as (m' & c & k' & Hc & E & Ha & Hk).
    eexists m', _, k'. split; [exact E|]. split; [done|]. by exists c. }
  intros r s' (Hr & k' & -> & Hk). split; [done|]. by exists k'.
Qed.
End view.
