(* ===== verification/Flush.v ===== *)
(** Writing the dirty blocks of a device ([rw_scattered], [flushall] of
    cache.c), with a driver that may take any part of a vector at a time. *)

From S2P Require Import Prelude Machine State Monad Process Device SuperTable ShellSort Cache DiskView.
From stdpp Require Import sorting.
#[local] Open Scope Z_scope.

Definition clean (b : buf) : buf := b <| b_dirt := CLEAN |>.

Section flush.
Context {cfg : Config} {krn : Kernel} {dk : Disk}.
Context (t : tables) (D : Z → Prop).

(** The buffers [q] have been written to their disks. *)
Record flushed (q : list nat) (l : list buf) (k : K) (l' : list buf) (k' : K) : Prop := {
  fl_bufs i : l' !! i = (if decide (i ∈ q) then clean <$> l !! i else l !! i);
  fl_disk i b : i ∈ q → l !! i = Some b →
    disk_block t k' (b_dev b) (b_blocknr b) = block_data t b;
  fl_frame dev blk : D dev → (∀ i b, i ∈ q → l !! i = Some b → ¬ named dev blk b) →
    disk_block t k' dev blk = disk_block t k dev blk
}.

Lemma flushed_nil l k : flushed [] l k l k.
Proof.
  split; [|by intros i b Hi%not_elem_of_nil|done].
  intros i. rewrite decide_False; [done|apply not_elem_of_nil].
Qed.

Lemma flushed_lookup q l k l' k' i b' :
  flushed q l k l' k' → l' !! i = Some b' →
  ∃ b, l !! i = Some b ∧ b_dev b' = b_dev b ∧ b_blocknr b' = b_blocknr b ∧ b_data b' = b_data b ∧
    (b_dirt b' = b_dirt b ∧ i ∉ q ∨ b_dirt b' = CLEAN ∧ i ∈ q).
Proof.
  intros F Hb. rewrite (fl_bufs _ _ _ _ _ F) in Hb. case_decide.
  - apply fmap_Some in Hb as (b & Hb & ->). exists b. split_and!; auto.
  - exists b'. split_and!; auto.
Qed.

Lemma flushed_lookup_l q l k l' k' i b :
  flushed q l k l' k' → l !! i = Some b →
  ∃ b', l' !! i = Some b' ∧ b_dev b' = b_dev b ∧ b_blocknr b' = b_blocknr b ∧ b_data b' = b_data b.
Proof.
  intros F Hb. pose proof (fl_bufs _ _ _ _ _ F i) as E. rewrite Hb in E.
  case_decide; [exists (clean b)|exists b]; auto.
Qed.

Lemma flushed_app q1 q2 l1 k1 l2 k2 l3 k3 :
  unique_names l1 → (∀ i b, l1 !! i = Some b → i ∈ q1 → D (b_dev b) ∧ b_dev b ≠ NO_DEV) →
  (∀ i, i ∈ q1 → i ∉ q2) →
  flushed q1 l1 k1 l2 k2 → flushed q2 l2 k2 l3 k3 → flushed (q1 ++ q2) l1 k1 l3 k3.
Proof.
  intros Hu Hq1 Hdis F1 F2. split.
  - intros i. rewrite (fl_bufs _ _ _ _ _ F2), (fl_bufs _ _ _ _ _ F1).
    assert (i ∈ q1 ++ q2 ↔ i ∈ q1 ∨ i ∈ q2) as E by apply elem_of_app.
    repeat case_decide; try tauto; try done. exfalso. by eapply Hdis.
  - intros i b Hi Hb. destruct (flushed_lookup_l _ _ _ _ _ _ _ F1 Hb) as (b2 & Hb2 & E1 & E2 & E3).
    apply elem_of_app in Hi as [Hi|Hi].
    + rewrite (fl_frame _ _ _ _ _ F2); [by apply (fl_disk _ _ _ _ _ F1 i)|by apply (Hq1 i)|].
      intros j b' Hj Hb' [Hn1 Hn2].
      destruct (flushed_lookup _ _ _ _ _ _ _ F1 Hb') as (b1 & Hb1 & E1' & E2' & _).
      assert (i = j) as -> by (eapply (Hu i j (b_dev b) (b_blocknr b));
        [by apply (Hq1 i)|exact Hb|exact Hb1|done|split; congruence]).
      by eapply Hdis.
    + pose proof (fl_disk _ _ _ _ _ F2 i b2 Hi Hb2) as E. unfold block_data in *.
      by rewrite E1, E2, E3 in E.
  - intros dev blk HD Hn. rewrite (fl_frame _ _ _ _ _ F2); [|done|].
    + apply (fl_frame _ _ _ _ _ F1); [done|]. intros i b Hi. apply Hn, elem_of_app. by left.
    + intros i b Hi Hb [Hn1 Hn2].
      destruct (flushed_lookup _ _ _ _ _ _ _ F1 Hb) as (b1 & Hb1 & E1 & E2 & _).
      apply (Hn i b1); [apply elem_of_app; by right|done|]. split; congruence.
Qed.

(** Flushing keeps the cache coherent and shows its clients the same device. *)
Lemma flushed_unique q l k l' k' : flushed q l k l' k' → unique_names l → unique_names l'.
Proof.
  intros F Hu i j dev blk b b' Hdev Hb Hb' [Hn1 Hn2] [Hn1' Hn2'].
  destruct (flushed_lookup _ _ _ _ _ _ _ F Hb) as (c & Hc & E1 & E2 & _).
  destruct (flushed_lookup _ _ _ _ _ _ _ F Hb') as (c' & Hc' & E1' & E2' & _).
  eapply (Hu i j dev blk); [done|exact Hc|exact Hc'|..]; split; congruence.
Qed.

Lemma flushed_coherent q l k l' k' :
  flushed q l k l' k' → coherent t D k l → coherent t D k' l'.
Proof.
  intros F [Hwf Hu Hcl]. split; [|by eapply flushed_unique|].
  - intros i b Hb. destruct (flushed_lookup _ _ _ _ _ _ _ F Hb) as (c & Hc & E1 & E2 & E3 & _).
    destruct (Hwf _ _ Hc) as [H1 H2]. split; [by rewrite E3|by rewrite E1, E2].
  - intros i b Hb Hdev Hdirt.
    destruct (flushed_lookup _ _ _ _ _ _ _ F Hb) as (c & Hc & E1 & E2 & E3 & Hd).
    unfold block_data. rewrite E1, E2, E3. rewrite E1 in Hdev.
    destruct Hd as [Hd|[_ Hi]]; symmetry; [|by apply (fl_disk _ _ _ _ _ F i)].
    rewrite (fl_frame _ _ _ _ _ F).
    + symmetry. destruct Hd. eapply Hcl; [exact Hc|done|congruence].
    + by apply (Hwf i c).
    + intros j b' Hj Hb' Hn. destruct Hd as [_ Hi]. apply Hi.
      by rewrite (Hu i j (b_dev c) (b_blocknr c) c b').
Qed.

Lemma flushed_view q l k l' k' dev blk :
  flushed q l k l' k' → unique_names l → dev ≠ NO_DEV → D dev →
  view t k' l' dev blk = view t k l dev blk.
Proof.
  intros F Hu Hdev HD. destruct (cached l dev blk) as [b|] eqn:E.
  - destruct (cached_inv _ _ _ _ E) as (i & Hb & Hn).
    destruct (flushed_lookup_l _ _ _ _ _ _ _ F Hb) as (b' & Hb' & E1 & E2 & E3).
    rewrite (view_cached _ _ l' i b' dev blk);
      [|by eapply flushed_unique|done|done|destruct Hn; split; congruence].
    unfold view. rewrite E. unfold block_data. by rewrite E1, E3.
  - unfold view at 2. rewrite E. rewrite cached_None in E. rewrite view_uncached.
    + apply (fl_frame _ _ _ _ _ F); [done|]. intros i b _. apply E.
    + intros i b' Hb' [Hn1 Hn2].
      destruct (flushed_lookup _ _ _ _ _ _ _ F Hb') as (b & Hb & E1 & E2 & _).
      apply (E i b Hb). split; congruence.
Qed.

(** * The routines *)

(** The buffers [bs] are those of the slots [q]. *)
Definition slots (l : list buf) (q : list nat) (bs : list buf) : Prop :=
  Forall2 (λ i b, l !! i = Some b) q bs.

Lemma load_bufs_spec {A} (f : buf → A) s q bs :
  slots (bufs (cache s)) q bs → wp (load_bufs f q) (λ r s', s' = s ∧ r = f <$> bs) s.
Proof.
  induction 1 as [|i b q bs Hb _ IH]; cbn [load_bufs]; [by wp_pure|].
  wp_pure. wp_rd. wp_pure. eapply wp_mono; [exact IH|]. intros r s' [-> ->]. by wp_pure.
Qed.

Lemma slots_insert l q bs i b : i ∉ q → slots l q bs → slots (<[i := b]> l) q bs.
Proof.
  intros Hi. induction 1 as [|j b' q bs Hb Hq IH]; [constructor|].
  apply not_elem_of_cons in Hi as [Hij Hi]. constructor; [|by apply IH].
  by rewrite list_lookup_insert_ne.
Qed.

(** The driver returns the data it was lent. *)
Lemma store_iovs_spec s q bs v :
  slots (bufs (cache s)) q bs → iov_data <$> v = b_data <$> bs →
  wp (store_iovs q v) (λ _ s', s' = s) s.
Proof.
  intros Hq. revert v. induction Hq as [|i b q bs Hb _ IH]; intros [|io v] E; cbn [store_iovs]; try done.
  wp_pure. injection E as Eio E. wp_wr. rewrite Eio.
  assert (b <| b_data := b_data b |> = b) as -> by by destruct b.
  rewrite list_insert_id by done. rewrite with_table_self. by apply IH.
Qed.

Lemma run_length_spec max first nrs i :
  (i < run_length max first nrs)%nat → nrs !! i = Some (u32 (first + Z.of_nat i)).
Proof.
  revert first nrs i. induction max as [|max IH]; intros first [|b nrs] i; simpl; try lia.
  destruct (Z.eqb_spec b (u32 first)) as [->|]; [|lia]. destruct i as [|i]; simpl; intros Hi.
  - by rewrite Z.add_0_r.
  - rewrite (IH (first + 1)) by lia. do 2 f_equal. lia.
Qed.

Lemma run_length_bound max first nrs : (run_length max first nrs ≤ length nrs)%nat.
Proof.
  revert first nrs. induction max as [|max IH]; intros first [|b nrs]; simpl; try lia.
  case_match; [|lia]. specialize (IH (first + 1) nrs). lia.
Qed.

Lemma run_length_pos max first nrs :
  (0 < max)%nat → 0 ≤ first < 2 ^ 32 → (0 < run_length max first (first :: nrs))%nat.
Proof.
  intros Hmax Hf. destruct max as [|max]; [lia|]. simpl.
  rewrite u32_id by done. rewrite Z.eqb_refl. lia.
Qed.

(** The buffers of the entries that are done become clean. *)
Lemma harvest_spec s dev i q bs v1 v2 :
  slots (bufs (cache s)) q bs → length q = (length v1 + length v2)%nat → NoDup q →
  Forall (λ io, iov_size io = 0) v1 → Forall (λ io, iov_size io ≠ 0) v2 →
  wp (harvest dev OK WRITING i q (v1 ++ v2))
    (λ n s', n = (i + length v1)%nat ∧ ∃ l', s' = with_table l' s ∧ length l' = length (bufs (cache s)) ∧
       ∀ j, l' !! j = if decide (j ∈ take (length v1) q) then clean <$> bufs (cache s) !! j
                      else bufs (cache s) !! j) s.
Proof.
  intros Hq. revert s i q bs Hq. induction v1 as [|io v1 IH]; intros s i q bs Hq Hlen Hnd H1 H2; simpl.
  - assert (wp (mret i) (λ n s', n = (i + 0)%nat ∧ ∃ l', s' = with_table l' s ∧
        length l' = length (bufs (cache s)) ∧
        ∀ j, l' !! j = if decide (j ∈ take 0 q) then clean <$> bufs (cache s) !! j
                      else bufs (cache s) !! j) s) as Hret.
    { wp_pure. split; [lia|]. exists (bufs (cache s)). split_and!; [|done|].
      - exact (eq_sym (with_table_self (T:=buf) s)).
      - intros j. rewrite decide_False; [done|]. rewrite take_0. apply not_elem_of_nil. }
    destruct q as [|bp q], v2 as [|io v2]; try exact Hret. cbn [harvest].
    apply Forall_cons in H2 as [H2 _]. apply Z.eqb_neq in H2. rewrite H2. exact Hret.
  - destruct q as [|bp q]; [done|]. apply Forall_cons in H1 as [Hio H1].
    cbn [harvest]. rewrite Hio. simpl.
    inversion Hq as [|? b ? bs' Hb Hq']; subst. apply NoDup_cons in Hnd as [Hbp Hnd].
    wp_pure. wp_wr. set (s1 := with_table _ _).
    assert (bufs (cache s1) = <[bp := clean b]> (bufs (cache s))) as Es1 by done.
    eapply wp_mono; [eapply (IH _ _ _ bs')|]; rewrite ?Es1; [|simpl in Hlen; lia|done..|].
    + by apply slots_insert.
    + intros n s' [-> (l' & -> & Hlen' & Hl')]. split; [cbn; lia|]. exists l'.
      cbn [length take].
      rewrite length_insert in Hlen'. split_and!; [by unfold s1; rewrite with_table_twice|done|].
      intros j. rewrite Hl'. destruct (decide (j = bp)) as [->|Hj].
      * rewrite decide_False by (intros (?&?&_)%elem_of_take; by eapply Hbp, list_elem_of_lookup_2). rewrite decide_True by by left.
        rewrite list_lookup_insert_eq by by eapply lookup_lt_Some. by rewrite Hb.
      * rewrite list_lookup_insert_ne by done. assert (j ∈ bp :: take (length v1) q ↔ j ∈ take (length v1) q) as E
          by (rewrite elem_of_cons; tauto).
        repeat case_decide; tauto.
Qed.

(** The block numbers of one vector continue the first without wrapping. *)
Lemma run_length_blocks max dev first nrs i :
  2 ≤ dev_bs t dev → Forall (addressable t dev) nrs → head nrs = Some first →
  (i < run_length max first nrs)%nat → nrs !! i = Some (first + Z.of_nat i).
Proof.
  intros Hbs Hadd Hhead Hi. induction i as [|i IH].
  { rewrite Z.add_0_r. by destruct nrs. }
  pose proof (run_length_spec _ _ _ _ Hi) as E. rewrite E. f_equal.
  rewrite Forall_lookup in Hadd. destruct (Hadd i (first + Z.of_nat i)) as [? Hmax]; [apply IH; lia|].
  replace (first + Z.of_nat (S i)) with (first + Z.of_nat i + 1) by lia. apply u32_id. nia.
Qed.

(** What the driver has done to the disks when it has taken [n] buffers. *)
Lemma scatter_disk dev first n q bs l k k' :
  disks t D → D dev → slots l q bs → (n ≤ length q)%nat →
  Forall (λ b, b_dev b = dev ∧ buf_wf t D b) bs →
  (∀ i b, (i < n)%nat → bs !! i = Some b → b_blocknr b = first + Z.of_nat i) →
  (∀ task' minor', sector k' task' minor' =
     if decide (task' = drive t dev ∧ minor' = minor_of dev)
     then overlay_blocks (sector k (drive t dev) (minor_of dev)) (first * dev_bs t dev)
            (dev_bs t dev) n (b_data <$> bs)
     else sector k task' minor') →
  (∀ i b, i ∈ take n q → l !! i = Some b →
     disk_block t k' (b_dev b) (b_blocknr b) = block_data t b) ∧
  (∀ dev' blk, D dev' → (∀ i b, i ∈ take n q → l !! i = Some b → ¬ named dev' blk b) →
     disk_block t k' dev' blk = disk_block t k dev' blk).
Proof.
  intros HD Hdev Hq Hn Hbs Hnr Hk. destruct (disk_bs _ _ (disks_ok _ _ HD _ Hdev)) as [Hmin Hmax].
  unfold MIN_BLOCK_SIZE in Hmin. set (m := Z.to_nat (dev_bs t dev)).
  assert (dev_bs t dev = Z.of_nat m) as Em by (unfold m; lia).
  assert (∀ blk, disk_block t k' dev blk =
    match (if decide (first ≤ blk) then take n (b_data <$> bs) !! Z.to_nat (blk - first) else None) with
    | Some d => take m d
    | None => disk_block t k dev blk
    end) as Hblk.
  { intros blk. unfold disk_block. rewrite Hk, decide_True by done. fold m. rewrite Em.
    apply span_overlay_blocks; [lia|]. apply Forall_fmap. eapply Forall_impl; [exact Hbs|].
    simpl. intros b [_ [[Hlen _] _]]. lia. }
  split.
  - intros i b (a & Ha & Han)%elem_of_take Hb.
    destruct (Forall2_lookup_l _ _ _ _ _ Hq Ha) as (b' & Hb' & Hl). simplify_eq.
    rewrite Forall_lookup in Hbs. destruct (Hbs _ _ Hb') as [Ed _].
    rewrite (Hnr _ _ Han Hb'), Ed, Hblk, decide_True by lia.
    replace (Z.to_nat (first + Z.of_nat a - first)) with a by lia.
    rewrite lookup_take_lt, list_lookup_fmap, Hb' by done. simpl.
    unfold block_data. by rewrite Ed.
  - intros dev' blk HD' Hnin. destruct (decide (dev' = dev)) as [->|Hne].
    + rewrite Hblk. case_decide; [|done].
      destruct (take n (b_data <$> bs) !! Z.to_nat (blk - first)) as [d|] eqn:E; [|done]. exfalso.
      rewrite <- fmap_take in E. rewrite list_lookup_fmap in E.
      apply fmap_Some in E as (b & Hb & ->). apply lookup_take_Some in Hb as [Hb Hlt].
      destruct (Forall2_lookup_r _ _ _ _ _ Hq Hb) as (i & Hi & Hl).
      eapply (Hnin i b); [apply elem_of_take; eauto|done|].
      rewrite Forall_lookup in Hbs. split; [by apply (Hbs _ _ Hb)|].
      rewrite (Hnr _ _ Hlt Hb). lia.
    + unfold disk_block. rewrite Hk, decide_False; [done|].
      intros [? ?]. by apply Hne, (disks_inj _ _ HD).
Qed.

(** The pool and the disks after a flush of [q]; the rest is unchanged. *)
Definition flushes (q : list nat) (s s' : st) : Prop :=
  ∃ l' k', s' = with_table l' (s <| kern := k' |>) ∧ length l' = length (bufs (cache s)) ∧
    flushed q (bufs (cache s)) (kern s) l' k'.

Lemma slots_take l q bs n : slots l q bs → slots l (take n q) (take n bs).
Proof. apply Forall2_take. Qed.

Lemma NR_IOREQS_pos : (0 < NR_IOREQS)%nat.
Proof. unfold NR_IOREQS. pose proof NR_BUFS_min. lia. Qed.

(** Buffers of one device in a coherent cache. *)
Definition queue (dev : Z) (l : list buf) (q : list nat) (bs : list buf) : Prop :=
  NoDup q ∧ slots l q bs ∧ Forall (λ b, b_dev b = dev ∧ buf_wf t D b) bs.

Lemma queue_intro dev l q :
  NoDup q → (∀ i, i ∈ q → ∃ b, l !! i = Some b ∧ b_dev b = dev ∧ buf_wf t D b) →
  ∃ bs, queue dev l q bs.
Proof.
  intros Hnd Hq. cut (∃ bs, slots l q bs ∧ Forall (λ b, b_dev b = dev ∧ buf_wf t D b) bs).
  { intros (bs & ? & ?). by exists bs. }
  clear Hnd. induction q as [|i q IH].
  - exists []. split; constructor.
  - destruct IH as (bs & Hbs & Hwf); [intros j Hj; apply Hq; by right|].
    destruct (Hq i) as (b & Hb & Hb'); [by left|]. exists (b :: bs). by split; constructor.
Qed.

Lemma queue_elem dev l q bs i :
  queue dev l q bs → i ∈ q → ∃ b, l !! i = Some b ∧ b_dev b = dev ∧ buf_wf t D b.
Proof.
  intros (_ & Hq & Hbs) [a Ha]%list_elem_of_lookup.
  destruct (Forall2_lookup_l _ _ _ _ _ Hq Ha) as (b & Hb & Hl). exists b. split; [done|].
  rewrite Forall_lookup in Hbs. by apply (Hbs a).
Qed.

Lemma queue_addressable dev l q bs :
  dev ≠ NO_DEV → queue dev l q bs → Forall (addressable t dev) (b_blocknr <$> bs).
Proof.
  intros Hdev (_ & _ & Hbs). apply Forall_fmap. eapply Forall_impl; [exact Hbs|].
  intros b [<- [_ Hwf]]. by apply Hwf.
Qed.

(** Harvesting a vector of which the driver has taken [n] blocks. *)
Lemma scatter_harvest s dev first q bs n k' :
  disks t D → D dev → queue dev (bufs (cache s)) q bs → (0 < n ≤ length q)%nat →
  (∀ i b, (i < n)%nat → bs !! i = Some b → b_blocknr b = first + Z.of_nat i) →
  drive_update t dev (λ f, overlay_blocks f (first * dev_bs t dev) (dev_bs t dev) n (b_data <$> bs))
    (kern s) k' →
  let ds := b_data <$> bs in
  wp (harvest dev OK WRITING 0 q
       (((λ d, Iov d 0) <$> take n ds) ++ ((λ d, Iov d (dev_bs t dev)) <$> drop n ds)))
    (λ i s', i = n ∧ flushes (take n q) s s') (s <| kern := k' |>).
Proof.
  intros HD Hdev (Hnd & Hq & Hbs) Hn Hnr Hk ds.
  pose proof (disk_bs _ _ (disks_ok _ _ HD _ Hdev)) as [Hmin _]. unfold MIN_BLOCK_SIZE in Hmin.
  pose proof (Forall2_length _ _ _ Hq) as Hlen.
  assert (length (take n ds) = n) as Hlen1 by (unfold ds; rewrite length_take, length_fmap; lia).
  eapply wp_mono.
  { eapply (harvest_spec _ dev 0 q bs); [exact Hq| |done| |].
    - unfold ds. rewrite !length_fmap, length_take, length_drop, length_fmap. lia.
    - by apply Forall_fmap, Forall_true.
    - apply Forall_fmap, Forall_true. intros d. simpl. lia. }
  intros i s' [-> (l' & -> & Hl & Hl')]. rewrite length_fmap, Hlen1 in *. split; [done|].
  exists l', k'. split_and!; [done|done|].
  destruct (scatter_disk dev first n q bs _ _ _ HD Hdev Hq (proj2 Hn) Hbs Hnr Hk). by split.
Qed.

Lemma scatter_round_spec s dev q bs :
  disks t D → D dev → tabs s = t → queue dev (bufs (cache s)) q bs → q ≠ [] →
  wp (scatter_round dev (dev_bs t dev) WRITING q)
    (λ r s', ∃ n, (0 < n)%nat ∧ r = inl (drop n q) ∧ flushes (take n q) s s') s.
Proof.
  intros HD Hdev Ht Hqueue Hne. pose proof (disks_ok _ _ HD _ Hdev) as [Hnz Hdbs (d & Hd & Hio & Hdr & Hdd)].
  pose proof (queue_addressable _ _ _ _ Hnz Hqueue) as Hadd.
  destruct Hqueue as (Hnd & Hq & Hbs). unfold MIN_BLOCK_SIZE in Hdbs.
  destruct q as [|bp0 q0]; [done|]. unfold scatter_round.
  set (q := bp0 :: q0) in *. inversion Hq as [|? b0 ? bs0 Hb0 Hq0 E1 E2]; subst bs.
  set (bs := b0 :: bs0) in *. fold (slots (bufs (cache s)) q bs) in Hq.
  set (first := b_blocknr b0) in *.
  wp_pure. wp_rd. fold first. wp_pure.
  eapply wp_mono; [by eapply load_bufs_spec|]. intros ? ? [-> ->].
  set (j := run_length NR_IOREQS first (b_blocknr <$> bs)).
  assert (j ≤ length bs)%nat as Hj.
  { unfold j. etrans; [apply run_length_bound|]. by rewrite length_fmap. }
  pose proof (Forall2_length _ _ _ Hq) as Hlen.
  assert (∀ i, (i < j)%nat → (b_blocknr <$> bs) !! i = Some (first + Z.of_nat i)) as Hrun.
  { intros i Hi. eapply run_length_blocks; [| exact Hadd|done|exact Hi]. lia. }
  assert (0 < j)%nat as Hj0.
  { unfold j, bs. simpl. apply run_length_pos; [apply NR_IOREQS_pos|].
    apply Forall_cons in Hadd as [[? ?] _]. split; [done|]. unfold first. nia. }
  set (data := b_data <$> take j bs).
  assert (Z.of_nat (length data) = Z.of_nat j) as Hlendata
    by (unfold data; rewrite length_fmap, length_take; lia).
  assert ((first + Z.of_nat j) * dev_bs t dev ≤ 2 ^ 32 ∧ 0 ≤ first) as [Hmax Hfirst].
  { rewrite Forall_lookup in Hadd.
    destruct (Hadd _ _ (Hrun (j - 1)%nat ltac:(lia))) as [_ H1].
    destruct (Hadd 0%nat first) as [H2 _]; [done|]. split; [|done].
    by replace (first + Z.of_nat j) with (first + Z.of_nat (j - 1) + 1) by lia. }
  wp_pure. eapply wp_mono; [by eapply load_bufs_spec, slots_take|]. intros ? ? [-> ->].
  fold data. wp_pure. rewrite u32_id, <- Hlendata by nia. eapply wp_mono.
  { apply dev_io_scatter; rewrite ?Ht.
    - by apply HD.
    - intros E. rewrite E in Hlendata. simpl in Hlendata. lia.
    - lia.
    - split; [nia..|]. rewrite Hlendata. lia.
    - unfold data. apply Forall_fmap, Forall_take. eapply Forall_impl; [exact Hbs|].
      intros b [_ [[Hl _] _]]. simpl. lia.
    - unfold data. apply Forall_fmap, Forall_take. eapply Forall_impl; [exact Hbs|].
      intros b [_ [[_ Hby] _]]. exact Hby. }
  rewrite Ht. intros r s1 (Hr & k' & -> & n & Hn & Hv & Hk). rewrite Hr, Hv. clear r Hr Hv.
  wp_pure. eapply wp_mono.
  { eapply (store_iovs_spec _ _ (take j bs)); [by apply slots_take|].
    rewrite fmap_app, <- !list_fmap_compose. simpl. rewrite !list_fmap_id. apply take_drop. }
  intros [] s2 ->. wp_pure. unfold data in Hk, Hn |- *.
  rewrite length_fmap, length_take in Hn. eapply wp_mono.
  { eapply (scatter_harvest s dev first (take j q) (take j bs)); [done|done| |..|exact Hk].
    - split_and!; [eapply sublist_NoDup; [exact Hnd|apply sublist_take]|by apply slots_take|by apply Forall_take].
    - rewrite length_take. lia.
    - intros i b Hi [Hb _]%lookup_take_Some. specialize (Hrun i).
      rewrite list_lookup_fmap, Hb in Hrun. simpl in Hrun. specialize (Hrun ltac:(lia)). congruence. }
  intros i s2 [-> Hfl]. rewrite take_take, Nat.min_l in Hfl by lia.
  destruct (Nat.eqb_spec n 0); [lia|]. wp_pure. exists n. split_and!; [lia|done|done].
Qed.

Lemma flushes_same q s s' : flushes q s s' → tabs s' = tabs s ∧ glo s' = glo s.
Proof. by intros (l' & k' & -> & _). Qed.

Lemma flushes_nil s : flushes [] s s.
Proof.
  exists (bufs (cache s)), (kern s). split_and!; [|done|apply flushed_nil].
  destruct s as [k [] g c]. done.
Qed.

Lemma flushes_app q1 q2 bs1 dev s1 s2 s3 :
  D dev → dev ≠ NO_DEV → unique_names (bufs (cache s1)) → queue dev (bufs (cache s1)) q1 bs1 →
  (∀ i, i ∈ q1 → i ∉ q2) →
  flushes q1 s1 s2 → flushes q2 s2 s3 → flushes (q1 ++ q2) s1 s3.
Proof.
  intros Hdev Hnz Hu Hq Hdis (l2 & k2 & -> & H2 & F2) (l3 & k3 & -> & H3 & F3).
  exists l3, k3. split_and!; [done|exact (eq_trans H3 H2)|].
  eapply flushed_app; [done| |done|exact F2|exact F3].
  intros i b Hb Hi. destruct (queue_elem _ _ _ _ _ Hq Hi) as (b' & Hl & <- & _).
  by replace b with b' by congruence.
Qed.

(** The rest of the queue after a round. *)
Lemma queue_drop dev q bs n s s' :
  queue dev (bufs (cache s)) q bs → flushes (take n q) s s' →
  queue dev (bufs (cache s')) (drop n q) (drop n bs).
Proof.
  intros (Hnd & Hq & Hbs) (l' & k' & -> & _ & F). split_and!.
  - eapply sublist_NoDup; [exact Hnd|apply sublist_drop].
  - assert (∀ i, i ∈ drop n q → l' !! i = bufs (cache s) !! i) as E.
    { intros i Hi. rewrite (fl_bufs _ _ _ _ _ F), decide_False; [done|]. intros Hi'.
      rewrite <- (take_drop n q) in Hnd. apply NoDup_app in Hnd as (_ & Hdis & _). by eapply Hdis. }
    unfold slots. simpl. apply Forall2_same_length_lookup. split.
    + exact (Forall2_length _ _ _ (Forall2_drop _ _ _ n Hq)).
    + intros a i b Hi Hb. rewrite E by by eapply list_elem_of_lookup_2.
      exact (Forall2_lookup_lr _ _ _ _ _ _ (Forall2_drop _ _ _ n Hq) Hi Hb).
  - by apply Forall_drop.
Qed.

Lemma scatter_loop_spec s dev q bs fuel :
  disks t D → D dev → tabs s = t → queue dev (bufs (cache s)) q bs →
  unique_names (bufs (cache s)) → (length q < fuel)%nat →
  wp (loop fuel (scatter_round dev (dev_bs t dev) WRITING) q) (λ _ s', flushes q s s') s.
Proof.
  intros HD Hdev. revert s q bs. induction fuel as [|fuel IH]; intros s q bs Ht Hq Hu Hlen; [lia|].
  cbn [loop]. wp_pure. destruct (decide (q = [])) as [->|Hne].
  { cbn [scatter_round]. wp_pure. wp_pure. apply flushes_nil. }
  eapply wp_mono; [by eapply scatter_round_spec|]. intros r s1 (n & Hn & -> & F).
  destruct (flushes_same _ _ _ F) as [Ht1 _]. pose proof (queue_drop _ _ _ _ _ _ Hq F) as Hq1.
  eapply wp_mono.
  { eapply IH; [congruence|exact Hq1| |].
    - destruct F as (l' & k' & -> & _ & F). by eapply flushed_unique.
    - rewrite length_drop. destruct q; [done|]. simpl in *. lia. }
  intros [] s2 F2. rewrite <- (take_drop n q). destruct Hq as (Hnd & Hq & Hbs).
  eapply (flushes_app _ _ (take n bs) dev); [done|by apply (disks_ok _ _ HD)|done| | |exact F|exact F2].
  - split_and!; [|by apply slots_take|by apply Forall_take].
    eapply sublist_NoDup; [exact Hnd|apply sublist_take].
  - intros i Hi Hi'. rewrite <- (take_drop n q) in Hnd.
    apply NoDup_app in Hnd as (_ & Hdis & _). by eapply Hdis.
Qed.

Lemma get_block_size_spec s dev :
  dev ≠ NO_DEV → wp (get_block_size dev) (λ r s', s' = s ∧ r = dev_bs (tabs s) dev) s.
Proof.
  intros Hdev%Z.eqb_neq. unfold get_block_size, dev_bs. rewrite Hdev. wp_pure. wp_pure.
  destruct (find_super dev (supers (tabs s))) as [[? sp]|]; by wp_pure.
Qed.

Lemma flushes_Permutation q q' s s' : q ≡ₚ q' → flushes q s s' → flushes q' s s'.
Proof.
  intros E (l' & k' & Hs & Hl & [F1 F2 F3]). exists l', k'. split_and!; [done|done|].
  assert (∀ i, i ∈ q ↔ i ∈ q') as Hi by (intros i; by rewrite E). split.
  - intros i. rewrite F1. specialize (Hi i). repeat case_decide; tauto.
  - intros i b Hin. apply F2. by apply Hi.
  - intros dev blk Hdev Hn. apply F3; [done|]. intros i b Hin. apply Hn. by apply Hi.
Qed.

(** The writing of any queue of buffers of a device, in whatever order. *)
Lemma rw_scattered_spec s dev q bs :
  disks t D → D dev → tabs s = t → queue dev (bufs (cache s)) q bs →
  unique_names (bufs (cache s)) →
  wp (rw_scattered dev q WRITING) (λ _ s', flushes q s s') s.
Proof.
  intros HD Hdev Ht Hq Hu. unfold rw_scattered.
  wp_pure. eapply wp_mono; [apply get_block_size_spec, (disks_ok _ _ HD), Hdev|].
  intros ? ? [-> ->]. wp_pure. wp_pure. rewrite Ht.
  set (q' := shell_sort _ q). assert (q' ≡ₚ q) as E by apply shell_sort_Permutation.
  destruct (queue_intro dev (bufs (cache s)) q') as [bs' Hq'].
  { rewrite E. apply Hq. }
  { intros i Hi. rewrite E in Hi. by eapply queue_elem. }
  apply (wp_mono _ (λ _ s', flushes q' s s')).
  - eapply scatter_loop_spec; [done|done|done|exact Hq'|done|]. rewrite E. lia.
  - intros [] s' F. by eapply flushes_Permutation.
Qed.

(** * [flushall] *)

Lemma dirty_bufs_elem dev l i :
  length l = NR_BUFS →
  i ∈ dirty_bufs dev l ↔ ∃ b, l !! i = Some b ∧ b_dirt b = DIRTY ∧ b_dev b = dev.
Proof.
  intros Hlen. unfold dirty_bufs. rewrite list_elem_of_fmap. setoid_rewrite list_elem_of_filter.
  split.
  - intros ([i' b] & -> & [Hd Hdev] & Hin). apply list_elem_of_lookup in Hin as [a Ha].
    apply lookup_zip_Some in Ha as [Hi Hb]. apply lookup_seq in Hi as [-> _]. by exists b.
  - intros (b & Hb & Hd & Hdev). exists (i, b). split; [done|]. split; [done|].
    apply list_elem_of_lookup. exists i. apply lookup_zip_Some. split; [|done].
    apply lookup_seq. apply lookup_lt_Some in Hb. lia.
Qed.

Lemma NoDup_filter_fst {A} (P : nat * A → Prop) `{!∀ x, Decision (P x)} (l : list (nat * A)) :
  NoDup l.*1 → NoDup (filter P l).*1.
Proof.
  induction l as [|x l IH]; [done|]. rewrite fmap_cons, NoDup_cons, filter_cons.
  intros [Hx Hnd]. case_decide; [|by apply IH]. rewrite fmap_cons, NoDup_cons.
  split; [|by apply IH]. rewrite list_elem_of_fmap in *. intros (y & E & Hin).
  apply list_elem_of_filter in Hin as [_ Hin]. apply Hx. by exists y.
Qed.

Lemma dirty_bufs_NoDup dev l : length l = NR_BUFS → NoDup (dirty_bufs dev l).
Proof.
  intros Hlen. apply NoDup_filter_fst. rewrite fst_zip by (rewrite length_seq; lia).
  apply NoDup_seq.
Qed.

Lemma flushall_spec s dev :
  disks t D → D dev → tabs s = t → length (bufs (cache s)) = NR_BUFS →
  coherent t D (kern s) (bufs (cache s)) →
  wp (flushall dev) (λ _ s', flushes (dirty_bufs dev (bufs (cache s))) s s') s.
Proof.
  intros HD Hdev Ht Hlen [Hwf Hu Hcl]. unfold flushall. wp_pure. wp_pure.
  destruct (queue_intro dev (bufs (cache s)) (dirty_bufs dev (bufs (cache s)))) as [bs Hq].
  - by apply dirty_bufs_NoDup.
  - intros i (b & Hb & _ & Hbdev)%dirty_bufs_elem; [|done]. exists b. split_and!; [done..|].
    by eapply Hwf.
  - by eapply rw_scattered_spec.
Qed.
End flush.
