(* ===== verification/CacheSpec.v ===== *)
(** The routines of cache.c against the invariant of the pool and the view of
    the devices: [get_block], [put_block], [rw_block], [invalidate]. *)

From S2P Require Import Prelude Machine State Monad Process Device SuperTable Links Cache CacheInv DiskView Flush.

(** A buffer without what the free list and the use count say of it; a buffer
    without what it holds. *)
Definition uncounted (b : buf) : buf := (unlinked b) <| b_count := 0 |>.
Definition emptied (b : buf) : buf := b <| b_data := [] |> <| b_dev := NO_DEV |> <| b_dirt := CLEAN |>.

Lemma upto_weaken g g' l l' : (∀ b, g' (g b) = g' b) → upto g l l' → upto g' l l'.
Proof.
  unfold upto. intros Hg E. apply (f_equal (fmap g')) in E. rewrite <- !list_fmap_compose in E.
  etrans; [|etrans; [exact E|]]; apply list_fmap_ext; intros i b _; simpl; by rewrite Hg.
Qed.

Section inv.
Context {cfg : Config} {krn : Kernel}.

(** The invariant of the pool.  [l] is the free list, [ch h] the chain at entry
    [h]; the buffer [out], if any, has been taken off both by [get_block]. *)
Record pool_ok (out : option nat) (c : cache_state) (l : list nat) (ch : nat → list nat) : Prop := {
  pool_bufs : length (bufs c) = NR_BUFS;
  pool_hash : length (buf_hash c) = Z.to_nat NR_BUF_HASH;
  pool_lru : lru_ok c l;
  pool_free i b : bufs c !! i = Some b →
    0 ≤ b_count b < 2 ^ 7 ∧ (i ∈ l ↔ b_count b = 0 ∧ out ≠ Some i);
  pool_in_use : bufs_in_use c + Z.of_nat (length l) = Z.of_nat NR_BUFS;
  pool_chain h : (h < Z.to_nat NR_BUF_HASH)%nat → chain_ok c h (ch h);
  pool_member i b h : bufs c !! i = Some b → (h < Z.to_nat NR_BUF_HASH)%nat →
    i ∈ ch h ↔ h = hash (b_blocknr b) ∧ out ≠ Some i
}.

Lemma hash_bound block : (hash block < Z.to_nat NR_BUF_HASH)%nat.
Proof.
  unfold hash. pose proof NR_BUF_HASH_pos as Hpos.
  pose proof (land_bound block (NR_BUF_HASH - 1)). lia.
Qed.

(** The invariant looks at the links, the counts and the block numbers only. *)
Lemma chain_ok_upto g c c' h ch :
  (∀ b, b_hash (g b) = b_hash b) → upto g (bufs c) (bufs c') → buf_hash c' = buf_hash c →
  chain_ok c h ch → chain_ok c' h ch.
Proof.
  intros Hg E Eh [H1 H2 H3]. split; [by rewrite Eh|done|].
  eapply seg_ext; [|exact H3]. intros i _. by apply (upto_field _ g).
Qed.

Lemma lru_ok_upto g c c' l :
  (∀ b, b_next (g b) = b_next b) → (∀ b, b_prev (g b) = b_prev b) →
  upto g (bufs c) (bufs c') → front c' = front c → rear c' = rear c →
  lru_ok c l → lru_ok c' l.
Proof.
  intros Hn Hp E Ef Er [H1 H2 H3 H4 H5]. split; [done|by rewrite Ef|by rewrite Er|..].
  - eapply seg_ext; [|exact H4]. intros i _. by apply (upto_field _ g).
  - eapply seg_ext; [|exact H5]. intros i _. by apply (upto_field _ g).
Qed.

Lemma upto_lookup g l l' i b' :
  upto g l l' → l' !! i = Some b' → ∃ b, l !! i = Some b ∧ g b' = g b.
Proof.
  intros E Hb. unfold upto in E. apply (f_equal (.!! i)) in E.
  rewrite !list_lookup_fmap, Hb in E. destruct (l !! i) as [b|]; [|done].
  apply (inj Some) in E. eauto.
Qed.

Lemma pool_ok_emptied out c c' l ch :
  upto emptied (bufs c) (bufs c') → buf_hash c' = buf_hash c → front c' = front c →
  rear c' = rear c → bufs_in_use c' = bufs_in_use c → pool_ok out c l ch → pool_ok out c' l ch.
Proof.
  intros E Eh Ef Er Eu [H1 H2 H3 H4 H5 H6 H7]. split.
  - by rewrite (upto_length _ _ _ E).
  - by rewrite Eh.
  - by apply (lru_ok_upto emptied c).
  - intros i b' Hb'. destruct (upto_lookup _ _ _ _ _ E Hb') as (b & Hb & Eb).
    apply (f_equal b_count) in Eb. change (b_count b' = b_count b) in Eb. rewrite Eb. by apply H4.
  - by rewrite Eu.
  - intros h Hh. eapply chain_ok_upto; [|exact E|done|by apply H6]. done.
  - intros i b' h Hb' Hh. destruct (upto_lookup _ _ _ _ _ E Hb') as (b & Hb & Eb).
    apply (f_equal b_blocknr) in Eb. change (b_blocknr b' = b_blocknr b) in Eb. rewrite Eb. by apply H7.
Qed.

(** The use count of slot [i] has changed by [d], and perhaps the free list. *)
Record counted (i : nat) (d : Z) (c c' : cache_state) : Prop := {
  counted_bufs : upto uncounted (bufs c) (bufs c');
  counted_count j : field b_count (bufs c') j =
    (if decide (i = j) then Z.add d else id) <$> field b_count (bufs c) j;
  counted_hash : buf_hash c' = buf_hash c;
  counted_err : rdwt_err c' = rdwt_err c
}.

Lemma counted_lookup i d c c' j b' :
  counted i d c c' → bufs c' !! j = Some b' →
  ∃ b, bufs c !! j = Some b ∧ uncounted b' = uncounted b ∧
    b_count b' = (if decide (i = j) then d + b_count b else b_count b).
Proof.
  intros C Hb'. destruct (upto_lookup _ _ _ _ _ (counted_bufs _ _ _ _ C) Hb') as (b & Hb & E).
  exists b. split_and!; [done|done|]. pose proof (counted_count _ _ _ _ C j) as Ec.
  unfold field in Ec. rewrite Hb', Hb in Ec. case_decide; by injection Ec.
Qed.

Lemma pool_ok_counted c c' i d l l' ch :
  pool_ok None c l ch → counted i d c c' → lru_ok c' l' →
  bufs_in_use c' + Z.of_nat (length l') = bufs_in_use c + Z.of_nat (length l) →
  (∀ b, bufs c !! i = Some b → 0 ≤ d + b_count b < 2 ^ 7 ∧ (i ∈ l' ↔ d + b_count b = 0)) →
  (∀ j, j ≠ i → j ∈ l' ↔ j ∈ l) → pool_ok None c' l' ch.
Proof.
  intros [H1 H2 H3 H4 H5 H6 H7] C Hlru Huse Hi Hj.
  pose proof (counted_bufs _ _ _ _ C) as E. pose proof (counted_hash _ _ _ _ C) as Eh. split.
  - by rewrite (upto_length _ _ _ E).
  - by rewrite Eh.
  - done.
  - intros j b' Hb'. destruct (counted_lookup _ _ _ _ _ _ C Hb') as (b & Hb & _ & Ec).
    rewrite Ec. case_decide as Hij.
    + subst j. destruct (Hi b Hb) as [? ->]. split; [done|]. intuition congruence.
    + destruct (H4 j b Hb) as [? Hl]. split; [done|]. rewrite <- Hl. by apply Hj.
  - lia.
  - intros h Hh. apply (chain_ok_upto uncounted c); [done|done|done|by apply H6].
  - intros j b' h Hb' Hh. destruct (counted_lookup _ _ _ _ _ _ C Hb') as (b & Hb & Eb & _).
    apply (f_equal b_blocknr) in Eb. change (b_blocknr b' = b_blocknr b) in Eb.
    rewrite Eb. by apply H7.
Qed.

(** What taking or releasing a buffer does to the server. *)
Record counts (i : nat) (d : Z) (s s' : st) : Prop := {
  counts_rest : same_rest s s';
  counts_kern : kern s' = kern s;
  counts_cache : counted i d (cache s) (cache s')
}.

Lemma relinked_counted i d c c1 c2 : relinked c c1 → counted i d c1 c2 → counted i d c c2.
Proof.
  intros [R1 R2 R3] [C1 C2 C3 C4]. split; [|intros j|congruence..].
  - etrans; [|exact C1]. by apply (upto_weaken unlinked).
  - rewrite C2. by rewrite (upto_field b_count unlinked _ _ _ ltac:(done) R1).
Qed.

Lemma counted_relinked i d c c1 c2 : counted i d c c1 → relinked c1 c2 → counted i d c c2.
Proof.
  intros [C1 C2 C3 C4] [R1 R2 R3]. split; [|intros j|congruence..].
  - etrans; [exact C1|]. by apply (upto_weaken unlinked).
  - by rewrite (upto_field b_count unlinked _ _ _ ltac:(done) R1), C2.
Qed.

Lemma relinks_counts i d n s s1 s2 : relinks n s s1 → counts i d s1 s2 → counts i d s s2.
Proof.
  intros [R1 R2 R3 R4] [C1 C2 C3]. split; [by etrans|congruence|by eapply relinked_counted].
Qed.

Lemma counts_relinks i d n s s1 s2 : counts i d s s1 → relinks n s1 s2 → counts i d s s2.
Proof.
  intros [C1 C2 C3] [R1 R2 R3 R4]. split; [by etrans|congruence|by eapply counted_relinked].
Qed.

Lemma wr_count_spec s i b f d :
  bufs (cache s) !! i = Some b → f (b_count b) = d + b_count b →
  wp (wr i (λ b, b <| b_count ::= f |>)) (λ _ s', counts i d s s' ∧
    bufs_in_use (cache s') = bufs_in_use (cache s) ∧ ∀ l, lru_ok (cache s) l → lru_ok (cache s') l) s.
Proof.
  intros Hb Hf. wp_wr. set (s1 := with_table _ s).
  assert (upto uncounted (bufs (cache s)) (bufs (cache s1))) as E by by eapply upto_insert.
  split_and!; [split; [done|done|split; [done| |done|done]]|done|].
  - intros j. change (bufs (cache s1)) with (<[i := b <| b_count ::= f |>]> (bufs (cache s))).
    rewrite (field_insert _ _ _ b) by done. case_decide; [|by destruct (field _ _ _)].
    subst j. unfold field. rewrite Hb. simpl. by rewrite <- Hf.
  - intros l. apply (lru_ok_upto (λ b, b <| b_count := 0 |>)); try done. by eapply upto_insert.
Qed.

Lemma i8_count n : 0 ≤ n < 2 ^ 7 → i8 n = n.
Proof. intros. unfold i8. zlia. Qed.

(** * A block that is in the pool *)

Lemma content_upto g l l' :
  (∀ b, content (g b) = content b) → upto g l l' → content <$> l' = content <$> l.
Proof.
  intros Hg E. apply (f_equal (fmap content)) in E. rewrite <- !list_fmap_compose in E.
  etrans; [|etrans; [exact E|]]; apply list_fmap_ext; intros i b _; simpl; by rewrite Hg.
Qed.

(** The lines of [get_block] for a buffer that holds the block. *)
Lemma hit_spec s l ch i b :
  pool_ok None (cache s) l ch → bufs (cache s) !! i = Some b → b_count b < 2 ^ 7 - 1 →
  wp (count ← rd b_count i; when (count =? 0) (rm_lru i);;
      wr i (λ b, b <| b_count ::= λ n, i8 (n + 1) |>);; mret i)
    (λ r s', r = i ∧ counts i 1 s s' ∧ ∃ l', pool_ok None (cache s') l' ch) s.
Proof.
  intros P Hb Hmax. destruct (pool_free _ _ _ _ P _ _ Hb) as [Hcount Hfree].
  wp_pure. wp_rd. wp_pure. apply wp_when; intros Hc.
  - apply Z.eqb_eq in Hc. destruct Hfree as [_ Hfree].
    destruct (list_elem_of_split l i) as (l1 & l2 & ->); [by apply Hfree|].
    eapply wp_mono; [apply rm_lru_spec, P|]. intros [] s1 (R & Hl1).
    destruct (lru_lookup_relinks 1 s s1 (l1 ++ i :: l2) i (pool_lru _ _ _ _ P) R) as [b1 Hb1];
      [apply elem_of_app; right; by left|].
    assert (b_count b1 = b_count b) as Hb1c.
    { destruct (relinks_cache _ _ _ R) as [E _]. destruct (upto_lookup _ _ _ _ _ E Hb1) as (b0 & Hb0 & Eb).
      rewrite Hb in Hb0. injection Hb0 as <-. by apply (f_equal b_count) in Eb. }
    wp_pure. eapply wp_mono; [apply (wr_count_spec _ i b1 _ 1 Hb1); rewrite Hb1c, i8_count; lia|].
    intros [] s2 (C & Huse & Hlru). wp_pure. split; [done|].
    pose proof (relinks_counts _ _ _ _ _ _ R C) as C'. split; [done|]. exists (l1 ++ l2).
    pose proof (lru_NoDup _ _ (pool_lru _ _ _ _ P)) as [Hi _]%NoDup_middle.
    eapply pool_ok_counted; [exact P|apply C'|by apply Hlru|..].
    + rewrite Huse, (relinks_count _ _ _ R). rewrite !length_app. simpl. lia.
    + intros b' Hb'. simplify_eq. rewrite Hc. split; [lia|]. split; [done|lia].
    + intros j Hj. rewrite !elem_of_app, elem_of_cons. tauto.
  - apply Z.eqb_neq in Hc. wp_pure. eapply wp_mono; [apply (wr_count_spec _ i b _ 1 Hb); rewrite i8_count; lia|].
    intros [] s2 (C & Huse & Hlru). wp_pure. split; [done|]. split; [done|]. exists l.
    eapply pool_ok_counted; [exact P|apply C|by apply Hlru, P|by rewrite Huse| |done].
    intros b' Hb'. simplify_eq. split; [lia|]. rewrite Hfree. lia.
Qed.

(** * Releasing a buffer *)

Lemma counts_is_Some i d s s' : counts i d s s' → is_Some (bufs (cache s) !! i) → is_Some (bufs (cache s') !! i).
Proof.
  intros C. rewrite !lookup_lt_is_Some.
  by rewrite (upto_length _ _ _ (counted_bufs _ _ _ _ (counts_cache _ _ _ _ C))).
Qed.

(** The buffer goes to one end of the free list. *)
Lemma put_end_spec s l i (at_front : bool) :
  lru_ok (cache s) l → i ∉ l → is_Some (bufs (cache s) !! i) →
  wp (if at_front then put_front i else put_rear i) (λ _ s', relinks 0 s s' ∧
    ∃ l', lru_ok (cache s') l' ∧ l' ≡ₚ i :: l) s.
Proof.
  intros Hl Hi Hb. destruct at_front; eapply wp_mono.
  - by apply put_front_spec.
  - intros [] s' [R Hl']. split; [done|]. by exists (i :: l).
  - by apply put_rear_spec.
  - intros [] s' [R Hl']. split; [done|]. exists (l ++ [i]). split; [done|].
    by rewrite Permutation_app_comm.
Qed.

Lemma put_unused_spec s l i b block_type :
  lru_ok (cache s) l → i ∉ l → bufs (cache s) !! i = Some b → has block_type WRITE_IMMED = false →
  wp (wc (λ c, c <| bufs_in_use ::= λ n, n - 1 |>);;
      dev ← rd b_dev i;
      (if (dev =? DEV_RAM) || has block_type ONE_SHOT then put_front i else put_rear i);;
      dirt ← rd b_dirt i;
      dev ← rd b_dev i;
      when (has block_type WRITE_IMMED && dirt && negb (dev =? NO_DEV)) (rw_block i WRITING))
    (λ _ s', relinks (-1) s s' ∧ ∃ l', lru_ok (cache s') l' ∧ l' ≡ₚ i :: l) s.
Proof.
  intros Hl Hi Hb Hbt. rewrite Hbt. cbn [andb]. wp_pure. wp_pure. set (s1 := s <| cache ::= _ |>).
  assert (relinks (-1) s s1) as R1 by (apply relinks_in_use; lia).
  assert (lru_ok (cache s1) l) as Hl1 by by apply (lru_ok_upto (λ b, b) (cache s)).
  assert (bufs (cache s1) !! i = Some b) as Hb1 by done.
  wp_pure. wp_rd. wp_pure. eapply wp_mono; [apply (put_end_spec _ l i)|]; [done|done|by exists b|].
  intros [] s2 (R2 & l' & Hl' & Hp).
  destruct (lru_lookup (cache s2) l' i Hl') as [b2 Hb2]; [rewrite Hp; by left|].
  wp_pure. wp_rd. wp_pure. wp_rd. apply wp_when; [done|]. intros _.
  split; [exact (relinks_trans _ _ _ _ _ R1 R2)|]. by exists l'.
Qed.

Lemma put_block_spec s l ch i b block_type :
  pool_ok None (cache s) l ch → bufs (cache s) !! i = Some b → 0 < b_count b →
  has block_type WRITE_IMMED = false →
  wp (put_block (Some i) block_type)
    (λ _ s', counts i (-1) s s' ∧ ∃ l', pool_ok None (cache s') l' ch) s.
Proof.
  intros P Hb Hcount Hbt. destruct (pool_free _ _ _ _ P _ _ Hb) as [Hrange Hfree].
  assert (i ∉ l) as Hil by (rewrite Hfree; lia). unfold put_block.
  wp_pure. eapply wp_mono; [apply (wr_count_spec _ i b _ (-1) Hb); rewrite i8_count; lia|].
  intros [] s1 (C & Huse & Hlru). pose proof (counts_cache _ _ _ _ C) as Cc.
  destruct (counts_is_Some _ _ _ _ C) as [b1 Hb1]; [by exists b|].
  destruct (counted_lookup _ _ _ _ _ _ Cc Hb1) as (b' & Hb' & _ & Hc).
  rewrite Hb in Hb'. injection Hb' as <-. rewrite decide_True in Hc by done.
  wp_pure. wp_rd. destruct (Z.eqb_spec (b_count b1) 0) as [E|E]; cbn [negb].
  - eapply wp_mono; [apply (put_unused_spec _ l i b1); [by apply Hlru, P|done..]|].
    intros [] s2 (R & l' & Hl' & Hp). pose proof (counts_relinks _ _ _ _ _ _ C R) as C2.
    split; [done|]. exists l'.
    eapply pool_ok_counted; [exact P|apply C2|exact Hl'|..].
    + rewrite (relinks_count _ _ _ R), Huse, Hp. simpl. lia.
    + intros b' Hb'. simplify_eq. split; [lia|]. rewrite Hp. split; [lia|by left].
    + intros j Hj. rewrite Hp, elem_of_cons. tauto.
  - wp_pure. split; [done|]. exists l.
    eapply pool_ok_counted; [exact P|exact Cc|by apply Hlru, P|by rewrite Huse| |done].
    intros b' Hb'. simplify_eq. split; [lia|]. rewrite Hfree. lia.
Qed.
(** * Taking a buffer out of the pool and putting it back under another name *)

(** The chain [h] has become [l], the others are as in [ch]. *)
Definition chains_with (ch : nat → list nat) (h : nat) (l : list nat) : nat → list nat :=
  λ h', if decide (h' = h) then l else ch h'.

(** A buffer without its links. *)
Definition unlinked_all (b : buf) : buf := unchained (unlinked b).

Lemma pool_ok_unlinked c c' bp l ch b l1 l2 :
  let h := hash (b_blocknr b) in
  pool_ok None c (bp :: l) ch → bufs c !! bp = Some b → ch h = l1 ++ bp :: l2 →
  upto unlinked_all (bufs c) (bufs c') → length (buf_hash c') = length (buf_hash c) →
  lru_ok c' l → bufs_in_use c' = bufs_in_use c + 1 → chain_ok c' h (l1 ++ l2) →
  (∀ h', h' ≠ h → buf_hash c' !! h' = buf_hash c !! h') →
  (∀ j, last l1 ≠ Some j → field b_hash (bufs c') j = field b_hash (bufs c) j) →
  pool_ok (Some bp) c' l (chains_with ch h (l1 ++ l2)).
Proof.
  intros h [H1 H2 H3 H4 H5 H6 H7] Hb Ech E Elen Hlru Huse Hchain Hhead Hlink.
  pose proof (hash_bound (b_blocknr b) : (h < _)%nat) as Hh.
  pose proof (lru_NoDup _ _ H3) as [Hbp _]%NoDup_cons.
  pose proof (chain_NoDup _ _ _ (H6 h Hh)) as Hnd. rewrite Ech in Hnd.
  apply NoDup_middle in Hnd as [Hbp' _]. split.
  - by rewrite (upto_length _ _ _ E).
  - by rewrite Elen.
  - done.
  - intros i b' Hb'. destruct (upto_lookup _ _ _ _ _ E Hb') as (b0 & Hb0 & Eb).
    apply (f_equal b_count) in Eb. change (b_count b' = b_count b0) in Eb. rewrite Eb.
    destruct (H4 i b0 Hb0) as [? Hi]. split; [done|]. rewrite elem_of_cons in Hi.
    split.
    + intros Hil. split; [apply Hi; by right|]. by intros [= ->].
    + intros [Hc Hne]. destruct (proj2 Hi) as [->|?]; done.
  - rewrite Huse. simpl in H5. lia.
  - intros h' Hh'. unfold chains_with. case_decide as Eh; [by subst h'|].
    destruct (H6 h' Hh') as [C1 C2 C3]. split; [by rewrite Hhead|done|].
    eapply seg_ext; [|exact C3]. intros j Hj. apply Hlink. intros Hlast.
    assert (j ∈ ch h) as Hjh by (rewrite Ech; apply last_Some_elem_of in Hlast; apply elem_of_app; by left).
    destruct (chain_lookup _ _ _ _ (H6 h' Hh') Hj) as [bj Hbj].
    apply (H7 j bj) in Hj as [-> _], Hjh as [? _]; done.
  - intros i b' h' Hb' Hh'. destruct (upto_lookup _ _ _ _ _ E Hb') as (b0 & Hb0 & Eb).
    apply (f_equal b_blocknr) in Eb. change (b_blocknr b' = b_blocknr b0) in Eb. rewrite Eb.
    pose proof (H7 i b0 h' Hb0 Hh') as Hi. unfold chains_with. case_decide as Eh.
    + subst h'. rewrite Ech, elem_of_app, elem_of_cons in Hi. rewrite elem_of_app in *.
      split.
      * intros Hil. split; [apply Hi; tauto|]. intros [= ->]. apply Hbp', elem_of_app. tauto.
      * intros [Hc Hne]. destruct (proj2 Hi) as [?|[->|?]]; try done; tauto.
    + rewrite Hi. split; [|by intros [-> _]]. intros [-> _]. split; [done|].
      intros [= ->]. rewrite Hb in Hb0. by injection Hb0 as <-.
Qed.

(** The lines of [evict] that unlink the oldest buffer. *)
Lemma unlink_spec s bp l ch b :
  pool_ok None (cache s) (bp :: l) ch → bufs (cache s) !! bp = Some b →
  wp (rm_lru bp;; nr ← rd b_blocknr bp; hash_remove (hash nr) bp)
    (λ _ s', same_rest s s' ∧ kern s' = kern s ∧ rdwt_err (cache s') = rdwt_err (cache s) ∧
       upto unlinked_all (bufs (cache s)) (bufs (cache s')) ∧
       ∃ ch', pool_ok (Some bp) (cache s') l ch') s.
Proof.
  intros P Hb. set (h := hash (b_blocknr b)). pose proof (hash_bound (b_blocknr b)) as Hh.
  destruct (list_elem_of_split (ch h) bp) as (l1 & l2 & Ech); [by apply (pool_member _ _ _ _ P _ b)|].
  wp_pure. eapply wp_mono; [apply (rm_lru_spec _ [] bp l), P|]. intros [] s1 [R1 Hl1]. simpl in Hl1.
  destruct (relinks_cache _ _ _ R1) as [E1 Eh1 Ee1].
  assert (length (bufs (cache s1)) = NR_BUFS) as Hlen1
    by (rewrite (upto_length _ _ _ E1); apply P).
  assert (field b_blocknr (bufs (cache s1)) bp = Some (b_blocknr b)) as (b1 & Hb1 & Hnr1)%field_Some.
  { rewrite (upto_field b_blocknr unlinked _ _ _ ltac:(done) E1). unfold field. by rewrite Hb. }
  assert (∀ h, (h < Z.to_nat NR_BUF_HASH)%nat → chain_ok (cache s1) h (ch h)) as Hch1.
  { intros h' Hh'. apply (chain_ok_upto unlinked (cache s)); [done|done|done|by apply P]. }
  pose proof (Hch1 h Hh) as Hchh. rewrite Ech in Hchh.
  wp_pure. wp_rd. rewrite Hnr1. fold h. eapply wp_mono; [by apply hash_remove_spec|].
  intros [] s2 ([R2 R2k [E2 Ef2 Er2 Eu2 Ee2]] & Hc2 & Hlen2 & Hhead2 & Hlink2).
  assert (upto unlinked_all (bufs (cache s)) (bufs (cache s2))) as E.
  { etrans; [by apply (upto_weaken unlinked)|by apply (upto_weaken unchained)]. }
  split_and!; [etrans; [apply R1|done]|rewrite R2k; apply R1|congruence|done|].
  exists (chains_with ch h (l1 ++ l2)).
  eapply pool_ok_unlinked; [exact P|exact Hb|exact Ech|exact E|..].
  - by rewrite Hlen2, Eh1.
  - by apply (lru_ok_upto unchained (cache s1)).
  - rewrite Eu2. apply R1.
  - done.
  - intros h' Hh'. by rewrite Hhead2, Eh1.
  - intros j Hj. rewrite Hlink2 by done. by apply (upto_field b_hash unlinked).
Qed.
End inv.

(** * Giving a buffer another name *)

Section install.
Context {cfg : Config} {krn : Kernel}.

Lemma pool_ok_install c c' bp b b' l ch :
  let h := hash (b_blocknr b') in
  pool_ok (Some bp) c l ch → bufs c !! bp = Some b → b_count b = 0 →
  bufs c' = <[bp := b']> (bufs c) → buf_hash c' = <[h := Some bp]> (buf_hash c) →
  front c' = front c → rear c' = rear c → bufs_in_use c' = bufs_in_use c →
  b_count b' = 1 → b_next b' = b_next b → b_prev b' = b_prev b → b_hash b' = head (ch h) →
  pool_ok None c' l (chains_with ch h (bp :: ch h)).
Proof.
  intros h [H1 H2 H3 H4 H5 H6 H7] Hb Hb0 E Eh Ef Er Eu Hc Hn Hp Hh.
  pose proof (hash_bound (b_blocknr b') : (h < _)%nat) as Hhb.
  assert (∀ i b, i ≠ bp → bufs c' !! i = Some b → bufs c !! i = Some b) as Hne.
  { intros i b0 Hi. by rewrite E, list_lookup_insert_ne. }
  assert (bufs c' !! bp = Some b') as Hb'.
  { rewrite E, list_lookup_insert_eq; [done|]. by eapply lookup_lt_Some. }
  split.
  - by rewrite E, length_insert.
  - by rewrite Eh, length_insert.
  - destruct H3 as [L1 L2 L3 L4 L5]. split; [done|congruence|congruence|..]; rewrite E.
    + eapply seg_ext; [|exact L4]. intros i _. by rewrite (field_insert_same _ _ _ b).
    + eapply seg_ext; [|exact L5]. intros i _. by rewrite (field_insert_same _ _ _ b).
  - intros i b1 Hb1. destruct (decide (i = bp)) as [->|Hi].
    + rewrite Hb' in Hb1. injection Hb1 as <-. rewrite Hc. split; [done|].
      destruct (H4 bp b Hb) as [_ ->]. split; [by intros [_ ?]|by intros [? _]].
    + destruct (H4 i b1) as [? Hl]; [by apply Hne|]. split; [done|]. rewrite Hl.
      split; intros [? _]; split; congruence.
  - by rewrite Eu.
  - intros h' Hh'. unfold chains_with. destruct (H6 h' Hh') as [C1 C2 C3].
    assert (bp ∉ ch h') as Hbp by (rewrite (H7 bp b h') by done; by intros [_ ?]).
    assert (seg (field b_hash (bufs c')) (ch h') None) as C3'.
    { eapply seg_ext; [|exact C3]. intros i Hi. rewrite E, (field_insert _ _ _ b) by done.
      rewrite decide_False; [done|]. by intros ->. }
    case_decide as Eh'; split.
    + subst h'. rewrite Eh. by rewrite list_lookup_insert_eq by (by rewrite H2).
    + subst h'. by constructor.
    + subst h'. simpl. split; [|done]. rewrite head_or_None. unfold field. by rewrite Hb', <- Hh.
    + by rewrite Eh, list_lookup_insert_ne.
    + done.
    + done.
  - intros i b1 h' Hb1 Hh'. unfold chains_with. destruct (decide (i = bp)) as [->|Hi].
    + rewrite Hb' in Hb1. injection Hb1 as <-. fold h. case_decide as Eh'.
      * split; [done|]. intros _. by left.
      * rewrite (H7 bp b h') by done. split; intros [? ?]; congruence.
    + pose proof (H7 i b1 h' (Hne i b1 Hi Hb1) Hh') as Hm.
      case_decide as Eh'.
      * subst h'. rewrite elem_of_cons, Hm. split; [intros [?|[? ?]]; [done|by split]|].
        intros [? ?]. right. split; congruence.
      * rewrite Hm. split; intros [? ?]; split; congruence.
Qed.

(** What [get_block] makes of the victim before the block is read. *)
Definition installed (bp : nat) (dev block : Z) (b : buf) (s s' : st) (b' : buf) : Prop :=
  same_rest s s' ∧ kern s' = kern s ∧ bufs (cache s') = <[bp := b']> (bufs (cache s)) ∧
  b_data b' = b_data b ∧ b_dirt b' = b_dirt b ∧ b_dev b' = dev ∧ b_blocknr b' = block ∧
  b_count b' = 1.

Lemma install_spec {A} s bp b l ch dev block (m : M A) (Q : A → st → Prop) :
  pool_ok (Some bp) (cache s) l ch → bufs (cache s) !! bp = Some b → b_count b = 0 →
  (∀ s' b' ch', installed bp dev block b s s' b' → pool_ok None (cache s') l ch' → wp m Q s') →
  wp (wr bp (λ b, b <| b_dev := dev |>);;
      wr bp (λ b, b <| b_blocknr := block |>);;
      wr bp (λ b, b <| b_count ::= λ n, i8 (n + 1) |>);;
      h ← rd_hash (hash block);
      wr bp (λ b, b <| b_hash := h |>);;
      wr_hash (hash block) (Some bp);;
      m) Q s.
Proof.
  intros P Hb Hb0 HQ. pose proof (chain_head _ _ _ (pool_chain _ _ _ _ P _ (hash_bound block))) as Hh.
  assert (bp < length (bufs (cache s)))%nat as Hlt by by eapply lookup_lt_Some.
  wp_pure. wp_wr. do 2 (wp_pure; apply wp_wr_with; [done|]).
  wp_pure. unfold rd_hash. do 2 wp_pure. eapply wp_deref; [exact Hh|].
  wp_pure. apply wp_wr_with; [done|].
  wp_pure. set (s1 := with_table _ s). eapply wp_mono; [by apply (wr_hash_spec s1 _ _ _ Hh)|].
  intros [] s2 ([R Rk [_ Ef Er Eu Ee]] & Hbufs & Hhash).
  set (b' := b <| b_dev := dev |> <| b_blocknr := block |> <| b_count ::= λ n, i8 (n + 1) |>
               <| b_hash := head (ch (hash block)) |>) in *.
  assert (b_count b' = 1) as Hc1 by (change (i8 (b_count b + 1) = 1); by rewrite Hb0).
  eapply (HQ s2 b'); [|eapply (pool_ok_install (cache s) (cache s2) bp b b')]; try done.
  split_and!; try done. by transitivity s1.
Qed.
End install.

(** * Transfers of one block *)

Section spec.
Context {cfg : Config} {krn : Kernel} {dk : Disk}.
Context (t : tables) (D : Z → Prop).

Lemma block_in_range dev blk :
  disk_ok t dev → addressable t dev blk → in_range (u32 (blk * dev_bs t dev)) (dev_bs t dev).
Proof.
  intros [_ [Hmin _] _] [? ?]. unfold MIN_BLOCK_SIZE in Hmin.
  rewrite u32_id by nia. split; nia.
Qed.

Lemma u32_block dev blk :
  disk_ok t dev → addressable t dev blk → u32 (blk * dev_bs t dev) = blk * dev_bs t dev.
Proof. intros [_ [Hmin _] _] [? ?]. unfold MIN_BLOCK_SIZE in Hmin. apply u32_id. nia. Qed.

(** One block written. *)
Lemma write_flushed l i b k k' :
  disks t D → l !! i = Some b → D (b_dev b) → MAX_BLOCK_SIZE ≤ Z.of_nat (length (b_data b)) →
  drive_update t (b_dev b) (λ f, overlay f (b_blocknr b * dev_bs t (b_dev b))
    (take (Z.to_nat (dev_bs t (b_dev b))) (b_data b))) k k' →
  flushed t D [i] l k (<[i := clean b]> l) k'.
Proof.
  intros HD Hb Hdev Hlen Hk. destruct (disk_bs _ _ (disks_ok _ _ HD _ Hdev)) as [Hmin Hmax].
  unfold MIN_BLOCK_SIZE in Hmin. set (n := Z.to_nat (dev_bs t (b_dev b))) in *.
  assert (dev_bs t (b_dev b) = Z.of_nat n) as En by (unfold n; lia).
  assert (∀ blk, disk_block t k' (b_dev b) blk =
    if decide (b_blocknr b = blk) then block_data t b else disk_block t k (b_dev b) blk) as Hblk.
  { intros blk. unfold disk_block, block_data. rewrite Hk, decide_True by done. fold n. rewrite En.
    apply span_overlay; [rewrite length_take; lia|lia]. }
  split.
  - intros j. case_decide as Hj.
    + apply list_elem_of_singleton in Hj as ->. rewrite Hb.
      by rewrite list_lookup_insert_eq by by eapply lookup_lt_Some.
    + apply list_lookup_insert_ne. intros ->. apply Hj. by apply list_elem_of_singleton.
  - intros j b' ->%list_elem_of_singleton Hb'. rewrite Hb in Hb'. injection Hb' as <-.
    rewrite Hblk. by rewrite decide_True.
  - intros dev blk HD' Hn. destruct (decide (dev = b_dev b)) as [->|Hne].
    + rewrite Hblk, decide_False; [done|]. intros E.
      by apply (Hn i b); [apply list_elem_of_singleton|done|split].
    + unfold disk_block. rewrite Hk, decide_False; [done|].
      intros [? ?]. by apply Hne, (disks_inj _ _ HD).
Qed.

Lemma rw_block_read_spec s i b :
  disks t D → tabs s = t → bufs (cache s) !! i = Some b → buf_wf t D b → b_dev b ≠ NO_DEV →
  wp (rw_block i READING) (λ _ s', ∃ k' b', sector k' = sector (kern s) ∧
    s' = with_table (<[i := b']> (bufs (cache s))) (s <| kern := k' |>) ∧
    b_data b' = disk_block t (kern s) (b_dev b) (b_blocknr b) ++
                  drop (Z.to_nat (dev_bs t (b_dev b))) (b_data b) ∧
    b_dirt b' = CLEAN ∧ b_dev b' = b_dev b ∧ emptied b' = emptied b) s.
Proof.
  intros HD Ht Hb [[Hlen _] Hdev] Hnz. destruct (Hdev Hnz) as [HDdev Hadd].
  pose proof (disks_ok _ _ HD _ HDdev) as Hok. destruct (disk_bs _ _ Hok) as [Hmin Hmax].
  unfold rw_block. wp_pure. wp_rd. wp_pure.
  eapply wp_mono; [by apply get_block_size_spec|]. intros ? ? [-> ->]. rewrite Ht.
  pose proof Hnz as Hnz'. apply Z.eqb_neq in Hnz'. rewrite Hnz'. cbn [negb when].
  do 2 wp_pure. wp_rd. wp_pure. wp_rd. wp_pure. eapply wp_mono.
  { apply dev_io_read; rewrite ?Ht; [done|by apply block_in_range|lia]. }
  intros r s1 (Hr & k' & -> & Hk & z & Hv). rewrite Hr, Hv, Z.eqb_refl. cbn [negb when].
  wp_pure. wp_wr.
  wp_pure. eapply wp_wr; [rewrite table_with; apply list_lookup_insert_eq; by eapply lookup_lt_Some|].
  eexists k', _. split; [done|]. split.
  { rewrite table_with, with_table_twice. f_equal. apply list_insert_insert_eq. }
  rewrite Ht, u32_block by done. by split_and!.
Qed.

Lemma rw_block_write_spec s i b :
  disks t D → tabs s = t → bufs (cache s) !! i = Some b → buf_wf t D b → b_dev b ≠ NO_DEV →
  wp (rw_block i WRITING) (λ _ s', flushes t D [i] s s') s.
Proof.
  intros HD Ht Hb [[Hlen Hby] Hdev] Hnz. destruct (Hdev Hnz) as [HDdev Hadd].
  pose proof (disks_ok _ _ HD _ HDdev) as Hok. destruct (disk_bs _ _ Hok) as [Hmin Hmax].
  unfold rw_block. wp_pure. wp_rd. wp_pure.
  eapply wp_mono; [by apply get_block_size_spec|]. intros ? ? [-> ->]. rewrite Ht.
  pose proof Hnz as Hnz'. apply Z.eqb_neq in Hnz'. rewrite Hnz'. cbn [negb when].
  do 2 wp_pure. wp_rd. wp_pure. wp_rd. wp_pure. eapply wp_mono.
  { apply dev_io_write; rewrite ?Ht; [done|by apply block_in_range|lia|done]. }
  intros r s1 (Hr & k' & -> & Hk & z & Hv). rewrite Hr, Hv, Z.eqb_refl. cbn [negb when].
  wp_pure. wp_wr.
  wp_pure. eapply wp_wr; [rewrite table_with; apply list_lookup_insert_eq; by eapply lookup_lt_Some|].
  exists (<[i := clean b]> (bufs (cache s))), k'. split_and!.
  - rewrite table_with, with_table_twice. f_equal. etrans; [apply list_insert_insert_eq|]. f_equal.
  - apply length_insert.
  - rewrite Ht, u32_block in Hk by done. apply write_flushed; [done..|lia|exact Hk].
Qed.

(** * [get_block] *)

(** The clients of the cache cannot tell the states apart. *)
Record transparent (s s' : st) : Prop := {
  tr_rest : same_rest s s';
  tr_view dev blk : D dev →
    view t (kern s') (bufs (cache s')) dev blk = view t (kern s) (bufs (cache s)) dev blk
}.
#[global] Instance transparent_trans : Transitive transparent.
Proof.
  intros s s' s'' [R1 V1] [R2 V2]. split; [by etrans|]. intros dev blk HD. by rewrite V2, V1.
Qed.

Lemma transparent_content s s' :
  disks t D → unique_names (bufs (cache s)) → same_rest s s' → kern s' = kern s →
  content <$> bufs (cache s') = content <$> bufs (cache s) → transparent s s'.
Proof.
  intros HD Hu Hr Hk Hc. split; [done|]. intros dev blk Hdev. rewrite Hk.
  apply view_content; [done|done|]. by apply (disks_ok _ _ HD).
Qed.

Lemma flushes_transparent q s s' :
  disks t D → unique_names (bufs (cache s)) → flushes t D q s s' → transparent s s'.
Proof.
  intros HD Hu (l' & k' & -> & _ & F). split; [done|]. intros dev blk Hdev.
  eapply (flushed_view t D); [exact F|done|by apply (disks_ok _ _ HD)|done].
Qed.

Lemma flushed_emptied q l k l' k' : flushed t D q l k l' k' → upto emptied l l'.
Proof.
  intros F. unfold upto. apply list_eq. intros i. rewrite !list_lookup_fmap.
  rewrite (fl_bufs _ _ _ _ _ _ _ F). case_decide; [|done]. by destruct (l !! i).
Qed.

Lemma flushes_pool_ok q s s' out l ch :
  flushes t D q s s' → pool_ok out (cache s) l ch → pool_ok out (cache s') l ch.
Proof.
  intros (l' & k' & -> & _ & F%flushed_emptied). by apply pool_ok_emptied.
Qed.

(** A buffer as its holders see it. *)
Definition same_buf (b b' : buf) : Prop :=
  b_data b' = b_data b ∧ b_dev b' = b_dev b ∧ b_blocknr b' = b_blocknr b ∧ b_count b' = b_count b.

Lemma upto_Forall2 g (R : buf → buf → Prop) l l' :
  (∀ b b', g b' = g b → R b b') → upto g l l' → Forall2 R l l'.
Proof.
  intros HR E. apply Forall2_same_length_lookup. split; [by rewrite (upto_length _ _ _ E)|].
  intros i b b' Hb Hb'. destruct (upto_lookup _ _ _ _ _ E Hb') as (c & Hc & Eg).
  rewrite Hb in Hc. injection Hc as <-. by apply HR.
Qed.

Lemma flushed_same_buf q l k l' k' :
  length l' = length l → flushed t D q l k l' k' → Forall2 same_buf l l'.
Proof.
  intros Hlen F. apply Forall2_same_length_lookup. split; [done|]. intros i b b' Hb Hb'.
  rewrite (fl_bufs _ _ _ _ _ _ _ F), Hb in Hb'.
  case_decide; simpl in Hb'; injection Hb' as <-; done.
Qed.

#[global] Instance same_buf_preorder : PreOrder same_buf.
Proof.
  split; [done|]. intros b1 b2 b3. unfold same_buf. intros (?&?&?&?) (?&?&?&?).
  split_and!; congruence.
Qed.

(** What is left of the victim; the other buffers hold what they held. *)
Record evicted (bp : nat) (s s' : st) : Prop := {
  ev_transparent : transparent s s';
  ev_coherent : coherent t D (kern s') (bufs (cache s'));
  ev_bufs : Forall2 same_buf (bufs (cache s)) (bufs (cache s'));
  ev_victim : ∃ b, bufs (cache s') !! bp = Some b ∧ b_count b = 0 ∧
    (b_dev b ≠ NO_DEV → b_dirt b = CLEAN)
}.

(** The victim was dirty: all the dirty buffers of its device are written. *)
Lemma evicted_flush s s3 s4 bp b3 :
  disks t D → length (bufs (cache s3)) = NR_BUFS → coherent t D (kern s3) (bufs (cache s3)) →
  Forall2 same_buf (bufs (cache s)) (bufs (cache s3)) →
  transparent s s3 → bufs (cache s3) !! bp = Some b3 → b_count b3 = 0 → b_dirt b3 = DIRTY →
  flushes t D (dirty_bufs (b_dev b3) (bufs (cache s3))) s3 s4 → evicted bp s s4.
Proof.
  intros HD Hlen Hco Hsame T Hb Hc Hdirt F.
  assert (bp ∈ dirty_bufs (b_dev b3) (bufs (cache s3))) as Hin
    by (apply dirty_bufs_elem; [done|by exists b3]).
  destruct (flushes_transparent _ _ _ HD (co_unique _ _ _ _ Hco) F) as [R4 V4].
  split; [etrans; [done|by split]|..]; destruct F as (l' & k' & -> & Hl & F).
  - by eapply flushed_coherent.
  - etrans; [done|by eapply flushed_same_buf].
  - exists (clean b3). split_and!; [|done|done]. simpl.
    rewrite (fl_bufs _ _ _ _ _ _ _ F), decide_True by done. by rewrite Hb.
Qed.

Lemma evict_spec s bp l ch :
  disks t D → tabs s = t → pool_ok None (cache s) (bp :: l) ch →
  coherent t D (kern s) (bufs (cache s)) →
  wp evict (λ r s', r = bp ∧ evicted bp s s' ∧ ∃ ch', pool_ok (Some bp) (cache s') l ch') s.
Proof.
  intros HD Ht P Hco. destruct (lru_lookup _ _ bp (pool_lru _ _ _ _ P)) as [b Hb]; [by left|].
  unfold evict. wp_pure. wp_pure. rewrite (lru_front _ _ (pool_lru _ _ _ _ P)). cbn [head].
  pose proof (unlink_spec s bp l ch b P Hb) as H. apply wp_bind_inv in H.
  wp_pure. eapply wp_mono; [exact H|]. intros [] s1 H1. apply wp_bind_inv in H1.
  wp_pure. eapply wp_mono; [exact H1|]. intros nr s2 H2. clear H H1.
  wp_pure. eapply wp_mono; [exact H2|]. clear H2.
  intros [] s3 (Hr & Hk & _ & E & ch' & P').
  assert (content <$> bufs (cache s3) = content <$> bufs (cache s)) as Hc
    by by apply (content_upto unlinked_all).
  assert (coherent t D (kern s3) (bufs (cache s3))) as Hco3
    by (rewrite Hk; by eapply coherent_content).
  assert (transparent s s3) as T3 by (apply transparent_content; [done|apply Hco|done..]).
  assert (Forall2 same_buf (bufs (cache s)) (bufs (cache s3))) as Hsame.
  { apply (upto_Forall2 unlinked_all); [|done]. intros c c' Ec. by injection Ec. }
  destruct (Forall2_lookup_l _ _ _ _ _ Hsame Hb) as (b3 & Hb3 & _ & _ & _ & Hcount).
  assert (b_count b3 = 0) as Hcount3.
  { rewrite Hcount. destruct (pool_free _ _ _ _ P _ _ Hb) as [_ Hf]. apply Hf. by left. }
  wp_pure. wp_rd. wp_pure. wp_rd. wp_pure. apply wp_when; intros Hw.
  - apply andb_prop in Hw as [Hnz Hdirt]. apply negb_true_iff, Z.eqb_neq in Hnz.
    eapply wp_mono.
    { apply (flushall_spec t D); [done|by apply (co_wf _ _ _ _ Hco3 bp)|by rewrite (same_tabs _ _ Hr)|apply P'|done]. }
    intros [] s4 F. wp_pure. split; [done|]. split; [|exists ch'; by eapply flushes_pool_ok].
    apply (evicted_flush s s3 s4 bp b3); try done. apply P'.
  - wp_pure. split; [done|]. split; [|by exists ch']. split; [done..|].
    exists b3. split_and!; [done|done|]. intros Hnz%Z.eqb_neq. rewrite Hnz in Hw. done.
Qed.

(** The search of the hash chain finds the buffer of the block, if there is one. *)
Lemma lookup_block_spec s l ch dev block :
  pool_ok None (cache s) l ch → dev ≠ NO_DEV →
  wp (if dev =? NO_DEV then mret None
      else h ← rd_hash (hash block); hash_search dev block h : M (option nat))
    (λ r s', s' = s ∧ match r with
       | Some i => ∃ b, bufs (cache s) !! i = Some b ∧ named dev block b
       | None => ∀ i b, bufs (cache s) !! i = Some b → ¬ named dev block b
       end) s.
Proof.
  intros P Hdev%Z.eqb_neq. rewrite Hdev. pose proof (hash_bound block) as Hh.
  pose proof (pool_chain _ _ _ _ P _ Hh) as Hch.
  wp_pure. unfold rd_hash. do 2 wp_pure. eapply wp_deref; [apply Hch|].
  eapply wp_mono; [eapply hash_search_spec; [exact Hch|apply P]|].
  intros [i|] s' [-> Hr]; (split; [done|]).
  - destruct Hr as (_ & b & Hb & Hnr & Hd). by exists b.
  - intros i b Hb [Hd Hnr]. apply (Hr i); [|by exists b].
    apply (pool_member _ _ _ _ P i b); [done|done|]. by rewrite Hnr.
Qed.

Lemma disk_block_sector k k' dev blk :
  sector k' = sector k → disk_block t k' dev blk = disk_block t k dev blk.
Proof. intros E. unfold disk_block. by rewrite E. Qed.

(** A clean victim [bp] is given to a block that has no buffer. *)
Section replace.
Context (k : K) (l : list buf) (bp : nat) (b b' : buf) (dev blk : Z).
Hypothesis HD : disks t D.
Hypothesis Hco : coherent t D k l.
Hypothesis Hb : l !! bp = Some b.
Hypothesis Hclean : b_dev b ≠ NO_DEV → b_dirt b = CLEAN.
Hypothesis Hnew : ∀ i b, l !! i = Some b → ¬ named dev blk b.
Hypothesis Hdev : D dev.
Hypothesis Hadd : addressable t dev blk.
Hypothesis Hnamed : named dev blk b'.
Hypothesis Hlen : page_ok (b_data b').

Lemma replace_lookup i : <[bp := b']> l !! i = if decide (i = bp) then Some b' else l !! i.
Proof.
  case_decide as Hi; [subst i|by rewrite list_lookup_insert_ne].
  apply list_lookup_insert_eq. by eapply lookup_lt_Some.
Qed.

Lemma replace_wf i c : <[bp := b']> l !! i = Some c → buf_wf t D c.
Proof using Hb Hco Hdev Hadd Hnamed Hlen.
  rewrite replace_lookup. case_decide; [intros [= <-]|apply Hco].
  destruct Hnamed as [E1 E2]. split; [done|]. by rewrite E1, E2.
Qed.

Lemma replace_unique : unique_names (<[bp := b']> l).
Proof using Hb Hco Hnew Hnamed.
  intros i j dev' blk' c c' Hnz. rewrite !replace_lookup.
  repeat case_decide; subst; [done|intros [= <-] Hc|intros Hc [= <-]|by apply (co_unique _ _ _ _ Hco)].
  - intros [E1 E2] Hn. destruct Hnamed as [E1' E2']. exfalso. apply (Hnew _ _ Hc). by rewrite <- E1', E1, <- E2', E2.
  - intros Hn [E1 E2]. destruct Hnamed as [E1' E2']. exfalso. apply (Hnew _ _ Hc). by rewrite <- E1', E1, <- E2', E2.
Qed.

(** Every other block looks as before. *)
Lemma replace_view dev' blk' :
  dev' ≠ NO_DEV → (dev', blk') ≠ (dev, blk) →
  view t k (<[bp := b']> l) dev' blk' = view t k l dev' blk'.
Proof using Hb Hco Hclean Hnamed Hnew.
  intros Hnz Hne. destruct (cached l dev' blk') as [c|] eqn:E.
  - destruct (cached_inv _ _ _ _ E) as (i & Hc & Hn). destruct (decide (i = bp)) as [->|Hi].
    + rewrite Hb in Hc. injection Hc as <-.
      rewrite (view_cached t k l bp b dev' blk') by (done || apply Hco).
      rewrite view_uncached.
      * destruct Hn as [<- <-]. symmetry. by apply (co_clean _ _ _ _ Hco bp); [|done|apply Hclean].
      * intros i c. rewrite replace_lookup. case_decide as Hi.
        -- intros [= <-] [E1 E2]. destruct Hnamed as [E1' E2']. apply Hne. congruence.
        -- intros Hc Hn'. apply Hi. by eapply (co_unique _ _ _ _ Hco).
    + rewrite (view_cached t k l i c dev' blk') by (done || apply Hco).
      apply (view_cached _ _ _ i); [apply replace_unique|done| |done].
      by rewrite replace_lookup, decide_False.
  - unfold view at 2. rewrite E. rewrite cached_None in E. apply view_uncached.
    intros i c. rewrite replace_lookup. case_decide as Hi; [|apply E].
    intros [= <-] [E1 E2]. destruct Hnamed as [E1' E2']. apply Hne. congruence.
Qed.

Lemma replace_clean :
  block_data t b' = disk_block t k dev blk → coherent t D k (<[bp := b']> l).
Proof using All.
  intros Hdata. split; [apply replace_wf|apply replace_unique|].
  intros i c. rewrite replace_lookup. case_decide; [intros [= <-]|apply Hco].
  destruct Hnamed as [-> ->]. done.
Qed.
End replace.

(** * The contract of the cache *)

Record cache_ok (s : st) : Prop := {
  ok_tabs : tabs s = t;
  ok_disks : disks t D;
  ok_coherent : coherent t D (kern s) (bufs (cache s));
  ok_pool : ∃ l ch, pool_ok None (cache s) l ch
}.

(** One more use does not overflow the count of a buffer, a char. *)
Definition countable (s : st) : Prop := ∀ i n, field b_count (bufs (cache s)) i = Some n → n < 2 ^ 7 - 1.

(** There is a buffer for the block: it has one, or one is not in use. *)
Definition available (s : st) (dev blk : Z) : Prop :=
  countable s ∧ ∃ i b, bufs (cache s) !! i = Some b ∧ (b_count b = 0 ∨ named dev blk b).

(** The buffers in use stay with their holders. *)
Definition keeps (s s' : st) : Prop := ∀ i b,
  bufs (cache s) !! i = Some b → 0 < b_count b →
  ∃ b', bufs (cache s') !! i = Some b' ∧ b_data b' = b_data b ∧ b_dev b' = b_dev b ∧
    b_blocknr b' = b_blocknr b ∧ b_count b ≤ b_count b'.

(** What [get_block] returns: a buffer of the block, now in use. *)
Definition got (s s' : st) (dev blk : Z) (bp : nat) : Prop :=
  ∃ b, bufs (cache s') !! bp = Some b ∧ named dev blk b ∧ 0 < b_count b ∧
    block_data t b = view t (kern s) (bufs (cache s)) dev blk.

(** The use count of [i] changes by [d], no other changes. *)
Definition uses (i : nat) (d : Z) (s s' : st) : Prop := ∀ j,
  field b_count (bufs (cache s')) j =
    (if decide (i = j) then Z.add d else id) <$> field b_count (bufs (cache s)) j.

Lemma replaced_uses s s' l bp b b' :
  Forall2 same_buf (bufs (cache s)) l → l !! bp = Some b → b_count b = 0 →
  bufs (cache s') = <[bp := b']> l → b_count b' = 1 → uses bp 1 s s'.
Proof.
  intros Hsame Hb Hc E Hc' j. rewrite E, (field_insert _ _ _ b) by done.
  pose proof (proj1 (Forall2_lookup _ _ _) Hsame j) as Hj. unfold field.
  case_decide as Hj'.
  - subst j. rewrite Hb in Hj. inversion Hj as [c c' (_ & _ & _ & Ec) E1 E2|]. simpl. f_equal. lia.
  - destruct Hj as [c c' (_ & _ & _ & Ec)|]; simpl; [|done]. by rewrite Ec.
Qed.

Lemma counted_keeps s s' i d :
  0 ≤ d → counts i d s s' → keeps s s'.
Proof.
  intros Hd C j b Hb Hcount. pose proof (counts_cache _ _ _ _ C) as Cc.
  destruct (lookup_lt_is_Some_2 (bufs (cache s')) j) as [b' Hb'].
  { rewrite (upto_length _ _ _ (counted_bufs _ _ _ _ Cc)). by eapply lookup_lt_Some. }
  destruct (counted_lookup _ _ _ _ _ _ Cc Hb') as (b0 & Hb0 & E & Ec).
  rewrite Hb in Hb0. injection Hb0 as <-. injection E as E1 E2 E3 E4 E5.
  exists b'. split_and!; try done. rewrite Ec. case_decide; lia.
Qed.

Lemma counts_cache_ok s s' i d :
  cache_ok s → counts i d s s' → (∃ l ch, pool_ok None (cache s') l ch) →
  cache_ok s' ∧ transparent s s'.
Proof.
  intros [Ht HD Hco _] [R Rk C] P.
  assert (content <$> bufs (cache s') = content <$> bufs (cache s)) as E
    by (apply (content_upto uncounted); [done|apply C]).
  split; [split|].
  - by rewrite (same_tabs _ _ R).
  - done.
  - rewrite Rk. by eapply coherent_content.
  - done.
  - apply transparent_content; [done|apply Hco|done..].
Qed.

Lemma replaced_keeps s s' l bp b b' :
  Forall2 same_buf (bufs (cache s)) l → l !! bp = Some b → b_count b = 0 →
  bufs (cache s') = <[bp := b']> l → keeps s s'.
Proof.
  intros Hsame Hb Hc E i c Hi Hcount.
  destruct (Forall2_lookup_l _ _ _ _ _ Hsame Hi) as (c' & Hc' & E1 & E2 & E3 & E4).
  exists c'. split_and!; [|done..|lia]. rewrite E, list_lookup_insert_ne; [done|].
  intros ->. rewrite Hb in Hc'. injection Hc' as <-. lia.
Qed.

Lemma coherent_sector k k' l : sector k' = sector k → coherent t D k l → coherent t D k' l.
Proof.
  intros E [Hwf Hu Hcl]. split; [done|done|]. intros i b Hb Hnz Hd.
  rewrite (disk_block_sector k) by done. by eapply Hcl.
Qed.

Lemma view_sector k k' l dev blk : sector k' = sector k → view t k' l dev blk = view t k l dev blk.
Proof. intros E. unfold view. by rewrite (disk_block_sector k). Qed.

Lemma length_disk_block k dev blk : length (disk_block t k dev blk) = Z.to_nat (dev_bs t dev).
Proof. apply length_span. Qed.

(** The victim holds the block: the contract of [get_block]. *)
Lemma read_into_victim s s3 s5 bp b3 b5 dev blk :
  cache_ok s → evicted bp s s3 → bufs (cache s3) !! bp = Some b3 → b_count b3 = 0 →
  (b_dev b3 ≠ NO_DEV → b_dirt b3 = CLEAN) →
  (∀ i b, bufs (cache s3) !! i = Some b → ¬ named dev blk b) → D dev → addressable t dev blk →
  same_rest s3 s5 → sector (kern s5) = sector (kern s3) →
  bufs (cache s5) = <[bp := b5]> (bufs (cache s3)) → named dev blk b5 →
  block_data t b5 = disk_block t (kern s3) dev blk →
  page_ok (b_data b5) → b_count b5 = 1 →
  (∃ l ch, pool_ok None (cache s5) l ch) →
  cache_ok s5 ∧ transparent s s5 ∧ keeps s s5 ∧ uses bp 1 s s5 ∧ got s s5 dev blk bp.
Proof.
  intros [Ht HD _ _] [T Hco3 Hsame _] Hb3 Hc3 Hcl3 Hnew Hdev Hadd R5 Hk5 Hbufs Hn5 Hd5 Hlen5 Hc5 P5.
  pose proof (disk_dev _ _ (disks_ok _ _ HD _ Hdev)) as Hnz.
  assert (bufs (cache s5) !! bp = Some b5) as Hb5
    by (rewrite Hbufs; apply list_lookup_insert_eq; by eapply lookup_lt_Some).
  assert (coherent t D (kern s3) (bufs (cache s5))) as Hco5
    by (rewrite Hbufs; by apply (replace_clean (kern s3) _ bp b3 b5 dev blk)).
  assert (view t (kern s) (bufs (cache s)) dev blk = disk_block t (kern s3) dev blk) as Hview.
  { rewrite <- (tr_view _ _ T) by done. by apply view_uncached. }
  split_and!.
  - split; [by rewrite (same_tabs _ _ R5), (same_tabs _ _ (tr_rest _ _ T))|done| |done].
    by apply (coherent_sector (kern s3)).
  - split; [etrans; [apply T|done]|]. intros dev' blk' Hdev'.
    rewrite (view_sector (kern s3)) by done. rewrite <- (tr_view _ _ T) by done.
    destruct (decide ((dev', blk') = (dev, blk))) as [E|Hne].
    + injection E as -> ->. rewrite (view_cached _ _ _ bp b5) by (done || apply Hco5).
      by rewrite Hd5, view_uncached.
    + rewrite Hbufs. apply (replace_view _ _ bp b3 b5 dev blk); try done.
      by apply (disks_ok _ _ HD).
  - by eapply replaced_keeps.
  - by eapply replaced_uses.
  - exists b5. split_and!; [done|done|lia|]. by rewrite Hview.
Qed.

Lemma page_ok_read k dev blk d :
  dev_bs t dev ≤ MAX_BLOCK_SIZE → page_ok d →
  page_ok (disk_block t k dev blk ++ drop (Z.to_nat (dev_bs t dev)) d).
Proof.
  intros Hbs [Hl Hd]. split.
  - rewrite length_app, length_drop, length_disk_block. lia.
  - apply Forall_app. split; [|by apply Forall_drop]. apply Forall_fmap, Forall_true.
    intros i. apply sector_byte.
Qed.

(** The block is read into the buffer that has been installed for it. *)
Lemma get_block_read s s3 s4 bp b3 b4 l ch dev blk :
  cache_ok s → evicted bp s s3 → bufs (cache s3) !! bp = Some b3 → b_count b3 = 0 →
  (b_dev b3 ≠ NO_DEV → b_dirt b3 = CLEAN) →
  (∀ i b, bufs (cache s) !! i = Some b → ¬ named dev blk b) → D dev → addressable t dev blk →
  installed bp dev blk b3 s3 s4 b4 → pool_ok None (cache s4) l ch →
  wp (rw_block bp READING)
    (λ _ s', cache_ok s' ∧ transparent s s' ∧ keeps s s' ∧ uses bp 1 s s' ∧ got s s' dev blk bp) s4.
Proof.
  intros Hok Hev Hb3 Hc3 Hcl3 Hnew Hdev Hadd (R4 & Rk & Hbufs & E1 & E2 & E3 & E4 & E5) P.
  pose proof Hok as [Ht HD _ _]. pose proof Hev as [T Hco3 Hsame _].
  destruct (disks_ok _ _ HD _ Hdev) as [Hnz Hbs _].
  assert (bp < length (bufs (cache s3)))%nat as Hlt by by eapply lookup_lt_Some.
  assert (buf_wf t D b4) as Hwf4.
  { destruct (co_wf _ _ _ _ Hco3 _ _ Hb3) as [Hl _]. split; [by rewrite E1|]. by rewrite E3, E4. }
  assert (∀ i b, bufs (cache s3) !! i = Some b → ¬ named dev blk b) as Hnew3.
  { intros i b Hi [N1 N2]. destruct (Forall2_lookup_r _ _ _ _ _ Hsame Hi) as (b0 & Hb0 & _ & F1 & F2 & _).
    apply (Hnew _ _ Hb0). split; congruence. }
  eapply wp_mono.
  { eapply rw_block_read_spec; [done| |rewrite Hbufs; by apply list_lookup_insert_eq|done|congruence].
    rewrite (same_tabs _ _ R4), (same_tabs _ _ (tr_rest _ _ T)). done. }
  intros [] s5 (k5 & b5 & Hk5 & -> & Eb5 & Ed5 & Edev5 & Eemp5). rewrite E3, E4, Rk in Eb5.
  rewrite Rk in Hk5. rewrite Hbufs, list_insert_insert_eq. set (l5 := <[bp := b5]> (bufs (cache s3))).
  assert (named dev blk b5) as Hn5.
  { split; [congruence|]. apply (f_equal b_blocknr) in Eemp5. etrans; [exact Eemp5|done]. }
  assert (block_data t b5 = disk_block t (kern s3) dev blk) as Hd5.
  { unfold block_data. destruct Hn5 as [-> _]. rewrite Eb5. apply take_app_length'.
    by rewrite length_disk_block. }
  assert (page_ok (b_data b5)) as Hlen5 by (rewrite Eb5; apply page_ok_read; [lia|apply Hwf4]).
  assert (b_count b5 = 1) as Hc5 by (apply (f_equal b_count) in Eemp5; etrans; [exact Eemp5|done]).
  apply (read_into_victim s s3 (with_table l5 (s4 <| kern := k5 |>)) bp b3 b5 dev blk); try done.
  - etrans; [exact R4|]. by split.
  - exists l, ch. apply (pool_ok_emptied _ (cache s4)); try done.
    assert (l5 = <[bp := b5]> (bufs (cache s4))) as ->
      by (unfold l5; by rewrite Hbufs, list_insert_insert_eq).
    eapply upto_insert; [|done]. rewrite Hbufs. by apply list_lookup_insert_eq.
Qed.

(** A buffer not in use is on the free list. *)
Lemma evict_front s l ch dev blk :
  pool_ok None (cache s) l ch → available s dev blk →
  (∀ i b, bufs (cache s) !! i = Some b → ¬ named dev blk b) → ∃ bp l', l = bp :: l'.
Proof.
  intros P (_ & i & b & Hb & [Hc|Hn]) Hnew; [|by destruct (Hnew i b)].
  destruct (pool_free _ _ _ _ P _ _ Hb) as [_ Hf]. assert (i ∈ l) as Hi by by apply Hf.
  destruct l as [|bp l']; [by apply not_elem_of_nil in Hi|eauto].
Qed.

Lemma hit_got s s' bp b dev blk :
  cache_ok s → dev ≠ NO_DEV → counts bp 1 s s' → bufs (cache s) !! bp = Some b →
  named dev blk b → got s s' dev blk bp.
Proof.
  intros Hok Hnz C Hb Hn. pose proof (counts_cache _ _ _ _ C) as Cc.
  destruct (lookup_lt_is_Some_2 (bufs (cache s')) bp) as [b' Hb'].
  { rewrite (upto_length _ _ _ (counted_bufs _ _ _ _ Cc)). by eapply lookup_lt_Some. }
  destruct (counted_lookup _ _ _ _ _ _ Cc Hb') as (b0 & Hb0 & E & Ec).
  rewrite Hb in Hb0. injection Hb0 as <-. injection E as E1 E2 E3 E4 E5.
  rewrite decide_True in Ec by done. destruct (ok_pool _ Hok) as (l & ch & P).
  destruct (pool_free _ _ _ _ P _ _ Hb) as [Hc _]. destruct Hn as [N1 N2].
  exists b'. split_and!; [done|split; congruence|lia|].
  rewrite (view_cached _ _ _ bp b) by (done || apply Hok). unfold block_data. by rewrite E1, E4.
Qed.

Lemma get_block_normal s dev blk :
  cache_ok s → D dev → addressable t dev blk → available s dev blk →
  wp (get_block dev blk NORMAL)
    (λ bp s', cache_ok s' ∧ transparent s s' ∧ keeps s s' ∧ uses bp 1 s s' ∧ got s s' dev blk bp) s.
Proof.
  intros Hok Hdev Hadd Hav. destruct (ok_pool _ Hok) as (l & ch & P).
  pose proof (disk_dev _ _ (disks_ok _ _ (ok_disks _ Hok) _ Hdev)) as Hnz.
  unfold get_block. wp_pure. eapply wp_mono; [by eapply lookup_block_spec|].
  intros [bp|] s0 [-> Hr].
  - destruct Hr as (b & Hb & Hn). eapply wp_mono; [eapply hit_spec; [done|done|]|].
    { apply (proj1 Hav bp). unfold field. by rewrite Hb. }
    intros r s' (-> & C & l' & P'). destruct (counts_cache_ok _ _ _ _ Hok C) as [Hok' T]; [by exists l', ch|].
    split_and!; [done|done|by apply (counted_keeps _ _ bp 1); [lia|]|exact (counted_count _ _ _ _ (counts_cache _ _ _ _ C))|].
    by eapply hit_got.
  - destruct (evict_front s l ch dev blk P Hav Hr) as (bp & l' & ->).
    wp_pure. eapply wp_mono; [apply (evict_spec s bp l' ch); try done; apply Hok|].
    intros r s3 (-> & Hev & ch3 & P3). destruct (ev_victim _ _ _ Hev) as (b3 & Hb3 & Hc3 & Hcl3).
    eapply install_spec; [exact P3|exact Hb3|done|]. intros s4 b4 ch4 Hinst P4.
    apply Z.eqb_neq in Hnz. rewrite Hnz. cbn [negb when].
    wp_pure. eapply wp_mono; [by eapply get_block_read|]. intros [] s5 H. by wp_pure.
Qed.

(** * [put_block] *)

Lemma put_block_ok s i b block_type :
  cache_ok s → bufs (cache s) !! i = Some b → 0 < b_count b →
  has block_type WRITE_IMMED = false →
  wp (put_block (Some i) block_type)
    (λ _ s', cache_ok s' ∧ transparent s s' ∧
       content <$> bufs (cache s') = content <$> bufs (cache s) ∧ uses i (-1) s s') s.
Proof.
  intros Hok Hb Hc Hbt. destruct (ok_pool _ Hok) as (l & ch & P).
  eapply wp_mono; [by eapply put_block_spec|]. intros [] s' (C & l' & P').
  destruct (counts_cache_ok _ _ _ _ Hok C) as [Hok' T]; [by exists l', ch|].
  split_and!; [done|done| |exact (counted_count _ _ _ _ (counts_cache _ _ _ _ C))].
  apply (content_upto uncounted); [done|apply C].
Qed.

(** Some buffer is not in use, and none is used so often that its count would overflow. *)
Definition has_free (s : st) : Prop := countable s ∧ ∃ i, field b_count (bufs (cache s)) i = Some 0.
Lemma has_free_same s s' :
  (∀ j, field b_count (bufs (cache s')) j = field b_count (bufs (cache s)) j) → has_free s → has_free s'.
Proof. intros E [Hc [i Hi]]. split; [intros j n; rewrite E; apply Hc|exists i; by rewrite E]. Qed.

Lemma has_free_available s dev blk : has_free s → available s dev blk.
Proof. intros [Hn (i & (b & Hb & Hc)%field_Some)]. split; [done|]. exists i, b. auto. Qed.

(** A buffer that has been taken and given back. *)
Lemma uses_back i s s1 s2 s3 :
  uses i 1 s s1 → (∀ j, field b_count (bufs (cache s2)) j = field b_count (bufs (cache s1)) j) →
  uses i (-1) s2 s3 → ∀ j, field b_count (bufs (cache s3)) j = field b_count (bufs (cache s)) j.
Proof.
  intros U1 E U3 j. rewrite U3, E, U1. destruct (field b_count (bufs (cache s)) j); simpl; [|done].
  case_decide; simpl; f_equal; lia.
Qed.

(** A block is got and put back around the steps of a client. *)
Lemma put_back s s1 s2 s3 bp :
  has_free s → uses bp 1 s s1 → (∀ j, field b_count (bufs (cache s2)) j = field b_count (bufs (cache s1)) j) →
  uses bp (-1) s2 s3 → has_free s3.
Proof. intros Hs U1 E U3. eapply has_free_same; [|exact Hs]. by apply (uses_back bp s s1 s2 s3). Qed.

(** * Storing into a buffer *)

Definition store_into (bp : nat) (b : buf) (d : list Z) (s : st) : st :=
  with_table (<[bp := b <| b_data := d |> <| b_dirt := DIRTY |>]> (bufs (cache s))) s.

(** The holder [bp] of a block changes it: the clients see the new contents of
    this block, and every other block as before. *)
Lemma store_into_ok s bp b d :
  cache_ok s → bufs (cache s) !! bp = Some b → b_dev b ≠ NO_DEV → page_ok d →
  cache_ok (store_into bp b d s).
Proof.
  intros [Ht HD Hco (l & ch & P)] Hb Hnz Hd. set (b' := b <| b_data := d |> <| b_dirt := DIRTY |>).
  destruct (co_wf _ _ _ _ Hco _ _ Hb) as [_ Hwf]. split; [done|done| |].
  - split.
    + intros i c Hc. apply list_lookup_insert_Some in Hc as [(-> & <- & _)|[_ Hc]].
      * by split.
      * by apply (co_wf _ _ _ _ Hco i).
    + intros i j dev blk c c' Hdev Hc Hc' Hn Hn'.
      apply list_lookup_insert_Some in Hc as [(<- & <- & _)|[Hi Hc]];
        apply list_lookup_insert_Some in Hc' as [(<- & <- & _)|[Hj Hc']]; [done|..];
        by eapply (co_unique _ _ _ _ Hco _ _ dev blk).
    + intros i c Hc. apply list_lookup_insert_Some in Hc as [(-> & <- & _)|[_ Hc]]; [done|].
      by apply (co_clean _ _ _ _ Hco i).
  - exists l, ch. apply (pool_ok_emptied _ (cache s)); try done. by eapply upto_insert.
Qed.

Lemma store_into_view s bp b d dev blk :
  cache_ok s → bufs (cache s) !! bp = Some b → b_dev b ≠ NO_DEV → page_ok d → dev ≠ NO_DEV →
  view t (kern (store_into bp b d s)) (bufs (cache (store_into bp b d s))) dev blk =
    if decide (named dev blk b) then take (Z.to_nat (dev_bs t dev)) d
    else view t (kern s) (bufs (cache s)) dev blk.
Proof.
  intros Hok Hb Hnz Hd Hdev. pose proof (store_into_ok s bp b d Hok Hb Hnz Hd) as Hok'.
  set (b' := b <| b_data := d |> <| b_dirt := DIRTY |>).
  assert (bufs (cache (store_into bp b d s)) = <[bp := b']> (bufs (cache s))) as E by done.
  rewrite E. pose proof (co_unique _ _ _ _ (ok_coherent _ Hok')) as Hu'. rewrite E in Hu'.
  assert (<[bp := b']> (bufs (cache s)) !! bp = Some b') as Hb'
    by (apply list_lookup_insert_eq; by eapply lookup_lt_Some).
  case_decide as Hn.
  - rewrite (view_cached _ _ _ bp b') by done. destruct Hn as [<- _]. done.
  - destruct (cached (bufs (cache s)) dev blk) as [c|] eqn:Ec.
    + destruct (cached_inv _ _ _ _ Ec) as (i & Hc & Hnc). assert (i ≠ bp) by congruence.
      rewrite (view_cached t (kern s) (bufs (cache s)) i c) by (done || apply Hok).
      apply (view_cached _ _ _ i); [done|done|by rewrite list_lookup_insert_ne|done].
    + unfold view at 2. rewrite Ec. rewrite cached_None in Ec. apply view_uncached.
      intros i c Hc Hnc. apply list_lookup_insert_Some in Hc as [(-> & <- & _)|[_ Hc]]; [done|].
      by apply (Ec i c).
Qed.
End spec.
