(* ===== verification/CacheContract.v ===== *)
(** The contract of the block cache, for its clients: every routine keeps
    [cache_ok], and what the clients see of the devices changes only when a
    client stores into a buffer. *)

From S2P Require Import Prelude Machine State Monad Process Device SuperTable Links Cache CacheInv DiskView Flush CacheSpec.

Section contract.
Context {cfg : Config} {krn : Kernel} {dk : Disk}.
Implicit Types (D : Z → Prop) (s : st).

(** What the cache depends on in the tables: the size of the blocks of a device
    and its driver. *)
Record same_geometry (t t' : tables) : Prop := {
  sg_bs dev : dev_bs t' dev = dev_bs t dev;
  sg_dmaps : dmaps t' = dmaps t
}.

Lemma disk_block_geometry t t' k dev blk :
  same_geometry t t' → disk_block t' k dev blk = disk_block t k dev blk.
Proof. intros [E1 E2]. unfold disk_block, drive. by rewrite E1, E2. Qed.

Lemma view_geometry t t' k l dev blk :
  same_geometry t t' → view t' k l dev blk = view t k l dev blk.
Proof.
  intros G. unfold view, block_data. rewrite (disk_block_geometry t t') by done.
  destruct (cached l dev blk) as [b|]; [|done]. by rewrite (sg_bs _ _ G).
Qed.

Lemma addressable_geometry t t' dev blk :
  same_geometry t t' → addressable t dev blk → addressable t' dev blk.
Proof. intros G. unfold addressable. by rewrite (sg_bs _ _ G). Qed.

Lemma cache_ok_geometry t t' D s s' :
  cache_ok t D s → same_geometry t t' → tabs s' = t' → cache s' = cache s → kern s' = kern s →
  cache_ok t' D s'.
Proof.
  intros [Ht HD [Hwf Hu Hcl] P] G Ht' Ec Ek. destruct HD as [Hok Hinj]. pose proof G as [Ebs E2].
  assert (∀ dev, drive t' dev = drive t dev) as Edr by (intros; unfold drive; by rewrite E2).
  split; [done| | |by rewrite Ec].
  - split.
    + intros dev [H1 H2 H3]%Hok. split; [done|by rewrite Ebs|by rewrite E2].
    + intros dev dev' Hd Hd'. rewrite !Edr. by apply Hinj.
  - rewrite Ec, Ek. split.
    + intros i b Hb. destruct (Hwf i b Hb) as [W1 W2]. split; [done|]. intros Hnz.
      destruct (W2 Hnz) as [W3 W4]. split; [done|]. by apply (addressable_geometry t).
    + done.
    + intros i b Hb Hnz Hd. rewrite (disk_block_geometry t t') by done. rewrite <- (Hcl i b) by done.
      unfold block_data. by rewrite Ebs.
Qed.

(** C1: [get_block(dev, block, NORMAL)] returns a buffer that is in use and holds the
    block as the clients of the cache see it, whether it was in the pool or had to be
    read after the oldest free buffer was evicted (and, if that was dirty, all the
    dirty blocks of its device were written). No block of any device changes for the
    clients, and the buffers in use stay as they are. Required: a buffer that holds
    the block or is not in use, and use counts below 127 (a count is a char). *)
Theorem get_block_contract D s dev blk :
  cache_ok (tabs s) D s → D dev → addressable (tabs s) dev blk → available s dev blk →
  wp (get_block dev blk NORMAL)
    (λ bp s', cache_ok (tabs s) D s' ∧ transparent (tabs s) D s s' ∧ keeps s s' ∧
       uses bp 1 s s' ∧ got (tabs s) s s' dev blk bp) s.
Proof. apply get_block_normal. Qed.

(** a [get_block] that finds neither its block nor a free buffer stops the
    server: it panics with the size of the pool and has changed nothing. *)
Theorem get_block_no_buffer s l ch dev blk mode :
  pool_ok None (cache s) l ch → dev ≠ NO_DEV →
  (∀ i b, bufs (cache s) !! i = Some b → 0 < b_count b ∧ ¬ named dev blk b) →
  get_block dev blk mode s = Panic (Z.of_nat NR_BUFS) s.
Proof.
  intros P Hdev Hall.
  assert (∀ i b, bufs (cache s) !! i = Some b → ¬ named dev blk b) as Hnew by apply Hall.
  pose proof (lookup_block_spec s l ch dev blk P Hdev) as H.
  apply wp_unfold in H as (r & s' & Hrun & -> & Hr).
  destruct r as [i|]; [destruct Hr as (b & Hb & Hn); by destruct (Hnew i b Hb)|].
  unfold get_block. unfold mbind at 1, M_bind at 1. rewrite Hrun.
  assert (l = []) as ->.
  { destruct l as [|i l]; [done|]. destruct (lru_lookup _ _ i (pool_lru _ _ _ _ P)) as [b Hb]; [by left|].
    destruct (pool_free _ _ _ _ P _ _ Hb) as [_ [Hf _]]. destruct (Hall i b Hb) as [? _].
    destruct Hf; [by left|lia]. }
  unfold evict. cbv [mbind M_bind rc gets]. by rewrite (lru_front _ _ (pool_lru _ _ _ _ P)).
Qed.

(** [put_block] takes back one use of a buffer and leaves everything else to
    the other holders: the clients see the same devices, no other use count
    changes, and the buffer keeps what it holds until it is evicted. *)
Theorem put_block_contract D s i b block_type :
  cache_ok (tabs s) D s → bufs (cache s) !! i = Some b → 0 < b_count b →
  has block_type WRITE_IMMED = false →
  wp (put_block (Some i) block_type)
    (λ _ s', cache_ok (tabs s) D s' ∧ transparent (tabs s) D s s' ∧
       content <$> bufs (cache s') = content <$> bufs (cache s) ∧ uses i (-1) s s') s.
Proof. apply put_block_ok. Qed.

(** Flushing a device, and what it leaves of each buffer. *)
Lemma flushall_ok D s dev :
  cache_ok (tabs s) D s → D dev →
  wp (flushall dev) (λ _ s', cache_ok (tabs s) D s' ∧ transparent (tabs s) D s s' ∧
    (∀ i b, bufs (cache s') !! i = Some b → b_dev b = dev → b_dirt b = CLEAN) ∧
    (∀ blk, disk_block (tabs s) (kern s') dev blk = view (tabs s) (kern s) (bufs (cache s)) dev blk) ∧
    (∀ dev' blk, D dev' → dev' ≠ dev →
       disk_block (tabs s) (kern s') dev' blk = disk_block (tabs s) (kern s) dev' blk) ∧
    (∀ i b', bufs (cache s') !! i = Some b' → ∃ b, bufs (cache s) !! i = Some b ∧ b_dev b' = b_dev b ∧
       b_count b' = b_count b ∧ (b_dirt b' = b_dirt b ∨ b_dirt b' = CLEAN))) s.
Proof.
  intros [_ HD Hco (l & ch & P)] Hdev. pose proof (pool_bufs _ _ _ _ P) as Hlen.
  pose proof (disk_dev _ _ (disks_ok _ _ HD _ Hdev)) as Hnz.
  eapply wp_mono; [by eapply flushall_spec|]. intros [] s' F.
  pose proof (flushes_transparent _ _ _ _ _ HD (co_unique _ _ _ _ Hco) F) as T.
  pose proof (flushes_pool_ok _ _ _ _ _ _ _ _ F P) as P'.
  destruct (flushes_same _ _ _ _ _ F) as [Ht _]. destruct F as (l' & k' & -> & Hl & F).
  pose proof (flushed_coherent _ _ _ _ _ _ _ F Hco) as Hco'.
  assert (∀ i b, l' !! i = Some b → b_dev b = dev → b_dirt b = CLEAN) as Hclean.
  { intros i b Hb Hbd. destruct (flushed_lookup _ _ _ _ _ _ _ _ _ F Hb) as (c & Hc & E1 & _ & _ & Hd).
    destruct Hd as [[E Hi]|[? _]]; [|done]. destruct (b_dirt b) eqn:Hd; [|done]. exfalso.
    apply Hi, dirty_bufs_elem; [done|]. exists c. split_and!; congruence. }
  split_and!; [split; [done|done|done|by exists l, ch]|done|done| | |].
  - intros blk. rewrite <- (tr_view _ _ _ _ T) by done. symmetry. unfold view. simpl.
    destruct (cached l' dev blk) as [b|] eqn:E; [|done].
    destruct (cached_inv _ _ _ _ E) as (i & Hb & E1 & E2). rewrite <- E1, <- E2.
    apply (co_clean _ _ _ _ Hco' i); [done|congruence|]. by eapply Hclean.
  - intros dev' blk HD' Hne. apply (fl_frame _ _ _ _ _ _ _ F); [done|].
    intros i b (b0 & Hb0 & _ & Hbd)%dirty_bufs_elem Hb [E _]; [|done]. congruence.
  - intros i b' Hb'. simpl in Hb'. rewrite (fl_bufs _ _ _ _ _ _ _ F) in Hb'. case_decide.
    + apply fmap_Some in Hb' as (b & Hb & ->). exists b. split_and!; [done..|by right].
    + exists b'. split_and!; [done..|by left].
Qed.

(** C2: [flushall(dev)] writes every dirty block of the device, however few blocks
    of a vector the driver takes at a time: afterwards no buffer of the device is
    dirty and the disk itself holds what the clients of the cache see.  Other
    disks are not written and the clients notice nothing. *)
Theorem flushall_contract D s dev :
  cache_ok (tabs s) D s → D dev →
  wp (flushall dev) (λ _ s', cache_ok (tabs s) D s' ∧ transparent (tabs s) D s s' ∧
    (∀ i b, bufs (cache s') !! i = Some b → b_dev b = dev → b_dirt b = CLEAN) ∧
    (∀ blk, disk_block (tabs s) (kern s') dev blk = view (tabs s) (kern s) (bufs (cache s)) dev blk) ∧
    (∀ dev' blk, D dev' → dev' ≠ dev →
       disk_block (tabs s) (kern s') dev' blk = disk_block (tabs s) (kern s) dev' blk)) s.
Proof.
  intros Hok Hdev. eapply wp_mono; [by apply (flushall_ok D)|].
  intros [] s' (H1 & H2 & H3 & H4 & H5 & _). done.
Qed.

(** * [buf_pool] and [invalidate] *)

(** Buffer [i] as [buf_pool] leaves it. *)
Definition pool_buf (i : nat) (b : buf) : buf :=
  let next := if decide (S i = NR_BUFS) then None else Some (S i) in
  b <| b_blocknr := NO_BLOCK |> <| b_dev := NO_DEV |> <| b_next := next |>
    <| b_prev := if decide (i = 0%nat) then None else Some (pred i) |> <| b_hash := next |>.

Definition pool_chains (h : nat) : list nat := if decide (h = 0%nat) then seq 0 NR_BUFS else [].

(** The assignments of [buf_pool], put together. *)
Lemma pool_imap (l : list buf) b0 bn :
  let f (i : nat) (b : buf) := b <| b_blocknr := NO_BLOCK |> <| b_dev := NO_DEV |>
    <| b_next := Some (S i) |> <| b_prev := Some (pred i) |> in
  length l = NR_BUFS → l !! 0%nat = Some b0 → l !! (NR_BUFS - 1)%nat = Some bn →
  imap (λ (_ : nat) (b : buf), b <| b_hash := b_next b |>)
    (<[(NR_BUFS - 1)%nat := (f (NR_BUFS - 1)%nat bn) <| b_next := None |>]>
       (<[0%nat := (f 0%nat b0) <| b_prev := None |>]> (imap f l))) = imap pool_buf l.
Proof.
  intros f Hlen H0 Hn. pose proof NR_BUFS_min. apply list_eq. intros i. rewrite !list_lookup_imap.
  destruct (decide (i = NR_BUFS - 1)%nat) as [->|Hi].
  - rewrite list_lookup_insert_eq, Hn by (rewrite length_insert, length_imap; lia). simpl.
    unfold pool_buf. rewrite decide_True, decide_False by lia. done.
  - rewrite list_lookup_insert_ne by done. destruct (decide (i = 0%nat)) as [->|Hi0].
    + rewrite list_lookup_insert_eq, H0 by (rewrite length_imap; lia). simpl.
      unfold pool_buf. rewrite decide_False, decide_True by lia. done.
    + rewrite list_lookup_insert_ne, list_lookup_imap by done.
      destruct (l !! i) as [b|] eqn:E; [|done]. simpl. unfold pool_buf.
      rewrite !decide_False; [done|done|]. lia.
Qed.

Lemma buf_pool_bufs s :
  length (bufs (cache s)) = NR_BUFS → is_Some (buf_hash (cache s) !! 0%nat) →
  wp buf_pool (λ _ s', same_rest s s' ∧ kern s' = kern s ∧
    bufs (cache s') = imap pool_buf (bufs (cache s)) ∧
    buf_hash (cache s') = <[0%nat := Some 0%nat]> (buf_hash (cache s)) ∧
    front (cache s') = Some 0%nat ∧ rear (cache s') = Some (NR_BUFS - 1)%nat ∧
    bufs_in_use (cache s') = 0) s.
Proof.
  intros Hlen Hhash. pose proof NR_BUFS_min. unfold buf_pool. wp_pure. wp_pure. set (s1 := s <| cache ::= _ |>).
  set (f := λ (i : nat) (b : buf), b <| b_blocknr := NO_BLOCK |> <| b_dev := NO_DEV |>
    <| b_next := Some (S i) |> <| b_prev := Some (pred i) |>).
  wp_pure. assert (NR_BUFS = length (table (T:=buf) s1)) as E1 by done.
  eapply wp_run; [rewrite E1 at 1; exact (for_each_wr f s1)|].
  change (table (T:=buf) s1) with (bufs (cache s)). set (l1 := imap f (bufs (cache s))).
  assert (∀ i, (i < NR_BUFS)%nat → ∃ b, bufs (cache s) !! i = Some b ∧ l1 !! i = Some (f i b)) as Hl1.
  { intros i Hi. destruct (lookup_lt_is_Some_2 (bufs (cache s)) i) as [b Hb]; [lia|].
    exists b. split; [done|]. unfold l1. by rewrite list_lookup_imap, Hb. }
  destruct (Hl1 0%nat) as (b0 & Hb0 & H0); [lia|].
  destruct (Hl1 (NR_BUFS - 1)%nat) as (bn & Hbn & Hn); [lia|].
  wp_pure. eapply wp_wr; [rewrite table_with; exact H0|]. rewrite table_with, with_table_twice.
  set (l2 := <[0%nat := _]> l1). wp_pure. eapply wp_wr.
  { rewrite table_with. unfold l2. rewrite list_lookup_insert_ne by lia. exact Hn. }
  rewrite table_with, with_table_twice. set (l3 := <[(NR_BUFS - 1)%nat := _]> l2).
  wp_pure. set (s3 := with_table l3 s1).
  assert (NR_BUFS = length (table (T:=buf) s3)) as E3.
  { change (table (T:=buf) s3) with l3. unfold l3, l2, l1. by rewrite !length_insert, length_imap. }
  eapply wp_run.
  { rewrite (for_each_ext _ _ (λ bp, wr bp ((λ (_ : nat) (b : buf), b <| b_hash := b_next b |>) bp)))
      by (intros; apply (rd_wr b_next (λ n (b : buf), b <| b_hash := n |>))).
    rewrite E3 at 1. apply (for_each_wr (λ (_ : nat) (b : buf), b <| b_hash := b_next b |>) s3). }
  set (s4 := with_table _ s3). destruct Hhash as [v Hv].
  eapply wp_mono; [apply (wr_hash_spec s4 0 (Some 0%nat) v); exact Hv|].
  intros [] s5 ([R Rk [_ Ef Er Eu _]] & Hb5 & Hh5). split_and!; try done.
  - by transitivity s4.
  - rewrite Hb5. change (bufs (cache s4)) with (imap (λ (_ : nat) (b : buf), b <| b_hash := b_next b |>) l3).
    by apply pool_imap.
Qed.

Lemma pool_buf_ok s s' :
  length (bufs (cache s)) = NR_BUFS →
  buf_hash (cache s) = replicate (Z.to_nat NR_BUF_HASH) None →
  (∀ i b, bufs (cache s) !! i = Some b → b_count b = 0) →
  bufs (cache s') = imap pool_buf (bufs (cache s)) →
  buf_hash (cache s') = <[0%nat := Some 0%nat]> (buf_hash (cache s)) →
  front (cache s') = Some 0%nat → rear (cache s') = Some (NR_BUFS - 1)%nat →
  bufs_in_use (cache s') = 0 →
  pool_ok None (cache s') (seq 0 NR_BUFS) pool_chains.
Proof.
  intros Hlen Hhash Hcount Hb Hh Hf Hr Hu. pose proof NR_BUFS_min. pose proof NR_BUF_HASH_pos.
  assert (∀ A (f : buf → A) i b, bufs (cache s) !! i = Some b →
    field f (bufs (cache s')) i = Some (f (pool_buf i b))) as Hfield.
  { intros A f i b Hi. unfold field. by rewrite Hb, list_lookup_imap, Hi. }
  assert (∀ i, (i < NR_BUFS)%nat → ∃ b, bufs (cache s) !! i = Some b) as Hex.
  { intros i Hi. apply lookup_lt_is_Some. lia. }
  assert (seg (field b_hash (bufs (cache s'))) (seq 0 NR_BUFS) None) as Hseg.
  { apply seg_seq. intros i Hi. destruct (Hex i) as [b Hbi]; [lia|]. by erewrite Hfield. }
  split.
  - by rewrite Hb, length_imap.
  - by rewrite Hh, length_insert, Hhash, length_replicate.
  - split; [apply NoDup_seq| | | |].
    + rewrite Hf. destruct NR_BUFS; [lia|done].
    + rewrite Hr. destruct NR_BUFS as [|n]; [lia|]. rewrite seq_S, last_snoc. f_equal. lia.
    + apply seg_seq. intros i Hi. destruct (Hex i) as [b Hbi]; [lia|]. by erewrite Hfield.
    + apply seg_seq_reverse. intros i Hi. destruct (Hex i) as [b Hbi]; [lia|]. by erewrite Hfield.
  - intros i b' Hb'. rewrite Hb, list_lookup_imap in Hb'.
    apply fmap_Some in Hb' as (b & Hbi & ->). change (b_count (pool_buf i b)) with (b_count b).
    rewrite (Hcount i b Hbi). split; [done|]. rewrite elem_of_seq. split; [done|].
    intros _. apply lookup_lt_Some in Hbi. lia.
  - rewrite Hu, length_seq. lia.
  - intros h Hlt. unfold pool_chains. case_decide as E.
    + subst h. split; [|apply NoDup_seq|done].
      rewrite Hh, list_lookup_insert_eq by (rewrite Hhash, length_replicate; lia).
      destruct NR_BUFS; [lia|done].
    + split; [|constructor|done]. rewrite Hh, list_lookup_insert_ne by done.
      rewrite Hhash. by apply lookup_replicate.
  - intros i b' h Hb' Hlt. rewrite Hb, list_lookup_imap in Hb'.
    apply fmap_Some in Hb' as (b & Hbi & ->). change (b_blocknr (pool_buf i b)) with NO_BLOCK.
    assert (hash NO_BLOCK = 0%nat) as -> by done. apply lookup_lt_Some in Hbi.
    unfold pool_chains. case_decide.
    + rewrite elem_of_seq. split; [done|lia].
    + split; [by intros ?%not_elem_of_nil|by intros [-> _]].
Qed.

(** [buf_pool], on the zeroed memory the server starts with, makes a pool that
    satisfies the invariant of the cache: all buffers are free, linked both ways in
    the order of the pool, on the chain of block 0, and none holds a block. *)
Theorem buf_pool_contract s :
  length (bufs (cache s)) = NR_BUFS →
  buf_hash (cache s) = replicate (Z.to_nat NR_BUF_HASH) None →
  (∀ i b, bufs (cache s) !! i = Some b → b_count b = 0) →
  wp buf_pool (λ _ s', same_rest s s' ∧
    pool_ok None (cache s') (seq 0 NR_BUFS) pool_chains ∧
    ∀ i b, bufs (cache s') !! i = Some b → b_dev b = NO_DEV) s.
Proof.
  intros Hlen Hhash Hcount. pose proof NR_BUF_HASH_pos. eapply wp_mono.
  { apply buf_pool_bufs; [done|]. rewrite Hhash. apply lookup_lt_is_Some. rewrite length_replicate. lia. }
  intros [] s' (R & _ & Hb & Hh & Hf & Hr & Hu). split_and!; [done|by eapply pool_buf_ok|].
  intros i b Hi. rewrite Hb, list_lookup_imap in Hi. by apply fmap_Some in Hi as (b0 & _ & ->).
Qed.

(** A buffer after [invalidate]. *)
Definition forget (dev : Z) (b : buf) : buf :=
  if b_dev b =? dev then b <| b_dev := NO_DEV |> else b.

Lemma invalidate_run s dev :
  length (bufs (cache s)) = NR_BUFS →
  invalidate dev s = Ret tt (with_table (imap (λ _, forget dev) (bufs (cache s))) s).
Proof.
  intros Hlen. unfold invalidate. rewrite <- Hlen.
  rewrite (for_each_ext _ _ (λ bp, wr bp ((λ _ : nat, forget dev) bp))) by
    (intros; apply (rd_when_wr b_dev (λ d, d =? dev) (λ b : buf, b <| b_dev := NO_DEV |>))).
  exact (for_each_wr (T:=buf) (λ _ : nat, forget dev) s).
Qed.

Lemma forget_lookup dev (l : list buf) i b' :
  imap (λ _, forget dev) l !! i = Some b' → ∃ b, l !! i = Some b ∧ b' = forget dev b.
Proof. rewrite list_lookup_imap. intros (b & Hb & ->)%fmap_Some. by exists b. Qed.

(** A block of another device has its buffer under the same name. *)
Lemma forget_named dev dev' blk b :
  dev' ≠ NO_DEV → named dev' blk (forget dev b) ↔ dev' ≠ dev ∧ named dev' blk b.
Proof.
  intros Hnz. unfold forget, named. destruct (Z.eqb_spec (b_dev b) dev) as [E|E].
  - split; [by intros [<- _]|]. intros [Hne [<- _]]. by destruct Hne.
  - split; [|by intros [_ ?]]. intros [<- H]. done.
Qed.

Lemma forget_content dev b : b_data (forget dev b) = b_data b.
Proof. unfold forget. by case_match. Qed.

Lemma forget_coherent t D k dev l :
  coherent t D k l → coherent t D k (imap (λ _, forget dev) l).
Proof.
  intros [Hwf Hu Hcl].
  assert (∀ b, b_dev (forget dev b) ≠ NO_DEV → forget dev b = b) as Hsame.
  { intros b. unfold forget. by case_match. }
  split.
  - intros i b' (b & Hb & ->)%forget_lookup. destruct (Hwf i b Hb) as [H1 H2]. split.
    + by rewrite forget_content.
    + intros Hnz. rewrite Hsame in * by done. by apply H2.
  - intros i j dv blk b b' Hnz (c & Hc & ->)%forget_lookup (c' & Hc' & ->)%forget_lookup Hn Hn'.
    apply forget_named in Hn as [_ Hn]; [|done]. apply forget_named in Hn' as [_ Hn']; [|done].
    by eapply Hu.
  - intros i b' (b & Hb & ->)%forget_lookup Hnz. rewrite Hsame in * by done. by apply (Hcl i).
Qed.

(** [invalidate(device)] makes the pool forget the device: no buffer holds a
    block of it any more, dirty or not, so that its clients see the disk itself;
    the blocks of the other devices stay. *)
Theorem invalidate_contract D s dev :
  cache_ok (tabs s) D s → dev ≠ NO_DEV →
  wp (invalidate dev) (λ _ s', cache_ok (tabs s) D s' ∧ same_rest s s' ∧
    (∀ blk, view (tabs s) (kern s') (bufs (cache s')) dev blk = disk_block (tabs s) (kern s) dev blk) ∧
    (∀ dev' blk, D dev' → dev' ≠ dev →
       view (tabs s) (kern s') (bufs (cache s')) dev' blk =
         view (tabs s) (kern s) (bufs (cache s)) dev' blk)) s.
Proof.
  intros [_ HD Hco (l & ch & P)] Hdev. set (s' := with_table (imap (λ _, forget dev) (bufs (cache s))) s).
  assert (bufs (cache s') = imap (λ _, forget dev) (bufs (cache s))) as Es' by done.
  pose proof (forget_coherent _ _ _ dev _ Hco) as Hco'. rewrite <- Es' in Hco'.
  eapply (wp_run _ _ _ tt s'); [by apply invalidate_run, P|].
  split_and!; [split; [done|done|done|]|by split| |].
  - exists l, ch. apply (pool_ok_emptied _ (cache s)); try done. rewrite Es'. unfold upto.
    apply list_eq. intros i. rewrite !list_lookup_fmap, list_lookup_imap.
    destruct (bufs (cache s) !! i) as [b|]; [|done]. simpl. unfold forget. by case_match.
  - intros blk. apply view_uncached. intros i b' Hb' Hn. rewrite Es' in Hb'.
    apply forget_lookup in Hb' as (b & _ & ->). by apply forget_named in Hn as [? _].
  - intros dev' blk HDdev Hne. pose proof (disk_dev _ _ (disks_ok _ _ HD _ HDdev)) as Hnz.
    destruct (cached (bufs (cache s)) dev' blk) as [b|] eqn:E.
    + destruct (cached_inv _ _ _ _ E) as (i & Hb & Hn).
      rewrite (view_cached (tabs s) (kern s) (bufs (cache s)) i b dev' blk) by (done || apply Hco).
      assert (forget dev b = b) as Hf.
      { unfold forget. destruct Hn as [-> _]. by apply Z.eqb_neq in Hne as ->. }
      apply (view_cached _ _ _ i); [apply Hco'|done| |done].
      rewrite Es', list_lookup_imap, Hb. simpl. by rewrite Hf.
    + unfold view at 2. rewrite E. rewrite cached_None in E. apply view_uncached.
      intros i b' Hb' Hn. rewrite Es' in Hb'. apply forget_lookup in Hb' as (b & Hb & ->).
      apply forget_named in Hn as [_ Hn]; [|done]. by apply (E i b).
Qed.
End contract.
