(* ===== verification/Bitmap.v ===== *)
(** super.c and the zone allocation of cache.c: the bit maps of inodes and
    zones, and reading a super block. *)

From S2P Require Import Prelude Machine State Monad Utility Device SuperTable Cache.

(** super.h *)
Inductive bit_map := IMAP | ZMAP.

(** const.h *)
Definition SUPER_MAGIC : Z := 4991.   (* 0x137F *)
Definition SUPER_V2 : Z := 9320.      (* 0x2468 *)
Definition SUPER_V3 : Z := 19802.     (* 0x4d5a *)
Definition SUPER_SIZE : Z := 76.      (* sizeof (struct super_block) *)
Definition V1_INODE_SIZE : Z := 32.
Definition V2_INODE_SIZE : Z := 64.

(** [for (i = 0; (k & (1 << i)) != 0; ++i) {}] on a 16-bit [k]. *)
Fixpoint lowest_clear (n : nat) (k i : Z) : Z :=
  match n with
  | O => i
  | S n => if Z.testbit k i then lowest_clear n k (i + 1) else i
  end.

(** The file system type that [magic] announces: version and byte order. *)
Definition super_type (magic : Z) : option (Z * bool) :=
  if (magic =? SUPER_MAGIC) || (magic =? conv2 false SUPER_MAGIC)
  then Some (V1, magic =? SUPER_MAGIC)
  else if (magic =? SUPER_V2) || (magic =? conv2 false SUPER_V2)
  then Some (V2, magic =? SUPER_V2)
  else if magic =? SUPER_V3 then Some (V3, true)
  else None.

Section bitmap.
Context {cfg : Config} {krn : Kernel}.

(** [struct super_block] overlaid on the first bytes of [d]. *)
Definition super_of_bytes (d : list Z) : option super_block :=
  let ld n off := default 0 (load_le n off d) in
  if decide (SUPER_SIZE ≤ Z.of_nat (length d)) then
    Some (SuperBlock (ld 4 0)%nat (ld 2 4)%nat (i16 (ld 2 6)%nat)
      (i16 (ld 2 8)%nat) (ld 2 10)%nat (i16 (ld 2 12)%nat) (ld 4 16)%nat
      (ld 4 20)%nat (i16 (ld 2 24)%nat) (ld 2 28)%nat (i8 (ld 1 30)%nat)
      (inode_at (ld 4 32)%nat) (inode_at (ld 4 36)%nat) (ld 4 40)%nat
      (i16 (ld 2 44)%nat) (i32 (ld 4 48)%nat) (i32 (ld 4 52)%nat)
      (i32 (ld 4 56)%nat) (i32 (ld 4 60)%nat) (i32 (ld 4 64)%nat)
      (ld 4 68)%nat (ld 4 72)%nat)
  else None.

(** The swap of the fields of a super block in the wrong byte order. *)
Definition convert_super (native : bool) (sp : super_block) : super_block :=
  sp <| s_ninodes ::= λ x, u32 (conv4 native (i32 x)) |>
     <| s_nzones ::= conv2 native |>
     <| s_imap_blocks ::= λ x, i16 (conv2 native x) |>
     <| s_zmap_blocks ::= λ x, i16 (conv2 native x) |>
     <| s_firstdatazone ::= conv2 native |>
     <| s_log_zone_size ::= λ x, i16 (conv2 native x) |>
     <| s_max_size ::= λ x, u32 (conv4 native (i32 x)) |>
     <| s_zones ::= λ x, u32 (conv4 native (i32 x)) |>.

(** The numbers that depend on the version. *)
Definition derive_super (version : Z) (sp : super_block) : super_block :=
  if version =? V1 then
    sp <| s_block_size := STATIC_BLOCK_SIZE |>
       <| s_zones := s_nzones sp |>
       <| s_inodes_per_block := V1_INODES_PER_BLOCK |>
       <| s_ndzones := V1_NR_DZONES |>
       <| s_nindirs := V1_INDIRECTS |>
  else
    let sp := if version =? V2 then sp <| s_block_size := STATIC_BLOCK_SIZE |> else sp in
    if s_block_size sp <? MIN_BLOCK_SIZE then sp
    else
      sp <| s_inodes_per_block := V2_INODES_PER_BLOCK (s_block_size sp) |>
         <| s_ndzones := V2_NR_DZONES |>
         <| s_nindirs := V2_INDIRECTS (s_block_size sp) |>.

Definition bad_block_size (b : Z) : bool :=
  (b <? MIN_BLOCK_SIZE) || (MAX_BLOCK_SIZE <? b) || negb (b mod 512 =? 0)
  || (b <? SUPER_SIZE) || negb (b mod V2_INODE_SIZE =? 0)
  || negb (b mod V1_INODE_SIZE =? 0).

Definition bad_geometry (sp : super_block) : bool :=
  (s_imap_blocks sp <? 1) || (s_zmap_blocks sp <? 1) || (s_ninodes sp <? 1)
  || (s_zones sp <? 1) || (4 <? u32 (s_log_zone_size sp)).

(** The checks and conversions of [read_super] on the image [sp] of the disk:
    the slot after the call, [s_dev] apart, and the result. *)
Definition check_super (sp : super_block) : super_block * Z :=
  match super_type (s_magic sp) with
  | None => (sp, EINVAL)
  | Some (version, native) =>
      let sp := derive_super version (convert_super native sp) in
      if bad_block_size (s_block_size sp) then (sp, EINVAL)
      else
        let sp := sp <| s_isearch := 0 |> <| s_zsearch := 0 |>
          <| s_version := version |> <| s_native := if native then 1 else 0 |> in
        (sp, if bad_geometry sp then EINVAL else OK)
  end.

Definition read_super (sp : nat) : M Z :=
  dev ← rd s_dev sp;
  if dev =? NO_DEV then panic NO_NUM
  else
    rv ← dev_io DEV_READ dev FS_PROC_NR 0
      [Iov (replicate (Z.to_nat MIN_BLOCK_SIZE) 0) MIN_BLOCK_SIZE]
      SUPER_BLOCK_BYTES MIN_BLOCK_SIZE 0;
    if negb (rv.1 =? MIN_BLOCK_SIZE) then mret EINVAL
    else
      d ← deref (head rv.2);
      x ← deref (super_of_bytes (iov_data d));
      let '(x, r) := check_super (x <| s_dev := NO_DEV |>) in
      wr sp (λ _, x);;
      when (r =? OK) (wr sp (λ x, x <| s_dev := dev |>));;
      mret r.

(** Fields of the union overlaid on the data of a buffer. *)
Definition load_buf (n off bp : nat) : M Z :=
  d ← rd b_data bp; deref (load_le n off d).
Definition store_buf (n off : nat) (v : Z) (bp : nat) : M unit :=
  d ← rd b_data bp;
  d' ← deref (store_le n off v d);
  wr bp (λ b, b <| b_data := d' |>).
Definition set_dirty (bp : nat) : M unit := wr bp (λ b, b <| b_dirt := DIRTY |>).

(** First block, number of bits and number of blocks of a map. *)
Definition map_geometry (sp : super_block) (map : bit_map) : Z * Z * Z :=
  match map with
  | IMAP => (START_BLOCK, u32 (s_ninodes sp + 1), u32 (s_imap_blocks sp))
  | ZMAP => (u32 (START_BLOCK + s_imap_blocks sp),
             u32 (s_zones sp - (s_firstdatazone sp - 1)), u32 (s_zmap_blocks sp))
  end.

(** The loop over the words of the map block [bp], which is block [block] of
    the map, from [word] on: [Some b] when bit [b] has been allocated.  [n]
    is the number of words left. *)
Fixpoint alloc_words (native : bool) (bits_per_block map_bits block : Z) (bp : nat)
    (n word : nat) : M (option Z) :=
  match n with
  | O => mret None
  | S n =>
      w ← load_buf 2 (2 * word) bp;
      if w =? 65535 then alloc_words native bits_per_block map_bits block bp n (S word)
      else
        let k := conv2 native w in
        let i := lowest_clear 16 k 0 in
        let b := u32 (block * bits_per_block + Z.of_nat word * FS_BITCHUNK_BITS + i) in
        if map_bits <=? b then mret None
        else
          store_buf 2 (2 * word) (conv2 native (u16 (Z.lor k (Z.shiftl 1 i)))) bp;;
          set_dirty bp;;
          mret (Some b)
  end.

Definition alloc_bit (sp : nat) (map : bit_map) (origin : Z) : M Z :=
  x ← rd (λ x, x) sp;
  if truth (s_rd_only x) then panic NO_NUM
  else
    let '(start_block, map_bits, bit_blocks) := map_geometry x map in
    let bpb := FS_BITS_PER_BLOCK (s_block_size x) in
    let chunks := Z.to_nat (FS_BITMAP_CHUNKS (s_block_size x)) in
    let native := truth (s_native x) in
    let origin := if map_bits <=? origin then 0 else origin in
    if bpb =? 0 then fault
    else
      loop (S (Z.to_nat bit_blocks)) (λ '(block, word, bcount),
        bp ← get_block (s_dev x) (u32 (start_block + block)) NORMAL;
        b ← alloc_words native bpb map_bits block bp (chunks - word) word;
        put_block (Some bp) MAP_BLOCK;;
        match b with
        | Some b => mret (inr b)
        | None =>
            let block := u32 (block + 1) in
            let block := if bit_blocks <=? block then 0 else block in
            let bcount := u32 (bcount - 1) in
            if 0 <? bcount then mret (inl (block, O, bcount)) else mret (inr NO_BIT)
        end)
        (origin / bpb, Z.to_nat (origin mod bpb / FS_BITCHUNK_BITS), u32 (bit_blocks + 1)).

Definition free_bit (sp : nat) (map : bit_map) (bit_returned : Z) : M unit :=
  x ← rd (λ x, x) sp;
  if truth (s_rd_only x) then panic NO_NUM
  else
    let start_block := (map_geometry x map).1.1 in
    let bpb := FS_BITS_PER_BLOCK (s_block_size x) in
    let native := truth (s_native x) in
    if bpb =? 0 then fault
    else
      let block := bit_returned / bpb in
      let word := Z.to_nat (bit_returned mod bpb / FS_BITCHUNK_BITS) in
      let mask := Z.shiftl 1 (bit_returned mod FS_BITCHUNK_BITS) in
      bp ← get_block (s_dev x) (u32 (start_block + block)) NORMAL;
      w ← load_buf 2 (2 * word) bp;
      let k := conv2 native w in
      if negb (has k mask) then panic NO_NUM
      else
        store_buf 2 (2 * word) (conv2 native (Z.ldiff k mask)) bp;;
        set_dirty bp;;
        put_block (Some bp) MAP_BLOCK.

(** cache.c *)
Definition alloc_zone (dev z : Z) : M Z :=
  sp ← get_super dev;
  x ← rd (λ x, x) sp;
  let bit := if z =? s_firstdatazone x then s_zsearch x
             else u32 (z - (s_firstdatazone x - 1)) in
  b ← alloc_bit sp ZMAP bit;
  if b =? NO_BIT then set_err ENOSPC;; mret NO_ZONE
  else
    when (z =? s_firstdatazone x) (wr sp (λ x, x <| s_zsearch := b |>));;
    mret (u32 (s_firstdatazone x - 1 + b)).

Definition free_zone (dev numb : Z) : M unit :=
  sp ← get_super dev;
  x ← rd (λ x, x) sp;
  if (numb <? s_firstdatazone x) || (s_zones x <=? numb) then mret tt
  else
    let bit := u32 (numb - (s_firstdatazone x - 1)) in
    free_bit sp ZMAP bit;;
    wr sp (λ x, if bit <? s_zsearch x then x <| s_zsearch := bit |> else x).
End bitmap.
