(* ===== verification/BitmapSpec.v ===== *)
(** The bit maps of super.c against the view of a device: the bits of a block
    of a map, what storing a word does to them, and [alloc_bit] and [free_bit]
    as operations on the map as a whole. *)

From S2P Require Import Prelude Machine State Monad Utility SuperTable Cache CacheInv DiskView Flush CacheSpec CacheContract Bitmap.

(** * The bits of a block *)

(** Bit [i] of a map block, whose 16-bit words are in the byte order of the
    file system. *)
Definition map_bit (native : bool) (d : list Z) (i : Z) : bool :=
  match load_le 2 (2 * Z.to_nat (i / 16)) d with
  | Some w => Z.testbit (conv2 native w) (i mod 16)
  | None => false
  end.

Lemma lowest_clear_spec n k i :
  0 ≤ i → let r := lowest_clear n k i in
  i ≤ r ≤ i + Z.of_nat n ∧ (∀ j, i ≤ j < r → Z.testbit k j = true) ∧
  (r < i + Z.of_nat n → Z.testbit k r = false).
Proof.
  revert i. induction n as [|n IH]; intros i Hi; simpl; [split_and!; [lia..|intros; lia|lia]|].
  destruct (Z.testbit k i) eqn:E.
  - destruct (IH (i + 1)) as (H1 & H2 & H3); [lia|]. split_and!; [lia..| |].
    + intros j Hj. destruct (decide (j = i)) as [->|]; [done|]. apply H2. lia.
    + intros H. apply H3. lia.
  - split_and!; [lia..|intros; lia|done].
Qed.

Lemma conv2_ones native w : 0 ≤ w < 2 ^ 16 → conv2 native w = 65535 ↔ w = 65535.
Proof.
  intros Hw. split; [|by intros ->; destruct native].
  intros E. apply (f_equal (conv2 native)) in E. rewrite conv2_twice, Z.mod_small in E by done.
  rewrite E. by destruct native.
Qed.

(** A 16-bit word that is not full has a clear bit. *)
Lemma lowest_clear_16 native w :
  0 ≤ w < 2 ^ 16 → w ≠ 65535 → let r := lowest_clear 16 (conv2 native w) 0 in
  0 ≤ r < 16 ∧ (∀ j, 0 ≤ j < r → Z.testbit (conv2 native w) j = true) ∧
  Z.testbit (conv2 native w) r = false.
Proof.
  intros Hw Hne r. destruct (lowest_clear_spec 16 (conv2 native w) 0) as (H1 & H2 & H3); [lia|].
  fold r in H1, H2, H3. cut (r ≠ 16); [intros Hr; split_and!; [lia..|done|apply H3; lia]|].
  intros Hr. apply Hne, (conv2_ones native); [done|].
  pose proof (conv2_range native w) as Hk. apply Z.bits_inj'. intros j Hj.
  change 65535 with (Z.ones 16). destruct (decide (j < 16)).
  - rewrite H2, Z.ones_spec_low by lia. done.
  - rewrite Z.ones_spec_high by lia. apply Z.bits_above_log2; [lia|].
    destruct (decide (conv2 native w = 0)) as [->|]; [simpl; lia|].
    apply Z.log2_lt_pow2; [lia|]. assert (2 ^ 16 ≤ 2 ^ j) by (apply Z.pow_le_mono_r; lia). lia.
Qed.

(** Storing a word changes its 16 bits only. *)
Lemma map_bit_store native word k d d' i :
  store_le 2 (2 * word) (conv2 native k) d = Some d' → 0 ≤ k < 2 ^ 16 → 0 ≤ i →
  map_bit native d' i =
    if decide (Z.to_nat (i / 16) = word) then Z.testbit k (i mod 16) else map_bit native d i.
Proof.
  intros Hd Hk Hi. unfold map_bit. case_decide as Hw.
  - rewrite Hw, (load_store_eq _ _ _ _ _ Hd). change (Z.of_nat 2 * 8) with 16.
    pose proof (conv2_range native k). rewrite Z.mod_small by done.
    by rewrite conv2_twice, Z.mod_small.
  - rewrite (load_store_ne _ _ _ _ _ 2 (2 * Z.to_nat (i / 16)) Hd) by lia. done.
Qed.

Lemma map_bit_word native word w d i :
  load_le 2 (2 * word) d = Some w → Z.to_nat (i / 16) = word →
  map_bit native d i = Z.testbit (conv2 native w) (i mod 16).
Proof. intros Hw E. unfold map_bit. by rewrite E, Hw. Qed.

Lemma map_bit_set native word w d d' i :
  load_le 2 (2 * word) d = Some w → 0 ≤ i < 16 →
  store_le 2 (2 * word) (conv2 native (u16 (Z.lor (conv2 native w) (Z.shiftl 1 i)))) d = Some d' →
  ∀ j, 0 ≤ j → map_bit native d' j =
    if decide (j = 16 * Z.of_nat word + i) then true else map_bit native d j.
Proof.
  intros Hw Hi Hd j Hj. pose proof (conv2_range native w) as Hk.
  rewrite (map_bit_store _ _ _ _ _ _ Hd (u16_range _) Hj). case_decide as Hwd.
  - rewrite (map_bit_word native word w d j Hw Hwd). unfold u16.
    rewrite Z.mod_pow2_bits_low by zlia. rewrite Z.lor_spec, Z.shiftl_1_l, Z.pow2_bits_eqb by lia.
    case_decide as Hj'.
    + rewrite (proj2 (Z.eqb_eq i (j mod 16))) by zlia. apply orb_true_r.
    + rewrite (proj2 (Z.eqb_neq i (j mod 16))) by zlia. apply orb_false_r.
  - rewrite decide_False; [done|]. intros ->. apply Hwd. zlia.
Qed.

Lemma map_bit_clear native word w d d' i :
  load_le 2 (2 * word) d = Some w → 0 ≤ i < 16 →
  store_le 2 (2 * word) (conv2 native (Z.ldiff (conv2 native w) (Z.shiftl 1 i))) d = Some d' →
  ∀ j, 0 ≤ j → map_bit native d' j =
    if decide (j = 16 * Z.of_nat word + i) then false else map_bit native d j.
Proof.
  intros Hw Hi Hd j Hj. pose proof (conv2_range native w) as Hk.
  assert (0 ≤ Z.ldiff (conv2 native w) (Z.shiftl 1 i) < 2 ^ 16) as Hr.
  { rewrite Z.ldiff_land, Z.land_comm.
    pose proof (land_bound (Z.lnot (Z.shiftl 1 i)) (conv2 native w)). lia. }
  rewrite (map_bit_store _ _ _ _ _ _ Hd Hr Hj). case_decide as Hwd.
  - rewrite (map_bit_word native word w d j Hw Hwd).
    rewrite Z.ldiff_spec, Z.shiftl_1_l, Z.pow2_bits_eqb by lia. case_decide as Hj'.
    + rewrite (proj2 (Z.eqb_eq i (j mod 16))) by zlia. apply andb_false_r.
    + rewrite (proj2 (Z.eqb_neq i (j mod 16))) by zlia. apply andb_true_r.
  - rewrite decide_False; [done|]. intros ->. apply Hwd. zlia.
Qed.

Section spec.
Context {cfg : Config} {krn : Kernel} {dk : Disk}.
Implicit Types (s : st) (bp : nat).

Lemma page_ok_store n off v d d' : store_le n off v d = Some d' → page_ok d → page_ok d'.
Proof.
  intros E [Hl Hd]. split; [by rewrite (length_store_le _ _ _ _ _ E)|].
  eapply splice_bytes_ok; [exact E|apply le_bytes_ok|done].
Qed.

(** Storing a field of the block in a buffer and marking the buffer dirty. *)
Lemma store_dirty_spec {A} n off v bp b d' (m : M A) Q s :
  bufs (cache s) !! bp = Some b → store_le n off v (b_data b) = Some d' →
  wp m Q (store_into bp b d' s) → wp (store_buf n off v bp;; set_dirty bp;; m) Q s.
Proof.
  intros Hb Hd HQ. unfold store_buf, set_dirty.
  assert (bp < length (bufs (cache s)))%nat by by eapply lookup_lt_Some.
  wp_pure. wp_pure. wp_rd. wp_pure. eapply wp_deref; [exact Hd|]. wp_wr.
  wp_pure. apply wp_wr_with; [done|]. exact HQ.
Qed.

Lemma load_buf_spec n off bp b Q s v :
  bufs (cache s) !! bp = Some b → load_le n off (b_data b) = Some v → Q v s →
  wp (load_buf n off bp) Q s.
Proof. intros Hb Hv HQ. unfold load_buf. wp_pure. wp_rd. by eapply wp_deref. Qed.

(** The search of a block for a clear bit, from [word] on. *)
Lemma alloc_words_spec native bpb map_bits block bp n word s b :
  bufs (cache s) !! bp = Some b → page_ok (b_data b) →
  (2 * (word + n) ≤ length (b_data b))%nat → 0 ≤ block * bpb →
  block * bpb + 16 * Z.of_nat (word + n) ≤ 2 ^ 32 →
  wp (alloc_words native bpb map_bits block bp n word) (λ r s', match r with
    | None => s' = s ∧ ∀ i, 16 * Z.of_nat word ≤ i < 16 * Z.of_nat (word + n) →
        block * bpb + i < map_bits → map_bit native (b_data b) i = true
    | Some v => ∃ i d', v = block * bpb + i ∧ 16 * Z.of_nat word ≤ i < 16 * Z.of_nat (word + n) ∧
        v < map_bits ∧ map_bit native (b_data b) i = false ∧
        s' = store_into bp b d' s ∧ page_ok d' ∧
        ∀ j, 0 ≤ j → map_bit native d' j = if decide (j = i) then true else map_bit native (b_data b) j
    end) s.
Proof.
  intros Hb Hpage. revert word. induction n as [|n IH]; intros word Hlen Hblk Hmax; cbn [alloc_words].
  { wp_pure. split; [done|]. intros i Hi. lia. }
  destruct (load_le_is_Some 2 (2 * word) (b_data b)) as [w Hw]; [lia|].
  pose proof (load_le_range _ _ _ _ (proj2 Hpage) Hw) as Hrange. change (8 * Z.of_nat 2) with 16 in Hrange.
  wp_pure. eapply load_buf_spec; [exact Hb|exact Hw|].
  assert (∀ i, 16 * Z.of_nat word ≤ i < 16 * Z.of_nat (S word) →
    map_bit native (b_data b) i = Z.testbit (conv2 native w) (i mod 16)) as Hbit.
  { intros i Hi. unfold map_bit. replace (Z.to_nat (i / 16)) with word by zlia. by rewrite Hw. }
  destruct (Z.eqb_spec w 65535) as [->|Hne].
  - eapply wp_mono; [apply IH; lia|]. intros [v|] s'.
    + intros (i & d' & ? & ? & ?). exists i, d'. split; [done|]. split; [lia|done].
    + intros [-> H]. split; [done|]. intros i Hi Hm. destruct (decide (i < 16 * Z.of_nat (S word))).
      * rewrite Hbit by lia. assert (conv2 native 65535 = Z.ones 16) as -> by by destruct native.
        apply Z.ones_spec_low. apply Z.mod_pos_bound. lia.
      * apply H; lia.
  - destruct (lowest_clear_16 native w Hrange Hne) as (Hi & Hset & Hclear).
    set (i := lowest_clear 16 (conv2 native w) 0) in *. unfold FS_BITCHUNK_BITS.
    rewrite u32_id by lia.
    destruct (Z.leb_spec map_bits (block * bpb + Z.of_nat word * 16 + i)) as [Hge|Hlt].
    + wp_pure. split; [done|]. intros j Hj Hm. rewrite Hbit by lia. apply Hset. zlia.
    + destruct (store_le_is_Some 2 (2 * word)
        (conv2 native (u16 (Z.lor (conv2 native w) (Z.shiftl 1 i)))) (b_data b)) as [d' Hd']; [lia|].
      eapply store_dirty_spec; [exact Hb|exact Hd'|]. wp_pure.
      exists (16 * Z.of_nat word + i), d'. split_and!; [lia|lia|lia|lia| |done| |].
      * rewrite Hbit by lia. by replace ((16 * Z.of_nat word + i) mod 16) with i by zlia.
      * by eapply page_ok_store.
      * by apply (map_bit_set native word w).
Qed.

(** * The map as a whole *)

Lemma map_bit_take native m d i :
  (2 * Z.to_nat (i / 16) + 2 ≤ m)%nat → map_bit native (take m d) i = map_bit native d i.
Proof.
  intros Hm. unfold map_bit, load_le, slice. rewrite length_take.
  repeat case_decide; try lia; [|done]. simpl. rewrite skipn_firstn_comm, take_take.
  by rewrite Nat.min_l by lia.
Qed.

Definition map_start (x : super_block) (map : bit_map) : Z := (map_geometry x map).1.1.
Definition map_size (x : super_block) (map : bit_map) : Z := (map_geometry x map).1.2.
Definition map_blocks (x : super_block) (map : bit_map) : Z := (map_geometry x map).2.
Definition bits_per_block (x : super_block) : Z := FS_BITS_PER_BLOCK (s_block_size x).

(** Bit [n] of a map of the file system with super block [x], as the clients of
    the cache see it. *)
Definition bit_at (s : st) (x : super_block) (map : bit_map) (n : Z) : bool :=
  map_bit (truth (s_native x))
    (view (tabs s) (kern s) (bufs (cache s)) (s_dev x) (map_start x map + n / bits_per_block x))
    (n mod bits_per_block x).

(** The map lies on the device, and has a bit for every inode or zone. *)
Record map_ok (t : tables) (D : Z → Prop) (x : super_block) (map : bit_map) : Prop := {
  mo_dev : D (s_dev x);
  mo_bs : s_block_size x = dev_bs t (s_dev x);
  mo_even : s_block_size x mod 2 = 0;
  mo_size : 0 < map_size x map ≤ map_blocks x map * bits_per_block x;
  mo_max : map_blocks x map * bits_per_block x ≤ 2 ^ 32;
  mo_blocks j : 0 ≤ j < map_blocks x map → addressable t (s_dev x) (map_start x map + j)
}.

Lemma bits_per_block_eq x : s_block_size x mod 2 = 0 → bits_per_block x = 8 * s_block_size x.
Proof. unfold bits_per_block, FS_BITS_PER_BLOCK, FS_BITMAP_CHUNKS, FS_BITCHUNK_BITS. zlia. Qed.

Section map.
Context (t : tables) (D : Z → Prop) (x : super_block) (map : bit_map).
Hypothesis Hmap : map_ok t D x map.
#[local] Abbreviation bpb := (bits_per_block x).
#[local] Abbreviation native := (truth (s_native x)).

Lemma map_bpb : disks t D → bpb = 8 * s_block_size x ∧ 8192 ≤ bpb ∧ s_block_size x ≤ MAX_BLOCK_SIZE ∧
  Z.of_nat (Z.to_nat (FS_BITMAP_CHUNKS (s_block_size x))) * 16 = bpb.
Proof using Hmap.
  intros HD. destruct (disk_bs _ _ (disks_ok _ _ HD _ (mo_dev _ _ _ _ Hmap))) as [Hmin Hmax].
  rewrite <- (mo_bs _ _ _ _ Hmap) in Hmin, Hmax. unfold MIN_BLOCK_SIZE in Hmin.
  pose proof (mo_even _ _ _ _ Hmap) as He. pose proof (bits_per_block_eq _ He) as E.
  unfold FS_BITMAP_CHUNKS. split_and!; [done|lia|done|]. rewrite E. zlia.
Qed.

Lemma addressable_u32 blk : disks t D → addressable t (s_dev x) blk → 0 ≤ blk < 2 ^ 32.
Proof using Hmap.
  intros HD [? ?]. destruct (disk_bs _ _ (disks_ok _ _ HD _ (mo_dev _ _ _ _ Hmap))) as [Hmin _].
  unfold MIN_BLOCK_SIZE in Hmin. split; [done|nia].
Qed.

(** The bits of one map block of the clients' view. *)
Lemma bit_at_block s d n :
  tabs s = t → 0 ≤ n → 
  view t (kern s) (bufs (cache s)) (s_dev x) (map_start x map + n / bpb) =
    take (Z.to_nat (dev_bs t (s_dev x))) d →
  disks t D → bit_at s x map n = map_bit native d (n mod bpb).
Proof using Hmap.
  intros Ht Hn Hv HD. destruct (map_bpb HD) as (E & Hmin & _ & Hch). unfold bit_at.
  rewrite Ht, Hv. apply map_bit_take. rewrite <- (mo_bs _ _ _ _ Hmap).
  pose proof (Z.mod_pos_bound n bpb). pose proof (mo_even _ _ _ _ Hmap). zlia.
Qed.

(** A buffer of the map in the hands of a client. *)
Definition holds_map (s s1 : st) (block : Z) (bp : nat) (b : buf) : Prop :=
  cache_ok t D s1 ∧ transparent t D s s1 ∧ bufs (cache s1) !! bp = Some b ∧
  named (s_dev x) (map_start x map + block) b ∧
  block_data t b = view t (kern s) (bufs (cache s)) (s_dev x) (map_start x map + block).

Lemma holds_bits s s1 block bp b n :
  tabs s = t → disks t D → holds_map s s1 block bp b → 0 ≤ n → n / bpb = block →
  bit_at s x map n = map_bit native (b_data b) (n mod bpb).
Proof using Hmap.
  intros Ht HD (_ & _ & _ & [E _] & Hdata) Hn Hblk.
  apply bit_at_block; [done|done| |done]. rewrite Hblk, <- Hdata. unfold block_data. by rewrite E.
Qed.

(** Bit [v] of the map becomes [val]; no other bit and no block outside the map
    changes. *)
Record bit_changed (s s' : st) (v : Z) (val : bool) : Prop := {
  bc_rest : same_rest s s';
  bc_bits n : 0 ≤ n → bit_at s' x map n = if decide (n = v) then val else bit_at s x map n;
  bc_frame dev blk : D dev →
    dev ≠ s_dev x ∨ blk < map_start x map ∨ map_start x map + map_blocks x map ≤ blk →
    view t (kern s') (bufs (cache s')) dev blk = view t (kern s) (bufs (cache s)) dev blk
}.

(** The holder of a map block changes bit [i] of it to [v] and puts it back. *)
Lemma store_bits s s1 s3 block bp b d i v :
  cache_ok t D s → holds_map s s1 block bp b → page_ok d →
  transparent t D (store_into bp b d s1) s3 → 0 ≤ block < map_blocks x map → 0 ≤ i < bpb →
  (∀ j, 0 ≤ j → map_bit native d j = if decide (j = i) then v else map_bit native (b_data b) j) →
  bit_changed s s3 (block * bpb + i) v.
Proof using Hmap.
  intros Hok Hh Hpage T3 Hblock Hi Hd. pose proof (ok_tabs _ _ _ Hok) as Ht.
  pose proof (ok_disks _ _ _ Hok) as HD. destruct (map_bpb HD) as (Ebpb & Hmin & _).
  pose proof (mo_dev _ _ _ _ Hmap) as Hdev.
  pose proof (disk_dev _ _ (disks_ok _ _ HD _ Hdev)) as Hnz.
  pose proof Hh as (Hok1 & T1 & Hb & [Eb1 Eb2] & _).
  assert (tabs s3 = t) as Ht3 by (rewrite (same_tabs _ _ (tr_rest _ _ _ _ T3)); apply Hok1).
  assert (∀ dev blk, D dev → view t (kern s3) (bufs (cache s3)) dev blk =
    if decide (named dev blk b) then take (Z.to_nat (dev_bs t dev)) d
    else view t (kern s) (bufs (cache s)) dev blk) as Hview.
  { intros dev blk HDdev. rewrite <- (tr_view _ _ _ _ T1), (tr_view _ _ _ _ T3) by done.
    apply (store_into_view t D); [done|done|congruence|done|by apply (disks_ok _ _ HD)]. }
  split; [etrans; [apply T1|etrans; [|apply T3]]; by split| |].
  - intros n Hn. specialize (Hview (s_dev x) (map_start x map + n / bpb) Hdev).
    pose proof (Z.mod_pos_bound n bpb). pose proof (Z.div_mod n bpb).
    destruct (decide (n / bpb = block)) as [Hblk|Hblk].
    + rewrite decide_True in Hview by (by rewrite Hblk).
      rewrite (bit_at_block s3 d n Ht3 Hn Hview HD), Hd by lia.
      rewrite <- (holds_bits s s1 block bp b n Ht HD Hh Hn Hblk).
      repeat case_decide; try done; nia.
    + rewrite decide_False in Hview by (intros [_ E]; lia).
      rewrite decide_False by (intros ->; apply Hblk; rewrite Z.div_add_l, Z.div_small; lia).
      unfold bit_at. by rewrite Ht3, Ht, Hview.
  - intros dev blk HDdev Hout. rewrite Hview, decide_False; [done| |done].
    intros [E1 E2]. rewrite Eb1 in E1. destruct Hout as [?|?]; [congruence|lia].
Qed.

(** One block of the search: the block is got, searched from [word] on, and
    put back. *)
Lemma alloc_round_spec {A} s block word (k : option Z → M A) (Q : A → st → Prop) :
  cache_ok t D s → has_free s → disks t D →
  0 ≤ block < map_blocks x map → (word ≤ Z.to_nat (FS_BITMAP_CHUNKS (s_block_size x)))%nat →
  (∀ s', cache_ok t D s' → has_free s' → transparent t D s s' →
     (∀ n, 0 ≤ n < map_size x map → n / bpb = block → 16 * Z.of_nat word ≤ n mod bpb →
        bit_at s x map n = true) → wp (k None) Q s') →
  (∀ s' v, cache_ok t D s' → has_free s' → 0 ≤ v < map_size x map →
     bit_at s x map v = false → bit_changed s s' v true → wp (k (Some v)) Q s') →
  wp (bp ← get_block (s_dev x) (u32 (map_start x map + block)) NORMAL;
      b ← alloc_words native bpb (map_size x map) block bp
            (Z.to_nat (FS_BITMAP_CHUNKS (s_block_size x)) - word) word;
      put_block (Some bp) MAP_BLOCK;; k b) Q s.
Proof using Hmap.
  intros Hok Hfree HD Hblock Hword HNone HSome.
  pose proof (mo_blocks _ _ _ _ Hmap _ Hblock) as Hadd. pose proof (mo_dev _ _ _ _ Hmap) as Hdev.
  destruct (map_bpb HD) as (Ebpb & Hmin & Hmax & Hch). set (chunks := Z.to_nat _) in *.
  pose proof (ok_tabs _ _ _ Hok) as Ht.
  rewrite u32_id by by apply addressable_u32.
  wp_pure. eapply wp_mono; [apply (get_block_normal t D); [done|done|done|by apply has_free_available]|].
  intros bp s1 (Hok1 & T1 & K1 & U1 & b & Hb & Hn & Hc & Hdata).
  pose proof (co_wf _ _ _ _ (ok_coherent _ _ _ Hok1) bp b Hb) as [Hpage _].
  pose proof Hpage as [Hlen _].
  assert (holds_map s s1 block bp b) as Hh by done.
  wp_pure. eapply wp_mono; [apply (alloc_words_spec native bpb _ block bp _ word s1 b Hb Hpage)|].
  { lia. } { nia. } { pose proof (mo_max _ _ _ _ Hmap). nia. }
  replace (word + (chunks - word))%nat with chunks by lia. intros [v|] s2.
  - intros (i & d' & -> & Hi & Hv & Hclear & -> & Hpage' & Hset).
    assert (b_dev b ≠ NO_DEV) as Hnz by (destruct Hn as [-> _]; by apply (disks_ok _ _ HD)).
    pose proof (store_into_ok t D s1 bp b d' Hok1 Hb Hnz Hpage') as Hok2.
    wp_pure. eapply wp_mono.
    { eapply (put_block_ok t D _ bp (b <| b_data := d' |> <| b_dirt := DIRTY |>)); [exact Hok2| |exact Hc|done].
      apply list_lookup_insert_eq. by eapply lookup_lt_Some. }
    intros [] s3 (Hok3 & T3 & _ & U3). apply HSome; [done| |nia| |].
    + apply (put_back s s1 (store_into bp b d' s1) s3 bp Hfree U1); [|done].
      intros j'. simpl. by rewrite (field_insert_same _ _ _ b).
    + rewrite (holds_bits s s1 block bp b _ Ht HD Hh); [|nia|rewrite Z.div_add_l, Z.div_small; lia].
      by replace ((block * bpb + i) mod bpb) with i by (rewrite Z.add_comm, Z.mod_add, Z.mod_small; lia).
    + apply (store_bits s s1 s3 block bp b d' i true); try done; lia.
  - intros [-> Hfull]. wp_pure. eapply wp_mono.
    { eapply (put_block_ok t D); [done|exact Hb|done|done]. }
    intros [] s3 (Hok3 & T3 & _ & U3). apply HNone; [done| |by etrans|].
    + by apply (put_back s s1 s1 s3 bp).
    + intros n Hn' Hnb Hnw. rewrite (holds_bits s s1 block bp b n Ht HD Hh) by lia.
      pose proof (Z.mod_pos_bound n bpb). pose proof (Z.div_mod n bpb). apply Hfull; nia.
Qed.
Lemma transparent_bit s s' n :
  disks t D → tabs s = t → transparent t D s s' → bit_at s' x map n = bit_at s x map n.
Proof using Hmap.
  intros HD Ht T. unfold bit_at. rewrite (same_tabs _ _ (tr_rest _ _ _ _ T)), Ht.
  by rewrite (tr_view _ _ _ _ T) by apply Hmap.
Qed.

(** * [alloc_bit] *)

(** The search has gone through [c] blocks from [b0] on, in a circle, and found
    the map full in all of them but, perhaps, the first. *)
Record searched (s0 s : st) (b0 : Z) (w0 : nat) (block : Z) (word : nat) (bcount c : Z) : Prop := {
  se_ok : cache_ok t D s;
  se_free : has_free s;
  se_same : transparent t D s0 s;
  se_c : 0 ≤ c ≤ map_blocks x map;
  se_bcount : bcount = map_blocks x map + 1 - c;
  se_block : block = (b0 + c) mod map_blocks x map;
  se_word : word = if decide (c = 0) then w0 else O;
  se_full n c' : 0 ≤ n < map_size x map → 1 ≤ c' < c →
    n / bpb = (b0 + c') mod map_blocks x map → bit_at s0 x map n = true
}.

Lemma next_block B n :
  0 < B → (if B <=? n mod B + 1 then 0 else n mod B + 1) = (n + 1) mod B.
Proof using.
  intros HB. pose proof (Z.mod_pos_bound n B HB) as Hr. pose proof (Z.div_mod n B).
  destruct (Z.leb_spec B (n mod B + 1)).
  - apply (Z.mod_unique _ _ (n / B + 1)); [left; lia|nia].
  - apply (Z.mod_unique _ _ (n / B)); [left; lia|nia].
Qed.

(** All the blocks have been searched, the first one twice. *)
Lemma searched_all b0 n :
  disks t D → 0 ≤ n < map_size x map →
  ∃ c, 1 ≤ c ≤ map_blocks x map ∧ n / bpb = (b0 + c) mod map_blocks x map.
Proof using Hmap.
  intros HD Hn. destruct (map_bpb HD) as (_ & Hmin & _). pose proof (mo_size _ _ _ _ Hmap) as Hsize.
  assert (0 ≤ n / bpb < map_blocks x map) as Hq.
  { split; [apply Z.div_pos; lia|]. apply Z.div_lt_upper_bound; lia. }
  set (B := map_blocks x map) in *. exists ((n / bpb - b0 - 1) mod B + 1).
  pose proof (Z.mod_pos_bound (n / bpb - b0 - 1) B). split; [lia|].
  replace (b0 + ((n / bpb - b0 - 1) mod B + 1)) with (b0 + 1 + (n / bpb - b0 - 1) mod B) by lia.
  rewrite Z.add_mod_idemp_r by lia. rewrite Z.mod_small; [lia|].
  by replace (b0 + 1 + (n / bpb - b0 - 1)) with (n / bpb) by lia.
Qed.

(** What [alloc_bit] promises. *)
Definition allocated (s s' : st) (b : Z) : Prop :=
  cache_ok t D s' ∧ has_free s' ∧
  ((b = NO_BIT ∧ transparent t D s s' ∧
      ∀ n, 0 ≤ n < map_size x map → bit_at s x map n = true) ∨
   (0 < b < map_size x map ∧ bit_at s x map b = false ∧ bit_changed s s' b true)).

Lemma map_blocks_bound : disks t D → 0 < map_blocks x map < 2 ^ 32 - 1.
Proof using Hmap.
  intros HD. destruct (map_bpb HD) as (_ & Hmin & _).
  pose proof (mo_size _ _ _ _ Hmap). pose proof (mo_max _ _ _ _ Hmap). nia.
Qed.

(** A round that has found nothing. *)
Lemma searched_next s0 s s' b0 w0 block word bcount c :
  disks t D → tabs s0 = t → searched s0 s b0 w0 block word bcount c →
  cache_ok t D s' → has_free s' → transparent t D s s' →
  (∀ n, 0 ≤ n < map_size x map → n / bpb = block → 16 * Z.of_nat word ≤ n mod bpb →
     bit_at s x map n = true) →
  (∀ n c', 0 ≤ n < map_size x map → 1 ≤ c' < c + 1 →
     n / bpb = (b0 + c') mod map_blocks x map → bit_at s0 x map n = true) ∧
  (c < map_blocks x map → searched s0 s' b0 w0
     (if map_blocks x map <=? block + 1 then 0 else block + 1) O (bcount - 1) (c + 1)).
Proof using Hmap.
  intros HD Ht [H1 H2 H3 H4 H5 H6 H7 H8] Hok' Hfree' T Hfull.
  pose proof (map_blocks_bound HD) as HB. destruct (map_bpb HD) as (_ & Hmin & _).
  assert (∀ n c', 0 ≤ n < map_size x map → 1 ≤ c' < c + 1 →
     n / bpb = (b0 + c') mod map_blocks x map → bit_at s0 x map n = true) as Hall.
  { intros n c' Hn Hc' Hblk. destruct (decide (c' = c)) as [->|]; [|apply (H8 n c'); lia || done].
    rewrite <- (transparent_bit s0 s n HD Ht H3). apply Hfull; [done|congruence|].
    rewrite H7, decide_False by lia. pose proof (Z.mod_pos_bound n bpb). lia. }
  split; [done|]. intros Hc. split; try done; [by etrans|lia|lia| |].
  - rewrite H6, next_block by lia. f_equal. lia.
  - by rewrite decide_False by lia.
Qed.

Lemma alloc_step s0 s b0 w0 block word bcount c :
  disks t D → tabs s0 = t → bit_at s0 x map 0 = true →
  (w0 ≤ Z.to_nat (FS_BITMAP_CHUNKS (s_block_size x)))%nat →
  searched s0 s b0 w0 block word bcount c →
  wp (bp ← get_block (s_dev x) (u32 (map_start x map + block)) NORMAL;
      b ← alloc_words native bpb (map_size x map) block bp
            (Z.to_nat (FS_BITMAP_CHUNKS (s_block_size x)) - word) word;
      put_block (Some bp) MAP_BLOCK;;
      match b with
      | Some b => mret (inr b)
      | None =>
          let block := u32 (block + 1) in
          let block := if map_blocks x map <=? block then 0 else block in
          let bcount := u32 (bcount - 1) in
          if 0 <? bcount then mret (inl (block, O, bcount)) else mret (inr NO_BIT)
      end)
    (λ r s', match r with
       | inl (block', word', bcount') =>
           (Z.to_nat bcount' < Z.to_nat bcount)%nat ∧ 0 < bcount' ∧
           searched s0 s' b0 w0 block' word' bcount' (c + 1)
       | inr b => allocated s0 s' b
       end) s.
Proof using Hmap.
  intros HD Ht Hzero Hw0 Hse. pose proof (map_blocks_bound HD) as HB.
  pose proof Hse as [H1 H2 H3 H4 H5 H6 H7 H8].
  assert (0 ≤ block < map_blocks x map) as Hblock by (rewrite H6; apply Z.mod_pos_bound; lia).
  apply alloc_round_spec; [done|done|done|done|rewrite H7; case_decide; lia|..].
  - intros s' Hok' Hfree' T Hfull.
    destruct (searched_next _ _ _ _ _ _ _ _ _ HD Ht Hse Hok' Hfree' T Hfull) as [Hall Hnext].
    cbv beta iota zeta. rewrite !u32_id by lia.
    destruct (Z.ltb_spec 0 (bcount - 1)) as [Hlt|Hge].
    + wp_pure. split_and!; [lia|lia|]. apply Hnext. lia.
    + wp_pure. split_and!; [done|done|]. left. split_and!; [done|by etrans|].
      intros n Hn. destruct (searched_all b0 n HD Hn) as (c' & Hc' & E). apply (Hall n c'); [done|lia|done].
  - intros s' v Hok' Hfree' Hv Hclear Hch. wp_pure. split_and!; [done|done|]. right.
    rewrite (transparent_bit s0 s v HD Ht H3) in Hclear.
    assert (v ≠ 0) by (intros ->; congruence). split_and!; [lia|lia|done|].
    destruct Hch as [R B F]. split; [etrans; [apply H3|done]|..].
    + intros n Hn. rewrite B by done. by rewrite (transparent_bit s0 s n HD Ht H3).
    + intros dev blk HDdev Hout. rewrite F by done. by rewrite (tr_view _ _ _ _ H3).
Qed.

Lemma alloc_bit_ok s sp origin :
  supers (tabs s) !! sp = Some x → s_rd_only x = 0 → cache_ok t D s → has_free s → 0 ≤ origin →
  bit_at s x map 0 = true →
  wp (alloc_bit sp map origin) (λ b s', allocated s s' b) s.
Proof using Hmap.
  intros Hsp Hrd Hok Hfree Horigin Hzero. pose proof (ok_disks _ _ _ Hok) as HD.
  pose proof (ok_tabs _ _ _ Hok) as Ht. pose proof (map_blocks_bound HD) as HB.
  destruct (map_bpb HD) as (Ebpb & Hmin & Hmax & Hch). pose proof (mo_size _ _ _ _ Hmap) as Hsize.
  unfold alloc_bit. wp_pure. wp_rd. rewrite Hrd. cbn [truth negb Z.eqb].
  rewrite (surjective_pairing (map_geometry x map)), (surjective_pairing (map_geometry x map).1).
  fold (map_start x map) (map_size x map) (map_blocks x map) (bits_per_block x).
  set (origin' := if map_size x map <=? origin then 0 else origin).
  assert (0 ≤ origin' < map_size x map) as Ho.
  { unfold origin'. destruct (Z.leb_spec (map_size x map) origin); lia. }
  destruct (Z.eqb_spec bpb 0); [lia|].
  set (b0 := origin' / bpb). set (w0 := Z.to_nat (origin' mod bpb / FS_BITCHUNK_BITS)).
  apply (wp_loop _ _ (λ '(block, word, bcount) s', 0 < bcount ∧
    ∃ c, searched s s' b0 w0 block word bcount c) (λ '(_, _, bcount) _, Z.to_nat bcount - 1)%nat).
  - rewrite u32_id by lia. split; [lia|]. exists 0. split; try done; try lia.
    rewrite Z.add_0_r, Z.mod_small; [done|]. unfold b0.
    split; [apply Z.div_pos; lia|]. apply Z.div_lt_upper_bound; lia.
  - rewrite u32_id by lia. lia.
  - intros [[block word] bcount] s' [Hpos [c Hse]].
    assert (w0 ≤ Z.to_nat (FS_BITMAP_CHUNKS (s_block_size x)))%nat as Hw0.
    { unfold w0, FS_BITCHUNK_BITS. pose proof (Z.mod_pos_bound origin' bpb).
      assert (origin' mod bpb / 16 < Z.of_nat (Z.to_nat (FS_BITMAP_CHUNKS (s_block_size x))));
        [apply Z.div_lt_upper_bound; lia|lia]. }
    eapply wp_mono; [by eapply alloc_step|]. intros [[[block' word'] bcount']|b] s2; [|done].
    intros (H1 & H2 & H3). split; [by split; [|exists (c + 1)]|lia].
Qed.
(** * [free_bit] *)

(** The lines of [free_bit] after the guards, with the word found in the block. *)
Lemma free_bit_word s sp b :
  supers (tabs s) !! sp = Some x → s_rd_only x = 0 → cache_ok t D s → has_free s →
  0 ≤ b < map_blocks x map * bpb →
  ∃ s1 bp c w, holds_map s s1 (b / bpb) bp c ∧ uses bp 1 s s1 ∧ 0 < b_count c ∧
    page_ok (b_data c) ∧
    let word := Z.to_nat (b mod bpb / FS_BITCHUNK_BITS) in
    (2 * word + 2 ≤ length (b_data c))%nat ∧
    load_le 2 (2 * word) (b_data c) = Some w ∧
    bit_at s x map b = Z.testbit (conv2 native w) (b mod FS_BITCHUNK_BITS) ∧
    free_bit sp map b s =
      (let mask := Z.shiftl 1 (b mod FS_BITCHUNK_BITS) in
       if negb (has (conv2 native w) mask) then panic NO_NUM
       else
         store_buf 2 (2 * word) (conv2 native (Z.ldiff (conv2 native w) mask)) bp;;
         set_dirty bp;;
         put_block (Some bp) MAP_BLOCK) s1.
Proof using Hmap.
  intros Hsp Hrd Hok Hfree Hb. pose proof (ok_disks _ _ _ Hok) as HD.
  pose proof (ok_tabs _ _ _ Hok) as Ht. destruct (map_bpb HD) as (Ebpb & Hmin & Hmax & Hch).
  assert (0 ≤ b / bpb < map_blocks x map) as Hblock.
  { split; [apply Z.div_pos; lia|]. apply Z.div_lt_upper_bound; lia. }
  pose proof (mo_blocks _ _ _ _ Hmap _ Hblock) as Hadd. pose proof (mo_dev _ _ _ _ Hmap) as Hdev.
  pose proof (get_block_normal t D s _ _ Hok Hdev Hadd (has_free_available _ _ _ Hfree)) as H.
  apply wp_unfold in H as (bp & s1 & Hrun & Hok1 & T1 & K1 & U1 & c & Hc & Hn & Hcount & Hdata).
  pose proof (co_wf _ _ _ _ (ok_coherent _ _ _ Hok1) bp c Hc) as [Hpage _].
  pose proof Hpage as [Hlen _]. pose proof (Z.mod_pos_bound b bpb).
  set (word := Z.to_nat (b mod bpb / FS_BITCHUNK_BITS)).
  assert (2 * word + 2 ≤ length (b_data c))%nat as Hword
    by (unfold word, FS_BITCHUNK_BITS, MAX_BLOCK_SIZE in *; zlia).
  destruct (load_le_is_Some 2 (2 * word) (b_data c) Hword) as [w Hw].
  assert (holds_map s s1 (b / bpb) bp c) as Hh by done.
  exists s1, bp, c, w. do 4 (split; [done|]). cbv zeta. fold word. do 2 (split; [done|]). split.
  - rewrite (holds_bits s s1 (b / bpb) bp c b Ht HD Hh) by lia.
    rewrite (map_bit_word native word w) by done. f_equal. unfold FS_BITCHUNK_BITS. rewrite Ebpb.
    pose proof (mo_even _ _ _ _ Hmap) as He.
    replace (8 * s_block_size x) with (16 * (s_block_size x / 2)) by zlia.
    rewrite Z.rem_mul_r by zlia. rewrite (Z.mul_comm 16), Z.mod_add by lia. by rewrite Z.mod_mod.
  - unfold free_bit. rewrite (run_bind _ _ s x s) by (unfold rd; simpl; by rewrite Hsp).
    rewrite Hrd. cbn [truth negb Z.eqb]. fold (map_start x map) (bits_per_block x).
    destruct (Z.eqb_spec bpb 0); [lia|].
    rewrite u32_id by by apply addressable_u32.
    rewrite (run_bind _ _ _ _ _ Hrun).
    assert (load_buf 2 (2 * word) bp s1 = Ret w s1) as Hload.
    { unfold load_buf. rewrite (run_bind _ _ s1 (b_data c) s1); [|unfold rd; simpl; by rewrite Hc].
      by rewrite Hw. }
    fold word. by rewrite (run_bind _ _ _ _ _ Hload).
Qed.
Lemma free_bit_ok s sp b :
  supers (tabs s) !! sp = Some x → s_rd_only x = 0 → cache_ok t D s → has_free s →
  0 ≤ b < map_blocks x map * bpb → bit_at s x map b = true →
  wp (free_bit sp map b) (λ _ s', cache_ok t D s' ∧ has_free s' ∧ bit_changed s s' b false) s.
Proof using Hmap.
  intros Hsp Hrd Hok Hfree Hb Hset. pose proof (ok_disks _ _ _ Hok) as HD.
  destruct (map_bpb HD) as (Ebpb & Hmin & Hmax & Hch). pose proof (Z.mod_pos_bound b bpb).
  destruct (free_bit_word s sp b Hsp Hrd Hok Hfree Hb)
    as (s1 & bp & c & w & Hh & U1 & Hcount & Hpage & Hword & Hw & Ebit & Erun).
  apply (wp_same _ _ _ _ _ Erun). cbv zeta.
  rewrite has_bit, <- Ebit, Hset by (apply Z.mod_pos_bound; done). cbn [negb].
  set (word := Z.to_nat (b mod bpb / FS_BITCHUNK_BITS)) in *.
  set (i := b mod FS_BITCHUNK_BITS) in *. pose proof Hh as (Hok1 & T1 & Hc & [Ec _] & _).
  assert (0 ≤ i < 16) as Hi by (apply Z.mod_pos_bound; done).
  destruct (store_le_is_Some 2 (2 * word) (conv2 native (Z.ldiff (conv2 native w) (Z.shiftl 1 i)))
    (b_data c)) as [d' Hd']; [lia|].
  pose proof (page_ok_store _ _ _ _ _ Hd' Hpage) as Hpage'.
  assert (b_dev c ≠ NO_DEV) as Hnz by (rewrite Ec; by apply (disks_ok _ _ HD), Hmap).
  pose proof (store_into_ok t D s1 bp c d' Hok1 Hc Hnz Hpage') as Hok2.
  eapply store_dirty_spec; [exact Hc|exact Hd'|]. eapply wp_mono.
  { eapply (put_block_ok t D _ bp (c <| b_data := d' |> <| b_dirt := DIRTY |>)); [exact Hok2| |exact Hcount|done].
    apply list_lookup_insert_eq. by eapply lookup_lt_Some. }
  intros [] s3 (Hok3 & T3 & _ & U3). split_and!; [done| |].
  - apply (put_back s s1 (store_into bp c d' s1) s3 bp Hfree U1); [|done].
    intros j'. simpl. by rewrite (field_insert_same _ _ _ c).
  - replace b with (b / bpb * bpb + b mod bpb) by (pose proof (Z.div_mod b bpb); lia).
    apply (store_bits s s1 s3 (b / bpb) bp c d'); try done.
    + split; [apply Z.div_pos; lia|]. apply Z.div_lt_upper_bound; lia.
    + lia.
    + intros j Hj. rewrite (map_bit_clear native word w _ _ i Hw Hi Hd' j Hj).
      assert (16 * Z.of_nat word + i = b mod bpb) as ->; [|done].
      unfold word, i, FS_BITCHUNK_BITS. pose proof (mo_even _ _ _ _ Hmap) as He. rewrite Ebpb.
      replace (8 * s_block_size x) with (16 * (s_block_size x / 2)) by zlia.
      rewrite Z.rem_mul_r by zlia. zlia.
Qed.

Lemma free_bit_clear s sp b :
  supers (tabs s) !! sp = Some x → s_rd_only x = 0 → cache_ok t D s → has_free s →
  0 ≤ b < map_blocks x map * bpb → bit_at s x map b = false →
  ∃ s', free_bit sp map b s = Panic NO_NUM s'.
Proof using Hmap.
  intros Hsp Hrd Hok Hfree Hb Hclear.
  destruct (free_bit_word s sp b Hsp Hrd Hok Hfree Hb)
    as (s1 & bp & c & w & _ & _ & _ & _ & _ & _ & Ebit & Erun).
  exists s1. rewrite Erun. cbv zeta.
  by rewrite has_bit, <- Ebit, Hclear by (apply Z.mod_pos_bound; done).
Qed.
End map.
End spec.

(** * The contracts *)

Section contracts.
Context {cfg : Config} {krn : Kernel} {dk : Disk}.
Implicit Types (s : st) (D : Z → Prop) (x : super_block).

(** C4: [alloc_bit] on a map whose bit 0 is taken returns [NO_BIT] only when every bit of
    the map is set, and then nothing has changed; otherwise it returns a bit that was
    clear, sets this bit and no other, and changes no block outside the map. It
    terminates whatever the origin of the search. Required: a free buffer in the cache. *)
Theorem alloc_bit_contract D s sp x map origin :
  supers (tabs s) !! sp = Some x → s_rd_only x = 0 → map_ok (tabs s) D x map →
  cache_ok (tabs s) D s → has_free s → 0 ≤ origin → bit_at s x map 0 = true →
  wp (alloc_bit sp map origin) (λ b s', allocated (tabs s) D x map s s' b) s.
Proof. intros Hsp Hrd Hmap. by apply alloc_bit_ok. Qed.

(** [free_bit] of a bit that is set clears this bit and no other, and changes
    no block outside the map. *)
Theorem free_bit_contract D s sp x map b :
  supers (tabs s) !! sp = Some x → s_rd_only x = 0 → map_ok (tabs s) D x map →
  cache_ok (tabs s) D s → has_free s →
  0 ≤ b < map_blocks x map * bits_per_block x → bit_at s x map b = true →
  wp (free_bit sp map b) (λ _ s', cache_ok (tabs s) D s' ∧ has_free s' ∧
    bit_changed (tabs s) D x map s s' b false) s.
Proof. intros Hsp Hrd Hmap. by apply free_bit_ok. Qed.

(** freeing an inode or zone that is free already is noticed: [free_bit] of a
    clear bit panics. *)
Theorem free_bit_unused D s sp x map b :
  supers (tabs s) !! sp = Some x → s_rd_only x = 0 → map_ok (tabs s) D x map →
  cache_ok (tabs s) D s → has_free s →
  0 ≤ b < map_blocks x map * bits_per_block x → bit_at s x map b = false →
  ∃ s', free_bit sp map b s = Panic NO_NUM s'.
Proof. intros Hsp Hrd Hmap. by apply free_bit_clear. Qed.
End contracts.
