(* ===== verification/RamDisk.v ===== *)
(** An implementation of the [Disk] interface, disks held in memory, and a file
    server on it with an empty cache: the instances at which the theorems about
    the cache and its clients are tried. *)

From S2P Require Import Prelude Machine State Monad Process Device SuperTable Links Cache CacheInv DiskView Flush CacheSpec Bitmap BitmapSpec.

(** A small pool. *)
#[global] Program Instance ram_config : Config := {|
  NR_BUFS := 6;
  NR_BUF_HASH := 4;
  inode_at := λ _, None;
  loop_fuel := 2
|}.
Solve All Obligations with (simpl; lia).

(** The contents of all the disks: bytes by driver, drive and position. *)
Definition ram_bytes (f : Z → Z → Z → Z) : Prop := ∀ task minor pos, byte_ok (f task minor pos).
Definition ram : Type := sig ram_bytes.

Lemma ram_write_ok (k : ram) task minor pos d task' minor' q :
  Forall byte_ok d →
  byte_ok ((if decide (task' = task ∧ minor' = minor) then overlay (proj1_sig k task minor) pos d
            else proj1_sig k task' minor') q).
Proof.
  intros Hd. case_decide; [|apply (proj2_sig k)]. unfold overlay.
  case_decide; [|apply (proj2_sig k)]. destruct (d !! _) as [x|] eqn:E; simpl; [|apply (proj2_sig k)].
  rewrite Forall_lookup in Hd. by eapply Hd.
Qed.

Definition ram_write (task minor pos : Z) (d : list Z) (k : ram) : ram :=
  match decide (Forall byte_ok d) with
  | left Hd => exist ram_bytes (λ task' minor',
      if decide (task' = task ∧ minor' = minor) then overlay (proj1_sig k task minor) pos d
      else proj1_sig k task' minor') (λ task' minor' q, ram_write_ok k task minor pos d task' minor' q Hd)
  | right _ => k
  end.

Definition ram_reply (status : Z) (m : message) : message :=
  m <| REP_PROC_NR := FS_PROC_NR |> <| REP_STATUS := status |>.

(** A driver that never fails and writes one block of a vector at a time. *)
Definition ram_sendrec (task : Z) (m : message) (v : list iov) (k : ram) :
    Z * message * list iov * ram :=
  let n := Z.to_nat (COUNT m) in
  match v with
  | Iov d size :: rest =>
      if m_type m =? DEV_READ then
        (OK, ram_reply (COUNT m) m,
         [Iov (span (proj1_sig k task (DEVICE m)) (POSITION m) n ++ drop n d) 0], k)
      else if m_type m =? DEV_WRITE then
        (OK, ram_reply (COUNT m) m, [Iov d 0],
         ram_write task (DEVICE m) (POSITION m) (take n d) k)
      else if m_type m =? DEV_SCATTER then
        (OK, ram_reply OK m, Iov d 0 :: rest,
         ram_write task (DEVICE m) (POSITION m) (take (Z.to_nat size) d) k)
      else (EINVAL, m, v, k)
  | [] => (EINVAL, m, v, k)
  end.

(** The memory of every process: at each address a [struct flock] for the first
    ten bytes of a file, its type the low byte of the address. *)
Definition ram_user (addr : Z) (n : nat) : list Z :=
  take n ([addr mod 2 ^ 8; 0; 0; 0; 0; 0; 0; 0; 10; 0; 0; 0; 0; 0; 0; 0] ++ replicate n 0).

#[global] Instance ram_kernel : Kernel := {|
  K := ram;
  k_sendrec := ram_sendrec;
  k_receive _ v k := (EINVAL, blank_message, v, k);
  k_send _ _ k := (OK, k);
  k_vircopy_from _ _ addr len _ := (OK, ram_user addr (Z.to_nat len));
  k_vircopy_to _ _ _ _ k := (OK, k);
  k_umap _ _ addr _ _ := addr;
  k_getuptime _ := (OK, 0);
  k_kill _ _ k := k;
  k_setalarm _ _ k := (OK, k);
  k_tmr_inittimer _ k := k;
  k_tmrs_settimer _ _ k := (0, 0, k);
  k_tmrs_clrtimer _ k := (0, 0, k);
  k_tmrs_exptimers _ k := ([], 0, k);
  k_sysinfo _ _ _ k := (OK, k);
  k_sigismember _ _ := false
|}.

Lemma ram_write_sector k task minor pos d task' minor' :
  Forall byte_ok d →
  proj1_sig (ram_write task minor pos d k) task' minor' =
    if decide (task' = task ∧ minor' = minor) then overlay (proj1_sig k task minor) pos d
    else proj1_sig k task' minor'.
Proof. intros Hd. unfold ram_write. by destruct (decide (Forall byte_ok d)). Qed.

#[global] Program Instance ram_disk : Disk := {|
  disk_driver _ := True;
  sector k := proj1_sig k
|}.
Next Obligation. intros k task minor pos. apply (proj2_sig k). Qed.
Next Obligation.
  intros task minor pos n data m k _ (E1 & E2 & E3 & E4 & E5) H1 H2 H3 H4. simpl.
  rewrite E1, E2, E3, E4. eexists _, _, _. by split_and!.
Qed.
Next Obligation.
  intros task minor pos n data m k _ (E1 & E2 & E3 & E4 & E5) Hd H1 H2 H3 H4. simpl.
  rewrite E1, E2, E3, E4. eexists _, _, _. split_and!; [done|done|].
  intros task' minor'. apply ram_write_sector. by apply Forall_take.
Qed.
Next Obligation.
  intros task minor pos n ds m k _ (E1 & E2 & E3 & E4 & E5) Hd H1 H2 Hne H3 H4.
  destruct ds as [|d ds]; [done|]. simpl. rewrite E1, E2, E3. eexists _, 1%nat, _.
  split_and!; [lia|simpl; lia|done|done|].
  intros task' minor'. rewrite ram_write_sector; [|apply Forall_take; by inversion Hd]. simpl.
  by destruct ds.
Qed.

(** * A server that has just started *)

(** The drive 0x0100 has bit 0 of its two maps set (bytes 2048 and 3072). *)
Definition ram_start_bytes (task minor pos : Z) : Z :=
  if (pos =? 2048) || (pos =? 3072) then 1 else 0.
Lemma ram_start_ok : ram_bytes ram_start_bytes.
Proof. intros task minor pos. unfold ram_start_bytes, byte_ok. case_match; lia. Qed.
Definition ram_start : ram := exist ram_bytes ram_start_bytes ram_start_ok.

Definition page : list Z := replicate (Z.to_nat MAX_BLOCK_SIZE) 0.
(** The pool as [buf_pool] makes it. *)
Definition ram_buf (i : nat) : buf :=
  let next := if decide (i < 5)%nat then Some (S i) else None in
  let prev := if decide (i = 0%nat) then None else Some (pred i) in
  Buf page next prev next NO_BLOCK NO_DEV CLEAN 0.
Definition ram_cache : cache_state :=
  CacheState (ram_buf <$> seq 0 6) [Some 0%nat; None; None; None] (Some 0%nat) (Some 5%nat) 0 OK.

Definition ram_super : super_block :=
  SuperBlock 40 0 1 1 10 0 2147483647 100 19802 1024 0 None None 16 256 0 1 3 7 256 0 0.
Definition no_inode : inode := Inode 0 0 0 0 0 0 0 0 (replicate 10 0) 0 0 0 0 0 None CLEAN false false false 0.
Definition no_filp : filp := Filp 0 0 0 None 0 0 0 0.
Definition no_fproc : fproc :=
  Fproc 18 None None (replicate OPEN_MAX None) 0 0 0 0 0 0 0 0 0 false false 0 false false 0 0.
Definition no_lock : file_lock := FileLock 0 0 None 0 0.
Definition no_dmap : dmap_entry := Dmap no_dev_opcl no_dev_io_r NONE 0.
Definition no_select : selectentry :=
  SelectEntry None 0 0 0 0 0 0 0 0 0 0 (replicate FD_SETSIZE None) (replicate FD_SETSIZE 0) 0 0 0.
Definition ram_tables : tables :=
  Tables (replicate NR_INODES no_inode) [ram_super] (replicate NR_FILPS no_filp)
    (replicate NR_PROCS no_fproc) (replicate NR_LOCKS no_lock)
    [no_dmap; Dmap gen_opcl_r gen_io_r 5 0; no_dmap] (replicate MAXSELECTS no_select).
Definition ram_globals : globals :=
  Globals 9 false 0 0 0 0 None 256 0 blank_message blank_message 9 0 (replicate 255 0) OK.
Definition ram_state : st := St ram_kernel ram_start ram_cache ram_tables ram_globals.

Definition ram_dev (dev : Z) : Prop := dev = 256.

Lemma ram_disks : disks ram_tables ram_dev.
Proof.
  split.
  - intros dev ->. split; [done|by split|]. eexists. by split_and!.
  - by intros dev dev' -> ->.
Qed.

Lemma ram_lookup i b : bufs (cache ram_state) !! i = Some b → b = ram_buf i ∧ (i < 6)%nat.
Proof.
  change (bufs (cache ram_state)) with (ram_buf <$> seq 0 6).
  rewrite list_lookup_fmap. intros (j & Hj & ->)%fmap_Some.
  apply lookup_seq in Hj as [-> Hj]. split; [done|lia].
Qed.

Definition ram_chains (h : nat) : list nat := if decide (h = 0%nat) then seq 0 6 else [].

Lemma ram_chain_NoDup h : NoDup (ram_chains h).
Proof. unfold ram_chains. case_decide; [apply NoDup_seq|constructor]. Qed.

Lemma ram_pool_ok : pool_ok None ram_cache (seq 0 6) ram_chains.
Proof.
  split.
  - done.
  - done.
  - split; [apply NoDup_seq|done|done|..]; by vm_compute; repeat split.
  - intros i b [-> Hi]%ram_lookup. split; [done|]. rewrite elem_of_seq.
    split; [done|]. intros _. simpl. lia.
  - done.
  - intros h Hh. change (h < 4)%nat in Hh. unfold ram_chains.
    do 4 (destruct h as [|h]; [split; [done|apply ram_chain_NoDup|by vm_compute; repeat split]|]).
    lia.
  - intros i b h [-> Hi]%ram_lookup Hh. unfold ram_chains. change (hash _) with 0%nat.
    case_decide; [subst h; rewrite elem_of_seq; split; [done|intros _; simpl; lia]|].
    split; [by intros ?%not_elem_of_nil|by intros [-> _]].
Qed.

Lemma page_page_ok : page_ok page.
Proof.
  split; [by unfold page; rewrite length_replicate|]. apply Forall_replicate. by split.
Qed.

(** The state meets the contract of the cache: the hypotheses of the theorems
    about it can hold. *)
Lemma ram_cache_ok : cache_ok ram_tables ram_dev ram_state.
Proof.
  split; [done|apply ram_disks| |].
  - split.
    + intros i b [-> _]%ram_lookup. split; [apply page_page_ok|by intros []].
    + intros i j dev blk b b' Hdev [-> _]%ram_lookup _ [E _] _. by destruct Hdev.
    + intros i b [-> _]%ram_lookup Hnz. by destruct Hnz.
  - exists (seq 0 6), ram_chains. apply ram_pool_ok.
Qed.

Lemma ram_has_free : has_free ram_state.
Proof. split; [|by exists 0%nat]. by intros i n (b & [-> _]%ram_lookup & <-)%field_Some. Qed.

Lemma ram_addressable blk : 0 ≤ blk ≤ 1000000 → addressable ram_tables 256 blk.
Proof. intros H. split; [lia|]. change (dev_bs ram_tables 256) with 1024. lia. Qed.
