(* ===== verification/Inode.v ===== *)
(** inode.c: the table of the inodes in memory and their images on the disk. *)

From S2P Require Import Prelude Machine State Monad Utility SuperTable Cache Bitmap.

(** * The inodes of the disk (type.h) *)

Record d1_inode := D1Inode {
  d1_mode : Z; d1_uid : Z; d1_size : Z; d1_mtime : Z; d1_gid : Z; d1_nlinks : Z;
  d1_zone : list Z
}.
Record d2_inode := D2Inode {
  d2_mode : Z; d2_nlinks : Z; d2_uid : Z; d2_gid : Z; d2_size : Z;
  d2_atime : Z; d2_mtime : Z; d2_ctime : Z; d2_zone : list Z
}.

Definition d1_widths : list nat := [2; 2; 4; 4; 1; 1]%nat ++ replicate V1_NR_TZONES 2%nat.
Definition d2_widths : list nat := [2; 2; 2; 2; 4; 4; 4; 4]%nat ++ replicate V2_NR_TZONES 4%nat.

Definition d1_load (off : nat) (d : list Z) : option d1_inode :=
  vs ← load_fields d1_widths off d;
  match vs with
  | mode :: uid :: size :: mtime :: gid :: nlinks :: zones =>
      Some (D1Inode mode (i16 uid) size (i32 mtime) gid nlinks zones)
  | _ => None
  end.
Definition d1_store (off : nat) (dip : d1_inode) (d : list Z) : option (list Z) :=
  store_fields d1_widths off
    (d1_mode dip :: d1_uid dip :: d1_size dip :: d1_mtime dip :: d1_gid dip
      :: d1_nlinks dip :: d1_zone dip) d.

Definition d2_load (off : nat) (d : list Z) : option d2_inode :=
  vs ← load_fields d2_widths off d;
  match vs with
  | mode :: nlinks :: uid :: gid :: size :: atime :: mtime :: ctime :: zones =>
      Some (D2Inode mode nlinks (i16 uid) gid size (i32 atime) (i32 mtime) (i32 ctime) zones)
  | _ => None
  end.
Definition d2_store (off : nat) (dip : d2_inode) (d : list Z) : option (list Z) :=
  store_fields d2_widths off
    (d2_mode dip :: d2_nlinks dip :: d2_uid dip :: d2_gid dip :: d2_size dip
      :: d2_atime dip :: d2_mtime dip :: d2_ctime dip :: d2_zone dip) d.

(** [old_icopy], READING and WRITING.  The zones past those of the disk keep
    what the slot had. *)
Definition old_icopy_read (norm : bool) (dip : d1_inode) (rip : inode) : inode :=
  rip <| i_mode := u16 (conv2 norm (d1_mode dip)) |>
      <| i_uid := i16 (conv2 norm (d1_uid dip)) |>
      <| i_size := u32 (conv4 norm (i32 (d1_size dip))) |>
      <| i_mtime := i32 (conv4 norm (d1_mtime dip)) |>
      <| i_atime := i32 (conv4 norm (d1_mtime dip)) |>
      <| i_ctime := i32 (conv4 norm (d1_mtime dip)) |>
      <| i_nlinks := i16 (d1_nlinks dip) |>
      <| i_gid := i8 (d1_gid dip) |>
      <| i_ndzones := V1_NR_DZONES |>
      <| i_nindirs := V1_INDIRECTS |>
      <| i_zone ::= λ zs, (conv2 norm <$> d1_zone dip) ++ drop V1_NR_TZONES zs |>.
Definition old_icopy_write (norm : bool) (rip : inode) : d1_inode :=
  D1Inode (conv2 norm (i_mode rip)) (i16 (conv2 norm (i_uid rip)))
    (u32 (conv4 norm (i32 (i_size rip)))) (i32 (conv4 norm (i_mtime rip)))
    (u8 (i_gid rip)) (u8 (i_nlinks rip))
    (conv2 norm <$> take V1_NR_TZONES (i_zone rip)).

(** [new_icopy]; [block_size] is that of the super block of [rip]. *)
Definition new_icopy_read (norm : bool) (block_size : Z) (dip : d2_inode) (rip : inode) : inode :=
  rip <| i_mode := u16 (conv2 norm (d2_mode dip)) |>
      <| i_uid := i16 (conv2 norm (d2_uid dip)) |>
      <| i_nlinks := i16 (conv2 norm (d2_nlinks dip)) |>
      <| i_gid := i8 (conv2 norm (d2_gid dip)) |>
      <| i_size := u32 (conv4 norm (i32 (d2_size dip))) |>
      <| i_atime := i32 (conv4 norm (d2_atime dip)) |>
      <| i_ctime := i32 (conv4 norm (d2_ctime dip)) |>
      <| i_mtime := i32 (conv4 norm (d2_mtime dip)) |>
      <| i_ndzones := V2_NR_DZONES |>
      <| i_nindirs := V2_INDIRECTS block_size |>
      <| i_zone ::= λ zs, ((λ z, u32 (conv4 norm (i32 z))) <$> d2_zone dip)
                          ++ drop V2_NR_TZONES zs |>.
Definition new_icopy_write (norm : bool) (rip : inode) : d2_inode :=
  D2Inode (conv2 norm (i_mode rip)) (conv2 norm (i_nlinks rip))
    (i16 (conv2 norm (i_uid rip))) (conv2 norm (i_gid rip))
    (u32 (conv4 norm (i32 (i_size rip)))) (i32 (conv4 norm (i_atime rip)))
    (i32 (conv4 norm (i_mtime rip))) (i32 (conv4 norm (i_ctime rip)))
    ((λ z, u32 (conv4 norm (i32 z))) <$> take V2_NR_TZONES (i_zone rip)).

(** The slot the search of [get_inode] ends with: the one that holds the inode,
    or the last free one. *)
Fixpoint find_inode (dev numb : Z) (i : nat) (l : list inode) (xp : option nat) :
    nat + option nat :=
  match l with
  | [] => inr xp
  | rip :: l =>
      if 0 <? i_count rip then
        if (i_dev rip =? dev) && (i_num rip =? numb) then inl i
        else find_inode dev numb (S i) l xp
      else find_inode dev numb (S i) l (Some i)
  end.

Section inode.
Context {cfg : Config} {krn : Kernel}.

Definition old_icopy (rip : nat) (bp off : nat) (direction : rw) (norm : bool) : M unit :=
  d ← rd b_data bp;
  dip ← deref (d1_load off d);
  match direction with
  | READING => wr rip (old_icopy_read norm dip)
  | WRITING =>
      r ← rd (λ r, r) rip;
      d' ← deref (d1_store off (old_icopy_write norm r) d);
      wr bp (λ b, b <| b_data := d' |>)
  end.

Definition new_icopy (rip : nat) (bp off : nat) (direction : rw) (norm : bool) : M unit :=
  d ← rd b_data bp;
  dip ← deref (d2_load off d);
  match direction with
  | READING =>
      sp ← rd i_sp rip; sp ← deref sp;
      block_size ← rd s_block_size sp;
      wr rip (new_icopy_read norm block_size dip)
  | WRITING =>
      r ← rd (λ r, r) rip;
      d' ← deref (d2_store off (new_icopy_write norm r) d);
      wr bp (λ b, b <| b_data := d' |>)
  end.

(** The super block of the file system of [rip]. *)
Definition sp_of {A} (f : super_block → A) (rip : nat) : M A :=
  sp ← rd i_sp rip; sp ← deref sp; rd f sp.

Definition update_times (rip : nat) : M unit :=
  ro ← sp_of s_rd_only rip;
  if truth ro then mret tt
  else
    cur_time ← clock_time;
    wr rip (λ r, if has (i_update r) ATIME then r <| i_atime := cur_time |> else r);;
    wr rip (λ r, if has (i_update r) CTIME then r <| i_ctime := cur_time |> else r);;
    wr rip (λ r, if has (i_update r) MTIME then r <| i_mtime := cur_time |> else r);;
    wr rip (λ r, r <| i_update := 0 |>).

(** The block of the inode [num] of the file system [sp]; its places there as a V1
    and as a V2 inode. *)
Definition inode_block (sp : super_block) (num : Z) : Z :=
  u32 (u32 (num - 1) / s_inodes_per_block sp
       + u32 (s_imap_blocks sp + s_zmap_blocks sp + 2)).
Definition v1_inode_off (num : Z) : nat :=
  Z.to_nat (V1_INODE_SIZE * (u32 (num - 1) mod V1_INODES_PER_BLOCK)).
Definition v2_inode_off (sp : super_block) (num : Z) : nat :=
  Z.to_nat (V2_INODE_SIZE * (u32 (num - 1) mod V2_INODES_PER_BLOCK (s_block_size sp))).

Definition rw_inode (rip : nat) (rw_flag : rw) : M unit :=
  dev ← rd i_dev rip;
  sp ← get_super dev;
  wr rip (λ r, r <| i_sp := Some sp |>);;
  x ← rd (λ x, x) sp;
  num ← rd i_num rip;
  if (s_inodes_per_block x =? 0) || (V2_INODES_PER_BLOCK (s_block_size x) =? 0) then fault
  else
    bp ← get_block dev (inode_block x num) NORMAL;
    match rw_flag with
    | WRITING =>
        upd ← rd i_update rip;
        when (truth upd) (update_times rip);;
        when (s_rd_only x =? 0) (set_dirty bp)
    | READING => mret tt
    end;;
    (if s_version x =? V1
     then old_icopy rip bp (v1_inode_off num) rw_flag (truth (s_native x))
     else new_icopy rip bp (v2_inode_off x num) rw_flag (truth (s_native x)));;
    put_block (Some bp) INODE_BLOCK;;
    wr rip (λ r, r <| i_dirt := CLEAN |>).

(** [numb] is passed as an [int]. *)
Definition get_inode (dev numb : Z) : M (option nat) :=
  l ← gets (λ s, inodes (tabs s));
  match find_inode dev (u32 numb) 0 l None with
  | inl rip =>
      wr rip (λ r, r <| i_count ::= Z.add 1 |>);;
      mret (Some rip)
  | inr None => set_err ENFILE;; mret None
  | inr (Some xp) =>
      wr xp (λ r, r <| i_dev := dev |> <| i_num := u32 numb |> <| i_count := 1 |>);;
      when (negb (dev =? NO_DEV)) (rw_inode xp READING);;
      wr xp (λ r, r <| i_update := 0 |>);;
      mret (Some xp)
  end.

Definition wipe_inode (rip : nat) : M unit :=
  wr rip (λ r, r <| i_size := 0 |>
    <| i_update := Z.lor ATIME (Z.lor CTIME MTIME) |>
    <| i_dirt := DIRTY |>
    <| i_zone := replicate V2_NR_TZONES NO_ZONE |>).

Definition alloc_inode (dev bits : Z) : M (option nat) :=
  sp ← get_super dev;
  x ← rd (λ x, x) sp;
  if truth (s_rd_only x) then set_err EROFS;; mret None
  else
    b ← alloc_bit sp IMAP (s_isearch x);
    if b =? NO_BIT then set_err ENFILE;; mret None
    else
      wr sp (λ x, x <| s_isearch := b |>);;
      rip ← get_inode NO_DEV (i32 b);
      match rip with
      | None => free_bit sp IMAP b
      | Some rip =>
          p ← rg fp; uid ← rd fp_effuid p; gid ← rd fp_effgid p;
          wr rip (λ r, r <| i_mode := bits |> <| i_nlinks := 0 |>
            <| i_uid := uid |> <| i_gid := gid |> <| i_dev := dev |>
            <| i_ndzones := s_ndzones x |> <| i_nindirs := s_nindirs x |>
            <| i_sp := Some sp |>);;
          wipe_inode rip
      end;;
      mret rip.

Definition free_inode (dev inumb : Z) : M unit :=
  sp ← get_super dev;
  ninodes ← rd s_ninodes sp;
  if (inumb <=? 0) || (ninodes <? inumb) then mret tt
  else
    free_bit sp IMAP inumb;;
    wr sp (λ x, if inumb <? s_isearch x then x <| s_isearch := inumb |> else x).

Definition dup_inode (ip : nat) : M unit := wr ip (λ r, r <| i_count ::= Z.add 1 |>).
End inode.
