(* ===== verification/InodeSpec.v ===== *)
(** The images of inodes on the disk (inode.c): what [rw_inode] writes is what it
    reads back, in both formats and both byte orders. *)

From S2P Require Import Prelude Machine State Monad Utility SuperTable Cache CacheInv DiskView Flush CacheSpec CacheContract Bitmap BitmapSpec Inode.

(** * Fields in the byte order of the file system *)

Lemma conv2_mod norm x : conv2 norm (x mod 2 ^ 16) = conv2 norm x.
Proof. destruct norm; rewrite ?conv2_norm, ?conv2_swap; zlia. Qed.

Lemma conv2_i16 norm x : conv2 norm (i16 x) = conv2 norm x.
Proof. rewrite <- (conv2_mod norm (i16 x)), <- (conv2_mod norm x). f_equal. unfold i16. zlia. Qed.

Lemma conv4_range norm x : - 2 ^ 31 ≤ x < 2 ^ 31 → - 2 ^ 31 ≤ conv4 norm x < 2 ^ 31.
Proof. destruct norm; [done|]. rewrite conv4_swap. intros _. apply i32_range. Qed.

Lemma i32_mod x : i32 (x mod 2 ^ 32) = i32 x.
Proof. unfold i32. zlia. Qed.

(** A 16-bit field of the image, unsigned or signed. *)
Lemma field16_u norm x : 0 ≤ x < 2 ^ 16 → u16 (conv2 norm (conv2 norm x mod 2 ^ 16)) = x.
Proof. intros Hx. rewrite conv2_mod, conv2_twice. unfold u16. zlia. Qed.
Lemma field16_s norm x :
  - 2 ^ 15 ≤ x < 2 ^ 15 → i16 (conv2 norm (i16 (i16 (conv2 norm x) mod 2 ^ 16))) = x.
Proof. intros Hx. rewrite conv2_i16, conv2_mod, conv2_i16, conv2_twice. unfold i16. zlia. Qed.
Lemma field16_s' norm x : - 2 ^ 15 ≤ x < 2 ^ 15 → i16 (conv2 norm (conv2 norm x mod 2 ^ 16)) = x.
Proof. intros Hx. rewrite conv2_mod, conv2_twice. unfold i16. zlia. Qed.
Lemma field16_b norm x : - 2 ^ 7 ≤ x < 2 ^ 7 → i8 (conv2 norm (conv2 norm x mod 2 ^ 16)) = x.
Proof. intros Hx. rewrite conv2_mod, conv2_twice. unfold i8. zlia. Qed.

(** A 32-bit field of the image, unsigned or signed. *)
Lemma field32_u norm x :
  0 ≤ x < 2 ^ 32 → u32 (conv4 norm (i32 (u32 (conv4 norm (i32 x)) mod 2 ^ 32))) = x.
Proof.
  intros Hx. pose proof (i32_range x) as Hi. pose proof (conv4_range norm _ Hi) as Hc.
  rewrite i32_mod. replace (i32 (u32 (conv4 norm (i32 x)))) with (conv4 norm (i32 x)).
  - rewrite conv4_twice by done. unfold u32, i32. zlia.
  - unfold u32. rewrite i32_mod. symmetry. by apply i32_id.
Qed.
Lemma field32_s norm x :
  - 2 ^ 31 ≤ x < 2 ^ 31 → i32 (conv4 norm (i32 (i32 (conv4 norm x) mod 2 ^ 32))) = x.
Proof.
  intros Hx. pose proof (conv4_range norm _ Hx) as Hc.
  rewrite (i32_id (conv4 norm x)), i32_mod, (i32_id (conv4 norm x)) by done.
  rewrite conv4_twice by done. by apply i32_id.
Qed.

(** * Inodes that fit their image *)

(** The fields of an inode are in the range of their C types. *)
Record v2_fits (rip : inode) : Prop := {
  fit_mode : 0 ≤ i_mode rip < 2 ^ 16;
  fit_nlinks : - 2 ^ 15 ≤ i_nlinks rip < 2 ^ 15;
  fit_uid : - 2 ^ 15 ≤ i_uid rip < 2 ^ 15;
  fit_gid : - 2 ^ 7 ≤ i_gid rip < 2 ^ 7;
  fit_size : 0 ≤ i_size rip < 2 ^ 32;
  fit_atime : - 2 ^ 31 ≤ i_atime rip < 2 ^ 31;
  fit_mtime : - 2 ^ 31 ≤ i_mtime rip < 2 ^ 31;
  fit_ctime : - 2 ^ 31 ≤ i_ctime rip < 2 ^ 31;
  fit_zones : Forall (λ z, 0 ≤ z < 2 ^ 32) (i_zone rip);
  fit_length : length (i_zone rip) = V2_NR_TZONES
}.

Lemma zones32 norm zs :
  Forall (λ z, 0 ≤ z < 2 ^ 32) zs →
  (λ z, u32 (conv4 norm (i32 z))) <$>
    zip_with (λ w v, v mod 2 ^ (Z.of_nat w * 8)) (replicate (length zs) 4%nat)
      ((λ z, u32 (conv4 norm (i32 z))) <$> zs) = zs.
Proof.
  induction 1 as [|z zs Hz _ IH]; [done|]. simpl. f_equal; [|exact IH].
  exact (field32_u norm z Hz).
Qed.

Lemma zones16 norm zs :
  Forall (λ z, 0 ≤ z < 2 ^ 16) zs →
  conv2 norm <$> zip_with (λ w v, v mod 2 ^ (Z.of_nat w * 8)) (replicate (length zs) 2%nat)
    (conv2 norm <$> zs) = zs.
Proof.
  induction 1 as [|z zs Hz _ IH]; [done|]. simpl. f_equal; [|exact IH].
  etrans; [apply (conv2_mod norm)|]. rewrite conv2_twice. by apply Z.mod_small.
Qed.

(** The image of V2 and V3 in a block: what is loaded after a store. *)
Lemma d2_load_store off dip d d' :
  length (d2_zone dip) = V2_NR_TZONES → d2_store off dip d = Some d' →
  d2_load off d' = Some (D2Inode (d2_mode dip mod 2 ^ 16) (d2_nlinks dip mod 2 ^ 16)
    (i16 (d2_uid dip mod 2 ^ 16)) (d2_gid dip mod 2 ^ 16) (d2_size dip mod 2 ^ 32)
    (i32 (d2_atime dip mod 2 ^ 32)) (i32 (d2_mtime dip mod 2 ^ 32)) (i32 (d2_ctime dip mod 2 ^ 32))
    (zip_with (λ w v, v mod 2 ^ (Z.of_nat w * 8)) (replicate V2_NR_TZONES 4%nat) (d2_zone dip))).
Proof.
  intros Hlen Hd. unfold d2_load. unfold d2_store in Hd.
  apply load_store_fields in Hd; [|simpl; by rewrite Hlen]. by rewrite Hd.
Qed.

Lemma d1_load_store off dip d d' :
  length (d1_zone dip) = V1_NR_TZONES → d1_store off dip d = Some d' →
  d1_load off d' = Some (D1Inode (d1_mode dip mod 2 ^ 16) (i16 (d1_uid dip mod 2 ^ 16))
    (d1_size dip mod 2 ^ 32) (i32 (d1_mtime dip mod 2 ^ 32)) (d1_gid dip mod 2 ^ 8)
    (d1_nlinks dip mod 2 ^ 8)
    (zip_with (λ w v, v mod 2 ^ (Z.of_nat w * 8)) (replicate V1_NR_TZONES 2%nat) (d1_zone dip))).
Proof.
  intros Hlen Hd. unfold d1_load. unfold d1_store in Hd.
  apply load_store_fields in Hd; [|simpl; by rewrite Hlen]. by rewrite Hd.
Qed.

(** * The inodes of a block *)

(** The inode [num] of the file system [x] in the block [d] of the disk, as it
    comes into a slot that held [r]; the block with the inode [r] stored. *)
Definition inode_image (x : super_block) (num : Z) (d : list Z) (r : inode) : option inode :=
  if s_version x =? V1
  then (λ dip, old_icopy_read (truth (s_native x)) dip r) <$> d1_load (v1_inode_off num) d
  else (λ dip, new_icopy_read (truth (s_native x)) (s_block_size x) dip r)
         <$> d2_load (v2_inode_off x num) d.
Definition image_store (x : super_block) (num : Z) (d : list Z) (r : inode) : option (list Z) :=
  if s_version x =? V1
  then d1_store (v1_inode_off num) (old_icopy_write (truth (s_native x)) r) d
  else d2_store (v2_inode_off x num) (new_icopy_write (truth (s_native x)) r) d.

(** The inodes in a block, the place of an inode there, and its size. *)
Definition per_block (x : super_block) : Z :=
  if s_version x =? V1 then V1_INODES_PER_BLOCK else V2_INODES_PER_BLOCK (s_block_size x).
Definition inode_off (x : super_block) (num : Z) : nat :=
  if s_version x =? V1 then v1_inode_off num else v2_inode_off x num.
Definition inode_size (x : super_block) : nat := if s_version x =? V1 then 32%nat else 64%nat.

(** The slots of an inode agree on what the disk holds of it: all but the times
    of access and change, which V1 does not have, and the zones it has no room
    for. *)
Record same_file (x : super_block) (r r' : inode) : Prop := {
  sf_mode : i_mode r' = i_mode r;
  sf_nlinks : i_nlinks r' = i_nlinks r;
  sf_uid : i_uid r' = i_uid r;
  sf_gid : i_gid r' = i_gid r;
  sf_size : i_size r' = i_size r;
  sf_mtime : i_mtime r' = i_mtime r;
  sf_times : s_version x ≠ V1 → i_atime r' = i_atime r ∧ i_ctime r' = i_ctime r;
  sf_zones n : (n < (if (s_version x =? V1)%Z then V1_NR_TZONES else V2_NR_TZONES))%nat →
    i_zone r' !! n = i_zone r !! n
}.

(** The values the disk has room for. *)
Definition inode_fits (x : super_block) (r : inode) : Prop :=
  v2_fits r ∧ (s_version x = V1 → 0 ≤ i_nlinks r < 2 ^ 8 ∧ Forall (λ z, 0 ≤ z < 2 ^ 16) (i_zone r)).

Lemma image_store_fields x num d r d' :
  image_store x num d r = Some d' → ∃ vs,
    store_fields (if s_version x =? V1 then d1_widths else d2_widths) (inode_off x num) vs d = Some d'.
Proof.
  unfold image_store, inode_off. case_match; [unfold d1_store|unfold d2_store]; eauto.
Qed.

Lemma inode_size_widths x :
  sum_list (if s_version x =? V1 then d1_widths else d2_widths) = inode_size x.
Proof. unfold inode_size. by case_match. Qed.

Lemma inode_image_ext x num d d' r :
  (if s_version x =? V1 then load_fields d1_widths (inode_off x num) d' = load_fields d1_widths (inode_off x num) d
   else load_fields d2_widths (inode_off x num) d' = load_fields d2_widths (inode_off x num) d) →
  inode_image x num d' r = inode_image x num d r.
Proof.
  unfold inode_image, inode_off, d1_load, d2_load. by destruct (s_version x =? V1); intros ->.
Qed.

(** An inode fits in the block. *)
Lemma inode_off_bound x num :
  MIN_BLOCK_SIZE ≤ s_block_size x → (inode_off x num + inode_size x ≤ Z.to_nat (s_block_size x))%nat.
Proof.
  unfold MIN_BLOCK_SIZE, inode_off, inode_size, v1_inode_off, v2_inode_off. intros Hbs.
  unfold V1_INODES_PER_BLOCK, V2_INODES_PER_BLOCK, V1_INODE_SIZE, V2_INODE_SIZE. case_match.
  - pose proof (Z.mod_pos_bound (u32 (num - 1)) 32). lia.
  - pose proof (Z.mod_pos_bound (u32 (num - 1)) (s_block_size x / 64)). zlia.
Qed.

Lemma inode_image_is_Some x num d r :
  (inode_off x num + inode_size x ≤ length d)%nat → is_Some (inode_image x num d r).
Proof.
  intros H. unfold inode_image, inode_off, inode_size in *. destruct (s_version x =? V1).
  - unfold d1_load. destruct (load_fields_is_Some d1_widths (v1_inode_off num) d) as [vs E]; [simpl; lia|].
    rewrite E. apply length_load_fields in E. do 6 (destruct vs as [|? vs]; [done|]). eauto.
  - unfold d2_load. destruct (load_fields_is_Some d2_widths (v2_inode_off x num) d) as [vs E]; [simpl; lia|].
    rewrite E. apply length_load_fields in E. do 8 (destruct vs as [|? vs]; [done|]). eauto.
Qed.

Lemma image_store_is_Some x num d r :
  (inode_off x num + inode_size x ≤ length d)%nat → is_Some (image_store x num d r).
Proof.
  intros H. unfold image_store, inode_off, inode_size in *. destruct (s_version x =? V1).
  - apply store_fields_is_Some. simpl. lia.
  - apply store_fields_is_Some. simpl. lia.
Qed.

(** Only the start of the block matters, and the rest of it stays. *)
Lemma inode_image_take x num d r n :
  (inode_off x num + inode_size x ≤ n)%nat → inode_image x num (take n d) r = inode_image x num d r.
Proof.
  intros H. apply inode_image_ext. unfold inode_size in H.
  destruct (s_version x =? V1); by apply load_fields_take.
Qed.

Lemma image_store_ne x num num' d d' r r0 :
  image_store x num d r = Some d' →
  (inode_off x num' + inode_size x ≤ inode_off x num ∨
   inode_off x num + inode_size x ≤ inode_off x num')%nat →
  inode_image x num' d' r0 = inode_image x num' d r0.
Proof.
  intros (vs & E)%image_store_fields Hdis. apply inode_image_ext. unfold inode_size in Hdis.
  destruct (s_version x =? V1); by apply (load_fields_store_ne _ _ _ _ _ _ _ E).
Qed.

(** The round trip: the slot that an image is read into agrees with the slot it
    was written from. *)
Lemma image_roundtrip x num d d' r r0 :
  inode_fits x r → image_store x num d r = Some d' →
  ∃ r', inode_image x num d' r0 = Some r' ∧ same_file x r r'.
Proof.
  intros [[] Hv1]. unfold image_store, inode_image. set (norm := truth (s_native x)).
  destruct (Z.eqb_spec (s_version x) V1) as [E|E]; intros Hd.
  - destruct (Hv1 E) as [Hl Hz]. apply d1_load_store in Hd.
    2:{ simpl. rewrite length_fmap, length_take, fit_length0. done. }
    pose proof (zones16 norm (take V1_NR_TZONES (i_zone r)) (Forall_take _ _ _ Hz)) as Ez.
    rewrite length_take, fit_length0 in Ez.
    rewrite Hd. eexists. split; [reflexivity|]. split; simpl.
    + by apply field16_u.
    + rewrite i16_id; [|unfold u8; zlia]. unfold u8. zlia.
    + by apply field16_s.
    + unfold i8, u8. zlia.
    + by apply field32_u.
    + by apply field32_s.
    + by rewrite E.
    + intros n Hn. rewrite E in Hn. simpl in Hn. rewrite lookup_app_l.
      * rewrite <- (lookup_take_lt (i_zone r) V1_NR_TZONES n) by done. by apply (f_equal (λ zs, zs !! n) Ez).
      * refine (Nat.lt_le_trans _ _ _ Hn (Nat.eq_le_incl _ _ (eq_sym _))).
        etrans; [exact (f_equal length Ez)|]. by rewrite length_take, fit_length0.
  - apply d2_load_store in Hd.
    2:{ simpl. rewrite length_fmap, length_take, fit_length0. done. }
    pose proof (zones32 norm (take V2_NR_TZONES (i_zone r)) (Forall_take _ _ _ fit_zones0)) as Ez.
    rewrite length_take, fit_length0 in Ez.
    rewrite Hd. eexists. split; [reflexivity|]. split; simpl.
    + by apply field16_u.
    + by apply field16_s'.
    + by apply field16_s.
    + by apply field16_b.
    + by apply field32_u.
    + by apply field32_s.
    + intros _. split; by apply field32_s.
    + intros n Hn. apply Z.eqb_neq in E. rewrite E in Hn. rewrite lookup_app_l.
      * rewrite <- (lookup_take_lt (i_zone r) V2_NR_TZONES n) by done. by apply (f_equal (λ zs, zs !! n) Ez).
      * refine (Nat.lt_le_trans _ _ _ Hn (Nat.eq_le_incl _ _ (eq_sym _))).
        etrans; [exact (f_equal length Ez)|]. by rewrite length_take, fit_length0.
Qed.
