(* ===== verification/InodeContract.v ===== *)
(** inode.c against the view of a device: [rw_inode] writes an inode to its place
    on the disk and reads it from there, and [get_inode] gives the inode to its
    callers through the table in memory. *)

From S2P Require Import Prelude Machine State Monad Utility SuperTable Cache CacheInv DiskView Flush CacheSpec CacheContract Bitmap BitmapSpec Inode InodeSpec.

Section contract.
Context {cfg : Config} {krn : Kernel} {dk : Disk}.
Implicit Types (s : st) (t : tables) (x : super_block) (r : inode).

(** * The tables the cache depends on *)

Record same_devices (t t' : tables) : Prop := {
  sd_supers : supers t' = supers t;
  sd_dmaps : dmaps t' = dmaps t
}.

Lemma same_devices_geometry t t' : same_devices t t' → same_geometry t t'.
Proof. intros [E1 E2]. split; [|done]. intros dev. unfold dev_bs. by rewrite E1. Qed.

Lemma view_devices t t' k l dev blk :
  same_devices t t' → view t' k l dev blk = view t k l dev blk.
Proof. intros H. by apply view_geometry, same_devices_geometry. Qed.

Lemma addressable_devices t t' dev blk :
  same_devices t t' → addressable t dev blk → addressable t' dev blk.
Proof. intros H. by apply addressable_geometry, same_devices_geometry. Qed.

Lemma cache_ok_devices t t' D s s' :
  cache_ok t D s → same_devices t t' → tabs s' = t' → cache s' = cache s → kern s' = kern s →
  cache_ok t' D s'.
Proof. intros H Hd. by apply (cache_ok_geometry t), same_devices_geometry. Qed.

(** * The place of an inode *)

Definition first_inode_block (x : super_block) : Z := s_imap_blocks x + s_zmap_blocks x + 2.

Record inode_place (t : tables) (D : Z → Prop) (dev : Z) (sp : nat) (x : super_block) (num : Z) : Prop := {
  ip_dev : D dev;
  ip_super : find_super dev (supers t) = Some (sp, x);
  ip_per : s_inodes_per_block x = per_block x;
  ip_num : 0 < num < 2 ^ 32;
  ip_first : 0 ≤ first_inode_block x;
  ip_addr : addressable t dev (first_inode_block x + (num - 1) / per_block x)
}.

(** What the clients see of the devices of a state. *)
Definition dview (s : st) (dev blk : Z) : list Z := view (tabs s) (kern s) (bufs (cache s)) dev blk.

(** The inode as the clients of the cache see it on the disk. *)
Definition disk_inode (s : st) (dev : Z) (x : super_block) (num : Z) (r : inode) : option inode :=
  inode_image x num (dview s dev (inode_block x num)) r.

Section place.
Context (t : tables) (D : Z → Prop) (dev : Z) (sp : nat) (x : super_block).
Hypothesis HD : disks t D.

Lemma ip_bs num :
  inode_place t D dev sp x num →
  dev_bs t dev = s_block_size x ∧ MIN_BLOCK_SIZE ≤ s_block_size x ≤ MAX_BLOCK_SIZE.
Proof using HD.
  intros Hip.
  assert (dev_bs t dev = s_block_size x) as E by (unfold dev_bs; by rewrite (ip_super _ _ _ _ _ _ Hip)).
  split; [done|]. rewrite <- E. by apply (disks_ok _ _ HD), Hip.
Qed.

Lemma ip_per_pos num : inode_place t D dev sp x num → 0 < per_block x.
Proof using HD.
  intros Hip. destruct (ip_bs _ Hip) as (_ & Hmin & _). unfold MIN_BLOCK_SIZE in Hmin.
  unfold per_block, V1_INODES_PER_BLOCK, V2_INODES_PER_BLOCK. case_match; zlia.
Qed.

Lemma ip_block num :
  inode_place t D dev sp x num →
  inode_block x num = first_inode_block x + (num - 1) / per_block x ∧
  addressable t dev (inode_block x num) ∧ 0 ≤ inode_block x num < 2 ^ 32.
Proof using HD.
  intros Hip. pose proof (ip_per_pos _ Hip) as Hper. destruct (ip_bs _ Hip) as (Ebs & Hmin & Hmax).
  unfold MIN_BLOCK_SIZE in Hmin. destruct Hip as [_ _ Eper Hnum Hfirst [Ha1 Ha2]]. rewrite Ebs in Ha2.
  assert (0 ≤ (num - 1) / per_block x) by (apply Z.div_pos; lia).
  assert (inode_block x num = first_inode_block x + (num - 1) / per_block x) as E.
  { unfold inode_block. rewrite Eper, (u32_id (num - 1)) by lia.
    unfold first_inode_block in *. rewrite (u32_id (_ + 2)) by nia. rewrite u32_id; [lia|nia]. }
  split; [done|]. rewrite E. split; [split; [done|by rewrite Ebs]|]. split; [done|nia].
Qed.

(** Different inodes of the file system are apart. *)
Lemma ip_apart num num' :
  inode_place t D dev sp x num → inode_place t D dev sp x num' → num' ≠ num →
  inode_block x num' = inode_block x num →
  (inode_off x num' + inode_size x ≤ inode_off x num ∨
   inode_off x num + inode_size x ≤ inode_off x num')%nat.
Proof using HD.
  intros Hip Hip' Hne Hblk. pose proof (ip_per_pos _ Hip) as Hper.
  assert ((num' - 1) / per_block x = (num - 1) / per_block x) as Hq.
  { destruct (ip_block _ Hip) as (E & _), (ip_block _ Hip') as (E' & _). lia. }
  pose proof (ip_num _ _ _ _ _ _ Hip). pose proof (ip_num _ _ _ _ _ _ Hip').
  assert ((num' - 1) mod per_block x ≠ (num - 1) mod per_block x) as Hm.
  { intros Hm. apply Hne. pose proof (Z.div_mod (num' - 1) (per_block x)).
    pose proof (Z.div_mod (num - 1) (per_block x)). nia. }
  pose proof (Z.mod_pos_bound (num' - 1) (per_block x) Hper).
  pose proof (Z.mod_pos_bound (num - 1) (per_block x) Hper).
  unfold per_block, inode_off, inode_size, v1_inode_off, v2_inode_off, V1_INODE_SIZE, V2_INODE_SIZE in *.
  rewrite !u32_id by lia. case_match; lia.
Qed.
End place.

(** * [rw_inode] *)

(** The inode table with the slot [rip] changed. *)
Definition with_inode (rip : nat) (r : inode) (t : tables) : tables :=
  t <| inodes ::= λ l, <[rip := r]> l |>.

Lemma with_inode_devices rip r t : same_devices t (with_inode rip r t).
Proof. by split. Qed.

Lemma icopy_read_spec rip bp b x sp num r r' s Q :
  inodes (tabs s) !! rip = Some r → i_sp r = Some sp → supers (tabs s) !! sp = Some x →
  bufs (cache s) !! bp = Some b → inode_image x num (b_data b) r = Some r' →
  Q tt (s <| tabs ::= with_inode rip r' |>) →
  wp (if s_version x =? V1
      then old_icopy rip bp (v1_inode_off num) READING (truth (s_native x))
      else new_icopy rip bp (v2_inode_off x num) READING (truth (s_native x))) Q s.
Proof.
  intros Hr Esp Hx Hb Himg HQ. unfold inode_image in Himg.
  destruct (s_version x =? V1); apply fmap_Some in Himg as (dip & Hdip & ->).
  - unfold old_icopy. wp_pure. wp_rd. wp_pure. eapply wp_deref; [exact Hdip|].
    eapply wp_wr; [exact Hr|]. exact HQ.
  - unfold new_icopy. wp_pure. wp_rd. wp_pure. eapply wp_deref; [exact Hdip|].
    wp_pure. eapply wp_rd; [exact Hr|]. wp_pure. eapply wp_deref; [exact Esp|].
    wp_pure. eapply wp_rd; [exact Hx|]. eapply wp_wr; [exact Hr|]. exact HQ.
Qed.

Lemma icopy_write_spec rip bp b x num r d' s Q :
  inodes (tabs s) !! rip = Some r → bufs (cache s) !! bp = Some b →
  (inode_off x num + inode_size x ≤ length (b_data b))%nat →
  image_store x num (b_data b) r = Some d' →
  Q tt (with_table (<[bp := b <| b_data := d' |>]> (bufs (cache s))) s) →
  wp (if s_version x =? V1
      then old_icopy rip bp (v1_inode_off num) WRITING (truth (s_native x))
      else new_icopy rip bp (v2_inode_off x num) WRITING (truth (s_native x))) Q s.
Proof.
  intros Hr Hb Hlen Hst HQ. destruct (inode_image_is_Some x num (b_data b) r Hlen) as [r' Himg].
  unfold inode_image in Himg. unfold image_store in Hst.
  destruct (s_version x =? V1); apply fmap_Some in Himg as (dip & Hdip & _).
  - unfold old_icopy. wp_pure. wp_rd. wp_pure. eapply wp_deref; [exact Hdip|].
    wp_pure. eapply wp_rd; [exact Hr|]. wp_pure. eapply wp_deref; [exact Hst|].
    eapply wp_wr; [exact Hb|]. exact HQ.
  - unfold new_icopy. wp_pure. wp_rd. wp_pure. eapply wp_deref; [exact Hdip|].
    wp_pure. eapply wp_rd; [exact Hr|]. wp_pure. eapply wp_deref; [exact Hst|].
    eapply wp_wr; [exact Hb|]. exact HQ.
Qed.

Lemma with_inode_twice rip r r' t : with_inode rip r' (with_inode rip r t) = with_inode rip r' t.
Proof. destruct t. unfold with_inode, set_field. simpl. by rewrite list_insert_insert_eq. Qed.

Lemma with_inode_lookup rip r r0 t :
  inodes t !! rip = Some r0 → inodes (with_inode rip r t) !! rip = Some r.
Proof. intros H. apply list_lookup_insert_eq. by eapply lookup_lt_Some. Qed.

Lemma dview_with_inode s rip r dev blk : dview (s <| tabs ::= with_inode rip r |>) dev blk = dview s dev blk.
Proof. unfold dview. simpl. by apply view_devices. Qed.

Lemma cache_ok_with_inode t D s rip r :
  cache_ok t D s → cache_ok (with_inode rip r t) D (s <| tabs ::= with_inode rip r |>).
Proof.
  intros H. apply (cache_ok_devices t _ D s); [done|done| |done|done]. simpl. by rewrite (ok_tabs _ _ _ H).
Qed.

(** [rw_inode] up to the access to the block: [bp] holds the block of the
    inode. *)
Lemma rw_inode_start D s rip r dev sp x num flag Q :
  inodes (tabs s) !! rip = Some r → i_dev r = dev → i_num r = num →
  inode_place (tabs s) D dev sp x num → cache_ok (tabs s) D s → has_free s →
  let r1 := r <| i_sp := Some sp |> in let t := with_inode rip r1 (tabs s) in
  (∀ s2 bp b, cache_ok t D s2 → glo s2 = glo s → uses bp 1 s s2 →
     (∀ dev blk, D dev → dview s2 dev blk = dview s dev blk) →
     bufs (cache s2) !! bp = Some b → named dev (inode_block x num) b → 0 < b_count b →
     block_data t b = dview s dev (inode_block x num) →
     wp (match flag with
         | WRITING =>
             upd ← rd i_update rip;
             when (truth upd) (update_times rip);;
             when (s_rd_only x =? 0) (set_dirty bp)
         | READING => mret tt
         end;;
         (if s_version x =? V1
          then old_icopy rip bp (v1_inode_off num) flag (truth (s_native x))
          else new_icopy rip bp (v2_inode_off x num) flag (truth (s_native x)));;
         put_block (Some bp) INODE_BLOCK;;
         wr rip (λ r, r <| i_dirt := CLEAN |>)) Q s2) →
  wp (rw_inode rip flag) Q s.
Proof.
  intros Hr Edev Enum Hip Hok Hfree r1 t Hrest. set (s1 := s <| tabs ::= with_inode rip r1 |>).
  pose proof (ok_disks _ _ _ Hok) as HD. pose proof Hip as [Hdev Hsup Eper _ _ _].
  pose proof (disk_dev _ _ (disks_ok _ _ HD _ Hdev)) as Hnz.
  destruct (ip_bs _ _ _ _ _ HD _ Hip) as (Ebs & Hmin & _). unfold MIN_BLOCK_SIZE in Hmin.
  destruct (ip_block _ _ _ _ _ HD _ Hip) as (_ & Hadd & _).
  pose proof (ip_per_pos _ _ _ _ _ HD _ Hip) as Hper.
  assert (cache_ok t D s1) as Hok1 by by apply cache_ok_with_inode.
  unfold rw_inode. wp_pure. eapply wp_rd; [exact Hr|]. rewrite Edev. wp_pure.
  unfold get_super. apply Z.eqb_neq in Hnz. rewrite Hnz. do 2 wp_pure. rewrite Hsup. wp_pure.
  wp_pure. eapply wp_wr; [exact Hr|]. change (with_table _ s) with s1.
  apply list_find_Some in Hsup as (Hx & _).
  wp_pure. eapply wp_rd; [exact Hx|]. wp_pure.
  eapply wp_rd; [by eapply (with_inode_lookup rip)|]. change (i_num r1) with (i_num r). rewrite Enum, Eper.
  destruct (Z.eqb_spec (per_block x) 0); [lia|].
  destruct (Z.eqb_spec (V2_INODES_PER_BLOCK (s_block_size x)) 0) as [E|_].
  { unfold V2_INODES_PER_BLOCK in E. zlia. }
  simpl orb. cbv iota. wp_pure. eapply wp_mono.
  { apply (get_block_normal t D); [done|done| |by apply has_free_available].
    by apply (addressable_devices (tabs s)). }
  intros bp s2 (Hok2 & T & _ & U & b & Hb & Hn & Hc & Hdata).
  apply (Hrest s2 bp b); try done.
  - by rewrite (same_glo _ _ (tr_rest _ _ _ _ T)).
  - intros dev' blk HDdev. unfold dview. rewrite (ok_tabs _ _ _ Hok2), (tr_view _ _ _ _ T) by done.
    simpl. by apply view_devices.
Qed.

(** [rw_inode(rip, READING)] *)
Lemma rw_inode_read_ok D s rip r dev sp x num :
  inodes (tabs s) !! rip = Some r → i_dev r = dev → i_num r = num →
  inode_place (tabs s) D dev sp x num → cache_ok (tabs s) D s → has_free s →
  wp (rw_inode rip READING) (λ _ s', ∃ r',
    disk_inode s dev x num (r <| i_sp := Some sp |>) = Some r' ∧
    tabs s' = with_inode rip (r' <| i_dirt := CLEAN |>) (tabs s) ∧ glo s' = glo s ∧
    cache_ok (tabs s') D s' ∧ has_free s' ∧ ∀ dev blk, D dev → dview s' dev blk = dview s dev blk) s.
Proof.
  intros Hr Edev Enum Hip Hok Hfree. pose proof (ok_disks _ _ _ Hok) as HD.
  eapply rw_inode_start; [done..|]. intros s2 bp b Hok2 Eg U Hv Hb Hn Hc Hdata.
  set (r1 := r <| i_sp := Some sp |>) in *. set (t := with_inode rip r1 (tabs s)) in *.
  destruct (ip_bs _ _ _ _ _ HD _ Hip) as (Ebs & Hbs).
  pose proof (inode_off_bound x num (proj1 Hbs)) as Hoff.
  assert (inode_image x num (b_data b) r1 = disk_inode s dev x num r1) as Himg.
  { unfold disk_inode. rewrite <- Hdata. unfold block_data. destruct Hn as [-> _].
    change (dev_bs t dev) with (dev_bs (tabs s) dev). rewrite Ebs. symmetry. by apply inode_image_take. }
  destruct (wf_data _ _ _ (co_wf _ _ _ _ (ok_coherent _ _ _ Hok2) _ _ Hb)) as [Hlen _].
  destruct (inode_image_is_Some x num (b_data b) r1) as [r' Hr']; [lia|].
  destruct (proj1 (list_find_Some _ _ _ _) (ip_super _ _ _ _ _ _ Hip)) as (Hx & _).
  do 2 wp_pure. wp_pure. eapply icopy_read_spec; [| | |exact Hb|exact Hr'|].
  { rewrite (ok_tabs _ _ _ Hok2). by eapply with_inode_lookup. } { done. }
  { by rewrite (ok_tabs _ _ _ Hok2). }
  set (s3 := s2 <| tabs ::= with_inode rip r' |>).
  pose proof (cache_ok_with_inode t D s2 rip r' Hok2) as Hok3. fold s3 in Hok3.
  wp_pure. eapply wp_mono; [by eapply (put_block_ok _ D s3 bp b INODE_BLOCK Hok3)|].
  intros [] s4 (Hok4 & T4 & _ & U4). eapply wp_wr.
  { simpl. rewrite (ok_tabs _ _ _ Hok4). eapply with_inode_lookup. by eapply with_inode_lookup. }
  change (with_table _ s4) with (s4 <| tabs ::= with_inode rip (r' <| i_dirt := CLEAN |>) |>).
  exists r'. split; [by rewrite <- Himg|]. split; [|split; [|split; [|split]]].
  - change (with_inode rip (r' <| i_dirt := CLEAN |>) (tabs s4) = with_inode rip (r' <| i_dirt := CLEAN |>) (tabs s)).
    rewrite (ok_tabs _ _ _ Hok4). unfold t. by rewrite !with_inode_twice.
  - simpl. by rewrite (same_glo _ _ (tr_rest _ _ _ _ T4)).
  - simpl. rewrite (ok_tabs _ _ _ Hok4). by apply cache_ok_with_inode.
  - eapply put_back; [exact Hfree|exact U| |exact U4]. done.
  - intros dev' blk HDdev. rewrite dview_with_inode, <- Hv by done. unfold dview.
    rewrite (ok_tabs _ _ _ Hok4), (tr_view _ _ _ _ T4), (ok_tabs _ _ _ Hok2) by done.
    apply (view_devices t), with_inode_devices.
Qed.

(** The rest of it: the inode is stored and the block put back. *)
Lemma rw_inode_store D s s2 rip r r1 r2 dev sp x num bp b :
  inodes (tabs s) !! rip = Some r → inode_place (tabs s) D dev sp x num → s_rd_only x = 0 →
  cache_ok (tabs s) D s → has_free s →
  cache_ok (with_inode rip r1 (tabs s)) D s2 → glo s2 = glo s → uses bp 1 s s2 →
  (∀ dev blk, D dev → dview s2 dev blk = dview s dev blk) →
  bufs (cache s2) !! bp = Some b → named dev (inode_block x num) b → 0 < b_count b →
  block_data (with_inode rip r1 (tabs s)) b = dview s dev (inode_block x num) →
  wp (when (s_rd_only x =? 0) (set_dirty bp);;
      (if s_version x =? V1
       then old_icopy rip bp (v1_inode_off num) WRITING (truth (s_native x))
       else new_icopy rip bp (v2_inode_off x num) WRITING (truth (s_native x)));;
      put_block (Some bp) INODE_BLOCK;;
      wr rip (λ r, r <| i_dirt := CLEAN |>))
    (λ _ s',
      tabs s' = with_inode rip (r2 <| i_dirt := CLEAN |>) (tabs s) ∧ glo s' = glo s ∧
      cache_ok (tabs s') D s' ∧ has_free s' ∧
      (∃ d d', image_store x num d r2 = Some d' ∧
         take (Z.to_nat (s_block_size x)) d = dview s dev (inode_block x num) ∧
         dview s' dev (inode_block x num) = take (Z.to_nat (s_block_size x)) d') ∧
      ∀ dev' blk, D dev' → (dev', blk) ≠ (dev, inode_block x num) →
        dview s' dev' blk = dview s dev' blk) (s2 <| tabs ::= with_inode rip r2 |>).
Proof.
  intros Hr Hip Hro Hok Hfree Hok1 Eg U Hv1 Hb Hn Hc Hdata. pose proof (ok_disks _ _ _ Hok) as HD.
  set (t := with_inode rip r2 (tabs s)).
  set (s2' := s2 <| tabs ::= with_inode rip r2 |>).
  assert (cache_ok t D s2') as Hok2.
  { pose proof (cache_ok_with_inode _ D s2 rip r2 Hok1) as H. unfold t. by rewrite with_inode_twice in H. }
  assert (∀ dev blk, D dev → dview s2' dev blk = dview s dev blk) as Hv.
  { intros dev' blk HD'. unfold s2'. rewrite dview_with_inode. by apply Hv1. }
  destruct (ip_bs _ _ _ _ _ HD _ Hip) as (Ebs & Hbs).
  pose proof (inode_off_bound x num (proj1 Hbs)) as Hoff.
  pose proof (wf_data _ _ _ (co_wf _ _ _ _ (ok_coherent _ _ _ Hok2) _ _ Hb)) as Hpage.
  pose proof Hpage as [Hlen Hbytes].
  destruct (image_store_is_Some x num (b_data b) r2) as [d' Hd']; [lia|].
  assert (page_ok d') as Hpage'.
  { apply image_store_fields in Hd' as (vs & E). split; [by rewrite (length_store_fields _ _ _ _ _ E)|].
    by eapply store_fields_bytes_ok. }
  pose proof (disk_dev _ _ (disks_ok _ _ HD _ (ip_dev _ _ _ _ _ _ Hip))) as Hnz.
  assert (inodes (tabs s2') !! rip = Some r2) as Hr2.
  { rewrite (ok_tabs _ _ _ Hok2). by eapply with_inode_lookup. }
  assert (bp < length (bufs (cache s2')))%nat as Hlt by by eapply lookup_lt_Some.
  apply wp_bind, wp_when; [intros _|by rewrite Hro].
  eapply wp_wr; [exact Hb|]. set (s3 := with_table _ s2').
  wp_pure. eapply (icopy_write_spec rip bp (b <| b_dirt := DIRTY |>) x num r2 d').
  { exact Hr2. } { apply list_lookup_insert_eq. done. } { simpl. lia. } { exact Hd'. }
  assert (with_table (<[bp := (b <| b_dirt := DIRTY |>) <| b_data := d' |>]> (bufs (cache s3))) s3 =
    store_into bp b d' s2') as ->.
  { unfold s3, store_into. change (bufs (cache (with_table ?l _))) with l.
    by rewrite with_table_twice, list_insert_insert_eq. }
  assert (b_dev b ≠ NO_DEV) as Hbnz by (destruct Hn as [-> _]; done).
  pose proof (store_into_ok t D s2' bp b d' Hok2 Hb Hbnz Hpage') as Hok4.
  set (b4 := b <| b_data := d' |> <| b_dirt := DIRTY |>).
  assert (bufs (cache (store_into bp b d' s2')) !! bp = Some b4) as Hb4 by by apply list_lookup_insert_eq.
  wp_pure. eapply wp_mono; [by eapply (put_block_ok t D _ bp b4 INODE_BLOCK Hok4 Hb4)|].
  intros [] s5 (Hok5 & T5 & _ & U5). eapply wp_wr.
  { simpl. rewrite (ok_tabs _ _ _ Hok5). by eapply with_inode_lookup. }
  change (with_table _ s5) with (s5 <| tabs ::= with_inode rip (r2 <| i_dirt := CLEAN |>) |>).
  assert (∀ dev' blk, D dev' → dview s5 dev' blk =
    if decide (named dev' blk b) then take (Z.to_nat (dev_bs t dev')) d' else dview s dev' blk) as Hv5.
  { intros dev' blk HDdev. rewrite <- Hv by done. unfold dview.
    rewrite (ok_tabs _ _ _ Hok5), (tr_view _ _ _ _ T5), (ok_tabs _ _ _ Hok2) by done.
    rewrite (store_into_view t D) by (done || by apply (disks_ok _ _ HD)). done. }
  split; [|split; [|split; [|split; [|split]]]].
  - change (with_inode rip (r2 <| i_dirt := CLEAN |>) (tabs s5) = with_inode rip (r2 <| i_dirt := CLEAN |>) (tabs s)).
    rewrite (ok_tabs _ _ _ Hok5). unfold t. by rewrite with_inode_twice.
  - change (glo s5 = glo s). by rewrite (same_glo _ _ (tr_rest _ _ _ _ T5)).
  - change (cache_ok (with_inode rip (r2 <| i_dirt := CLEAN |>) (tabs s5)) D
      (s5 <| tabs ::= with_inode rip (r2 <| i_dirt := CLEAN |>) |>)).
    rewrite (ok_tabs _ _ _ Hok5). by apply cache_ok_with_inode.
  - eapply put_back; [exact Hfree|exact U| |exact U5].
    intros j. simpl. by rewrite (field_insert_same _ _ _ b).
  - exists (b_data b), d'. split; [done|]. split.
    + rewrite <- Hdata. unfold block_data. destruct Hn as [-> _].
      change (dev_bs (with_inode _ _ _) dev) with (dev_bs (tabs s) dev). by rewrite Ebs.
    + rewrite dview_with_inode, Hv5, decide_True by (done || apply Hip).
      change (dev_bs t dev) with (dev_bs (tabs s) dev). by rewrite Ebs.
  - intros dev' blk HDdev Hne. rewrite dview_with_inode, Hv5, decide_False; [done| |done].
    intros [E1 E2]. apply Hne. destruct Hn as [N1 N2]. congruence.
Qed.

(** [update_times]: the times that are due get the time [now]. *)
Definition stamped (now : Z) (r : inode) : inode :=
  if truth (i_update r) then
    let r := if has (i_update r) ATIME then r <| i_atime := now |> else r in
    let r := if has (i_update r) CTIME then r <| i_ctime := now |> else r in
    let r := if has (i_update r) MTIME then r <| i_mtime := now |> else r in
    r <| i_update := 0 |>
  else r.

(** The clock of the kernel runs. *)
Definition clock_ok : Prop := ∀ k, (k_getuptime k).1 = OK.

Lemma clock_time_spec Q s :
  clock_ok → (∀ now, - 2 ^ 31 ≤ now < 2 ^ 31 → Q now s) → wp clock_time Q s.
Proof.
  intros Hclock HQ. unfold clock_time. do 2 wp_pure. rewrite Hclock. change (negb (OK =? OK)) with false.
  cbv iota. do 3 wp_pure. apply HQ, i32_range.
Qed.

Lemma update_times_spec rip r sp x Q s :
  clock_ok → inodes (tabs s) !! rip = Some r → i_sp r = Some sp → supers (tabs s) !! sp = Some x →
  s_rd_only x = 0 →
  (∀ now, - 2 ^ 31 ≤ now < 2 ^ 31 → Q tt (s <| tabs ::= with_inode rip (stamped now r) |>)) →
  wp (upd ← rd i_update rip; when (truth upd) (update_times rip)) Q s.
Proof.
  intros Hclock Hr Hsp Hx Hro HQ. wp_pure. eapply wp_rd; [exact Hr|]. apply wp_when; intros Hu.
  - unfold update_times, sp_of. wp_pure. wp_pure. eapply wp_rd; [exact Hr|]. wp_pure. eapply wp_deref; [exact Hsp|].
    eapply wp_rd; [exact Hx|]. rewrite Hro. change (truth 0) with false. cbv iota. wp_pure.
    apply clock_time_spec; [done|]. intros now Hnow. specialize (HQ now Hnow). unfold stamped in HQ. rewrite Hu in HQ.
    assert (rip < length (inodes (tabs s)))%nat as Hlt by by eapply lookup_lt_Some.
    wp_pure. eapply wp_wr; [exact Hr|]. change (table s) with (inodes (tabs s)).
    do 2 (wp_pure; apply (wp_wr_with (inodes (tabs s))); [done|]). apply (wp_wr_with (inodes (tabs s))); [done|].
    exact HQ.
  - unfold stamped in HQ. rewrite Hu in HQ. specialize (HQ 0 ltac:(lia)).
    replace (s <| tabs ::= with_inode rip r |>) with s in HQ; [done|].
    destruct s as [? ? [l ? ? ? ? ? ?] ?]. unfold with_inode, set_field. simpl in *. by rewrite list_insert_id.
Qed.

Lemma stamped_slot now r :
  i_dev (stamped now r) = i_dev r ∧ i_num (stamped now r) = i_num r ∧ i_count (stamped now r) = i_count r ∧
  i_sp (stamped now r) = i_sp r ∧ i_update (stamped now r) = 0.
Proof.
  unfold stamped, truth. destruct (Z.eqb_spec (i_update r) 0) as [E|E]; [done|]. cbn [negb]. cbv zeta.
  destruct (has _ ATIME), (has _ CTIME), (has _ MTIME); done.
Qed.

Lemma stamped_fits x now r : - 2 ^ 31 ≤ now < 2 ^ 31 → inode_fits x r → inode_fits x (stamped now r).
Proof.
  intros Hnow [[] H]. unfold stamped. destruct (truth (i_update r)); [|by split]. cbv zeta.
  destruct (has _ ATIME), (has _ CTIME), (has _ MTIME); by split.
Qed.

(** [rw_inode(rip, WRITING)] *)
Lemma rw_inode_write_ok D s rip r dev sp x num :
  clock_ok → inodes (tabs s) !! rip = Some r → i_dev r = dev → i_num r = num →
  inode_place (tabs s) D dev sp x num → s_rd_only x = 0 → cache_ok (tabs s) D s → has_free s →
  wp (rw_inode rip WRITING) (λ _ s', ∃ now, - 2 ^ 31 ≤ now < 2 ^ 31 ∧
    let r' := stamped now (r <| i_sp := Some sp |>) in
    tabs s' = with_inode rip (r' <| i_dirt := CLEAN |>) (tabs s) ∧ glo s' = glo s ∧
    cache_ok (tabs s') D s' ∧ has_free s' ∧
    (∃ d d', image_store x num d r' = Some d' ∧
       take (Z.to_nat (s_block_size x)) d = dview s dev (inode_block x num) ∧
       dview s' dev (inode_block x num) = take (Z.to_nat (s_block_size x)) d') ∧
    ∀ dev' blk, D dev' → (dev', blk) ≠ (dev, inode_block x num) →
      dview s' dev' blk = dview s dev' blk) s.
Proof.
  intros Hclock Hr Edev Enum Hip Hro Hok Hfree. pose proof (ok_disks _ _ _ Hok) as HD.
  eapply rw_inode_start; [done..|]. intros s2 bp b Hok2 Eg U Hv Hb Hn Hc Hdata.
  set (r1 := r <| i_sp := Some sp |>) in *. set (t := with_inode rip r1 (tabs s)) in *.
  pose proof (proj1 (proj1 (list_find_Some _ _ _ _) (ip_super _ _ _ _ _ _ Hip))) as Hx.
  assert (inodes (tabs s2) !! rip = Some r1) as Hr1.
  { rewrite (ok_tabs _ _ _ Hok2). by eapply with_inode_lookup. }
  assert (∀ A B (m1 : M A) (m2 : A → M unit) (m3 : M B) Q' s', wp ((a ← m1; m2 a);; m3) Q' s' →
    wp (a ← m1; m2 a;; m3) Q' s') as Hassoc.
  { intros A B m1 m2 m3 Q' s'. unfold wp, mbind, M_bind. by destruct (m1 s'). }
  apply wp_bind, Hassoc, wp_bind, (update_times_spec rip r1 sp x); [done|done|done|by rewrite (ok_tabs _ _ _ Hok2)|done|].
  intros now Hnow. set (r2 := stamped now r1).
  apply wp_bind_inv. eapply wp_mono; [by apply (rw_inode_store D s _ rip r r1 r2 dev sp x num bp b)|].
  intros [] s' H. exists now. split; [done|]. exact H.
Qed.

(** * [get_inode] *)

(** No inode is in two slots. *)
Definition inodes_ok (l : list inode) : Prop := ∀ i j r r',
  l !! i = Some r → l !! j = Some r' → 0 < i_count r → 0 < i_count r' →
  i_dev r = i_dev r' → i_num r = i_num r' → i = j.

Definition in_use (dev num : Z) (r : inode) : Prop := 0 < i_count r ∧ i_dev r = dev ∧ i_num r = num.

Lemma find_inode_spec dev num l i xp :
  match find_inode dev num i l xp with
  | inl j => ∃ k r, j = (i + k)%nat ∧ l !! k = Some r ∧ in_use dev num r
  | inr xp' => (∀ r, r ∈ l → ¬ in_use dev num r) ∧
      match xp' with
      | None => xp = None ∧ ∀ r, r ∈ l → 0 < i_count r
      | Some j => xp = Some j ∨ ∃ k r, j = (i + k)%nat ∧ l !! k = Some r ∧ i_count r ≤ 0
      end
  end.
Proof.
  revert i xp. induction l as [|r l IH]; intros i xp; simpl.
  { split; [by intros r ?%not_elem_of_nil|]. destruct xp; [by left|].
    split; [done|]. by intros r ?%not_elem_of_nil. }
  assert (∀ xp, ¬ in_use dev num r →
    match find_inode dev num (S i) l xp with
    | inl j => ∃ k r0, j = (i + k)%nat ∧ (r :: l) !! k = Some r0 ∧ in_use dev num r0
    | inr xp' => (∀ r0, r0 ∈ r :: l → ¬ in_use dev num r0) ∧
        match xp' with
        | None => xp = None ∧ ∀ r0, r0 ∈ l → 0 < i_count r0
        | Some j => xp = Some j ∨ ∃ k r0, j = (i + k)%nat ∧ (r :: l) !! k = Some r0 ∧ i_count r0 ≤ 0
        end
    end) as Hnext.
  { intros xp' Hr. specialize (IH (S i) xp'). destruct (find_inode dev num (S i) l xp') as [j|xp''].
    - destruct IH as (k & r0 & -> & Hk & Hu). exists (S k), r0. split; [lia|done].
    - destruct IH as [Hno IH]. split; [by intros r0 [->|?]%elem_of_cons; [|apply Hno]|].
      destruct xp'' as [j|]; [|done]. destruct IH as [?|(k & r0 & -> & Hk & Hc)]; [by left|].
      right. exists (S k), r0. split; [lia|done]. }
  destruct (Z.ltb_spec 0 (i_count r)) as [Hc|Hc].
  - destruct (Z.eqb_spec (i_dev r) dev) as [Ed|Ed], (Z.eqb_spec (i_num r) num) as [En|En]; simpl.
    { exists 0%nat, r. split; [lia|]. by split. }
    all: specialize (Hnext xp ltac:(by intros (_ & ? & ?))).
    all: destruct (find_inode dev num (S i) l xp) as [j|[j|]]; [done|done|].
    all: destruct Hnext as (Hno & Hxp & Hall); split; [done|]; split; [done|].
    all: by intros r0 [->|?]%elem_of_cons; [|apply Hall].
  - specialize (Hnext (Some i) ltac:(intros (? & _); lia)).
    destruct (find_inode dev num (S i) l (Some i)) as [j|[j|]]; [done| |by destruct Hnext as (_ & ? & _)].
    destruct Hnext as (Hno & [[= <-]|?]); (split; [done|]); right; [|done].
    exists 0%nat, r. split; [lia|]. done.
Qed.

Lemma inode_image_slot x num d r r' :
  inode_image x num d r = Some r' →
  i_dev r' = i_dev r ∧ i_num r' = i_num r ∧ i_count r' = i_count r ∧ i_sp r' = i_sp r.
Proof. unfold inode_image. case_match; by intros (dip & _ & ->)%fmap_Some. Qed.

(** The slot of the table is given to another inode. *)
Lemma inodes_ok_insert l rip r :
  inodes_ok l → (∀ r', r' ∈ l → ¬ in_use (i_dev r) (i_num r) r') → inodes_ok (<[rip := r]> l).
Proof.
  intros Hok Hno i j ri rj Hi Hj Hci Hcj Ed En.
  apply list_lookup_insert_Some in Hi as [(<- & <- & _)|[_ Hi]];
    apply list_lookup_insert_Some in Hj as [(<- & <- & _)|[_ Hj]].
  - done.
  - destruct (Hno rj); [by eapply list_elem_of_lookup_2|by split].
  - destruct (Hno ri); [by eapply list_elem_of_lookup_2|by split].
  - by eapply (Hok i j ri rj).
Qed.

Lemma inodes_ok_count l rip r n :
  inodes_ok l → l !! rip = Some r → 0 < i_count r → inodes_ok (<[rip := r <| i_count := n |>]> l).
Proof.
  intros Hok Hr Hc i j ri rj Hi Hj Hci Hcj Ed En.
  apply list_lookup_insert_Some in Hi as [(<- & <- & _)|[_ Hi]];
    apply list_lookup_insert_Some in Hj as [(<- & <- & _)|[_ Hj]].
  - done.
  - by eapply (Hok rip j r rj).
  - by eapply (Hok i rip ri r).
  - by eapply (Hok i j ri rj).
Qed.

(** The slot [rip] has the inode after a [get_inode]: it had it before and has one
    more user, and neither the kernel nor the cache has been asked, or it was free and the inode has been read into it. *)
Definition inode_got (s s' : st) (dev : Z) (x : super_block) (num : Z) (rip : nat) : Prop :=
  ∃ r r', inodes (tabs s) !! rip = Some r ∧ tabs s' = with_inode rip r' (tabs s) ∧ in_use dev num r' ∧
    ((in_use dev num r ∧ r' = r <| i_count ::= Z.add 1 |> ∧ kern s' = kern s ∧ cache s' = cache s ∧ glo s' = glo s) ∨
     (i_count r ≤ 0 ∧ (∀ r0, r0 ∈ inodes (tabs s) → ¬ in_use dev num r0) ∧ i_count r' = 1 ∧
      ∃ r1 r2, disk_inode s dev x num r1 = Some r2 ∧ r' = r2 <| i_dirt := CLEAN |> <| i_update := 0 |>)).

(** A free slot is filled. *)
Lemma get_inode_load D s dev sp x num xp r :
  inode_place (tabs s) D dev sp x num → cache_ok (tabs s) D s → has_free s → inodes_ok (inodes (tabs s)) →
  inodes (tabs s) !! xp = Some r → i_count r ≤ 0 → (∀ r0, r0 ∈ inodes (tabs s) → ¬ in_use dev num r0) →
  wp (wr xp (λ r, r <| i_dev := dev |> <| i_num := num |> <| i_count := 1 |>);;
      when (negb (dev =? NO_DEV)) (rw_inode xp READING);;
      wr xp (λ r, r <| i_update := 0 |>);;
      mret (Some xp))
    (λ res s', cache_ok (tabs s') D s' ∧ has_free s' ∧ inodes_ok (inodes (tabs s')) ∧
       (∀ dev blk, D dev → dview s' dev blk = dview s dev blk) ∧
       res = Some xp ∧ inode_got s s' dev x num xp) s.
Proof.
  intros Hip Hok Hfree Huniq Hr Hc Hno. set (r1 := r <| i_dev := dev |> <| i_num := num |> <| i_count := 1 |>).
  pose proof (disk_dev _ _ (disks_ok _ _ (ok_disks _ _ _ Hok) _ (ip_dev _ _ _ _ _ _ Hip))) as Hnz%Z.eqb_neq.
  wp_pure. eapply wp_wr; [exact Hr|]. change (with_table _ s) with (s <| tabs ::= with_inode xp r1 |>).
  set (s1 := s <| tabs ::= with_inode xp r1 |>). wp_pure. rewrite Hnz. simpl when.
  eapply wp_mono.
  { apply (rw_inode_read_ok D s1 xp r1 dev sp x num); [by eapply with_inode_lookup|done|done| | |done].
    - destruct Hip. by split.
    - by apply cache_ok_with_inode. }
  intros [] s2 (r2 & Himg & Ht & _ & Hok2 & Hfree2 & Hv2).
  destruct (inode_image_slot _ _ _ _ _ Himg) as (Ed & En & Ec & _).
  set (r3 := r2 <| i_dirt := CLEAN |> <| i_update := 0 |>).
  wp_pure. eapply wp_wr.
  { simpl. rewrite Ht. eapply with_inode_lookup. by eapply with_inode_lookup. }
  change (with_table _ s2) with (s2 <| tabs ::= with_inode xp r3 |>).
  assert (with_inode xp r3 (tabs s2) = with_inode xp r3 (tabs s)) as Et.
  { rewrite Ht, with_inode_twice. exact (with_inode_twice xp r1 r3 (tabs s)). }
  wp_pure. change (tabs (s2 <| tabs ::= with_inode xp r3 |>)) with (with_inode xp r3 (tabs s2)).
  split_and!.
  - by apply cache_ok_with_inode.
  - done.
  - rewrite Et. change (inodes_ok (<[xp := r3]> (inodes (tabs s)))). apply inodes_ok_insert; [done|].
    intros r' Hr'. change (i_dev r3) with (i_dev r2). change (i_num r3) with (i_num r2). rewrite Ed, En. by apply Hno.
  - intros dev' blk HD'. rewrite dview_with_inode, Hv2 by done. apply dview_with_inode.
  - done.
  - exists r, r3. split; [done|]. split; [exact Et|]. split; [split_and!; [change (0 < i_count r2); by rewrite Ec|exact Ed|exact En]|].
    right. split; [done|]. split; [done|]. split; [exact Ec|]. exists (r1 <| i_sp := Some sp |>), r2. split; [|done].
    unfold disk_inode in *.
    exact Himg.
Qed.

Lemma get_inode_ok D s dev sp x num :
  inode_place (tabs s) D dev sp x num → cache_ok (tabs s) D s → has_free s → inodes_ok (inodes (tabs s)) →
  wp (get_inode dev num) (λ res s',
    cache_ok (tabs s') D s' ∧ has_free s' ∧ inodes_ok (inodes (tabs s')) ∧
    (∀ dev blk, D dev → dview s' dev blk = dview s dev blk) ∧
    match res with
    | Some rip => inode_got s s' dev x num rip
    | None => s' = s <| glo ::= λ g, g <| err_code := ENFILE |> |> ∧
        ∀ r, r ∈ inodes (tabs s) → 0 < i_count r ∧ ¬ in_use dev num r
    end) s.
Proof.
  intros Hip Hok Hfree Huniq. unfold get_inode. do 2 wp_pure.
  rewrite u32_id by (pose proof (ip_num _ _ _ _ _ _ Hip); lia).
  pose proof (find_inode_spec dev num (inodes (tabs s)) 0 None) as H.
  destruct (find_inode dev num 0 (inodes (tabs s)) None) as [rip|[xp|]].
  - destruct H as (k & r & -> & Hr & Hu). simpl plus. set (r' := r <| i_count ::= Z.add 1 |>).
    pose proof Hu as (Hc & Ed & En).
    wp_pure. eapply wp_wr; [exact Hr|]. change (with_table _ s) with (s <| tabs ::= with_inode k r' |>).
    wp_pure. split_and!; [by apply cache_ok_with_inode|done| |intros; apply dview_with_inode|].
    + by apply (inodes_ok_count _ k r (1 + i_count r)).
    + exists r, r'. split; [done|]. split; [done|]. split; [|by left].
      split_and!; [change (0 < 1 + i_count r); lia|done|done].
  - destruct H as (Hno & [|(k & r & -> & Hr & Hc)]); [done|]. simpl plus.
    eapply wp_mono; [by eapply get_inode_load|]. intros res s' (? & ? & ? & ? & -> & ?). done.
  - destruct H as (Hno & _ & Hall). do 3 wp_pure. split_and!; try done.
    + by apply (cache_ok_devices (tabs s) _ D s).
    + intros r Hr. split; [by apply Hall|by apply Hno].
Qed.
End contract.

(** * The contracts *)

Section contracts.
Context {cfg : Config} {krn : Kernel} {dk : Disk}.
Implicit Types (s : st) (D : Z → Prop).

(** What is on the disk after [rw_inode(rip, WRITING)]. *)
Lemma rw_inode_image_ok D s rip r dev sp x num :
  clock_ok → inodes (tabs s) !! rip = Some r → i_dev r = dev → i_num r = num → inode_fits x r →
  inode_place (tabs s) D dev sp x num → s_rd_only x = 0 → cache_ok (tabs s) D s → has_free s →
  wp (rw_inode rip WRITING) (λ _ s', ∃ now, let r1 := stamped now (r <| i_sp := Some sp |>) in
    cache_ok (tabs s') D s' ∧ has_free s' ∧ glo s' = glo s ∧
    tabs s' = with_inode rip (r1 <| i_dirt := CLEAN |>) (tabs s) ∧
    (∀ r0, ∃ r', disk_inode s' dev x num r0 = Some r' ∧ same_file x r1 r') ∧
    (∀ num' r0, inode_place (tabs s) D dev sp x num' → num' ≠ num →
       disk_inode s' dev x num' r0 = disk_inode s dev x num' r0) ∧
    (∀ dev' blk, D dev' → (dev', blk) ≠ (dev, inode_block x num) → dview s' dev' blk = dview s dev' blk)) s.
Proof.
  intros Hclock Hr Ed En Hfit Hip Hro Hok Hfree. eapply wp_mono; [by eapply rw_inode_write_ok|].
  intros [] s' (now & Hnow & Ht & Hg & Hok' & Hfree' & (d & d' & Hst & Hd & Hd') & Hv). exists now.
  set (r1 := stamped now (r <| i_sp := Some sp |>)) in *.
  assert (inode_fits x r1) as Hfit1 by (apply stamped_fits; [done|]; destruct Hfit as [[] ?]; by split).
  pose proof (ok_disks _ _ _ Hok) as HD.
  pose proof (proj1 (proj2 (ip_bs _ _ _ _ _ HD _ Hip))) as Hmin.
  do 4 (split; [assumption|]). split; [|split; [|assumption]].
  - intros r0. destruct (image_roundtrip x num d d' r1 r0 Hfit1 Hst) as (r' & Hr' & Hsame). exists r'.
    split; [|done]. unfold disk_inode. rewrite Hd', inode_image_take; [done|by apply inode_off_bound].
  - intros num' r0 Hip' Hne. unfold disk_inode. destruct (decide (inode_block x num' = inode_block x num)) as [E|E].
    + rewrite E, Hd', <- Hd, !inode_image_take by by apply inode_off_bound.
      eapply image_store_ne; [exact Hst|]. by eapply (ip_apart _ _ _ _ _ HD num num').
    + rewrite Hv; [done|apply Hip|congruence].
Qed.

(** C5: [rw_inode(rip, WRITING)] stores the inode at its place, with the times that were
    due: the clients of the cache see there an image from which any slot gets the
    inode back, in both formats and both byte orders; the other inodes and the other
    blocks stay. Required: a free buffer in the cache. *)
Theorem rw_inode_write_contract D s rip r dev sp x num :
  clock_ok → inodes (tabs s) !! rip = Some r → i_dev r = dev → i_num r = num → inode_fits x r →
  inode_place (tabs s) D dev sp x num → s_rd_only x = 0 → cache_ok (tabs s) D s → has_free s →
  wp (rw_inode rip WRITING) (λ _ s', ∃ now, let r1 := stamped now (r <| i_sp := Some sp |>) in
    cache_ok (tabs s') D s' ∧ has_free s' ∧ glo s' = glo s ∧
    tabs s' = with_inode rip (r1 <| i_dirt := CLEAN |>) (tabs s) ∧
    (∀ r0, ∃ r', disk_inode s' dev x num r0 = Some r' ∧ same_file x r1 r') ∧
    (∀ num' r0, inode_place (tabs s) D dev sp x num' → num' ≠ num →
       disk_inode s' dev x num' r0 = disk_inode s dev x num' r0) ∧
    (∀ dev' blk, D dev' → (dev', blk) ≠ (dev, inode_block x num) → dview s' dev' blk = dview s dev' blk)) s.
Proof. apply rw_inode_image_ok. Qed.

(** [rw_inode(rip, READING)] fills the slot from the image of the inode that
    the clients of the cache see, and changes nothing else. *)
Theorem rw_inode_read_contract D s rip r dev sp x num :
  inodes (tabs s) !! rip = Some r → i_dev r = dev → i_num r = num →
  inode_place (tabs s) D dev sp x num → cache_ok (tabs s) D s → has_free s →
  wp (rw_inode rip READING) (λ _ s', ∃ r',
    disk_inode s dev x num (r <| i_sp := Some sp |>) = Some r' ∧
    tabs s' = with_inode rip (r' <| i_dirt := CLEAN |>) (tabs s) ∧ glo s' = glo s ∧
    cache_ok (tabs s') D s' ∧ has_free s' ∧ ∀ dev blk, D dev → dview s' dev blk = dview s dev blk) s.
Proof. apply rw_inode_read_ok. Qed.

(** C33: [get_inode(dev, num)] returns the only slot that has the inode: the one that had
    it, with one more user and without I/O (the kernel, the cache and the globals
    stay), or a slot that was free, into which it has been read. It fails with ENFILE
    exactly when the inode is not in the table and no slot is free; then nothing but
    the error code has changed. Required: a free buffer in the cache. *)
Theorem get_inode_contract D s dev sp x num :
  inode_place (tabs s) D dev sp x num → cache_ok (tabs s) D s → has_free s → inodes_ok (inodes (tabs s)) →
  wp (get_inode dev num) (λ res s',
    cache_ok (tabs s') D s' ∧ has_free s' ∧ inodes_ok (inodes (tabs s')) ∧
    (∀ dev blk, D dev → dview s' dev blk = dview s dev blk) ∧
    match res with
    | Some rip => inode_got s s' dev x num rip
    | None => s' = s <| glo ::= λ g, g <| err_code := ENFILE |> |> ∧
        ∀ r, r ∈ inodes (tabs s) → 0 < i_count r ∧ ¬ in_use dev num r
    end) s.
Proof. apply get_inode_ok. Qed.
End contracts.
