(* ===== verification/FileMap.v ===== *)
(** The mapping of file positions to blocks, of read.c ([read_map], [rd_indir],
    [rahead], [read_ahead]) and write.c ([write_map], [wr_indir], [clear_zone],
    [new_block], [zero_block]), and [truncate] of link.c with [put_inode]. *)

From S2P Require Import Prelude Machine State Monad Utility SuperTable Cache Bitmap Inode.

(** [zone << scale] on a [block_t]; [block >> scale]. *)
Definition zone_block (z scale : Z) : Z := u32 (Z.shiftl z scale).
Definition block_zone (b scale : Z) : Z := Z.shiftr b scale.

Section file_map.
Context {cfg : Config} {krn : Kernel}.

(** The number of block buffers to fetch at least (read.c). *)
Definition BLOCKS_MINIMUM : Z := if Z.of_nat NR_BUFS <? 50 then 18 else 32.

(** [rip->i_sp->s_log_zone_size], a shift count; [rip->i_sp->s_block_size], a
    divisor. *)
Definition log_zone_size (rip : nat) : M Z :=
  scale ← sp_of s_log_zone_size rip;
  if (0 <=? scale) && (scale <? 32) then mret scale else fault.
Definition block_size_of (rip : nat) : M Z :=
  b ← sp_of s_block_size rip; if b =? 0 then fault else mret b.

(** [rip->i_zone[k]] *)
Definition rd_zone (rip : nat) (k : Z) : M Z :=
  zs ← rd i_zone rip;
  if k <? 0 then fault else deref (zs !! Z.to_nat k).
Definition wr_zone (rip : nat) (k z : Z) : M unit :=
  _ ← rd_zone rip k;
  wr rip (λ r, r <| i_zone ::= λ zs, <[Z.to_nat k := z]> zs |>).

Definition rd_indir (bp : nat) (index : Z) : M Z :=
  dev ← rd b_dev bp;
  sp ← get_super dev;
  x ← rd (λ x, x) sp;
  if index <? 0 then fault
  else
    zone ← (if s_version x =? V1
            then z ← load_buf 2 (Z.to_nat (2 * index)) bp;
                 mret (conv2 (truth (s_native x)) z)
            else z ← load_buf 4 (Z.to_nat (4 * index)) bp;
                 mret (u32 (conv4 (truth (s_native x)) (i32 z))));
    if negb (zone =? NO_ZONE) && ((zone <? s_firstdatazone x) || (s_zones x <=? zone))
    then panic NO_NUM else mret zone.

Definition wr_indir (bp : nat) (index zone : Z) : M unit :=
  dev ← rd b_dev bp;
  sp ← get_super dev;
  x ← rd (λ x, x) sp;
  if index <? 0 then fault
  else if s_version x =? V1
  then store_buf 2 (Z.to_nat (2 * index)) (u16 (conv2 (truth (s_native x)) (i32 zone))) bp
  else store_buf 4 (Z.to_nat (4 * index)) (u32 (conv4 (truth (s_native x)) (i32 zone))) bp.

(** The single indirect block [z] and, in it, the zone of index [excess]. *)
Definition map_single (dev scale boff z excess : Z) : M Z :=
  if z =? NO_ZONE then mret NO_BLOCK
  else
    bp ← get_block dev (zone_block z scale) NORMAL;
    z ← rd_indir bp excess;
    put_block (Some bp) INDIRECT_BLOCK;;
    if z =? NO_ZONE then mret NO_BLOCK
    else mret (u32 (zone_block z scale + boff)).

Definition read_map (rip : nat) (position : Z) : M Z :=
  scale ← log_zone_size rip;
  block_size ← block_size_of rip;
  let block_pos := position / block_size in
  let zone := Z.shiftr block_pos scale in
  let boff := block_pos - Z.shiftl zone scale in
  dzones ← rd i_ndzones rip;
  nr_indirects ← rd i_nindirs rip;
  if zone <? dzones then
    z ← rd_zone rip zone;
    if z =? NO_ZONE then mret NO_BLOCK
    else mret (u32 (zone_block z scale + boff))
  else
    dev ← rd i_dev rip;
    let excess := zone - dzones in
    if excess <? nr_indirects then
      z ← rd_zone rip dzones;
      map_single dev scale boff z excess
    else
      z ← rd_zone rip (dzones + 1);
      if z =? NO_ZONE then mret NO_BLOCK
      else if nr_indirects =? 0 then fault
      else
        let excess := excess - nr_indirects in
        bp ← get_block dev (zone_block z scale) NORMAL;
        z ← rd_indir bp (excess / nr_indirects);
        put_block (Some bp) INDIRECT_BLOCK;;
        map_single dev scale boff z (excess mod nr_indirects).

Definition zero_block (bp : nat) : M unit :=
  wr bp (λ b, b <| b_data := replicate (Z.to_nat MAX_BLOCK_SIZE) 0 |>
                <| b_dirt := DIRTY |>).

(** The second half of [write_map]: [z1] is the single indirect zone, or none
    yet; [bp] the double indirect block if there is one. *)
Definition write_single (rip : nat) (bp : option nat) (ind_ex zones scale z1 excess new_zone : Z) :
    M Z :=
  dev ← rd i_dev rip;
  let new_ind := z1 =? NO_ZONE in
  z1 ← (if new_ind then
          z0 ← rd_zone rip 0;
          z1 ← alloc_zone dev z0;
          match bp with
          | None => wr_zone rip zones z1
          | Some bp => wr_indir bp ind_ex z1;; set_dirty bp
          end;;
          mret z1
        else mret z1);
  put_block bp INDIRECT_BLOCK;;
  if z1 =? NO_ZONE then rg err_code
  else
    bp ← get_block dev (zone_block z1 scale) (if new_ind then NO_READ else NORMAL);
    when new_ind (zero_block bp);;
    wr_indir bp excess new_zone;;
    set_dirty bp;;
    put_block (Some bp) INDIRECT_BLOCK;;
    mret OK.

Definition write_map (rip : nat) (position new_zone : Z) : M Z :=
  wr rip (λ r, r <| i_dirt := DIRTY |>);;
  scale ← log_zone_size rip;
  block_size ← block_size_of rip;
  let zone := Z.shiftr (position / block_size) scale in
  zones ← rd i_ndzones rip;
  nr_indirects ← rd i_nindirs rip;
  if zone <? zones then wr_zone rip zone new_zone;; mret OK
  else
    let excess := zone - zones in
    if excess <? nr_indirects then
      z1 ← rd_zone rip zones;
      write_single rip None 0 zones scale z1 excess new_zone
    else
      dev ← rd i_dev rip;
      z ← rd_zone rip (zones + 1);
      let new_dbl := z =? NO_ZONE in
      z ← (if new_dbl then
             z0 ← rd_zone rip 0;
             z ← alloc_zone dev z0;
             when (negb (z =? NO_ZONE)) (wr_zone rip (zones + 1) z);;
             mret z
           else mret z);
      if z =? NO_ZONE then rg err_code
      else if nr_indirects =? 0 then fault
      else
        let excess := excess - nr_indirects in
        let ind_ex := excess / nr_indirects in
        if nr_indirects <=? ind_ex then mret EFBIG
        else
          bp ← get_block dev (zone_block z scale) (if new_dbl then NO_READ else NORMAL);
          when new_dbl (zero_block bp);;
          z1 ← rd_indir bp ind_ex;
          write_single rip (Some bp) ind_ex zones scale z1 (excess mod nr_indirects) new_zone.

(** [flag] is false when called by [read_write], true by [new_block]. *)
Definition clear_zone (rip : nat) (pos : Z) (flag : bool) : M unit :=
  scale ← log_zone_size rip;
  if scale =? 0 then mret tt
  else
    block_size ← block_size_of rip;
    let zone_size := zone_block block_size scale in
    if zone_size =? 0 then fault
    else
      let pos := if flag then pos / zone_size * zone_size else pos in
      let next := u32 (pos + block_size - 1) in
      if negb (next / zone_size =? pos / zone_size) then mret tt
      else
        blo ← read_map rip next;
        if blo =? NO_BLOCK then mret tt
        else
          let bhi := u32 (zone_block (u32 (block_zone blo scale + 1)) scale - 1) in
          dev ← rd i_dev rip;
          loop (S (S (Z.to_nat (2 ^ scale)))) (λ b,
            if bhi <? b then mret (inr tt)
            else
              bp ← get_block dev b NO_READ;
              zero_block bp;;
              put_block (Some bp) FULL_DATA_BLOCK;;
              mret (inl (u32 (b + 1)))) blo.

(** The block of [position] in its new zone [z]. *)
Definition block_in_zone (z position block_size scale : Z) : M Z :=
  let zone_size := zone_block block_size scale in
  if zone_size =? 0 then fault
  else mret (u32 (zone_block z scale + position mod zone_size / block_size)).

Definition new_block (rip : nat) (position : Z) : M (option nat) :=
  dev ← rd i_dev rip;
  b ← read_map rip position;
  o ← (if b =? NO_BLOCK then
         z0 ← rd_zone rip 0;
         z ← (if z0 =? NO_ZONE then sp_of s_firstdatazone rip else mret z0);
         z ← alloc_zone dev z;
         if z =? NO_ZONE then mret None
         else
           r ← write_map rip position z;
           if negb (r =? OK) then free_zone dev z;; set_err r;; mret None
           else
             size ← rd i_size rip;
             when (negb (position =? size)) (clear_zone rip position true);;
             scale ← log_zone_size rip;
             block_size ← block_size_of rip;
             b ← block_in_zone z position block_size scale;
             mret (Some b)
       else mret (Some b));
  match o with
  | None => mret None
  | Some b =>
      bp ← get_block dev b NO_READ;
      zero_block bp;;
      mret (Some bp)
  end.

(** The device [rip] is read from and written to, and whether it is a block
    special file. *)
Definition io_device (rip : nat) : M (bool * Z) :=
  mode ← rd i_mode rip;
  if Z.land mode I_TYPE =? I_BLOCK_SPECIAL
  then z ← rd_zone rip 0; mret (true, i16 z)
  else dev ← rd i_dev rip; mret (false, dev).

(** How many blocks [rahead] asks for. *)
Definition blocks_to_read (rip : nat) (block_spec : bool) (block_size position bytes_ahead : Z) :
    M Z :=
  let fragment := position mod block_size in
  let position := position - fragment in
  let bytes_ahead := u32 (bytes_ahead + fragment) in
  let blocks_ahead := u32 (bytes_ahead + block_size - 1) / block_size in
  size ← rd i_size rip;
  let blocks_left := u32 (size - position + block_size - 1) / block_size in
  al ← (if block_spec then
          mret (blocks_ahead, if size =? 0 then Z.of_nat NR_IOREQS else blocks_left)
        else
          scale ← log_zone_size rip;
          ndzones ← rd i_ndzones rip;
          let ind1_pos := u32 (ndzones * Z.shiftl block_size scale) in
          if (position <=? ind1_pos) && (ind1_pos <? size)
          then mret (u32 (blocks_ahead + 1), u32 (blocks_left + 1))
          else mret (blocks_ahead, blocks_left));
  let '(blocks_ahead, blocks_left) := al in
  let blocks_ahead :=
    if Z.of_nat NR_IOREQS <? blocks_ahead then Z.of_nat NR_IOREQS else blocks_ahead in
  seek ← rd i_seek rip;
  let blocks_ahead :=
    if (blocks_ahead <? BLOCKS_MINIMUM) && negb seek then BLOCKS_MINIMUM else blocks_ahead in
  mret (if blocks_left <? blocks_ahead then blocks_left else blocks_ahead).

(** Acquiring the buffers to read into, [read_q] in the order acquired. *)
Definition acquire_ahead (dev : Z) (block blocks_ahead : Z) (bp : nat) : M (list nat) :=
  loop (S NR_BUFS) (λ '(read_q, bp, block, blocks_ahead),
    let read_q := read_q ++ [bp] in
    let blocks_ahead := u32 (blocks_ahead - 1) in
    if blocks_ahead =? 0 then mret (inr read_q)
    else
      in_use ← rc bufs_in_use;
      if Z.of_nat NR_BUFS - 4 <=? in_use then mret (inr read_q)
      else
        let block := u32 (block + 1) in
        bp ← get_block dev block PREFETCH;
        d ← rd b_dev bp;
        if negb (d =? NO_DEV) then
          put_block (Some bp) FULL_DATA_BLOCK;; mret (inr read_q)
        else mret (inl (read_q, bp, block, blocks_ahead)))
    ([], bp, block, blocks_ahead).

Definition rahead (rip : nat) (baseblock position bytes_ahead : Z) : M nat :=
  sd ← io_device rip;
  let '(block_spec, dev) := sd in
  block_size ← get_block_size dev;
  bp ← get_block dev baseblock PREFETCH;
  d ← rd b_dev bp;
  if negb (d =? NO_DEV) then mret bp
  else if block_size =? 0 then fault
  else
    blocks_ahead ← blocks_to_read rip block_spec block_size position bytes_ahead;
    read_q ← acquire_ahead dev baseblock blocks_ahead bp;
    rw_scattered dev read_q READING;;
    get_block dev baseblock NORMAL.

Definition read_ahead : M unit :=
  r ← rg rdahed_inode;
  rip ← deref r;
  dev ← rd i_dev rip;
  block_size ← get_block_size dev;
  wg (λ g, g <| rdahed_inode := None |>);;
  pos ← rg rdahedpos;
  b ← read_map rip pos;
  if b =? NO_BLOCK then mret tt
  else
    bp ← rahead rip b pos block_size;
    put_block (Some bp) PARTIAL_DATA_BLOCK.

(** Freeing the zones of the file, a zone at a time. *)
Definition free_data_zones (rip : nat) (dev scale zone_size : Z) : M unit :=
  size ← rd i_size rip;
  loop (S (S (Z.to_nat (size / zone_size)))) (λ position,
    if size <=? position then mret (inr tt)
    else
      b ← read_map rip position;
      when (negb (b =? NO_BLOCK)) (free_zone dev (block_zone b scale));;
      mret (inl (u32 (position + zone_size)))) 0.

Definition truncate (rip : nat) : M unit :=
  mode ← rd i_mode rip;
  let file_type := Z.land mode I_TYPE in
  if (file_type =? I_CHAR_SPECIAL) || (file_type =? I_BLOCK_SPECIAL) then mret tt
  else
    dev ← rd i_dev rip;
    scale ← log_zone_size rip;
    block_size ← sp_of s_block_size rip;
    nr_indirects ← rd i_nindirs rip;
    waspipe ← rd i_pipe rip;
    when waspipe (wr rip (λ r, r <| i_size := PIPE_SIZE block_size |>));;
    free_data_zones rip dev scale (zone_block block_size scale);;
    wr rip (λ r, r <| i_dirt := DIRTY |>);;
    if waspipe : bool then wipe_inode rip
    else
      single ← rd i_ndzones rip;
      z ← rd_zone rip single;
      free_zone dev z;;
      z ← rd_zone rip (single + 1);
      when (negb (z =? NO_ZONE)) (
        bp ← get_block dev (zone_block z scale) NORMAL;
        for_each (seqZ 0 nr_indirects) (λ i, z1 ← rd_indir bp i; free_zone dev z1);;
        put_block (Some bp) INDIRECT_BLOCK;;
        free_zone dev z).

(** inode.c: the last user of an inode writes it back, or frees it. *)
Definition put_inode (o : option nat) : M unit :=
  match o with
  | None => mret tt
  | Some rip =>
      wr rip (λ r, r <| i_count ::= λ n, n - 1 |>);;
      count ← rd i_count rip;
      when (count =? 0) (
        nlinks ← rd i_nlinks rip;
        pipe ← rd i_pipe rip;
        (if nlinks =? 0 then
           truncate rip;;
           wr rip (λ r, r <| i_mode := I_NOT_ALLOC |> <| i_dirt := DIRTY |>);;
           dev ← rd i_dev rip; num ← rd i_num rip;
           free_inode dev num
         else when pipe (truncate rip));;
        wr rip (λ r, r <| i_pipe := false |>);;
        dirt ← rd i_dirt rip;
        when dirt (rw_inode rip WRITING))
  end.
End file_map.
