(* ===== verification/Permission.v ===== *)
(** The permission checks of protect.c. *)

From S2P Require Import Prelude Machine State Monad SuperTable Cache Inode FileMap.

(** The rwx bits that the mode [bits] of a file of [i_uid] and [i_gid] grants to
    a user; the super user is granted all but the execution of a file that
    nobody may execute. *)
Definition perm_bits (bits file_uid file_gid test_uid test_gid : Z) : Z :=
  if test_uid =? SU_UID then
    if (Z.land bits I_TYPE =? I_DIRECTORY)
       || has bits (Z.lor (Z.shiftl X_BIT 6) (Z.lor (Z.shiftl X_BIT 3) X_BIT))
    then Z.lor R_BIT (Z.lor W_BIT X_BIT) else Z.lor R_BIT W_BIT
  else
    let shift := if test_uid =? file_uid then 6
                 else if test_gid =? file_gid then 3 else 0 in
    Z.land (Z.shiftr bits shift) (Z.lor R_BIT (Z.lor W_BIT X_BIT)).

Section permission.
Context {cfg : Config} {krn : Kernel}.

Definition read_only (ip : nat) : M Z :=
  ro ← sp_of s_rd_only ip;
  mret (if truth ro then EROFS else OK).

(** The root of the file system mounted on [rip], or [rip] itself. *)
Definition forbidden_target (rip : nat) : M nat :=
  mnt ← rd i_mount rip;
  if negb mnt then mret rip
  else
    l ← gets (λ s, supers (tabs s));
    match list_find (λ sp, s_imount sp = Some rip) (drop 1 l) with
    | None => mret rip
    | Some (_, sp) => r ← get_inode (s_dev sp) ROOT_INODE; deref r
    end.

Definition forbidden (old_rip : nat) (access_desired : Z) : M Z :=
  rip ← forbidden_target old_rip;
  r ← rd (λ r, r) rip;
  call ← rg call_nr; p ← rg fp; f ← rd (λ f, f) p;
  let test_uid := if call =? ACCESS then fp_realuid f else fp_effuid f in
  let test_gid := if call =? ACCESS then fp_realgid f else fp_effgid f in
  let perm := perm_bits (i_mode r) (i_uid r) (i_gid r) test_uid test_gid in
  res ← (if negb (Z.lor perm access_desired =? perm) then mret EACCES
         else if has access_desired W_BIT then read_only rip else mret OK);
  when (negb (rip =? old_rip)%nat) (put_inode (Some rip));;
  mret res.
End permission.
