(* ===== verification/Path.v ===== *)
(** path.c: from path names to inodes. *)

From S2P Require Import Prelude Machine State Monad Utility SuperTable Cache Bitmap Inode FileMap Permission.

Definition NUL : Z := 0.
Definition SLASH : Z := 47.
Definition DOT : Z := 46.

(** A component handed to [advance] and [search_dir].  The strings [dot1] and
    [dot2] are recognised by their address; a component is its characters up to
    the NUL, or all [NAME_MAX] of them. *)
Inductive name := Dot1 | Dot2 | Str (string : list Z).
Definition chars (n : name) : list Z :=
  match n with Dot1 => [DOT] | Dot2 => [DOT; DOT] | Str s => s end.

(** const.h: what [search_dir] is to do. *)
Inductive search_flag := LOOK_UP | ENTER | DELETE | IS_EMPTY.
#[global] Instance search_flag_eq_dec : EqDecision search_flag.
Proof. solve_decision. Defined.

(** The characters of [bs] before its first NUL. *)
Fixpoint c_string (bs : list Z) : list Z :=
  match bs with
  | [] => []
  | c :: bs => if c =? NUL then [] else c :: c_string bs
  end.

(** * get_name

    [rnp] walks over the path from [old_name] on; the list is the rest of the
    array, [n] the distance from [old_name].  [None]: beyond the array. *)
Fixpoint skip_leading (p : list Z) (n : Z) : option (list Z * Z) :=
  match p with
  | [] => None
  | c :: p' => if c =? SLASH then skip_leading p' (n + 1) else Some (p, n)
  end.
Fixpoint copy_component (p : list Z) (n : Z) (string : list Z) : option (list Z * Z * list Z) :=
  match p with
  | [] => None
  | c :: p' =>
      if (n <? PATH_MAX) && negb (c =? SLASH) && negb (c =? NUL)
      then copy_component p' (n + 1)
             (if Z.of_nat (length string) <? NAME_MAX then string ++ [c] else string)
      else Some (p, n, string)
  end.
Fixpoint skip_trailing (p : list Z) (n : Z) : option (list Z * Z) :=
  match p with
  | [] => None
  | c :: p' =>
      if (c =? SLASH) && (n <? PATH_MAX) then skip_trailing p' (n + 1) else Some (p, n)
  end.

(** What is left of the path, if it is not too long, and the component. *)
Definition parse_name (old_name : list Z) : option (option (list Z) * list Z) :=
  '(p, n) ← skip_leading old_name 0;
  '(p, n, string) ← copy_component p n [];
  '(p, n) ← skip_trailing p n;
  Some (if PATH_MAX <=? n then None else Some p, string).

(** * search_dir: the entries of a directory block *)

Definition entry_ino (i : nat) : nat := (64 * i)%nat.
Definition entry_name (i : nat) : nat := (64 * i + 4)%nat.

Inductive scan_result :=
  | Matched (i : nat)     (* the entry searched for *)
  | Room (i : nat)        (* an entry ENTER can use *)
  | Scanned.              (* the block, or the directory, ends *)

(** Does the entry end the search? *)
Definition entry_match (flag : search_flag) (string d_name : list Z) : bool :=
  match flag with
  | IS_EMPTY => negb (bool_decide (d_name = [DOT])) && negb (bool_decide (d_name = [DOT; DOT]))
  | _ => bool_decide (d_name = string)
  end.

(** The loop over the [n] entries of a block from [i] on. *)
Fixpoint scan_block (flag : search_flag) (string d : list Z) (old_slots : Z) (n i : nat)
    (new_slots : Z) : option (scan_result * Z) :=
  match n with
  | O => Some (Scanned, new_slots)
  | S n =>
      let new_slots := u32 (new_slots + 1) in
      if old_slots <? new_slots then
        Some (if decide (flag = ENTER) then Room i else Scanned, new_slots)
      else
        d_ino ← load_le 4 (entry_ino i) d;
        d_name ← slice (entry_name i) (Z.to_nat NAME_MAX) d;
        if bool_decide (flag ≠ ENTER) && negb (d_ino =? 0)
             && entry_match flag string (c_string d_name)
        then Some (Matched i, new_slots)
        else if bool_decide (flag = ENTER) && (d_ino =? 0) then Some (Room i, new_slots)
        else scan_block flag string d old_slots n (S i) new_slots
  end.

(** [dp->d_name] as ENTER fills it in. *)
Definition padded_name (string : list Z) : list Z :=
  take (Z.to_nat NAME_MAX) (string ++ replicate (Z.to_nat NAME_MAX) 0).

Section path.
Context {cfg : Config} {krn : Kernel}.

Definition get_name (old_name : list Z) : M (option (list Z) * list Z) :=
  r ← deref (parse_name old_name);
  when (bool_decide (r.1 = None)) (set_err ENAMETOOLONG);;
  mret r.

(** The search found the entry [i] of the block [bp]. *)
Definition dir_matched (ldir_ptr bp i : nat) (numb : Z) (flag : search_flag) : M (Z * Z) :=
  r ← match flag with
      | IS_EMPTY => mret (ENOTEMPTY, numb)
      | DELETE =>
          d_ino ← load_buf 4 (entry_ino i) bp;
          store_buf 4 (entry_name i + (Z.to_nat NAME_MAX - 4)) d_ino bp;;
          store_buf 4 (entry_ino i) 0 bp;;
          set_dirty bp;;
          wr ldir_ptr (λ r, r <| i_update ::= Z.lor (Z.lor CTIME MTIME) |>
                              <| i_dirt := DIRTY |>);;
          mret (OK, numb)
      | _ =>
          native ← sp_of s_native ldir_ptr;
          d_ino ← load_buf 4 (entry_ino i) bp;
          mret (OK, u32 (conv4 (truth native) (i32 d_ino)))
      end;
  put_block (Some bp) DIRECTORY_BLOCK;;
  mret r.

(** The directory is stepped through one block at a time: the result of the
    search, or the block and slot for ENTER if there is room, with the number
    of slots seen. *)
Definition dir_search (ldir_ptr : nat) (string : list Z) (numb : Z) (flag : search_flag)
    (size old_slots : Z) : M ((Z * Z) + (option (nat * nat) * Z)) :=
  block_size ← sp_of s_block_size ldir_ptr;
  loop (S (S (Z.to_nat (size / block_size)))) (λ '(pos, new_slots),
    if size <=? pos then mret (inr (inr (None, new_slots)))
    else
      b ← read_map ldir_ptr pos;
      dev ← rd i_dev ldir_ptr;
      bp ← get_block dev b NORMAL;
      d ← rd b_data bp;
      res ← deref (scan_block flag string d old_slots (Z.to_nat (NR_DIR_ENTRIES block_size))
                     O new_slots);
      match res with
      | (Matched i, _) =>
          r ← dir_matched ldir_ptr bp i numb flag; mret (inr (inl r))
      | (Room i, new_slots) => mret (inr (inr (Some (bp, i), new_slots)))
      | (Scanned, new_slots) =>
          put_block (Some bp) DIRECTORY_BLOCK;;
          mret (inl (u32 (pos + block_size), new_slots))
      end) (0, 0).

(** Filling in the slot [i] of [bp] for ENTER. *)
Definition dir_enter (ldir_ptr : nat) (string : list Z) (numb : Z) (bp i : nat)
    (new_slots old_slots : Z) (extended : bool) : M Z :=
  d ← rd b_data bp;
  d ← deref (splice (entry_name i) (padded_name string) d);
  wr bp (λ b, b <| b_data := d |>);;
  native ← sp_of s_native ldir_ptr;
  store_buf 4 (entry_ino i) (u32 (conv4 (truth native) (i32 numb))) bp;;
  set_dirty bp;;
  put_block (Some bp) DIRECTORY_BLOCK;;
  wr ldir_ptr (λ r, r <| i_update ::= Z.lor (Z.lor CTIME MTIME) |> <| i_dirt := DIRTY |>);;
  when (old_slots <? new_slots) (
    wr ldir_ptr (λ r, r <| i_size := u32 (new_slots * DIR_ENTRY_SIZE) |>);;
    when extended (rw_inode ldir_ptr WRITING));;
  mret OK.

(** The access check at the head of [search_dir]. *)
Definition dir_access (ldir_ptr : nat) (string : name) (flag : search_flag) : M Z :=
  match flag with
  | IS_EMPTY => mret OK
  | _ =>
      match string with
      | Str _ => forbidden ldir_ptr
                   (if decide (flag = LOOK_UP) then X_BIT else Z.lor W_BIT X_BIT)
      | _ => if decide (flag = LOOK_UP) then mret OK else read_only ldir_ptr
      end
  end.

(** [search_dir(ldir_ptr, string, &numb, flag)]: the result and [numb]. *)
Definition search_dir (ldir_ptr : nat) (string : name) (numb : Z) (flag : search_flag) :
    M (Z * Z) :=
  mode ← rd i_mode ldir_ptr;
  if negb (Z.land mode I_TYPE =? I_DIRECTORY) then mret (ENOTDIR, numb)
  else
    r ← dir_access ldir_ptr string flag;
    if negb (r =? OK) then mret (r, numb)
    else
      size ← rd i_size ldir_ptr;
      let old_slots := size / DIR_ENTRY_SIZE in
      o ← dir_search ldir_ptr (chars string) numb flag size old_slots;
      match o with
      | inl r => mret r
      | inr (room, new_slots) =>
          match flag, room with
          | ENTER, Some (bp, i) =>
              r ← dir_enter ldir_ptr (chars string) numb bp i new_slots old_slots false;
              mret (r, numb)
          | ENTER, None =>
              let new_slots := u32 (new_slots + 1) in
              if new_slots =? 0 then mret (EFBIG, numb)
              else
                bp ← new_block ldir_ptr size;
                match bp with
                | None => e ← rg err_code; mret (e, numb)
                | Some bp =>
                    r ← dir_enter ldir_ptr (chars string) numb bp 0 new_slots old_slots true;
                    mret (r, numb)
                end
          | IS_EMPTY, _ => mret (OK, numb)
          | _, _ => mret (ENOENT, numb)
          end
      end.

(** An inode that is mounted on is replaced by the root of what is mounted. *)
Definition cross_mounts (rip : nat) : M (option nat) :=
  loop loop_fuel (λ rip : option nat,
    match rip with
    | None => mret (inr None)
    | Some r =>
        mnt ← rd i_mount r;
        if negb mnt then mret (inr (Some r))
        else
          l ← gets (λ s, supers (tabs s));
          match list_find (λ sp, s_imount sp = Some r) l with
          | None => mret (inl (Some r))
          | Some (_, sp) =>
              put_inode (Some r);;
              rip ← get_inode (s_dev sp) ROOT_INODE;
              mret (inl rip)
          end
    end) (Some rip).

(** [depth] bounds the mounted roots left upwards by one [..]. *)
Fixpoint advance_up (depth : nat) (dirp : option nat) (string : name) : M (option nat) :=
  match depth with
  | O => no_fuel
  | S depth =>
      if decide (chars string = []) then
        d ← deref dirp; dev ← rd i_dev d; num ← rd i_num d; get_inode dev (i32 num)
      else
        match dirp with
        | None => mret None
        | Some d =>
            rn ← search_dir d string 0 LOOK_UP;
            let '(r, numb) := rn in
            if negb (r =? OK) then set_err r;; mret None
            else
              p ← rg fp; root ← rd fp_rootdir p;
              dev ← rd i_dev d; num ← rd i_num d;
              if bool_decide (root = Some d) && bool_decide (chars string = [DOT; DOT])
                   && negb (match string with Dot2 => true | _ => false end)
              then get_inode dev (i32 num)
              else
                rip ← get_inode dev (i32 numb);
                match rip with
                | None => mret None
                | Some r =>
                    rnum ← rd i_num r; rdev ← rd i_dev r;
                    l ← gets (λ s, supers (tabs s));
                    rip ←
                      (if (rnum =? ROOT_INODE) && (num =? ROOT_INODE)
                            && bool_decide (chars string !! 1%nat = Some DOT)
                       then
                         match find_super rdev (drop 1 l) with
                         | None => mret (Some r)
                         | Some (_, sp) =>
                             put_inode (Some r);;
                             m ← deref (s_imount sp);
                             mnt_dev ← rd i_dev m; inumb ← rd i_num m;
                             rip2 ← get_inode mnt_dev (i32 inumb);
                             rip ← advance_up depth rip2 string;
                             put_inode rip2;;
                             mret rip
                         end
                       else mret (Some r));
                    match rip with
                    | None => mret None
                    | Some r => cross_mounts r
                    end
                end
        end
  end.

Definition advance (dirp : option nat) (string : name) : M (option nat) :=
  advance_up loop_fuel dirp string.

(** The last directory of [path] and the final component; what is in [string]
    when there is no directory is [None] if nothing has been written to it. *)
Definition last_dir (path : list Z) : M (option nat * option (list Z)) :=
  c ← deref (head path);
  p ← rg fp;
  root ← rd fp_rootdir p; work ← rd fp_workdir p;
  rip ← deref (if c =? SLASH then root else work);
  nlinks ← rd i_nlinks rip;
  if (nlinks =? 0) || (c =? NUL) then set_err ENOENT;; mret (None, None)
  else
    dup_inode rip;;
    loop (S (length path)) (λ '(path, rip),
      ns ← get_name path;
      let '(new_name, string) := ns in
      match new_name with
      | None => put_inode (Some rip);; mret (inr (None, Some string))
      | Some new_name =>
          c ← deref (head new_name);
          if c =? NUL then
            mode ← rd i_mode rip;
            if Z.land mode I_TYPE =? I_DIRECTORY then mret (inr (Some rip, Some string))
            else
              put_inode (Some rip);;
              set_err ENOTDIR;;
              mret (inr (None, Some string))
          else
            new_ip ← advance (Some rip) (Str string);
            put_inode (Some rip);;
            match new_ip with
            | None => mret (inr (None, Some string))
            | Some new_ip => mret (inl (new_name, new_ip))
            end
      end) (path, rip).

Definition eat_path (path : list Z) : M (option nat) :=
  ls ← last_dir path;
  match ls with
  | (None, _) => mret None
  | (Some ldip, string) =>
      string ← deref string;
      if decide (string = []) then mret (Some ldip)
      else
        rip ← advance (Some ldip) (Str string);
        put_inode (Some ldip);;
        mret rip
  end.
End path.
