(* ===== verification/Protect.v ===== *)
(** The system calls of protect.c and time.c. *)

From S2P Require Import Prelude Machine State Monad Utility Inode FileMap Permission Path.

Definition R_OK : Z := 4.
Definition W_OK : Z := 2.
Definition X_OK : Z := 1.
Definition F_OK : Z := 0.

Section protect.
Context {cfg : Config} {krn : Kernel}.

(** Fetching a name and opening it, the first steps of most calls: an error
    is in [err_code]. *)
Definition open_name (path len : Z) (flag : name_format) : M (option nat) :=
  r ← fetch_name path len flag;
  if negb (r =? OK) then mret None
  else p ← rg user_path; eat_path p.

Definition do_chmod : M Z :=
  m ← rg m_in;
  o ← open_name (in_name m) (in_name_length m) M3;
  match o with
  | None => rg err_code
  | Some rip =>
      p ← rg fp; f ← rd (λ f, f) p; su ← rg super_user;
      uid ← rd i_uid rip;
      r ← (if negb (uid =? fp_effuid f) && negb su then mret EPERM else read_only rip);
      if negb (r =? OK) then put_inode (Some rip);; mret r
      else
        wr rip (λ r, r <| i_mode ::= λ x, Z.lor (Z.ldiff x ALL_MODES) (Z.land (in_mode m) ALL_MODES) |>);;
        gid ← rd i_gid rip;
        when (negb su && negb (gid =? fp_effgid f))
          (wr rip (λ r, r <| i_mode ::= λ x, Z.ldiff x I_SET_GID_BIT |>));;
        wr rip (λ r, r <| i_update ::= Z.lor CTIME |> <| i_dirt := DIRTY |>);;
        put_inode (Some rip);;
        mret OK
  end.

Definition do_chown : M Z :=
  m ← rg m_in;
  o ← open_name (in_name1 m) (in_name1_length m) M1;
  match o with
  | None => rg err_code
  | Some rip =>
      r ← read_only rip;
      p ← rg fp; f ← rd (λ f, f) p; su ← rg super_user;
      uid ← rd i_uid rip;
      r ← (if negb (r =? OK) then mret r
           else if su : bool then
             wr rip (λ r, r <| i_uid := i16 (in_owner m) |>);; mret OK
           else
             mret (if negb (uid =? fp_effuid f) || negb (uid =? in_owner m)
                      || negb (fp_effgid f =? in_group m) then EPERM else OK));
      when (r =? OK)
        (wr rip (λ r, r <| i_gid := i8 (in_group m) |>
           <| i_mode ::= λ x, Z.ldiff x (Z.lor I_SET_UID_BIT I_SET_GID_BIT) |>
           <| i_update ::= Z.lor CTIME |> <| i_dirt := DIRTY |>));;
      put_inode (Some rip);;
      mret r
  end.

Definition do_umask : M Z :=
  m ← rg m_in; p ← rg fp;
  old ← rd fp_umask p;
  wr p (λ f, f <| fp_umask := u16 (Z.lnot (Z.land (in_co_mode m) RWX_MODES)) |>);;
  mret (u16 (Z.lnot old)).

Definition do_access : M Z :=
  m ← rg m_in;
  if negb (Z.ldiff (in_mode m) (Z.lor R_OK (Z.lor W_OK X_OK)) =? 0)
       && negb (in_mode m =? F_OK) then mret EINVAL
  else
    o ← open_name (in_name m) (in_name_length m) M3;
    match o with
    | None => rg err_code
    | Some rip =>
        r ← forbidden rip (u16 (in_mode m));
        put_inode (Some rip);;
        mret r
    end.

(** time.c *)
Definition do_utime : M Z :=
  m ← rg m_in;
  let len := if in_utime_length m =? 0 then in_utime_strlen m else in_utime_length m in
  o ← open_name (in_utime_file m) len M1;
  match o with
  | None => rg err_code
  | Some rip =>
      p ← rg fp; euid ← rd fp_effuid p; su ← rg super_user;
      uid ← rd i_uid rip;
      let r := if negb (uid =? euid) && negb su then EPERM else OK in
      r ← (if (in_utime_length m =? 0) && negb (r =? OK) then forbidden rip W_BIT else mret r);
      ro ← read_only rip;
      let r := if negb (ro =? OK) then EROFS else r in
      when (r =? OK) (
        (if in_utime_length m =? 0 then
           t ← clock_time;
           wr rip (λ r, r <| i_atime := t |> <| i_mtime := t |>)
         else
           wr rip (λ r, r <| i_atime := in_utime_actime m |>
                          <| i_mtime := in_utime_modtime m |>));;
        wr rip (λ r, r <| i_update := CTIME |> <| i_dirt := DIRTY |>));;
      put_inode (Some rip);;
      mret r
  end.

Definition do_stime : M Z :=
  m ← rg m_in;
  wg (λ g, g <| boottime := in_pm_stime m |>);;
  mret OK.
End protect.
