(* ===== verification/Filedes.v ===== *)
(** filedes.c: file descriptors and filp slots. *)

From S2P Require Import Prelude Machine State Monad.

Section filedes.
Context {krn : Kernel}.

(** The first free descriptor from [start] on. *)
Definition free_fd (start : nat) (l : list (option nat)) : option nat :=
  (λ p, (start + p.1)%nat) <$> list_find (λ f, f = None) (drop start l).

(** [get_fd(start, bits, &k, &fpt)]: an error, or [k] and [fpt]. *)
Definition get_fd (start : nat) (bits : Z) : M (Z + (nat * nat)) :=
  p ← rg fp;
  l ← rd fp_filp p;
  match free_fd start l with
  | None => mret (inl EMFILE)
  | Some k =>
      fs ← gets (λ s, filps (tabs s));
      match list_find (λ f, filp_count f = 0) fs with
      | None => mret (inl ENFILE)
      | Some (f, _) =>
          wr f (λ f, f <| filp_mode := bits |> <| filp_pos := 0 |>
            <| filp_selectors := 0 |> <| filp_select_ops := 0 |>
            <| filp_pipe_select_ops := 0 |> <| filp_flags := 0 |>);;
          mret (inr (k, f))
      end
  end.

Definition get_filp (fild : Z) : M (option nat) :=
  set_err EBADF;;
  if (fild <? 0) || (Z.of_nat OPEN_MAX <=? fild) then mret None
  else
    p ← rg fp;
    l ← rd fp_filp p;
    deref (l !! Z.to_nat fild).

(** The first filp slot through which [rip] is open with one of [bits]. *)
Definition find_filp (rip : nat) (bits : Z) : M (option nat) :=
  fs ← gets (λ s, filps (tabs s));
  mret (fst <$> list_find (λ f, filp_count f ≠ 0 ∧ filp_ino f = Some rip
                              ∧ has (filp_mode f) bits = true) fs).

(** [fp->fp_filp[fd] = f] *)
Definition set_fd (p fd : nat) (f : option nat) : M unit :=
  l ← rd fp_filp p;
  _ ← deref (l !! fd);
  wr p (λ r, r <| fp_filp ::= λ l, <[fd := f]> l |>).
End filedes.
