(* ===== verification/Lock.v ===== *)
(** lock.c: advisory locking of the regions of a file. *)

From S2P Require Import Prelude Machine State Monad Process.

(** fcntl.h: [struct flock]. *)
Record flock := Flock {
  l_type : Z; l_whence : Z; l_start : Z; l_len : Z; l_pid : Z
}.
Definition flock_widths : list nat := [2; 2; 4; 4; 4]%nat.
Definition FLOCK_SIZE : Z := 16.
Definition flock_load (d : list Z) : option flock :=
  vs ← load_fields flock_widths 0 d;
  match vs with
  | [ty; wh; start; len; pid] => Some (Flock (i16 ty) (i16 wh) start len (i32 pid))
  | _ => None
  end.
Definition flock_store (f : flock) : option (list Z) :=
  store_fields flock_widths 0 [l_type f; l_whence f; l_start f; l_len f; l_pid f]
    (replicate (Z.to_nat FLOCK_SIZE) 0).

(** The first and last byte of the region that [f] describes, from the position
    [base] its [l_whence] denotes; [None] is the overflow that is refused. *)
Definition lock_region (base : Z) (f : flock) : option (Z * Z) :=
  let start := i32 (l_start f) in
  let first := u32 (base + l_start f) in
  if ((0 <? start) && (first <? base)) || ((start <? 0) && (base <? first)) then None
  else
    let last := if l_len f =? 0 then MAX_FILE_POS else u32 (first + l_len f - 1) in
    if last <? first then None else Some (first, last).

(** The lock [flp] conflicts with the request of process [pid] on a region of
    [ino]: the tests of the loop over the table. *)
Definition lock_conflict (ltype : Z) (ino : option nat) (first last pid : Z)
    (flp : file_lock) : bool :=
  bool_decide (lock_inode flp = ino)
  && negb (last <? lock_first flp) && negb (lock_last flp <? first)
  && negb ((ltype =? F_RDLCK) && (lock_type flp =? F_RDLCK))
  && negb (negb (ltype =? F_UNLCK) && (lock_pid flp =? pid)).

Section lock.
Context {krn : Kernel}.

(** Clearing the region [first .. last] from the lock [i] it overlaps; [Some r]
    is a return from [lock_op]. *)
Definition unlock_part (i : nat) (flp : file_lock) (first last : Z) : M (option Z) :=
  if (first <=? lock_first flp) && (lock_last flp <=? last) then
    wr i (λ l, l <| lock_type := 0 |>);;
    wg (λ g, g <| nr_locks ::= λ n, n - 1 |>);;
    mret None
  else if first <=? lock_first flp then
    wr i (λ l, l <| lock_first := u32 (last + 1) |>);; mret None
  else if lock_last flp <=? last then
    wr i (λ l, l <| lock_last := u32 (first - 1) |>);; mret None
  else
    n ← rg nr_locks;
    if n =? Z.of_nat NR_LOCKS then mret (Some ENOLCK)
    else
      locks ← gets (λ s, file_locks (tabs s));
      i2 ← deref (fst <$> list_find (λ l, lock_type l = 0) locks);
      wr i2 (λ l, l <| lock_type := lock_type flp |> <| lock_pid := lock_pid flp |>
        <| lock_inode := lock_inode flp |> <| lock_first := u32 (last + 1) |>
        <| lock_last := lock_last flp |>);;
      wr i (λ l, l <| lock_last := u32 (first - 1) |>);;
      wg (λ g, g <| nr_locks ::= Z.add 1 |>);;
      mret None.

(** The loop over the table from slot [i] on, [n] slots: the value returned
    from [lock_op], or the conflicting lock for F_GETLK, the first empty slot
    and whether something has been unlocked. *)
Fixpoint lock_scan (req ltype : Z) (ino : option nat) (first last : Z)
    (n i : nat) (empty : option nat) (unlocking : bool) :
    M (Z + (option nat * option nat * bool)) :=
  match n with
  | O => mret (inr (None, empty, unlocking))
  | S n =>
      flp ← rd (λ l, l) i;
      p ← rg fp; pid ← rd fp_pid p;
      if lock_type flp =? 0 then
        lock_scan req ltype ino first last n (S i)
          (match empty with None => Some i | _ => empty end) unlocking
      else if negb (lock_conflict ltype ino first last pid flp) then
        lock_scan req ltype ino first last n (S i) empty unlocking
      else if req =? F_GETLK then mret (inr (Some i, empty, unlocking))
      else if (ltype =? F_RDLCK) || (ltype =? F_WRLCK) then
        if req =? F_SETLK then mret (inl EAGAIN)
        else suspend XLOCK;; mret (inl SUSPEND)
      else
        r ← unlock_part i flp first last;
        match r with
        | Some r => mret (inl r)
        | None => lock_scan req ltype ino first last n (S i) empty true
        end
  end.

(** What follows the loop. *)
Definition lock_finish (req : Z) (flk : flock) (user_flock : Z) (ino : option nat)
    (first last : Z) (conflict empty : option nat) (unlocking : bool) : M Z :=
  when unlocking lock_revive;;
  p ← rg fp; pid ← rd fp_pid p; w ← rg who;
  if req =? F_GETLK then
    flk ← match conflict with
          | Some i =>
              flp ← rd (λ l, l) i;
              mret (Flock (i16 (lock_type flp)) SEEK_SET (lock_first flp)
                      (u32 (lock_last flp - lock_first flp + 1)) (lock_pid flp))
          | None => mret (Flock F_UNLCK (l_whence flk) (l_start flk) (l_len flk) (l_pid flk))
          end;
    bs ← deref (flock_store flk);
    kcall (k_vircopy_to w SEG_D user_flock bs)
  else if l_type flk =? F_UNLCK then mret OK
  else
    match empty with
    | None => mret ENOLCK
    | Some i =>
        wr i (λ l, l <| lock_type := l_type flk |> <| lock_pid := pid |>
          <| lock_inode := ino |> <| lock_first := first |> <| lock_last := last |>);;
        wg (λ g, g <| nr_locks ::= Z.add 1 |>);;
        mret OK
    end.

Definition lock_op (f : nat) (req : Z) : M Z :=
  m ← rg m_in; w ← rg who;
  let user_flock := in_name1 m in
  rb ← gets (λ s, k_vircopy_from w SEG_D user_flock FLOCK_SIZE (kern s));
  if negb (rb.1 =? OK) then mret EINVAL
  else
    flk ← deref (flock_load rb.2);
    let ltype := l_type flk in
    mo ← rd filp_mode f;
    if negb (ltype =? F_UNLCK) && negb (ltype =? F_RDLCK) && negb (ltype =? F_WRLCK)
    then mret EINVAL
    else if (req =? F_GETLK) && (ltype =? F_UNLCK) then mret EINVAL
    else
      ino ← rd filp_ino f;
      rip ← deref ino;
      mode ← rd i_mode rip;
      if negb (Z.land mode I_TYPE =? I_REGULAR) then mret EINVAL
      else if negb (req =? F_GETLK) && (ltype =? F_RDLCK) && negb (has mo R_BIT) then mret EBADF
      else if negb (req =? F_GETLK) && (ltype =? F_WRLCK) && negb (has mo W_BIT) then mret EBADF
      else
        pos ← rd filp_pos f; size ← rd i_size rip;
        let base := if l_whence flk =? SEEK_SET then Some 0
                    else if l_whence flk =? SEEK_CUR then Some pos
                    else if l_whence flk =? SEEK_END then Some size else None in
        match b ← base; lock_region b flk with
        | None => mret EINVAL
        | Some (first, last) =>
            o ← lock_scan req ltype ino first last NR_LOCKS 0 None false;
            match o with
            | inl r => mret r
            | inr (conflict, empty, unlocking) =>
                lock_finish req flk user_flock ino first last conflict empty unlocking
            end
        end.
End lock.
