(* ===== verification/Stadir.v ===== *)
(** stadir.c: changing directories and the status of files. *)

From S2P Require Import Prelude Machine State Monad Utility Inode FileMap Permission Path Protect Filedes.

(** [&fp->fp_workdir] and [&fp->fp_rootdir] *)
Inductive dir_ptr := Workdir | Rootdir.

(** sys/stat.h: [struct stat], the padding included. *)
Definition stat_widths : list nat := [2; 2; 4; 2; 2; 2; 2; 2; 2; 4; 4; 4; 4]%nat.
Definition STAT_SIZE : nat := 36.

Section stadir.
Context {cfg : Config} {krn : Kernel}.

Definition get_dir (iip : dir_ptr) (p : nat) : M (option nat) :=
  match iip with Workdir => rd fp_workdir p | Rootdir => rd fp_rootdir p end.
Definition set_dir (iip : dir_ptr) (p : nat) (rip : option nat) : M unit :=
  match iip with
  | Workdir => wr p (λ r, r <| fp_workdir := rip |>)
  | Rootdir => wr p (λ r, r <| fp_rootdir := rip |>)
  end.

Definition change_into (iip : dir_ptr) (rip : nat) : M Z :=
  mode ← rd i_mode rip;
  r ← (if negb (Z.land mode I_TYPE =? I_DIRECTORY) then mret ENOTDIR
       else forbidden rip X_BIT);
  if negb (r =? OK) then put_inode (Some rip);; mret r
  else
    p ← rg fp;
    old ← get_dir iip p;
    put_inode old;;
    set_dir iip p (Some rip);;
    mret OK.

Definition change (iip : dir_ptr) (name_ptr len : Z) : M Z :=
  o ← open_name name_ptr len M3;
  match o with
  | None => rg err_code
  | Some rip => change_into iip rip
  end.

Definition do_fchdir : M Z :=
  m ← rg m_in;
  f ← get_filp (in_fd m);
  match f with
  | None => rg err_code
  | Some f => ino ← rd filp_ino f; rip ← deref ino; change_into Workdir rip
  end.

(** [put_inode(fp->x); dup_inode(fp->x = rfp->x)] *)
Definition inherit_dir (iip : dir_ptr) (p rfp : nat) : M unit :=
  old ← get_dir iip p;
  put_inode old;;
  new ← get_dir iip rfp;
  set_dir iip p new;;
  ip ← deref new;
  dup_inode ip.

Definition do_chdir : M Z :=
  m ← rg m_in; w ← rg who; p ← rg fp;
  if w =? PM_PROC_NR then
    rfp ← Process.index (in_slot1 m);
    inherit_dir Rootdir p rfp;;
    inherit_dir Workdir p rfp;;
    uid ← rd fp_effuid rfp; gid ← rd fp_effgid rfp; umask ← rd fp_umask rfp;
    wr p (λ f, f <| fp_realuid := uid |> <| fp_effuid := uid |>
      <| fp_realgid := gid |> <| fp_effgid := gid |> <| fp_umask := umask |>);;
    mret OK
  else change Workdir (in_name m) (in_name_length m).

Definition do_chroot : M Z :=
  su ← rg super_user; m ← rg m_in;
  if negb su then mret EPERM
  else change Rootdir (in_name m) (in_name_length m).

(** The [struct stat] of [r]; [pos] is the position of a pipe open for reading. *)
Definition stat_fields (r : inode) (pos : option Z) : list Z :=
  let mo := Z.land (i_mode r) I_TYPE in
  let s := (mo =? I_CHAR_SPECIAL) || (mo =? I_BLOCK_SPECIAL) in
  let mode := if i_pipe r then Z.ldiff (i_mode r) I_REGULAR else i_mode r in
  let size := match pos with
              | Some pos => if i_pipe r then u32 (i_size r - pos) else i_size r
              | None => i_size r
              end in
  [i_dev r; 0; i_num r; mode; i_nlinks r; i_uid r; i_gid r;
   (if s then default 0 (i_zone r !! 0%nat) else NO_DEV); 0; size;
   i_atime r; i_mtime r; i_ctime r].

Definition stat_inode (rip : nat) (fil_ptr : option nat) (user_addr : Z) : M Z :=
  upd ← rd i_update rip;
  when (truth upd) (update_times rip);;
  pos ← match fil_ptr with
        | None => mret None
        | Some f =>
            mode ← rd filp_mode f; pos ← rd filp_pos f;
            mret (if has mode R_BIT then Some pos else None)
        end;
  r ← rd (λ r, r) rip;
  w ← rg who;
  bs ← deref (store_fields stat_widths 0 (stat_fields r pos) (replicate STAT_SIZE 0));
  kcall (k_vircopy_to w SEG_D user_addr bs).

Definition do_stat : M Z :=
  m ← rg m_in;
  o ← open_name (in_name1 m) (in_name1_length m) M1;
  match o with
  | None => rg err_code
  | Some rip =>
      r ← stat_inode rip None (in_name2 m);
      put_inode (Some rip);;
      mret r
  end.

Definition do_fstat : M Z :=
  m ← rg m_in;
  f ← get_filp (in_fd m);
  match f with
  | None => rg err_code
  | Some f =>
      ino ← rd filp_ino f; rip ← deref ino;
      stat_inode rip (Some f) (in_buffer m)
  end.

Definition do_fstatfs : M Z :=
  m ← rg m_in; w ← rg who;
  f ← get_filp (in_fd m);
  match f with
  | None => rg err_code
  | Some f =>
      ino ← rd filp_ino f; rip ← deref ino;
      bsize ← sp_of s_block_size rip;
      kcall (k_vircopy_to w SEG_D (in_buffer m) (Z_to_little_endian 4 8 bsize))
  end.
End stadir.
