(* ===== verification/SelectTable.v ===== *)
(** timers.c, and the part of select.c that keeps the table of the pending
    selects: matching ready operations with entries, waking the callers up. *)

From S2P Require Import Prelude Machine State Monad Process Inode.

Section select_table.
Context {krn : Kernel}.

(** * timers.c *)

(** [tp] is the timer of the entry [s], which is also its argument. *)
Definition fs_set_timer (s : nat) (ticks : Z) : M unit :=
  k ← gets (λ s, k_getuptime (kern s));
  if negb (k.1 =? OK) then panic NO_NUM
  else
    oh ← kcall (λ c, let '(o, n, c') := k_tmrs_settimer s (i32 (k.2 + ticks)) c in ((o, n), c'));
    when ((oh.1 =? 0) || (oh.2 <? oh.1)) (
      r ← kcall (k_setalarm oh.2 1);
      if negb (r =? OK) then panic NO_NUM else mret tt).

Definition fs_init_timer (s : nat) : M unit :=
  modify (λ x, x <| kern ::= k_tmr_inittimer s |>).

Definition fs_cancel_timer (s : nat) : M unit :=
  oh ← kcall (λ c, let '(o, n, c') := k_tmrs_clrtimer s c in ((o, n), c'));
  when ((oh.1 <? oh.2) || (oh.2 =? 0)) (
    r ← kcall (k_setalarm oh.2 1);
    if negb (r =? OK) then panic NO_NUM else mret tt).

(** * select.c *)

Definition FD_ISSET (fd : nat) (set : Z) : bool := Z.testbit set (Z.of_nat fd).
Definition FD_SET (fd : nat) (set : Z) : Z := Z.lor set (Z.shiftl 1 (Z.of_nat fd)).

Definition tab2ops (fd : nat) (e : selectentry) : Z :=
  Z.lor (if FD_ISSET fd (readfds e) then SEL_RD else 0)
    (Z.lor (if FD_ISSET fd (writefds e) then SEL_WR else 0)
       (if FD_ISSET fd (errorfds e) then SEL_ERR else 0)).

Definition ops2tab (ops : Z) (fd : nat) (e : selectentry) : selectentry :=
  let e := if has ops SEL_RD && truth (vir_readfds e) && FD_ISSET fd (readfds e)
                && negb (FD_ISSET fd (ready_readfds e))
           then e <| ready_readfds ::= FD_SET fd |> <| nreadyfds ::= Z.add 1 |> else e in
  let e := if has ops SEL_WR && truth (vir_writefds e) && FD_ISSET fd (writefds e)
                && negb (FD_ISSET fd (ready_writefds e))
           then e <| ready_writefds ::= FD_SET fd |> <| nreadyfds ::= Z.add 1 |> else e in
  if has ops SEL_ERR && truth (vir_errorfds e) && FD_ISSET fd (errorfds e)
       && negb (FD_ISSET fd (ready_errorfds e))
  then e <| ready_errorfds ::= FD_SET fd |> <| nreadyfds ::= Z.add 1 |> else e.

Definition copy_fdset (proc addr set : Z) : M unit :=
  when (truth addr) (
    _ ← kcall (k_vircopy_to proc SEG_D addr (Z_to_little_endian 4 8 set)); mret tt).
Definition copy_fdsets (s : nat) : M unit :=
  e ← rd (λ e, e) s;
  copy_fdset (req_procnr e) (vir_readfds e) (ready_readfds e);;
  copy_fdset (req_procnr e) (vir_writefds e) (ready_writefds e);;
  copy_fdset (req_procnr e) (vir_errorfds e) (ready_errorfds e).

(** The operations that the pending selects still want of the filp [f]. *)
Definition wanted_ops (f : nat) (l : list selectentry) : Z :=
  foldl Z.lor 0
    (e ← l; if decide (requestor e = None) then []
            else fd ← seq 0 (Z.to_nat (nfds e));
                 if decide (sel_filps e !! fd = Some (Some f)) then [tab2ops fd e] else []).

Definition select_reevaluate (f : nat) : M Z :=
  l ← gets (λ s, selecttab (tabs s));
  let remain_ops := wanted_ops f l in
  wr f (λ f, f <| filp_select_ops := remain_ops |>);;
  mret remain_ops.

Definition select_cancel_all (s : nat) : M unit :=
  n ← rd nfds s;
  for_each (seq 0 (Z.to_nat n)) (λ fd,
    fs ← rd sel_filps s;
    f ← deref (fs !! fd);
    match f with
    | None => mret tt
    | Some f =>
        sel ← rd filp_selectors f;
        when (1 <=? sel) (
          wr f (λ f, f <| filp_selectors ::= λ n, n - 1 |>);;
          wr s (λ e, e <| sel_filps ::= λ l, <[fd := None]> l |>);;
          _ ← select_reevaluate f; mret tt)
    end);;
  exp ← rd expiry s;
  when (0 <? exp) (
    fs_cancel_timer s;;
    wr s (λ e, e <| expiry := 0 |>)).

Definition select_wakeup (s : nat) (r : Z) : M unit :=
  p ← rd req_procnr s; revive p r.

Definition select_return (s : nat) (r : Z) : M unit :=
  select_cancel_all s;;
  copy_fdsets s;;
  n ← rd nreadyfds s;
  select_wakeup s (if r =? 0 then n else r);;
  wr s (λ e, e <| requestor := None |>).

(** The loop of [select_callback] over the descriptors of the entry [s]. *)
Definition callback_entry (f : nat) (ops : Z) (s : nat) : M bool :=
  n ← rd nfds s;
  fs ← rd sel_filps s;
  foldl (λ acc fd,
    wakehim ← acc;
    if decide (fs !! fd = Some (Some f)) then
      e ← rd (λ e, e) s;
      if has (tab2ops fd e) ops
      then wr s (ops2tab ops fd);; mret true
      else mret wakehim
    else mret wakehim) (mret false) (seq 0 (Z.to_nat n)).

Definition select_callback (f : nat) (ops : Z) : M unit :=
  for_each (seq 0 MAXSELECTS) (λ s,
    req ← rd requestor s;
    match req with
    | None => mret tt
    | Some _ =>
        wakehim ← callback_entry f ops s;
        when wakehim (select_return s 0)
    end).

Definition init_select : M unit := for_each (seq 0 MAXSELECTS) fs_init_timer.

Definition select_forget (proc : Z) : M unit :=
  l ← gets (λ s, selecttab (tabs s));
  match list_find (λ e, requestor e ≠ None ∧ req_procnr e = proc) l with
  | None => mret tt
  | Some (s, _) =>
      select_cancel_all s;;
      wr s (λ e, e <| requestor := None |>)
  end.

(** The watchdog of the timer of entry [s]. *)
Definition select_timeout_check (s : nat) : M unit :=
  if (MAXSELECTS <=? s)%nat then mret tt
  else
    req ← rd requestor s;
    exp ← rd expiry s;
    if bool_decide (req = None) || (exp <=? 0) then mret tt
    else
      wr s (λ e, e <| expiry := 0 |>);;
      select_return s 0.

(** The library runs the watchdogs of the timers that expire. *)
Definition fs_expire_timers (now : Z) : M unit :=
  en ← kcall (λ c, let '(l, n, c') := k_tmrs_exptimers now c in ((l, n), c'));
  for_each en.1 select_timeout_check;;
  when (0 <? en.2) (
    r ← kcall (k_setalarm en.2 1);
    if negb (r =? OK) then panic NO_NUM else mret tt).

(** dmap.c *)
Definition dmap_driver_match (proc major : Z) : M bool :=
  if (major <? 0) || (Z.of_nat NR_DEVICES <=? major) then mret false
  else
    d ← rd dmap_driver (Z.to_nat major);
    mret (negb (d =? NONE) && (d =? proc)).

Definition select_unsuspend_by_proc (proc : Z) : M unit :=
  for_each (seq 0 MAXSELECTS) (λ s,
    req ← rd requestor s;
    n ← rd nfds s;
    when (bool_decide (req ≠ None)) (
      for_each (seq 0 (Z.to_nat n)) (λ fd,
        fs ← rd sel_filps s;
        f ← deref (fs !! fd);
        match f with
        | None => mret tt
        | Some f =>
            ino ← rd filp_ino f;
            match ino with
            | None => mret tt
            | Some rip =>
                zs ← rd i_zone rip; z ← deref (zs !! 0%nat);
                b ← dmap_driver_match proc (Z.land (Z.shiftr z MAJOR) BYTE);
                when b (select_return s EAGAIN)
            end
        end))).
End select_table.
