(* ===== verification/Pipe.v ===== *)
(** pipe.c: pipes, and the processes that hang on them. *)

From S2P Require Import Prelude Machine State Monad Process Device Cache Inode FileMap Permission Filedes SelectTable.

Section pipe.
Context {cfg : Config} {krn : Kernel}.

Definition do_pipe : M Z :=
  rfp ← rg fp;
  r ← get_fd 0 R_BIT;
  match r with
  | inl r => mret r
  | inr (fd0, fil_ptr0) =>
      set_fd rfp fd0 (Some fil_ptr0);;
      wr fil_ptr0 (λ f, f <| filp_count := 1 |>);;
      r ← get_fd 0 W_BIT;
      match r with
      | inl r =>
          set_fd rfp fd0 None;;
          wr fil_ptr0 (λ f, f <| filp_count := 0 |>);;
          mret r
      | inr (fd1, fil_ptr1) =>
          set_fd rfp fd1 (Some fil_ptr1);;
          wr fil_ptr1 (λ f, f <| filp_count := 1 |>);;
          dev ← rg root_dev;
          rip ← alloc_inode (i16 dev) I_REGULAR;
          match rip with
          | None =>
              set_fd rfp fd0 None;;
              wr fil_ptr0 (λ f, f <| filp_count := 0 |>);;
              set_fd rfp fd1 None;;
              wr fil_ptr1 (λ f, f <| filp_count := 0 |>);;
              rg err_code
          | Some rip =>
              r ← read_only rip;
              if negb (r =? OK) then panic NO_NUM
              else
                wr rip (λ r, r <| i_pipe := true |>
                  <| i_mode ::= λ x, Z.lor (Z.ldiff x I_REGULAR) I_NAMED_PIPE |>);;
                wr fil_ptr0 (λ f, f <| filp_ino := Some rip |> <| filp_flags := 0 |>);;
                dup_inode rip;;
                wr fil_ptr1 (λ f, f <| filp_ino := Some rip |> <| filp_flags := O_WRONLY |>);;
                rw_inode rip WRITING;;
                wg (λ g, g <| m_out ::= λ m, m <| m1_i1 := Z.of_nat fd0 |>
                                               <| m1_i2 := Z.of_nat fd1 |> |>);;
                wr rip (λ r, r <| i_update := Z.lor ATIME (Z.lor CTIME MTIME) |>);;
                mret OK
          end
      end
  end.

(** The selects waiting for [op] on the pipe [ip] are called back. *)
Definition release_selects (ip : nat) (op : Z) : M unit :=
  for_each (seq 0 NR_FILPS) (λ f,
    x ← rd (λ f, f) f;
    when (negb (filp_count x <? 1) && has (filp_pipe_select_ops x) op
            && bool_decide (filp_ino x = Some ip)) (
      select_callback f op;;
      wr f (λ f, f <| filp_pipe_select_ops ::= λ o, Z.ldiff o op |>))).

(** Process [p] hangs on the pipe [ip] in the call [call]. *)
Definition hangs_on (ip : nat) (call : Z) (p : nat) : M bool :=
  x ← rd (λ p, p) p;
  if fp_suspended x && negb (fp_revived x) && (Z.land (fp_fd x) BYTE =? call) then
    fd ← Process.index (Z.shiftr (fp_fd x) 8);
    f ← deref (fp_filp x !! fd);
    f ← deref f;
    ino ← rd filp_ino f;
    mret (bool_decide (ino = Some ip))
  else mret false.

(** The loop over the processes from slot [p] on, [n] slots. *)
Fixpoint release_procs (ip : nat) (call : Z) (n p : nat) (count : Z) : M unit :=
  match n with
  | O => mret tt
  | S n =>
      b ← hangs_on ip call p;
      if b : bool then
        revive (Z.of_nat p) 0;;
        wg (λ g, g <| susp_count ::= λ c, c - 1 |>);;
        if count - 1 =? 0 then mret tt
        else release_procs ip call n (S p) (count - 1)
      else release_procs ip call n (S p) count
  end.

Definition release (ip : nat) (call count : Z) : M unit :=
  when ((call =? READ) || (call =? WRITE))
    (release_selects ip (if call =? READ then SEL_RD else SEL_WR));;
  release_procs ip call NR_PROCS 0 count.

(** [pipe_check(rip, rw_flag, oflags, bytes, position, &canwrite, notouch)]:
    the result, and [canwrite] where it is assigned. *)
Definition pipe_check (rip : nat) (rw_flag : rw) (oflags bytes position : Z) (notouch : bool) :
    M (Z * option Z) :=
  susp ← rg susp_count;
  match rw_flag with
  | READING =>
      size ← rd i_size rip;
      if size <=? position then
        w ← find_filp rip W_BIT;
        match w with
        | None => mret (0, None)
        | Some _ =>
            r ← (if has oflags O_NONBLOCK then mret EAGAIN
                 else when (negb notouch) (suspend XPIPE);; mret SUSPEND);
            susp ← rg susp_count;
            when ((0 <? susp) && negb notouch) (release rip WRITE susp);;
            mret (r, None)
        end
      else mret (1, Some 0)
  | WRITING =>
      reader ← find_filp rip R_BIT;
      match reader with
      | None =>
          p ← rg fp;
          when (negb notouch)
            (modify (λ s, s <| kern ::= k_kill (Z.of_nat p) SIGPIPE |>));;
          mret (EPIPE, None)
      | Some _ =>
          block_size ← sp_of s_block_size rip;
          let pipe_size := PIPE_SIZE block_size in
          if pipe_size <? u32 (position + bytes) then
            let canwrite := i32 (pipe_size - position) in
            if has oflags O_NONBLOCK && (bytes <? pipe_size) then mret (EAGAIN, None)
            else if has oflags O_NONBLOCK && (pipe_size <? bytes) then
              if 0 <? canwrite then
                when (negb notouch) (release rip READ susp);; mret (1, Some canwrite)
              else mret (EAGAIN, Some canwrite)
            else if (pipe_size <? bytes) && (0 <? canwrite) then
              release rip READ susp;; mret (1, Some canwrite)
            else
              when (negb notouch) (suspend XPIPE);;
              mret (SUSPEND, if pipe_size <? bytes then Some canwrite else None)
          else
            when ((position =? 0) && negb notouch) (release rip READ susp);;
            mret (1, Some 0)
      end
  end.

Definition unsuspend_by_proc (proc : Z) : M unit :=
  for_each (seq 0 NR_PROCS) (λ client,
    x ← rd (λ p, p) client;
    when (fp_suspended x && (fp_task x =? - proc)) (revive (Z.of_nat client) EAGAIN));;
  select_unsuspend_by_proc proc.

Definition do_unpause : M Z :=
  w ← rg who; m ← rg m_in;
  if PM_PROC_NR <? w then mret EPERM
  else
    let proc_nr := in_pro m in
    if (proc_nr <? 0) || (Z.of_nat NR_PROCS <=? proc_nr) then panic proc_nr
    else
      let p := Z.to_nat proc_nr in
      rfp ← rd (λ p, p) p;
      if negb (fp_suspended rfp) then mret OK
      else
        let task := - fp_task rfp in
        (if (task =? XPIPE) || (task =? XLOCK) || (task =? XPOPEN) then mret tt
         else if task =? XSELECT then select_forget proc_nr
         else
           let fild := Z.land (Z.shiftr (fp_fd rfp) 8) BYTE in
           if Z.of_nat OPEN_MAX <=? fild then panic NO_NUM
           else
             f ← deref (fp_filp rfp !! Z.to_nat fild);
             f ← deref f;
             ino ← rd filp_ino f; rip ← deref ino;
             z ← rd_zone rip 0;
             let dev := i16 z in
             let mess := blank_message <| DEVICE := minor_of dev |> <| PROC_NR := proc_nr |>
               <| COUNT := if Z.land (fp_fd rfp) BYTE =? READ then R_BIT else W_BIT |>
               <| m_type := CANCEL |> in
             wg (λ g, g <| fp := p |>);;
             d ← Process.index (major_of dev);
             io ← rd dmap_io d;
             _ ← call_io 2 io task mess [];
             mret tt);;
        wr p (λ r, r <| fp_suspended := false |>);;
        reply proc_nr EINTR;;
        mret OK.

Definition select_request_pipe (f : nat) (ops : Z) (block : bool) : M (Z * Z) :=
  ino ← rd filp_ino f; pos ← rd filp_pos f;
  let check b rw_flag sel :=
    if has ops sel then
      rip ← deref ino;
      rc ← pipe_check rip rw_flag 0 1 pos true;
      let err := rc.1 in
      let r := if negb (err =? SUSPEND) then Z.lor b sel else b in
      mret (if (err <? 0) && negb (err =? SUSPEND) && has ops SEL_ERR
            then Z.lor r SEL_ERR else r)
    else mret b in
  r ← check 0 READING SEL_RD;
  r ← check r WRITING SEL_WR;
  when ((r =? 0) && block)
    (wr f (λ f, f <| filp_pipe_select_ops ::= λ o, Z.lor o ops |>));;
  mret (0, r).

Definition select_match_pipe (f : nat) : M bool :=
  ino ← rd filp_ino f;
  match ino with
  | None => mret false
  | Some rip => mode ← rd i_mode rip; mret (has mode I_NAMED_PIPE)
  end.
End pipe.
