(* ===== verification/Select.v ===== *)
(** select.c: the [select] system call. *)

From S2P Require Import Prelude Machine State Monad Process Device Inode FileMap Filedes SelectTable Pipe.

Definition SEL_OK : Z := 0.
Definition TTY_MAJOR : Z := 4.
Definition INET_MAJOR : Z := 7.
Definition LOG_MAJOR : Z := 15.
Definition USECPERSEC : Z := 1000000.

(** An entry of [fdtypes]. *)
Inductive fdtype := FdFile | FdGeneral (select_major : Z) | FdPipe.
Definition fdtypes : list fdtype :=
  [FdFile; FdGeneral TTY_MAJOR; FdGeneral INET_MAJOR; FdPipe; FdGeneral LOG_MAJOR].

Section select.
Context {cfg : Config} {krn : Kernel}.

Abbreviation SEL_NFDS := m_w0 (only parsing).
Abbreviation SEL_READFDS := m_w2 (only parsing).
Abbreviation SEL_WRITEFDS := m_w3 (only parsing).
Abbreviation SEL_ERRORFDS := m_w4 (only parsing).
Abbreviation SEL_TIMEOUT := m_w5 (only parsing).

Definition select_match_file (f : nat) : M bool :=
  ino ← rd filp_ino f;
  match ino with
  | None => mret false
  | Some rip => mode ← rd i_mode rip; mret (has mode I_REGULAR)
  end.

Definition select_request_general (f : nat) (ops : Z) (block : bool) : M (Z * Z) :=
  let rops := if block then Z.lor ops SEL_NOTIFY else ops in
  ino ← rd filp_ino f; rip ← deref ino;
  z ← rd_zone rip 0;
  r ← dev_io DEV_SELECT (i16 z) rops 0 [] 0 0 0;
  mret (if r.1 <? 0 then SEL_ERR else SEL_OK, r.1).

Definition select_major_match (match_major : Z) (f : nat) : M bool :=
  ino ← rd filp_ino f;
  match ino with
  | None => mret false
  | Some rip =>
      mode ← rd i_mode rip;
      if negb (Z.land mode I_TYPE =? I_CHAR_SPECIAL) then mret false
      else
        z ← rd_zone rip 0;
        mret (Z.land (Z.shiftr z MAJOR) BYTE =? match_major)
  end.

Definition fdtype_matches (t : fdtype) (f : nat) : M bool :=
  match t with
  | FdFile => select_match_file f
  | FdPipe => select_match_pipe f
  | FdGeneral maj => select_major_match maj f
  end.

(** The last type of [fdtypes] that matches. *)
Definition fd_type (f : nat) : M (option (Z * fdtype)) :=
  foldl (λ acc it,
    t ← acc;
    b ← fdtype_matches it.2 f;
    mret (if b : bool then Some (Z.of_nat it.1, it.2) else t))
    (mret None) (zip (seq 0 (length fdtypes)) fdtypes).

(** [fdtypes[type].select_request(filp, &ops, block)]: the result and [ops]. *)
Definition select_request (t : fdtype) (f : nat) (ops : Z) (block : bool) : M (Z * Z) :=
  match t with
  | FdFile => mret (SEL_OK, ops)
  | FdGeneral _ => select_request_general f ops block
  | FdPipe => select_request_pipe f ops block
  end.

(** One iteration of the loop over the descriptors; [Some r] returns [r]. *)
Definition select_fd (s : nat) (block : bool) (fd : nat) : M (option Z) :=
  e ← rd (λ e, e) s;
  let ops := tab2ops fd e in
  if ops =? 0 then mret None
  else
    f ← get_filp (Z.of_nat fd);
    wr s (λ e, e <| sel_filps ::= λ l, <[fd := f]> l |>);;
    match f with
    | None => select_cancel_all s;; mret (Some EBADF)
    | Some f =>
        t ← fd_type f;
        match t with
        | None => mret (Some EBADF)
        | Some (ty, t) =>
            wr s (λ e, e <| sel_type ::= λ l, <[fd := ty]> l |>);;
            have ← rd filp_select_ops f;
            r ← (if negb (Z.land have ops =? ops) then
                   let wantops := Z.lor have ops in
                   wr f (λ f, f <| filp_select_ops := wantops |>);;
                   rw ← select_request t f wantops block;
                   let '(r, wantops) := rw in
                   if negb (r =? SEL_OK) then select_cancel_all s;; mret (Some EINVAL)
                   else
                     when (truth wantops) (
                       when (has wantops ops) (wr s (ops2tab wantops fd));;
                       select_callback f ops);;
                     mret None
                 else mret None);
            match r with
            | Some r => mret (Some r)
            | None =>
                wr s (λ e, e <| nfds := Z.of_nat fd + 1 |>);;
                wr f (λ f, f <| filp_selectors ::= Z.add 1 |>);;
                mret None
            end
        end
    end.

(** Copying a set of the caller in; an error of the copy is returned. *)
Definition fetch_set (addr : Z) : M (Z * Z) :=
  w ← rg who;
  if addr =? 0 then mret (OK, 0)
  else
    rb ← gets (λ s, k_vircopy_from w SEG_D addr 4 (kern s));
    if negb (rb.1 =? OK) then mret (rb.1, 0)
    else v ← deref (load_le 4 0 rb.2); mret (OK, v).

(** [struct timeval] of the caller, normalised as before the conversion. *)
Definition timeout_ticks (sec usec : Z) : Z :=
  let sec := sec + usec / USECPERSEC in
  let usec := usec mod USECPERSEC in
  i32 (sec * HZ + (usec * HZ + USECPERSEC - 1) / USECPERSEC).

Definition init_entry (m : message) (w : Z) (e : selectentry) : selectentry :=
  e <| req_procnr := w |> <| nfds := 0 |> <| nreadyfds := 0 |>
    <| sel_filps := replicate FD_SETSIZE None |>
    <| readfds := 0 |> <| writefds := 0 |> <| errorfds := 0 |>
    <| ready_readfds := 0 |> <| ready_writefds := 0 |> <| ready_errorfds := 0 |>
    <| vir_readfds := SEL_READFDS m |> <| vir_writefds := SEL_WRITEFDS m |>
    <| vir_errorfds := SEL_ERRORFDS m |>.

(** What follows once every descriptor has been asked. *)
Definition select_finish (s : nat) (block : bool) (timeout : option (Z * Z)) : M Z :=
  n ← rd nreadyfds s;
  if (0 <? n) || negb block then
    copy_fdsets s;;
    select_cancel_all s;;
    wr s (λ e, e <| requestor := None |>);;
    mret n
  else
    match timeout with
    | None => mret tt
    | Some (sec, usec) =>
        let ticks := timeout_ticks sec usec in
        wr s (λ e, e <| expiry := ticks |>);;
        fs_set_timer s ticks
    end;;
    p ← rg fp;
    wr s (λ e, e <| requestor := Some p |>);;
    suspend XSELECT;;
    mret SUSPEND.

Definition do_select : M Z :=
  m ← rg m_in; w ← rg who;
  let n := SEL_NFDS m in
  if (n <? 0) || (Z.of_nat FD_SETSIZE <? n) then mret EINVAL
  else
    l ← gets (λ s, selecttab (tabs s));
    match list_find (λ e, requestor e = None) l with
    | None => mret ENOSPC
    | Some (s, _) =>
        wr s (init_entry m w);;
        rd1 ← fetch_set (SEL_READFDS m);
        if negb (rd1.1 =? OK) then mret rd1.1
        else
          wr s (λ e, e <| readfds := rd1.2 |>);;
          wr1 ← fetch_set (SEL_WRITEFDS m);
          if negb (wr1.1 =? OK) then mret wr1.1
          else
            wr s (λ e, e <| writefds := wr1.2 |>);;
            er1 ← fetch_set (SEL_ERRORFDS m);
            if negb (er1.1 =? OK) then mret er1.1
            else
              wr s (λ e, e <| errorfds := er1.2 |>);;
              tb ← (if SEL_TIMEOUT m =? 0 then mret (OK, None)
                    else
                      rb ← gets (λ s, k_vircopy_from w SEG_D (SEL_TIMEOUT m) 8 (kern s));
                      if negb (rb.1 =? OK) then mret (rb.1, None)
                      else
                        sec ← deref (load_le 4 0 rb.2); usec ← deref (load_le 4 4 rb.2);
                        mret (OK, Some (i32 sec, i32 usec)));
              let '(r, timeout) := tb in
              if negb (r =? OK) then mret r
              else if match timeout with
                      | Some (sec, usec) => (sec <? 0) || (usec <? 0)
                      | None => false
                      end
              then mret EINVAL
              else
                let block := match timeout with
                             | Some (sec, usec) => (0 <? sec) || (0 <? usec)
                             | None => true
                             end in
                wr s (λ e, e <| expiry := 0 |>);;
                r ← for_break (seq 0 (Z.to_nat n)) (select_fd s block);
                match r with
                | Some r => mret r
                | None => select_finish s block timeout
                end
    end.

Definition select_notified (major minor selected_ops : Z) : M unit :=
  if negb (existsb (λ t, match t with FdGeneral m => m =? major | _ => false end) fdtypes)
  then mret tt
  else
    for_each (seq 0 MAXSELECTS) (λ s,
      req ← rd requestor s;
      n ← rd nfds s;
      when (bool_decide (req ≠ None)) (
        for_each (seq 0 (Z.to_nat n)) (λ f,
          e ← rd (λ e, e) s;
          match sel_filps e !! f with
          | Some (Some fil) =>
              b ← select_major_match major fil;
              when b (
                ino ← rd filp_ino fil; rip ← deref ino;
                z ← rd_zone rip 0;
                let ops := tab2ops f e in
                when ((Z.land (Z.shiftr z MINOR) BYTE =? minor) && has selected_ops ops)
                  (select_callback fil (Z.land selected_ops ops)))
          | _ => mret tt
          end))).
End select.
