(* ===== verification/ReadWrite.v ===== *)
(** read.c and write.c: the READ and WRITE system calls. *)

From S2P Require Import Prelude Machine State Monad Utility Process Device SuperTable Cache Inode FileMap Filedes Pipe.

Section read_write.
Context {cfg : Config} {krn : Kernel}.

(** The buffer that [rw_chunk] copies to or from; [None]: no block could be
    allocated. *)
Definition chunk_buffer (rip : nat) (position off chunk left : Z) (rw_flag : rw)
    (block_size : Z) : M (option nat) :=
  sd ← io_device rip;
  let '(block_spec, dev) := sd in
  b ← (if block_spec : bool then
         if block_size =? 0 then fault else mret (position / block_size)
       else read_map rip position);
  size ← rd i_size rip;
  if negb block_spec && (b =? NO_BLOCK) then
    match rw_flag with
    | READING =>
        bp ← get_block NO_DEV NO_BLOCK NORMAL; zero_block bp;; mret (Some bp)
    | WRITING => new_block rip position
    end
  else
    match rw_flag with
    | READING => bp ← rahead rip b position left; mret (Some bp)
    | WRITING =>
        let whole := (chunk =? block_size)
                     || (negb block_spec && (off =? 0) && (size <=? position)) in
        bp ← get_block dev b (if whole then NO_READ else NORMAL);
        mret (Some bp)
    end.

Definition rw_chunk (rip : nat) (position off chunk left : Z) (rw_flag : rw)
    (buff seg usr block_size : Z) : M Z :=
  bp ← chunk_buffer rip position off chunk left rw_flag block_size;
  match bp with
  | None => rg err_code
  | Some bp =>
      mode ← rd i_mode rip;
      let block_spec := Z.land mode I_TYPE =? I_BLOCK_SPECIAL in
      size ← rd i_size rip;
      when (bool_decide (rw_flag = WRITING) && negb (chunk =? block_size)
              && negb block_spec && (size <=? position) && (off =? 0)) (zero_block bp);;
      d ← rd b_data bp;
      r ← match rw_flag with
          | READING =>
              bs ← deref (slice (Z.to_nat off) (Z.to_nat chunk) d);
              kcall (k_vircopy_to usr seg buff bs)
          | WRITING =>
              rb ← gets (λ s, k_vircopy_from usr seg buff chunk (kern s));
              when (rb.1 =? OK) (
                d' ← deref (splice (Z.to_nat off) rb.2 d);
                wr bp (λ b, b <| b_data := d' |>));;
              wr bp (λ b, b <| b_dirt := DIRTY |>);;
              mret rb.1
          end;
      put_block (Some bp)
        (if off + chunk =? block_size then FULL_DATA_BLOCK else PARTIAL_DATA_BLOCK);;
      mret r
  end.

(** The local variables of the transfer loop: the user's buffer and bytes left
    (they are those of [m_in]), [cum_io], [position], [partial_cnt]. *)
Record transfer := Transfer {
  tr_cum_io : Z; tr_position : Z; tr_partial_cnt : Z
}.

(** One turn of [while (m_in.nbytes != 0)]; [inr (r, t)] leaves the loop. *)
Definition transfer_step (rip : nat) (rw_flag : rw) (partial_pipe : bool)
    (f_size block_size seg usr : Z) (tr : Z * transfer) :
    M ((Z * transfer) + (Z * transfer)) :=
  let '(r, t) := tr in
  m ← rg m_in;
  if in_nbytes m =? 0 then mret (inr (r, t))
  else if block_size =? 0 then fault
  else
    let position := tr_position t in
    let off := position mod block_size in
    let chunk := Z.min (if partial_pipe then tr_partial_cnt t else in_nbytes m)
                   (block_size - off) in
    let chunk := if chunk <? 0 then block_size - off else chunk in
    let bytes_left := u32 (f_size - position) in
    if bool_decide (rw_flag = READING) && (f_size <=? position) then mret (inr (r, t))
    else
      let chunk := if bool_decide (rw_flag = READING) && (bytes_left <? chunk)
                   then bytes_left else chunk in
      r ← rw_chunk rip position off chunk (u32 (in_nbytes m)) rw_flag (in_buffer m) seg usr
            block_size;
      err ← rc rdwt_err;
      if negb (r =? OK) || (err <? 0) then mret (inr (r, t))
      else
        wg (λ g, g <| m_in ::= λ m, m <| m1_p1 ::= Z.add chunk |>
                                      <| m1_i2 ::= λ n, n - chunk |> |>);;
        let t := Transfer (u32 (tr_cum_io t + chunk)) (u32 (position + chunk))
                   (tr_partial_cnt t - chunk) in
        if partial_pipe && (tr_partial_cnt t <=? 0) then mret (inr (r, t))
        else mret (inl (r, t)).

(** Who the bytes go to or come from.  The process manager loads segments by
    putting the process and the segment in the upper bits of [fd]. *)
Definition user_of_fd : M (Z * Z) :=
  w ← rg who; m ← rg m_in;
  if (w =? PM_PROC_NR) && truth (Z.ldiff (in_fd m) BYTE) then
    wg (λ g, g <| m_in ::= λ m, m <| m1_i1 ::= λ x, Z.land x 31 |> |>);;
    mret (Z.shiftr (in_fd m) 7, Z.land (Z.shiftr (in_fd m) 5) 3)
  else mret (w, SEG_D).

(** Updating the file size, or resetting a pipe that is empty: the position. *)
Definition end_position (rip : nat) (rw_flag : rw) (regular : bool) (mode_word f_size position : Z) :
    M Z :=
  match rw_flag with
  | WRITING =>
      when ((regular || (mode_word =? I_DIRECTORY)) && (f_size <? position))
        (wr rip (λ r, r <| i_size := position |>));;
      mret position
  | READING =>
      pipe ← rd i_pipe rip; size ← rd i_size rip;
      if pipe && (size <=? position) then
        wr rip (λ r, r <| i_size := 0 |>);;
        wf ← find_filp rip W_BIT;
        match wf with
        | Some wf => wr wf (λ f, f <| filp_pos := 0 |>)
        | None => mret tt
        end;;
        mret 0
      else mret position
  end.

(** What follows the transfer; [block_size] is that of the file. *)
Definition finish_rw (f rip : nat) (rw_flag : rw) (regular partial_pipe : bool)
    (mode_word f_size block_size oflags r : Z) (t : transfer) : M Z :=
  position ← end_position rip rw_flag regular mode_word f_size (tr_position t);
  wr f (λ f, f <| filp_pos := position |>);;
  seek ← rd i_seek rip;
  (if bool_decide (rw_flag = READING) && negb seek then
     if block_size =? 0 then fault
     else
       when ((position mod block_size =? 0) && (regular || (mode_word =? I_DIRECTORY)))
         (wg (λ g, g <| rdahed_inode := Some rip |> <| rdahedpos := position |>))
   else mret tt);;
  wr rip (λ r, r <| i_seek := false |>);;
  err ← rc rdwt_err;
  let r := if negb (err =? OK) then err else r in
  let r := if err =? END_OF_FILE then OK else r in
  p ← rg fp;
  if r =? OK then
    wr rip (λ r, r <| i_update ::= Z.lor (match rw_flag with
                                          | READING => ATIME
                                          | WRITING => Z.lor CTIME MTIME
                                          end) |> <| i_dirt := DIRTY |>);;
    if partial_pipe && negb (has oflags O_NONBLOCK) then
      wr p (λ f, f <| fp_cum_io_partial := tr_cum_io t |>);;
      suspend XPIPE;;
      mret SUSPEND
    else
      wr p (λ f, f <| fp_cum_io_partial := 0 |>);;
      mret (i32 (tr_cum_io t))
  else
    in_use ← rc bufs_in_use;
    if in_use <? 0 then panic in_use else mret r.

(** Everything that is not a character special file. *)
Definition rw_file (f rip : nat) (rw_flag : rw) (usr seg : Z) (block_spec regular : bool)
    (mode_word f_size block_size oflags cum_io position : Z) : M Z :=
  m ← rg m_in;
  max ← (if bool_decide (rw_flag = WRITING) && negb block_spec
         then s_max ← sp_of s_max_size rip; mret (Some s_max) else mret None);
  if match max with Some s_max => u32 (s_max - in_nbytes m) <? position | None => false end
  then mret EFBIG
  else
    position ← (if bool_decide (rw_flag = WRITING) && negb block_spec then
                  let position := if has oflags O_APPEND then f_size else position in
                  when (f_size <? position) (clear_zone rip f_size false);;
                  mret position
                else mret position);
    pipe ← rd i_pipe rip;
    rc ← (if pipe : bool then
            prc ← pipe_check rip rw_flag oflags (in_nbytes m) position false;
            mret (prc.1, default 0 prc.2)
          else mret (1, 0));
    let '(r, partial_cnt) := rc in
    if r <=? 0 then mret r
    else
      let partial_pipe := 0 <? partial_cnt in
      rt ← loop (S (S (Z.to_nat (in_nbytes m))))
             (transfer_step rip rw_flag partial_pipe f_size block_size seg usr)
             (if pipe : bool then r else OK, Transfer cum_io position partial_cnt);
      finish_rw f rip rw_flag regular partial_pipe mode_word f_size block_size oflags (fst rt) (snd rt).

(** A character special file: the driver transfers all of it. *)
Definition rw_special (f rip : nat) (rw_flag : rw) (usr : Z) (mode_word f_size block_size oflags
    cum_io position : Z) : M Z :=
  m ← rg m_in;
  z ← rd_zone rip 0;
  let op := match rw_flag with READING => DEV_READ | WRITING => DEV_WRITE end in
  r ← dev_io op (i16 z) usr (in_buffer m) [] position (in_nbytes m) oflags;
  let r := r.1 in
  if 0 <=? r
  then finish_rw f rip rw_flag false false mode_word f_size block_size oflags OK
         (Transfer r (u32 (position + r)) 0)
  else finish_rw f rip rw_flag false false mode_word f_size block_size oflags r
         (Transfer cum_io position 0).

Definition read_write (rw_flag : rw) : M Z :=
  in_use ← rc bufs_in_use;
  if in_use <? 0 then panic in_use
  else
    us ← user_of_fd;
    let '(usr, seg) := us in
    m ← rg m_in;
    if in_nbytes m <? 0 then mret EINVAL
    else
      f ← get_filp (in_fd m);
      match f with
      | None => rg err_code
      | Some f =>
          x ← rd (λ f, f) f;
          if negb (has (filp_mode x) (match rw_flag with READING => R_BIT | WRITING => W_BIT end))
          then mret (if filp_mode x =? FILP_CLOSED then EIO else EBADF)
          else if in_nbytes m =? 0 then mret 0
          else
            r ← gets (λ s, k_umap usr seg (in_buffer m) (in_nbytes m) (kern s));
            if negb (r =? OK) then mret r
            else
              rip ← deref (filp_ino x);
              i ← rd (λ i, i) rip;
              p ← rg fp; partial ← rd fp_cum_io_partial p;
              let cum_io := if i_pipe i then u32 partial else 0 in
              let mode_word := Z.land (i_mode i) I_TYPE in
              let regular := (mode_word =? I_REGULAR) || (mode_word =? I_NAMED_PIPE) in
              let char_spec := mode_word =? I_CHAR_SPECIAL in
              let block_spec := mode_word =? I_BLOCK_SPECIAL in
              let f_size := if block_spec then MAX_FILE_POS else i_size i in
              z ← rd_zone rip 0;
              if (char_spec || block_spec) && (z =? NO_DEV) then panic NO_NUM
              else
                block_size ← (if char_spec || block_spec then get_block_size (i16 z)
                              else sp_of s_block_size rip);
                wc (λ c, c <| rdwt_err := OK |>);;
                if char_spec then
                  rw_special f rip rw_flag usr mode_word f_size block_size (filp_flags x)
                    cum_io (filp_pos x)
                else
                  rw_file f rip rw_flag usr seg block_spec regular mode_word f_size block_size
                    (filp_flags x) cum_io (filp_pos x)
      end.

Definition do_read : M Z := read_write READING.
Definition do_write : M Z := read_write WRITING.
End read_write.
