(* ===== verification/DeviceOpen.v ===== *)
(** device.c: opening and closing devices, the status of drivers, [ioctl]. *)

From S2P Require Import Prelude Machine State Monad Process Device Cache Inode FileMap Filedes SelectTable Select.

Section device_open.
Context {cfg : Config} {krn : Kernel}.

(** Sending an open or close request to the driver of [dev]: its status. *)
Definition opcl_request (op dev proc flags : Z) : M Z :=
  d ← Process.index (major_of dev);
  driver ← rd dmap_driver d; io ← rd dmap_io d;
  mv ← call_io 2 io driver
    (blank_message <| m_type := op |> <| DEVICE := minor_of dev |> <| PROC_NR := proc |>
       <| COUNT := flags |>) [];
  mret (REP_STATUS mv.1).

Definition gen_opcl (op dev proc flags : Z) : M Z := opcl_request op dev proc flags.

Definition tty_opcl (op dev proc flags : Z) : M Z :=
  p ← rg fp; f ← rd (λ f, f) p;
  l ← gets (λ s, fprocs (tabs s));
  let flags :=
    if negb (fp_sesldr f) || negb (fp_tty f =? 0) then Z.lor flags O_NOCTTY
    else if existsb (λ rfp, fp_tty rfp =? dev) l then Z.lor flags O_NOCTTY else flags in
  r ← gen_opcl op dev proc flags;
  if r =? 1 then wr p (λ f, f <| fp_tty := dev |>);; mret OK else mret r.

Definition ctty_opcl : M Z :=
  p ← rg fp; tty ← rd fp_tty p;
  mret (if tty =? 0 then ENXIO else OK).

Definition clone_opcl (op dev proc flags : Z) : M Z :=
  let minor := minor_of dev in
  r ← opcl_request op dev proc flags;
  if (op =? DEV_OPEN) && (0 <=? r) then
    if r =? minor then mret OK
    else
      let dev := i16 (Z.lor (Z.ldiff dev (Z.shiftl BYTE MINOR)) (Z.shiftl r MINOR)) in
      root ← rg root_dev;
      ip ← alloc_inode (i16 root) (Z.lor ALL_MODES I_CHAR_SPECIAL);
      match ip with
      | None =>
          _ ← opcl_request DEV_CLOSE dev proc 0;   (* clone_opcl(DEV_CLOSE, ...) *)
          rg err_code
      | Some ip =>
          wr_zone ip 0 (u32 dev);;
          p ← rg fp; m ← rg m_in; fd ← Process.index (in_fd m);
          fs ← rd fp_filp p;
          f ← deref (fs !! fd); f ← deref f;
          old ← rd filp_ino f;
          put_inode old;;
          wr f (λ f, f <| filp_ino := Some ip |>);;
          mret OK
      end
  else mret r.

Definition call_opcl (routine : opcl_routine) (op dev proc flags : Z) : M Z :=
  match routine with
  | no_dev_opcl => no_dev
  | gen_opcl_r => gen_opcl op dev proc flags
  | tty_opcl_r => tty_opcl op dev proc flags
  | ctty_opcl_r => ctty_opcl
  | clone_opcl_r => clone_opcl op dev proc flags
  | null_opcl => fault
  end.

Definition dev_open (dev proc flags : Z) : M Z :=
  let major := major_of dev in
  let major := if Z.of_nat NR_DEVICES <=? major then 0 else major in
  d ← Process.index major;
  driver ← rd dmap_driver d;
  if driver =? NONE then mret ENXIO
  else
    routine ← rd dmap_opcl d;
    r ← call_opcl routine DEV_OPEN dev proc flags;
    if r =? SUSPEND then driver ← rd dmap_driver d; panic driver
    else mret r.

(** The driver is looked up without the mask of the other routines. *)
Definition dev_close (dev : Z) : M unit :=
  d ← Process.index (Z.shiftr dev MAJOR);
  driver ← rd dmap_driver d;
  if driver =? NONE then mret tt
  else
    d ← Process.index (major_of dev);
    routine ← rd dmap_opcl d;
    _ ← call_opcl routine DEV_CLOSE dev 0 0;
    mret tt.

Definition dev_status (m : message) : M unit :=
  l ← gets (λ s, dmaps (tabs s));
  match list_find (λ e, dmap_driver e ≠ NONE ∧ dmap_driver e = m_source m) (take NR_DEVICES l) with
  | None => mret tt
  | Some (d, _) =>
      loop loop_fuel (λ _ : unit,
        rm ← kcall (λ k,
          let '(r, m', _, k') :=
            k_sendrec (m_source m) (blank_message <| m_type := DEV_STATUS |>) [] k in
          ((r, m'), k'));
        let '(r, st) := rm in
        if negb (r =? OK) then
          if (r =? EDEADSRCDST) || (r =? EDSTDIED) || (r =? ESRCDIED) then mret (inr tt)
          else panic r
        else if m_type st =? DEV_REVIVE then
          revive (REP_PROC_NR st) (REP_STATUS st);; mret (inl tt)
        else if m_type st =? DEV_IO_READY then
          select_notified (Z.of_nat d) (m2_i1 st) (m2_i2 st);; mret (inl tt)
        else mret (inr tt)) tt
  end.

(** Reopening the devices of the file systems and files of major device [maj]. *)
Definition dev_up (maj : Z) : M unit :=
  for_each (seq 0 NR_SUPERS) (λ sb,
    x ← rd (λ x, x) sb;
    when (negb (s_dev x =? NO_DEV) && (major_of (s_dev x) =? maj)) (
      _ ← dev_open (s_dev x) FS_PROC_NR
            (if truth (s_rd_only x) then R_BIT else Z.lor R_BIT W_BIT);
      mret tt));;
  for_each (seq 0 NR_FILPS) (λ f,
    x ← rd (λ f, f) f;
    match filp_ino x with
    | None => mret tt
    | Some ino =>
        when (negb (filp_count x <? 1)) (
          z ← rd_zone ino 0;
          i ← rd (λ i, i) ino;
          when ((Z.land (Z.shiftr z MAJOR) BYTE =? maj)
                  && has (i_mode i) (Z.lor I_BLOCK_SPECIAL I_CHAR_SPECIAL)) (
            _ ← dev_open (i_dev i) FS_PROC_NR (Z.land (i_mode i) (Z.lor R_BIT W_BIT));
            mret tt))
    end).

Definition do_ioctl : M Z :=
  m ← rg m_in; w ← rg who;
  f ← get_filp (in_ls_fd m);
  match f with
  | None => rg err_code
  | Some f =>
      ino ← rd filp_ino f; rip ← deref ino;
      mode ← rd i_mode rip;
      let ty := Z.land mode I_TYPE in
      if negb (ty =? I_CHAR_SPECIAL) && negb (ty =? I_BLOCK_SPECIAL) then mret ENOTTY
      else
        z ← rd_zone rip 0;
        flags ← rd filp_flags f;
        r ← dev_io DEV_IOCTL (i16 z) w (ADDRESS m) [] 0 (COUNT m) flags;
        mret r.1
  end.
End device_open.
