(* ===== verification/Sync.v ===== *)
(** misc.c: writing everything back. *)

From S2P Require Import Prelude Machine State Monad Cache Inode FileMap.

Section sync.
Context {cfg : Config} {krn : Kernel}.

(** The inodes first: [rw_inode] leaves its results in the block cache. *)
Definition sync_inodes : M unit :=
  for_each (seq 0 NR_INODES) (λ rip,
    r ← rd (λ r, r) rip;
    when ((0 <? i_count r) && i_dirt r) (rw_inode rip WRITING)).

(** Then the blocks, one drive at a time. *)
Definition sync_bufs : M unit :=
  for_each (seq 0 NR_BUFS) (λ bp,
    b ← rd (λ b, b) bp;
    when (negb (b_dev b =? NO_DEV) && b_dirt b) (flushall (b_dev b))).

Definition do_sync : M Z := sync_inodes;; sync_bufs;; mret OK.
Definition do_fsync : M Z := _ ← do_sync; mret OK.
End sync.
