(* ===== verification/Open.v ===== *)
(** open.c: creating, opening and closing files, directories and nodes. *)

From S2P Require Import Prelude Machine State Monad Utility Process SuperTable Cache Inode FileMap Permission Path Protect Filedes Pipe DeviceOpen Sync.

Section open.
Context {cfg : Config} {krn : Kernel}.

(** [mode_map[oflags & O_ACCMODE]] *)
Definition mode_map (oflags : Z) : Z :=
  let a := Z.land oflags O_ACCMODE in
  if a =? 0 then R_BIT else if a =? 1 then W_BIT
  else if a =? 2 then Z.lor R_BIT W_BIT else 0.

(** The number of links a directory or file of [rip]'s file system may have. *)
Definition link_max (rip : nat) : M Z :=
  v ← sp_of s_version rip; mret (if v =? V1 then CHAR_MAX else SHRT_MAX).

Definition new_node (path : list Z) (bits z0 : Z) : M (option nat) :=
  ls ← last_dir path;
  match ls with
  | (None, _) => mret None
  | (Some rlast_dir_ptr, string) =>
      string ← deref string;
      rip ← advance (Some rlast_dir_ptr) (Str string);
      e ← rg err_code;
      if bool_decide (rip = None) && (e =? ENOENT) then
        dev ← rd i_dev rlast_dir_ptr;
        rip ← alloc_inode dev bits;
        match rip with
        | None => put_inode (Some rlast_dir_ptr);; mret None
        | Some rip =>
            wr rip (λ r, r <| i_nlinks ::= λ n, i16 (n + 1) |>);;
            wr_zone rip 0 z0;;
            rw_inode rip WRITING;;
            num ← rd i_num rip;
            rn ← search_dir rlast_dir_ptr (Str string) num ENTER;
            let r := rn.1 in
            put_inode (Some rlast_dir_ptr);;
            if negb (r =? OK) then
              wr rip (λ r, r <| i_nlinks ::= λ n, i16 (n - 1) |> <| i_dirt := DIRTY |>);;
              put_inode (Some rip);;
              set_err r;;
              mret None
            else set_err r;; mret (Some rip)
        end
      else
        let r := match rip with Some _ => EEXIST | None => e end in
        put_inode (Some rlast_dir_ptr);;
        set_err r;;
        mret rip
  end.

Definition pipe_open (rip : nat) (bits oflags : Z) : M Z :=
  wr rip (λ r, r <| i_pipe := true |>);;
  partner ← find_filp rip (if has bits W_BIT then R_BIT else W_BIT);
  match partner with
  | None =>
      if has oflags O_NONBLOCK then mret (if has bits W_BIT then ENXIO else OK)
      else suspend XPOPEN;; mret SUSPEND
  | Some _ =>
      n ← rg susp_count;
      when (0 <? n) (
        release rip OPEN n;;
        n ← rg susp_count;
        release rip CREAT n);;
      mret OK
  end.

(** Sharing the filp slot of a co-reader or co-writer of a FIFO. *)
Definition share_fifo (fd fil_ptr rip : nat) (bits oflags : Z) : M unit :=
  p ← rg fp;
  let b := if has bits R_BIT then R_BIT else W_BIT in
  wr fil_ptr (λ f, f <| filp_count := 0 |>);;
  filp2 ← find_filp rip b;
  match filp2 with
  | Some filp2 =>
      set_fd p fd (Some filp2);;
      wr filp2 (λ f, f <| filp_count ::= Z.add 1 |> <| filp_ino := Some rip |>
                       <| filp_flags := oflags |>);;
      wr rip (λ r, r <| i_count ::= λ n, n - 1 |>)
  | None =>
      wr fil_ptr (λ f, f <| filp_count := 1 |>);;
      pos ← rd_zone rip (if b =? R_BIT then V2_NR_DZONES else V2_NR_DZONES + 1);
      wr fil_ptr (λ f, f <| filp_pos := pos |>)
  end.

(** Opening a file that existed, by its type. *)
Definition open_existing (fd fil_ptr rip : nat) (bits oflags : Z) : M Z :=
  r ← forbidden rip bits;
  if negb (r =? OK) then mret r
  else
    mode ← rd i_mode rip;
    let ty := Z.land mode I_TYPE in
    if ty =? I_REGULAR then
      if has oflags O_TRUNC then
        r ← forbidden rip W_BIT;
        if negb (r =? OK) then mret r
        else truncate rip;; wipe_inode rip;; rw_inode rip WRITING;; mret OK
      else mret OK
    else if ty =? I_DIRECTORY then mret (if has bits W_BIT then EISDIR else OK)
    else if (ty =? I_CHAR_SPECIAL) || (ty =? I_BLOCK_SPECIAL) then
      z ← rd_zone rip 0; w ← rg who;
      dev_open (i16 z) w (Z.lor bits (Z.ldiff oflags O_ACCMODE))
    else if ty =? I_NAMED_PIPE then
      let oflags := Z.lor oflags O_APPEND in
      wr fil_ptr (λ f, f <| filp_flags := oflags |>);;
      r ← pipe_open rip bits oflags;
      when (negb (r =? ENXIO)) (share_fifo fd fil_ptr rip bits oflags);;
      mret r
    else mret OK.

Definition common_open (oflags omode : Z) : M Z :=
  let bits := mode_map oflags in
  r ← get_fd 0 bits;
  match r with
  | inl r => mret r
  | inr (fd, fil_ptr) =>
      wg (λ g, g <| m_in ::= λ m, m <| m1_i1 := Z.of_nat fd |> |>);;
      p ← rg fp; path ← rg user_path;
      o ← (if has oflags O_CREAT then
             umask ← rd fp_umask p;
             let omode := Z.lor I_REGULAR (Z.land omode (Z.land ALL_MODES umask)) in
             rip ← new_node path omode NO_ZONE;
             r ← rg err_code;
             mret (if r =? OK then inr (rip, r, false)
                   else if negb (r =? EEXIST) then inl r
                   else inr (rip, r, negb (has oflags O_EXCL)))
           else
             rip ← eat_path path;
             match rip with
             | None => e ← rg err_code; mret (inl e)
             | Some rip => mret (inr (Some rip, OK, true))
             end);
      match o with
      | inl r => mret r
      | inr (rip, r, existed) =>
          set_fd p fd (Some fil_ptr);;
          wr fil_ptr (λ f, f <| filp_count := 1 |> <| filp_ino := rip |>
                             <| filp_flags := oflags |>);;
          r ← (if existed : bool then
                 rip ← deref rip; open_existing fd fil_ptr rip bits oflags
               else mret r);
          if r =? OK then m ← rg m_in; mret (in_fd m)
          else if r =? SUSPEND then mret r
          else
            m ← rg m_in;
            k ← Process.index (in_fd m);
            set_fd p k None;;
            wr fil_ptr (λ f, f <| filp_count := 0 |>);;
            put_inode rip;;
            mret r
      end
  end.

Definition do_creat : M Z :=
  m ← rg m_in;
  r ← fetch_name (in_name m) (in_name_length m) M3;
  if negb (r =? OK) then rg err_code
  else common_open (Z.lor O_WRONLY (Z.lor O_CREAT O_TRUNC)) (u16 (in_mode m)).

Definition do_open : M Z :=
  m ← rg m_in;
  if has (in_mode m) O_CREAT then
    r ← fetch_name (in_c_name m) (in_name1_length m) M1;
    if negb (r =? OK) then rg err_code else common_open (in_mode m) (u16 (in_c_mode m))
  else
    r ← fetch_name (in_name m) (in_name_length m) M3;
    if negb (r =? OK) then rg err_code else common_open (in_mode m) 0.

Definition do_mknod : M Z :=
  m ← rg m_in; su ← rg super_user;
  let mode_bits := u16 (in_mk_mode m) in
  if negb su && negb (Z.land mode_bits I_TYPE =? I_NAMED_PIPE) then mret EPERM
  else
    r ← fetch_name (in_name1 m) (in_name1_length m) M1;
    if negb (r =? OK) then rg err_code
    else
      p ← rg fp; umask ← rd fp_umask p; path ← rg user_path;
      let bits := Z.lor (Z.land mode_bits I_TYPE)
                    (Z.land mode_bits (Z.land ALL_MODES umask)) in
      ip ← new_node path bits (u32 (in_mk_z0 m));
      put_inode ip;;
      rg err_code.

(** Making the entries [.] and [..] of the new directory [rip] in [ldirp]. *)
Definition enter_dots (ldirp rip : nat) (string : list Z) (bits : Z) : M unit :=
  dotdot ← rd i_num ldirp;
  dot ← rd i_num rip;
  wr rip (λ r, r <| i_mode := bits |>);;
  r1 ← search_dir rip Dot1 dot ENTER;
  r2 ← search_dir rip Dot2 dotdot ENTER;
  (if (r1.1 =? OK) && (r2.1 =? OK) then
     wr rip (λ r, r <| i_nlinks ::= λ n, i16 (n + 1) |>);;
     wr ldirp (λ r, r <| i_nlinks ::= λ n, i16 (n + 1) |> <| i_dirt := DIRTY |>)
   else
     _ ← search_dir ldirp (Str string) 0 DELETE;
     wr rip (λ r, r <| i_nlinks ::= λ n, i16 (n - 1) |>));;
  wr rip (λ r, r <| i_dirt := DIRTY |>).

Definition do_mkdir : M Z :=
  m ← rg m_in;
  r ← fetch_name (in_name1 m) (in_name1_length m) M1;
  if negb (r =? OK) then rg err_code
  else
    path ← rg user_path;
    ls ← last_dir path;
    match ls with
    | (None, _) => rg err_code
    | (Some ldirp, string) =>
        nlinks ← rd i_nlinks ldirp; max ← link_max ldirp;
        if max <=? nlinks then put_inode (Some ldirp);; mret EMLINK
        else
          p ← rg fp; umask ← rd fp_umask p;
          let bits := Z.lor I_DIRECTORY (Z.land (in_mode m) (Z.land RWX_MODES umask)) in
          path ← rg user_path;
          rip ← new_node path bits 0;
          e ← rg err_code;
          match rip with
          | Some r =>
              if e =? EEXIST then
                put_inode (Some r);; put_inode (Some ldirp);; rg err_code
              else
                string ← deref string;
                enter_dots ldirp r string bits;;
                put_inode (Some ldirp);;
                put_inode (Some r);;
                rg err_code
          | None => put_inode (Some ldirp);; rg err_code
          end
    end.

(** The locks of process [pid] on [rip] go when it closes the file. *)
Definition drop_locks (rip : nat) (pid : Z) : M unit :=
  for_each (seq 0 NR_LOCKS) (λ i,
    l ← rd (λ l, l) i;
    when (negb (lock_type l =? 0) && bool_decide (lock_inode l = Some rip)
            && (lock_pid l =? pid)) (
      wr i (λ l, l <| lock_type := 0 |>);;
      wg (λ g, g <| nr_locks ::= λ n, n - 1 |>))).

(** The last close of a special file. *)
Definition close_special (rip : nat) : M unit :=
  mode ← rd i_mode rip;
  let mode_word := Z.land mode I_TYPE in
  when ((mode_word =? I_CHAR_SPECIAL) || (mode_word =? I_BLOCK_SPECIAL)) (
    z ← rd_zone rip 0;
    when (mode_word =? I_BLOCK_SPECIAL) (
      b ← mounted rip;
      when (negb b) (_ ← do_sync; invalidate (i16 z)));;
    dev_close (i16 z)).

Definition do_close : M Z :=
  m ← rg m_in;
  rfilp ← get_filp (in_fd m);
  match rfilp with
  | None => rg err_code
  | Some rfilp =>
      x ← rd (λ f, f) rfilp;
      rip ← deref (filp_ino x);
      when ((filp_count x - 1 =? 0) && negb (filp_mode x =? FILP_CLOSED)) (close_special rip);;
      pipe ← rd i_pipe rip;
      when pipe (release rip (if has (filp_mode x) R_BIT then WRITE else READ) (Z.of_nat NR_PROCS));;
      wr rfilp (λ f, f <| filp_count ::= λ n, n - 1 |>);;
      x ← rd (λ f, f) rfilp;
      when (filp_count x =? 0) (
        pipe ← rd i_pipe rip; count ← rd i_count rip;
        when (pipe && (1 <? count))
          (wr_zone rip (if filp_mode x =? R_BIT then V2_NR_DZONES else V2_NR_DZONES + 1)
             (filp_pos x));;
        put_inode (Some rip));;
      p ← rg fp; fd ← Process.index (in_fd m);
      wr p (λ f, f <| fp_cloexec ::= λ c, Z.ldiff c (Z.shiftl 1 (in_fd m)) |>);;
      set_fd p fd None;;
      lock_count ← rg nr_locks;
      if lock_count =? 0 then mret OK
      else
        pid ← rd fp_pid p;
        drop_locks rip pid;;
        n ← rg nr_locks;
        when (n <? lock_count) lock_revive;;
        mret OK
  end.

(** The new position: from [base] by [offset]; [None] is an overflow. *)
Definition seek_position (base offset : Z) : option Z :=
  let pos := u32 (base + offset) in
  if (0 <? offset) && (i32 pos <? i32 base) then None
  else if (offset <? 0) && (i32 base <? i32 pos) then None
  else Some pos.

Definition do_lseek : M Z :=
  m ← rg m_in;
  rfilp ← get_filp (in_ls_fd m);
  match rfilp with
  | None => rg err_code
  | Some f =>
      ino ← rd filp_ino f; rip ← deref ino;
      pipe ← rd i_pipe rip;
      if pipe : bool then mret ESPIPE
      else
        fpos ← rd filp_pos f; size ← rd i_size rip;
        let whence := in_whence m in
        let base := if whence =? 0 then Some 0 else if whence =? 1 then Some fpos
                    else if whence =? 2 then Some size else None in
        match b ← base; seek_position b (i32 (in_offset m)) with
        | None => mret EINVAL
        | Some pos =>
            when (negb (pos =? fpos)) (wr rip (λ r, r <| i_seek := true |>));;
            wr f (λ f, f <| filp_pos := pos |>);;
            wg (λ g, g <| m_out ::= λ m, m <| m2_l1 := i32 pos |> |>);;
            mret OK
        end
  end.
End open.
