(* ===== verification/Mount.v ===== *)
(** mount.c: mounting and unmounting file systems. *)

From S2P Require Import Prelude Machine State Monad Utility Cache Bitmap Inode FileMap Path Protect DeviceOpen Sync.

Section mount.
Context {cfg : Config} {krn : Kernel}.

Definition name_to_dev (path : list Z) : M Z :=
  rip ← eat_path path;
  match rip with
  | None => mret NO_DEV
  | Some rip =>
      mode ← rd i_mode rip;
      if negb (Z.land mode I_TYPE =? I_BLOCK_SPECIAL) then
        set_err ENOTBLK;; put_inode (Some rip);; mret NO_DEV
      else
        z ← rd_zone rip 0;
        put_inode (Some rip);;
        mret (i16 z)
  end.

(** [found], and the last free slot. *)
Definition scan_supers (dev : Z) (l : list super_block) : bool * option nat :=
  (existsb (λ x, s_dev x =? dev) l,
   last (filter (λ i, s_dev <$> l !! i = Some NO_DEV) (seq 0 (length l)))).

(** [dev_close(dev); sp->s_dev = NO_DEV] *)
Definition fail_mount (sp : nat) (dev : Z) : M unit :=
  dev_close dev;;
  wr sp (λ x, x <| s_dev := NO_DEV |>).

(** The checks on the inode mounted on, and the root of the file system. *)
Definition mount_root (rip : nat) (dev : Z) : M (Z * option nat) :=
  i ← rd (λ i, i) rip;
  let bits := Z.land (i_mode i) I_TYPE in
  let r := if 1 <? i_count i then EBUSY else OK in
  let r := if (bits =? I_BLOCK_SPECIAL) || (bits =? I_CHAR_SPECIAL) then ENOTDIR else r in
  if negb (r =? OK) then mret (r, None)
  else
    root_ip ← get_inode dev ROOT_INODE;
    match root_ip with
    | None => e ← rg err_code; mret (e, None)
    | Some root =>
        root_mode ← rd i_mode root;
        mode ← rd i_mode rip;
        let mdir := Z.land mode I_TYPE =? I_DIRECTORY in
        let rdir := Z.land root_mode I_TYPE =? I_DIRECTORY in
        mret (if root_mode =? 0 then EINVAL else if negb mdir && rdir then EISDIR else OK,
              Some root)
    end.

Definition do_mount : M Z :=
  su ← rg super_user; m ← rg m_in; w ← rg who;
  if negb su then mret EPERM
  else
    r ← fetch_name (in_name1 m) (in_name1_length m) M1;
    if negb (r =? OK) then rg err_code
    else
      path ← rg user_path;
      dev ← name_to_dev path;
      if dev =? NO_DEV then rg err_code
      else
        l ← gets (λ s, supers (tabs s));
        match scan_supers dev l with
        | (true, _) => mret EBUSY
        | (false, None) => mret ENFILE
        | (false, Some sp) =>
            r ← dev_open dev w (if truth (in_rd_only m) then R_BIT else Z.lor R_BIT W_BIT);
            if negb (r =? OK) then mret EINVAL
            else
              _ ← do_sync;
              invalidate dev;;
              wr sp (λ x, x <| s_dev := dev |>);;
              r ← read_super sp;
              if negb (r =? OK) then fail_mount sp dev;; mret r
              else
                rip ← open_name (in_name2 m) (in_name2_length m) M1;
                match rip with
                | None => fail_mount sp dev;; rg err_code
                | Some rip =>
                    rr ← mount_root rip dev;
                    let '(r, root_ip) := rr in
                    if negb (r =? OK) then
                      put_inode (Some rip);; put_inode root_ip;;
                      _ ← do_sync;
                      invalidate dev;;
                      fail_mount sp dev;;
                      mret r
                    else
                      wr rip (λ i, i <| i_mount := true |>);;
                      wr sp (λ x, x <| s_imount := Some rip |> <| s_isup := root_ip |>
                                    <| s_rd_only := in_rd_only m |>);;
                      mret OK
                end
        end.

(** The uses of the inodes of [dev]. *)
Definition inode_uses (dev : Z) (l : list inode) : Z :=
  foldr (λ r n, if (0 <? i_count r) && (i_dev r =? dev) then i_count r + n else n) 0
    (take NR_INODES l).

Definition unmount (dev : Z) : M Z :=
  inos ← gets (λ s, inodes (tabs s));
  if 1 <? inode_uses dev inos then mret EBUSY
  else
    l ← gets (λ s, supers (tabs s));
    _ ← do_sync;
    invalidate dev;;
    match list_find (λ x, s_dev x = dev) l with
    | None => mret EINVAL
    | Some (sp, _) =>
        dev_close dev;;
        imount ← rd s_imount sp;
        rip ← deref imount;
        wr rip (λ r, r <| i_mount := false |>);;
        put_inode (Some rip);;
        isup ← rd s_isup sp;
        put_inode isup;;
        wr sp (λ x, x <| s_imount := None |> <| s_dev := NO_DEV |>);;
        mret OK
    end.

Definition do_umount : M Z :=
  su ← rg super_user; m ← rg m_in;
  if negb su then mret EPERM
  else
    r ← fetch_name (in_name m) (in_name_length m) M3;
    if negb (r =? OK) then rg err_code
    else
      path ← rg user_path;
      dev ← name_to_dev path;
      if dev =? NO_DEV then rg err_code else unmount dev.
End mount.
