(* ===== verification/Link.v ===== *)
(** link.c: linking, unlinking and renaming. *)

From S2P Require Import Prelude Machine State Monad Utility Cache Inode FileMap Permission Path Protect Open.

Section link.
Context {cfg : Config} {krn : Kernel}.

(** The result of [do_rename] when old and new name the same file. *)
Definition SAME : Z := 1000.

Definition unlink_file (dirp : nat) (rip : option nat) (file_name : name) : M Z :=
  rip ← match rip with
        | None =>
            rn ← search_dir dirp file_name 0 LOOK_UP;
            let '(e, numb) := rn in
            set_err e;;
            if e =? OK then dev ← rd i_dev dirp; get_inode dev (i32 numb) else mret None
        | Some r => dup_inode r;; mret (Some r)
        end;
  match rip with
  | None => rg err_code
  | Some rip =>
      rn ← search_dir dirp file_name 0 DELETE;
      let r := rn.1 in
      when (r =? OK)
        (wr rip (λ i, i <| i_nlinks ::= λ n, i16 (n - 1) |> <| i_update ::= Z.lor CTIME |>
                        <| i_dirt := DIRTY |>));;
      put_inode (Some rip);;
      mret r
  end.

Definition is_dots (s : list Z) : bool :=
  bool_decide (s = [DOT]) || bool_decide (s = [DOT; DOT]).

Definition remove_dir (rldirp rip : nat) (dir_name : list Z) : M Z :=
  rn ← search_dir rip (Str []) 0 IS_EMPTY;
  if negb (rn.1 =? OK) then mret rn.1
  else if is_dots dir_name then mret EINVAL
  else
    num ← rd i_num rip;
    if num =? ROOT_INODE then mret EBUSY
    else
      l ← gets (λ s, fprocs (tabs s));
      if existsb (λ rfp, bool_decide (fp_workdir rfp = Some rip)
                         || bool_decide (fp_rootdir rfp = Some rip))
           (drop (INIT_PROC_NR + 1) l)
      then mret EBUSY
      else
        r ← unlink_file rldirp (Some rip) (Str dir_name);
        if negb (r =? OK) then mret r
        else
          _ ← unlink_file rip None Dot1;
          _ ← unlink_file rip None Dot2;
          mret OK.

Definition do_link : M Z :=
  m ← rg m_in; su ← rg super_user;
  o ← open_name (in_name1 m) (in_name1_length m) M1;
  match o with
  | None => rg err_code
  | Some rip =>
      i ← rd (λ i, i) rip;
      max ← link_max rip;
      let r := if max <=? i_nlinks i then EMLINK
               else if (Z.land (i_mode i) I_TYPE =? I_DIRECTORY) && negb su then EPERM
               else OK in
      if negb (r =? OK) then put_inode (Some rip);; mret r
      else
        f ← fetch_name (in_name2 m) (in_name2_length m) M1;
        if negb (f =? OK) then put_inode (Some rip);; rg err_code
        else
          path ← rg user_path;
          ls ← last_dir path;
          r ← match ls with
              | (None, _) => e ← rg err_code; if e =? OK then fault else mret e
              | (Some ip, string) =>
                  string ← deref string;
                  new_ip ← advance (Some ip) (Str string);
                  match new_ip with
                  | Some new_ip => put_inode (Some new_ip);; mret EEXIST
                  | None =>
                      e ← rg err_code;
                      let r := if e =? ENOENT then OK else e in
                      dev ← rd i_dev rip; idev ← rd i_dev ip;
                      let r := if (r =? OK) && negb (dev =? idev) then EXDEV else r in
                      if r =? OK then
                        num ← rd i_num rip;
                        rn ← search_dir ip (Str string) num ENTER; mret rn.1
                      else mret r
                  end
              end;
          when (r =? OK)
            (wr rip (λ i, i <| i_nlinks ::= λ n, i16 (n + 1) |> <| i_update ::= Z.lor CTIME |>
                            <| i_dirt := DIRTY |>));;
          put_inode (Some rip);;
          put_inode ls.1;;
          mret r
  end.

Definition do_unlink : M Z :=
  m ← rg m_in; su ← rg super_user; call ← rg call_nr;
  f ← fetch_name (in_name m) (in_name_length m) M3;
  if negb (f =? OK) then rg err_code
  else
    path ← rg user_path;
    ls ← last_dir path;
    match ls with
    | (None, _) => rg err_code
    | (Some rldirp, string) =>
        string ← deref string;
        rip ← advance (Some rldirp) (Str string);
        match rip with
        | None =>
            r ← rg err_code;
            if r =? OK then fault else put_inode (Some rldirp);; mret r
        | Some rip =>
            num ← rd i_num rip;
            if num =? ROOT_INODE then
              put_inode (Some rldirp);; put_inode (Some rip);; mret EBUSY
            else
              mode ← rd i_mode rip;
              r ← (if call =? UNLINK then
                     if (Z.land mode I_TYPE =? I_DIRECTORY) && negb su then mret EPERM
                     else unlink_file rldirp (Some rip) (Str string)
                   else remove_dir rldirp rip string);
              put_inode (Some rip);;
              put_inode (Some rldirp);;
              mret r
        end
    end.

(** Climbing from the new directory to the root of the system: EINVAL if the
    old inode is met on the way. *)
Definition check_superdir (old_ip new_dirp : nat) : M Z :=
  dup_inode new_dirp;;
  rs ← loop loop_fuel (λ new_superdirp : nat,
    if decide (new_superdirp = old_ip) then mret (inr (EINVAL, Some new_superdirp))
    else
      next ← advance (Some new_superdirp) Dot2;
      put_inode (Some new_superdirp);;
      match next with
      | None => mret (inr (EINVAL, None))
      | Some next =>
          if decide (next = new_superdirp) then mret (inr (OK, Some new_superdirp))
          else mret (inl next)
      end) new_dirp;
  put_inode (snd rs);;
  mret (fst rs).

(** The checks of [do_rename] once the inodes are known. *)
Definition rename_checks (old_dirp old_ip new_dirp : nat) (new_ip : option nat)
    (old_name new_name : list Z) (odir same_pdir : bool) : M Z :=
  r ← (if odir && negb same_pdir then check_superdir old_ip new_dirp else mret OK);
  let r := if is_dots old_name || is_dots new_name then EINVAL else r in
  odev ← rd i_dev old_dirp; ndev ← rd i_dev new_dirp;
  let r := if negb (odev =? ndev) then EXDEV else r in
  r1 ← forbidden old_dirp (Z.lor W_BIT X_BIT);
  r1 ← (if negb (r1 =? OK) then mret r1 else forbidden new_dirp (Z.lor W_BIT X_BIT));
  let r := if negb (r1 =? OK) then r1 else r in
  oip_dev ← rd i_dev old_ip;
  match new_ip with
  | None =>
      let r := if negb (oip_dev =? odev) then EXDEV else r in
      nlinks ← rd i_nlinks new_dirp;
      max ← link_max new_dirp;
      mret (if odir && (max <=? nlinks) && negb same_pdir && (r =? OK) then EMLINK else r)
  | Some new_ip =>
      let r := if decide (old_ip = new_ip) then SAME else r in
      nip_dev ← rd i_dev new_ip;
      let r := if negb (oip_dev =? nip_dev) then EXDEV else r in
      mode ← rd i_mode new_ip;
      let ndir := Z.land mode I_TYPE =? I_DIRECTORY in
      let r := if odir && negb ndir then ENOTDIR else r in
      mret (if negb odir && ndir then EISDIR else r)
  end.

(** Moving the entry, and the [..] of a directory that changes its parent. *)
Definition rename_entries (old_dirp old_ip new_dirp : nat) (new_ip : option nat)
    (old_name new_name : list Z) (odir same_pdir : bool) : M Z :=
  r ← match new_ip with
      | None => mret OK
      | Some new_ip =>
          if odir : bool then remove_dir new_dirp new_ip new_name
          else unlink_file new_dirp (Some new_ip) (Str new_name)
      end;
  if negb (r =? OK) then mret r
  else
    numb ← rd i_num old_ip;
    r ← (if same_pdir : bool then
           rn ← search_dir old_dirp (Str old_name) 0 DELETE;
           (if rn.1 =? OK then
              _ ← search_dir old_dirp (Str new_name) numb ENTER; mret tt else mret tt);;
           mret rn.1
         else
           rn ← search_dir new_dirp (Str new_name) numb ENTER;
           (if rn.1 =? OK then
              _ ← search_dir old_dirp (Str old_name) 0 DELETE; mret tt else mret tt);;
           mret rn.1);
    if (r =? OK) && odir && negb same_pdir then
      numb ← rd i_num new_dirp;
      _ ← unlink_file old_ip None Dot2;
      rn ← search_dir old_ip Dot2 numb ENTER;
      when (rn.1 =? OK)
        (wr new_dirp (λ i, i <| i_nlinks ::= λ n, i16 (n + 1) |> <| i_dirt := DIRTY |>));;
      mret r
    else mret r.

(** [advance] of a directory that may be NIL, and a component that may not have
    been written; with NIL only a component that is known not to be empty
    is defined. *)
Definition advance_opt (dirp : option nat) (string : option (list Z)) : M (option nat) :=
  s ← deref string; advance dirp (Str s).

Definition do_rename : M Z :=
  m ← rg m_in;
  f ← fetch_name (in_name1 m) (in_name1_length m) M1;
  if negb (f =? OK) then rg err_code
  else
    path ← rg user_path;
    ls ← last_dir path;
    match ls with
    | (None, _) => rg err_code
    | (Some old_dirp, old_name) =>
        old_name ← deref old_name;
        old_ip ← advance (Some old_dirp) (Str old_name);
        r ← match old_ip with None => rg err_code | Some _ => mret OK end;
        f ← fetch_name (in_name2 m) (in_name2_length m) M1;
        r ← (if negb (f =? OK) then rg err_code else mret r);
        path ← rg user_path;
        ls ← last_dir path;
        let '(new_dirp, new_name) := ls in
        r ← match new_dirp with None => rg err_code | Some _ => mret r end;
        new_ip ← advance_opt new_dirp new_name;
        r ← (if r =? OK then
               old ← deref old_ip; newd ← deref new_dirp; newn ← deref new_name;
               mode ← rd i_mode old;
               let odir := Z.land mode I_TYPE =? I_DIRECTORY in
               let same_pdir := bool_decide (old_dirp = newd) in
               r ← rename_checks old_dirp old newd new_ip old_name newn odir same_pdir;
               if r =? OK
               then rename_entries old_dirp old newd new_ip old_name newn odir same_pdir
               else mret r
             else mret r);
        put_inode (Some old_dirp);;
        put_inode old_ip;;
        put_inode new_dirp;;
        put_inode new_ip;;
        mret (if r =? SAME then OK else r)
    end.
End link.
