(* ===== verification/Dmap.v ===== *)
(** dmap.c: the mapping of devices to drivers. *)

From S2P Require Import Prelude Machine State Monad Process DeviceOpen.

(** [enum dev_style]: STYLE_DEV is 0, STYLE_NDEV, which is refused, 1, STYLE_TTY 2 and
    STYLE_CLONE 3. *)
Definition style_of (style : Z) : option opcl_routine :=
  if style =? 0 then Some gen_opcl_r else if style =? 2 then Some tty_opcl_r
  else if style =? 3 then Some clone_opcl_r else None.

Definition DEV_MAP : Z := 1.
Definition DEV_UNMAP : Z := 2.
Definition MEM_PROC_NR : Z := 3.
Definition LOG_PROC_NR : Z := 4.
Definition TTY_PROC_NR : Z := 5.

(** An entry without a driver. *)
Definition unmapped : dmap_entry := Dmap no_dev_opcl no_dev_io_r NONE DMAP_MUTABLE.

(** [init_dmap], the entries with a preset driver; the others have [no_dev]. *)
Definition init_dmap (major : nat) : option dmap_entry :=
  match major with
  | 1%nat => Some (Dmap gen_opcl_r gen_io_r MEM_PROC_NR 0)
  | 4%nat => Some (Dmap tty_opcl_r gen_io_r TTY_PROC_NR 0)
  | 5%nat => Some (Dmap ctty_opcl_r ctty_io_r TTY_PROC_NR 0)
  | 15%nat => Some (Dmap gen_opcl_r gen_io_r LOG_PROC_NR 0)
  | _ => None
  end.

Section dmap.
Context {cfg : Config} {krn : Kernel}.

Definition map_driver (major proc_nr style : Z) : M Z :=
  if (major <? 0) || (Z.of_nat NR_DEVICES <=? major) then mret ENODEV
  else
    let dp := Z.to_nat major in
    if proc_nr =? NONE then wr dp (λ _, unmapped);; mret OK
    else
      flags ← rd dmap_flags dp;
      if negb (has flags DMAP_MUTABLE) then mret EPERM
      else if has flags DMAP_BUSY then mret EBUSY
      else if negb (isokprocnr proc_nr) then mret EINVAL
      else
        match style_of style with
        | None => mret EINVAL
        | Some opcl =>
            wr dp (λ d, d <| dmap_opcl := opcl |> <| dmap_io := gen_io_r |>
                          <| dmap_driver := proc_nr |>);;
            p ← Process.index proc_nr;
            execced ← rd fp_execced p;
            (if execced : bool then dev_up major
             else wr dp (λ d, d <| dmap_flags ::= Z.lor DMAP_BABY |>));;
            mret OK
        end.

Definition do_devctl : M Z :=
  m ← rg m_in;
  if in_ctl_req m =? DEV_MAP then map_driver (in_dev_nr m) (in_driver_nr m) (in_dev_style m)
  else if in_ctl_req m =? DEV_UNMAP then map_driver (in_dev_nr m) NONE 0
  else mret EINVAL.

Definition dmap_unmap_by_proc (proc_nr : Z) : M unit :=
  for_each (seq 0 NR_DEVICES) (λ i,
    d ← rd dmap_driver i;
    when (truth d && (d =? proc_nr)) (_ ← map_driver (Z.of_nat i) NONE 0; mret tt)).

(** The table [build_dmap] starts with. *)
Definition build_table : M unit :=
  for_each (seq 0 NR_DEVICES) (λ i, wr i (λ _, default unmapped (init_dmap i))).

Definition dmap_proc_up (proc : Z) : M unit :=
  for_each (seq 0 NR_DEVICES) (λ i,
    d ← rd (λ d, d) i;
    when (negb (dmap_driver d =? NONE) && (dmap_driver d =? proc)
            && has (dmap_flags d) DMAP_BABY) (
      wr i (λ d, d <| dmap_flags ::= λ x, Z.ldiff x DMAP_BABY |>);;
      dev_up (Z.of_nat i))).
End dmap.
