(* ===== verification/Misc.v ===== *)
(** misc.c: duplicating descriptors, [fcntl], and the file side of process
    management. *)

From S2P Require Import Prelude Machine State Monad Utility Process Device Inode FileMap Filedes Lock SelectTable Pipe DeviceOpen Open Mount Dmap.

Definition DUP_MASK : Z := 64.
(** sys/svrctl.h *)
Definition FSSIGNON : Z := 1074284034.
Definition FSDEVUNMAP : Z := 1073890822.

Section misc.
Context {cfg : Config} {krn : Kernel}.

(** The tables are copied as they are in memory. *)
Definition do_getsysinfo : M Z :=
  m ← rg m_in; w ← rg who;
  let what := m1_i1 m in
  if (1 <=? what) && (what <=? 3) then kcall (k_sysinfo what w (m1_p1 m)) else mret EINVAL.

(** [f->filp_count++; fp->fp_filp[fd] = f] *)
Definition share_filp (fd f : nat) : M unit :=
  p ← rg fp;
  wr f (λ f, f <| filp_count ::= Z.add 1 |>);;
  set_fd p fd (Some f).

Definition do_dup : M Z :=
  m ← rg m_in;
  let rfd := Z.ldiff (in_fd m) DUP_MASK in
  f ← get_filp rfd;
  match f with
  | None => rg err_code
  | Some f =>
      if in_fd m =? rfd then
        r ← get_fd 0 0;
        match r with
        | inl r => mret r
        | inr (fd2, _) =>
            wg (λ g, g <| m_in ::= λ m, m <| m1_i2 := Z.of_nat fd2 |> |>);;
            share_filp fd2 f;;
            mret (Z.of_nat fd2)
        end
      else
        let fd2 := in_fd2 m in
        if (fd2 <? 0) || (Z.of_nat OPEN_MAX <=? fd2) then mret EBADF
        else if rfd =? fd2 then mret fd2
        else
          wg (λ g, g <| m_in ::= λ m, m <| m1_i1 := fd2 |> |>);;
          _ ← do_close;
          share_filp (Z.to_nat fd2) f;;
          mret fd2
  end.

Definition do_fcntl : M Z :=
  m ← rg m_in;
  f ← get_filp (in_fd m);
  match f with
  | None => rg err_code
  | Some f =>
      p ← rg fp;
      let request := in_request m in
      if request =? F_DUPFD then
        if (in_addr m <? 0) || (Z.of_nat OPEN_MAX <=? in_addr m) then mret EINVAL
        else
          r ← get_fd (Z.to_nat (in_addr m)) 0;
          match r with
          | inl r => mret r
          | inr (new_fd, _) => share_filp new_fd f;; mret (Z.of_nat new_fd)
          end
      else if request =? F_GETFD then
        c ← rd fp_cloexec p;
        mret (if has (Z.shiftr c (in_fd m)) 1 then FD_CLOEXEC else 0)
      else if request =? F_SETFD then
        let cloexec_mask := Z.shiftl 1 (in_fd m) in
        let clo_value := if has (in_addr m) FD_CLOEXEC then cloexec_mask else 0 in
        wr p (λ r, r <| fp_cloexec ::= λ c, Z.lor (Z.ldiff c cloexec_mask) clo_value |>);;
        mret OK
      else if request =? F_GETFL then
        fl ← rd filp_flags f;
        mret (Z.land fl (Z.lor O_NONBLOCK (Z.lor O_APPEND O_ACCMODE)))
      else if request =? F_SETFL then
        let fl := Z.lor O_NONBLOCK O_APPEND in
        wr f (λ f, f <| filp_flags ::= λ x, Z.lor (Z.ldiff x fl) (Z.land (in_addr m) fl) |>);;
        mret OK
      else if (request =? F_GETLK) || (request =? F_SETLK) || (request =? F_SETLKW) then
        lock_op f request
      else mret EINVAL
  end.

Definition do_fork : M Z :=
  w ← rg who; m ← rg m_in;
  if negb (w =? PM_PROC_NR) then mret EGENERIC
  else
    parent ← Process.index (in_parent m); child ← Process.index (in_child m);
    x ← rd (λ p, p) parent;
    wr child (λ _, x);;
    for_each (fp_filp x) (λ f,
      match f with
      | Some f => wr f (λ f, f <| filp_count ::= Z.add 1 |>)
      | None => mret tt
      end);;
    wr child (λ c, c <| fp_pid := in_pid m |> <| fp_sesldr := false |>
      <| fp_execced := false |>);;
    root ← deref (fp_rootdir x); dup_inode root;;
    work ← deref (fp_workdir x); dup_inode work;;
    mret OK.

(** Closing the descriptors of the caller for which [sel] holds. *)
Definition close_fds (sel : Z → bool) : M unit :=
  for_each (seqZ 0 (Z.of_nat OPEN_MAX)) (λ i,
    wg (λ g, g <| m_in ::= λ m, m <| m1_i1 := i |> |>);;
    when (sel i) (_ ← do_close; mret tt)).

Definition do_exec : M Z :=
  w ← rg who; m ← rg m_in;
  if negb (w =? PM_PROC_NR) then mret EGENERIC
  else
    p ← Process.index (in_slot1 m);
    wg (λ g, g <| fp := p |>);;
    bitmap ← rd fp_cloexec p;
    when (truth bitmap) (close_fds (λ i, has (Z.shiftr bitmap i) 1));;
    wr p (λ f, f <| fp_execced := true |>);;
    reply w OK;;
    dmap_proc_up (Z.of_nat p);;
    mret SUSPEND.

(** The process [p] is taken off what it hangs on. *)
Definition exit_suspended (p : nat) : M unit :=
  x ← rd (λ p, p) p;
  when (fp_suspended x) (
    let task := - fp_task x in
    when ((task =? XPIPE) || (task =? XPOPEN)) (wg (λ g, g <| susp_count ::= λ n, n - 1 |>));;
    wg (λ g, g <| m_in ::= λ m, m <| m1_i1 := Z.of_nat p |> |>);;
    _ ← do_unpause;
    wr p (λ f, f <| fp_suspended := false |>)).

(** The session leader's terminal [dev] is revoked from the process [q]. *)
Definition revoke_tty (dev : Z) (q : nat) : M unit :=
  wr q (λ f, if fp_tty f =? dev then f <| fp_tty := 0 |> else f);;
  fs ← rd fp_filp q;
  for_each fs (λ f,
    match f with
    | None => mret tt
    | Some f =>
        mode ← rd filp_mode f;
        if mode =? FILP_CLOSED then mret tt
        else
          ino ← rd filp_ino f; rip ← deref ino;
          imode ← rd i_mode rip;
          if negb (Z.land imode I_TYPE =? I_CHAR_SPECIAL) then mret tt
          else
            z ← rd_zone rip 0;
            when (i16 z =? dev) (
              dev_close dev;;
              wr f (λ f, f <| filp_mode := FILP_CLOSED |>))
    end).

Definition do_exit : M Z :=
  w ← rg who; m ← rg m_in;
  if negb (w =? PM_PROC_NR) then mret EGENERIC
  else
    p ← Process.index (in_slot1 m);
    wg (λ g, g <| fp := p |>);;
    exit_suspended p;;
    close_fds (λ _, true);;
    root ← rd fp_rootdir p; put_inode root;;
    work ← rd fp_workdir p; put_inode work;;
    wr p (λ f, f <| fp_rootdir := None |> <| fp_workdir := None |>);;
    unsuspend_by_proc (in_slot1 m);;
    dmap_unmap_by_proc (in_slot1 m);;
    x ← rd (λ f, f) p;
    (if fp_sesldr x then
       wr p (λ f, f <| fp_sesldr := false |>);;
       when (negb (fp_tty x =? 0)) (for_each (seq 0 NR_PROCS) (revoke_tty (fp_tty x)))
     else mret tt);;
    wr p (λ f, f <| fp_pid := PID_FREE |>);;
    mret OK.

Definition do_set : M Z :=
  w ← rg who; m ← rg m_in; call ← rg call_nr;
  if negb (w =? PM_PROC_NR) then mret EGENERIC
  else
    p ← Process.index (in_slot1 m);
    wr p (λ f,
      let f := if call =? SETUID
               then f <| fp_realuid := i16 (in_real_user_id m) |>
                      <| fp_effuid := i16 (in_eff_user_id m) |> else f in
      if call =? SETGID
      then f <| fp_effgid := i8 (in_eff_grp_id m) |> <| fp_realgid := i8 (in_real_grp_id m) |>
      else f);;
    mret OK.

Definition do_revive : M Z :=
  m ← rg m_in;
  revive (REP_PROC_NR m) (REP_STATUS m);;
  mret SUSPEND.

Definition do_svrctl : M Z :=
  m ← rg m_in; w ← rg who; p ← rg fp;
  if in_svrctl_req m =? FSSIGNON then
    uid ← rd fp_effuid p;
    if negb (uid =? SU_UID) then mret EPERM
    else
      rb ← gets (λ s, k_vircopy_from w SEG_D (in_svrctl_argp m) 8 (kern s));
      if negb (rb.1 =? OK) then mret rb.1
      else
        dev ← deref (load_le 2 0 rb.2); style ← deref (load_le 4 4 rb.2);
        map_driver (major_of (i16 dev)) w (i32 style)
  else if in_svrctl_req m =? FSDEVUNMAP then
    rb ← gets (λ s, k_vircopy_from w SEG_D (in_svrctl_argp m) 2 (kern s));
    if negb (rb.1 =? OK) then mret rb.1
    else
      dev ← deref (load_le 2 0 rb.2);
      map_driver (major_of (i16 dev)) NONE 0
  else mret EINVAL.

(** The inode [do_reboot] pulls out of thin air: a slot past the table. *)
Definition dummy_inode : inode :=
  Inode 0 0 0 0 0 0 0 0 (replicate V2_NR_TZONES 0) 0 0 2 0 0 None false false false false 0.

Definition do_reboot : M Z :=
  w ← rg who;
  if negb (w =? PM_PROC_NR) then mret EGENERIC
  else
    for_each (seqZ 0 (Z.of_nat NR_PROCS)) (λ i,
      wg (λ g, g <| m_in ::= λ m, m <| m1_i1 := i |> |>);;
      _ ← do_exit; mret tt);;
    imount ← rd s_imount 0%nat;
    put_inode imount;;
    modify (λ s, with_table (take NR_INODES (table s) ++ [dummy_inode]) s);;
    wr 0%nat (λ x, x <| s_imount := Some NR_INODES |>);;
    for_each (seq 0 NR_SUPERS) (λ _,
      for_each (seq 0 NR_SUPERS) (λ sp,
        dev ← rd s_dev sp;
        when (negb (dev =? NO_DEV)) (_ ← unmount dev; mret tt)));;
    modify (λ s, with_table (take NR_INODES (table (T := inode) s)) s);;
    mret OK.
End misc.
