(* ===== verification/Main.v ===== *)
(** main.c: getting work, calling the system call through [call_vec] of table.c,
    replying; loading the root file system. *)

From S2P Require Import Prelude Machine State Monad Utility Process Device Cache Bitmap Inode FileMap Protect Filedes Stadir SelectTable Pipe Select ReadWrite DeviceOpen Sync Open Mount Link Dmap Misc.

Definition NCALLS : Z := 91.
Definition NOTIFY_MESSAGE : Z := 4096.
Definition SYN_ALARM : Z := 4097.
Definition SYS_SIG : Z := 4098.
Definition SIGKSTOP : Z := 20.

Section main.
Context {cfg : Config} {krn : Kernel}.

(** The entries of [call_vec] that are not [no_sys]. *)
Definition call_vec (nr : Z) : M Z :=
  if nr =? 1 then do_exit else if nr =? 2 then do_fork
  else if nr =? 3 then do_read else if nr =? 4 then do_write
  else if nr =? 5 then do_open else if nr =? 6 then do_close
  else if nr =? 8 then do_creat else if nr =? 9 then do_link
  else if nr =? 10 then do_unlink else if nr =? 12 then do_chdir
  else if nr =? 14 then do_mknod else if nr =? 15 then do_chmod
  else if nr =? 16 then do_chown else if nr =? 18 then do_stat
  else if nr =? 19 then do_lseek else if nr =? 21 then do_mount
  else if nr =? 22 then do_umount else if nr =? 23 then do_set
  else if nr =? 25 then do_stime else if nr =? 28 then do_fstat
  else if nr =? 30 then do_utime else if nr =? 33 then do_access
  else if nr =? 36 then do_sync else if nr =? 38 then do_rename
  else if nr =? 39 then do_mkdir else if nr =? 40 then do_unlink
  else if nr =? 41 then do_dup else if nr =? 42 then do_pipe
  else if nr =? 46 then do_set else if nr =? 54 then do_ioctl
  else if nr =? 55 then do_fcntl else if nr =? 59 then do_exec
  else if nr =? 60 then do_umask else if nr =? 61 then do_chroot
  else if nr =? 62 then do_setsid else if nr =? 65 then do_unpause
  else if nr =? 67 then do_revive else if nr =? 76 then do_reboot
  else if nr =? 77 then do_svrctl else if nr =? 79 then do_getsysinfo
  else if nr =? 81 then do_devctl else if nr =? 82 then do_fstatfs
  else if nr =? 85 then do_select else if nr =? 86 then do_fchdir
  else if nr =? 87 then do_fsync
  else no_sys.

Definition get_work : M unit :=
  n ← rg reviving;
  if negb (n =? 0) then
    l ← gets (λ s, fprocs (tabs s));
    match list_find (λ rp, fp_revived rp = true) (take NR_PROCS l) with
    | None => panic NO_NUM
    | Some (rp, x) =>
        wg (λ g, g <| who := Z.of_nat rp |> <| call_nr := Z.land (fp_fd x) BYTE |>
          <| m_in ::= λ m, m <| m1_i1 := Z.land (Z.shiftr (fp_fd x) 8) BYTE |>
                             <| m1_p1 := fp_buffer x |> <| m1_i2 := fp_nbytes x |> |>);;
        wr rp (λ f, f <| fp_suspended := false |> <| fp_revived := false |>);;
        wg (λ g, g <| reviving ::= λ n, n - 1 |>)
    end
  else
    rm ← kcall (λ k, let '(r, m, _, k') := k_receive ANY [] k in ((r, m), k'));
    let '(r, m) := rm in
    if negb (r =? OK) then panic NO_NUM
    else wg (λ g, g <| m_in := m |> <| who := m_source m |> <| call_nr := m_type m |>).

(** One turn of the main loop; [false]: the server has exited. *)
Definition main_step : M bool :=
  get_work;;
  w ← rg who;
  p ← Process.index w;
  wg (λ g, g <| fp := p |>);;
  uid ← rd fp_effuid p;
  wg (λ g, g <| super_user := (uid =? SU_UID) |>);;
  call ← rg call_nr; m ← rg m_in;
  if call =? SYS_SIG then
    if k_sigismember (m2_l1 m) SIGKSTOP then _ ← do_sync; mret false else mret true
  else if call =? SYN_ALARM then fs_expire_timers (m2_l2 m);; mret true
  else if has call NOTIFY_MESSAGE then dev_status m;; mret true
  else
    pid ← rd fp_pid p;
    error ← (if (call <? 0) || (NCALLS <=? call) then mret ENOSYS
             else if pid =? PID_FREE then mret ENOSYS
             else call_vec call);
    w ← rg who;
    when (negb (error =? SUSPEND)) (reply w error);;
    ahead ← rg rdahed_inode;
    when (bool_decide (ahead ≠ None)) read_ahead;;
    mret true.

Definition load_super (super_dev : Z) : M unit :=
  for_each (seq 0 NR_SUPERS) (λ sp, wr sp (λ x, x <| s_dev := NO_DEV |>));;
  wr 0%nat (λ x, x <| s_dev := super_dev |>);;
  r ← read_super 0;
  if negb (r =? OK) then panic NO_NUM
  else
    rip ← get_inode super_dev ROOT_INODE;
    rip ← deref rip;
    i ← rd (λ i, i) rip;
    if negb (Z.land (i_mode i) I_TYPE =? I_DIRECTORY) || (i_nlinks i <? 3) then panic NO_NUM
    else
      wr 0%nat (λ x, x <| s_imount := Some rip |>);;
      dup_inode rip;;
      wr 0%nat (λ x, x <| s_isup := Some rip |> <| s_rd_only := 0 |>).

(** The end of [fs_init]: the directories of the processes that exist. *)
Definition set_process_dirs : M unit :=
  for_each (seq 0 NR_PROCS) (λ rfp,
    pid ← rd fp_pid rfp;
    when (negb (pid =? PID_FREE)) (
      dev ← rg root_dev;
      rip ← get_inode (i16 dev) ROOT_INODE;
      ip ← deref rip;
      dup_inode ip;;
      wr rfp (λ f, f <| fp_rootdir := rip |> <| fp_workdir := rip |>))).
End main.
