(* ===== verification/FileMapSpec.v ===== *)
(** read.c: [read_map] computes the block of a position of a file from the zones
    of the inode and the indirect blocks on the disk. *)

From S2P Require Import Prelude Machine State Monad Utility SuperTable Cache CacheInv DiskView Flush CacheSpec CacheContract Bitmap BitmapSpec Inode InodeSpec InodeContract FileMap.

Section spec.
Context {cfg : Config} {krn : Kernel} {dk : Disk}.
Implicit Types (s : st) (x : super_block) (r : inode).

(** A block is read and given back. *)
Lemma read_block_spec {A B} D s dev blk block_type (f : nat → M A) (k : A → M B) Q :
  cache_ok (tabs s) D s → has_free s → D dev → addressable (tabs s) dev blk →
  has block_type WRITE_IMMED = false →
  (∀ s1 bp b, tabs s1 = tabs s → bufs (cache s1) !! bp = Some b → b_dev b = dev →
     page_ok (b_data b) → take (Z.to_nat (dev_bs (tabs s) dev)) (b_data b) = dview s dev blk →
     wp (f bp) (λ a s2, s2 = s1 ∧
       ∀ s3, cache_ok (tabs s) D s3 → has_free s3 → transparent (tabs s) D s s3 → wp (k a) Q s3) s1) →
  wp (bp ← get_block dev blk NORMAL; a ← f bp; put_block (Some bp) block_type;; k a) Q s.
Proof.
  intros Hok Hfree Hdev Hadd Hbt Hf. wp_pure. eapply wp_mono.
  { apply (get_block_normal (tabs s) D); [done|done|done|by apply has_free_available]. }
  intros bp s1 (Hok1 & T1 & _ & U & b & Hb & [E1 E2] & Hc & Hdata).
  wp_pure. eapply wp_mono.
  { apply (Hf s1 bp b); [apply Hok1|done|done|by apply (wf_data _ _ _ (co_wf _ _ _ _ (ok_coherent _ _ _ Hok1) _ _ Hb))|].
    unfold dview. rewrite <- Hdata. unfold block_data. by rewrite E1. }
  intros a s2 [-> HQ]. wp_pure. eapply wp_mono; [by eapply (put_block_ok (tabs s) D s1 bp b)|].
  intros [] s3 (Hok3 & T3 & _ & U3). apply HQ; [done| |by etrans].
  by apply (put_back s s1 s1 s3 bp).
Qed.

(** * Indirect blocks *)

(** The zone number [i] of an indirect block. *)
Definition indirect_entry (x : super_block) (d : list Z) (i : Z) : option Z :=
  if s_version x =? V1
  then conv2 (truth (s_native x)) <$> load_le 2 (Z.to_nat (2 * i)) d
  else (λ z, u32 (conv4 (truth (s_native x)) (i32 z))) <$> load_le 4 (Z.to_nat (4 * i)) d.
Definition entry_size (x : super_block) : Z := if s_version x =? V1 then 2 else 4.

Definition zone_ok (x : super_block) (z : Z) : Prop := z = NO_ZONE ∨ s_firstdatazone x ≤ z < s_zones x.

Lemma rd_indir_spec s dev sp x bp b d i z Q :
  find_super dev (supers (tabs s)) = Some (sp, x) → dev ≠ NO_DEV →
  bufs (cache s) !! bp = Some b → b_dev b = dev → take (Z.to_nat (s_block_size x)) (b_data b) = d →
  0 ≤ i → (i + 1) * entry_size x ≤ s_block_size x → indirect_entry x d i = Some z → zone_ok x z →
  Q z s → wp (rd_indir bp i) Q s.
Proof.
  intros Hsup Hnz%Z.eqb_neq Hb Ed Hd Hi Hbs Hz Hok HQ. unfold rd_indir. wp_pure. eapply wp_rd; [exact Hb|].
  rewrite Ed. wp_pure. unfold get_super. rewrite Hnz. do 2 wp_pure. rewrite Hsup. wp_pure.
  apply list_find_Some in Hsup as (Hx & _). wp_pure. eapply wp_rd; [exact Hx|].
  destruct (Z.ltb_spec i 0); [lia|]. unfold indirect_entry in Hz. unfold entry_size in Hbs.
  assert (∀ z', zone_ok x z' → Q z' s →
    wp (if negb (z' =? NO_ZONE) && ((z' <? s_firstdatazone x) || (s_zones x <=? z'))
        then panic NO_NUM else mret z') Q s) as Htail.
  { intros z' Hz' HQ'. destruct (Z.eqb_spec z' NO_ZONE) as [E|E]; [done|].
    destruct Hz' as [?|[H1%Z.ltb_ge H2%Z.leb_gt]]; [done|]. by rewrite H1, H2. }
  wp_pure. destruct (s_version x =? V1); apply fmap_Some in Hz as (v & Hv & ->);
    rewrite <- Hd, load_le_take in Hv by lia; wp_pure; (eapply load_buf_spec; [exact Hb|exact Hv|]);
    cbv beta; wp_pure; by apply Htail.
Qed.

(** * The map of a file *)

(** The entry [i] of the indirect zone [z], none if there is no such zone. *)
Definition entry_at (s : st) (dev : Z) (x : super_block) (z i : Z) : Z :=
  if z =? NO_ZONE then NO_ZONE
  else default NO_ZONE (indirect_entry x (dview s dev (zone_block z (s_log_zone_size x))) i).

(** The zone number [zone] of a file: direct, single and double indirect. *)
Definition file_zone (s : st) (x : super_block) (r : inode) (zone : Z) : Z :=
  let zs k := default NO_ZONE (i_zone r !! Z.to_nat k) in
  let excess := zone - i_ndzones r in
  if zone <? i_ndzones r then zs zone
  else if excess <? i_nindirs r then entry_at s (i_dev r) x (zs (i_ndzones r)) excess
  else
    let excess := excess - i_nindirs r in
    entry_at s (i_dev r) x (entry_at s (i_dev r) x (zs (i_ndzones r + 1)) (excess / i_nindirs r))
      (excess mod i_nindirs r).

(** The block of a position: the block of the zone, at the offset in the zone. *)
Definition file_block (s : st) (x : super_block) (r : inode) (pos : Z) : Z :=
  let block_pos := pos / s_block_size x in
  let zone := Z.shiftr block_pos (s_log_zone_size x) in
  let z := file_zone s x r zone in
  if z =? NO_ZONE then NO_BLOCK
  else u32 (zone_block z (s_log_zone_size x) + (block_pos - Z.shiftl zone (s_log_zone_size x))).

(** The zones of a file that hold zone numbers. *)
Definition indirect_zone (s : st) (x : super_block) (r : inode) (z : Z) : Prop :=
  i_zone r !! Z.to_nat (i_ndzones r) = Some z ∨
  ∃ z2, i_zone r !! Z.to_nat (i_ndzones r + 1) = Some z2 ∧
    (z = z2 ∨ ∃ i, 0 ≤ i < i_nindirs r ∧ z = entry_at s (i_dev r) x z2 i).

(** The inode [r] of a file on the file system [x] and its zones are sound. *)
Record file_ok (s : st) (D : Z → Prop) (sp : nat) (x : super_block) (r : inode) : Prop := {
  fo_dev : D (i_dev r);
  fo_super : find_super (i_dev r) (supers (tabs s)) = Some (sp, x);
  fo_sp : i_sp r = Some sp;
  fo_scale : 0 ≤ s_log_zone_size x < 32;
  fo_zones : 0 ≤ i_ndzones r ∧ i_ndzones r + 2 ≤ Z.of_nat (length (i_zone r));
  fo_indirs : 0 < i_nindirs r ∧ i_nindirs r * entry_size x ≤ s_block_size x;
  fo_range z : s_firstdatazone x ≤ z < s_zones x →
    addressable (tabs s) (i_dev r) (zone_block z (s_log_zone_size x));
  fo_inode z : z ∈ i_zone r → zone_ok x z;
  fo_entry z i : indirect_zone s x r z → z ≠ NO_ZONE → 0 ≤ i < i_nindirs r →
    zone_ok x (entry_at s (i_dev r) x z i)
}.

Lemma entry_at_transparent D s s' dev x z i :
  transparent (tabs s) D s s' → D dev → entry_at s' dev x z i = entry_at s dev x z i.
Proof.
  intros T HD. unfold entry_at, dview. rewrite (same_tabs _ _ (tr_rest _ _ _ _ T)).
  by rewrite (tr_view _ _ _ _ T) by done.
Qed.

Section map.
Context (s0 : st) (D : Z → Prop) (sp : nat) (x : super_block) (r : inode).
Hypothesis Hfo : file_ok s0 D sp x r.
#[local] Abbreviation scale := (s_log_zone_size x).

Lemma fo_entry_bound d i :
  length d = Z.to_nat (s_block_size x) → 0 ≤ i < i_nindirs r →
  (i + 1) * entry_size x ≤ s_block_size x ∧ is_Some (indirect_entry x d i).
Proof using Hfo.
  intros Hlen Hi. destruct (fo_indirs _ _ _ _ _ Hfo) as [H1 H2]. unfold entry_size in *.
  unfold indirect_entry. destruct (s_version x =? V1).
  - split; [nia|]. apply fmap_is_Some, load_le_is_Some. nia.
  - split; [nia|]. apply fmap_is_Some, load_le_is_Some. nia.
Qed.

(** A step through the indirect zone [z]. *)
Lemma indirect_step {B} s z i (k : Z → M B) Q :
  cache_ok (tabs s0) D s → has_free s → transparent (tabs s0) D s0 s →
  indirect_zone s0 x r z → z ≠ NO_ZONE → zone_ok x z → 0 ≤ i < i_nindirs r →
  (∀ s', cache_ok (tabs s0) D s' → has_free s' → transparent (tabs s0) D s0 s' →
     wp (k (entry_at s0 (i_dev r) x z i)) Q s') →
  wp (bp ← get_block (i_dev r) (zone_block z scale) NORMAL;
      z' ← rd_indir bp i; put_block (Some bp) INDIRECT_BLOCK;; k z') Q s.
Proof using Hfo.
  intros Hok Hfree T Hind Hz Hzok Hi HQ. pose proof (ok_disks _ _ _ Hok) as HD.
  pose proof (fo_dev _ _ _ _ _ Hfo) as Hdev. pose proof (disk_dev _ _ (disks_ok _ _ HD _ Hdev)) as Hnz.
  assert (tabs s = tabs s0) as Et by apply (tr_rest _ _ _ _ T).
  assert (dev_bs (tabs s0) (i_dev r) = s_block_size x) as Ebs
    by (unfold dev_bs; by rewrite (fo_super _ _ _ _ _ Hfo)).
  pose proof (fo_entry _ _ _ _ _ Hfo z i Hind Hz Hi) as Hent.
  apply (read_block_spec D); [by rewrite Et|done|done| |done|].
  { rewrite Et. destruct Hzok as [?|Hr]; [done|]. by apply (fo_range _ _ _ _ _ Hfo). }
  intros s1 bp b Et1 Hb Eb Hpage Hdata. rewrite Et, Ebs in Hdata. rewrite Et in Et1.
  assert (dview s (i_dev r) (zone_block z scale) = dview s0 (i_dev r) (zone_block z scale)) as Hv.
  { unfold dview. rewrite Et. by apply (tr_view _ _ _ _ T). }
  rewrite Hv in Hdata. destruct Hpage as [Hlen _].
  assert (s_block_size x ≤ MAX_BLOCK_SIZE) as Hmax by (rewrite <- Ebs; by apply (disks_ok _ _ HD)).
  destruct (fo_entry_bound (dview s0 (i_dev r) (zone_block z scale)) i) as [Hb1 [z' Hz']]; [|done|].
  { rewrite <- Hdata, length_take. lia. }
  assert (entry_at s0 (i_dev r) x z i = z') as Ez.
  { unfold entry_at. apply Z.eqb_neq in Hz as Hz0. by rewrite Hz0, Hz'. }
  rewrite Ez in Hent, HQ. eapply (rd_indir_spec s1 _ sp x bp b); [by rewrite Et1; apply Hfo|done|exact Hb|done|exact Hdata|lia|done|exact Hz'|done|].
  split; [done|]. rewrite Et. intros s3 Hok3 Hfree3 T3. apply HQ; [done|done|by etrans].
Qed.

Lemma map_single_ok s z i boff :
  cache_ok (tabs s0) D s → has_free s → transparent (tabs s0) D s0 s →
  indirect_zone s0 x r z → zone_ok x z → 0 ≤ i < i_nindirs r →
  wp (map_single (i_dev r) scale boff z i) (λ b s', cache_ok (tabs s0) D s' ∧ has_free s' ∧
    transparent (tabs s0) D s0 s' ∧ b = let z' := entry_at s0 (i_dev r) x z i in
      if z' =? NO_ZONE then NO_BLOCK else u32 (zone_block z' scale + boff)) s.
Proof using Hfo.
  intros Hok Hfree T Hind Hzok Hi. unfold map_single. destruct (Z.eqb_spec z NO_ZONE) as [->|Hz].
  { wp_pure. split_and!; done. }
  eapply (indirect_step s z i); [done..|]. intros s' Hok' Hfree' T'. cbv zeta.
  destruct (_ =? NO_ZONE); wp_pure; by split_and!.
Qed.

Lemma shift_div n : 0 ≤ n → Z.shiftr n scale = n / 2 ^ scale.
Proof using Hfo. intros _. apply Z.shiftr_div_pow2, Hfo. Qed.

(** Where the zone numbers of a file are. *)
Definition max_zone : Z := i_ndzones r + i_nindirs r + i_nindirs r * i_nindirs r.

Lemma read_map_ok rip pos :
  inodes (tabs s0) !! rip = Some r → cache_ok (tabs s0) D s0 → has_free s0 →
  0 ≤ pos → Z.shiftr (pos / s_block_size x) scale < max_zone →
  wp (read_map rip pos) (λ b s', cache_ok (tabs s0) D s' ∧ has_free s' ∧ transparent (tabs s0) D s0 s' ∧
    b = file_block s0 x r pos) s0.
Proof using Hfo.
  intros Hr Hok Hfree Hpos Hmax. pose proof (ok_disks _ _ _ Hok) as HD.
  pose proof Hfo as [Hdev Hsup Hsp Hscale [Hnd Hlen] [Hni Hnis] Hrange Hinode Hentry].
  pose proof (proj1 (proj1 (list_find_Some _ _ _ _) Hsup)) as Hx.
  assert (0 < s_block_size x) as Hbs.
  { pose proof (disk_bs _ _ (disks_ok _ _ HD _ Hdev)) as [Hb _]. unfold MIN_BLOCK_SIZE, dev_bs in Hb.
    rewrite Hsup in Hb. lia. }
  assert (∀ {B} (g : super_block → B) Q, Q (g x) s0 → wp (sp_of g rip) Q s0) as Hsp_of.
  { intros B g Q HQ. unfold sp_of. wp_pure. eapply wp_rd; [exact Hr|]. wp_pure.
    eapply wp_deref; [exact Hsp|]. by eapply wp_rd. }
  assert (∀ k, 0 ≤ k < Z.of_nat (length (i_zone r)) → ∃ z, i_zone r !! Z.to_nat k = Some z ∧ zone_ok x z ∧
    ∀ Q, Q z s0 → wp (rd_zone rip k) Q s0) as Hzone.
  { intros k Hk. destruct (lookup_lt_is_Some_2 (i_zone r) (Z.to_nat k)) as [z Hz]; [lia|]. exists z.
    split; [done|]. split; [by eapply Hinode, list_elem_of_lookup_2|]. intros Q HQ. unfold rd_zone.
    wp_pure. eapply wp_rd; [exact Hr|]. destruct (Z.ltb_spec k 0); [lia|]. by eapply wp_deref. }
  unfold read_map, log_zone_size, block_size_of. do 2 wp_pure. apply Hsp_of.
  destruct (Z.leb_spec 0 scale); [|lia]. destruct (Z.ltb_spec scale 32); [|lia]. cbn [andb]. wp_pure.
  do 2 wp_pure. apply Hsp_of. destruct (Z.eqb_spec (s_block_size x) 0); [lia|]. wp_pure.
  wp_pure. eapply wp_rd; [exact Hr|]. wp_pure. eapply wp_rd; [exact Hr|].
  unfold file_block, file_zone. set (zone := Z.shiftr (pos / s_block_size x) scale) in *.
  set (boff := pos / s_block_size x - Z.shiftl zone scale).
  assert (0 ≤ zone) as Hzone0 by (apply Z.shiftr_nonneg, Z.div_pos; lia).
  destruct (Z.ltb_spec zone (i_ndzones r)) as [Hlt|Hge].
  { destruct (Hzone zone) as (z & Hz & _ & Hrd); [lia|]. wp_pure. apply Hrd. rewrite Hz. cbn [default from_option id].
    case_match; wp_pure; by split_and!. }
  wp_pure. eapply wp_rd; [exact Hr|].
  destruct (Z.ltb_spec (zone - i_ndzones r) (i_nindirs r)) as [Hlt|Hge'].
  { destruct (Hzone (i_ndzones r)) as (z & Hz & Hzok & Hrd); [lia|]. wp_pure. apply Hrd. rewrite Hz. cbn [default from_option id].
    apply map_single_ok; [done|done|done|by left|done|lia]. }
  destruct (Hzone (i_ndzones r + 1)) as (z & Hz & Hzok & Hrd); [lia|]. wp_pure. apply Hrd. rewrite Hz. cbn [default from_option id].
  set (e := zone - i_ndzones r - i_nindirs r) in *. unfold max_zone in Hmax.
  assert (0 ≤ e / i_nindirs r < i_nindirs r) as Hdiv.
  { split; [apply Z.div_pos; lia|]. apply Z.div_lt_upper_bound; lia. }
  destruct (Z.eqb_spec z NO_ZONE) as [->|Hz0].
  { wp_pure. split_and!; done. }
  destruct (Z.eqb_spec (i_nindirs r) 0); [lia|].
  assert (indirect_zone s0 x r z) as Hind by (right; exists z; by split; [|left]).
  eapply (indirect_step s0 z); [done..|]. intros s' Hok' Hfree' T'.
  apply map_single_ok; [done|done|done| | |].
  - right. exists z. split; [done|]. right. by exists (e / i_nindirs r).
  - by apply Hentry.
  - apply Z.mod_pos_bound. lia.
Qed.
End map.

(** C7: [read_map(rip, position)] is the map of the file: the block of the position in the
    zone that the inode, its single or its double indirect block names for it, at the
    offset of the block in the zone, and NO_BLOCK in a hole. Reading it changes
    nothing the clients of the cache can see. Required: a free buffer in the cache. *)
Theorem read_map_contract D s sp x rip r pos :
  file_ok s D sp x r → inodes (tabs s) !! rip = Some r → cache_ok (tabs s) D s → has_free s →
  0 ≤ pos → Z.shiftr (pos / s_block_size x) (s_log_zone_size x) < max_zone r →
  wp (read_map rip pos) (λ b s', cache_ok (tabs s) D s' ∧ has_free s' ∧ transparent (tabs s) D s s' ∧
    b = file_block s x r pos) s.
Proof. intros Hfo. by eapply read_map_ok. Qed.
End spec.
