(* ===== verification/PathSpec.v ===== *)
(** path.c: the components of a path name, and the entries of the blocks of a directory.
    protect.c: [forbidden] grants what the mode of a file says. *)

From S2P Require Import Prelude Machine State Monad Utility SuperTable Cache CacheInv DiskView Flush CacheSpec CacheContract Bitmap BitmapSpec Inode InodeSpec InodeContract FileMap Permission Path.

(** * [get_name] *)

Definition plain (c : Z) : Prop := c ≠ SLASH ∧ c ≠ NUL.

Lemma skip_leading_spec a p n :
  (∀ c, head p = Some c → c ≠ SLASH) → p ≠ [] →
  skip_leading (replicate a SLASH ++ p) n = Some (p, n + Z.of_nat a).
Proof.
  intros Hc Hp. revert n. induction a as [|a IH]; intros n; simpl.
  - destruct p as [|c p]; [done|]. simpl. specialize (Hc c eq_refl). apply Z.eqb_neq in Hc. rewrite Hc.
    by rewrite Z.add_0_r.
  - rewrite IH. do 2 f_equal. lia.
Qed.

Lemma copy_component_spec comp p n string :
  Forall plain comp → 0 ≤ n → p ≠ [] → (∀ c, head p = Some c → c = SLASH ∨ c = NUL) →
  let m := Z.to_nat (Z.max 0 (PATH_MAX - n)) in
  (length string ≤ Z.to_nat NAME_MAX)%nat →
  copy_component (comp ++ p) n string =
    Some (drop m comp ++ p, n + Z.of_nat (length (take m comp)),
      take (Z.to_nat NAME_MAX) (string ++ take m comp)).
Proof.
  intros Hcomp. revert n string. induction Hcomp as [|c comp [Hs Hn] _ IH]; intros n string Hpos Hp Hstop m Hlen.
  - destruct p as [|c p]; [done|]. simpl. rewrite firstn_nil, drop_nil. simpl.
    rewrite app_nil_r, Z.add_0_r, take_ge by done.
    destruct (Hstop c eq_refl) as [-> | ->]; rewrite ?andb_false_r; done.
  - simpl. destruct (Z.ltb_spec n PATH_MAX) as [Hlt|Hge]; cbn [andb].
    + apply Z.eqb_neq in Hs, Hn. rewrite Hs, Hn. cbn [andb negb].
      assert (m = S (Z.to_nat (Z.max 0 (PATH_MAX - (n + 1))))) as Em by lia.
      rewrite IH; [|lia|done|done|].
      * rewrite Em. cbn [take drop length]. do 2 f_equal; [f_equal; lia|].
        destruct (Z.ltb_spec (Z.of_nat (length string)) NAME_MAX).
        -- by rewrite <- app_assoc.
        -- rewrite !(take_app_le string) by lia. done.
      * destruct (Z.ltb_spec (Z.of_nat (length string)) NAME_MAX); [rewrite length_app; simpl; lia|done].
    + assert (m = 0%nat) as -> by lia. simpl. by rewrite Z.add_0_r, app_nil_r, take_ge.
Qed.

Lemma skip_trailing_spec b c rest n :
  c ≠ SLASH → 0 ≤ n →
  ∃ p', skip_trailing (replicate b SLASH ++ c :: rest) n =
    Some (p', n + Z.min (Z.of_nat b) (Z.max 0 (PATH_MAX - n))) ∧
    (n + Z.of_nat b < PATH_MAX → p' = c :: rest).
Proof.
  intros Hc. revert n. induction b as [|b IH]; intros n Hn; simpl.
  - apply Z.eqb_neq in Hc. rewrite Hc. simpl. exists (c :: rest). split; [|done]. do 2 f_equal. lia.
  - destruct (Z.ltb_spec n PATH_MAX) as [Hlt|Hge].
    + destruct (IH (n + 1)) as (p' & -> & Hp'); [lia|]. exists p'. split; [do 2 f_equal; lia|].
      intros H. apply Hp'. lia.
    + eexists. split; [do 2 f_equal; lia|]. lia.
Qed.

(** A path in its parts: [a] slashes, a component, [b] slashes, and the rest, which
    starts with [c]. *)
Definition path_parts (p : list Z) (a : nat) (comp : list Z) (b : nat) (c : Z) (rest : list Z) : Prop :=
  p = replicate a SLASH ++ comp ++ replicate b SLASH ++ c :: rest ∧
  Forall plain comp ∧ c ≠ SLASH ∧ (b = 0%nat → c = NUL) ∧ (comp = [] → b = 0%nat).

Lemma split_slashes p : NUL ∈ p → ∃ a p', p = replicate a SLASH ++ p' ∧ NUL ∈ p' ∧
  ∀ c, head p' = Some c → c ≠ SLASH.
Proof.
  induction p as [|c p IH]; intros Hin; [by apply not_elem_of_nil in Hin|].
  destruct (decide (c = SLASH)) as [->|Hc].
  - apply elem_of_cons in Hin as [E|Hin]; [done|]. destruct (IH Hin) as (a & p' & -> & Hin' & Hp').
    by exists (S a), p'.
  - exists 0%nat, (c :: p). split_and!; [done|done|]. by intros c' [= <-].
Qed.

Lemma split_component p : NUL ∈ p → ∃ comp c p', p = comp ++ c :: p' ∧ Forall plain comp ∧
  NUL ∈ c :: p' ∧ (c = SLASH ∨ c = NUL).
Proof.
  induction p as [|c p IH]; intros Hin; [by apply not_elem_of_nil in Hin|].
  destruct (decide (c = NUL ∨ c = SLASH)) as [Hc|Hc].
  - exists [], c, p. split_and!; [done|constructor|done|]. destruct Hc; auto.
  - apply elem_of_cons in Hin as [E|Hin]; [destruct Hc; auto|].
    destruct (IH Hin) as (comp & c' & p' & -> & Hcomp & Hin' & Hc'). exists (c :: comp), c', p'.
    split_and!; [done| |done|done]. constructor; [|done]. split; intros ->; destruct Hc; auto.
Qed.

Lemma path_parts_exist p : NUL ∈ p → ∃ a comp b c rest, path_parts p a comp b c rest.
Proof.
  intros (a & p1 & -> & Hin1 & Hp1)%split_slashes.
  apply split_component in Hin1 as (comp & c & p2 & -> & Hcomp & Hin2 & Hc).
  apply split_slashes in Hin2 as (b & p3 & E3 & Hin3 & Hp3).
  destruct p3 as [|c3 p3]; [by apply not_elem_of_nil in Hin3|].
  exists a, comp, b, c3, p3. rewrite E3. split_and!; [done|done|by apply Hp3| |].
  - intros ->. injection E3 as -> ->. destruct Hc as [->|]; [|done]. by destruct (Hp3 SLASH).
  - intros ->. destruct b as [|b]; [done|]. injection E3 as -> _. by destruct (Hp1 SLASH).
Qed.

Lemma parse_name_parts p a comp b c rest :
  path_parts p a comp b c rest →
  parse_name p = Some (
    if Z.of_nat (a + length comp + b) <? PATH_MAX then Some (c :: rest) else None,
    take (Z.to_nat NAME_MAX) (take (Z.to_nat (Z.max 0 (PATH_MAX - Z.of_nat a))) comp)).
Proof.
  intros (-> & Hcomp & Hc & Hb & Hcb). unfold parse_name.
  set (tail := replicate b SLASH ++ c :: rest).
  assert (∀ c', head tail = Some c' → c' = SLASH ∨ c' = NUL) as Htail.
  { unfold tail. intros c'. destruct b; simpl; intros [= <-]; auto. }
  assert (tail ≠ []) as Hne by (unfold tail; by destruct b).
  rewrite skip_leading_spec.
  2:{ intros c' Hc'. destruct comp as [|c0 comp]; simpl in Hc'.
      - unfold tail in Hc'. rewrite (Hcb eq_refl) in Hc'. simpl in Hc'. by injection Hc' as <-.
      - injection Hc' as <-. by apply Forall_cons in Hcomp as [[? _] _]. }
  2:{ by destruct comp. }
  rewrite Z.add_0_l. simpl. rewrite copy_component_spec; [|done|lia|done|done|simpl; lia].
  set (m := Z.to_nat (Z.max 0 (PATH_MAX - Z.of_nat a))). simpl. rewrite length_take.
  destruct (decide (length comp ≤ m)%nat) as [Hle|Hgt].
  - rewrite drop_ge by done. unfold tail. simpl. destruct (skip_trailing_spec b c rest (Z.of_nat a + Z.of_nat (m `min` length comp))) as (p' & -> & Hp'); [done|lia|].
    simpl. destruct (Z.ltb_spec (Z.of_nat (a + length comp + b)) PATH_MAX) as [Hlt|Hge].
    + rewrite Hp' by lia. destruct (Z.leb_spec PATH_MAX (Z.of_nat a + Z.of_nat (m `min` length comp) +
        Z.min (Z.of_nat b) (Z.max 0 (PATH_MAX - (Z.of_nat a + Z.of_nat (m `min` length comp)))))); [lia|done].
    + destruct (Z.leb_spec PATH_MAX (Z.of_nat a + Z.of_nat (m `min` length comp) +
        Z.min (Z.of_nat b) (Z.max 0 (PATH_MAX - (Z.of_nat a + Z.of_nat (m `min` length comp)))))); [done|lia].
  - assert (∃ c0 q, drop m comp ++ tail = c0 :: q) as (c0 & q & ->).
    { destruct (drop m comp) as [|c0 q] eqn:E; [|by exists c0, (q ++ tail)].
      apply (f_equal length) in E. rewrite length_drop in E. simpl in E. lia. }
    simpl. destruct (Z.ltb_spec (Z.of_nat a + Z.of_nat (m `min` length comp)) PATH_MAX); [lia|].
    rewrite andb_false_r. simpl. destruct (Z.leb_spec PATH_MAX (Z.of_nat a + Z.of_nat (m `min` length comp))); [|lia].
    destruct (Z.ltb_spec (Z.of_nat (a + length comp + b)) PATH_MAX); [lia|done].
Qed.

(** a path that is terminated is taken apart without reading past its end: what
    [get_name] returns is the first component, cut to NAME_MAX characters, and the
    rest of the path after the slashes that follow it; a path whose component
    and slashes reach PATH_MAX is refused. *)
Theorem parse_name_spec p :
  NUL ∈ p → ∃ a comp b c rest, path_parts p a comp b c rest ∧
  parse_name p = Some (
    if Z.of_nat (a + length comp + b) <? PATH_MAX then Some (c :: rest) else None,
    take (Z.to_nat NAME_MAX) (take (Z.to_nat (Z.max 0 (PATH_MAX - Z.of_nat a))) comp)).
Proof.
  intros (a & comp & b & c & rest & H)%path_parts_exist. exists a, comp, b, c, rest.
  split; [done|]. by apply parse_name_parts.
Qed.

(** * The entries of a directory block *)

(** The entry [i]: the inode number as it is on the disk, and the name. *)
Definition dir_entry (d : list Z) (i : nat) : option (Z * list Z) :=
  ino ← load_le 4 (entry_ino i) d;
  nm ← slice (entry_name i) (Z.to_nat NAME_MAX) d;
  Some (ino, c_string nm).
Definition dir_slots (d : list Z) (i n : nat) : list (Z * list Z) := omap (dir_entry d) (seq i n).

Lemma dir_entry_is_Some d i : (64 * i + 64 ≤ length d)%nat → is_Some (dir_entry d i).
Proof.
  intros Hlen. unfold dir_entry. destruct (load_le_is_Some 4 (entry_ino i) d) as [v ->]; [unfold entry_ino; lia|].
  simpl. unfold slice. change (Z.to_nat NAME_MAX) with 60%nat. rewrite decide_True by (unfold entry_name; lia).
  simpl. eauto.
Qed.

(** The entries that end the search, and what the search ends with. *)
Definition ends_scan (flag : search_flag) (string : list Z) (e : Z * list Z) : bool :=
  match flag with
  | ENTER => e.1 =? 0
  | _ => negb (e.1 =? 0) && entry_match flag string e.2
  end.
Definition scan_found (flag : search_flag) (i : nat) : scan_result :=
  match flag with ENTER => Room i | _ => Matched i end.

Lemma scan_block_step flag string d old n i new e :
  0 ≤ new < old → new + 1 < 2 ^ 32 → dir_entry d i = Some e →
  scan_block flag string d old (S n) i new =
    if ends_scan flag string e then Some (scan_found flag i, new + 1)
    else scan_block flag string d old n (S i) (new + 1).
Proof.
  intros Hnew Hmax He. cbn [scan_block]. rewrite u32_id by lia.
  destruct (Z.ltb_spec old (new + 1)); [lia|]. unfold dir_entry in He.
  destruct (load_le 4 (entry_ino i) d) as [v|]; simpl in He; [|done].
  destruct (slice (entry_name i) (Z.to_nat NAME_MAX) d) as [nm|]; simpl in He; [|done].
  injection He as <-. cbn [mbind option_bind]. unfold ends_scan, scan_found. cbn [fst snd].
  destruct flag; simpl; destruct (v =? 0); try done; simpl; by case_match.
Qed.

Lemma length_dir_slots d i n : (64 * (i + n) ≤ length d)%nat → length (dir_slots d i n) = n.
Proof.
  revert i. unfold dir_slots. induction n as [|n IH]; intros i Hlen; [done|].
  cbn [seq omap list_omap]. destruct (dir_entry_is_Some d i) as [e ->]; [lia|]. simpl. f_equal. apply IH. lia.
Qed.

(** The search of a block goes through the slots of the directory that are in it,
    [n] at most and as many as [old_slots] leaves; one slot past the end of the
    directory has room for ENTER. *)
Lemma scan_block_eq flag string d old n i new :
  0 ≤ new ≤ old → new + Z.of_nat n < 2 ^ 32 → (64 * (i + n) ≤ length d)%nat →
  let m := Nat.min n (Z.to_nat (old - new)) in
  scan_block flag string d old n i new = Some (
    match list_find (λ e, ends_scan flag string e = true) (dir_slots d i m) with
    | Some (j, _) => (scan_found flag (i + j), new + Z.of_nat j + 1)
    | None => if decide (m < n)%nat
              then (if decide (flag = ENTER) then Room (i + m) else Scanned, new + Z.of_nat m + 1)
              else (Scanned, new + Z.of_nat n)
    end).
Proof.
  revert i new. induction n as [|n IH]; intros i new Hnew Hmax Hlen m.
  { cbn [scan_block]. rewrite decide_False by lia. simpl. by rewrite Z.add_0_r. }
  destruct (decide (new = old)) as [->|Hne].
  { assert (m = 0%nat) as -> by lia. cbn [scan_block dir_slots seq omap list_omap list_find].
    rewrite u32_id by lia. destruct (Z.ltb_spec old (old + 1)); [|lia].
    destruct (decide (0 < S n)%nat); [|lia]. by rewrite Nat.add_0_r, Z.add_0_r. }
  destruct (dir_entry_is_Some d i) as [e He]; [lia|].
  rewrite (scan_block_step _ _ _ _ _ _ _ e) by (done || lia).
  set (m' := Nat.min n (Z.to_nat (old - (new + 1)))). assert (m = S m') as -> by lia.
  assert (dir_slots d i (S m') = e :: dir_slots d (S i) m') as ->
    by (unfold dir_slots; cbn [seq omap list_omap]; by rewrite He).
  cbn [list_find]. destruct (ends_scan flag string e) eqn:Ee.
  { rewrite decide_True by done. cbn. by rewrite Nat.add_0_r, Z.add_0_r. }
  rewrite decide_False by done. rewrite IH by lia. fold m'.
  destruct (list_find _ (dir_slots d (S i) m')) as [[j e']|]; cbn [fmap option_fmap option_map prod_map fst snd].
  - replace (S i + j)%nat with (i + S j)%nat by lia. do 2 f_equal. lia.
  - replace (S i + m')%nat with (i + S m')%nat by lia. destruct (decide (m' < n)%nat).
    + destruct (decide (S m' < S n)%nat); [|lia]. do 2 f_equal. lia.
    + destruct (decide (S m' < S n)%nat); [lia|]. do 2 f_equal. lia.
Qed.

(** The entries of the block that are in the directory, [old_slots] in all of which
    [new] are in the blocks before. *)
Definition live_slots (d : list Z) (n : nat) (old new : Z) : list (Z * list Z) :=
  dir_slots d 0 (Nat.min n (Z.to_nat (old - new))).

(** the search of a directory block looks at the entries that belong to the
    directory, in order: LOOK_UP and DELETE end with the first one in use under
    the name, IS_EMPTY with the first one in use under another name than "." and
    "..", ENTER with the first one not in use or, when the directory ends in this
    block, the slot after its last. *)
Theorem scan_block_spec flag string d old n new :
  0 ≤ new ≤ old → new + Z.of_nat n < 2 ^ 32 → (64 * n ≤ length d)%nat →
  scan_block flag string d old n 0 new = Some (
    match list_find (λ e, ends_scan flag string e = true) (live_slots d n old new) with
    | Some (j, _) => (scan_found flag j, new + Z.of_nat j + 1)
    | None =>
        let m := length (live_slots d n old new) in
        if decide (m < n)%nat
        then (if decide (flag = ENTER) then Room m else Scanned, new + Z.of_nat m + 1)
        else (Scanned, new + Z.of_nat n)
    end).
Proof.
  intros Hnew Hmax Hlen. rewrite scan_block_eq by (done || lia).
  assert (length (live_slots d n old new) = Nat.min n (Z.to_nat (old - new))) as El; [|by rewrite El].
  unfold live_slots. apply length_dir_slots. lia.
Qed.

(** * Entering a name *)








Section enter.
Context {cfg : Config} {krn : Kernel} {dk : Disk}.









End enter.

(** * The bits of a mode *)

(** The kinds of access, by the bit that stands for them: execution or search,
    writing, reading. *)
Inductive access_kind := EXECUTE | WRITE_IT | READ_IT.
Definition kind_bit (k : access_kind) : Z :=
  match k with EXECUTE => 0 | WRITE_IT => 1 | READ_IT => 2 end.
Definition wants (access : Z) (k : access_kind) : bool := Z.testbit access (kind_bit k).

(** The class of the user that the mode speaks of: the owner's, the group's, or
    the others' bits. *)
Definition user_class (r : inode) (uid gid : Z) : Z :=
  if decide (uid = i_uid r) then 2 else if decide (gid = i_gid r) then 1 else 0.
Definition mode_bit (r : inode) (class : Z) (k : access_kind) : bool :=
  Z.testbit (i_mode r) (3 * class + kind_bit k).

Definition is_directory (r : inode) : bool := Z.land (i_mode r) I_TYPE =? I_DIRECTORY.
(** The super user may do everything but execute a file nobody may execute. *)
Definition permitted (r : inode) (uid gid : Z) (k : access_kind) : bool :=
  if decide (uid = SU_UID) then
    match k with
    | EXECUTE => is_directory r || mode_bit r 2 EXECUTE || mode_bit r 1 EXECUTE || mode_bit r 0 EXECUTE
    | _ => true
    end
  else mode_bit r (user_class r uid gid) k.

Lemma kind_bit_range k : 0 ≤ kind_bit k < 3.
Proof. destruct k; simpl; lia. Qed.

Lemma rwx_bits k : Z.testbit (Z.lor R_BIT (Z.lor W_BIT X_BIT)) (kind_bit k) = true.
Proof. by destruct k. Qed.

Lemma x_bits mode :
  has mode (Z.lor (Z.shiftl X_BIT 6) (Z.lor (Z.shiftl X_BIT 3) X_BIT)) =
    Z.testbit mode 6 || Z.testbit mode 3 || Z.testbit mode 0.
Proof.
  unfold has, truth. change (Z.lor (Z.shiftl X_BIT 6) (Z.lor (Z.shiftl X_BIT 3) X_BIT)) with 73.
  destruct (Z.eqb_spec (Z.land mode 73) 0) as [E|E]; cbn [negb].
  - assert (∀ i, Z.testbit (Z.land mode 73) i = false) as H by (intros i; by rewrite E, Z.bits_0).
    pose proof (H 6) as H6. pose proof (H 3) as H3. pose proof (H 0) as H0.
    rewrite Z.land_spec in H6, H3, H0. change (Z.testbit 73 6) with true in H6.
    change (Z.testbit 73 3) with true in H3. change (Z.testbit 73 0) with true in H0.
    rewrite andb_true_r in H6, H3, H0. by rewrite H6, H3, H0.
  - destruct (Z.testbit mode 6) eqn:H6, (Z.testbit mode 3) eqn:H3, (Z.testbit mode 0) eqn:H0; try done.
    destruct E. apply Z.bits_inj'. intros i Hi. rewrite Z.land_spec, Z.bits_0.
    destruct (decide (i = 6)) as [->|]; [by rewrite H6|]. destruct (decide (i = 3)) as [->|]; [by rewrite H3|].
    destruct (decide (i = 0)) as [->|]; [by rewrite H0|].
    apply andb_false_intro2. destruct (decide (i < 7)) as [Hlt|].
    + assert (i = 1 ∨ i = 2 ∨ i = 4 ∨ i = 5) as [-> |[-> |[-> | ->]]] by lia; done.
    + apply (Z.bounded_iff_bits_nonneg 7 73); lia.
Qed.

Lemma perm_bits_permitted r uid gid k :
  Z.testbit (perm_bits (i_mode r) (i_uid r) (i_gid r) uid gid) (kind_bit k) = permitted r uid gid k.
Proof.
  unfold perm_bits, permitted. destruct (Z.eqb_spec uid SU_UID).
  - rewrite decide_True by done. rewrite x_bits. unfold is_directory, mode_bit. simpl kind_bit.
    rewrite <- !orb_assoc. change (3 * 2 + 0) with 6. change (3 * 1 + 0) with 3. change (3 * 0 + 0) with 0.
    destruct (_ || _); destruct k; done.
  - rewrite decide_False by done. rewrite Z.land_spec, rwx_bits, andb_true_r.
    pose proof (kind_bit_range k). rewrite Z.shiftr_spec by lia. unfold mode_bit, user_class.
    destruct (Z.eqb_spec uid (i_uid r)); [rewrite decide_True by done; f_equal; lia|].
    rewrite decide_False by done.
    destruct (Z.eqb_spec gid (i_gid r)); [rewrite decide_True by done; f_equal; lia|].
    rewrite decide_False by done. f_equal; lia.
Qed.

(** A set of accesses is within a set of permissions bit by bit. *)
Lemma within_bits perm access :
  0 ≤ access < 8 → Z.lor perm access = perm ↔ ∀ k, wants access k = true → Z.testbit perm (kind_bit k) = true.
Proof.
  intros Ha. split.
  - intros E k Hk. rewrite <- E, Z.lor_spec. unfold wants in Hk. by rewrite Hk, orb_true_r.
  - intros H. apply Z.bits_inj'. intros i Hi. rewrite Z.lor_spec.
    destruct (Z.testbit access i) eqn:E; [|by rewrite orb_false_r].
    rewrite orb_true_r. symmetry. destruct (decide (i < 3)).
    + assert (i = 0 ∨ i = 1 ∨ i = 2) as [-> |[-> | ->]] by lia;
        [apply (H EXECUTE)|apply (H WRITE_IT)|apply (H READ_IT)]; done.
    + assert (Z.testbit access i = false); [|congruence].
      apply (Z.bounded_iff_bits_nonneg 3 access); lia.
Qed.

Section spec.
Context {cfg : Config} {krn : Kernel}.
Implicit Types s : st.

(** The user [forbidden] asks for: the real one in the call [access], else the
    effective one. *)
Definition asking_uid (s : st) (p : fproc) : Z :=
  if decide (call_nr (glo s) = ACCESS) then fp_realuid p else fp_effuid p.
Definition asking_gid (s : st) (p : fproc) : Z :=
  if decide (call_nr (glo s) = ACCESS) then fp_realgid p else fp_effgid p.

Definition refused (s : st) (r : inode) (p : fproc) (access : Z) (k : access_kind) : Prop :=
  wants access k = true ∧ permitted r (asking_uid s p) (asking_gid s p) k = false.

Lemma forbidden_ok s rip r sp sup p access :
  inodes (tabs s) !! rip = Some r → i_mount r = false →
  i_sp r = Some sp → supers (tabs s) !! sp = Some sup →
  fprocs (tabs s) !! fp (glo s) = Some p → 0 ≤ access < 8 →
  wp (forbidden rip access) (λ res s', s' = s ∧
    ((res = EACCES ∧ ∃ k, refused s r p access k) ∨
     (res = EROFS ∧ (∀ k, ¬ refused s r p access k) ∧ wants access WRITE_IT = true ∧ s_rd_only sup ≠ 0) ∨
     (res = OK ∧ (∀ k, ¬ refused s r p access k) ∧ (wants access WRITE_IT = true → s_rd_only sup = 0)))) s.
Proof.
  intros Hr Hm Hsp Hsup Hp Ha. unfold forbidden, forbidden_target. wp_pure. wp_pure. eapply wp_rd; [exact Hr|].
  rewrite Hm. cbn [negb]. wp_pure. wp_pure. eapply wp_rd; [exact Hr|]. wp_pure. wp_pure. wp_pure. wp_pure.
  wp_pure. eapply wp_rd; [exact Hp|]. cbv zeta.
  assert (∀ A (x y : A), (if call_nr (glo s) =? ACCESS then x else y) =
    if decide (call_nr (glo s) = ACCESS) then x else y) as Eif.
  { intros A x y. destruct (Z.eqb_spec (call_nr (glo s)) ACCESS); by case_decide. }
  rewrite !Eif. fold (asking_uid s p) (asking_gid s p).
  set (perm := perm_bits _ _ _ _ _). pose proof (within_bits perm access Ha) as Hin.
  assert ((∀ k, wants access k = true → Z.testbit perm (kind_bit k) = true) ↔
          ∀ k, ¬ refused s r p access k) as Hperm.
  { unfold perm. split; intros H k.
    - intros [Hw Hk]. specialize (H k Hw). rewrite perm_bits_permitted in H. congruence.
    - intros Hw. rewrite perm_bits_permitted. destruct (permitted _ _ _ k) eqn:E; [done|].
      destruct (H k). by split. }
  assert (has access W_BIT = wants access WRITE_IT) as Ew by (by apply (has_bit access 1)).
  wp_pure. destruct (Z.eqb_spec (Z.lor perm access) perm) as [E|E]; cbn [negb].
  - pose proof (proj1 Hperm (proj1 Hin E)) as Hall. rewrite Ew. destruct (wants access WRITE_IT) eqn:Hw.
    + unfold read_only, sp_of. wp_pure. wp_pure. eapply wp_rd; [exact Hr|]. wp_pure.
      eapply wp_deref; [exact Hsp|]. eapply wp_rd; [exact Hsup|]. wp_pure. wp_pure.
      rewrite Nat.eqb_refl. cbn [negb]. apply wp_when; [done|]. intros _. wp_pure. split; [done|].
      unfold truth. destruct (Z.eqb_spec (s_rd_only sup) 0); simpl; [right; right|right; left]; done.
    + wp_pure. wp_pure. rewrite Nat.eqb_refl. apply wp_when; [done|]. intros _. wp_pure.
      split; [done|]. right; right. done.
  - wp_pure. wp_pure. rewrite Nat.eqb_refl. apply wp_when; [done|]. intros _. wp_pure.
    split; [done|]. left. split; [done|].
    destruct (decide (Exists (λ k, wants access k = true ∧
        permitted r (asking_uid s p) (asking_gid s p) k = false) [EXECUTE; WRITE_IT; READ_IT])) as [Hex|Hno].
    { apply Exists_exists in Hex as (k & _ & Hk). by exists k. }
    destruct E. apply (proj2 Hin), (proj2 Hperm). intros k Hk. apply Hno, Exists_exists. exists k.
    split; [|done]. destruct k; repeat constructor.
Qed.

(** C8: forbidden, on a file nothing is mounted on, answers EACCES exactly when
    a wanted access is not among those the mode grants to the user (the owner's
    bits for the owner, else the group's for the group, else the others'; the
    super user lacks only the execution of a file nobody may execute), EROFS when
    all are granted, writing is wanted and the file system is read-only, and else
    OK; nothing changes. *)
Theorem forbidden_contract s rip r sp sup p access :
  inodes (tabs s) !! rip = Some r → i_mount r = false →
  i_sp r = Some sp → supers (tabs s) !! sp = Some sup →
  fprocs (tabs s) !! fp (glo s) = Some p → 0 ≤ access < 8 →
  wp (forbidden rip access) (λ res s', s' = s ∧
    ((res = EACCES ∧ ∃ k, refused s r p access k) ∨
     (res = EROFS ∧ (∀ k, ¬ refused s r p access k) ∧ wants access WRITE_IT = true ∧ s_rd_only sup ≠ 0) ∨
     (res = OK ∧ (∀ k, ¬ refused s r p access k) ∧ (wants access WRITE_IT = true → s_rd_only sup = 0)))) s.
Proof. apply forbidden_ok. Qed.
End spec.
