(* ===== verification/ProcessSpec.v ===== *)
(** Suspended callers: what [suspend] keeps of a call, when [revive] lets it go
    on, and how [get_work] restarts it.  pipe.c: who is released from a pipe, and how much
    may be written to it. *)

From S2P Require Import Prelude Machine State Monad Process Device SuperTable Cache Inode FileMap Filedes SelectTable Pipe Main.

Definition revived (p : fproc) : Prop := fp_revived p = true.
#[global] Instance revived_dec p : Decision (revived p).
Proof. unfold revived. apply _. Defined.

Section spec.
Context {cfg : Config} {krn : Kernel}.
Implicit Types (s : st) (p : fproc).

(** [reviving] counts the processes to be revived, and these are suspended. *)
Record reviving_ok (s : st) : Prop := {
  ro_length : length (fprocs (tabs s)) = NR_PROCS;
  ro_count : reviving (glo s) = count revived (fprocs (tabs s));
  ro_susp i p : fprocs (tabs s) !! i = Some p → revived p → fp_suspended p = true
}.

(** The state with the slot [i] of the process table changed. *)
Definition with_proc (i : nat) (p : fproc) (s : st) : st := with_table (<[i := p]> (fprocs (tabs s))) s.

Lemma reviving_ok_with s s' i p p' :
  reviving_ok s → fprocs (tabs s) !! i = Some p → fprocs (tabs s') = <[i := p']> (fprocs (tabs s)) →
  reviving (glo s') = reviving (glo s) - count_if revived p + count_if revived p' →
  (revived p' → fp_suspended p' = true) → reviving_ok s'.
Proof.
  intros [Hlen Hc Hs] Hp E Er Hp'. split; rewrite E.
  - by rewrite length_insert.
  - by rewrite (count_insert revived _ _ p), Er, Hc.
  - intros j q Hj. apply list_lookup_insert_Some in Hj as [(_ & <- & _)|[_ Hj]]; [done|by eapply Hs].
Qed.

(** The reply [revive] sends: the descriptor of an open, the result of a select
    or of a device. *)
Definition revive_result (p : fproc) (returned : Z) : Z :=
  if - fp_task p =? XPOPEN then Z.shiftr (fp_fd p) 8 else returned.

(** The process after [revive]. *)
Definition waits_again (p : fproc) : bool := (- fp_task p =? XPIPE) || (- fp_task p =? XLOCK).
Definition woken (p : fproc) (returned : Z) : fproc :=
  if negb (fp_suspended p) || fp_revived p then p
  else if waits_again p then p <| fp_revived := true |>
  else if (- fp_task p =? XPOPEN) || (- fp_task p =? XSELECT) then p <| fp_suspended := false |>
  else p <| fp_suspended := false |> <| fp_nbytes := returned |>.
(** It is answered now, and not when it runs again. *)
Definition answered (p : fproc) : bool := fp_suspended p && negb (fp_revived p) && negb (waits_again p).

Lemma revive_ok s i p returned :
  reviving_ok s → (i < NR_PROCS)%nat → fprocs (tabs s) !! i = Some p →
  wp (revive (Z.of_nat i) returned) (λ _ s', reviving_ok s' ∧
    tabs s' = tabs (with_proc i (woken p returned) s) ∧ cache s' = cache s ∧
    (if answered p then
       m_type (m_out (glo s')) = revive_result p returned ∧
       kern s' = (k_send (Z.of_nat i) (m_out (glo s')) (kern s)).2
     else kern s' = kern s ∧ m_out (glo s') = m_out (glo s)) ∧
    glo s' = (glo s) <| reviving := reviving (glo s') |> <| m_out := m_out (glo s') |>) s.
Proof.
  intros Hok Hi Hp. pose proof (ro_length _ Hok) as Hlen. unfold revive.
  destruct (Z.ltb_spec (Z.of_nat i) 0); [lia|]. destruct (Z.leb_spec (Z.of_nat NR_PROCS) (Z.of_nat i)); [lia|].
  cbn [orb]. rewrite Nat2Z.id. wp_pure. eapply wp_rd; [exact Hp|]. wp_pure. eapply wp_rd; [exact Hp|].
  unfold woken, answered. destruct (negb (fp_suspended p) || fp_revived p) eqn:Ew.
  { assert (fp_suspended p && negb (fp_revived p) = false) as ->
      by (by destruct (fp_suspended p), (fp_revived p)).
    cbn [andb]. wp_pure. split_and!; [done| |done|done|done|by destruct s as [? ? ? []]].
    unfold with_proc. rewrite list_insert_id by done. by destruct s as [? ? [] ?]. }
  apply orb_false_iff in Ew as [Es%negb_false_iff Er]. rewrite Es, Er. cbn [andb negb].
  assert (count_if revived p = 0) as E0 by (apply count_if_False; unfold revived; congruence).
  wp_pure. eapply wp_rd; [exact Hp|]. unfold waits_again, revive_result.
  destruct ((- fp_task p =? XPIPE) || (- fp_task p =? XLOCK)); cbn [negb].
  { wp_pure. eapply wp_wr; [exact Hp|]. wp_pure.
    split_and!; [|done|done|done|done|by destruct s as [? ? ? []]].
    eapply (reviving_ok_with s _ i p (p <| fp_revived := true |>)); [done|done|done| |done].
    rewrite E0, count_if_True by done. simpl. lia. }
  assert (∀ p', fp_revived p' = false → reviving_ok (with_proc i p' s)) as Hok'.
  { intros p' Ep'. eapply (reviving_ok_with s _ i p p'); [done|done|done| |by unfold revived; rewrite Ep'].
    rewrite E0, count_if_False by (unfold revived; congruence). simpl. lia. }
  assert (∀ p' result, fp_revived p' = false →
    wp (reply (Z.of_nat i) result) (λ _ s', reviving_ok s' ∧ tabs s' = tabs (with_proc i p' s) ∧
      cache s' = cache s ∧ (m_type (m_out (glo s')) = result ∧
        kern s' = (k_send (Z.of_nat i) (m_out (glo s')) (kern s)).2) ∧
      glo s' = (glo s) <| reviving := reviving (glo s') |> <| m_out := m_out (glo s') |>)
      (with_proc i p' s)) as Hreply.
  { intros p' result Ep'. destruct (Hok' p' Ep') as [H1 H2 H3]. unfold reply. wp_pure. wp_pure. wp_pure. wp_pure.
    wp_pure. eapply wp_kcall; [by apply surjective_pairing|]. wp_pure.
    split_and!; [by split|done|done|done|done|by destruct s as [? ? ? []]]. }
  assert (i < length (fprocs (tabs s)))%nat as Hlt by by eapply lookup_lt_Some.
  wp_pure. eapply wp_wr; [exact Hp|].
  destruct (- fp_task p =? XPOPEN); cbn [orb].
  { wp_pure. apply (wp_rd_with _ (fprocs (tabs s))); [done|]. by apply Hreply. }
  destruct (- fp_task p =? XSELECT); [by apply Hreply|].
  wp_pure. apply (wp_wr_with (fprocs (tabs s))); [done|]. by apply Hreply.
Qed.

(** * [lock_revive] *)

Definition waits_for_lock (p : fproc) : bool := fp_suspended p && (- fp_task p =? XLOCK).
Definition lock_woken (p : fproc) : fproc := if waits_for_lock p then p <| fp_revived := true |> else p.

(** Only the processes, and the count of those to be revived, change. *)
Record procs_only (s s' : st) : Prop := {
  pr_kern : kern s' = kern s;
  pr_cache : cache s' = cache s;
  pr_tabs : tabs s' = (tabs s) <| fprocs := fprocs (tabs s') |>;
  pr_glo : glo s' = (glo s) <| reviving := reviving (glo s') |>
}.

Lemma procs_only_refl s : procs_only s s.
Proof. destruct s as [k c [] []]. by split. Qed.

Lemma procs_only_trans s1 s2 s3 : procs_only s1 s2 → procs_only s2 s3 → procs_only s1 s3.
Proof.
  intros [K1 C1 T1 G1] [K2 C2 T2 G2]. split; [congruence|congruence| |].
  - rewrite T2, T1. by destruct (tabs s1).
  - rewrite G2, G1. by destruct (glo s1).
Qed.

Lemma lock_wake_spec s i p :
  reviving_ok s → (i < NR_PROCS)%nat → fprocs (tabs s) !! i = Some p →
  wp (t ← rd fp_task i; susp ← rd fp_suspended i; when (susp && (- t =? XLOCK)) (revive (Z.of_nat i) 0))
    (λ _ s', reviving_ok s' ∧ procs_only s s' ∧ tabs s' = tabs (with_proc i (lock_woken p) s)) s.
Proof.
  intros Hok Hi Hp. assert (tabs s = tabs (with_proc i p s)) as Hsame.
  { unfold with_proc. rewrite list_insert_id by done. by destruct s as [? ? [] ?]. }
  wp_pure. eapply wp_rd; [exact Hp|]. wp_pure. eapply wp_rd; [exact Hp|].
  apply wp_when; intros Hw; unfold lock_woken, waits_for_lock; rewrite Hw.
  2:{ split; [done|]. split; [apply procs_only_refl|exact Hsame]. }
  apply andb_prop in Hw as [Hsu Ht]. eapply wp_mono; [by apply (revive_ok s i p)|].
  intros [] s' (Hok' & Et & Ec & Ek & Eg). unfold answered, woken, waits_again in *.
  rewrite Hsu, Ht, orb_true_r in Ek. rewrite Hsu, Ht, orb_true_r in Et. cbn [negb orb andb] in *.
  rewrite andb_false_r in Ek. destruct Ek as [Ek Em]. split; [done|]. split.
  - split; [done|done| |].
    + rewrite Et. by destruct s as [? ? [] ?].
    + rewrite Eg, Em. by destruct (glo s).
  - rewrite Et. destruct (fp_revived p) eqn:Er; [|done]. f_equal. destruct p. simpl in *. by subst.
Qed.

Lemma lock_revive_ok s :
  reviving_ok s → wp lock_revive (λ _ s', reviving_ok s' ∧ procs_only s s' ∧
    ∀ i p, fprocs (tabs s) !! i = Some p →
      fprocs (tabs s') !! i = Some (if decide (INIT_PROC_NR < i)%nat then lock_woken p else p)) s.
Proof.
  intros Hok. pose proof (ro_length _ Hok) as Hlen. unfold lock_revive. eapply wp_mono.
  { apply (wp_for_each _ _ (λ pre s', reviving_ok s' ∧ procs_only s s' ∧
      ∀ i p, fprocs (tabs s) !! i = Some p →
        fprocs (tabs s') !! i = Some (if decide (i ∈ pre) then lock_woken p else p))).
    - split; [done|]. split; [apply procs_only_refl|]. intros i p Hp.
      by rewrite decide_False by apply not_elem_of_nil.
    - intros pre j post s1 Hseq (Hok1 & H1 & Hfp).
      assert (NoDup (pre ++ j :: post)) as Hnd by (rewrite <- Hseq; apply NoDup_seq).
      assert (j ∉ pre) as Hj by (apply NoDup_app in Hnd as (_ & Hd & _); intros Hin; apply (Hd j Hin); by left).
      assert (j < NR_PROCS)%nat as Hlt.
      { assert (j ∈ seq (INIT_PROC_NR + 1) (NR_PROCS - (INIT_PROC_NR + 1))) as Hin
          by (rewrite Hseq; apply elem_of_app; right; by left).
        apply elem_of_seq in Hin. unfold NR_PROCS, INIT_PROC_NR in *. lia. }
      destruct (lookup_lt_is_Some_2 (fprocs (tabs s)) j) as [p Hp]; [by rewrite Hlen|].
      pose proof (Hfp j p Hp) as Hp1. rewrite decide_False in Hp1 by done.
      eapply wp_mono; [by apply (lock_wake_spec s1 j p)|]. intros [] s2 (Hok2 & H2 & Et).
      split; [done|]. split; [by eapply procs_only_trans|]. intros i q Hq. rewrite Et. simpl.
      destruct (decide (i = j)) as [->|Hne].
      + rewrite list_lookup_insert_eq by by eapply lookup_lt_Some.
        rewrite decide_True by (apply elem_of_app; right; by left). congruence.
      + rewrite list_lookup_insert_ne, (Hfp i q) by done. f_equal.
        destruct (decide (i ∈ pre)); [rewrite decide_True; [done|apply elem_of_app; by left]|].
        rewrite decide_False; [done|]. by intros [?|[->|?%not_elem_of_nil]%elem_of_cons]%elem_of_app. }
  intros [] s' (Hok' & H' & Hfp). split; [done|]. split; [done|]. intros i p Hp. rewrite (Hfp i p Hp).
  apply lookup_lt_Some in Hp. f_equal.
  repeat case_decide; try done; rewrite elem_of_seq in *; unfold INIT_PROC_NR, NR_PROCS in *; lia.
Qed.

(** * Restarting a call *)

(** The process [i] has been suspended in the call [call] with the parameters of
    [m]. *)
Definition suspended_in (i : nat) (m : message) (call : Z) (p : fproc) : Prop :=
  fp_suspended p = true ∧ Z.land (Z.shiftr (fp_fd p) 8) BYTE = in_fd m ∧
  Z.land (fp_fd p) BYTE = call ∧ fp_buffer p = m1_p1 m ∧ fp_nbytes p = m1_i2 m.

Lemma fd_call_packed fd call :
  0 ≤ fd < 2 ^ 8 → 0 ≤ call < 2 ^ 8 →
  Z.land (Z.shiftr (Z.lor (i32 (Z.shiftl fd 8)) call) 8) BYTE = fd ∧
  Z.land (Z.lor (i32 (Z.shiftl fd 8)) call) BYTE = call.
Proof.
  intros Hfd Hcall. unfold BYTE. change 255 with (2 ^ 8 - 1). rewrite !land_mask by lia.
  rewrite Z.shiftl_mul_pow2 by lia. rewrite i32_id by lia.
  assert (Z.lor (fd * 2 ^ 8) call = fd * 2 ^ 8 + call) as ->.
  { symmetry. rewrite <- Z.shiftl_mul_pow2 by lia. apply Z.add_nocarry_lor.
    apply Z.bits_inj'. intros n Hn. rewrite Z.land_spec, Z.bits_0, Z.shiftl_spec by done.
    destruct (decide (n < 8)); [by rewrite Z.testbit_neg_r by lia|].
    rewrite (Z.bits_above_log2 call n), andb_false_r; [done|lia|].
    destruct (decide (call = 0)) as [->|]; [simpl; lia|].
    apply Z.log2_lt_pow2; [lia|]. assert (2 ^ 8 ≤ 2 ^ n) by (apply Z.pow_le_mono_r; lia). lia. }
  rewrite Z.shiftr_div_pow2 by lia. zlia.
Qed.

(** [suspend] keeps what is needed to restart the call. *)
Lemma suspend_ok s i p task :
  reviving_ok s → fp (glo s) = i → fprocs (tabs s) !! i = Some p → fp_revived p = false →
  - 2 ^ 7 < task < 2 ^ 7 → 0 ≤ in_fd (m_in (glo s)) < 2 ^ 8 → 0 ≤ call_nr (glo s) < 2 ^ 8 →
  wp (suspend task) (λ _ s', reviving_ok s' ∧ ∃ p',
    suspended_in i (m_in (glo s)) (call_nr (glo s)) p' ∧ fp_task p' = - task ∧ fp_revived p' = false ∧
    tabs s' = tabs (with_proc i p' s) ∧ cache s' = cache s ∧ kern s' = kern s ∧
    glo s' = (glo s) <| susp_count := susp_count (glo s') |>) s.
Proof.
  intros Hok Hfp Hp Hrev Htask Hfd Hcall. destruct (fd_call_packed _ _ Hfd Hcall) as [E1 E2].
  assert (i < length (fprocs (tabs s)))%nat as Hlt by by eapply lookup_lt_Some.
  assert (∀ susp p', suspended_in i (m_in (glo s)) (call_nr (glo s)) p' → fp_task p' = - task →
    fp_revived p' = false →
    let s' := with_proc i p' (s <| glo ::= λ g, g <| susp_count := susp |> |>) in
    reviving_ok s' ∧ ∃ p', suspended_in i (m_in (glo s)) (call_nr (glo s)) p' ∧ fp_task p' = - task ∧
      fp_revived p' = false ∧ tabs s' = tabs (with_proc i p' s) ∧ cache s' = cache s ∧ kern s' = kern s ∧
      glo s' = (glo s) <| susp_count := susp_count (glo s') |>) as Hdone.
  { intros susp p' Hsu Htask' Hrev' s'. split; [|by exists p'].
    eapply (reviving_ok_with s _ i p p'); [done|done|done| |by intros _; apply Hsu].
    rewrite !count_if_False by (unfold revived; congruence). simpl. lia. }
  unfold suspend. apply wp_bind.
  assert (∀ susp, let s1 := s <| glo ::= λ g, g <| susp_count := susp |> |> in
    wp (p ← rg fp; m ← rg m_in; call ← rg call_nr;
        wr p (λ r, r <| fp_suspended := true |>);;
        wr p (λ r, r <| fp_fd := Z.lor (i32 (Z.shiftl (in_fd m) 8)) call |>);;
        wr p (λ r, r <| fp_task := i8 (- task) |>);;
        if task =? XLOCK then wr p (λ r, r <| fp_buffer := in_name1 m |> <| fp_nbytes := in_request m |>)
        else wr p (λ r, r <| fp_buffer := in_buffer m |> <| fp_nbytes := in_nbytes m |>))
      (λ _ s', reviving_ok s' ∧ ∃ p', suspended_in i (m_in (glo s)) (call_nr (glo s)) p' ∧
        fp_task p' = - task ∧ fp_revived p' = false ∧ tabs s' = tabs (with_proc i p' s) ∧
        cache s' = cache s ∧ kern s' = kern s ∧
        glo s' = (glo s) <| susp_count := susp_count (glo s') |>) s1) as Hrest.
  { intros susp s1. do 6 wp_pure. change (fp (glo s1)) with (fp (glo s)). rewrite Hfp.
    wp_pure. eapply wp_wr; [exact Hp|]. wp_pure. apply (wp_wr_with (fprocs (tabs s1))); [done|].
    wp_pure. apply (wp_wr_with (fprocs (tabs s1))); [done|]. rewrite (i8_id (- task)) by lia.
    case_match; apply (wp_wr_with (fprocs (tabs s1))); try done; by apply Hdone. }
  apply wp_when; intros _.
  - wp_pure. apply (Hrest (1 + susp_count (glo s))).
  - specialize (Hrest (susp_count (glo s))).
    replace (s <| glo ::= λ g, g <| susp_count := susp_count (glo s) |> |>) with s in Hrest; [done|].
    by destruct s as [? ? ? []].
Qed.

(** The server goes on with the call the process was suspended in. *)
Definition restarted (s s' : st) (i : nat) (p : fproc) : Prop :=
  who (glo s') = Z.of_nat i ∧ call_nr (glo s') = Z.land (fp_fd p) BYTE ∧
  m1_i1 (m_in (glo s')) = Z.land (Z.shiftr (fp_fd p) 8) BYTE ∧
  m1_p1 (m_in (glo s')) = fp_buffer p ∧ m1_i2 (m_in (glo s')) = fp_nbytes p ∧
  tabs s' = tabs (with_proc i (p <| fp_suspended := false |> <| fp_revived := false |>) s) ∧
  reviving (glo s') = reviving (glo s) - 1.

Lemma get_work_ok s :
  reviving_ok s → reviving (glo s) ≠ 0 →
  wp get_work (λ _ s', reviving_ok s' ∧ ∃ i p, fprocs (tabs s) !! i = Some p ∧ revived p ∧
    (∀ j q, (j < i)%nat → fprocs (tabs s) !! j = Some q → ¬ revived q) ∧ restarted s s' i p) s.
Proof.
  intros Hok Hne. pose proof (ro_length _ Hok) as Hlen. unfold get_work. do 2 wp_pure.
  apply Z.eqb_neq in Hne as Hne'. rewrite Hne'. cbn [negb]. do 2 wp_pure.
  rewrite take_ge by lia. destruct (list_find _ (fprocs (tabs s))) as [[i p]|] eqn:Ef.
  - apply list_find_Some in Ef as (Hp & Hr & Hfirst).
    do 3 wp_pure. eapply wp_wr; [exact Hp|]. wp_pure. split.
    + eapply (reviving_ok_with s _ i p (p <| fp_suspended := false |> <| fp_revived := false |>)); [done|done|done| |done].
      rewrite count_if_True, count_if_False by done. simpl. lia.
    + exists i, p. split_and!; [done|done|by intros j q Hj Hq; apply (Hfirst j)|by split_and!].
  - exfalso. apply list_find_None in Ef. rewrite (ro_count _ Hok) in Hne.
    assert (0 < count revived (fprocs (tabs s))) as (j & q & Hq & Hr)%count_pos by (unfold count in *; lia).
    rewrite Forall_lookup in Ef. by apply (Ef j q).
Qed.

Lemma with_proc_tabs i p p' s s' :
  tabs s' = tabs (with_proc i p s) → tabs (with_proc i p' s') = tabs (with_proc i p' s).
Proof.
  intros E. simpl. rewrite E. unfold with_proc. simpl. by rewrite list_insert_insert_eq.
Qed.
End spec.

Section contracts.
Context {cfg : Config} {krn : Kernel}.

(** [revive] treats a suspended process by what it waits for: one that hangs
    on a pipe or a lock is marked, counted in [reviving] and not answered, every
    other one is taken off suspension and answered at once; a process that is not
    suspended or is marked already stays as it is. *)
Theorem revive_contract s i p returned :
  reviving_ok s → (i < NR_PROCS)%nat → fprocs (tabs s) !! i = Some p →
  wp (revive (Z.of_nat i) returned) (λ _ s', reviving_ok s' ∧
    tabs s' = tabs (with_proc i (woken p returned) s) ∧ cache s' = cache s ∧
    (if answered p then
       m_type (m_out (glo s')) = revive_result p returned ∧
       kern s' = (k_send (Z.of_nat i) (m_out (glo s')) (kern s)).2
     else kern s' = kern s ∧ m_out (glo s') = m_out (glo s)) ∧
    glo s' = (glo s) <| reviving := reviving (glo s') |> <| m_out := m_out (glo s') |>) s.
Proof. apply revive_ok. Qed.

(** while [reviving] is not 0 [get_work] finds a process to restart and does
    not wait for a message: it takes the first one that is marked, unmarks it,
    counts it off, and the panic of [get_work] is never reached. *)
Theorem get_work_contract s :
  reviving_ok s → reviving (glo s) ≠ 0 →
  wp get_work (λ _ s', reviving_ok s' ∧ ∃ i p, fprocs (tabs s) !! i = Some p ∧ revived p ∧
    (∀ j q, (j < i)%nat → fprocs (tabs s) !! j = Some q → ¬ revived q) ∧ restarted s s' i p) s.
Proof. apply get_work_ok. Qed.

(** What the server does between two steps of a restart: calls of other processes are
    served, any message may come and every global and table may change, but not the
    slot of the process. *)
Definition kept_slot (i : nat) (s s' : st) : Prop :=
  reviving_ok s' ∧ fprocs (tabs s') !! i = fprocs (tabs s) !! i.

(** C35: a call that hangs on a pipe or a lock is restarted as it was made, whatever is
    served in the meantime: after [suspend], and other calls, [revive], and other calls,
    [get_work] restores the caller, the call number, the file descriptor, the buffer and
    the count of the original message when it comes to the process (no slot before it is
    marked), and the process hangs no more. *)
Theorem suspend_revive_restart s i p task returned :
  reviving_ok s → fp (glo s) = i → fprocs (tabs s) !! i = Some p → fp_revived p = false →
  task = XPIPE ∨ task = XLOCK → 0 ≤ in_fd (m_in (glo s)) < 2 ^ 8 → 0 ≤ call_nr (glo s) < 2 ^ 8 →
  wp (suspend task) (λ _ s1, reviving_ok s1 ∧ ∀ s2, kept_slot i s1 s2 →
    wp (revive (Z.of_nat i) returned) (λ _ s3, reviving_ok s3 ∧ reviving (glo s3) ≠ 0 ∧ ∀ s4, kept_slot i s3 s4 →
      (∀ j q, (j < i)%nat → fprocs (tabs s4) !! j = Some q → ¬ revived q) →
      wp get_work (λ _ s5, reviving_ok s5 ∧ reviving (glo s5) = reviving (glo s4) - 1 ∧
        who (glo s5) = Z.of_nat i ∧ call_nr (glo s5) = call_nr (glo s) ∧
        m1_i1 (m_in (glo s5)) = m1_i1 (m_in (glo s)) ∧ m1_p1 (m_in (glo s5)) = m1_p1 (m_in (glo s)) ∧
        m1_i2 (m_in (glo s5)) = m1_i2 (m_in (glo s)) ∧
        ∃ p', fprocs (tabs s5) !! i = Some p' ∧ fp_suspended p' = false ∧ fp_revived p' = false) s4) s2) s.
Proof.
  intros Hok Hfp Hp Hrev Htask Hfd Hcall. pose proof (lookup_lt_Some _ _ _ Hp) as Hi.
  eapply wp_mono; [apply (suspend_ok s i p task); try done; destruct Htask as [-> | ->]; done|].
  intros [] s1 (Hok1&p1&(Hs1&Efd&Ecall&Ebuf&Enb)&Ht1&Hr1&Et1&_). split; [done|]. intros s2 [Hok2 E2].
  assert (fprocs (tabs s2) !! i = Some p1) as Hp2 by (rewrite E2, Et1; by apply list_lookup_insert_eq).
  pose proof (lookup_lt_Some _ _ _ Hp2) as Hi2.
  assert (woken p1 returned = p1 <| fp_revived := true |>) as Ew.
  { unfold woken, waits_again. rewrite Hs1, Hr1, Ht1. by destruct Htask as [-> | ->]. }
  eapply wp_mono; [apply (revive_ok s2 i p1); [done|by rewrite <- (ro_length _ Hok2)|done]|].
  intros [] s3 (Hok3&Et3&_). rewrite Ew in Et3. set (q := p1 <| fp_revived := true |>) in Et3.
  assert (fprocs (tabs s3) !! i = Some q) as Hp3 by (rewrite Et3; by apply list_lookup_insert_eq).
  assert (Hmarked : ∀ s', reviving_ok s' → fprocs (tabs s') !! i = Some q → reviving (glo s') ≠ 0).
  { intros s' Hok' Hq. assert (0 < count revived (fprocs (tabs s'))) by (apply count_pos; by exists i, q).
    rewrite (ro_count _ Hok'). lia. }
  split_and!; [done|by apply Hmarked|]. intros s4 [Hok4 E4] Hfirst. rewrite Hp3 in E4.
  eapply wp_mono; [apply get_work_ok; [done|by apply Hmarked]|].
  intros [] s5 (Hok5&j&x&Hx&Hrx&Hj&(W1&W2&W3&W4&W5&W6&W7)).
  assert (j = i) as ->.
  { destruct (lt_eq_lt_dec j i) as [[|]|]; [by destruct (Hfirst j x)|done|by destruct (Hj i q)]. }
  rewrite E4 in Hx. injection Hx as <-.
  split_and!; [done|done|done|by rewrite W2|by rewrite W3|by rewrite W4|by rewrite W5|].
  rewrite W6. eexists. split; [apply list_lookup_insert_eq; by eapply lookup_lt_Some|done].
Qed.
End contracts.

Section spec.
Context {cfg : Config} {krn : Kernel}.
Implicit Types (s : st) (p : fproc).

(** * [release] *)

(** The slot [p] hangs on the pipe [ip] in the call [call]: the slot of its
    descriptor is open on the pipe. *)
Definition hung_filp (s : st) (p : fproc) : option nat :=
  if Z.shiftr (fp_fd p) 8 <? 0 then None else mjoin (fp_filp p !! Z.to_nat (Z.shiftr (fp_fd p) 8)).
Definition in_call (call : Z) (p : fproc) : bool :=
  fp_suspended p && negb (fp_revived p) && (Z.land (fp_fd p) BYTE =? call).
Definition hanging (s : st) (ip : nat) (call : Z) (p : fproc) : bool :=
  in_call call p &&
  bool_decide ((f ← hung_filp s p; x ← filps (tabs s) !! f; filp_ino x) = Some ip).

(** The processes in the call have open descriptors. *)
Definition hangers_ok (s : st) (call : Z) : Prop := ∀ i p,
  fprocs (tabs s) !! i = Some p → in_call call p = true →
  ∃ f, hung_filp s p = Some f ∧ (f < length (filps (tabs s)))%nat.

Lemma hangs_on_ok s ip call i p :
  hangers_ok s call → fprocs (tabs s) !! i = Some p →
  hangs_on ip call i s = Ret (hanging s ip call p) s.
Proof.
  intros Hok Hp. unfold hangs_on, mbind at 1, M_bind at 1, rd at 1. change (table s) with (fprocs (tabs s)).
  rewrite Hp. unfold hanging. fold (in_call call p). destruct (in_call call p) eqn:E; [|done].
  destruct (Hok i p Hp E) as (f & Hf & Hlen). apply lookup_lt_is_Some in Hlen as [x Hx].
  rewrite Hf. unfold hung_filp in Hf. unfold Process.index.
  destruct (Z.shiftr (fp_fd p) 8 <? 0); [done|].
  destruct (fp_filp p !! Z.to_nat (Z.shiftr (fp_fd p) 8)) as [o|] eqn:Eo; [|done]. simpl in Hf. subst o.
  unfold mbind, M_bind, mret, M_ret. rewrite Eo. simpl. unfold rd.
  change (table s) with (filps (tabs s)). by rewrite Hx.
Qed.

(** The slots among [l] that hang on the pipe; a count that is not positive is no
    limit. *)
Definition hanging_at (s : st) (ip : nat) (call : Z) (i : nat) : bool :=
  from_option (hanging s ip call) false (fprocs (tabs s) !! i).
Definition released (s : st) (ip : nat) (call count : Z) (l : list nat) : list nat :=
  let hs := filter (λ i, hanging_at s ip call i = true) l in
  if decide (count ≤ 0) then hs else take (Z.to_nat count) hs.

Lemma released_cons s ip call count i l :
  released s ip call count (i :: l) =
    if hanging_at s ip call i then
      i :: (if decide (count = 1) then [] else released s ip call (count - 1) l)
    else released s ip call count l.
Proof.
  unfold released. rewrite filter_cons. destruct (hanging_at s ip call i) eqn:E; [|done].
  rewrite (decide_True (P := true = true)) by done. destruct (decide (count ≤ 0)).
  - rewrite decide_False by lia. by rewrite decide_True by lia.
  - destruct (decide (count = 1)) as [->|]; [done|]. rewrite decide_False by lia.
    by replace (Z.to_nat count) with (S (Z.to_nat (count - 1))) by lia.
Qed.

Lemma released_ext s s' ip call count l :
  (∀ i, i ∈ l → hanging_at s' ip call i = hanging_at s ip call i) →
  released s' ip call count l = released s ip call count l.
Proof.
  intros H. unfold released.
  assert (filter (λ i, hanging_at s' ip call i = true) l = filter (λ i, hanging_at s ip call i = true) l) as ->;
    [|done].
  induction l as [|i l IH]; [done|]. rewrite !filter_cons, H by by left.
  rewrite IH; [done|]. intros j Hj. apply H. by right.
Qed.

Lemma released_sub s ip call count l i : i ∈ released s ip call count l → i ∈ l ∧ hanging_at s ip call i = true.
Proof.
  unfold released. intros Hi. assert (i ∈ filter (λ i, hanging_at s ip call i = true) l) as H.
  { case_decide; [done|]. apply list_elem_of_lookup in Hi as [j Hj]. apply lookup_take_Some in Hj as [Hj _].
    by eapply list_elem_of_lookup_2. }
  by apply list_elem_of_filter in H as [? ?].
Qed.

(** What [release] does to the processes of [l] it lets go on. *)
Record release_done (l : list nat) (s s' : st) : Prop := {
  rd_reviving : reviving_ok s';
  rd_procs i p : fprocs (tabs s) !! i = Some p →
    fprocs (tabs s') !! i = Some (if decide (i ∈ l) then woken p 0 else p);
  rd_tabs : tabs s' = (tabs s) <| fprocs := fprocs (tabs s') |>;
  rd_cache : cache s' = cache s;
  rd_susp : susp_count (glo s') = susp_count (glo s) - Z.of_nat (length l);
  rd_glo : glo s' = (glo s) <| susp_count := susp_count (glo s') |> <| reviving := reviving (glo s') |>
    <| m_out := m_out (glo s') |>
}.

Lemma release_none s : reviving_ok s → release_done [] s s.
Proof.
  intros H. split; [done| |by destruct s as [? ? [] ?]|done|simpl; lia|by destruct s as [? ? ? []]].
  intros i p Hp. by rewrite decide_False by apply not_elem_of_nil.
Qed.

Lemma woken_not_in_call call p : in_call call p = true → in_call call (woken p 0) = false.
Proof.
  unfold in_call, woken. intros [[Hs Hr%negb_true_iff]%andb_true_iff _]%andb_true_iff.
  rewrite Hs, Hr. cbn [negb orb]. destruct (waits_again p); simpl; [by rewrite andb_false_r|].
  by destruct (_ || _).
Qed.

(** A slot before those of [l] changed: they hang as they did. *)
Lemma hanging_with s s' ip call i p :
  fprocs (tabs s') = <[i := p]> (fprocs (tabs s)) → filps (tabs s') = filps (tabs s) →
  ∀ j, j ≠ i → hanging_at s' ip call j = hanging_at s ip call j.
Proof.
  intros Ep Ef j Hj. unfold hanging_at. rewrite Ep, list_lookup_insert_ne by done.
  destruct (fprocs (tabs s) !! j) as [q|]; [|done]. simpl. unfold hanging. do 2 f_equal. by rewrite Ef.
Qed.

Lemma hangers_with s s' call i p :
  hangers_ok s call → in_call call p = false →
  fprocs (tabs s') = <[i := p]> (fprocs (tabs s)) → filps (tabs s') = filps (tabs s) → hangers_ok s' call.
Proof.
  intros Hok Hp Ep Ef j q Hq Hc. rewrite Ep in Hq.
  apply list_lookup_insert_Some in Hq as [(_ & <- & _)|[_ Hq]]; [congruence|]. rewrite Ef. by eapply Hok.
Qed.

Lemma release_procs_ok ip call n : ∀ i count s,
  reviving_ok s → hangers_ok s call → (i + n ≤ NR_PROCS)%nat →
  wp (release_procs ip call n i count) (λ _ s', release_done (released s ip call count (seq i n)) s s') s.
Proof.
  induction n as [|n IH]; intros i count s Hok Hh Hn; cbn [release_procs seq].
  { apply wp_ret. unfold released. rewrite filter_nil, take_nil. case_decide; by apply release_none. }
  pose proof (ro_length _ Hok) as Hlen.
  destruct (lookup_lt_is_Some_2 (fprocs (tabs s)) i) as [p Hp]; [lia|].
  wp_pure. eapply wp_run; [by eapply hangs_on_ok|]. rewrite released_cons.
  assert (hanging_at s ip call i = hanging s ip call p) as Eh by (unfold hanging_at; by rewrite Hp).
  rewrite Eh. destruct (hanging s ip call p) eqn:Hhang; [|apply IH; [done|done|lia]].
  apply andb_true_iff in Hhang as [Hc _].
  wp_pure. eapply wp_mono; [apply (revive_ok s i p 0); [done|lia|done]|].
  intros [] s1 (Hok1 & Et1 & Ec1 & _ & Eg1).
  wp_pure. wp_pure. set (s2 := s1 <| glo ::= _ |>).
  assert (reviving_ok s2) as Hok2 by by destruct Hok1.
  assert (fprocs (tabs s2) = <[i := woken p 0]> (fprocs (tabs s))) as Ep2 by (simpl; by rewrite Et1).
  assert (filps (tabs s2) = filps (tabs s)) as Ef2 by (simpl; by rewrite Et1).
  assert (glo s2 = (glo s) <| susp_count := susp_count (glo s) - 1 |> <| reviving := reviving (glo s2) |>
    <| m_out := m_out (glo s2) |>) as Eg2.
  { unfold s2. simpl. rewrite Eg1. by destruct (glo s). }
  assert (∀ l s', release_done l s2 s' → i ∉ l → release_done (i :: l) s s') as Hstep.
  { intros l s' [R1 R2 R3 R4 R5 R6] Hi. split; [done| | | | |].
    - intros j q Hq. destruct (decide (j = i)) as [->|Hne].
      + rewrite (R2 i (woken p 0)).
        * rewrite decide_False, decide_True by (done || by left). congruence.
        * rewrite Ep2. apply list_lookup_insert_eq. by eapply lookup_lt_Some.
      + rewrite (R2 j q) by by rewrite Ep2, list_lookup_insert_ne. f_equal.
        destruct (decide (j ∈ l)); [rewrite decide_True by (by right)|rewrite decide_False]; [done|done|].
        by intros [?|?]%elem_of_cons.
    - rewrite R3. simpl. rewrite Et1. by destruct s as [? ? [] ?].
    - rewrite R4. done.
    - rewrite R5, Eg2. simpl. lia.
    - rewrite R6, Eg2. by destruct (glo s). }
  destruct (Z.eqb_spec (count - 1) 0).
  - rewrite decide_True by lia. apply wp_ret, Hstep; [by apply release_none|apply not_elem_of_nil].
  - rewrite decide_False by lia. eapply wp_mono.
    { apply (IH (S i) (count - 1) s2); [done| |lia].
      eapply hangers_with; [exact Hh|by apply woken_not_in_call|exact Ep2|exact Ef2]. }
    intros [] s' H. rewrite (released_ext s s2) in H.
    + apply Hstep; [exact H|]. intros [Hin _]%released_sub. apply elem_of_seq in Hin. lia.
    + intros j [Hj _]%elem_of_seq. eapply hanging_with; [exact Ep2|exact Ef2|lia].
Qed.

(** No select waits for [op] on the pipe. *)
Definition selects_idle (s : st) (ip : nat) (op : Z) : Prop := ∀ f x,
  filps (tabs s) !! f = Some x → 0 < filp_count x → has (filp_pipe_select_ops x) op = true →
  filp_ino x ≠ Some ip.

Lemma release_selects_idle s ip op :
  length (filps (tabs s)) = NR_FILPS → selects_idle s ip op → wp (release_selects ip op) (λ _ s', s' = s) s.
Proof.
  intros Hlen Hidle. unfold release_selects. eapply wp_mono; [eapply (wp_for_each _ _ (λ _ s', s' = s))|done].
  - done.
  - intros pre f post s1 El ->. assert (f < NR_FILPS)%nat as Hf.
    { assert (f ∈ seq 0 NR_FILPS) as Hin%elem_of_seq by (rewrite El; apply elem_of_app; right; by left). lia. }
    destruct (lookup_lt_is_Some_2 (filps (tabs s)) f) as [x Hx]; [by rewrite Hlen|].
    wp_pure. eapply wp_rd; [exact Hx|]. apply wp_when; [|done].
    intros [[Hc%negb_true_iff%Z.ltb_ge Ho]%andb_true_iff Hi%bool_decide_eq_true]%andb_true_iff.
    exfalso. eapply Hidle; [exact Hx|lia|done|done].
Qed.

(** The operation a call waits for, and the selects that do. *)
Definition call_idle (s : st) (ip : nat) (call : Z) : Prop :=
  (call = READ → selects_idle s ip SEL_RD) ∧ (call = WRITE → selects_idle s ip SEL_WR).

Lemma release_ok s ip call count :
  reviving_ok s → hangers_ok s call → length (filps (tabs s)) = NR_FILPS → call_idle s ip call →
  wp (release ip call count) (λ _ s', release_done (released s ip call count (seq 0 NR_PROCS)) s s') s.
Proof.
  intros Hok Hh Hlen [Hr Hw]. unfold release. wp_pure. apply wp_when; intros Hcall.
  - eapply wp_mono; [apply release_selects_idle; [done|]|].
    + destruct (Z.eqb_spec call READ); [by apply Hr|].
      destruct (Z.eqb_spec call WRITE); [by apply Hw|done].
    + intros [] s1 ->. by apply release_procs_ok.
  - by apply release_procs_ok.
Qed.

(** * [pipe_check] of a writer *)

(** [find_filp] finds the slots a process may use the file through. *)
Definition has_opened (s : st) (rip : nat) (bits : Z) : Prop := ∃ f x,
  filps (tabs s) !! f = Some x ∧ filp_count x ≠ 0 ∧ filp_ino x = Some rip ∧ has (filp_mode x) bits = true.

Lemma find_filp_ok s rip bits :
  wp (find_filp rip bits) (λ r s', s' = s ∧ (r ≠ None ↔ has_opened s rip bits)) s.
Proof.
  unfold find_filp. wp_pure. wp_pure. wp_pure. split; [done|]. split.
  - intros H. destruct (list_find _ _) as [[f x]|] eqn:E; [|done].
    apply list_find_Some in E as (Hx & H3 & _). by exists f, x.
  - intros (f & x & Hx & Hp) E. apply fmap_None, list_find_None in E. rewrite Forall_lookup in E.
    by apply (E f x).
Qed.

(** What may be written now: all of it, or [canwrite] bytes. *)
Definition granted (bytes : Z) (canwrite : option Z) : Z :=
  match canwrite with Some 0 => bytes | Some n => n | None => 0 end.

(** The other tables do not change. *)
Definition procs_changed (s s' : st) : Prop :=
  reviving_ok s' ∧ tabs s' = (tabs s) <| fprocs := fprocs (tabs s') |> ∧ cache s' = cache s.

Lemma release_procs_changed l s s' : release_done l s s' → procs_changed s s'.
Proof. by intros []. Qed.

Lemma pipe_check_write_ok s rip r sp x p oflags bytes position notouch :
  reviving_ok s → hangers_ok s READ → length (filps (tabs s)) = NR_FILPS → selects_idle s rip SEL_RD →
  inodes (tabs s) !! rip = Some r → i_sp r = Some sp → supers (tabs s) !! sp = Some x →
  MIN_BLOCK_SIZE ≤ s_block_size x ≤ MAX_BLOCK_SIZE →
  fprocs (tabs s) !! fp (glo s) = Some p → fp_revived p = false →
  0 ≤ in_fd (m_in (glo s)) < 2 ^ 8 → 0 ≤ call_nr (glo s) < 2 ^ 8 →
  0 < bytes < 2 ^ 31 → 0 ≤ position ≤ PIPE_SIZE (s_block_size x) →
  wp (pipe_check rip WRITING oflags bytes position notouch) (λ '(res, canwrite) s',
    procs_changed s s' ∧
    let size := PIPE_SIZE (s_block_size x) in let n := granted bytes canwrite in
    (res = EPIPE ∧ ¬ has_opened s rip R_BIT ∧
       kern s' = (if notouch then kern s else k_kill (Z.of_nat (fp (glo s))) SIGPIPE (kern s))) ∨
    has_opened s rip R_BIT ∧
    ((res = 1 ∧ n = Z.min bytes (size - position) ∧ 0 < n ∧ (bytes ≤ size → n = bytes)) ∨
     (size < position + bytes ∧
       ((res = EAGAIN ∧ s' = s ∧ has oflags O_NONBLOCK = true ∧ (bytes < size ∨ size < bytes ∧ position = size)) ∨
        (res = SUSPEND ∧ (has oflags O_NONBLOCK = false ∧ (bytes ≤ size ∨ position = size) ∨ bytes = size) ∧
         (if notouch then s' = s else ∃ p',
            fprocs (tabs s') !! fp (glo s) = Some p' ∧ suspended_in (fp (glo s)) (m_in (glo s)) (call_nr (glo s)) p' ∧
            fp_task p' = - XPIPE)))))) s.
Proof.
  intros Hok Hh Hlf Hidle Hr Hsp Hx Hbs Hp Hrev Hfd Hcall Hb Hpos.
  assert (∀ l s', release_done l s s' → procs_changed s s') as Hdone by (intros; by eapply release_procs_changed).
  assert (procs_changed s s) as Hsame by (eapply Hdone, release_none; done).
  assert (∀ count, wp (release rip READ count) (λ _ s', procs_changed s s') s) as Hrelease.
  { intros count. eapply wp_mono; [apply release_ok; [done..|by split]|]. intros [] s'. apply Hdone. }
  unfold pipe_check. wp_pure. wp_pure. wp_pure. eapply wp_mono; [apply find_filp_ok|]. intros o s0 [-> Ho].
  destruct o as [f|]; cycle 1.
  { assert (¬ has_opened s rip R_BIT) as Hno by (intros H; by apply Ho in H).
    wp_pure. wp_pure. wp_pure. apply wp_when; intros Hn; [apply wp_modify|]; wp_pure; (split; [by destruct Hsame as ([] & ? & ?)|]); left;
      by destruct notouch. }
  assert (has_opened s rip R_BIT) as Hyes by by apply Ho.
  unfold sp_of. wp_pure. wp_pure. eapply wp_rd; [exact Hr|]. wp_pure. eapply wp_deref; [exact Hsp|].
  eapply wp_rd; [exact Hx|]. cbv zeta. set (size := PIPE_SIZE (s_block_size x)) in *.
  assert (0 < size < 2 ^ 16) as Hsize.
  { unfold size, PIPE_SIZE, V1_NR_DZONES, MIN_BLOCK_SIZE, MAX_BLOCK_SIZE in *. lia. }
  clearbody size.
  rewrite (u32_id (position + bytes)), (i32_id (size - position)) by lia.
  assert (∀ b count cw (Q : Z * option Z → st → Prop), (∀ s', procs_changed s s' → Q (1, cw) s') →
    wp (when b (release rip READ count);; mret (1, cw)) Q s) as Hone.
  { intros b count cw Q HQ. wp_pure. apply wp_when; intros _.
    - eapply wp_mono; [apply Hrelease|]. intros [] s' Hs'. apply wp_ret. by apply HQ.
    - apply wp_ret. by apply HQ. }
  assert (∀ cw (Q : Z * option Z → st → Prop), (∀ s', procs_changed s s' →
      (if notouch then s' = s else ∃ p', fprocs (tabs s') !! fp (glo s) = Some p' ∧
        suspended_in (fp (glo s)) (m_in (glo s)) (call_nr (glo s)) p' ∧ fp_task p' = - XPIPE) → Q (SUSPEND, cw) s') →
    wp (when (negb notouch) (suspend XPIPE);; mret (SUSPEND, cw)) Q s) as Hsusp.
  { intros cw Q HQ. wp_pure. destruct notouch; [by apply wp_ret, HQ|].
    eapply wp_mono; [by apply (suspend_ok s (fp (glo s)) p XPIPE)|].
    intros [] s' (Hok' & p' & Hsu & Ht & _ & Et & Ec & _). apply wp_ret, HQ.
    - split; [done|]. split; [|done]. rewrite Et. by destruct s as [? ? [] ?].
    - exists p'. split; [|done]. rewrite Et. apply list_lookup_insert_eq. by eapply lookup_lt_Some. }
  destruct (Z.ltb_spec size (position + bytes)) as [Hfull|Hfits]; cycle 1.
  { apply Hone. intros s' Hs'. split; [done|]. right. split; [done|]. left.
    change (granted bytes (Some 0)) with bytes. lia. }
  assert (0 < size - position → granted bytes (Some (size - position)) = size - position) as Hgr.
  { intros Hlt. unfold granted. by destruct (size - position). }
  destruct (has oflags O_NONBLOCK); cbn [andb].
  - destruct (Z.ltb_spec bytes size).
    { wp_pure. split; [done|]. right. split; [done|]. right. split; [done|]. left. auto. }
    destruct (Z.ltb_spec size bytes); cbn [andb].
    + destruct (Z.ltb_spec 0 (size - position)).
      * apply Hone. intros s' Hs'. split; [done|]. right. split; [done|]. left. rewrite Hgr by done. lia.
      * wp_pure. split; [done|]. right. split; [done|]. right. split; [done|]. left.
        split; [done|]. split; [done|]. split; [done|]. right. lia.
    + apply Hsusp. intros s' Hs' Hn. split; [done|]. right. split; [done|]. right. split; [done|]. right.
      split; [done|]. split; [right; lia|done].
  - destruct (Z.ltb_spec size bytes); cbn [andb].
    + destruct (Z.ltb_spec 0 (size - position)).
      * apply (Hone true). intros s' Hs'. split; [done|]. right. split; [done|]. left. rewrite Hgr by done. lia.
      * apply Hsusp. intros s' Hs' Hn. split; [done|]. right. split; [done|]. right. split; [done|]. right.
        split; [done|]. split; [left; split; [done|lia]|done].
    + apply Hsusp. intros s' Hs' Hn. split; [done|]. right. split; [done|]. right. split; [done|]. right.
      split; [done|]. split; [left; split; [done|lia]|done].
Qed.

(** C37: on a pipe that no select waits for, release lets go, in the order of the
    process table, the processes that hang on it in the given call, as many as the
    count says and all of them if it is not positive: they are revived, each one is
    counted off susp_count, and no other process and no other table changes.  (The
    selects that wait for the pipe, which release calls back first, are not part of
    this.) *)
Theorem release_contract s ip call count :
  reviving_ok s → hangers_ok s call → length (filps (tabs s)) = NR_FILPS → call_idle s ip call →
  wp (release ip call count) (λ _ s', release_done (released s ip call count (seq 0 NR_PROCS)) s s') s.
Proof. apply release_ok. Qed.

(** C9: what pipe_check grants a writer, of a positive count of bytes at a position
    inside a pipe that no select waits to read from, always fits the pipe: EPIPE and
    SIGPIPE exactly if there is no reader; else the smaller of the count and the room
    in the pipe, which is never 0 and never less than the count for a write of at most
    PIPE_SIZE bytes (it is not split); EAGAIN only with O_NONBLOCK; and a writer is
    suspended, in a state its call can be restarted from, only if the pipe is too full
    and it either may be or writes exactly PIPE_SIZE bytes. *)
Theorem pipe_check_contract s rip r sp x p oflags bytes position notouch :
  reviving_ok s → hangers_ok s READ → length (filps (tabs s)) = NR_FILPS → selects_idle s rip SEL_RD →
  inodes (tabs s) !! rip = Some r → i_sp r = Some sp → supers (tabs s) !! sp = Some x →
  MIN_BLOCK_SIZE ≤ s_block_size x ≤ MAX_BLOCK_SIZE →
  fprocs (tabs s) !! fp (glo s) = Some p → fp_revived p = false →
  0 ≤ in_fd (m_in (glo s)) < 2 ^ 8 → 0 ≤ call_nr (glo s) < 2 ^ 8 →
  0 < bytes < 2 ^ 31 → 0 ≤ position ≤ PIPE_SIZE (s_block_size x) →
  wp (pipe_check rip WRITING oflags bytes position notouch) (λ '(res, canwrite) s',
    procs_changed s s' ∧
    let size := PIPE_SIZE (s_block_size x) in let n := granted bytes canwrite in
    (res = EPIPE ∧ ¬ has_opened s rip R_BIT ∧
       kern s' = (if notouch then kern s else k_kill (Z.of_nat (fp (glo s))) SIGPIPE (kern s))) ∨
    has_opened s rip R_BIT ∧
    ((res = 1 ∧ n = Z.min bytes (size - position) ∧ 0 < n ∧ (bytes ≤ size → n = bytes)) ∨
     (size < position + bytes ∧
       ((res = EAGAIN ∧ s' = s ∧ has oflags O_NONBLOCK = true ∧ (bytes < size ∨ size < bytes ∧ position = size)) ∨
        (res = SUSPEND ∧ (has oflags O_NONBLOCK = false ∧ (bytes ≤ size ∨ position = size) ∨ bytes = size) ∧
         (if notouch then s' = s else ∃ p',
            fprocs (tabs s') !! fp (glo s) = Some p' ∧ suspended_in (fp (glo s)) (m_in (glo s)) (call_nr (glo s)) p' ∧
            fp_task p' = - XPIPE)))))) s.
Proof. apply pipe_check_write_ok. Qed.
End spec.
