(* ===== verification/LockSpec.v ===== *)
(** lock.c: what the table of locks says, and what the requests of fcntl do to
    it: a region of a file is never held by two processes one of which writes. *)

From S2P Require Import Prelude Machine State Monad Process Lock Main ProcessSpec.

(** * The region of a request *)

Definition used (lk : file_lock) : Prop := lock_type lk ≠ 0.
#[global] Instance used_dec lk : Decision (used lk).
Proof. unfold used. apply _. Defined.

Lemma lock_region_eq base f :
  0 ≤ base < 2 ^ 32 → 0 ≤ l_start f < 2 ^ 32 → 0 ≤ l_len f < 2 ^ 32 →
  let first := base + i32 (l_start f) in
  lock_region base f =
    if decide (0 ≤ first ∧ first + Z.max 0 (l_len f - 1) < 2 ^ 32)
    then Some (first, if l_len f =? 0 then MAX_FILE_POS else first + l_len f - 1) else None.
Proof.
  intros Hb Hs Hl first. subst first. unfold lock_region, MAX_FILE_POS, u32, i32. cbv zeta.
  destruct (Z.ltb_spec 0 ((l_start f + 2 ^ 31) mod 2 ^ 32 - 2 ^ 31));
  destruct (Z.ltb_spec ((base + l_start f) mod 2 ^ 32) base);
  destruct (Z.ltb_spec ((l_start f + 2 ^ 31) mod 2 ^ 32 - 2 ^ 31) 0);
  destruct (Z.ltb_spec base ((base + l_start f) mod 2 ^ 32));
  destruct (Z.eqb_spec (l_len f) 0); simpl; case_decide; try done; try zlia;
  case_match eqn:E; try apply Z.ltb_ge in E; try apply Z.ltb_lt in E; try zlia;
  repeat f_equal; zlia.
Qed.

Lemma lock_region_wf base f first last :
  0 ≤ base < 2 ^ 32 → 0 ≤ l_start f < 2 ^ 32 → 0 ≤ l_len f < 2 ^ 32 →
  lock_region base f = Some (first, last) → 0 ≤ first ≤ last ∧ last < 2 ^ 32.
Proof.
  intros Hb Hs Hl. rewrite lock_region_eq by done. unfold MAX_FILE_POS. case_decide; [|done].
  destruct (Z.eqb_spec (l_len f) 0); intros [= <- <-]; lia.
Qed.

(** * The table *)

(** A byte of a file is locked by a process: it is in the region of a lock. *)
Definition covers (lk : file_lock) (ty : Z) (ino : option nat) (pid pos : Z) : Prop :=
  used lk ∧ lock_type lk = ty ∧ lock_inode lk = ino ∧ lock_pid lk = pid ∧
  lock_first lk ≤ pos ≤ lock_last lk.
Definition held (l : list file_lock) (ty : Z) (ino : option nat) (pid pos : Z) : Prop :=
  ∃ i lk, l !! i = Some lk ∧ covers lk ty ino pid pos.

Record lock_wf (lk : file_lock) : Prop := {
  lw_type : lock_type lk = F_RDLCK ∨ lock_type lk = F_WRLCK;
  lw_region : 0 ≤ lock_first lk ≤ lock_last lk;
  lw_max : lock_last lk < 2 ^ 32
}.

(** [nr_locks] counts the used slots, and a byte that two processes have locked
    is locked by both for reading. *)
Record locks_ok (l : list file_lock) (nr : Z) : Prop := {
  lo_length : length l = NR_LOCKS;
  lo_count : nr = count used l;
  lo_wf i lk : l !! i = Some lk → used lk → lock_wf lk;
  lo_excl ty ty' ino pid pid' pos : held l ty ino pid pos → held l ty' ino pid' pos → pid ≠ pid' →
    ty = F_RDLCK ∧ ty' = F_RDLCK
}.

Definition weight (lk : file_lock) : Z := count_if used lk.
Lemma weight_used lk : used lk → weight lk = 1.
Proof. apply count_if_True. Qed.
Lemma weight_unused lk : lock_type lk = 0 → weight lk = 0.
Proof. intros H. apply count_if_False. by intros []. Qed.

(** A table that is not full has a slot [lock_op] finds. *)
Lemma count_full (l : list file_lock) :
  list_find (λ lk, lock_type lk = 0) l = None → count used l = Z.of_nat (length l).
Proof.
  intros H%list_find_None. apply count_all. intros lk Hlk. rewrite Forall_forall in H. by apply H.
Qed.

Lemma held_insert (l : list file_lock) i lk lk' ty ino pid pos :
  l !! i = Some lk →
  held (<[i := lk']> l) ty ino pid pos ↔
    covers lk' ty ino pid pos ∨ ∃ j lk0, j ≠ i ∧ l !! j = Some lk0 ∧ covers lk0 ty ino pid pos.
Proof.
  intros Hl. split.
  - intros (j & lk0 & Hj & Hc). apply list_lookup_insert_Some in Hj as [(<- & <- & _)|[Hne Hj]]; [by left|].
    right. exists j, lk0. done.
  - intros [Hc|(j & lk0 & Hne & Hj & Hc)].
    + exists i, lk'. split; [|done]. apply list_lookup_insert_eq. by eapply lookup_lt_Some.
    + exists j, lk0. by rewrite list_lookup_insert_ne.
Qed.

Lemma held_split (l : list file_lock) i lk ty ino pid pos :
  l !! i = Some lk →
  held l ty ino pid pos ↔
    covers lk ty ino pid pos ∨ ∃ j lk0, j ≠ i ∧ l !! j = Some lk0 ∧ covers lk0 ty ino pid pos.
Proof. intros Hl. by rewrite <- (held_insert l i lk lk), list_insert_id. Qed.

Lemma locks_ok_insert l nr i lk lk' :
  locks_ok l nr → l !! i = Some lk → (used lk' → lock_wf lk') →
  (∀ ty ty' ino pid pid' pos, held (<[i := lk']> l) ty ino pid pos → held (<[i := lk']> l) ty' ino pid' pos →
     pid ≠ pid' → ty = F_RDLCK ∧ ty' = F_RDLCK) →
  locks_ok (<[i := lk']> l) (nr - weight lk + weight lk').
Proof.
  intros [Hlen Hcount Hwf _] Hl Hlk' Hex. split.
  - by rewrite length_insert.
  - rewrite (count_insert used _ _ lk), Hcount by done. done.
  - intros j lk0 Hj. apply list_lookup_insert_Some in Hj as [(<- & <- & _)|[_ Hj]]; [done|]. by eapply Hwf.
  - done.
Qed.

(** Taking locks away keeps the exclusion. *)
Lemma locks_ok_sub l nr i lk lk' :
  locks_ok l nr → l !! i = Some lk → (used lk' → lock_wf lk') →
  (∀ ty ino pid pos, covers lk' ty ino pid pos → held l ty ino pid pos) →
  locks_ok (<[i := lk']> l) (nr - weight lk + weight lk').
Proof.
  intros Hok Hl Hlk' Hsub. apply locks_ok_insert; [done..|].
  assert (∀ ty ino pid pos, held (<[i := lk']> l) ty ino pid pos → held l ty ino pid pos) as H.
  { intros ty ino pid pos [?|(j & lk0 & _ & Hj & Hc)]%(held_insert l i lk lk'); [auto| |done].
    by exists j, lk0. }
  intros ty ty' ino pid pid' pos H1%H H2%H. by apply (lo_excl _ _ Hok ty ty' ino pid pid' pos).
Qed.

Section unlock.
Context {krn : Kernel}.
Context (ino : option nat) (first last : Z).
Hypothesis Hregion : 0 ≤ first ≤ last.
Hypothesis Hlast : last < 2 ^ 32.

(** The region that is cleared. *)
Definition inside (ino' : option nat) (pos : Z) : Prop := ino' = ino ∧ first ≤ pos ≤ last.

(** Outside the region the same bytes are locked. *)
Definition same_outside (l l' : list file_lock) : Prop := ∀ ty ino' pid pos,
  ¬ inside ino' pos → held l' ty ino' pid pos ↔ held l ty ino' pid pos.

(** The slot has nothing to do with the region. *)
Definition apart (lk : file_lock) : Prop :=
  used lk → lock_inode lk = ino → lock_last lk < first ∨ last < lock_first lk.
Definition cleared (n : nat) (l : list file_lock) : Prop :=
  ∀ j lk, (j < n)%nat → l !! j = Some lk → apart lk.

Lemma same_outside_insert l i lk lk' :
  l !! i = Some lk →
  (∀ ty ino' pid pos, covers lk' ty ino' pid pos → covers lk ty ino' pid pos) →
  (∀ ty ino' pid pos, ¬ inside ino' pos → covers lk ty ino' pid pos → held (<[i := lk']> l) ty ino' pid pos) →
  same_outside l (<[i := lk']> l).
Proof.
  intros Hl Hsub Hsup ty ino' pid pos Hout. rewrite (held_split l i lk) by done. split.
  - intros [?|?]%(held_insert l i lk lk'); [left; auto|by right|done].
  - intros [?|?]; [by apply Hsup|]. apply (held_insert l i lk lk'); [done|]. by right.
Qed.

Lemma held_here l i lk lk' ty ino' pid pos :
  l !! i = Some lk → covers lk' ty ino' pid pos → held (<[i := lk']> l) ty ino' pid pos.
Proof. intros Hl Hc. apply (held_insert l i lk lk'); [done|by left]. Qed.

Lemma cleared_insert n l i lk' : apart lk' → cleared n l → cleared n (<[i := lk']> l).
Proof.
  intros Ha Hc j lk Hj Hl. apply list_lookup_insert_Some in Hl as [(_ & <- & _)|[_ Hl]]; [done|].
  by apply (Hc j lk).
Qed.

Lemma cleared_S n l lk : l !! n = Some lk → apart lk → cleared n l → cleared (S n) l.
Proof.
  intros Hl Ha Hc j lk' Hj Hl'. destruct (decide (j = n)) as [->|]; [by simplify_eq|].
  apply (Hc j); [lia|done].
Qed.

(** Only the table of locks changes. *)
Record locks_only (s s' : st) : Prop := {
  lk_kern : kern s' = kern s;
  lk_cache : cache s' = cache s;
  lk_tabs : tabs s' = (tabs s) <| file_locks := file_locks (tabs s') |>;
  lk_glo : glo s' = (glo s) <| nr_locks := nr_locks (glo s') |>
}.

Definition locks (s : st) : list file_lock := file_locks (tabs s).
Definition st_locks_ok (s : st) : Prop := locks_ok (locks s) (nr_locks (glo s)).

(** What one part of the loop does. *)
Definition unlocked (n : nat) (s s' : st) : Prop :=
  locks_only s s' ∧ st_locks_ok s' ∧ cleared n (locks s') ∧ same_outside (locks s) (locks s').

(** The slot [i] is changed and the count adjusted. *)
Lemma unlocked_insert i flp lk' s s' :
  st_locks_ok s → cleared i (locks s) → locks s !! i = Some flp → used flp →
  (used lk' → lock_wf lk') → apart lk' →
  (∀ ty ino' pid pos, covers lk' ty ino' pid pos → covers flp ty ino' pid pos) →
  same_outside (locks s) (<[i := lk']> (locks s)) → locks_only s s' → locks s' = <[i := lk']> (locks s) →
  nr_locks (glo s') = nr_locks (glo s) - 1 + weight lk' → unlocked (S i) s s'.
Proof using Hregion.
  intros Hok Hcl Hl Hu Hwf Hap Hsub Hsup Ho E En. split; [done|]. unfold st_locks_ok. rewrite E, En. split_and!.
  - pose proof (locks_ok_sub _ _ _ _ lk' Hok Hl Hwf) as H. rewrite (weight_used flp Hu) in H. apply H. intros. exists i, flp. auto.
  - apply (cleared_S _ _ lk'); [|done|by apply cleared_insert].
    apply list_lookup_insert_eq. by eapply lookup_lt_Some.
  - done.
Qed.

Lemma locks_only_refl s : locks_only s s.
Proof. destruct s as [k c [] []]. by split. Qed.

Lemma locks_only_trans s1 s2 s3 : locks_only s1 s2 → locks_only s2 s3 → locks_only s1 s3.
Proof.
  intros [K1 C1 T1 G1] [K2 C2 T2 G2]. split; [congruence|congruence| |].
  - rewrite T2, T1. by destruct (tabs s1).
  - rewrite G2, G1. by destruct (glo s1).
Qed.

Lemma locks_only_wr s i f l :
  file_locks (tabs s) = l → locks_only s (with_table (<[i := f]> l) s).
Proof. intros _. split; [done|done|by destruct s as [? ? [] ?]|by destruct s as [? ? ? []]]. Qed.

Lemma locks_only_nr s g : locks_only s (s <| glo ::= λ x, x <| nr_locks ::= g |> |>).
Proof. split; [done|done|by destruct s as [? ? [] ?]|by destruct s as [? ? ? []]]. Qed.

Lemma unlocked_trans n s1 s2 s3 :
  locks_only s1 s2 → same_outside (locks s1) (locks s2) → unlocked n s2 s3 → unlocked n s1 s3.
Proof.
  intros Ho Hs (Ho' & Hok & Hcl & Hs'). split; [by eapply locks_only_trans|]. split_and!; [done|done|].
  intros ty ino' pid pos Hout. rewrite (Hs' ty ino' pid pos Hout). by apply Hs.
Qed.

(** A lock split in two: the upper part goes to a free slot. *)
Lemma split_upper i i2 flp lk0 s :
  st_locks_ok s → cleared i (locks s) → locks s !! i = Some flp → used flp →
  locks s !! i2 = Some lk0 → lock_type lk0 = 0 → lock_first flp ≤ last < lock_last flp →
  let high := lk0 <| lock_type := lock_type flp |> <| lock_pid := lock_pid flp |>
    <| lock_inode := lock_inode flp |> <| lock_first := last + 1 |> <| lock_last := lock_last flp |> in
  let s' := (with_table (<[i2 := high]> (locks s)) s) <| glo ::= λ g, g <| nr_locks ::= Z.add 1 |> |> in
  st_locks_ok s' ∧ cleared i (locks s') ∧ locks s' !! i = Some flp ∧ locks_only s s' ∧
  same_outside (locks s) (locks s').
Proof using Hregion.
  intros Hok Hcl Hl Hu Hl2 Hfree Hpos high s'. destruct (lo_wf _ _ Hok _ _ Hl Hu) as [Hty Hr Hm].
  assert (i2 ≠ i) as Hne by (intros ->; simplify_eq; done).
  assert (∀ ty ino' pid pos, covers high ty ino' pid pos → held (locks s) ty ino' pid pos) as Hsub.
  { unfold covers, high. simpl. intros ty ino' pid pos (_ & E1 & E2 & E3 & Hp).
    exists i, flp. split; [done|]. split_and!; try done; lia. }
  change (locks s') with (<[i2 := high]> (locks s)). unfold st_locks_ok.
  change (nr_locks (glo s')) with (1 + nr_locks (glo s)). split_and!.
  - replace (1 + nr_locks (glo s)) with (nr_locks (glo s) - weight lk0 + weight high).
    + apply locks_ok_sub; [done..| |done]. intros _. split; simpl; [done|lia|done].
    + rewrite (weight_unused lk0), (weight_used high) by done. lia.
  - apply cleared_insert; [|done]. intros _ _. right. simpl. lia.
  - by rewrite list_lookup_insert_ne.
  - eapply locks_only_trans; [by apply (locks_only_wr s i2 high)|apply (locks_only_nr _ (Z.add 1))].
  - intros ty ino' pid pos _. rewrite (held_insert _ i2 lk0 high) by done. split.
    + intros [?|(j & lk & _ & Hj & Hc)]; [auto|by exists j, lk].
    + rewrite (held_split _ i2 lk0) by done. by intros [([] & _)|?]; [|right].
Qed.

(** [unlock_part]: ENOLCK only for a split when the table is full. *)
Lemma unlock_part_spec i flp s :
  st_locks_ok s → cleared i (locks s) → locks s !! i = Some flp → used flp → lock_inode flp = ino →
  first ≤ lock_last flp → lock_first flp ≤ last →
  wp (unlock_part i flp first last) (λ r s', match r with
    | None => unlocked (S i) s s'
    | Some e => e = ENOLCK ∧ s' = s ∧ nr_locks (glo s) = Z.of_nat NR_LOCKS
    end) s.
Proof using Hregion Hlast.
  intros Hok Hcl Hl Hu Hino Hov1 Hov2. unfold unlock_part.
  pose proof (lo_wf _ _ Hok _ _ Hl Hu) as [Hty Hr Hm].
  destruct (Z.leb_spec first (lock_first flp)) as [Hf|Hf], (Z.leb_spec (lock_last flp) last) as [Ht|Ht]; cbn [andb].
  - wp_pure. eapply wp_wr; [exact Hl|]. do 2 wp_pure.
    set (lk' := flp <| lock_type := 0 |>). apply (unlocked_insert i flp lk'); [exact Hok|exact Hcl|exact Hl|exact Hu|..].
    + by intros [].
    + by intros [].
    + by intros ty ino' pid pos ([] & _).
    + apply (same_outside_insert _ _ flp); [done|by intros ty ino' pid pos ([] & _)|].
      intros ty ino' pid pos Hout (_ & _ & E & _ & Hpos). destruct Hout. split; [congruence|lia].
    + eapply locks_only_trans; [apply (locks_only_wr s i lk'); done|]. apply locks_only_nr.
    + done.
    + rewrite (weight_unused lk') by done. simpl. lia.
  - wp_pure. eapply wp_wr; [exact Hl|]. wp_pure. rewrite u32_id by lia.
    set (lk' := flp <| lock_first := last + 1 |>).
    assert (∀ ty ino' pid pos, covers lk' ty ino' pid pos → covers flp ty ino' pid pos) as Hsub.
    { intros ty ino' pid pos (? & ? & ? & ? & Hpos). simpl in Hpos. split_and!; try done; lia. }
    apply (unlocked_insert i flp lk'); [exact Hok|exact Hcl|exact Hl|exact Hu|..].
    + intros _. split; simpl; [done|lia|done].
    + intros _ _. right. simpl. lia.
    + exact Hsub.
    + apply (same_outside_insert _ _ flp); [done|exact Hsub|].
      intros ty ino' pid pos Hout (? & ? & E & ? & Hpos). eapply held_here; [done|].
      split_and!; try done; simpl; [|lia]. destruct (decide (pos ≤ last)); [|lia]. destruct Hout. split; [congruence|lia].
    + by apply locks_only_wr.
    + done.
    + rewrite (weight_used lk') by done. simpl. lia.
  - wp_pure. eapply wp_wr; [exact Hl|]. wp_pure. rewrite u32_id by lia.
    set (lk' := flp <| lock_last := first - 1 |>).
    assert (∀ ty ino' pid pos, covers lk' ty ino' pid pos → covers flp ty ino' pid pos) as Hsub.
    { intros ty ino' pid pos (? & ? & ? & ? & Hpos). simpl in Hpos. split_and!; try done; lia. }
    apply (unlocked_insert i flp lk'); [exact Hok|exact Hcl|exact Hl|exact Hu|..].
    + intros _. split; simpl; [done|lia|lia].
    + intros _ _. left. simpl. lia.
    + exact Hsub.
    + apply (same_outside_insert _ _ flp); [done|exact Hsub|].
      intros ty ino' pid pos Hout (? & ? & E & ? & Hpos). eapply held_here; [done|].
      split_and!; try done; simpl; [lia|]. destruct (decide (first ≤ pos)); [|lia]. destruct Hout. split; [congruence|lia].
    + by apply locks_only_wr.
    + done.
    + rewrite (weight_used lk') by done. simpl. lia.
  - wp_pure. wp_pure. destruct (Z.eqb_spec (nr_locks (glo s)) (Z.of_nat NR_LOCKS)) as [E|E]; [by wp_pure|].
    wp_pure. wp_pure. change (file_locks (tabs s)) with (locks s).
    destruct (list_find _ (locks s)) as [[i2 lk0]|] eqn:Ef.
    2:{ exfalso. apply E. by rewrite (lo_count _ _ Hok), (count_full _ Ef), (lo_length _ _ Hok). }
    apply list_find_Some in Ef as (Hl2 & Hfree & _). wp_pure. eapply (wp_deref _ _ _ i2); [done|].
    rewrite !u32_id by lia.
    destruct (split_upper i i2 flp lk0 s) as (Hok1 & Hcl1 & Hl1 & Ho1 & Hs1); [done..|lia|].
    set (high := lk0 <| lock_type := _ |> <| lock_pid := _ |> <| lock_inode := _ |> <| lock_first := _ |> <| lock_last := _ |>) in *.
    set (s1 := (with_table _ s) <| glo ::= _ |>) in *. set (low := flp <| lock_last := first - 1 |>).
    wp_pure. eapply wp_wr; [exact Hl2|]. wp_pure. eapply wp_wr; [exact Hl1|]. do 2 wp_pure.
    eapply unlocked_trans; [exact Ho1|exact Hs1|].
    assert (∀ ty ino' pid pos, covers low ty ino' pid pos → covers flp ty ino' pid pos) as Hsub.
    { intros ty ino' pid pos (? & ? & ? & ? & Hpos). simpl in Hpos. split_and!; try done; lia. }
    apply (unlocked_insert i flp low); [exact Hok1|exact Hcl1|exact Hl1|exact Hu|..].
    + intros _. split; simpl; [done|lia|lia].
    + intros _ _. left. simpl. lia.
    + exact Hsub.
    + apply (same_outside_insert _ _ flp); [done|exact Hsub|].
      intros ty ino' pid pos Hout (? & ? & E' & ? & Hpos). destruct (decide (pos < first)).
      * eapply held_here; [done|]. split_and!; try done; simpl; lia.
      * assert (last < pos) by (destruct (decide (pos ≤ last)); [destruct Hout; split; [congruence|lia]|lia]).
        apply (held_insert _ i flp low); [done|]. right. exists i2, high. split_and!; [by intros ->; simplify_eq| |].
        -- apply list_lookup_insert_eq. by eapply lookup_lt_Some.
        -- split_and!; try done; simpl; lia.
    + split; [done|done|by destruct s as [? ? [] ?]|by destruct s as [? ? ? []]].
    + done.
    + rewrite (weight_used low) by done. simpl. lia.
Qed.

(** The loop, clearing the region. *)
Lemma unlock_scan req n i empty unlocking p s :
  req ≠ F_GETLK → (i + n = NR_LOCKS)%nat → st_locks_ok s → cleared i (locks s) →
  fprocs (tabs s) !! fp (glo s) = Some p →
  wp (lock_scan req F_UNLCK ino first last n i empty unlocking) (λ r s', match r with
    | inl e => e = ENOLCK ∧ locks_only s s' ∧ st_locks_ok s' ∧ same_outside (locks s) (locks s') ∧
        nr_locks (glo s') = Z.of_nat NR_LOCKS
    | inr (conflict, _, u) => conflict = None ∧ unlocked NR_LOCKS s s' ∧ (unlocking = true → u = true) ∧
        (u = false → s' = s)
    end) s.
Proof using Hregion Hlast.
  intros Hreq. revert i empty unlocking s. induction n as [|n IH]; intros i empty unlocking s Hi Hok Hcl Hp; cbn [lock_scan].
  { wp_pure. replace i with NR_LOCKS in Hcl by lia. split; [done|]. split; [|done]. split; [apply locks_only_refl|]. by split_and!. }
  pose proof (lo_length _ _ Hok) as Hlen.
  destruct (lookup_lt_is_Some_2 (locks s) i) as [flp Hl]; [lia|].
  wp_pure. eapply wp_rd; [exact Hl|]. wp_pure. wp_pure. wp_pure. eapply wp_rd; [exact Hp|].
  assert (apart flp → ∀ e u, wp (lock_scan req F_UNLCK ino first last n (S i) e u) (λ r s', match r with
    | inl e => e = ENOLCK ∧ locks_only s s' ∧ st_locks_ok s' ∧ same_outside (locks s) (locks s') ∧
        nr_locks (glo s') = Z.of_nat NR_LOCKS
    | inr (conflict, _, v) => conflict = None ∧ unlocked NR_LOCKS s s' ∧ (u = true → v = true) ∧
        (v = false → s' = s)
    end) s) as Hnext.
  { intros Ha e u. apply IH; [lia|done| |done]. by apply (cleared_S i _ flp). }
  destruct (Z.eqb_spec (lock_type flp) 0) as [E|E]; [apply Hnext; by intros []|].
  unfold lock_conflict. case_bool_decide as Hino; cbn [andb].
  2:{ apply Hnext. intros _ H. by destruct Hino. }
  destruct (Z.ltb_spec last (lock_first flp)); cbn [negb andb]; [apply Hnext; intros _ _; by right|].
  destruct (Z.ltb_spec (lock_last flp) first); cbn [negb andb]; [apply Hnext; intros _ _; by left|].
  change (F_UNLCK =? F_RDLCK) with false. change (F_UNLCK =? F_UNLCK) with true.
  change (F_UNLCK =? F_WRLCK) with false. apply Z.eqb_neq in Hreq as Hreq'. rewrite Hreq'. cbn [negb andb orb].
  wp_pure. eapply wp_mono; [by apply (unlock_part_spec i flp s)|].
  intros [e|] s1.
  - intros (-> & -> & En). wp_pure. split; [done|]. split; [apply locks_only_refl|]. split; [done|]. by split.
  - intros (Ho1 & Hok1 & Hcl1 & Hs1). eapply wp_mono.
    { apply IH; [lia|done|done|]. rewrite (lk_tabs _ _ Ho1), (lk_glo _ _ Ho1). exact Hp. }
    intros [e|[[conflict e] u]] s2.
    + intros (-> & Ho2 & Hok2 & Hs2 & En). split; [done|]. split; [by eapply locks_only_trans|].
      split; [done|]. split; [|done]. intros ty ino' pid pos Hout. rewrite (Hs2 _ _ _ _ Hout). by apply Hs1.
    + intros (-> & Hun & Hu & _). rewrite (Hu eq_refl). split; [done|]. split; [|done]. by eapply unlocked_trans.
Qed.
End unlock.

Section scan.
Context {krn : Kernel}.

(** The lock [lk] stops the process [pid] from locking the region. *)
Definition blocks (ltype : Z) (ino : option nat) (first last pid : Z) (lk : file_lock) : Prop :=
  used lk ∧ lock_inode lk = ino ∧ lock_first lk ≤ last ∧ first ≤ lock_last lk ∧
  ¬ (ltype = F_RDLCK ∧ lock_type lk = F_RDLCK) ∧ lock_pid lk ≠ pid.

Lemma lock_conflict_blocks ltype ino first last pid lk :
  ltype ≠ F_UNLCK → used lk →
  lock_conflict ltype ino first last pid lk = true ↔ blocks ltype ino first last pid lk.
Proof.
  intros Hty%Z.eqb_neq Hu. unfold lock_conflict, blocks. rewrite Hty. cbn [negb andb].
  rewrite !andb_true_iff, !negb_true_iff, bool_decide_eq_true, andb_false_iff.
  rewrite !Z.ltb_ge, !Z.eqb_neq. split.
  - intros ((((H1 & H2) & H3) & H4) & H5). split_and!; try done. intros [E1 E2]. by destruct H4.
  - intros (_ & H1 & H2 & H3 & H4 & H5). split_and!; try done.
    destruct (decide (ltype = F_RDLCK)); [right|by left]. intros E. by apply H4.
Qed.

(** The first empty slot. *)
Definition first_empty (l : list file_lock) (n : nat) (e : option nat) : Prop :=
  match e with
  | Some e => ∃ lk, (e < n)%nat ∧ l !! e = Some lk ∧ ¬ used lk
  | None => ∀ j lk, (j < n)%nat → l !! j = Some lk → used lk
  end.

(** The loop, looking for a conflict. *)
Lemma lock_test_scan req ltype ino first last n i empty p s :
  ltype = F_RDLCK ∨ ltype = F_WRLCK → (i + n = NR_LOCKS)%nat → length (locks s) = NR_LOCKS →
  fprocs (tabs s) !! fp (glo s) = Some p → first_empty (locks s) i empty →
  let B := blocks ltype ino first last (fp_pid p) in
  (∀ j lk, (j < i)%nat → locks s !! j = Some lk → ¬ B lk) →
  ∀ Q : Z + (option nat * option nat * bool) → st → Prop,
  (∀ e, first_empty (locks s) NR_LOCKS e → (∀ j lk, locks s !! j = Some lk → ¬ B lk) → Q (inr (None, e, false)) s) →
  (∀ j lk e, locks s !! j = Some lk → B lk → (∀ k lk, (k < j)%nat → locks s !! k = Some lk → ¬ B lk) →
     if req =? F_GETLK then Q (inr (Some j, e, false)) s
     else if req =? F_SETLK then Q (inl EAGAIN) s
     else wp (suspend XLOCK) (λ _ s', Q (inl SUSPEND) s') s) →
  wp (lock_scan req ltype ino first last n i empty false) Q s.
Proof.
  intros Hty Hin Hlen Hp Hempty B Hno Q HNone HSome. revert i empty Hin Hempty Hno.
  assert (ltype ≠ F_UNLCK) as Hun by (by destruct Hty as [-> | ->]).
  induction n as [|n IH]; intros i empty Hin Hempty Hno; cbn [lock_scan].
  { wp_pure. replace i with NR_LOCKS in * by lia. apply HNone; [done|]. intros j lk Hj.
    apply (Hno j); [|done]. apply lookup_lt_Some in Hj. lia. }
  destruct (lookup_lt_is_Some_2 (locks s) i) as [flp Hl]; [lia|].
  wp_pure. eapply wp_rd; [exact Hl|]. wp_pure. wp_pure. wp_pure. eapply wp_rd; [exact Hp|].
  assert (¬ B flp → ∀ j lk, (j < S i)%nat → locks s !! j = Some lk → ¬ B lk) as Hno'.
  { intros HB j lk Hj Hlj. destruct (decide (j = i)) as [->|]; [by simplify_eq|]. apply (Hno j); [lia|done]. }
  destruct (Z.eqb_spec (lock_type flp) 0) as [E|E].
  { apply IH; [lia| |]; [|apply Hno'; by intros [[] _]]. destruct empty as [e|]; simpl.
    - destruct Hempty as (lk & ? & ? & ?). exists lk. split_and!; [lia|done|done].
    - exists flp. split_and!; [lia|done|]. by intros []. }
  assert (first_empty (locks s) (S i) empty) as Hempty'.
  { destruct empty as [e|]; simpl in *.
    - destruct Hempty as (lk & ? & ? & ?). exists lk. split_and!; [lia|done|done].
    - intros j lk Hj Hlj. destruct (decide (j = i)) as [->|]; [by simplify_eq|]. apply (Hempty j); [lia|done]. }
  pose proof (lock_conflict_blocks ltype ino first last (fp_pid p) flp Hun E) as Hc. fold B in Hc.
  destruct (lock_conflict _ _ _ _ _ _); cbn [negb].
  2:{ apply IH; [lia|done|]. apply Hno'. by intros ?%Hc. }
  specialize (HSome i flp empty Hl (proj1 Hc eq_refl) Hno).
  destruct (req =? F_GETLK); [by wp_pure|].
  assert ((ltype =? F_RDLCK) || (ltype =? F_WRLCK) = true) as -> by (by destruct Hty as [-> | ->]).
  destruct (req =? F_SETLK); [by wp_pure|]. wp_pure. eapply wp_mono; [exact HSome|]. intros [] s' HQ. by wp_pure.
Qed.
End scan.

(** * [lock_op] *)

Section contract.
Context {krn : Kernel}.

(** A request that passes the checks of [lock_op]: the caller [p] asks for the
    bytes [first .. last] of the regular file [rip], open through [f]. *)
Record lock_call (s : st) (f : nat) (req : Z) (flk : flock) (rip : nat) (first last : Z) (p : fproc) : Prop := {
  lc_flock : ∃ bs, k_vircopy_from (who (glo s)) SEG_D (in_name1 (m_in (glo s))) FLOCK_SIZE (kern s) = (OK, bs) ∧
    flock_load bs = Some flk;
  lc_type : l_type flk = F_RDLCK ∨ l_type flk = F_WRLCK ∨ (l_type flk = F_UNLCK ∧ req ≠ F_GETLK);
  lc_file : ∃ x r base, filps (tabs s) !! f = Some x ∧ filp_ino x = Some rip ∧
    inodes (tabs s) !! rip = Some r ∧ Z.land (i_mode r) I_TYPE = I_REGULAR ∧
    (req ≠ F_GETLK → l_type flk = F_RDLCK → has (filp_mode x) R_BIT = true) ∧
    (req ≠ F_GETLK → l_type flk = F_WRLCK → has (filp_mode x) W_BIT = true) ∧
    (l_whence flk, base) ∈ [(SEEK_SET, 0); (SEEK_CUR, filp_pos x); (SEEK_END, i_size r)] ∧
    lock_region base flk = Some (first, last);
  lc_region : 0 ≤ first ≤ last ∧ last < 2 ^ 32;
  lc_proc : fprocs (tabs s) !! fp (glo s) = Some p
}.

Lemma lock_op_start s f req flk rip first last p Q :
  lock_call s f req flk rip first last p →
  wp (lock_scan req (l_type flk) (Some rip) first last NR_LOCKS 0 None false) (λ o s', match o with
    | inl r => Q r s'
    | inr (conflict, empty, unlocking) =>
        wp (lock_finish req flk (in_name1 (m_in (glo s))) (Some rip) first last conflict empty unlocking) Q s'
    end) s →
  wp (lock_op f req) Q s.
Proof.
  intros [(bs & Hcopy & Hload) Hty (x & r & base & Hf & Hino & Hr & Hreg & Hrd & Hwr & Hbase & Hlr) _ _] HQ.
  unfold lock_op. do 4 wp_pure. wp_pure. wp_pure. rewrite Hcopy. cbn [fst snd negb]. change (OK =? OK) with true. cbn [negb].
  wp_pure. eapply wp_deref; [exact Hload|]. wp_pure. eapply wp_rd; [exact Hf|].
  assert (negb (l_type flk =? F_UNLCK) && negb (l_type flk =? F_RDLCK) && negb (l_type flk =? F_WRLCK) = false) as ->
    by (by destruct Hty as [-> |[-> |[-> _]]]).
  assert ((req =? F_GETLK) && (l_type flk =? F_UNLCK) = false) as ->.
  { destruct Hty as [-> |[-> |[-> Hreq%Z.eqb_neq]]]; [apply andb_false_r..|by rewrite Hreq]. }
  wp_pure. eapply wp_rd; [exact Hf|]. wp_pure. eapply wp_deref; [exact Hino|].
  wp_pure. eapply wp_rd; [exact Hr|]. rewrite Hreg. change (negb (I_REGULAR =? I_REGULAR)) with false. cbv iota.
  assert (negb (req =? F_GETLK) && (l_type flk =? F_RDLCK) && negb (has (filp_mode x) R_BIT) = false) as ->.
  { destruct (Z.eqb_spec req F_GETLK), (Z.eqb_spec (l_type flk) F_RDLCK); cbn [negb andb]; try done. by rewrite Hrd. }
  assert (negb (req =? F_GETLK) && (l_type flk =? F_WRLCK) && negb (has (filp_mode x) W_BIT) = false) as ->.
  { destruct (Z.eqb_spec req F_GETLK), (Z.eqb_spec (l_type flk) F_WRLCK); cbn [negb andb]; try done. by rewrite Hwr. }
  wp_pure. eapply wp_rd; [exact Hf|]. wp_pure. eapply wp_rd; [exact Hr|].
  rewrite !elem_of_cons in Hbase.
  assert ((if l_whence flk =? SEEK_SET then Some 0 else if l_whence flk =? SEEK_CUR then Some (filp_pos x)
    else if l_whence flk =? SEEK_END then Some (i_size r) else None) = Some base) as ->.
  { destruct Hbase as [[= -> ->]|[[= -> ->]|[[= -> ->]|?%not_elem_of_nil]]]; done. }
  assert (Some base ≫= (λ b, lock_region b flk) = Some (first, last)) as -> by exact Hlr.
  wp_pure. rewrite Hino. eapply wp_mono; [exact HQ|].
  intros [v|[[conflict empty] u]] s' H; [by wp_pure|done].
Qed.

(** The lock that is set. *)
Definition new_lock (flk : flock) (rip : nat) (first last : Z) (p : fproc) (lk : file_lock) : file_lock :=
  lk <| lock_type := l_type flk |> <| lock_pid := fp_pid p |>
     <| lock_inode := Some rip |> <| lock_first := first |> <| lock_last := last |>.

(** A lock is set where nothing blocks it. *)
Lemma set_lock_ok s flk rip first last p e lk :
  l_type flk = F_RDLCK ∨ l_type flk = F_WRLCK → 0 ≤ first ≤ last → last < 2 ^ 32 →
  st_locks_ok s → locks s !! e = Some lk → ¬ used lk →
  (∀ j lk, locks s !! j = Some lk → ¬ blocks (l_type flk) (Some rip) first last (fp_pid p) lk) →
  let s' := (with_table (<[e := new_lock flk rip first last p lk]> (locks s)) s)
              <| glo ::= λ g, g <| nr_locks ::= Z.add 1 |> |> in
  st_locks_ok s' ∧ ∀ ty ino pid pos, held (locks s') ty ino pid pos ↔
    held (locks s) ty ino pid pos ∨
    (ty = l_type flk ∧ ino = Some rip ∧ pid = fp_pid p ∧ first ≤ pos ≤ last).
Proof.
  intros Hty Hreg Hlast Hok He Hu Hno s'. set (lk' := new_lock flk rip first last p lk) in *.
  change (locks s') with (<[e := lk']> (locks s)).
  assert (used lk') as Hu' by (unfold used, lk'; simpl; by destruct Hty as [-> | ->]).
  assert (∀ ty ino pid pos, held (<[e := lk']> (locks s)) ty ino pid pos ↔ held (locks s) ty ino pid pos ∨
    (ty = l_type flk ∧ ino = Some rip ∧ pid = fp_pid p ∧ first ≤ pos ≤ last)) as Hheld.
  { intros ty ino pid pos. rewrite (held_insert _ e lk lk'), (held_split _ e lk) by done. split.
    - intros [(_ & <- & <- & <- & Hpos)|H]; [by right|left; by right].
    - intros [[[? _]|H]|(-> & -> & -> & Hpos)]; [done|by right|by left]. }
  split; [|exact Hheld]. unfold st_locks_ok. change (locks s') with (<[e := lk']> (locks s)).
  replace (nr_locks (glo s')) with (nr_locks (glo s) - weight lk + weight lk').
  2:{ rewrite (weight_used lk' Hu'). unfold weight. rewrite count_if_False by done. simpl. lia. }
  apply locks_ok_insert; [done|done|by intros _; split|].
  assert (∀ ty pid pos, held (locks s) ty (Some rip) pid pos → first ≤ pos ≤ last → pid ≠ fp_pid p →
    ty = F_RDLCK ∧ l_type flk = F_RDLCK) as Hboth.
  { intros ty pid pos (j & lk0 & Hj & Hu0 & E1 & E2 & E3 & Hpos) Hin Hne.
    destruct (decide (l_type flk = F_RDLCK ∧ lock_type lk0 = F_RDLCK)) as [[? ?]|Hn]; [by subst|].
    destruct (Hno j lk0 Hj). split_and!; try done; [lia|lia|congruence]. }
  intros ty ty' ino pid pid' pos [H1|(-> & -> & -> & Hp1)]%Hheld [H2|(-> & E & -> & Hp2)]%Hheld Hne.
  - by apply (lo_excl _ _ Hok ty ty' ino pid pid' pos).
  - subst ino. by apply (Hboth _ pid pos).
  - destruct (Hboth _ pid' pos H2 Hp1); [congruence|done].
  - done.
Qed.

Lemma first_empty_start l : first_empty l 0 None.
Proof. intros j lk Hj. lia. Qed.

Lemma full_table s : st_locks_ok s → first_empty (locks s) NR_LOCKS None → nr_locks (glo s) = Z.of_nat NR_LOCKS.
Proof.
  intros Hok Hfull. rewrite (lo_count _ _ Hok), count_all.
  - by rewrite (lo_length _ _ Hok).
  - intros lk [j Hj]%list_elem_of_lookup. apply (Hfull j); [|done].
    rewrite <- (lo_length _ _ Hok). by eapply lookup_lt_Some.
Qed.

(** the region of a request is computed without wrapping around: it is the
    region the caller means, as integers, when that lies in 0 .. 2^32 - 1, and it
    is refused otherwise. *)
Theorem lock_region_spec base f :
  0 ≤ base < 2 ^ 32 → 0 ≤ l_start f < 2 ^ 32 → 0 ≤ l_len f < 2 ^ 32 →
  lock_region base f =
    let first := base + i32 (l_start f) in
    if decide (0 ≤ first ∧ first + Z.max 0 (l_len f - 1) < 2 ^ 32)
    then Some (first, if l_len f =? 0 then MAX_FILE_POS else first + l_len f - 1) else None.
Proof. apply lock_region_eq. Qed.

(** C6: F_SETLK locks the bytes exactly when no other process has a lock that
    excludes it.  It answers EAGAIN if one has, ENOLCK if the table is full, and
    changes nothing then; on OK the caller holds the bytes it asked for, everybody
    keeps what he had, and still no byte is held by two processes unless both
    read. *)
Theorem lock_set_contract s f flk rip first last p :
  lock_call s f F_SETLK flk rip first last p → l_type flk ≠ F_UNLCK → st_locks_ok s →
  wp (lock_op f F_SETLK) (λ r s',
    (r = EAGAIN ∧ s' = s ∧
       ∃ j lk, locks s !! j = Some lk ∧ blocks (l_type flk) (Some rip) first last (fp_pid p) lk) ∨
    ((∀ j lk, locks s !! j = Some lk → ¬ blocks (l_type flk) (Some rip) first last (fp_pid p) lk) ∧
     ((r = ENOLCK ∧ s' = s ∧ nr_locks (glo s) = Z.of_nat NR_LOCKS) ∨
      (r = OK ∧ locks_only s s' ∧ st_locks_ok s' ∧ ∀ ty ino pid pos, held (locks s') ty ino pid pos ↔
         held (locks s) ty ino pid pos ∨
         (ty = l_type flk ∧ ino = Some rip ∧ pid = fp_pid p ∧ first ≤ pos ≤ last))))) s.
Proof.
  intros Hc Hun Hok. pose proof (lc_region _ _ _ _ _ _ _ _ Hc) as [Hreg Hlast].
  assert (l_type flk = F_RDLCK ∨ l_type flk = F_WRLCK) as Hty
    by (by destruct (lc_type _ _ _ _ _ _ _ _ Hc) as [?|[?|[? _]]]; auto).
  eapply lock_op_start; [exact Hc|].
  eapply (lock_test_scan F_SETLK (l_type flk) (Some rip) first last NR_LOCKS 0 None p s Hty);
    [done|apply Hok|apply Hc|apply first_empty_start|lia| |].
  - intros e He Hno. unfold lock_finish, when. do 5 wp_pure. eapply wp_rd; [apply Hc|]. do 2 wp_pure.
    change (F_SETLK =? F_GETLK) with false. apply Z.eqb_neq in Hun as Hun'. rewrite Hun'. destruct e as [e|].
    + destruct He as (lk & _ & He & Hu). wp_pure. eapply wp_wr; [exact He|]. do 3 wp_pure.
      right. split; [done|]. right. split; [done|]. split.
      * eapply locks_only_trans; [by eapply (locks_only_wr s e)|apply locks_only_nr].
      * apply (set_lock_ok s flk rip first last p e lk); done.
    + wp_pure. right. split; [done|]. left. split_and!; [done|done|by apply full_table].
  - intros j lk e Hj Hb _. change (F_SETLK =? F_GETLK) with false. change (F_SETLK =? F_SETLK) with true.
    left. split_and!; [done|done|by exists j, lk].
Qed.

(** F_SETLKW of bytes that another process holds suspends the caller with the
    parameters of the call, and the locks stay as they are. *)
Theorem lock_wait_contract s f flk rip first last p j lk :
  lock_call s f F_SETLKW flk rip first last p → l_type flk ≠ F_UNLCK → st_locks_ok s → reviving_ok s →
  locks s !! j = Some lk → blocks (l_type flk) (Some rip) first last (fp_pid p) lk →
  fp_revived p = false → 0 ≤ in_fd (m_in (glo s)) < 2 ^ 8 → 0 ≤ call_nr (glo s) < 2 ^ 8 →
  wp (lock_op f F_SETLKW) (λ r s', r = SUSPEND ∧ reviving_ok s' ∧ locks s' = locks s ∧
    nr_locks (glo s') = nr_locks (glo s) ∧
    ∃ p', fprocs (tabs s') !! fp (glo s) = Some p' ∧ waits_for_lock p' = true ∧
      suspended_in (fp (glo s)) (m_in (glo s)) (call_nr (glo s)) p') s.
Proof.
  intros Hc Hun Hok Hrok Hj Hb Hrev Hfd Hcall.
  assert (l_type flk = F_RDLCK ∨ l_type flk = F_WRLCK) as Hty
    by (by destruct (lc_type _ _ _ _ _ _ _ _ Hc) as [?|[?|[? _]]]; auto).
  eapply lock_op_start; [exact Hc|].
  eapply (lock_test_scan F_SETLKW (l_type flk) (Some rip) first last NR_LOCKS 0 None p s Hty);
    [done|apply Hok|apply Hc|apply first_empty_start|lia| |].
  - intros e _ Hno. by destruct (Hno j lk Hj).
  - intros i lk' e _ _ _. change (F_SETLKW =? F_GETLK) with false. change (F_SETLKW =? F_SETLK) with false.
    eapply wp_mono; [apply (suspend_ok s (fp (glo s)) p XLOCK); try done; apply Hc|].
    intros [] s' (Hrok' & p' & Hsu & Ht & Hr & Et & _ & _ & Eg). split; [done|]. split; [done|].
    split; [unfold locks; by rewrite Et|]. split; [by rewrite Eg|]. exists p'. split; [|split; [|done]].
    + rewrite Et. apply list_lookup_insert_eq. eapply lookup_lt_Some. apply Hc.
    + unfold waits_for_lock. rewrite Ht. by destruct Hsu as [-> _].
Qed.

(** F_UNLCK clears exactly the bytes of the region, of whichever process they
    are: it shrinks, splits or frees the locks it meets and leaves every byte
    outside to its holder.  If it changed a lock every process that waits for one
    is revived.  Only a split can fail, with ENOLCK, when the table is full; the
    bytes outside the region are safe then, too. *)
Theorem lock_clear_contract s f req flk rip first last p :
  lock_call s f req flk rip first last p → l_type flk = F_UNLCK → st_locks_ok s → reviving_ok s →
  wp (lock_op f req) (λ r s', st_locks_ok s' ∧ reviving_ok s' ∧
    (∀ ty ino pid pos, ¬ inside (Some rip) first last ino pos →
       held (locks s') ty ino pid pos ↔ held (locks s) ty ino pid pos) ∧
    ((r = ENOLCK ∧ nr_locks (glo s') = Z.of_nat NR_LOCKS) ∨
     (r = OK ∧
      (∀ ty ino pid pos, inside (Some rip) first last ino pos → ¬ held (locks s') ty ino pid pos) ∧
      (s' = s ∨ ∀ i q, (INIT_PROC_NR < i)%nat → fprocs (tabs s) !! i = Some q →
         fprocs (tabs s') !! i = Some (lock_woken q))))) s.
Proof.
  intros Hc Hty Hok Hrok. pose proof (lc_region _ _ _ _ _ _ _ _ Hc) as [Hreg Hlast].
  assert (req ≠ F_GETLK) as Hreq by (by destruct (lc_type _ _ _ _ _ _ _ _ Hc) as [E|[E|[_ ?]]]; [rewrite E in Hty..|]).
  assert (∀ s', locks_only s s' → reviving_ok s') as Hrok1.
  { intros s1 [_ _ Et Eg]. destruct Hrok as [H1 H2 H3]. split; rewrite Et; [done| |done].
    rewrite Eg. done. }
  eapply lock_op_start; [exact Hc|]. rewrite Hty. eapply wp_mono.
  { eapply (unlock_scan (Some rip) first last Hreg Hlast req NR_LOCKS 0 None false p s Hreq); [done|done| |apply Hc].
    intros j lk Hj. lia. }
  intros [e|[[conflict e] u]] s1.
  { intros (-> & Ho & Hok1 & Hs & En). split_and!; [done|by apply Hrok1|done|by left]. }
  intros (-> & (Ho & Hok1 & Hcl & Hs) & _ & Hu). unfold lock_finish.
  assert (∀ ty ino pid pos, inside (Some rip) first last ino pos → ¬ held (locks s1) ty ino pid pos) as Hin.
  { intros ty ino pid pos [-> Hpos] (j & lk & Hj & Hused & _ & Ei & _ & Hp).
    destruct (Hcl j lk) as [?|?]; try done; [|lia..]. rewrite <- (lo_length _ _ Hok1). by eapply lookup_lt_Some. }
  apply Z.eqb_neq in Hreq as Hreq'. rewrite Hty, Hreq'. change (F_UNLCK =? F_UNLCK) with true. cbv iota.
  apply wp_bind, wp_when; intros Eu.
  - eapply wp_mono; [by apply lock_revive_ok, Hrok1|]. intros [] s2 (Hrok2 & [_ _ Et Eg] & Hw).
    assert (fprocs (tabs s1) = fprocs (tabs s)) as Ep by by rewrite (lk_tabs _ _ Ho).
    assert (locks s2 = locks s1) as El by (unfold locks; by rewrite Et).
    destruct (lookup_lt_is_Some_2 (fprocs (tabs s2)) (fp (glo s))) as [p2 Hp2].
    { rewrite (ro_length _ Hrok2), <- (ro_length _ Hrok). eapply lookup_lt_Some. apply Hc. }
    do 2 wp_pure. wp_pure. eapply wp_rd; [by rewrite Eg, (lk_glo _ _ Ho)|]. do 3 wp_pure.
    rewrite El. split; [|split; [done|split; [done|]]].
    + unfold st_locks_ok. rewrite El, Eg. exact Hok1.
    + right. split; [done|]. split; [done|]. right. intros i q Hi Hq. rewrite <- Ep in Hq.
      rewrite (Hw i q Hq). by rewrite decide_True.
  - rewrite (Hu Eu) in *. do 2 wp_pure. wp_pure. eapply wp_rd; [apply Hc|]. do 3 wp_pure.
    split; [done|]. split; [done|]. split; [done|]. right. split; [done|]. split; [done|by left].
Qed.

(** What F_GETLK answers about the lock that is in the way. *)
Definition lock_answer (flk : flock) (r : option file_lock) : flock :=
  match r with
  | Some lk => Flock (i16 (lock_type lk)) SEEK_SET (lock_first lk) (u32 (lock_last lk - lock_first lk + 1)) (lock_pid lk)
  | None => Flock F_UNLCK (l_whence flk) (l_start flk) (l_len flk) (l_pid flk)
  end.

(** F_GETLK tells whether F_SETLK would be refused: it copies to the caller
    the first lock that excludes him, or his own request with F_UNLCK if there is
    none, and changes nothing. *)
Theorem lock_get_contract s f flk rip first last p :
  lock_call s f F_GETLK flk rip first last p → st_locks_ok s →
  wp (lock_op f F_GETLK) (λ r s', ∃ answer bs k,
    flock_store (lock_answer flk answer) = Some bs ∧
    k_vircopy_to (who (glo s)) SEG_D (in_name1 (m_in (glo s))) bs (kern s) = (r, k) ∧ s' = s <| kern := k |> ∧
    match answer with
    | Some lk => ∃ j, locks s !! j = Some lk ∧ blocks (l_type flk) (Some rip) first last (fp_pid p) lk ∧
        ∀ i lk', (i < j)%nat → locks s !! i = Some lk' → ¬ blocks (l_type flk) (Some rip) first last (fp_pid p) lk'
    | None => ∀ j lk, locks s !! j = Some lk → ¬ blocks (l_type flk) (Some rip) first last (fp_pid p) lk
    end) s.
Proof.
  intros Hc Hok. assert (l_type flk = F_RDLCK ∨ l_type flk = F_WRLCK) as Hty
    by (by destruct (lc_type _ _ _ _ _ _ _ _ Hc) as [?|[?|[_ []]]]; auto).
  assert (∀ fl, ∃ bs k r, flock_store fl = Some bs ∧
    k_vircopy_to (who (glo s)) SEG_D (in_name1 (m_in (glo s))) bs (kern s) = (r, k)) as Hcopy.
  { intros fl. destruct (store_fields_is_Some flock_widths 0
      [l_type fl; l_whence fl; l_start fl; l_len fl; l_pid fl] (replicate (Z.to_nat FLOCK_SIZE) 0)) as [bs Hbs]; [done|].
    destruct (k_vircopy_to (who (glo s)) SEG_D (in_name1 (m_in (glo s))) bs (kern s)) as [r k] eqn:E.
    by exists bs, k, r. }
  eapply lock_op_start; [exact Hc|].
  eapply (lock_test_scan F_GETLK (l_type flk) (Some rip) first last NR_LOCKS 0 None p s Hty);
    [done|apply Hok|apply Hc|apply first_empty_start|lia| |].
  - intros e _ Hno. unfold lock_finish, when. do 5 wp_pure. eapply wp_rd; [apply Hc|]. do 2 wp_pure.
    change (F_GETLK =? F_GETLK) with true. cbv iota. do 2 wp_pure.
    destruct (Hcopy (lock_answer flk None)) as (bs & k & r & Hbs & Hk).
    wp_pure. eapply wp_deref; [exact Hbs|]. eapply wp_kcall; [exact Hk|]. by exists None, bs, k.
  - intros j lk e Hj Hb Hfirst. change (F_GETLK =? F_GETLK) with true. cbv iota.
    unfold lock_finish, when. do 5 wp_pure. eapply wp_rd; [apply Hc|]. do 2 wp_pure.
    change (F_GETLK =? F_GETLK) with true. cbv iota. do 2 wp_pure. eapply wp_rd; [exact Hj|]. wp_pure.
    destruct (Hcopy (lock_answer flk (Some lk))) as (bs & k & r & Hbs & Hk).
    wp_pure. eapply wp_deref; [exact Hbs|]. eapply wp_kcall; [exact Hk|]. exists (Some lk), bs, k.
    split_and!; [done|done|done|by exists j].
Qed.
End contract.
