(* ===== verification/FiledesSpec.v ===== *)
(** filedes.c and the descriptors of misc.c: the count of a filp slot is the
    number of descriptors that name it, in all the processes.  open.c: where [lseek] moves
    the position of a file. *)

From S2P Require Import Prelude Machine State Monad Inode FileMap Filedes Open Misc.

(** * References *)

(** The descriptors of [p] that name the slot [f]. *)
Definition fd_refs (f : nat) (p : fproc) : Z := count (λ x, x = Some f) (fp_filp p).
Definition refs (f : nat) (l : list fproc) : Z := total (fd_refs f) l.

Record fds_ok (fs : list filp) (ps : list fproc) : Prop := {
  fo_count f x : fs !! f = Some x → filp_count x = refs f ps;
  fo_valid p rp fd f : ps !! p = Some rp → fp_filp rp !! fd = Some (Some f) → (f < length fs)%nat;
  fo_length p rp : ps !! p = Some rp → length (fp_filp rp) = OPEN_MAX
}.

Lemma fd_refs_nonneg f p : 0 ≤ fd_refs f p.
Proof. apply count_nonneg. Qed.

(** A slot that is not in use is named by no descriptor. *)
Lemma unused_unnamed fs ps f x p rp fd :
  fds_ok fs ps → fs !! f = Some x → filp_count x = 0 → ps !! p = Some rp →
  fp_filp rp !! fd ≠ Some (Some f).
Proof.
  intros Hok Hf Hx Hp Hfd. pose proof (fo_count _ _ Hok _ _ Hf) as E. rewrite Hx in E.
  assert (fd_refs f rp = 0) as E0.
  { eapply (total_zero (fd_refs f) ps); [intros; apply fd_refs_nonneg|done|by eapply list_elem_of_lookup_2]. }
  assert (0 < fd_refs f rp); [|lia]. apply count_pos. eauto.
Qed.

Lemma fd_refs_insert g fd old new (p : fproc) :
  fp_filp p !! fd = Some old →
  fd_refs g (p <| fp_filp ::= λ l, <[fd := new]> l |>) =
    fd_refs g p - count_if (λ x, x = Some g) old + count_if (λ x, x = Some g) new.
Proof. intros H. unfold fd_refs. simpl. by rewrite (count_insert _ _ _ old). Qed.

(** A descriptor is made to name [f], whose count goes up. *)
Lemma fds_ok_share fs ps p rp fd f x :
  fds_ok fs ps → ps !! p = Some rp → fp_filp rp !! fd = Some None → fs !! f = Some x →
  fds_ok (<[f := x <| filp_count ::= Z.add 1 |>]> fs)
    (<[p := rp <| fp_filp ::= λ l, <[fd := Some f]> l |>]> ps).
Proof.
  intros Hok Hp Hfd Hf. split.
  - intros g y Hy. unfold refs. rewrite (total_insert _ _ _ rp) by done.
    rewrite (fd_refs_insert _ _ None) by done. rewrite (count_if_False _ None) by done.
    apply list_lookup_insert_Some in Hy as [(<- & <- & _)|[Hne Hy]].
    + rewrite count_if_True by done. simpl. rewrite (fo_count _ _ Hok _ _ Hf). unfold refs. lia.
    + rewrite count_if_False by congruence. rewrite (fo_count _ _ Hok _ _ Hy). unfold refs. lia.
  - intros q rq fd' g Hq Hg. rewrite length_insert.
    apply list_lookup_insert_Some in Hq as [(<- & <- & _)|[_ Hq]]; [|by eapply (fo_valid _ _ Hok)].
    simpl in Hg. apply list_lookup_insert_Some in Hg as [(_ & [= <-] & _)|[_ Hg]].
    + by eapply lookup_lt_Some.
    + by eapply (fo_valid _ _ Hok).
  - intros q rq Hq. apply list_lookup_insert_Some in Hq as [(_ & <- & _)|[_ Hq]].
    + simpl. rewrite length_insert. by eapply (fo_length _ _ Hok).
    + by eapply (fo_length _ _ Hok).
Qed.

(** * [get_fd] *)

(** The slot as [get_fd] hands it out. *)
Definition fresh_filp (bits : Z) (x : filp) : filp :=
  x <| filp_mode := bits |> <| filp_pos := 0 |> <| filp_selectors := 0 |> <| filp_select_ops := 0 |>
    <| filp_pipe_select_ops := 0 |> <| filp_flags := 0 |>.

Lemma free_fd_Some start l k :
  free_fd start l = Some k ↔
    l !! k = Some None ∧ (start ≤ k)%nat ∧ ∀ j, (start ≤ j < k)%nat → l !! j ≠ Some None.
Proof.
  unfold free_fd. split.
  - intros ((i & y) & (Hi & -> & Hlt)%list_find_Some & ->)%fmap_Some.
    rewrite lookup_drop in Hi. simpl. split_and!; [done|lia|]. intros j Hj E.
    apply (Hlt (j - start)%nat None); [|lia|done]. rewrite lookup_drop. by replace (start + (j - start))%nat with j by lia.
  - intros (Hk & Hs & Hlt). apply fmap_Some. exists ((k - start)%nat, None). split; [|simpl; lia].
    apply list_find_Some. split_and!; [|done|].
    + rewrite lookup_drop. by replace (start + (k - start))%nat with k by lia.
    + intros j y Hj Hlj ->. rewrite lookup_drop in Hj. apply (Hlt (start + j)%nat); [lia|done].
Qed.

Lemma free_fd_None start l : free_fd start l = None ↔ ∀ j, (start ≤ j)%nat → l !! j ≠ Some None.
Proof.
  unfold free_fd. rewrite fmap_None, list_find_None, Forall_forall. split.
  - intros H j Hj E. apply (H None); [|done]. apply list_elem_of_lookup. exists (j - start)%nat.
    rewrite lookup_drop. by replace (start + (j - start))%nat with j by lia.
  - intros H x Hx ->. apply list_elem_of_lookup in Hx as [j Hj]. rewrite lookup_drop in Hj.
    apply (H (start + j)%nat); [lia|done].
Qed.

Section spec.
Context {cfg : Config} {krn : Kernel}.
Implicit Types s : st.

(** What [get_fd] finds for the process [p]. *)
Definition got_fd (start : nat) (bits : Z) (s s' : st) (p : nat) (r : Z + nat * nat) : Prop :=
  ∃ rp, fprocs (tabs s) !! p = Some rp ∧
  match r with
  | inl e => s' = s ∧
      ((e = EMFILE ∧ ∀ j, (start ≤ j)%nat → fp_filp rp !! j ≠ Some None) ∨
       (e = ENFILE ∧ (∃ j, (start ≤ j)%nat ∧ fp_filp rp !! j = Some None) ∧
        ∀ f x, filps (tabs s) !! f = Some x → filp_count x ≠ 0))
  | inr (k, f) =>
      fp_filp rp !! k = Some None ∧ (start ≤ k)%nat ∧
      (∀ j, (start ≤ j < k)%nat → fp_filp rp !! j ≠ Some None) ∧
      ∃ x, filps (tabs s) !! f = Some x ∧ filp_count x = 0 ∧
        (∀ g y, (g < f)%nat → filps (tabs s) !! g = Some y → filp_count y ≠ 0) ∧
        s' = with_table (<[f := fresh_filp bits x]> (filps (tabs s))) s
  end.

Lemma get_fd_ok s start bits rp :
  fprocs (tabs s) !! fp (glo s) = Some rp →
  wp (get_fd start bits) (λ r s', got_fd start bits s s' (fp (glo s)) r) s.
Proof.
  intros Hp. unfold get_fd. wp_pure. wp_pure. wp_pure. eapply wp_rd; [exact Hp|].
  destruct (free_fd start (fp_filp rp)) as [k|] eqn:Ek.
  2:{ wp_pure. exists rp. split; [exact Hp|]. split; [done|]. left. split; [done|]. by apply free_fd_None. }
  apply free_fd_Some in Ek as (Hk & Hs & Hlow). wp_pure. wp_pure.
  destruct (list_find _ _) as [(f & x)|] eqn:Ef.
  - apply list_find_Some in Ef as (Hf & Hx & Hlt). wp_pure. eapply wp_wr; [exact Hf|]. wp_pure.
    exists rp. split; [exact Hp|]. split; [exact Hk|]. split; [exact Hs|]. split; [exact Hlow|].
    exists x. split; [exact Hf|]. split; [exact Hx|]. split; [|done].
    intros g y Hg Hy. by eapply Hlt.
  - apply list_find_None in Ef. wp_pure. exists rp. split; [exact Hp|]. split; [done|]. right.
    split; [done|]. split; [by exists k|]. intros f x Hf. rewrite Forall_forall in Ef.
    by eapply Ef, list_elem_of_lookup_2.
Qed.

(** Setting up an unused slot does not change who names it. *)
Lemma fds_ok_fresh fs ps f x bits :
  fds_ok fs ps → fs !! f = Some x → fds_ok (<[f := fresh_filp bits x]> fs) ps.
Proof.
  intros [Hc Hv Hl] Hf. split; [|intros; rewrite length_insert; by eapply Hv|done].
  intros g y [(<- & <- & _)|[_ Hy]]%list_lookup_insert_Some; [|by apply Hc].
  change (filp_count (fresh_filp bits x)) with (filp_count x). by apply Hc.
Qed.

Lemma get_filp_ok s fild rp :
  fprocs (tabs s) !! fp (glo s) = Some rp → length (fp_filp rp) = OPEN_MAX →
  wp (get_filp fild) (λ r s', s' = s <| glo ::= λ g, g <| err_code := EBADF |> |> ∧
    r = (if decide (0 ≤ fild < Z.of_nat OPEN_MAX) then mjoin (fp_filp rp !! Z.to_nat fild) else None)) s.
Proof.
  intros Hp Hlen. unfold get_filp. wp_pure. wp_pure.
  destruct (Z.ltb_spec fild 0); simpl.
  { wp_pure. split; [done|]. rewrite decide_False by lia. done. }
  destruct (Z.leb_spec (Z.of_nat OPEN_MAX) fild).
  { wp_pure. split; [done|]. rewrite decide_False by lia. done. }
  rewrite decide_True by lia. wp_pure. wp_pure. wp_pure. eapply wp_rd; [exact Hp|].
  destruct (fp_filp rp !! Z.to_nat fild) as [o|] eqn:E; [|apply lookup_ge_None in E; lia].
  apply wp_ret. done.
Qed.

(** * [do_dup] *)

Lemma set_fd_ok s p rp fd old f (Q : unit → st → Prop) :
  fprocs (tabs s) !! p = Some rp → fp_filp rp !! fd = Some old →
  Q tt (with_table (<[p := rp <| fp_filp ::= λ l, <[fd := f]> l |>]> (fprocs (tabs s))) s) →
  wp (set_fd p fd f) Q s.
Proof.
  intros Hp Hfd HQ. unfold set_fd. wp_pure. eapply wp_rd; [exact Hp|]. wp_pure.
  eapply wp_deref; [exact Hfd|]. by eapply wp_wr.
Qed.

(** The descriptor [fd] of the process [p] now names the slot [f]. *)
Record shared (s s' : st) (p fd f : nat) (rp : fproc) : Prop := {
  sh_fds : fds_ok (filps (tabs s')) (fprocs (tabs s'));
  sh_procs : fprocs (tabs s') = <[p := rp <| fp_filp ::= λ l, <[fd := Some f]> l |>]> (fprocs (tabs s));
  sh_count : ∃ x, filps (tabs s) !! f = Some x ∧
    filps (tabs s') !! f = Some (x <| filp_count ::= Z.add 1 |>)
}.

Lemma share_filp_ok s rp fd f :
  fds_ok (filps (tabs s)) (fprocs (tabs s)) → fprocs (tabs s) !! fp (glo s) = Some rp →
  fp_filp rp !! fd = Some None → (f < length (filps (tabs s)))%nat →
  wp (share_filp fd f) (λ _ s', shared s s' (fp (glo s)) fd f rp) s.
Proof.
  intros Hok Hp Hfd Hf. apply lookup_lt_is_Some in Hf as [x Hx]. unfold share_filp.
  wp_pure. wp_pure. wp_pure. eapply wp_wr; [exact Hx|]. eapply set_fd_ok; [exact Hp|exact Hfd|].
  pose proof (fds_ok_share _ _ _ _ _ _ _ Hok Hp Hfd Hx) as Hok'.
  split; [exact Hok'|done|]. exists x. split; [done|]. simpl.
  apply list_lookup_insert_eq. by eapply lookup_lt_Some.
Qed.

(** The slot that the descriptor [fd] of [rp] names. *)
Definition named (rp : fproc) (fd : Z) : option nat :=
  if decide (0 ≤ fd < Z.of_nat OPEN_MAX) then mjoin (fp_filp rp !! Z.to_nat fd) else None.

Lemma named_valid s p rp fd f :
  fds_ok (filps (tabs s)) (fprocs (tabs s)) → fprocs (tabs s) !! p = Some rp → named rp fd = Some f →
  ∃ x, filps (tabs s) !! f = Some x ∧ filp_count x ≠ 0.
Proof.
  intros Hok Hp. unfold named. case_decide; [|done].
  destruct (fp_filp rp !! Z.to_nat fd) as [o|] eqn:E; [|done]. simpl. intros ->.
  assert (f < length (filps (tabs s)))%nat as [x Hx]%lookup_lt_is_Some by (by eapply (fo_valid _ _ Hok)).
  exists x. split; [done|]. intros E0. by eapply unused_unnamed.
Qed.

Lemma do_dup_ok s rp :
  fds_ok (filps (tabs s)) (fprocs (tabs s)) → fprocs (tabs s) !! fp (glo s) = Some rp →
  let fd := in_fd (m_in (glo s)) in Z.ldiff fd DUP_MASK = fd →
  wp do_dup (λ r s', fds_ok (filps (tabs s')) (fprocs (tabs s')) ∧
    match named rp fd with
    | None => r = EBADF ∧ tabs s' = tabs s
    | Some f =>
        (r = EMFILE ∧ tabs s' = tabs s ∧ ∀ j, fp_filp rp !! j ≠ Some None) ∨
        (r = ENFILE ∧ tabs s' = tabs s ∧ ∀ g x, filps (tabs s) !! g = Some x → filp_count x ≠ 0) ∨
        ∃ k, r = Z.of_nat k ∧ fp_filp rp !! k = Some None ∧
          (∀ j, (j < k)%nat → fp_filp rp !! j ≠ Some None) ∧
          shared s s' (fp (glo s)) k f rp
    end) s.
Proof.
  intros Hok Hp fd Hfd. unfold do_dup. wp_pure. wp_pure. fold fd. rewrite Hfd. wp_pure.
  eapply wp_mono; [apply (get_filp_ok s fd rp); [done|by eapply (fo_length _ _ Hok)]|].
  intros r s1 (-> & ->). fold (named rp fd). destruct (named rp fd) as [f|] eqn:Ef.
  2:{ wp_pure. done. }
  rewrite Z.eqb_refl. wp_pure. eapply wp_mono; [by apply (get_fd_ok _ 0 0 rp)|].
  intros r s2 (rp' & Hp' & Hr). simpl in Hp'. rewrite Hp in Hp'. injection Hp' as <-.
  destruct r as [e|[k f2]].
  - destruct Hr as [-> [(-> & Hno)|(-> & _ & Hno)]]; wp_pure; (split; [done|]).
    + left. split; [done|]. split; [done|]. intros j. apply Hno. lia.
    + right; left. done.
  - destruct Hr as (Hk & _ & Hlow & x & Hx & Hx0 & _ & ->). simpl in Hx.
    destruct (named_valid s (fp (glo s)) rp fd f) as (y & Hy & Hy0); [done..|].
    assert (f2 ≠ f) as Hne by congruence.
    wp_pure. wp_pure. wp_pure.
    eapply wp_mono; [apply (share_filp_ok _ rp k f)|].
    + simpl. by eapply fds_ok_fresh.
    + done.
    + done.
    + simpl. rewrite length_insert. by eapply lookup_lt_Some.
    + intros [] s3 [H1 H2 (z & Hz & Hz')]. apply wp_ret. split; [done|]. right; right. exists k.
      split; [done|]. split; [done|]. split; [intros j Hj; apply Hlow; lia|].
      split; [done|done|]. simpl in Hz. rewrite list_lookup_insert_ne in Hz by done. by exists z.
Qed.

(** * [do_fork] *)

(** Counting the references a process takes over. *)
Lemma count_refs_ok s (l : list (option nat)) :
  (∀ f, Some f ∈ l → (f < length (filps (tabs s)))%nat) →
  wp (for_each l (λ f, match f with
      | Some f => wr f (λ f, f <| filp_count ::= Z.add 1 |>)
      | None => mret tt
      end))
    (λ _ s', s' = with_table (filps (tabs s')) s ∧
       length (filps (tabs s')) = length (filps (tabs s)) ∧
       ∀ f x, filps (tabs s) !! f = Some x →
         filps (tabs s') !! f = Some (x <| filp_count ::= Z.add (count (λ y, y = Some f) l) |>)) s.
Proof.
  intros Hl.
  eapply wp_mono; [eapply (wp_for_each l _ (λ pre s', s' = with_table (filps (tabs s')) s ∧
    length (filps (tabs s')) = length (filps (tabs s)) ∧
    ∀ f x, filps (tabs s) !! f = Some x →
      filps (tabs s') !! f = Some (x <| filp_count ::= Z.add (count (λ y, y = Some f) pre) |>)))|done].
  - split; [by destruct s as [? ? [] ?]|]. split; [done|]. intros f x Hx. rewrite Hx. by destruct x.
  - intros pre o post s1 El (Es & Elen & Hcount).
    assert (∀ f, count (λ y, y = Some f) (pre ++ [o]) =
      count (λ y, y = Some f) pre + count_if (λ y, y = Some f) o) as Eapp.
    { intros f. unfold count, count_if. rewrite filter_app, length_app, filter_cons, filter_nil.
      case_decide; simpl; lia. }
    destruct o as [g|].
    + assert (g < length (filps (tabs s)))%nat as [x Hx]%lookup_lt_is_Some.
      { apply Hl. rewrite El. apply elem_of_app. right. by left. }
      eapply wp_wr; [by apply Hcount|]. split; [rewrite Es; done|]. simpl. rewrite length_insert.
      split; [done|]. intros f y Hy. rewrite Eapp.
      destruct (decide (f = g)) as [->|Hne].
      * rewrite list_lookup_insert_eq by (rewrite Elen; by eapply lookup_lt_Some).
        assert (y = x) as -> by congruence. rewrite count_if_True by done.
        destruct x. unfold set_field. simpl. do 2 f_equal. lia.
      * rewrite list_lookup_insert_ne by done. rewrite count_if_False by congruence.
        rewrite Z.add_0_r. by apply Hcount.
    + apply wp_ret. split; [done|]. split; [done|]. intros f x Hx. rewrite Eapp, count_if_False by done.
      rewrite Z.add_0_r. by apply Hcount.
Qed.

(** The process [do_fork] makes of its parent [x]. *)
Definition forked (x : fproc) (pid : Z) : fproc :=
  x <| fp_pid := pid |> <| fp_sesldr := false |> <| fp_execced := false |>.
(** A slot with no open file. *)
Definition no_files (p : fproc) : Prop := ∀ f, fd_refs f p = 0.

Lemma fds_ok_fork fs fs' ps i j x y pid :
  fds_ok fs ps → ps !! i = Some x → ps !! j = Some y → no_files y → length fs' = length fs →
  (∀ f z, fs !! f = Some z → fs' !! f = Some (z <| filp_count ::= Z.add (fd_refs f x) |>)) →
  fds_ok fs' (<[j := forked x pid]> ps).
Proof.
  intros Hok Hi Hj Hy Hlen Hfs. split.
  - intros f z Hz. assert (f < length fs)%nat as [z0 Hz0]%lookup_lt_is_Some
      by (rewrite <- Hlen; by eapply lookup_lt_Some).
    rewrite (Hfs _ _ Hz0) in Hz. injection Hz as <-. unfold refs.
    rewrite (total_insert _ _ _ y), Hy by done. change (fd_refs f (forked x pid)) with (fd_refs f x).
    pose proof (fo_count _ _ Hok _ _ Hz0) as E. unfold refs in E. simpl. lia.
  - intros q rq fd f Hq Hf. rewrite Hlen.
    apply list_lookup_insert_Some in Hq as [(_ & <- & _)|[_ Hq]]; [|by eapply (fo_valid _ _ Hok)].
    by eapply (fo_valid _ _ Hok i x).
  - intros q rq Hq. apply list_lookup_insert_Some in Hq as [(_ & <- & _)|[_ Hq]]; [|by eapply (fo_length _ _ Hok)].
    by eapply (fo_length _ _ Hok i x).
Qed.

Definition used_inode (root work r : nat) : Z :=
  count_if (λ y, y = r) root + count_if (λ y, y = r) work.

Lemma dup_inode_twice s root work ri wi (Q : unit → st → Prop) :
  inodes (tabs s) !! root = Some ri → inodes (tabs s) !! work = Some wi →
  (∀ l, length l = length (inodes (tabs s)) →
    (∀ r n, inodes (tabs s) !! r = Some n → l !! r = Some (n <| i_count ::= Z.add (used_inode root work r) |>)) →
    Q tt (with_table l s)) →
  wp (dup_inode root;; dup_inode work) Q s.
Proof.
  intros Hr Hw HQ. unfold dup_inode. wp_pure. eapply wp_wr; [exact Hr|].
  assert (root < length (inodes (tabs s)))%nat as Hlr by by eapply lookup_lt_Some.
  assert (work < length (inodes (tabs s)))%nat as Hlw by by eapply lookup_lt_Some.
  assert (∀ n : inode, n <| i_count ::= Z.add 0 |> = n) as E0 by (intros n; by destruct n).
  destruct (decide (root = work)) as [<-|Hne].
  - apply (wp_wr_with (inodes (tabs s))); [done|]. apply HQ; [by rewrite length_insert|].
    intros r n Hn. unfold used_inode. destruct (decide (root = r)) as [<-|Hne].
    + rewrite list_lookup_insert_eq by done. rewrite !count_if_True by done.
      assert (n = ri) as -> by congruence. destruct ri. unfold set_field. simpl. do 2 f_equal. lia.
    + rewrite list_lookup_insert_ne by done. rewrite !count_if_False by done. by rewrite E0.
  - eapply wp_wr; [simpl; rewrite list_lookup_insert_ne by done; exact Hw|]. rewrite with_table_twice.
    apply HQ; [simpl; by rewrite !length_insert|]. simpl. intros r n Hn. unfold used_inode.
    destruct (decide (work = r)) as [<-|Hnw].
    + rewrite list_lookup_insert_eq by (by rewrite length_insert).
      rewrite count_if_False, count_if_True by done. assert (n = wi) as -> by congruence. by destruct wi.
    + rewrite list_lookup_insert_ne by done. rewrite (count_if_False _ work) by done.
      destruct (decide (root = r)) as [<-|Hnr].
      * rewrite list_lookup_insert_eq by done. rewrite count_if_True by done.
        assert (n = ri) as -> by congruence. by destruct ri.
      * rewrite list_lookup_insert_ne by done. rewrite count_if_False by done. by rewrite E0.
Qed.

Lemma do_fork_ok s i j x y root work ri wi :
  fds_ok (filps (tabs s)) (fprocs (tabs s)) → who (glo s) = PM_PROC_NR →
  in_parent (m_in (glo s)) = Z.of_nat i → in_child (m_in (glo s)) = Z.of_nat j →
  fprocs (tabs s) !! i = Some x → fprocs (tabs s) !! j = Some y → no_files y →
  fp_rootdir x = Some root → fp_workdir x = Some work →
  inodes (tabs s) !! root = Some ri → inodes (tabs s) !! work = Some wi →
  wp do_fork (λ r s', r = OK ∧ fds_ok (filps (tabs s')) (fprocs (tabs s')) ∧
    fprocs (tabs s') = <[j := forked x (in_pid (m_in (glo s)))]> (fprocs (tabs s)) ∧
    (∀ f z, filps (tabs s) !! f = Some z →
       filps (tabs s') !! f = Some (z <| filp_count ::= Z.add (fd_refs f x) |>)) ∧
    (∀ r n, inodes (tabs s) !! r = Some n →
       inodes (tabs s') !! r = Some (n <| i_count ::= Z.add (used_inode root work r) |>)) ∧
    cache s' = cache s ∧ kern s' = kern s ∧ glo s' = glo s) s.
Proof.
  intros Hok Hwho Ei Ej Hi Hj Hy Hroot Hwork Hri Hwi. unfold do_fork. wp_pure. wp_pure. wp_pure. wp_pure.
  rewrite Hwho, Z.eqb_refl, Ei, Ej. cbn [negb].
  assert (∀ n, Process.index (Z.of_nat n) = mret n) as Hindex.
  { intros n. unfold Process.index. destruct (Z.ltb_spec (Z.of_nat n) 0); [lia|]. by rewrite Nat2Z.id. }
  rewrite !Hindex. wp_pure. wp_pure. wp_pure. wp_pure. wp_pure. eapply wp_rd; [exact Hi|].
  wp_pure. eapply wp_wr; [exact Hj|]. wp_pure.
  eapply wp_mono; [apply count_refs_ok|].
  { intros f [fd Hfd]%list_elem_of_lookup. by eapply (fo_valid _ _ Hok i x). }
  intros [] s1 (Es & Hlen & Hcount). simpl in Hlen, Hcount. rewrite Es. clear Es.
  wp_pure. eapply wp_wr; [simpl; apply list_lookup_insert_eq; by eapply lookup_lt_Some|].
  wp_pure. eapply wp_deref; [exact Hroot|]. wp_pure.
  rewrite Hwork. refine (wp_mono _ _ _ _ (wp_bind_inv (dup_inode root) (λ _, dup_inode work) _ _ _) _).
  2:{ intros [] s2 H. apply wp_bind. eapply wp_deref; [done|]. apply wp_bind. exact H. }
  eapply dup_inode_twice; [exact Hri|exact Hwi|]. intros l Hl Hl'. apply wp_ret. simpl.
  simpl in Hl'. rewrite list_insert_insert_eq. unfold forked. split; [done|].
  split; [eapply fds_ok_fork; [exact Hok|exact Hi|exact Hj|exact Hy|exact Hlen|exact Hcount]|].
  split; [done|]. split; [exact Hcount|]. split; [exact Hl'|done].
Qed.

(** get_fd answers EMFILE if the caller has no free descriptor from [start]
    on, ENFILE if it has one but every filp slot is in use, and else gives the
    lowest free descriptor and the first slot not in use, which it makes ready;
    nothing else changes. *)
Theorem get_fd_contract s start bits rp :
  fprocs (tabs s) !! fp (glo s) = Some rp →
  wp (get_fd start bits) (λ r s', got_fd start bits s s' (fp (glo s)) r) s.
Proof. apply get_fd_ok. Qed.

(** dup of a descriptor that is not open answers EBADF; else it answers
    EMFILE or ENFILE exactly when there is no free descriptor or no unused slot,
    with the tables as they were, or makes the lowest free descriptor name the
    same slot, whose count goes up.  The count of every slot remains the number
    of descriptors that name it. *)
Theorem do_dup_contract s rp :
  fds_ok (filps (tabs s)) (fprocs (tabs s)) → fprocs (tabs s) !! fp (glo s) = Some rp →
  let fd := in_fd (m_in (glo s)) in Z.ldiff fd DUP_MASK = fd →
  wp do_dup (λ r s', fds_ok (filps (tabs s')) (fprocs (tabs s')) ∧
    match named rp fd with
    | None => r = EBADF ∧ tabs s' = tabs s
    | Some f =>
        (r = EMFILE ∧ tabs s' = tabs s ∧ ∀ j, fp_filp rp !! j ≠ Some None) ∨
        (r = ENFILE ∧ tabs s' = tabs s ∧ ∀ g x, filps (tabs s) !! g = Some x → filp_count x ≠ 0) ∨
        ∃ k, r = Z.of_nat k ∧ fp_filp rp !! k = Some None ∧
          (∀ j, (j < k)%nat → fp_filp rp !! j ≠ Some None) ∧
          shared s s' (fp (glo s)) k f rp
    end) s.
Proof. apply do_dup_ok. Qed.

(** C10: fork, asked for by the process manager, makes the child's slot a copy of
    the parent's with the pid of the request; every slot the parent has open is
    counted once more for each of its descriptors, and the inodes of its root and
    working directory once more each; the counts of the filp slots are the
    numbers of descriptors that name them again. *)
Theorem do_fork_contract s i j x y root work ri wi :
  fds_ok (filps (tabs s)) (fprocs (tabs s)) → who (glo s) = PM_PROC_NR →
  in_parent (m_in (glo s)) = Z.of_nat i → in_child (m_in (glo s)) = Z.of_nat j →
  fprocs (tabs s) !! i = Some x → fprocs (tabs s) !! j = Some y → no_files y →
  fp_rootdir x = Some root → fp_workdir x = Some work →
  inodes (tabs s) !! root = Some ri → inodes (tabs s) !! work = Some wi →
  wp do_fork (λ r s', r = OK ∧ fds_ok (filps (tabs s')) (fprocs (tabs s')) ∧
    fprocs (tabs s') = <[j := forked x (in_pid (m_in (glo s)))]> (fprocs (tabs s)) ∧
    (∀ f z, filps (tabs s) !! f = Some z →
       filps (tabs s') !! f = Some (z <| filp_count ::= Z.add (fd_refs f x) |>)) ∧
    (∀ r n, inodes (tabs s) !! r = Some n →
       inodes (tabs s') !! r = Some (n <| i_count ::= Z.add (used_inode root work r) |>)) ∧
    cache s' = cache s ∧ kern s' = kern s ∧ glo s' = glo s) s.
Proof. apply do_fork_ok. Qed.
End spec.

(** A position is kept as a 32-bit number and compared as a signed one: the move
    is refused exactly when the signed sum overflows. *)
Lemma seek_position_eq base offset :
  0 ≤ base < 2 ^ 32 → - 2 ^ 31 ≤ offset < 2 ^ 31 →
  seek_position base offset =
    if decide (- 2 ^ 31 ≤ i32 base + offset < 2 ^ 31) then Some (u32 (base + offset)) else None.
Proof.
  intros Hb Ho. unfold seek_position, u32, i32. cbv zeta.
  destruct (Z.ltb_spec 0 offset), (Z.ltb_spec offset 0); cbn [andb]; try lia;
    repeat match goal with |- context [Z.ltb ?a ?b] => destruct (Z.ltb_spec a b) end; case_decide;
    try done; exfalso; zlia.
Qed.

Section spec.
Context {cfg : Config} {krn : Kernel}.
Implicit Types s : st.

(** The position an offset is counted from. *)
Definition seek_base (whence fpos size : Z) : option Z :=
  if decide (whence = SEEK_SET) then Some 0 else if decide (whence = SEEK_CUR) then Some fpos
  else if decide (whence = SEEK_END) then Some size else None.

(** The new position, if the request is one. *)
Definition seek_target (whence fpos size offset : Z) : option Z :=
  base ← seek_base whence fpos size;
  if decide (- 2 ^ 31 ≤ i32 base + offset < 2 ^ 31) then Some (u32 (base + offset)) else None.

(** The state after a seek of the slot [f] of the file [rip]. *)
Definition sought (s s' : st) (f rip : nat) (x : filp) (r : inode) (pos : Z) : Prop :=
  filps (tabs s') = <[f := x <| filp_pos := pos |>]> (filps (tabs s)) ∧
  inodes (tabs s') = (if decide (pos = filp_pos x) then inodes (tabs s)
                      else <[rip := r <| i_seek := true |>]> (inodes (tabs s))) ∧
  m2_l1 (m_out (glo s')) = i32 pos ∧ cache s' = cache s ∧ kern s' = kern s ∧
  fprocs (tabs s') = fprocs (tabs s).

Lemma do_lseek_ok s rp :
  fds_ok (filps (tabs s)) (fprocs (tabs s)) → fprocs (tabs s) !! fp (glo s) = Some rp →
  (∀ f x, filps (tabs s) !! f = Some x → filp_count x ≠ 0 → 0 ≤ filp_pos x < 2 ^ 32 ∧
     ∃ rip r, filp_ino x = Some rip ∧ inodes (tabs s) !! rip = Some r ∧ 0 ≤ i_size r < 2 ^ 32) →
  let m := m_in (glo s) in
  wp do_lseek (λ res s',
    match named rp (in_ls_fd m) with
    | None => res = EBADF ∧ tabs s' = tabs s
    | Some f => ∃ x rip r, filps (tabs s) !! f = Some x ∧ filp_ino x = Some rip ∧
        inodes (tabs s) !! rip = Some r ∧
        if i_pipe r then res = ESPIPE ∧ tabs s' = tabs s
        else match seek_target (in_whence m) (filp_pos x) (i_size r) (i32 (in_offset m)) with
             | None => res = EINVAL ∧ tabs s' = tabs s
             | Some pos => res = OK ∧ sought s s' f rip x r pos
             end
    end) s.
Proof.
  intros Hok Hp Hfilps m. unfold do_lseek. wp_pure. wp_pure. fold m. wp_pure.
  eapply wp_mono; [apply (get_filp_ok s _ rp); [done|by eapply (fo_length _ _ Hok)]|].
  intros o s1 (-> & ->). fold (named rp (in_ls_fd m)).
  destruct (named rp (in_ls_fd m)) as [f|] eqn:Ef; [|by wp_pure].
  destruct (named_valid s _ rp _ f Hok Hp Ef) as (x & Hx & Hx0).
  destruct (Hfilps f x Hx Hx0) as (Hpos & rip & r & Hino & Hr & Hsize).
  wp_pure. eapply wp_rd; [exact Hx|]. wp_pure. eapply wp_deref; [exact Hino|].
  wp_pure. eapply wp_rd; [exact Hr|]. destruct (i_pipe r) eqn:Epipe.
  { wp_pure. exists x, rip, r. by rewrite Epipe. }
  wp_pure. eapply wp_rd; [exact Hx|]. wp_pure. eapply wp_rd; [exact Hr|]. cbv zeta.
  set (off := i32 (in_offset m)). pose proof (i32_range (in_offset m)) as Hoff. fold off in Hoff.
  assert ((b ← (if in_whence m =? 0 then Some 0 else if in_whence m =? 1 then Some (filp_pos x)
           else if in_whence m =? 2 then Some (i_size r) else None); seek_position b off) =
    seek_target (in_whence m) (filp_pos x) (i_size r) off) as ->.
  { unfold seek_target, seek_base, SEEK_SET, SEEK_CUR, SEEK_END.
    destruct (Z.eqb_spec (in_whence m) 0); [rewrite decide_True by done; by apply seek_position_eq|].
    rewrite (decide_False (P := in_whence m = 0)) by done.
    destruct (Z.eqb_spec (in_whence m) 1); [rewrite decide_True by done; by apply seek_position_eq|].
    rewrite (decide_False (P := in_whence m = 1)) by done.
    destruct (Z.eqb_spec (in_whence m) 2); [rewrite decide_True by done; by apply seek_position_eq|].
    by rewrite decide_False. }
  destruct (seek_target _ _ _ off) as [pos|] eqn:Et; cycle 1.
  { wp_pure. exists x, rip, r. rewrite Epipe. fold off. by rewrite Et. }
  assert (∀ Q s2, filps (tabs s2) = filps (tabs s) →
    (∀ s3, s3 = with_table (<[f := x <| filp_pos := pos |>]> (filps (tabs s2))) s2 →
       Q OK (s3 <| glo ::= λ g, g <| m_out ::= λ m, m <| m2_l1 := i32 pos |> |> |>)) →
    wp (wr f (λ f, f <| filp_pos := pos |>);;
        wg (λ g, g <| m_out ::= λ m, m <| m2_l1 := i32 pos |> |>);; mret OK) Q s2) as Hend.
  { intros Q s2 Ef2 HQ. wp_pure. eapply wp_wr; [change (table s2) with (filps (tabs s2)); by rewrite Ef2|].
    wp_pure. wp_pure. wp_pure. by apply HQ. }
  wp_pure. unfold when. destruct (Z.eqb_spec pos (filp_pos x)) as [Epos|Epos]; cbn [negb].
  - apply wp_ret, Hend; [done|]. intros s3 ->. exists x, rip, r. rewrite Epipe. fold off. rewrite Et.
    do 3 (split; [done|]). split; [done|]. split; [done|]. rewrite decide_True by done. done.
  - eapply wp_wr; [exact Hr|]. apply Hend; [done|]. intros s3 ->. exists x, rip, r. rewrite Epipe. fold off.
    rewrite Et. do 3 (split; [done|]). split; [done|]. split; [done|]. rewrite decide_False by done. done.
Qed.

(** lseek moves the position of an open file to the base [whence] names plus
    the offset when the sum, in signed 32-bit arithmetic, does not overflow, gives
    it back in the reply and notes that read ahead is off if it changed; it
    answers EINVAL on overflow or an unknown [whence], ESPIPE on a pipe and EBADF
    on a descriptor that is not open, and then moves nothing. *)
Theorem do_lseek_contract s rp :
  fds_ok (filps (tabs s)) (fprocs (tabs s)) → fprocs (tabs s) !! fp (glo s) = Some rp →
  (∀ f x, filps (tabs s) !! f = Some x → filp_count x ≠ 0 → 0 ≤ filp_pos x < 2 ^ 32 ∧
     ∃ rip r, filp_ino x = Some rip ∧ inodes (tabs s) !! rip = Some r ∧ 0 ≤ i_size r < 2 ^ 32) →
  let m := m_in (glo s) in
  wp do_lseek (λ res s',
    match named rp (in_ls_fd m) with
    | None => res = EBADF ∧ tabs s' = tabs s
    | Some f => ∃ x rip r, filps (tabs s) !! f = Some x ∧ filp_ino x = Some rip ∧
        inodes (tabs s) !! rip = Some r ∧
        if i_pipe r then res = ESPIPE ∧ tabs s' = tabs s
        else match seek_target (in_whence m) (filp_pos x) (i_size r) (i32 (in_offset m)) with
             | None => res = EINVAL ∧ tabs s' = tabs s
             | Some pos => res = OK ∧ sought s s' f rip x r pos
             end
    end) s.
Proof. apply do_lseek_ok. Qed.
End spec.
