(* ===== verification/SuperSpec.v ===== *)
(** [sync]: what it leaves on the disk.  super.c and the zones of cache.c: what a super
    block that [read_super] takes satisfies, and the allocation of zones. *)

From S2P Require Import Prelude Machine State Monad Utility Process Device SuperTable Links Cache CacheInv DiskView Flush CacheSpec CacheContract Bitmap BitmapSpec Inode InodeSpec InodeContract Sync.

Section spec.
Context {cfg : Config} {krn : Kernel} {dk : Disk}.
Context (D : Z → Prop).
Implicit Types (s : st) (t : tables) (r : inode).

(** * The inodes *)

(** An inode [sync_inodes] writes. *)
Definition modified (r : inode) : Prop := 0 < i_count r ∧ i_dirt r = DIRTY.

(** The inodes to be written have a place on a disk that may be written, and fit
    the format of its file system. *)
Definition writable (t : tables) (r : inode) : Prop := ∃ sp x,
  inode_place t D (i_dev r) sp x (i_num r) ∧ s_rd_only x = 0 ∧ inode_fits x r.

Lemma inode_place_devices t t' dev sp x num :
  same_devices t t' → inode_place t D dev sp x num → inode_place t' D dev sp x num.
Proof.
  intros Hd [H1 H2 H3 H4 H5 H6]. split; [done| |done|done|done|by eapply addressable_devices].
  by rewrite (sd_supers _ _ Hd).
Qed.

(** The slot before and after: only the times and the pointer to the super
    block change. *)
Definition saved_from (r r1 : inode) : Prop :=
  ∃ now sp, r1 = (stamped now (r <| i_sp := Some sp |>)) <| i_dirt := CLEAN |>.

(** The file of [r] is stored where the devices of [s] show it. *)
Definition stored (s : st) (r : inode) : Prop := ∃ now x sp,
  inode_place (tabs s) D (i_dev r) sp x (i_num r) ∧
  ∀ r0, ∃ r', disk_inode s (i_dev r) x (i_num r) r0 = Some r' ∧
    same_file x (stamped now (r <| i_sp := Some sp |>)) r'.

Lemma stamped_place now r : i_count (stamped now r) = i_count r ∧ i_dev (stamped now r) = i_dev r ∧
  i_num (stamped now r) = i_num r.
Proof. unfold stamped. destruct (truth _); [|done]. cbv zeta. by destruct (has _ ATIME), (has _ CTIME), (has _ MTIME). Qed.

(** What the first [n] slots have become, and the other blocks. *)
Record synced (s : st) (n : nat) (s1 : st) : Prop := {
  sy_cache : cache_ok (tabs s1) D s1;
  sy_free : has_free s1;
  sy_glo : glo s1 = glo s;
  sy_devices : same_devices (tabs s) (tabs s1);
  sy_slots i : inodes (tabs s1) !! i = inodes (tabs s) !! i ∨
    ∃ r r1, (i < n)%nat ∧ inodes (tabs s) !! i = Some r ∧ modified r ∧
      inodes (tabs s1) !! i = Some r1 ∧ saved_from r r1;
  sy_done i r : (i < n)%nat → inodes (tabs s) !! i = Some r → modified r →
    stored s1 r ∧ ∃ r1, inodes (tabs s1) !! i = Some r1 ∧ saved_from r r1;
  sy_frame dev blk : D dev →
    (∀ i r sp x, inodes (tabs s) !! i = Some r → modified r →
       inode_place (tabs s) D (i_dev r) sp x (i_num r) → (i_dev r, inode_block x (i_num r)) ≠ (dev, blk)) →
    dview s1 dev blk = dview s dev blk
}.

Lemma synced_start s : cache_ok (tabs s) D s → has_free s → synced s 0 s.
Proof. intros Hok Hfree. split; try done; [by left|intros i r Hi; lia]. Qed.

Lemma synced_skip s n s1 r :
  synced s n s1 → inodes (tabs s) !! n = Some r → ¬ modified r → synced s (S n) s1.
Proof.
  intros [H1 H2 H3 H4 H5 H6 H7] Hr Hm. split; try done.
  - intros i. destruct (H5 i) as [?|(r0 & r1 & Hi & H)]; [by left|right]. exists r0, r1. split; [lia|done].
  - intros i r0 Hi Hr0 Hm0. destruct (decide (i = n)) as [->|]; [congruence|]. apply (H6 i); [lia|done|done].
Qed.

Lemma stored_later s1 s' r rn sp x :
  stored s1 r → same_devices (tabs s1) (tabs s') →
  inode_place (tabs s1) D (i_dev rn) sp x (i_num rn) → (i_dev r, i_num r) ≠ (i_dev rn, i_num rn) →
  (∀ num' r0, inode_place (tabs s1) D (i_dev rn) sp x num' → num' ≠ i_num rn →
     disk_inode s' (i_dev rn) x num' r0 = disk_inode s1 (i_dev rn) x num' r0) →
  (∀ dev' blk, D dev' → (dev', blk) ≠ (i_dev rn, inode_block x (i_num rn)) →
     dview s' dev' blk = dview s1 dev' blk) →
  stored s' r.
Proof.
  intros (now & x' & sp' & Hp & Himg) Hd Hpn Hne Hsame Hother. exists now, x', sp'.
  split; [by eapply inode_place_devices|]. intros r0. destruct (Himg r0) as (r' & Hr' & Hf). exists r'.
  split; [|done]. rewrite <- Hr'. destruct (decide (i_dev r = i_dev rn)) as [E|E].
  - pose proof (ip_super _ _ _ _ _ _ Hp) as Hs. rewrite E, (ip_super _ _ _ _ _ _ Hpn) in Hs.
    injection Hs as <- <-. rewrite E in Hp. rewrite E. apply Hsame; [done|congruence].
  - unfold disk_inode. by rewrite Hother; [|apply Hp|congruence].
Qed.

Lemma synced_write s n s1 r :
  clock_ok → synced s n s1 → inodes (tabs s) !! n = Some r → modified r → writable (tabs s) r →
  inodes_ok (inodes (tabs s)) →
  wp (rw_inode n WRITING) (λ _ s', synced s (S n) s') s1.
Proof.
  intros Hclock [H1 H2 H3 H4 H5 H6 H7] Hr Hm (sp & x & Hp & Hro & Hfit) Huniq.
  assert (inodes (tabs s1) !! n = Some r) as Hr1.
  { destruct (H5 n) as [->|(? & ? & ? & _)]; [done|lia]. }
  pose proof (inode_place_devices _ _ _ _ _ _ H4 Hp) as Hp1.
  eapply wp_mono; [eapply (rw_inode_image_ok D s1 n r (i_dev r) sp x (i_num r)); done|].
  intros [] s' (now & Hok & Hfree & Hg & Ht & Himg & Hsame & Hother).
  set (r1 := stamped now (r <| i_sp := Some sp |>)) in *.
  assert (saved_from r (r1 <| i_dirt := CLEAN |>)) as Hsaved by (exists now, sp; done).
  assert (same_devices (tabs s1) (tabs s')) as Hd.
  { rewrite Ht. apply with_inode_devices. }
  assert (n < length (inodes (tabs s1)))%nat as Hlt by by eapply lookup_lt_Some.
  assert (inodes (tabs s') = <[n := r1 <| i_dirt := CLEAN |>]> (inodes (tabs s1))) as Ei by (by rewrite Ht).
  split; [done|done|congruence| | | |].
  - destruct H4, Hd. split; congruence.
  - intros i. rewrite Ei. destruct (decide (n = i)) as [<-|Hne].
    + rewrite list_lookup_insert_eq by done. right. exists r, (r1 <| i_dirt := CLEAN |>). split; [lia|done].
    + rewrite list_lookup_insert_ne by done.
      destruct (H5 i) as [->|(r0 & r1' & Hi & H)]; [by left|right]. exists r0, r1'. split; [lia|done].
  - intros i r0 Hi Hr0 Hm0. rewrite Ei. destruct (decide (n = i)) as [<-|Hne].
    + assert (r0 = r) as -> by congruence. split.
      * exists now, x, sp. split; [by eapply inode_place_devices|exact Himg].
      * exists (r1 <| i_dirt := CLEAN |>). by rewrite list_lookup_insert_eq.
    + rewrite list_lookup_insert_ne by done. destruct (H6 i r0) as [Hst Hsl]; [lia|done|done|].
      split; [|done]. eapply stored_later; [exact Hst|exact Hd|exact Hp1| |exact Hsame|exact Hother].
      intros [= E1 E2]. apply Hne. symmetry. eapply (Huniq i n r0 r); try done; [apply Hm0|apply Hm].
  - intros dev blk HD' Hno. rewrite Hother; [by apply H7|done|].
    intros [= -> ->]. by apply (Hno n r sp x Hr Hm Hp).
Qed.

Lemma sync_inodes_ok s :
  clock_ok → cache_ok (tabs s) D s → has_free s → inodes_ok (inodes (tabs s)) →
  length (inodes (tabs s)) = NR_INODES →
  (∀ i r, inodes (tabs s) !! i = Some r → modified r → writable (tabs s) r) →
  wp sync_inodes (λ _ s', synced s NR_INODES s') s.
Proof.
  intros Hclock Hok Hfree Huniq Hlen Hw. unfold sync_inodes.
  eapply wp_mono; [eapply (wp_for_each _ _ (λ pre s1, synced s (length pre) s1))|].
  - by apply synced_start.
  - intros pre n post s1 El Hs. pose proof (f_equal (λ l, l !! length pre) El) as En.
    rewrite list_lookup_middle in En by done. apply lookup_seq in En as [En Hlt]. simpl in En. subst n.
    destruct (lookup_lt_is_Some_2 (inodes (tabs s)) (length pre)) as [r Hr]; [lia|].
    assert (inodes (tabs s1) !! length pre = Some r) as Hr1.
    { destruct (sy_slots _ _ _ Hs (length pre)) as [->|(? & ? & ? & _)]; [done|lia]. }
    rewrite length_app, Nat.add_1_r. wp_pure. eapply wp_rd; [exact Hr1|]. apply wp_when; intros Hd.
    + apply andb_true_iff in Hd as [Hc%Z.ltb_lt Hd]. eapply synced_write; try done. by eapply Hw.
    + eapply synced_skip; [done|done|]. intros [Hc Hd']. apply Z.ltb_lt in Hc. by rewrite Hc, Hd' in Hd.
  - intros [] s' H. by rewrite length_seq in H.
Qed.

(** * The blocks *)

Definition dirty_free (n : nat) (s : st) : Prop := ∀ i b,
  (i < n)%nat → bufs (cache s) !! i = Some b → b_dev b ≠ NO_DEV → b_dirt b = CLEAN.

Lemma sync_bufs_ok s :
  cache_ok (tabs s) D s →
  wp sync_bufs (λ _ s', cache_ok (tabs s) D s' ∧ transparent (tabs s) D s s' ∧
    (∀ j, field b_count (bufs (cache s')) j = field b_count (bufs (cache s)) j) ∧
    ∀ i b, bufs (cache s') !! i = Some b → b_dev b ≠ NO_DEV → b_dirt b = CLEAN) s.
Proof.
  intros Hok. unfold sync_bufs.
  assert (∀ s', cache_ok (tabs s) D s' → length (bufs (cache s')) = NR_BUFS) as Hlen.
  { intros s' H. destruct (ok_pool _ _ _ H) as (l & ch & P). apply (pool_bufs _ _ _ _ P). }
  eapply wp_mono; [eapply (wp_for_each _ _ (λ pre s1, cache_ok (tabs s) D s1 ∧ transparent (tabs s) D s s1 ∧
    (∀ j, field b_count (bufs (cache s1)) j = field b_count (bufs (cache s)) j) ∧
    dirty_free (length pre) s1))|].
  - split; [done|]. split; [done|]. split; [done|]. intros i b Hi. simpl in Hi. lia.
  - intros pre n post s1 El (H1 & H2 & H3 & H4). pose proof (f_equal (λ l, l !! length pre) El) as En.
    rewrite list_lookup_middle in En by done. apply lookup_seq in En as [En Hlt]. simpl in En. subst n.
    destruct (lookup_lt_is_Some_2 (bufs (cache s1)) (length pre)) as [b Hb]; [by rewrite Hlen|].
    rewrite length_app, Nat.add_1_r. wp_pure. eapply wp_rd; [exact Hb|]. apply wp_when; intros Hd.
    + apply andb_true_iff in Hd as [Hnz%negb_true_iff%Z.eqb_neq Hdirt].
      assert (D (b_dev b)) as HDb.
      { by apply (wf_dev _ _ _ (co_wf _ _ _ _ (ok_coherent _ _ _ H1) _ _ Hb)). }
      pose proof (ok_tabs _ _ _ H1) as Et.
      eapply wp_mono; [eapply (flushall_ok D); [by rewrite Et|exact HDb]|]. rewrite Et.
      intros [] s2 (K1 & K2 & K3 & _ & _ & K4). split; [done|]. split; [by etrans|]. split.
      * intros j. rewrite <- H3. unfold field. destruct (bufs (cache s2) !! j) as [b'|] eqn:Ej.
        -- destruct (K4 j b' Ej) as (b0 & -> & _ & E & _). simpl. by rewrite E.
        -- apply lookup_ge_None in Ej. rewrite Hlen in Ej by done.
           destruct (bufs (cache s1) !! j) eqn:Ej'; [|done]. apply lookup_lt_Some in Ej'.
           rewrite Hlen in Ej' by done. lia.
      * intros i b' Hi Hb' Hnz'. destruct (K4 i b' Hb') as (b0 & Hb0 & Edev & _ & [E|E]); [|done].
        rewrite E. destruct (decide (i = length pre)) as [->|Hne].
        -- assert (b0 = b) as -> by congruence. rewrite <- E. apply (K3 _ _ Hb'). done.
        -- apply (H4 i); [lia|done|congruence].
    + split; [done|]. split; [done|]. split; [done|]. intros i b' Hi Hb' Hnz'.
      destruct (decide (i = length pre)) as [->|Hne]; [|apply (H4 i); [lia|done|done]].
      assert (b' = b) as -> by congruence. apply Z.eqb_neq in Hnz'. rewrite Hnz' in Hd. by destruct (b_dirt b).
  - intros [] s' (H1 & H2 & H3 & H4). split; [done|]. split; [done|]. split; [done|]. intros i b Hb.
    apply (H4 i); [|done]. rewrite length_seq, <- (Hlen s' H1). by eapply lookup_lt_Some.
Qed.

(** Without dirty buffers the clients see the disks. *)
Lemma view_clean t k l dev blk :
  coherent t D k l → dev ≠ NO_DEV → (∀ i b, l !! i = Some b → b_dev b ≠ NO_DEV → b_dirt b = CLEAN) →
  view t k l dev blk = disk_block t k dev blk.
Proof.
  intros Hco Hnz Hclean. unfold view. destruct (cached l dev blk) as [b|] eqn:E; [|done].
  apply cached_inv in E as (i & Hb & E1 & E2). rewrite <- E1, <- E2.
  apply (co_clean _ _ _ _ Hco i); [done|congruence|]. eapply Hclean; [done|congruence].
Qed.

(** * [do_sync] *)

(** The file of [r] is stored on its disk. *)
Definition on_disk (s : st) (r : inode) : Prop := ∃ now x sp,
  inode_place (tabs s) D (i_dev r) sp x (i_num r) ∧
  ∀ r0, ∃ r',
    inode_image x (i_num r) (disk_block (tabs s) (kern s) (i_dev r) (inode_block x (i_num r))) r0 = Some r' ∧
    same_file x (stamped now (r <| i_sp := Some sp |>)) r'.

Lemma do_sync_ok s :
  clock_ok → cache_ok (tabs s) D s → has_free s → inodes_ok (inodes (tabs s)) →
  length (inodes (tabs s)) = NR_INODES →
  (∀ i r, inodes (tabs s) !! i = Some r → modified r → writable (tabs s) r) →
  wp do_sync (λ res s', res = OK ∧ cache_ok (tabs s') D s' ∧ has_free s' ∧
    (∀ i r, inodes (tabs s') !! i = Some r → ¬ modified r) ∧
    (∀ i b, bufs (cache s') !! i = Some b → b_dev b ≠ NO_DEV → b_dirt b = CLEAN) ∧
    (∀ i r, inodes (tabs s) !! i = Some r → modified r → on_disk s' r) ∧
    (∀ dev blk, D dev →
       (∀ i r sp x, inodes (tabs s) !! i = Some r → modified r →
          inode_place (tabs s) D (i_dev r) sp x (i_num r) → (i_dev r, inode_block x (i_num r)) ≠ (dev, blk)) →
       disk_block (tabs s') (kern s') dev blk = dview s dev blk)) s.
Proof.
  intros Hclock Hok Hfree Huniq Hlen Hw. unfold do_sync. wp_pure.
  eapply wp_mono; [by apply sync_inodes_ok|]. intros [] s1 [H1 H2 H3 H4 H5 H6 H7]. wp_pure.
  eapply wp_mono; [by apply sync_bufs_ok|]. intros [] s2 (K1 & K2 & K3 & K4). apply wp_ret.
  pose proof (ok_tabs _ _ _ K1) as Et.
  assert (∀ dev blk, D dev → disk_block (tabs s2) (kern s2) dev blk = dview s1 dev blk) as Hdisk.
  { intros dev blk HD'. unfold dview. rewrite <- (tr_view _ _ _ _ K2) by done. rewrite Et. symmetry.
    apply (view_clean _ _ _ _ _ (ok_coherent _ _ _ K1)); [|exact K4].
    by apply (disk_dev _ _ (disks_ok _ _ (ok_disks _ _ _ K1) _ HD')). }
  split; [done|]. split; [by rewrite Et|]. split.
  { by eapply has_free_same. }
  split.
  { intros i r Hr [Hc Hd]. rewrite Et in Hr. destruct (H5 i) as [E|(r0 & r1 & _ & _ & _ & Hr1 & Hs)].
    - rewrite E in Hr. assert (i < NR_INODES)%nat as Hi by (rewrite <- Hlen; by eapply lookup_lt_Some).
      destruct (H6 i r Hi Hr) as [_ (r1 & Hr1 & (now & sp & ->))]; [done|]. rewrite E, Hr in Hr1.
      injection Hr1 as E1. rewrite E1 in Hd. done.
    - rewrite Hr in Hr1. injection Hr1 as ->. destruct Hs as (now & sp & ->). done. }
  split; [exact K4|]. split.
  - intros i r Hr Hm. assert (i < NR_INODES)%nat as Hi by (rewrite <- Hlen; by eapply lookup_lt_Some).
    destruct (H6 i r Hi Hr Hm) as [(now & x & sp & Hp & Himg) _]. exists now, x, sp. rewrite Et.
    split; [done|]. intros r0. rewrite <- Et, Hdisk by apply Hp. apply Himg.
  - intros dev blk HD' Hno. rewrite Hdisk by done. by apply H7.
Qed.

(** C3: sync leaves nothing to be written: no inode in use and no buffer is dirty any
    more; the disk itself, and not the cache, holds an image of every inode that was
    dirty, and in every block without such an inode what the clients of the cache saw
    before. Required: a free buffer in the cache. *)
Theorem do_sync_contract s :
  clock_ok → cache_ok (tabs s) D s → has_free s → inodes_ok (inodes (tabs s)) →
  length (inodes (tabs s)) = NR_INODES →
  (∀ i r, inodes (tabs s) !! i = Some r → modified r → writable (tabs s) r) →
  wp do_sync (λ res s', res = OK ∧ cache_ok (tabs s') D s' ∧ has_free s' ∧
    (∀ i r, inodes (tabs s') !! i = Some r → ¬ modified r) ∧
    (∀ i b, bufs (cache s') !! i = Some b → b_dev b ≠ NO_DEV → b_dirt b = CLEAN) ∧
    (∀ i r, inodes (tabs s) !! i = Some r → modified r → on_disk s' r) ∧
    (∀ dev blk, D dev →
       (∀ i r sp x, inodes (tabs s) !! i = Some r → modified r →
          inode_place (tabs s) D (i_dev r) sp x (i_num r) → (i_dev r, inode_block x (i_num r)) ≠ (dev, blk)) →
       disk_block (tabs s') (kern s') dev blk = dview s dev blk)) s.
Proof. apply do_sync_ok. Qed.
End spec.

(** * Super blocks *)

(** What the rest of the server relies on. *)
Record super_wf (x : super_block) : Prop := {
  sw_version : s_version x = V1 ∨ s_version x = V2 ∨ s_version x = V3;
  sw_native : s_native x = 0 ∨ s_native x = 1;
  sw_block : MIN_BLOCK_SIZE ≤ s_block_size x ≤ MAX_BLOCK_SIZE;
  sw_aligned : s_block_size x mod 512 = 0;
  sw_static : s_version x = V1 ∨ s_version x = V2 → s_block_size x = STATIC_BLOCK_SIZE;
  sw_per_block : s_inodes_per_block x = per_block x;
  sw_ndzones : s_ndzones x = V2_NR_DZONES;
  sw_nindirs : s_nindirs x = (if s_version x =? V1 then V1_INDIRECTS else V2_INDIRECTS (s_block_size x));
  sw_imap : 1 ≤ s_imap_blocks x;
  sw_zmap : 1 ≤ s_zmap_blocks x;
  sw_ninodes : 1 ≤ s_ninodes x;
  sw_zones : 1 ≤ s_zones x;
  sw_log : 0 ≤ s_log_zone_size x ≤ 4;
  sw_search : s_isearch x = 0 ∧ s_zsearch x = 0
}.

Lemma super_type_spec magic version native :
  super_type magic = Some (version, native) →
  (version = V1 ∨ version = V2 ∨ version = V3) ∧ (version = V3 → native = true).
Proof.
  unfold super_type. intros H. repeat case_match; simplify_eq; split; auto; done.
Qed.

(** The conversion keeps the block size and the log of the zone size a 16-bit number. *)
Lemma convert_super_fields native sp :
  s_block_size (convert_super native sp) = s_block_size sp ∧
  s_dev (convert_super native sp) = s_dev sp ∧ s_magic (convert_super native sp) = s_magic sp ∧
  - 2 ^ 15 ≤ s_log_zone_size (convert_super native sp) < 2 ^ 15.
Proof. split_and!; [done|done|done|..]; simpl; unfold i16; zlia. Qed.

Lemma derive_super_fields version x :
  s_dev (derive_super version x) = s_dev x ∧ s_log_zone_size (derive_super version x) = s_log_zone_size x ∧
  s_imap_blocks (derive_super version x) = s_imap_blocks x.
Proof. unfold derive_super. repeat case_match; done. Qed.

(** The numbers derived from the version, if the block size is taken. *)
Lemma derive_super_spec version c :
  let y := derive_super version c in
  MIN_BLOCK_SIZE ≤ s_block_size y →
  (version = V1 ∨ version = V2 → s_block_size y = STATIC_BLOCK_SIZE) ∧
  s_inodes_per_block y = (if version =? V1 then V1_INODES_PER_BLOCK else V2_INODES_PER_BLOCK (s_block_size y)) ∧
  s_ndzones y = V2_NR_DZONES ∧
  s_nindirs y = (if version =? V1 then V1_INDIRECTS else V2_INDIRECTS (s_block_size y)).
Proof.
  unfold derive_super. destruct (Z.eqb_spec version V1) as [->|N1]; [done|].
  destruct (Z.eqb_spec version V2) as [->|N2].
  - change (s_block_size (c <| s_block_size := STATIC_BLOCK_SIZE |>) <? MIN_BLOCK_SIZE) with false. done.
  - destruct (Z.ltb_spec (s_block_size c) MIN_BLOCK_SIZE); cbv zeta; intros Hmin; [lia|].
    split; [by intros [?|?]|]. done.
Qed.

Lemma check_super_spec sp x r :
  check_super sp = (x, r) →
  s_dev x = s_dev sp ∧ (r = OK ∨ r = EINVAL) ∧ (r = OK → super_wf x ∧ ∃ native, super_type (s_magic sp) = Some (s_version x, native)).
Proof.
  unfold check_super. destruct (super_type (s_magic sp)) as [[version native]|] eqn:Et.
  2:{ intros [= <- <-]. split; [done|]. split; [by right|done]. }
  destruct (super_type_spec _ _ _ Et) as [Hv _].
  destruct (convert_super_fields native sp) as (Eb & Ed & _ & Hlog).
  set (c := convert_super native sp) in *. set (y := derive_super version c).
  destruct (derive_super_fields version c) as (Ed' & El' & _). fold y in Ed', El'.
  destruct (bad_block_size (s_block_size y)) eqn:Ebad.
  { intros [= <- <-]. split; [congruence|]. split; [by right|done]. }
  set (z := y <| s_isearch := 0 |> <| s_zsearch := 0 |> <| s_version := version |>
              <| s_native := if native then 1 else 0 |>).
  destruct (bad_geometry z) eqn:Eg; intros [= <- <-].
  { split; [simpl; congruence|]. split; [by right|done]. }
  split; [simpl; congruence|]. split; [by left|]. intros _.
  assert (s_version z = version) as Ev by done.
  split; [|exists native; by rewrite Ev].
  unfold bad_block_size in Ebad. rewrite !orb_false_iff in Ebad.
  destruct Ebad as [[[[[B1%Z.ltb_ge B2%Z.ltb_ge] B3%negb_false_iff%Z.eqb_eq] _] _] _].
  unfold bad_geometry in Eg. rewrite !orb_false_iff in Eg.
  destruct Eg as [[[[G1%Z.ltb_ge G2%Z.ltb_ge] G3%Z.ltb_ge] G4%Z.ltb_ge] G5%Z.ltb_ge].
  change (s_block_size y) with (s_block_size z) in *.
  change (s_log_zone_size z) with (s_log_zone_size y) in G5.
  assert ((version = V1 ∨ version = V2 → s_block_size z = STATIC_BLOCK_SIZE) ∧
    s_inodes_per_block z = per_block z ∧ s_ndzones z = V2_NR_DZONES ∧
    s_nindirs z = (if version =? V1 then V1_INDIRECTS else V2_INDIRECTS (s_block_size z))) as (H1 & H2 & H3 & H4).
  { unfold per_block. rewrite Ev. exact (derive_super_spec version c B1). }
  assert (0 ≤ s_log_zone_size y ≤ 4) as Hlog4.
  { rewrite El'. rewrite El' in G5. clearbody c.
    revert G5 Hlog. generalize (s_log_zone_size c). unfold u32. intros v ? ?. zlia. }
  assert (s_native z = 0 ∨ s_native z = 1) as Hn by (destruct native; [by right|by left]).
  by split.
Qed.

Section spec.
Context {cfg : Config} {krn : Kernel} {dk : Disk}.
Implicit Types (s : st) (x : super_block).

(** The super block on a disk: its 1024 bytes follow the boot block. *)
Definition disk_super (s : st) (d : dmap_entry) (dev : Z) : option super_block :=
  super_of_bytes (span (sector (kern s) (dmap_driver d) (minor_of dev)) SUPER_BLOCK_BYTES
                    (Z.to_nat MIN_BLOCK_SIZE)).

Lemma length_super_bytes f p : SUPER_SIZE ≤ Z.of_nat (length (span f p (Z.to_nat MIN_BLOCK_SIZE))).
Proof. rewrite length_span. done. Qed.

(** The slot [sp] of the table after [read_super]. *)
Definition super_read (s s' : st) (sp : nat) (x' : super_block) : Prop :=
  ∃ k', sector k' = sector (kern s) ∧ s' = with_table (<[sp := x']> (supers (tabs s))) (s <| kern := k' |>).

Lemma read_super_ok s sp x dev d :
  supers (tabs s) !! sp = Some x → s_dev x = dev → dev ≠ NO_DEV →
  dmaps (tabs s) !! Z.to_nat (major_of dev) = Some d → dmap_io d = gen_io_r → dmap_driver d ≠ NONE →
  disk_driver (dmap_driver d) →
  wp (read_super sp) (λ r s', ∃ img x', disk_super s d dev = Some img ∧ super_read s s' sp x' ∧
    x' = (check_super (img <| s_dev := NO_DEV |>)).1 <| s_dev := if r =? OK then dev else NO_DEV |> ∧
    ((r = OK ∧ super_wf x' ∧ ∃ native, super_type (s_magic img) = Some (s_version x', native)) ∨ r = EINVAL)) s.
Proof.
  intros Hx Hdev Hnz Hd Hio Hdr Hdd. unfold read_super. wp_pure. wp_rd. rewrite Hdev.
  apply Z.eqb_neq in Hnz. rewrite Hnz. wp_pure.
  eapply wp_mono.
  { eapply (dev_io_answer _ _ _ _ _ _ _ _ d MIN_BLOCK_SIZE (λ v k', sector k' = sector (kern s) ∧ ∃ z,
      v = [Iov (span (sector (kern s) (dmap_driver d) (minor_of dev)) SUPER_BLOCK_BYTES (Z.to_nat MIN_BLOCK_SIZE)) z]));
      [done|done|done|done|].
    intros m Hm. destruct (disk_read (dmap_driver d) (minor_of dev) SUPER_BLOCK_BYTES MIN_BLOCK_SIZE
      (replicate (Z.to_nat MIN_BLOCK_SIZE) 0) m (kern s)) as (m' & z & k' & E & Ha & Hk); try done.
    eexists m', _, k'. split; [exact E|]. split; [done|]. split; [done|]. exists z.
    rewrite drop_ge by (by rewrite length_replicate). by rewrite app_nil_r. }
  intros [r v] s1 (Er & k' & -> & Hk & z & Ev). simpl in Er, Ev. subst r v.
  rewrite Z.eqb_refl. cbn [negb]. wp_pure. eapply wp_deref; [done|]. wp_pure.
  destruct (disk_super s d dev) as [img|] eqn:Eimg.
  2:{ exfalso. unfold disk_super, super_of_bytes in Eimg. rewrite decide_True in Eimg; [done|].
      apply length_super_bytes. }
  eapply wp_deref; [exact Eimg|].
  destruct (check_super (img <| s_dev := NO_DEV |>)) as [y r] eqn:Ec.
  pose proof (check_super_spec _ _ _ Ec) as (Ed & Hr & Hwf). simpl in Ed.
  assert (∀ v, super_wf y → super_wf (y <| s_dev := v |>)) as Hsd by (intros v []; by split).
  wp_pure. wp_wr. wp_pure. apply wp_when; intros Hok.
  - apply Z.eqb_eq in Hok as ->. apply (wp_wr_with (supers (tabs s))); [by eapply lookup_lt_Some|].
    apply wp_ret. exists img, (y <| s_dev := dev |>). split; [done|]. split; [by exists k'|].
    rewrite Ec. split; [done|]. left. destruct (Hwf eq_refl) as [? ?]. split; [done|]. split; [by apply Hsd|done].
  - apply wp_ret. exists img, y. split; [done|]. split; [by exists k'|]. rewrite Ec, Hok.
    split; [by destruct y; simpl in *; subst|]. right. destruct Hr as [->|?]; [done|done].
Qed.

(** * Zones *)

(** A zone that the file system may hand out, and the bit that says it is used. *)
Definition is_zone (x : super_block) (z : Z) : Prop := s_firstdatazone x ≤ z < s_zones x.
Definition zone_used (s : st) (x : super_block) (z : Z) : bool :=
  bit_at s x ZMAP (z - (s_firstdatazone x - 1)).

(** Where the search starts is the only thing to change in the table. *)
Definition with_zsearch (sp : nat) (n : Z) (s : st) : st :=
  with_table (alter (λ x, x <| s_zsearch := n |>) sp (supers (tabs s))) s.

Lemma find_super_alter dev sp (f : super_block → super_block) l :
  (∀ x, s_dev (f x) = s_dev x) →
  find_super dev (alter f sp l) = (λ '(i, x), (i, if decide (i = sp) then f x else x)) <$> find_super dev l.
Proof.
  intros Hf. revert sp. unfold find_super. induction l as [|x l IH]; intros sp; [done|].
  destruct sp as [|sp];
    [change (alter f 0%nat (x :: l)) with (f x :: l)|change (alter f (S sp) (x :: l)) with (x :: alter f sp l)];
    cbn [list_find].
  - rewrite Hf. case_decide; simpl; [done|].
    by destruct (list_find (λ sp, s_dev sp = dev) l) as [[i y]|].
  - case_decide; simpl; [done|]. rewrite IH.
    destruct (list_find (λ sp, s_dev sp = dev) l) as [[i y]|]; simpl; [|done].
    unfold prod_map. simpl. do 2 f_equal. repeat case_decide; done || lia.
Qed.

Lemma zsearch_geometry sp n s : same_geometry (tabs s) (tabs (with_zsearch sp n s)).
Proof.
  split; [|done]. intros dev. unfold dev_bs. simpl. rewrite find_super_alter by done.
  destruct (find_super dev _) as [[i x]|]; [|done]. simpl. by case_decide.
Qed.

Record zone_taken (D : Z → Prop) (sp : nat) (x : super_block) (s s' : st) (z : Z) : Prop := {
  zt_zone : is_zone x z;
  zt_was_free : zone_used s x z = false;
  zt_used z' : is_zone x z' → zone_used s' x z' = if decide (z' = z) then true else zone_used s x z';
  zt_tabs : tabs s' = tabs s ∨ ∃ n, tabs s' = tabs (with_zsearch sp n s);
  zt_glo : glo s' = glo s;
  zt_frame dev blk : D dev →
    dev ≠ s_dev x ∨ blk < map_start x ZMAP ∨ map_start x ZMAP + map_blocks x ZMAP ≤ blk →
    view (tabs s) (kern s') (bufs (cache s')) dev blk = view (tabs s) (kern s) (bufs (cache s)) dev blk
}.

Lemma alloc_zone_ok D s sp x z :
  find_super (s_dev x) (supers (tabs s)) = Some (sp, x) → s_rd_only x = 0 → map_ok (tabs s) D x ZMAP →
  cache_ok (tabs s) D s → has_free s → bit_at s x ZMAP 0 = true →
  1 ≤ s_firstdatazone x ≤ s_zones x → s_zones x < 2 ^ 32 → 0 ≤ s_zsearch x → 0 ≤ z →
  wp (alloc_zone (s_dev x) z) (λ r s', cache_ok (tabs s') D s' ∧ has_free s' ∧
    ((r = NO_ZONE ∧ err_code (glo s') = ENOSPC ∧ transparent (tabs s) D (s <| glo := glo s' |>) s' ∧
        ∀ z', is_zone x z' → zone_used s x z' = true) ∨
     zone_taken D sp x s s' r)) s.
Proof.
  intros Hfind Hro Hmap Hok Hfree H0 Hfirst Hzones Hsearch Hz.
  pose proof (disk_dev _ _ (disks_ok _ _ (ok_disks _ _ _ Hok) _ (mo_dev _ _ _ _ Hmap))) as Hnz.
  pose proof (proj1 (proj1 (list_find_Some _ _ _ _) Hfind)) as Hx.
  unfold alloc_zone, get_super. apply Z.eqb_neq in Hnz. rewrite Hnz. wp_pure. wp_pure. wp_pure.
  rewrite Hfind. wp_pure. wp_pure. eapply wp_rd; [exact Hx|]. cbv zeta. wp_pure.
  assert (map_size x ZMAP = s_zones x - (s_firstdatazone x - 1)) as Esize.
  { unfold map_size. simpl. apply u32_id. lia. }
  eapply wp_mono.
  { apply (alloc_bit_ok (tabs s) D x ZMAP Hmap); try done. case_match; [done|]. apply u32_range. }
  intros b s1 (Hok1 & Hfree1 & [(-> & T & Hall)|(Hb & Hclear & [Hrest Hbits Hframe])]).
  - rewrite Z.eqb_refl. wp_pure. wp_pure. wp_pure. pose proof (ok_tabs _ _ _ Hok1) as Et1.
    split; [|split; [done|]].
    { apply (cache_ok_geometry (tabs s) _ D s1); [done| |done|done|done]. simpl. by rewrite Et1. }
    left. split; [done|]. split; [done|]. split.
    { destruct T as [[R1 R2] V]. split; [|exact V]. by split. }
    intros z' Hz'. apply Hall. rewrite Esize. unfold is_zone in Hz'. lia.
  - assert (b ≠ NO_BIT) as Hb0%Z.eqb_neq by (unfold NO_BIT; lia). rewrite Hb0.
    pose proof (ok_tabs _ _ _ Hok1) as Et1. rewrite Esize in Hb.
    assert (u32 (s_firstdatazone x - 1 + b) = s_firstdatazone x - 1 + b) as -> by (apply u32_id; lia).
    assert (∀ s2, kern s2 = kern s1 → cache s2 = cache s1 → glo s2 = glo s1 →
      tabs s2 = tabs s ∨ (∃ n, tabs s2 = tabs (with_zsearch sp n s)) →
      cache_ok (tabs s2) D s2 ∧ has_free s2 ∧ zone_taken D sp x s s2 (s_firstdatazone x - 1 + b)) as Hdone.
    { intros s2 Ek Ec Eg Ht.
      assert (same_geometry (tabs s) (tabs s2)) as G.
      { destruct Ht as [->|[n ->]]; [done|apply zsearch_geometry]. }
      split; [by apply (cache_ok_geometry (tabs s) _ D s1)|]. split; [by apply (has_free_same s1); [rewrite Ec|]|].
      split.
      - unfold is_zone. lia.
      - unfold zone_used. by replace (_ - _) with b by lia.
      - intros z' Hz'. unfold is_zone in Hz'. unfold zone_used.
        assert (∀ n, bit_at s2 x ZMAP n = bit_at s1 x ZMAP n) as ->.
        { intros n. unfold bit_at. rewrite Ek, Ec, Et1. by rewrite (view_geometry (tabs s)). }
        rewrite Hbits by lia. repeat case_decide; done || lia.
      - done.
      - rewrite Eg. by destruct Hrest.
      - intros dev blk HD' Hout. rewrite Ek, Ec. by apply Hframe. }
    assert (∃ y, supers (tabs s1) !! sp = Some y) as [y Hy] by (rewrite Et1; eauto).
    wp_pure. apply wp_when; intros _.
    + eapply wp_wr; [exact Hy|]. apply wp_ret.
      destruct (Hdone (with_table (<[sp := y <| s_zsearch := b |>]> (supers (tabs s1))) s1)) as (? & ? & ?);
        [done|done|done| |by split; [|split; [|right]]].
      right. exists b. assert (y = x) as -> by (rewrite Et1 in Hy; congruence).
      assert (<[sp := x <| s_zsearch := b |>]> (supers (tabs s1)) =
        alter (λ x, x <| s_zsearch := b |>) sp (supers (tabs s))) as ->; [|unfold with_zsearch; simpl; by rewrite Et1].
      rewrite Et1, list_insert_alter. apply list_alter_ext; [|done]. intros y'. rewrite Hx. by intros [= <-].
    + apply wp_ret. destruct (Hdone s1) as (? & ? & ?); [done|done|done|by left|by split; [|split; [|right]]].
Qed.

(** C34: read_super, from a drive that works, fills the slot from the 1024 bytes
    after the boot block and answers OK or EINVAL; after OK the magic number is
    known and the slot satisfies all that the other files rely on (block size,
    inodes and entries per block, maps and zones that exist), and only then the
    slot belongs to the device. *)
Theorem read_super_contract s sp x dev d :
  supers (tabs s) !! sp = Some x → s_dev x = dev → dev ≠ NO_DEV →
  dmaps (tabs s) !! Z.to_nat (major_of dev) = Some d → dmap_io d = gen_io_r → dmap_driver d ≠ NONE →
  disk_driver (dmap_driver d) →
  wp (read_super sp) (λ r s', ∃ img x', disk_super s d dev = Some img ∧ super_read s s' sp x' ∧
    x' = (check_super (img <| s_dev := NO_DEV |>)).1 <| s_dev := if r =? OK then dev else NO_DEV |> ∧
    ((r = OK ∧ super_wf x' ∧ ∃ native, super_type (s_magic img) = Some (s_version x', native)) ∨ r = EINVAL)) s.
Proof. apply read_super_ok. Qed.

(** alloc_zone hands out a zone of the file system that was free, marks it and
    no other as used, and changes no block outside the map; it answers NO_ZONE with
    ENOSPC only if every zone is used. *)
Theorem alloc_zone_contract D s sp x z :
  find_super (s_dev x) (supers (tabs s)) = Some (sp, x) → s_rd_only x = 0 → map_ok (tabs s) D x ZMAP →
  cache_ok (tabs s) D s → has_free s → bit_at s x ZMAP 0 = true →
  1 ≤ s_firstdatazone x ≤ s_zones x → s_zones x < 2 ^ 32 → 0 ≤ s_zsearch x → 0 ≤ z →
  wp (alloc_zone (s_dev x) z) (λ r s', cache_ok (tabs s') D s' ∧ has_free s' ∧
    ((r = NO_ZONE ∧ err_code (glo s') = ENOSPC ∧ transparent (tabs s) D (s <| glo := glo s' |>) s' ∧
        ∀ z', is_zone x z' → zone_used s x z' = true) ∨
     zone_taken D sp x s s' r)) s.
Proof. apply alloc_zone_ok. Qed.
End spec.
