(* ===== verification/DmapSpec.v ===== *)
(** select.c: which descriptors of a pending select a call back marks as ready, and that
    nreadyfds counts them.  dmap.c and the requests of device.c: what becomes of the devices
    of a driver that has exited.  main.c: a turn of the loop for a message that is not a
    call. *)

From S2P Require Import Prelude Machine State Monad Process Device Inode SelectTable DeviceOpen Dmap Main ProcessSpec.

(** * The three sets of an entry *)

Inductive sel_kind := FOR_READING | FOR_WRITING | FOR_ERRORS.
Definition op_of (k : sel_kind) : Z :=
  match k with FOR_READING => SEL_RD | FOR_WRITING => SEL_WR | FOR_ERRORS => SEL_ERR end.
Definition wanted (k : sel_kind) (e : selectentry) : Z :=
  match k with FOR_READING => readfds e | FOR_WRITING => writefds e | FOR_ERRORS => errorfds e end.
Definition ready (k : sel_kind) (e : selectentry) : Z :=
  match k with
  | FOR_READING => ready_readfds e
  | FOR_WRITING => ready_writefds e
  | FOR_ERRORS => ready_errorfds e
  end.
(** Where the caller wants the set, if it does. *)
Definition user_set (k : sel_kind) (e : selectentry) : Z :=
  match k with FOR_READING => vir_readfds e | FOR_WRITING => vir_writefds e | FOR_ERRORS => vir_errorfds e end.

(** The number of descriptors in a set. *)
Definition set_size (set : Z) : Z := count (λ i, FD_ISSET i set = true) (seq 0 FD_SETSIZE).
Definition ready_total (e : selectentry) : Z :=
  set_size (ready FOR_READING e) + set_size (ready FOR_WRITING e) + set_size (ready FOR_ERRORS e).

(** nreadyfds counts the descriptors that are ready, and these were asked for. *)
Record sel_ok (e : selectentry) : Prop := {
  so_count : nreadyfds e = ready_total e;
  so_asked k i : FD_ISSET i (ready k e) = true → FD_ISSET i (wanted k e) = true ∧ user_set k e ≠ 0
}.

Lemma FD_ISSET_SET i j set : FD_ISSET i (FD_SET j set) = FD_ISSET i set || bool_decide (i = j).
Proof.
  unfold FD_ISSET, FD_SET. rewrite Z.lor_spec. f_equal. rewrite Z.shiftl_1_l, Z.pow2_bits_eqb by lia.
  destruct (Z.eqb_spec (Z.of_nat j) (Z.of_nat i)); case_bool_decide; done || lia.
Qed.

Lemma count_ext {A} (P Q : A → Prop) `{∀ x, Decision (P x), ∀ x, Decision (Q x)} l :
  (∀ x, x ∈ l → P x ↔ Q x) → count P l = count Q l.
Proof.
  unfold count. intros E. do 2 f_equal. induction l as [|x l IH]; [done|].
  rewrite !filter_cons. rewrite IH by (intros y Hy; apply E; by right).
  pose proof (E x ltac:(by left)). repeat case_decide; tauto || done.
Qed.

Lemma count_add_one (P : nat → Prop) `{∀ x, Decision (P x)} n j :
  (j < n)%nat → ¬ P j → count (λ i, P i ∨ i = j) (seq 0 n) = count P (seq 0 n) + 1.
Proof.
  intros Hj HP. rewrite <- (take_drop_middle (seq 0 n) j j) by (by apply lookup_seq_lt).
  set (l1 := take j _). set (l2 := drop (S j) _).
  assert (∀ i, i ∈ l1 ∨ i ∈ l2 → i ≠ j) as Hne.
  { subst l1 l2. intros i [Hi|Hi] ->; apply list_elem_of_lookup in Hi as [k Hk].
    - apply lookup_take_Some in Hk as [Hk Hlt]. apply lookup_seq in Hk as [Hk _]. lia.
    - rewrite lookup_drop in Hk. apply lookup_seq in Hk as [Hk _]. lia. }
  assert (∀ (Q : nat → Prop) `{∀ x, Decision (Q x)} a b c,
    count Q (a ++ b :: c) = count Q a + count_if Q b + count Q c) as Eapp.
  { intros Q HQ a b c. unfold count, count_if. rewrite filter_app, length_app, filter_cons.
    case_decide; simpl; lia. }
  rewrite !Eapp. rewrite (count_if_True _ j) by auto. rewrite (count_if_False _ j) by done.
  rewrite (count_ext (λ i, P i ∨ i = j) P l1), (count_ext (λ i, P i ∨ i = j) P l2).
  - lia.
  - intros i Hi. split; [intros [?|?]; [done|]|by left]. exfalso. apply (Hne i); auto.
  - intros i Hi. split; [intros [?|?]; [done|]|by left]. exfalso. apply (Hne i); auto.
Qed.

Lemma set_size_SET j set :
  (j < FD_SETSIZE)%nat → FD_ISSET j set = false → set_size (FD_SET j set) = set_size set + 1.
Proof.
  intros Hj Hset. unfold set_size. rewrite <- (count_add_one (λ i, FD_ISSET i set = true) FD_SETSIZE j); [|done|congruence].
  apply count_ext. intros i _. rewrite FD_ISSET_SET, orb_true_iff, bool_decide_eq_true. done.
Qed.

(** * [ops2tab] *)

(** What one test of [ops2tab] does to the sets of one kind. *)
Definition marks (k : sel_kind) (ops : Z) (fd : nat) (e : selectentry) : bool :=
  has ops (op_of k) && truth (user_set k e) && FD_ISSET fd (wanted k e).
Definition mark (k : sel_kind) (fd : nat) (e : selectentry) : selectentry :=
  match k with
  | FOR_READING => e <| ready_readfds ::= FD_SET fd |> <| nreadyfds ::= Z.add 1 |>
  | FOR_WRITING => e <| ready_writefds ::= FD_SET fd |> <| nreadyfds ::= Z.add 1 |>
  | FOR_ERRORS => e <| ready_errorfds ::= FD_SET fd |> <| nreadyfds ::= Z.add 1 |>
  end.
Definition mark_if (k : sel_kind) (ops : Z) (fd : nat) (e : selectentry) : selectentry :=
  if marks k ops fd e && negb (FD_ISSET fd (ready k e)) then mark k fd e else e.

Lemma ops2tab_marks ops fd e :
  ops2tab ops fd e = mark_if FOR_ERRORS ops fd (mark_if FOR_WRITING ops fd (mark_if FOR_READING ops fd e)).
Proof. done. Qed.

Instance sel_kind_eq_dec : EqDecision sel_kind.
Proof. solve_decision. Defined.

(** The entry but for what is ready. *)
Record same_request (e e' : selectentry) : Prop := {
  sr_wanted k : wanted k e' = wanted k e;
  sr_user k : user_set k e' = user_set k e;
  sr_filps : sel_filps e' = sel_filps e;
  sr_nfds : nfds e' = nfds e;
  sr_requestor : requestor e' = requestor e;
  sr_procnr : req_procnr e' = req_procnr e
}.
#[global] Instance same_request_trans : Transitive same_request.
Proof. intros e1 e2 e3 [] []. split; intros; congruence. Qed.
#[global] Instance same_request_refl : Reflexive same_request.
Proof. by split. Qed.

Lemma mark_request k fd e : same_request e (mark k fd e).
Proof. destruct k; split; try done; by intros []. Qed.

Lemma ready_mark k k' fd e : ready k' (mark k fd e) = if decide (k = k') then FD_SET fd (ready k' e) else ready k' e.
Proof. by destruct k, k'. Qed.

Lemma mark_if_spec k ops fd e :
  (fd < FD_SETSIZE)%nat → sel_ok e →
  let e' := mark_if k ops fd e in
  same_request e e' ∧ sel_ok e' ∧
  ∀ k' i, FD_ISSET i (ready k' e') =
    FD_ISSET i (ready k' e) || bool_decide (k' = k ∧ i = fd) && marks k ops fd e.
Proof.
  intros Hfd [Hc Ha]. unfold mark_if. destruct (marks k ops fd e) eqn:Em; cbn [andb].
  - destruct (FD_ISSET fd (ready k e)) eqn:Er; cbn [negb].
    + split; [done|]. split; [by split|]. intros k' i. rewrite andb_true_r. case_bool_decide as E.
      * destruct E as [-> ->]. by rewrite Er.
      * by rewrite orb_false_r.
    + split; [apply mark_request|]. split.
      * pose proof (set_size_SET fd (ready k e) Hfd Er) as Es. split.
        -- unfold ready_total in *. destruct k; unfold mark, ready in *; simpl in *; lia.
        -- intros k' i. destruct (mark_request k fd e) as [Ew Eu _ _ _ _]. rewrite Ew, Eu, ready_mark.
           case_decide as E; [subst k'|apply Ha]. rewrite FD_ISSET_SET.
           intros [Hi|Hi%bool_decide_eq_true]%orb_true_iff; [by apply Ha|subst i].
           unfold marks, truth in Em. apply andb_true_iff in Em as [[_ Hu]%andb_true_iff Hw].
           split; [done|]. by apply negb_true_iff, Z.eqb_neq in Hu.
      * intros k' i. rewrite ready_mark, andb_true_r. case_decide as E.
        -- subst k'. rewrite FD_ISSET_SET. f_equal. by repeat case_bool_decide; naive_solver.
        -- rewrite bool_decide_false by naive_solver. by rewrite orb_false_r.
  - split; [done|]. split; [by split|]. intros k' i. by rewrite andb_false_r, orb_false_r.
Qed.

Lemma marks_request k ops fd e e' : same_request e e' → marks k ops fd e' = marks k ops fd e.
Proof. intros []. unfold marks. congruence. Qed.

Lemma ops2tab_spec ops fd e :
  (fd < FD_SETSIZE)%nat → sel_ok e →
  let e' := ops2tab ops fd e in
  same_request e e' ∧ sel_ok e' ∧
  ∀ k i, FD_ISSET i (ready k e') = FD_ISSET i (ready k e) || bool_decide (i = fd) && marks k ops fd e.
Proof.
  intros Hfd Hok. rewrite ops2tab_marks.
  destruct (mark_if_spec FOR_READING ops fd e Hfd Hok) as (R1 & O1 & B1). set (e1 := mark_if FOR_READING _ _ _) in *.
  destruct (mark_if_spec FOR_WRITING ops fd e1 Hfd O1) as (R2 & O2 & B2). set (e2 := mark_if FOR_WRITING _ _ _) in *.
  destruct (mark_if_spec FOR_ERRORS ops fd e2 Hfd O2) as (R3 & O3 & B3).
  split; [by do 2 (etrans; [done|])|]. split; [exact O3|]. intros k i.
  rewrite B3, B2, B1. rewrite !(marks_request _ _ _ e1 e2), !(marks_request _ _ _ e e1) by done.
  destruct k; repeat (rewrite (bool_decide_false (_ ∧ _)) by (by intros [? _])); cbn [andb]; rewrite ?orb_false_r;
    do 2 f_equal; by repeat case_bool_decide; naive_solver.
Qed.

(** * The loop of [select_callback] over the descriptors of an entry *)

Section spec.
Context {krn : Kernel}.
Implicit Types s : st.

(** The call back about [ops] on the slot [f] is about the descriptor [fd] of the
    entry. *)
Definition called (f : nat) (ops : Z) (e : selectentry) (fd : nat) : bool :=
  bool_decide (sel_filps e !! fd = Some (Some f)) && has (tab2ops fd e) ops.

(** The entry [e'] is [e] with the descriptors [l] treated. *)
Record called_back (f : nat) (ops : Z) (l : list nat) (e e' : selectentry) : Prop := {
  cb_request : same_request e e';
  cb_ok : sel_ok e';
  cb_ready k i : FD_ISSET i (ready k e') =
    FD_ISSET i (ready k e) || bool_decide (i ∈ l) && called f ops e i && marks k ops i e
}.

Lemma tab2ops_request fd e e' : same_request e e' → tab2ops fd e' = tab2ops fd e.
Proof.
  intros [Hw _ _ _ _ _]. unfold tab2ops.
  pose proof (Hw FOR_READING) as H1. pose proof (Hw FOR_WRITING) as H2. pose proof (Hw FOR_ERRORS) as H3.
  simpl in H1, H2, H3. by rewrite H1, H2, H3.
Qed.

Lemma called_request f ops fd e e' : same_request e e' → called f ops e' fd = called f ops e fd.
Proof. intros H. unfold called. by rewrite (sr_filps _ _ H), (tab2ops_request fd e e' H). Qed.

Lemma called_back_step f ops pre fd e e1 :
  fd ∉ pre → (fd < FD_SETSIZE)%nat → called_back f ops pre e e1 →
  called_back f ops (pre ++ [fd]) e (if called f ops e fd then ops2tab ops fd e1 else e1).
Proof.
  intros Hnew Hfd [Hr Hok Hb].
  assert (∀ i, bool_decide (i ∈ pre ++ [fd]) = bool_decide (i ∈ pre) || bool_decide (i = fd)) as Ein.
  { intros i. repeat case_bool_decide; try done; exfalso; set_solver. }
  destruct (called f ops e fd) eqn:Ec.
  - destruct (ops2tab_spec ops fd e1 Hfd Hok) as (R & O & B). split; [by etrans|done|].
    intros k i. rewrite B, Hb, Ein, (marks_request k ops fd e e1 Hr). destruct (decide (i = fd)) as [->|E].
    + rewrite (bool_decide_false (fd ∈ pre)), (bool_decide_true (fd = fd)) by done. cbn [andb orb].
      by rewrite Ec, orb_false_r.
    + rewrite (bool_decide_false (i = fd)) by done. cbn [andb]. by rewrite !orb_false_r.
  - split; [done|done|]. intros k i. rewrite Hb, Ein. destruct (decide (i = fd)) as [->|E].
    + by rewrite Ec, !andb_false_r.
    + rewrite (bool_decide_false (i = fd)) by done. by rewrite orb_false_r.
Qed.

Lemma callback_entry_ok s f ops i e :
  selecttab (tabs s) !! i = Some e → sel_ok e → 0 ≤ nfds e ≤ Z.of_nat FD_SETSIZE →
  let l := seq 0 (Z.to_nat (nfds e)) in
  wp (callback_entry f ops i) (λ woken s', ∃ e',
    s' = with_table (<[i := e']> (selecttab (tabs s))) s ∧ called_back f ops l e e' ∧
    (woken = true ↔ ∃ fd, fd ∈ l ∧ called f ops e fd = true)) s.
Proof.
  intros He Hok Hn l. unfold callback_entry. wp_pure. eapply wp_rd; [exact He|].
  wp_pure. eapply wp_rd; [exact He|]. fold l.
  assert (i < length (selecttab (tabs s)))%nat as Hlt by by eapply lookup_lt_Some.
  eapply (wp_foldl l _ (λ pre woken s', ∃ e',
    s' = with_table (<[i := e']> (selecttab (tabs s))) s ∧ called_back f ops pre e e' ∧
    (woken = true ↔ ∃ fd, fd ∈ pre ∧ called f ops e fd = true))).
  - exists e. rewrite list_insert_id by done. split; [by destruct s as [? ? [] ?]|]. split.
    + split; [done|done|]. intros k j. by rewrite orb_false_r.
    + split; [done|]. by intros (fd & ?%not_elem_of_nil & _).
  - intros pre fd post woken s1 El (e1 & -> & Hcb & Hw).
    assert (fd ∉ pre) as Hnew.
    { assert (NoDup l) as Hnd by apply NoDup_seq. rewrite El in Hnd.
      apply NoDup_app in Hnd as (_ & Hd & _). intros Hin. apply (Hd fd Hin). by left. }
    assert (fd < FD_SETSIZE)%nat as Hfd.
    { assert (fd ∈ l) as Hin%elem_of_seq by (rewrite El; apply elem_of_app; right; by left). lia. }
    pose proof (called_back_step f ops pre fd e e1 Hnew Hfd Hcb) as Hstep.
    assert (∀ b, (b = true ↔ woken = true ∨ called f ops e fd = true) →
      (b = true ↔ ∃ j, j ∈ pre ++ [fd] ∧ called f ops e j = true)) as Hb.
    { intros b ->. rewrite Hw. split.
      - intros [(j & Hj & Hc)|Hc]; [exists j|exists fd]; rewrite elem_of_app; [auto|].
        split; [right; by left|done].
      - intros (j & [Hj| ->%list_elem_of_singleton]%elem_of_app & Hc); [left; by exists j|by right]. }
    unfold called at 1 in Hstep.
    destruct (decide (sel_filps e !! fd = Some (Some f))) as [Ef|Ef].
    + rewrite bool_decide_true in Hstep by done. cbn [andb] in Hstep.
      wp_pure. apply (wp_rd_with _ (selecttab (tabs s))); [done|].
      rewrite (tab2ops_request fd e e1 (cb_request _ _ _ _ _ Hcb)).
      destruct (has (tab2ops fd e) ops) eqn:Eh.
      * wp_pure. apply (wp_wr_with (selecttab (tabs s))); [done|]. apply wp_ret. eexists. split; [done|].
        split; [exact Hstep|]. apply Hb. unfold called. rewrite bool_decide_true, Eh by done. tauto.
      * apply wp_ret. exists e1. split; [done|]. split; [exact Hstep|]. apply Hb. unfold called.
        rewrite bool_decide_true, Eh by done. naive_solver.
    + rewrite bool_decide_false in Hstep by done. cbn [andb] in Hstep.
      apply wp_ret. exists e1. split; [done|]. split; [exact Hstep|]. apply Hb. unfold called.
      rewrite bool_decide_false by done. naive_solver.
Qed.

(** a call back for [ops] on a filp slot marks as ready, in a pending select,
    exactly the descriptors that name the slot and were asked for one of [ops], in
    each of the three sets the caller gave; nreadyfds still counts them, each
    descriptor at most once a set, and the caller is to be woken exactly if there
    was one.  What was asked for and the other entries stay as they are. *)
Theorem callback_entry_contract s f ops i e :
  selecttab (tabs s) !! i = Some e → sel_ok e → 0 ≤ nfds e ≤ Z.of_nat FD_SETSIZE →
  let l := seq 0 (Z.to_nat (nfds e)) in
  wp (callback_entry f ops i) (λ woken s', ∃ e',
    s' = with_table (<[i := e']> (selecttab (tabs s))) s ∧ called_back f ops l e e' ∧
    (woken = true ↔ ∃ fd, fd ∈ l ∧ called f ops e fd = true)) s.
Proof. apply callback_entry_ok. Qed.
End spec.

Section spec.
Context {cfg : Config} {krn : Kernel}.
Implicit Types s : st.

(** * [dmap_unmap_by_proc] *)

Definition unmapped_by (proc : Z) (d : dmap_entry) : dmap_entry :=
  if decide (dmap_driver d = proc) then unmapped else d.

Lemma map_driver_none s i d :
  dmaps (tabs s) !! i = Some d → (i < NR_DEVICES)%nat →
  map_driver (Z.of_nat i) NONE 0 s = Ret OK (with_table (<[i := unmapped]> (dmaps (tabs s))) s).
Proof.
  intros Hd Hi. unfold map_driver.
  destruct (Z.ltb_spec (Z.of_nat i) 0); [lia|]. destruct (Z.leb_spec (Z.of_nat NR_DEVICES) (Z.of_nat i)); [lia|].
  cbn [orb]. rewrite Z.eqb_refl, Nat2Z.id. unfold mbind, M_bind, wr. change (table s) with (dmaps (tabs s)).
  by rewrite Hd.
Qed.

(** The entries below [n] have been treated. *)
Definition unmapped_upto (proc : Z) (n : nat) (l : list dmap_entry) : list dmap_entry :=
  imap (λ i d, if decide (i < n)%nat then unmapped_by proc d else d) l.

Lemma unmapped_upto_0 proc l : unmapped_upto proc 0 l = l.
Proof. apply list_eq. intros i. unfold unmapped_upto. rewrite list_lookup_imap. by destruct (l !! i). Qed.

Lemma unmapped_upto_S proc n l d :
  l !! n = Some d → unmapped_upto proc (S n) l = <[n := unmapped_by proc d]> (unmapped_upto proc n l).
Proof.
  intros Hd. apply list_eq. intros i. unfold unmapped_upto. rewrite list_lookup_imap.
  destruct (decide (i = n)) as [->|Hne].
  - rewrite list_lookup_insert_eq by (rewrite length_imap; by eapply lookup_lt_Some). rewrite Hd. simpl.
    by rewrite decide_True by lia.
  - rewrite list_lookup_insert_ne by done. rewrite list_lookup_imap.
    destruct (l !! i); [|done]. simpl. f_equal. repeat case_decide; done || lia.
Qed.

Lemma unmapped_upto_all proc l : unmapped_upto proc (length l) l = unmapped_by proc <$> l.
Proof.
  apply list_eq. intros i. unfold unmapped_upto. rewrite list_lookup_imap, list_lookup_fmap.
  destruct (l !! i) as [d|] eqn:E; [|done]. simpl. rewrite decide_True; [done|]. by eapply lookup_lt_Some.
Qed.

Lemma dmap_unmap_ok s proc :
  length (dmaps (tabs s)) = NR_DEVICES → proc ≠ 0 →
  wp (dmap_unmap_by_proc proc) (λ _ s', s' = with_table (unmapped_by proc <$> dmaps (tabs s)) s) s.
Proof.
  intros Hlen Hproc. unfold dmap_unmap_by_proc.
  eapply wp_mono; [eapply (wp_for_each _ _ (λ pre s', s' =
    with_table (unmapped_upto proc (length pre) (dmaps (tabs s))) s))|].
  - simpl. rewrite unmapped_upto_0. by destruct s as [? ? [] ?].
  - intros pre n post s1 El ->. pose proof (f_equal (λ l, l !! length pre) El) as En.
    rewrite list_lookup_middle in En by done. apply lookup_seq in En as [En Hlt]. simpl in En. subst n.
    destruct (lookup_lt_is_Some_2 (dmaps (tabs s)) (length pre)) as [d Hd]; [by rewrite Hlen|].
    rewrite length_app, Nat.add_1_r, (unmapped_upto_S _ _ _ d) by done.
    set (l := unmapped_upto proc (length pre) (dmaps (tabs s))).
    assert (l !! length pre = Some d) as Hl.
    { unfold l, unmapped_upto. rewrite list_lookup_imap, Hd. simpl. by rewrite decide_False by lia. }
    wp_pure. eapply wp_rd; [exact Hl|]. apply wp_when; intros H.
    + apply andb_true_iff in H as [_ H%Z.eqb_eq]. wp_pure.
      eapply wp_run; [by apply (map_driver_none _ _ d)|]. apply wp_ret. unfold unmapped_by.
      by rewrite decide_True.
    + assert (unmapped_by proc d = d) as ->; [|by rewrite list_insert_id].
      unfold unmapped_by. case_decide as E; [|done]. subst proc. rewrite Z.eqb_refl, andb_true_r in H.
      unfold truth in H. apply negb_false_iff, Z.eqb_eq in H. done.
  - intros [] s' ->. by rewrite length_seq, <- Hlen, unmapped_upto_all.
Qed.

(** * A driver that is gone *)

(** The kernel refuses a message to a process that has exited, and leaves the
    message as it is. *)
Definition gone (task : Z) (k : K) : Prop := ∀ m v, k_sendrec task m v k = (EDEADSRCDST, m, v, k).

Lemma major_of_range dev : 0 ≤ major_of dev < 256.
Proof. unfold major_of, BYTE. pose proof (land_bound (Z.shiftr dev MAJOR) 255). lia. Qed.

Lemma major_index dev : Process.index (major_of dev) = mret (Z.to_nat (major_of dev)).
Proof. unfold Process.index. pose proof (major_of_range dev). by destruct (Z.ltb_spec (major_of dev) 0); [lia|]. Qed.

Lemma dev_io_gone_ok s op dev proc addr v pos bytes flags d :
  dmaps (tabs s) !! Z.to_nat (major_of dev) = Some d → dmap_driver d ≠ NONE → dmap_io d = gen_io_r →
  gone (dmap_driver d) (kern s) → isokprocnr proc = true → proc ≠ SUSPEND →
  wp (dev_io op dev proc addr v pos bytes flags) (λ r s', r = (proc, v) ∧ s' = s) s.
Proof.
  intros Hd Hne Hio Hgone Hok Hp. unfold dev_io. wp_pure. rewrite major_index. wp_pure.
  wp_pure. eapply wp_rd; [exact Hd|]. apply Z.eqb_neq in Hne. rewrite Hne. wp_pure.
  eapply wp_rd; [exact Hd|]. rewrite Hio. cbv zeta. set (m := _ <| TTY_FLAGS := flags |>).
  pose proof loop_fuel_pos as Hf. destruct loop_fuel as [|n] eqn:En; [lia|].
  assert (call_io 2 gen_io_r (dmap_driver d) m v s = Ret (m, v) s) as Hcall.
  { cbn [call_io]. unfold gen_io. change (PROC_NR m) with proc. rewrite Hok. cbn [negb].
    unfold gen_io_send, gen_io_wait. rewrite En. cbn [loop].
    unfold mbind, M_bind, kcall. rewrite Hgone. simpl. by destruct s. }
  wp_pure. eapply wp_run; [exact Hcall|].
  cbv beta iota. match goal with |- context [?c =? SUSPEND] => change c with proc end. apply Z.eqb_neq in Hp. rewrite Hp. by wp_pure.
Qed.

(** A driver number below 0 passes the check of [map_driver]. *)
Lemma map_driver_kernel_task s major proc style d opcl :
  0 ≤ major < Z.of_nat NR_DEVICES → - NR_TASKS ≤ proc < 0 → dmaps (tabs s) !! Z.to_nat major = Some d →
  has (dmap_flags d) DMAP_MUTABLE = true → has (dmap_flags d) DMAP_BUSY = false →
  style_of style = Some opcl → map_driver major proc style s = Fault.
Proof.
  intros Hm Hp Hd H1 H2 Hs. unfold map_driver.
  destruct (Z.ltb_spec major 0); [lia|]. destruct (Z.leb_spec (Z.of_nat NR_DEVICES) major); [lia|].
  cbn [orb]. destruct (Z.eqb_spec proc NONE); [unfold NONE, NR_TASKS in *; lia|].
  unfold mbind at 1, M_bind at 1, rd at 1. change (table s) with (dmaps (tabs s)). rewrite Hd, H1, H2. cbn [negb].
  assert (isokprocnr proc = true) as ->.
  { unfold isokprocnr, u32, NR_PROCS, NR_TASKS in *. apply Z.ltb_lt. zlia. }
  cbn [negb]. rewrite Hs. unfold mbind, M_bind, wr. change (table s) with (dmaps (tabs s)). rewrite Hd.
  unfold Process.index. destruct (Z.ltb_spec proc 0); [done|lia].
Qed.

(** when a process other than the process manager exits, no major device
    remains mapped to it, and the entries of all other drivers stay as they are. *)
Theorem dmap_unmap_by_proc_contract s proc :
  length (dmaps (tabs s)) = NR_DEVICES → proc ≠ 0 →
  wp (dmap_unmap_by_proc proc) (λ _ s', s' = with_table (unmapped_by proc <$> dmaps (tabs s)) s) s.
Proof. apply dmap_unmap_ok. Qed.

(** C38: a request to a driver that has exited while its device is still mapped is
    not an error: dev_io returns the number of the requesting process, which its
    callers take for a count of bytes or a status. *)
Theorem dev_io_gone s op dev proc addr v pos bytes flags d :
  dmaps (tabs s) !! Z.to_nat (major_of dev) = Some d → dmap_driver d ≠ NONE → dmap_io d = gen_io_r →
  gone (dmap_driver d) (kern s) → isokprocnr proc = true → proc ≠ SUSPEND →
  wp (dev_io op dev proc addr v pos bytes flags) (λ r s', r = (proc, v) ∧ s' = s) s.
Proof. apply dev_io_gone_ok. Qed.
End spec.

Section spec.
Context {cfg : Config} {krn : Kernel}.
Implicit Types s : st.

(** A message is received. *)
Definition receives (s : st) (m : message) (k : K) : Prop :=
  reviving (glo s) = 0 ∧ ∃ v, k_receive ANY [] (kern s) = (OK, m, v, k).

Definition after_receive (s : st) (m : message) (k : K) : st :=
  s <| kern := k |> <| glo ::= λ g, g <| m_in := m |> <| who := m_source m |> <| call_nr := m_type m |> |>.

Lemma get_work_receive s m k : receives s m k → get_work s = Ret tt (after_receive s m k).
Proof.
  intros [Hr (v & Hk)]. unfold get_work, mbind at 1, M_bind at 1, rg at 1, gets. rewrite Hr. cbn [Z.eqb negb].
  unfold mbind, M_bind, kcall. rewrite Hk. done.
Qed.

(** The message is not a notification. *)
Definition is_request (m : message) : Prop :=
  m_type m ≠ SYS_SIG ∧ m_type m ≠ SYN_ALARM ∧ has (m_type m) NOTIFY_MESSAGE = false.

Lemma main_step_refused_ok s m k i p :
  receives s m k → m_source m = Z.of_nat i → fprocs (tabs s) !! i = Some p → is_request m →
  m_type m < 0 ∨ NCALLS ≤ m_type m ∨ fp_pid p = PID_FREE → rdahed_inode (glo s) = None →
  wp main_step (λ r s', r = true ∧ tabs s' = tabs s ∧ cache s' = cache s ∧
    ∃ out, m_type out = ENOSYS ∧ kern s' = (k_send (Z.of_nat i) out k).2) s.
Proof.
  intros Hrec Hsrc Hp (N1 & N2 & N3) Hbad Hahead. unfold main_step. wp_pure.
  eapply wp_run; [by apply get_work_receive|]. set (s1 := after_receive s m k).
  wp_pure. wp_pure. change (who (glo s1)) with (m_source m). rewrite Hsrc.
  unfold Process.index. destruct (Z.ltb_spec (Z.of_nat i) 0); [lia|]. rewrite Nat2Z.id.
  wp_pure. wp_pure. wp_pure. wp_pure. wp_pure. eapply wp_rd; [exact Hp|]. do 6 wp_pure.
  match goal with |- context [if ?c =? SYS_SIG then _ else _] => change c with (m_type m) end.
  apply Z.eqb_neq in N1, N2. rewrite N1, N2, N3. wp_pure. eapply wp_rd; [exact Hp|].
  wp_pure. apply (wp_run _ _ _ ENOSYS (s1 <| glo ::= λ g, g <| fp := i |> <| super_user := fp_effuid p =? SU_UID |> |>)).
  { destruct ((m_type m <? 0) || (NCALLS <=? m_type m)) eqn:E; [done|].
    apply orb_false_iff in E as [E1%Z.ltb_ge E2%Z.leb_gt]. destruct Hbad as [?|[?| ->]]; [lia|lia|done]. }
  wp_pure. wp_pure.
  match goal with |- context [reply ?c ENOSYS] => change c with (m_source m) end. rewrite Hsrc. wp_pure.
  change (negb (ENOSYS =? SUSPEND)) with true. unfold when at 1. unfold reply.
  wp_pure. wp_pure. wp_pure. wp_pure. wp_pure. eapply wp_kcall; [by apply surjective_pairing|].
  wp_pure. wp_pure. wp_pure. simpl. rewrite Hahead.
  split; [done|]. split; [done|]. split; [done|]. eexists. by split; [|done].
Qed.

(** a process that the server does not know, or that asks for a call number
    outside the table, is answered ENOSYS, and nothing else happens. *)
Theorem main_step_refused s m k i p :
  receives s m k → m_source m = Z.of_nat i → fprocs (tabs s) !! i = Some p → is_request m →
  m_type m < 0 ∨ NCALLS ≤ m_type m ∨ fp_pid p = PID_FREE → rdahed_inode (glo s) = None →
  wp main_step (λ r s', r = true ∧ tabs s' = tabs s ∧ cache s' = cache s ∧
    ∃ out, m_type out = ENOSYS ∧ kern s' = (k_send (Z.of_nat i) out k).2) s.
Proof. apply main_step_refused_ok. Qed.

(** a notification from the kernel, whose tasks have negative numbers, makes
    the loop read the process table before its start. *)
Theorem main_step_kernel_source s m k :
  receives s m k → m_source m < 0 → main_step s = Fault.
Proof.
  intros Hrec Hsrc. unfold main_step, mbind at 1, M_bind at 1. rewrite (get_work_receive s m k Hrec).
  unfold mbind, M_bind, rg, gets. simpl. unfold Process.index. by destruct (Z.ltb_spec (m_source m) 0); [|lia].
Qed.
End spec.
