(* ===== verification/Server.v ===== *)
(** The servers of src/sdios/src around the file server: what their code shares.

    The handlers of a server work on global tables, so they are a state monad over the
    record of its globals.  A handler returns, stops in [panic()] (lib/sdi/panic.cc,
    which never returns), is undefined in C++ (a NULL pointer, an index outside its
    array) or does not leave a loop.  Memory that the code addresses byte by byte is a
    list of bytes, on which the string routines of include/stdlib.h and
    include/string.h are defined. *)

From S2P Require Import Prelude Machine.

(** * The monad *)

Inductive result (S A : Type) :=
  | Done (a : A) (s : S)
  | Halted (s : S)
  | Undefined
  | Spins.
Arguments Done {S A} a s.
Arguments Halted {S A} s.
Arguments Undefined {S A}.
Arguments Spins {S A}.

Definition Srv (S A : Type) : Type := S → result S A.

#[global] Instance Srv_ret {S} : MRet (Srv S) := λ A a s, Done a s.
#[global] Instance Srv_bind {S} : MBind (Srv S) := λ A B k m s,
  match m s with
  | Done a s' => k a s'
  | Halted s' => Halted s'
  | Undefined => Undefined
  | Spins => Spins
  end.

Section monad.
Context {S : Type}.

Definition get {A} (f : S → A) : Srv S A := λ s, Done (f s) s.
Definition update (f : S → S) : Srv S unit := λ s, Done tt (f s).
Definition halt {A} : Srv S A := λ s, Halted s.
Definition undefined {A} : Srv S A := λ _, Undefined.
Definition spins {A} : Srv S A := λ _, Spins.

(** A pointer that may be NULL, where the code follows it. *)
Definition follow {A} (p : option A) : Srv S A :=
  match p with Some a => mret a | None => undefined end.

Definition onlyif (b : bool) (m : Srv S unit) : Srv S unit := if b then m else mret tt.
End monad.

(** An array of the globals, whose elements are pointed to by their index. *)
Class Array (S T : Type) := {
  cells : S → list T;
  set_cells : list T → S → S;
  cells_set l s : cells (set_cells l s) = l;
}.

Section array.
Context {S T : Type} `{!Array S T}.

Definition peek {A} (f : T → A) (i : nat) : Srv S A := λ s,
  match cells s !! i with Some x => Done (f x) s | None => Undefined end.
Definition poke (i : nat) (f : T → T) : Srv S unit := λ s,
  match cells s !! i with
  | Some x => Done tt (set_cells (<[i := f x]> (cells s)) s)
  | None => Undefined
  end.
End array.

(** * Total correctness *)

(** [m] returns from [s], and its result satisfies [Q]. *)
Definition runs {S A} (m : Srv S A) (Q : A → S → Prop) (s : S) : Prop :=
  match m s with Done a s' => Q a s' | _ => False end.

Section runs.
Context {S : Type}.
Implicit Types s : S.

Lemma runs_mono {A} (m : Srv S A) (P Q : A → S → Prop) s :
  runs m P s → (∀ a s', P a s' → Q a s') → runs m Q s.
Proof. unfold runs. destruct (m s); auto. Qed.
Lemma runs_bind {A B} (m : Srv S A) (k : A → Srv S B) Q s :
  runs m (λ a s', runs (k a) Q s') s → runs (m ≫= k) Q s.
Proof. unfold runs, mbind, Srv_bind. destruct (m s); auto. Qed.
Lemma runs_ret {A} (a : A) (Q : A → S → Prop) s : Q a s → runs (mret a) Q s.
Proof. done. Qed.
Lemma runs_get {A} (f : S → A) (Q : A → S → Prop) s : Q (f s) s → runs (get f) Q s.
Proof. done. Qed.
Lemma runs_update f (Q : unit → S → Prop) s : Q tt (f s) → runs (update f) Q s.
Proof. done. Qed.
Lemma runs_follow {A} (p : option A) a (Q : A → S → Prop) s :
  p = Some a → Q a s → runs (follow p) Q s.
Proof. by intros ->. Qed.
Lemma runs_peek {T A} `{!Array S T} (f : T → A) i x (Q : A → S → Prop) s :
  cells s !! i = Some x → Q (f x) s → runs (peek f i) Q s.
Proof. intros E HQ. unfold runs, peek. by rewrite E. Qed.
Lemma runs_poke {T} `{!Array S T} i (f : T → T) x (Q : unit → S → Prop) s :
  cells s !! i = Some x → Q tt (set_cells (<[i := f x]> (cells s)) s) → runs (poke i f) Q s.
Proof. intros E HQ. unfold runs, poke. by rewrite E. Qed.
Lemma runs_onlyif (b : bool) (m : Srv S unit) Q s :
  (b = true → runs m Q s) → (b = false → Q tt s) → runs (onlyif b m) Q s.
Proof. destruct b; intros H1 H2; [by apply H1|by apply H2]. Qed.
End runs.

(** Equations for runs that are known. *)
Lemma bind_done {S A B} (m : Srv S A) (k : A → Srv S B) s a s' : m s = Done a s' → (m ≫= k) s = k a s'.
Proof. intros E. unfold mbind, Srv_bind. by rewrite E. Qed.
Lemma bind_assoc {S A B C} (m : Srv S A) (k : A → Srv S B) (l : B → Srv S C) s :
  ((m ≫= k) ≫= l) s = (m ≫= (λ a, k a ≫= l)) s.
Proof. unfold mbind, Srv_bind. by destruct (m s). Qed.
Lemma peek_done {S T A} `{!Array S T} (f : T → A) i x (s : S) : cells s !! i = Some x → peek f i s = Done (f x) s.
Proof. intros E. unfold peek. by rewrite E. Qed.

Ltac srv_pure :=
  lazymatch goal with
  | |- runs (_ ≫= _) _ _ => apply runs_bind
  | |- runs (mret _) _ _ => apply runs_ret
  | |- runs (get _) _ _ => apply runs_get
  | |- runs (update _) _ _ => apply runs_update
  end.
Ltac srv_peek := eapply runs_peek; [eassumption || (simpl; eassumption)|].
Ltac srv_poke := eapply runs_poke; [eassumption || (simpl; eassumption)|].
Ltac srv_auto := repeat (srv_pure || srv_peek || srv_poke); simpl.

(** * Bytes in memory *)

(** A store at an address of the object, undefined outside it. *)
Definition put (i : nat) (c : Z) (d : list Z) : option (list Z) :=
  if decide (i < length d)%nat then Some (<[i := c]> d) else None.

(** The bytes [src], read while the destination [d] changes: the destination itself
    when both are in the same object. *)
Inductive source := Within | Other (s : list Z).
Definition source_bytes (src : source) (d : list Z) : list Z :=
  match src with Within => d | Other s => s end.

Fixpoint memset (d : list Z) (dest : nat) (c : Z) (size : nat) : option (list Z) :=
  match size with
  | O => Some d
  | S size => d ← put dest c d; memset d (S dest) c size
  end.

Fixpoint memcpy (d : list Z) (dest : nat) (s : source) (src size : nat) : option (list Z) :=
  match size with
  | O => Some d
  | S size =>
      c ← source_bytes s d !! src; d ← put dest c d;
      memcpy d (S dest) s (S src) size
  end.

(** The first loop of [strncpy]; the second one, meant to pad with zeros, is
    [while (max < 0)] on an unsigned [max] and never runs. *)
Fixpoint strncpy (d : list Z) (dest : nat) (s : source) (src max : nat) : option (list Z) :=
  match max with
  | O => Some d
  | S max =>
      c ← source_bytes s d !! src; d ← put dest c d;
      if c =? 0 then Some d else strncpy d (S dest) s (S src) max
  end.

(** [strcmp(s1, s2)], undefined when no NUL ends the comparison inside the objects. *)
Fixpoint strcmp (s1 s2 : list Z) : option Z :=
  match s1, s2 with
  | a :: s1, b :: s2 =>
      if negb (a =? 0) && (a =? b) then strcmp s1 s2 else Some (a - b)
  | _, _ => None
  end.

(** [strlen], undefined without a NUL. *)
Fixpoint strlen (s : list Z) : option nat :=
  match s with [] => None | c :: s => if c =? 0 then Some O else S <$> strlen s end.

(** * Facts about the byte routines *)

Lemma strlen_spec cs tl : Forall (λ c, c ≠ 0) cs → strlen (cs ++ 0 :: tl) = Some (length cs).
Proof. induction 1 as [|c cs Hc Hcs IH]; simpl; [done|]. by rewrite (proj2 (Z.eqb_neq c 0) Hc), IH. Qed.

Lemma put_Some i c d : (i < length d)%nat → put i c d = Some (<[i := c]> d).
Proof. intros. unfold put. by rewrite decide_True. Qed.

Lemma memset_spec d dest c size :
  (dest + size ≤ length d)%nat →
  memset d dest c size = Some (take dest d ++ repeat c size ++ drop (dest + size) d).
Proof.
  revert d dest. induction size as [|n IH]; intros d dest Hle; simpl.
  - by rewrite Nat.add_0_r, take_drop.
  - rewrite put_Some by lia. simpl. rewrite IH by (rewrite length_insert; lia). f_equal.
    rewrite (take_S_r _ _ c) by (rewrite list_lookup_insert_eq; [done|lia]).
    rewrite take_insert_ge, drop_insert_lt by lia. rewrite <- app_assoc. simpl.
    by rewrite Nat.add_succ_r.
Qed.

(** What one round of a copying loop leaves to be read, when the destination is below
    the source of the same object or in another one. *)
Lemma source_next d dest s src c bs :
  drop src (source_bytes s d) = c :: bs → (s = Within → (dest ≤ src)%nat) →
  source_bytes s d !! src = Some c ∧
  drop (S src) (source_bytes s (<[dest := c]> d)) = bs.
Proof.
  intros Hs Hle. assert (source_bytes s d !! src = Some c) as Hlk.
  { rewrite <- (Nat.add_0_r src), <- lookup_drop. by rewrite Hs. }
  split; [done|]. rewrite (drop_S _ c) in Hs by done. simplify_eq.
  destruct s; simpl in *; [|done]. specialize (Hle eq_refl). by rewrite drop_insert_lt by lia.
Qed.

(** [memcpy] copies [bs], forward. *)
Lemma memcpy_spec d dest s src bs tl :
  drop src (source_bytes s d) = bs ++ tl → (s = Within → (dest ≤ src)%nat) →
  (dest + length bs ≤ length d)%nat →
  memcpy d dest s src (length bs) = Some (take dest d ++ bs ++ drop (dest + length bs) d).
Proof.
  revert d dest src. induction bs as [|c bs IH]; intros d dest src Hs Hle Hlen; simpl in *.
  - by rewrite Nat.add_0_r, take_drop.
  - destruct (source_next d dest s src c (bs ++ tl)) as [Hc Hnext]; [done..|].
    rewrite Hc. simpl. rewrite put_Some by lia. simpl.
    rewrite IH; [|done|intros ->; specialize (Hle eq_refl); lia|rewrite length_insert; lia].
    f_equal. rewrite (take_S_r _ _ c) by (rewrite list_lookup_insert_eq; [done|lia]).
    rewrite take_insert_ge, drop_insert_lt by lia. rewrite <- app_assoc. simpl.
    by rewrite Nat.add_succ_r.
Qed.

(** [strncpy] copies the string [cs], and its NUL if [max] leaves room for it. *)
Lemma strncpy_spec d dest s src max cs tl out :
  drop src (source_bytes s d) = cs ++ tl → (s = Within → (dest ≤ src)%nat) →
  Forall (λ c, c ≠ 0) cs →
  (length cs = max ∧ out = cs ∨
   (length cs < max)%nat ∧ head tl = Some 0 ∧ out = cs ++ [0]) →
  (dest + length out ≤ length d)%nat →
  strncpy d dest s src max = Some (take dest d ++ out ++ drop (dest + length out) d).
Proof.
  revert d dest src max out. induction cs as [|c cs IH]; intros d dest src max out Hs Hle Hnz Hmax Hlen.
  - destruct Hmax as [[<- ->]|(Hm & Htl & ->)]; simpl in *.
    + by rewrite Nat.add_0_r, take_drop.
    + destruct max as [|max]; [lia|]. destruct tl as [|? tl]; [done|]. simplify_eq/=.
      destruct (source_next d dest s src 0 tl) as [Hc _]; [done..|]. rewrite Hc. simpl.
      rewrite put_Some by lia. simpl. f_equal. rewrite insert_take_drop by lia. by rewrite Nat.add_1_r.
  - apply Forall_cons in Hnz as [Hc0 Hnz]. destruct max as [|max]; [simpl in *; lia|]. simpl.
    destruct (source_next d dest s src c (cs ++ tl)) as [Hc Hnext]; [done..|].
    assert (∃ out', out = c :: out' ∧ (length cs = max ∧ out' = cs ∨
      (length cs < max)%nat ∧ head tl = Some 0 ∧ out' = cs ++ [0])) as (out'&->&Hout).
    { simpl in Hmax. destruct Hmax as [[? ->]|(?&?&->)]; eexists; (split; [reflexivity|]); [left|right]; (split; [lia|done]). }
    simpl in Hlen. rewrite Hc. simpl. rewrite put_Some by lia. simpl. rewrite (proj2 (Z.eqb_neq c 0) Hc0).
    rewrite (IH _ (S dest) (S src) max out');
      [|done|intros ->; specialize (Hle eq_refl); lia|done|done|rewrite length_insert; lia].
    f_equal. rewrite (take_S_r _ _ c) by (rewrite list_lookup_insert_eq; [done|lia]).
    rewrite take_insert_ge, drop_insert_lt by lia. rewrite <- app_assoc. simpl.
    by rewrite Nat.add_succ_r.
Qed.

(** Two C strings compare equal exactly when they are the same up to the NUL. *)
Lemma strcmp_spec s1 s2 t1 t2 :
  Forall (λ c, c ≠ 0) s1 → Forall (λ c, c ≠ 0) s2 →
  ∃ r, strcmp (s1 ++ 0 :: t1) (s2 ++ 0 :: t2) = Some r ∧ (r = 0 ↔ s1 = s2).
Proof.
  intros H1. revert s2. induction H1 as [|a s1 Ha H1 IH]; intros s2 H2; destruct H2 as [|b s2 Hb H2]; simpl.
  - by exists 0.
  - exists (0 - b). split; [done|]. split; [lia|done].
  - rewrite (proj2 (Z.eqb_neq a 0) Ha). exists (a - 0). rewrite andb_false_r || simpl.
    all: try (rewrite (proj2 (Z.eqb_neq a 0) Ha)); simpl.
    all: try (split; [done|split; [lia|done]]).
  - rewrite (proj2 (Z.eqb_neq a 0) Ha). simpl. destruct (Z.eqb_spec a b) as [->|Hab].
    + destruct (IH s2 H2) as (r&Hr&Heq). exists r. split; [done|]. rewrite Heq. split; [by intros ->|by intros [= ->]].
    + exists (a - b). split; [done|]. split; [lia|]. by intros [= ??].
Qed.
