(* ===== verification/L4Types.v ===== *)
(** The words of the L4 interface the servers compute with (src/sdios/include/l4/types.h
    on ia32): thread ids, flexpages, clocks and periods. *)

From S2P Require Import Prelude Machine.

Definition L4_nilthread : Z := 0.
Definition L4_anythread : Z := 2 ^ 32 - 1.
Definition L4_Nilpage : Z := 0.

(** [version] in the 14 low bits, [thread_no] in the 18 high ones. *)
Definition L4_GlobalId (threadno version : Z) : Z := 2 ^ 14 * (threadno mod 2 ^ 18) + version mod 2 ^ 14.
Definition L4_Version (t : Z) : Z := t mod 2 ^ 14.
Definition L4_ThreadNo (t : Z) : Z := t / 2 ^ 14.
Definition L4_IsNilThread (t : Z) : bool := t =? 0.

(** The fields of [L4_Fpage_t]: [rwx] in bits 0..2, [s] in bits 4..9, [b] above. *)
Definition fpage_s (f : Z) : Z := (f / 2 ^ 4) mod 2 ^ 6.
Definition L4_IsNilFpage (f : Z) : bool := f =? 0.
Definition L4_Rights (f : Z) : Z := f mod 2 ^ 3.

(** [fp.raw = BaseAddress; fp.X.s = s; fp.X.rwx = L4_NoAccess] *)
Definition fpage_with (base s : Z) : Z :=
  2 ^ 10 * (base / 2 ^ 10) + 2 ^ 4 * (s mod 2 ^ 6) + 2 ^ 3 * ((base / 2 ^ 3) mod 2).

Definition L4_FpageLog2 (BaseAddress FpageSize : Z) : Z := fpage_with BaseAddress FpageSize.

(** [bsr]: the number of the highest bit set. *)
Definition L4_Msb (w : Z) : Z := Z.log2 w.

Definition L4_Fpage (BaseAddress FpageSize : Z) : Z :=
  let msb := L4_Msb FpageSize in
  fpage_with BaseAddress (if u32 (Z.shiftl 1 msb) <? FpageSize then msb + 1 else msb).

Definition L4_Address (f : Z) : Z := Z.land f (2 ^ 32 - 1 - (u32 (Z.shiftl 1 (fpage_s f)) - 1)).
Definition L4_Size (f : Z) : Z := if fpage_s f =? 0 then 0 else u32 (Z.shiftl 1 (fpage_s f)).

Definition L4_SizeLog2 (f : Z) : Z := fpage_s f.

(** The field [rwx]. *)
Definition L4_FullyAccessible : Z := 7.
Definition L4_ReadWriteOnly : Z := 6.
Definition L4_ReadeXecOnly : Z := 5.
Definition L4_NoAccess : Z := 0.
Definition L4_Set_Rights (f rwx : Z) : Z := 8 * (f / 8) + rwx mod 8.
Definition L4_FpageAddRights (f rwx : Z) : Z := 8 * (f / 8) + Z.lor (f mod 8) rwx mod 8.
Definition L4_FpageRemoveRights (f rwx : Z) : Z := 8 * (f / 8) + Z.ldiff (f mod 8) rwx mod 8.

(** Local ids have 6 zeros below. *)
Definition L4_anylocalthread : Z := 2 ^ 32 - 2 ^ 6.
Definition L4_IsLocalId (t : Z) : bool := t mod 2 ^ 6 =? 0.
Definition L4_IsGlobalId (t : Z) : bool := negb (t mod 2 ^ 6 =? 0).

(** ** Clocks and times *)

Definition u64 (x : Z) : Z := x mod 2 ^ 64.
Definition L4_ClockAddUsec (c r : Z) : Z := u64 (c + r).
Definition L4_ClockSubUsec (c r : Z) : Z := u64 (c - r).
Definition L4_IsClockEarlier (l r : Z) : bool := l <? r.
Definition L4_IsClockLater (l r : Z) : bool := r <? l.

(** A period: the mantissa [m] in bits 0..9, the exponent [e] in bits 10..14. *)
Definition period_m (t : Z) : Z := t mod 2 ^ 10.
Definition period_e (t : Z) : Z := (t / 2 ^ 10) mod 2 ^ 5.
Definition set_timeperiod (exp man : Z) : Z := man mod 2 ^ 10 + 2 ^ 10 * (exp mod 2 ^ 5).
Definition L4_Never : Z := 0.
Definition L4_ZeroTime : Z := set_timeperiod 1 0.

(** [while (man >= (1 << 10))] *)
Fixpoint shift_mantissa (fuel : nat) (man exp : Z) : Z * Z :=
  if 2 ^ 10 <=? man then
    match fuel with O => (man, exp) | S fuel => shift_mantissa fuel (Z.shiftr man 1) (exp + 1) end
  else (man, exp).

(** [L4_TimePeriod] for a value that the compiler does not know: [man] is a word. *)
Definition L4_TimePeriod (microseconds : Z) : Z :=
  let '(man, exp) := shift_mantissa 32 (u32 microseconds) 0 in
  if exp <=? 31 then set_timeperiod exp man else L4_Never.

(** And for one that it knows: the first [N] from 10 to 31 with [microseconds < 1UL << N]. *)
Fixpoint try_exponents (ns : list Z) (microseconds : Z) : Z :=
  match ns with
  | [] => L4_Never
  | n :: ns => if microseconds <? Z.shiftl 1 n then set_timeperiod (n - 10) (Z.shiftr microseconds (n - 10)) else try_exponents ns microseconds
  end.
Definition L4_TimePeriod_constant (microseconds : Z) : Z := try_exponents (seqZ 10 22) microseconds.

Lemma L4_ThreadNo_GlobalId no v : 0 ≤ no < 2 ^ 18 → 0 ≤ v < 2 ^ 14 →
  L4_ThreadNo (L4_GlobalId no v) = no ∧ L4_Version (L4_GlobalId no v) = v.
Proof. unfold L4_ThreadNo, L4_Version, L4_GlobalId. intros. split; zlia. Qed.

Lemma fpage_with_s base s : 0 ≤ s < 2 ^ 6 → fpage_s (fpage_with base s) = s.
Proof. unfold fpage_s, fpage_with. intros. zlia. Qed.

(** Clearing the [s] low bits of a word. *)
Lemma land_high f s : 0 ≤ s < 32 → 0 ≤ f < 2 ^ 32 →
  Z.land f (2 ^ 32 - 1 - (2 ^ s - 1)) = 2 ^ s * (f / 2 ^ s).
Proof.
  intros Hs Hf. apply Z.bits_inj'. intros i Hi. rewrite Z.land_spec.
  rewrite (Z.mul_comm (2 ^ s)), <- Z.shiftl_mul_pow2 by lia.
  destruct (decide (i < s)) as [His|His].
  - rewrite (Z.shiftl_spec_low (f / 2 ^ s)) by lia.
    apply andb_false_intro2. replace (2 ^ 32 - 1 - (2 ^ s - 1)) with ((2 ^ (32 - s) - 1) * 2 ^ s).
    + rewrite <- Z.shiftl_mul_pow2 by lia. by rewrite Z.shiftl_spec_low by lia.
    + rewrite Z.mul_sub_distr_r, <- Z.pow_add_r by lia. replace (32 - s + s) with 32 by lia. lia.
  - rewrite Z.shiftl_spec, Z.div_pow2_bits by lia. replace (i - s + s) with i by lia.
    replace (2 ^ 32 - 1 - (2 ^ s - 1)) with (Z.shiftl (Z.ones (32 - s)) s).
    + rewrite Z.shiftl_spec by lia. destruct (decide (i < 32)) as [Hi32|Hi32].
      * rewrite Z.ones_spec_low by lia. apply andb_true_r.
      * rewrite (proj1 (Z.bounded_iff_bits_nonneg 32 f ltac:(lia) ltac:(lia)) ltac:(lia) i) by lia. done.
    + rewrite Z.shiftl_mul_pow2, Z.ones_equiv by lia.
      replace (Z.pred (2 ^ (32 - s)) * 2 ^ s) with (2 ^ (32 - s) * 2 ^ s - 2 ^ s) by lia.
      rewrite <- Z.pow_add_r by lia. replace (32 - s + s) with 32 by lia. lia.
Qed.

(** A flexpage is of its size, from its base rounded down to it. *)
Lemma fpage_with_parts base s :
  10 ≤ s < 32 → 0 ≤ base < 2 ^ 32 → base mod 2 ^ 10 = 0 →
  L4_Address (fpage_with base s) = base - base mod 2 ^ s ∧ L4_Size (fpage_with base s) = 2 ^ s.
Proof.
  intros Hs Hb Hal.
  assert (H32 : 2 ^ s < 2 ^ 32) by (apply Z.pow_lt_mono_r; lia).
  assert (Hpos : 0 < 2 ^ s) by (apply Z.pow_pos_nonneg; lia).
  assert (Hraw : fpage_with base s = base + 16 * s).
  { unfold fpage_with. rewrite (Z.mod_small s) by lia.
    replace ((base / 2 ^ 3) mod 2) with 0 by zlia. change (2 ^ 10) with 1024 in *. zlia. }
  unfold L4_Address, L4_Size. rewrite fpage_with_s by lia.
  rewrite Z.shiftl_1_l, u32_id by lia. rewrite (proj2 (Z.eqb_neq s 0)) by lia. split; [|done].
  assert (Hq : base = 2 ^ s * (base / 2 ^ s) + base mod 2 ^ s) by (apply Z.div_mod; lia).
  pose proof (Z.mod_pos_bound base (2 ^ s) Hpos) as Hm.
  assert (Hm10 : (base mod 2 ^ s) mod 2 ^ 10 = 0).
  { replace (2 ^ s) with (2 ^ 10 * 2 ^ (s - 10)) by (rewrite <- Z.pow_add_r by lia; f_equal; lia).
    rewrite Z.rem_mul_r by (try apply Z.pow_pos_nonneg; lia). rewrite Hal, Z.add_0_l, Z.mul_comm. apply Z.mod_mul. lia. }
  assert (H10 : 2 ^ s = 1024 * 2 ^ (s - 10)).
  { change 1024 with (2 ^ 10). rewrite <- Z.pow_add_r by lia. f_equal. lia. }
  assert (Hlow : base mod 2 ^ s + 1024 ≤ 2 ^ s).
  { change (2 ^ 10) with 1024 in Hm10. set (r := base mod 2 ^ s) in *. clearbody r.
    assert (r = 1024 * (r / 1024)) by zlia. nia. }
  assert (Hdiv : (base + 16 * s) / 2 ^ s = base / 2 ^ s).
  { symmetry. apply (Z.div_unique_pos _ _ _ (base mod 2 ^ s + 16 * s)); lia. }
  rewrite Hraw, land_high, Hdiv; [lia|lia|].
  split; [lia|]. change (2 ^ 10) with 1024 in Hal.
  assert (base = 1024 * (base / 1024)) by zlia. lia.
Qed.

(** A flexpage has the address and the size it is made of. *)
Lemma L4_FpageLog2_parts base s :
  10 ≤ s < 32 → 0 ≤ base < 2 ^ 32 → base mod 2 ^ s = 0 →
  L4_Address (L4_FpageLog2 base s) = base ∧ L4_Size (L4_FpageLog2 base s) = 2 ^ s.
Proof.
  intros Hs Hb Hal. destruct (fpage_with_parts base s) as [Ha Hz]; [done|done| |].
  - replace (2 ^ s) with (2 ^ (s - 10) * 2 ^ 10) in Hal by (rewrite <- Z.pow_add_r by lia; f_equal; lia).
    assert (0 < 2 ^ (s - 10)) by (apply Z.pow_pos_nonneg; lia).
    rewrite (Z.div_mod base (2 ^ (s - 10) * 2 ^ 10)) by lia. rewrite Hal, Z.add_0_r.
    replace (2 ^ (s - 10) * 2 ^ 10 * (base / (2 ^ (s - 10) * 2 ^ 10))) with (2 ^ (s - 10) * (base / (2 ^ (s - 10) * 2 ^ 10)) * 2 ^ 10) by lia.
    apply Z.mod_mul. lia.
  - unfold L4_FpageLog2. rewrite Ha, Hz, Hal. split; [lia|done].
Qed.

(** The size of [L4_Fpage]: the least power of two that holds [sz]. *)
Lemma L4_Fpage_parts base sz :
  2 ^ 10 ≤ sz ≤ 2 ^ 31 → 0 ≤ base < 2 ^ 32 → base mod 2 ^ 10 = 0 →
  L4_Address (L4_Fpage base sz) = base - base mod 2 ^ Z.log2_up sz ∧ L4_Size (L4_Fpage base sz) = 2 ^ Z.log2_up sz.
Proof.
  intros Hsz Hb Hal.
  assert (Hl : 10 ≤ Z.log2_up sz < 32).
  { assert (Z.log2_up (2 ^ 10) ≤ Z.log2_up sz) by (apply Z.log2_up_le_mono; lia).
    assert (Z.log2_up sz ≤ Z.log2_up (2 ^ 31)) by (apply Z.log2_up_le_mono; lia).
    rewrite !Z.log2_up_pow2 in * by lia. lia. }
  unfold L4_Fpage. replace (if _ <? _ then _ else _) with (Z.log2_up sz); [by apply fpage_with_parts|].
  unfold L4_Msb. rewrite Z.shiftl_1_l. pose proof (Z.log2_spec sz ltac:(lia)) as [H1 H2].
  assert (Hlog : Z.log2 sz < 32) by (pose proof (Z.le_log2_log2_up sz); lia).
  pose proof (Z.log2_nonneg sz).
  rewrite u32_id by (split; [apply Z.pow_nonneg; lia|apply Z.pow_lt_mono_r; lia]).
  destruct (Z.ltb_spec (2 ^ Z.log2 sz) sz) as [Hlt|Hge].
  - apply Z.log2_up_unique; [lia|]. rewrite Z.add_1_r, Z.pred_succ. lia.
  - replace sz with (2 ^ Z.log2 sz) at 1 by lia. by apply Z.log2_up_pow2.
Qed.

(** ** Periods *)

Lemma shift_mantissa_spec fuel man exp : 0 ≤ man < 2 ^ (10 + Z.of_nat fuel) →
  ∃ k, 0 ≤ k ∧ shift_mantissa fuel man exp = (man / 2 ^ k, exp + k) ∧ man / 2 ^ k < 2 ^ 10 ∧ (k = 0 ∨ 2 ^ 9 ≤ man / 2 ^ k).
Proof.
  revert man exp. induction fuel as [|fuel IH]; intros man exp Hm; cbn [shift_mantissa];
    destruct (Z.leb_spec (2 ^ 10) man) as [Hle|Hlt].
  - rewrite Z.add_0_r in Hm. lia.
  - exists 0. rewrite Z.div_1_r, Z.add_0_r. split_and!; [lia|done|done|by left].
  - rewrite Z.shiftr_div_pow2 by lia. change (2 ^ 1) with 2. destruct (IH (man / 2) (exp + 1)) as (k&Hk&E&Hlt&Hge).
    { split; [apply Z.div_pos; lia|]. apply Z.div_lt_upper_bound; [lia|].
      replace (2 * 2 ^ (10 + Z.of_nat fuel)) with (2 ^ (10 + Z.of_nat (S fuel))); [lia|].
      rewrite <- Z.pow_succ_r by lia. f_equal. lia. }
    assert (Ed : man / 2 / 2 ^ k = man / 2 ^ (k + 1)).
    { rewrite Z.div_div, Z.pow_add_r by (try apply Z.pow_nonzero; lia). f_equal. lia. }
    exists (k + 1). rewrite E, <- Ed. split_and!; [lia|f_equal; lia|done|]. right. destruct Hge as [->|]; [|done].
    rewrite Z.div_1_r. change (2 ^ 10) with 1024 in Hle. change (2 ^ 9) with 512. zlia.
  - exists 0. rewrite Z.div_1_r, Z.add_0_r. split_and!; [lia|done|done|by left].
Qed.

Lemma set_timeperiod_parts e m : 0 ≤ e < 2 ^ 5 → 0 ≤ m < 2 ^ 10 → period_e (set_timeperiod e m) = e ∧ period_m (set_timeperiod e m) = m.
Proof.
  unfold period_e, period_m, set_timeperiod. change (2 ^ 5) with 32. change (2 ^ 10) with 1024. intros. split; zlia.
Qed.

(** The first exponent of the list that fits is the one of the loop. *)
Lemma try_exponents_spec us k a len : 0 ≤ k → us < 2 ^ (k + 10) → (∀ n, 10 ≤ n < k + 10 → 2 ^ n ≤ us) →
  10 ≤ a ≤ k + 10 → k + 10 < a + Z.of_nat len →
  try_exponents (seqZ a (Z.of_nat len)) us = set_timeperiod k (us / 2 ^ k).
Proof.
  intros Hk Hus Hmin. revert a. induction len as [|len IH]; intros a Ha Hlen; [lia|].
  rewrite seqZ_cons by lia. simpl. rewrite Z.shiftl_1_l. destruct (decide (a = k + 10)) as [->|].
  - rewrite (proj2 (Z.ltb_lt _ _)) by done. rewrite Z.shiftr_div_pow2 by lia. do 2 f_equal; [lia|f_equal; lia].
  - rewrite (proj2 (Z.ltb_ge _ _)) by (apply Hmin; lia). replace (Z.pred (Z.of_nat (S len))) with (Z.of_nat len) by lia.
    replace (Z.succ a) with (a + 1) by lia. apply IH; lia.
Qed.

Lemma L4_TimePeriod_word us : 0 < us < 2 ^ 32 →
  let t := L4_TimePeriod us in let v := period_m t * 2 ^ period_e t in
  t ≠ L4_Never ∧ v ≤ us ∧ 512 * (us - v) < us ∧ (us < 2 ^ 31 → L4_TimePeriod_constant us = t).
Proof.
  intros Hus. unfold L4_TimePeriod. rewrite u32_id by lia.
  destruct (shift_mantissa_spec 32 us 0) as (k&Hk&->&Hlt&Hge); [change (Z.of_nat 32) with 32; lia|]. rewrite Z.add_0_l.
  assert (Hp : 0 < 2 ^ k) by (apply Z.pow_pos_nonneg; lia).
  pose proof (Z.div_mod us (2 ^ k)). pose proof (Z.mod_pos_bound us (2 ^ k) Hp).
  change (2 ^ 10) with 1024 in Hlt. change (2 ^ 9) with 512 in Hge.
  assert (Hk22 : k < 23).
  { destruct Hge as [->|Hge]; [lia|]. apply (Z.pow_lt_mono_r_iff 2); [lia|lia|]. change (2 ^ 23) with 8388608. nia. }
  rewrite (proj2 (Z.leb_le k 31)) by lia. assert (Hm0 : 0 ≤ us / 2 ^ k) by (apply Z.div_pos; lia).
  destruct (set_timeperiod_parts k (us / 2 ^ k)) as [-> ->]; [change (2 ^ 5) with 32; lia|change (2 ^ 10) with 1024; lia|].
  assert (Hm1 : 0 < us / 2 ^ k) by (destruct Hge as [->|]; [rewrite Z.div_1_r; lia|lia]).
  split_and!.
  - unfold L4_Never, set_timeperiod. rewrite (Z.mod_small (us / 2 ^ k)) by lia. change (2 ^ 5) with 32. change (2 ^ 10) with 1024. zlia.
  - lia.
  - destruct Hge as [->|Hge]; [rewrite Z.div_1_r, Z.mul_1_r; lia|nia].
  - intros H31. unfold L4_TimePeriod_constant. apply (try_exponents_spec us k 10 22); [done| | |lia|].
    + rewrite Z.pow_add_r by lia. change (2 ^ 10) with 1024. nia.
    + intros n Hn. destruct Hge as [->|Hge]; [lia|]. transitivity (2 ^ (k + 9)); [apply Z.pow_le_mono_r; lia|].
      rewrite Z.pow_add_r by lia. change (2 ^ 9) with 512. nia.
    + destruct Hge as [->|Hge]; [lia|]. assert (k + 9 < 31); [|lia]. apply (Z.pow_lt_mono_r_iff 2); [lia|lia|].
      rewrite Z.pow_add_r by lia. change (2 ^ 9) with 512. nia.
Qed.

Lemma try_exponents_never us : ∀ len a, 10 ≤ a → 2 ^ 31 ≤ us → a + Z.of_nat len ≤ 32 → try_exponents (seqZ a (Z.of_nat len)) us = L4_Never.
Proof.
  induction len as [|len IH]; intros a Ha Hus Hlen; [done|]. rewrite seqZ_cons by lia. cbn [try_exponents].
  rewrite Z.shiftl_1_l. assert (2 ^ a ≤ 2 ^ 31) by (apply Z.pow_le_mono_r; lia).
  rewrite (proj2 (Z.ltb_ge _ _)) by lia. replace (Z.pred (Z.of_nat (S len))) with (Z.of_nat len) by lia. apply IH; lia.
Qed.

(** C32: The period of a 64-bit number of microseconds, which the code cuts to its low 32
    bits: when they are 0 it is [L4_Never]; else it is not, and it is those bits rounded down
    to a number of ten bits times a power of two, by less than one part in 512.  When the
    compiler knows the value, the period is the same below [2 ^ 31] and [L4_Never] from
    there on. *)
Theorem L4_TimePeriod_contract us : 0 ≤ us < 2 ^ 64 →
  let t := L4_TimePeriod us in let w := us mod 2 ^ 32 in let v := period_m t * 2 ^ period_e t in
  (w = 0 → t = L4_Never) ∧ (w ≠ 0 → t ≠ L4_Never ∧ v ≤ w ∧ 512 * (w - v) < w) ∧
  L4_TimePeriod_constant us = if us <? 2 ^ 31 then t else L4_Never.
Proof.
  intros Hus. cbv zeta. set (w := us mod 2 ^ 32).
  assert (Hw : 0 ≤ w < 2 ^ 32) by (apply Z.mod_pos_bound; lia).
  assert (Et : L4_TimePeriod us = L4_TimePeriod w) by (unfold L4_TimePeriod, u32, w; by rewrite Z.mod_mod).
  rewrite Et. split_and!.
  - by intros ->.
  - intros Hnz. destruct (L4_TimePeriod_word w) as (?&?&?&_); [lia|done].
  - destruct (Z.ltb_spec us (2 ^ 31)) as [Hlt|Hge]; [|by apply (try_exponents_never us 22 10)].
    assert (w = us) as -> by (apply Z.mod_small; lia).
    destruct (decide (us = 0)) as [->|]; [done|]. by apply L4_TimePeriod_word; lia.
Qed.
