(* ===== verification/Message.v ===== *)
(** The messages of the L4 interface (src/sdios/include/l4/message.h), and the virtual
    registers of ia32 that carry them (ia32/vregs.h).

    Words are integers; an object of several words is a list of them, and a pointer into
    it an index.  An access outside the object is undefined: [None]. *)

From stdpp Require Import gmap.
From S2P Require Import Prelude Machine Server L4Types.

(** * Message tags *)

Definition NUM_MRS : nat := 64.

(** The fields [u], [t], [flags] and [label], from the lowest bit. *)
Definition tag_u (w : Z) : Z := w mod 2 ^ 6.
Definition tag_t (w : Z) : Z := (w / 2 ^ 6) mod 2 ^ 6.
Definition tag_flags (w : Z) : Z := (w / 2 ^ 12) mod 2 ^ 4.
Definition tag_label (w : Z) : Z := w / 2 ^ 16.
Definition tag_of (label flags t u : Z) : Z :=
  u mod 2 ^ 6 + 2 ^ 6 * (t mod 2 ^ 6) + 2 ^ 12 * (flags mod 2 ^ 4) + 2 ^ 16 * (label mod 2 ^ 16).
Definition L4_Niltag : Z := 0.

Definition L4_Label (w : Z) : Z := tag_label w.
Definition L4_UntypedWords (w : Z) : Z := tag_u w.
Definition L4_TypedWords (w : Z) : Z := tag_t w.
Definition L4_MsgTagAddLabel (w label : Z) : Z := tag_of label (tag_flags w) (tag_t w) (tag_u w).
Definition L4_Set_Label (w label : Z) : Z := L4_MsgTagAddLabel w label.
Definition set_tag_u (w u : Z) : Z := tag_of (tag_label w) (tag_flags w) (tag_t w) u.
Definition set_tag_t (w t : Z) : Z := tag_of (tag_label w) (tag_flags w) t (tag_u w).

(** * Typed items *)

(** A map, grant or simple string item: two words. *)
Record L4_item := Item_words { raw0 : Z; raw1 : Z }.
Definition item_type (i : L4_item) : Z := (raw0 i / 2) mod 2 ^ 3.
Definition item_with (type : Z) (f SndBase : Z) : L4_item :=
  Item_words (2 * type + 2 ^ 10 * (Z.shiftr SndBase 10 mod 2 ^ 22)) f.
Definition L4_MapItem (f SndBase : Z) : L4_item := item_with 4 f SndBase.
Definition L4_GrantItem (f SndBase : Z) : L4_item := item_with 5 f SndBase.
Definition L4_IsMapItem (i : L4_item) : bool := item_type i =? 4.
Definition L4_IsGrantItem (i : L4_item) : bool := item_type i =? 5.
Definition L4_SndFpage (i : L4_item) : Z := raw1 i.
Definition L4_SndBase (i : L4_item) : Z := u32 (Z.shiftl (raw0 i / 2 ^ 10) 10).

(** * String items *)

(** The first word: [C], [type], [j], [c] and [string_length], from the lowest bit. *)
Definition hdr_C (h : Z) : Z := h mod 2.
Definition hdr_type (h : Z) : Z := (h / 2) mod 2 ^ 3.
Definition hdr_j (h : Z) : Z := (h / 2 ^ 4) mod 2 ^ 5.
Definition hdr_c (h : Z) : Z := (h / 2 ^ 9) mod 2.
Definition hdr_length (h : Z) : Z := h / 2 ^ 10.
Definition hdr_of (length c j type C : Z) : Z :=
  C mod 2 + 2 * (type mod 2 ^ 3) + 2 ^ 4 * (j mod 2 ^ 5) + 2 ^ 9 * (c mod 2) + 2 ^ 10 * (length mod 2 ^ 22).
Definition set_hdr_C (h C : Z) : Z := hdr_of (hdr_length h) (hdr_c h) (hdr_j h) (hdr_type h) C.
Definition set_hdr_c (h c : Z) : Z := hdr_of (hdr_length h) c (hdr_j h) (hdr_type h) (hdr_C h).
Definition set_hdr_j (h j : Z) : Z := hdr_of (hdr_length h) (hdr_c h) j (hdr_type h) (hdr_C h).

Definition L4_StringItem (size address : Z) : L4_item := Item_words (hdr_of size 0 0 0 0) address.
Definition L4_IsStringItem (h : Z) : bool := Z.land (hdr_type h) 4 =? 0.
Definition L4_CompoundString (h : Z) : bool := negb (hdr_c h =? 0).
Definition L4_Substrings (h : Z) : Z := hdr_j h + 1.
(** [str.substring_ptr[n - 1]] *)
Definition L4_Substring (w : list Z) (s n : nat) : option Z := w !! (s + n)%nat.

(** Behind the string at [s], and its last group of substrings. *)
Fixpoint EndOfString (fuel : nat) (w : list Z) (s : nat) : option (nat * nat) :=
  match fuel with
  | O => None
  | S fuel =>
      h ← w !! s;
      let e := (s + Z.to_nat (hdr_j h) + 2)%nat in
      if hdr_c h =? 0 then Some (e, s) else EndOfString fuel w e
  end.

(** A group has two words at least. *)
Definition end_of_string (w : list Z) (s : nat) : option (nat * nat) := EndOfString (S (length w)) w s.

(** Behind the strings from [s] on, and the last of them. *)
Fixpoint EndOfStrings (fuel : nat) (w : list Z) (s : nat) : option (nat * nat) :=
  match fuel with
  | O => None
  | S fuel =>
      e ← end_of_string w s;
      h ← w !! s;
      if hdr_C h =? 0 then Some (e.1, s) else EndOfStrings fuel w e.1
  end.
Definition end_of_strings (w : list Z) (s : nat) : option (nat * nat) := EndOfStrings (S (length w)) w s.

(** The string at [s] of [from] goes to [d] of [w]: another object, or the same. *)
Definition Copy_String (w : list Z) (d : nat) (from : source) (s : nat) : option (list Z) :=
  e ← end_of_string (source_bytes from w) s; memcpy w d from s (e.1 - s).

Definition L4_AddSubstringTo (w : list Z) (d : nat) (substr : list Z) : option (list Z * nat) :=
  '(e, p) ← end_of_string w d;
  h ← w !! p; w ← put p (set_hdr_c h 1) w;
  w ← Copy_String w e (Other substr) 0; Some (w, e).

Definition L4_AddSubstringAddressTo (w : list Z) (d : nat) (addr : Z) : option (list Z) :=
  '(_, l) ← end_of_string w d;
  h ← w !! l;
  let h := set_hdr_j h (hdr_j h + 1) in
  w ← put l h w; put (l + 1 + Z.to_nat (hdr_j h))%nat addr w.

(** Bits 1 and 2 of the first word. *)
Definition L4_CacheAlloctionHint (h : Z) : Z := Z.land h 6.
Definition L4_AddCacheAllocationHint (h hint : Z) : Z := Z.lor h (Z.land hint 6).

(** * Messages *)

(** [L4_MsgPut] without the conversions of its arguments: [u] and [t] words. *)
Definition L4_MsgPut (msg : list Z) (label : Z) (Untyped Items : list Z) : option (list Z) :=
  msg ← memcpy msg 1 (Other Untyped) 0 (length Untyped);
  msg ← memcpy msg (length Untyped + 1) (Other Items) 0 (length Items);
  put 0 (tag_of label 0 (Z.of_nat (length Items)) (Z.of_nat (length Untyped))) msg.

Definition msg_u (msg : list Z) : option nat := w ← msg !! O; Some (Z.to_nat (tag_u w)).
Definition msg_t (msg : list Z) : option nat := w ← msg !! O; Some (Z.to_nat (tag_t w)).

(** The [n] words from [i] on, one after the other. *)
Definition words_at (b : list Z) (i n : nat) : option (list Z) := mapM (λ k, b !! k) (seq i n).

(** The words that are copied out. *)
Definition L4_MsgGet (msg : list Z) : option (list Z * list Z) :=
  u ← msg_u msg; t ← msg_t msg;
  ws ← words_at msg 1 u; ts ← words_at msg (1 + u) t; Some (ws, ts).

Definition L4_MsgMsgTag (msg : list Z) : option Z := msg !! O.
Definition L4_Set_MsgMsgTag (msg : list Z) (tag : Z) : option (list Z) := put 0 tag msg.
Definition L4_MsgLabel (msg : list Z) : option Z := w ← msg !! O; Some (tag_label w).
Definition L4_Set_MsgLabel (msg : list Z) (label : Z) : option (list Z) := w ← msg !! O; put 0 (L4_MsgTagAddLabel w label) msg.
Definition L4_MsgClear (msg : list Z) : option (list Z) := put 0 0 msg.

(** [for (; i > u + 1; i--) msg[i] = msg[i - 1]] *)
Fixpoint shift_words (n i : nat) (msg : list Z) : option (list Z) :=
  match n with
  | O => Some msg
  | S n => w ← msg !! (i - 1)%nat; msg ← put i w msg; shift_words n (i - 1) msg
  end.

Definition L4_MsgAppendWord (msg : list Z) (w : Z) : option (list Z) :=
  u ← msg_u msg; t ← msg_t msg;
  msg ← (if (t =? 0)%nat then Some msg else shift_words t (1 + u + t) msg);
  tag ← msg !! O;
  let tag := set_tag_u tag (tag_u tag + 1) in
  msg ← put 0 tag msg; put (Z.to_nat (tag_u tag)) w msg.

(** What map, grant and simple string items share. *)
Definition append_item (msg : list Z) (i : L4_item) : option (list Z) :=
  u ← msg_u msg; t ← msg_t msg;
  msg ← put (u + t + 1) (raw0 i) msg;
  msg ← put (u + t + 2) (raw1 i) msg;
  tag ← msg !! O; put 0 (set_tag_t tag (tag_t tag + 2)) msg.
Definition L4_MsgAppendMapItem := append_item.
Definition L4_MsgAppendGrantItem := append_item.
Definition simple_string (s : L4_item) : L4_item := Item_words (set_hdr_j (set_hdr_c (raw0 s) 0) 0) (raw1 s).
Definition L4_MsgAppendSimpleStringItem (msg : list Z) (s : L4_item) : option (list Z) := append_item msg (simple_string s).

Definition L4_MsgAppendStringItem (msg : list Z) (s : list Z) : option (list Z) :=
  u ← msg_u msg; t ← msg_t msg;
  e ← end_of_string s 0;
  msg ← Copy_String msg (u + t + 1) (Other s) 0;
  tag ← msg !! O; put 0 (set_tag_t tag (tag_t tag + Z.of_nat e.1)) msg.

Definition L4_MsgPutWord (msg : list Z) (u : nat) (w : Z) : option (list Z) := put (u + 1) w msg.
Definition put_item (msg : list Z) (t : nat) (i : L4_item) : option (list Z) :=
  u ← msg_u msg; msg ← put (u + t + 1) (raw0 i) msg; put (u + t + 2) (raw1 i) msg.
Definition L4_MsgPutMapItem := put_item.
Definition L4_MsgPutGrantItem := put_item.
Definition L4_MsgPutSimpleStringItem (msg : list Z) (t : nat) (s : L4_item) : option (list Z) := put_item msg t (simple_string s).
Definition L4_MsgPutStringItem (msg : list Z) (t : nat) (s : list Z) : option (list Z) :=
  u ← msg_u msg; Copy_String msg (u + t + 1) (Other s) 0.

Definition L4_MsgWord (msg : list Z) (u : nat) : option Z := msg !! (u + 1)%nat.
Definition get_item (msg : list Z) (t : nat) : option L4_item :=
  u ← msg_u msg; a ← msg !! (u + t + 1)%nat; b ← msg !! (u + t + 2)%nat; Some (Item_words a b).
Definition L4_MsgGetMapItem := get_item.
Definition L4_MsgGetGrantItem := get_item.

(** [__L4_EndOfString (b, &s)] sets the parameter [s], the place for the result, to the last
    group of the string in the message, and that is where the string is copied. *)
Definition L4_MsgGetStringItem (msg : list Z) (t : nat) : option (list Z * nat) :=
  u ← msg_u msg;
  let b := (u + t + 1)%nat in
  '(e, s) ← end_of_string msg b;
  msg ← Copy_String msg s Within b; Some (msg, (e - b)%nat).

(** * Virtual registers *)

(** The words around the address of the UTCB: message registers at 0 to 63, the registers
    of the thread from -4 down, buffer registers from -16 down. *)
Abbreviation utcb := (gmap Z Z).

Definition L4_StoreMR (r : utcb) (i : Z) : option Z := r !! i.
Definition L4_LoadMR (r : utcb) (i w : Z) : utcb := <[i := w]> r.
Fixpoint L4_StoreMRs (r : utcb) (i : Z) (k : nat) : option (list Z) :=
  match k with O => Some [] | S k => w ← r !! i; ws ← L4_StoreMRs r (i + 1) k; Some (w :: ws) end.
Fixpoint L4_LoadMRs (r : utcb) (i : Z) (ws : list Z) : utcb :=
  match ws with [] => r | w :: ws => L4_LoadMRs (<[i := w]> r) (i + 1) ws end.
Definition L4_LoadBR (r : utcb) (i w : Z) : utcb := <[- 16 - i := w]> r.
Definition L4_StoreBR (r : utcb) (i : Z) : option Z := r !! (- 16 - i).
Fixpoint L4_LoadBRs (r : utcb) (i : Z) (ws : list Z) : utcb :=
  match ws with [] => r | w :: ws => L4_LoadBRs (<[- 16 - i := w]> r) (i + 1) ws end.

Fixpoint L4_StoreBRs (r : utcb) (i : Z) (k : nat) : option (list Z) :=
  match k with O => Some [] | S k => w ← r !! (- 16 - i); ws ← L4_StoreBRs r (i + 1) k; Some (w :: ws) end.

Definition L4_MsgTag (r : utcb) : option Z := L4_StoreMR r 0.
Definition L4_Set_MsgTag (r : utcb) (tag : Z) : utcb := L4_LoadMR r 0 tag.

Definition L4_MsgLoad (r : utcb) (msg : list Z) : option utcb :=
  u ← msg_u msg; t ← msg_t msg;
  ws ← words_at msg 0 (u + t + 1); Some (L4_LoadMRs r 0 ws).

Definition L4_MsgStore (r : utcb) (tag : Z) (msg : list Z) : option (list Z) :=
  ws ← L4_StoreMRs r 1 (Z.to_nat (tag_u tag + tag_t tag));
  msg ← memcpy msg 1 (Other ws) 0 (length ws); put 0 tag msg.

(** * Acceptors and message buffers *)

Definition acc_s (a : Z) : Z := a mod 2.
Definition acc_window (a : Z) : Z := a / 2 ^ 4.
Definition acc_of (window s : Z) : Z := s mod 2 + 2 ^ 4 * (window mod 2 ^ 28).
Definition L4_UntypedWordsAcceptor : Z := 0.
Definition L4_StringItemsAcceptor : Z := 1.
Definition L4_MapGrantItems (RcvWindow : Z) : Z := acc_of (acc_window RcvWindow) 1.
Definition L4_AddAcceptor (l r : Z) : Z :=
  acc_of (if acc_window r =? 0 then acc_window l else acc_window r) (Z.lor (acc_s l) (acc_s r)).
(** The three bits between the fields stay in the first operand. *)
Definition acc_with (a window s : Z) : Z := s mod 2 + 2 * ((a / 2) mod 2 ^ 3) + 2 ^ 4 * (window mod 2 ^ 28).
Definition L4_RemoveAcceptor (l r : Z) : Z :=
  let a := if acc_s r =? 0 then l else acc_with l (acc_window l) 0 in
  if acc_window r =? 0 then a else acc_with a 0 (acc_s a).
Definition L4_HasStringItems (a : Z) : bool := Z.land a 1 =? 1.
Definition L4_HasMapGrantItems (a : Z) : bool := negb (Z.land a (2 ^ 32 - 16) =? 0).
Definition L4_RcvWindow (a : Z) : Z := L4_Set_Rights a 0.

Definition L4_Accept (r : utcb) (a : Z) : utcb := L4_LoadBR r 0 a.
Definition L4_Accepted (r : utcb) : option Z := L4_StoreBR r 0.

(** The inner loop of [L4_AcceptStrings], over the groups of one string. *)
Fixpoint accept_groups (fuel : nat) (r : utcb) (b : list Z) (s i : nat) : option (utcb * nat * nat) :=
  match fuel with
  | O => None
  | S fuel =>
      h ← b !! s;
      let n := (Z.to_nat (hdr_j h) + 2)%nat in
      ws ← words_at b s n;
      let r := L4_LoadBRs r (Z.of_nat i) ws in
      if hdr_c h =? 0 then Some (r, s + n, i + n)%nat else accept_groups fuel r b (s + n) (i + n)
  end.
Fixpoint accept_strings (fuel : nat) (r : utcb) (b : list Z) (s i : nat) : option utcb :=
  match fuel with
  | O => None
  | S fuel =>
      h ← b !! s;
      '(r, s', i') ← accept_groups (S (length b)) r b s i;
      if hdr_C h =? 0 then Some r else accept_strings fuel r b s' i'
  end.
Definition L4_AcceptStrings (r : utcb) (a : Z) (b : list Z) : option utcb :=
  accept_strings (S (length b)) (L4_LoadBR r 0 a) b 0 1.

Definition L4_MsgBufferClear (b : list Z) : option (list Z) := b ← put 2 0 b; put 0 0 b.

(** [b->raw[0] || b->raw[2]] *)
Definition buffer_used (b : list Z) : option bool :=
  r0 ← b !! 0%nat; if negb (r0 =? 0) then Some true else r2 ← b !! 2%nat; Some (negb (r2 =? 0)).

Definition L4_MsgBufferAppendSimpleRcvString (b : list Z) (s : L4_item) : option (list Z) :=
  let s := simple_string s in
  used ← buffer_used b;
  if used : bool then
    '(tmp, prev) ← end_of_strings b 0;
    h ← b !! prev; b ← put prev (set_hdr_C h 1) b;
    b ← put tmp (raw0 s) b; put (tmp + 1) (raw1 s) b
  else
    b ← put 2 (2 ^ 32 - 1) b;
    b ← put 0 (raw0 s) b; b ← put 1 (raw1 s) b;
    put 0 (set_hdr_C (raw0 s) 0) b.

Definition L4_MsgBufferAppendRcvString (b : list Z) (s : list Z) : option (list Z) :=
  used ← buffer_used b;
  '(b, tmp) ← (if used : bool then
                 '(tmp, prev) ← end_of_strings b 0;
                 h ← b !! prev; b ← put prev (set_hdr_C h 1) b; Some (b, tmp)
               else Some (b, O));
  b ← Copy_String b tmp (Other s) 0;
  h ← b !! tmp; put tmp (set_hdr_C h 0) b.

(** * Facts about the words *)

#[local] Arguments put : simpl never.
Ltac bits := change (2 ^ 6) with 64 in *; change (2 ^ 12) with 4096 in *; change (2 ^ 4) with 16 in *; change (2 ^ 16) with 65536 in *;
  change (2 ^ 5) with 32 in *; change (2 ^ 3) with 8 in *; change (2 ^ 9) with 512 in *; change (2 ^ 10) with 1024 in *; change (2 ^ 22) with 4194304 in *.

Lemma tag_parts label flags t u : 0 ≤ label < 2 ^ 16 → 0 ≤ flags < 2 ^ 4 → 0 ≤ t < 2 ^ 6 → 0 ≤ u < 2 ^ 6 →
  tag_label (tag_of label flags t u) = label ∧ tag_flags (tag_of label flags t u) = flags ∧
  tag_t (tag_of label flags t u) = t ∧ tag_u (tag_of label flags t u) = u.
Proof. unfold tag_of, tag_label, tag_flags, tag_t, tag_u. bits. intros. rewrite !Z.mod_small by lia. split_and!; zlia. Qed.

Lemma hdr_parts length c j type C : 0 ≤ length < 2 ^ 22 → 0 ≤ c < 2 → 0 ≤ j < 2 ^ 5 → 0 ≤ type < 2 ^ 3 → 0 ≤ C < 2 →
  let h := hdr_of length c j type C in
  hdr_length h = length ∧ hdr_c h = c ∧ hdr_j h = j ∧ hdr_type h = type ∧ hdr_C h = C.
Proof. unfold hdr_of, hdr_length, hdr_c, hdr_j, hdr_type, hdr_C. bits. intros. rewrite !(Z.mod_small _ 4194304), !(Z.mod_small C), !(Z.mod_small c), !(Z.mod_small j), !(Z.mod_small type) by lia. split_and!; zlia. Qed.

Lemma words_at_spec b i n : (i + n ≤ length b)%nat → words_at b i n = Some (take n (drop i b)).
Proof.
  revert i. induction n as [|n IH]; intros i Hi; [done|]. unfold words_at in *. simpl.
  destruct (lookup_lt_is_Some_2 b i) as [x E]; [lia|]. rewrite E. simpl. rewrite (drop_S b x i E). simpl. by rewrite IH by lia.
Qed.

(** * Messages as lists of words and items *)

(** [msg] has this label, the untyped words [ws], and the words [ts] of its typed items. *)
Definition carries msg (label : Z) (ws ts : list Z) : Prop :=
  ∃ rest, msg = tag_of label 0 (Z.of_nat (length ts)) (Z.of_nat (length ws)) :: ws ++ ts ++ rest ∧
    length msg = NUM_MRS ∧ 0 ≤ label < 2 ^ 16.

Section message.
Context (msg : list Z) (label : Z) (ws ts : list Z) (Hm : carries msg label ws ts).

Lemma message_length : (length ws + length ts ≤ 63)%nat.
Proof. destruct Hm as (rest&->&Hlen&_). simpl in Hlen. rewrite !length_app in Hlen. unfold NUM_MRS in Hlen. lia. Qed.
Lemma message_tag : ∃ w, msg !! O = Some w ∧ tag_label w = label ∧ tag_flags w = 0 ∧ tag_t w = Z.of_nat (length ts) ∧ tag_u w = Z.of_nat (length ws).
Proof.
  pose proof message_length. destruct Hm as (rest&->&_&Hl). eexists. split; [done|]. bits. apply tag_parts; bits; lia.
Qed.
Lemma message_u : msg_u msg = Some (length ws).
Proof. unfold msg_u. destruct message_tag as (w&->&_&_&_&E). simpl. by rewrite E, Nat2Z.id. Qed.
Lemma message_t : msg_t msg = Some (length ts).
Proof. unfold msg_t. destruct message_tag as (w&->&_&_&E&_). simpl. by rewrite E, Nat2Z.id. Qed.

Lemma message_get : L4_MsgGet msg = Some (ws, ts).
Proof.
  unfold L4_MsgGet. rewrite message_u, message_t. simpl. pose proof message_length as Hl. destruct Hm as (rest&E&Hlen&_).
  unfold NUM_MRS in Hlen. rewrite !words_at_spec by lia. rewrite E. simpl. rewrite drop_0, take_app_length, drop_app_length, take_app_length. done.
Qed.
End message.

Lemma put_at (l1 : list Z) y l2 i c : i = length l1 → put i c (l1 ++ y :: l2) = Some (l1 ++ c :: l2).
Proof. intros ->. rewrite put_Some by (rewrite length_app; simpl; lia). by rewrite insert_app_r_alt, Nat.sub_diag by lia. Qed.

Lemma put_head c x (l : list Z) : put 0 c (x :: l) = Some (c :: l).
Proof. by rewrite put_Some by (simpl; lia). Qed.

Lemma shift_words_spec A ts y rest : ∃ z,
  shift_words (length ts) (length A + length ts) (A ++ ts ++ y :: rest) = Some (A ++ z :: ts ++ rest).
Proof.
  revert y rest. induction ts as [|x ts IH] using rev_ind; intros y rest; [by exists y|].
  rewrite length_app. simpl. rewrite Nat.add_1_r. simpl.
  replace (length A + S (length ts) - 1)%nat with (length A + length ts)%nat by lia.
  assert (E : (A ++ (ts ++ [x]) ++ y :: rest) !! (length A + length ts)%nat = Some x).
  { rewrite <- app_assoc. simpl. rewrite app_assoc. apply list_lookup_middle. by rewrite length_app. }
  rewrite E. simpl. replace (A ++ (ts ++ [x]) ++ y :: rest) with ((A ++ ts ++ [x]) ++ y :: rest) by by rewrite <- !app_assoc.
  rewrite put_at by (rewrite !length_app; simpl; lia). simpl. destruct (IH x (x :: rest)) as [z Hz]. exists z.
  rewrite <- !app_assoc. simpl. rewrite Hz. done.
Qed.

Lemma carries_append_word msg label ws ts w : carries msg label ws ts → (length ws + length ts < 63)%nat →
  ∃ msg', L4_MsgAppendWord msg w = Some msg' ∧ carries msg' label (ws ++ [w]) ts.
Proof.
  intros Hm Hlt. pose proof (message_u _ _ _ _ Hm) as Hu. pose proof (message_t _ _ _ _ Hm) as Ht.
  destruct (message_tag _ _ _ _ Hm) as (tag&Etag&El&Ef&Et&Eu). destruct Hm as (rest&E&Hlen&Hl).
  unfold L4_MsgAppendWord. rewrite Hu, Ht. simpl.
  assert (Hrest : ∃ y rest', rest = y :: rest').
  { destruct rest as [|y rest']; [|eauto]. rewrite E in Hlen. simpl in Hlen. rewrite !length_app in Hlen. unfold NUM_MRS in Hlen. simpl in Hlen. lia. }
  destruct Hrest as (y&rest'&->).
  assert (Htag : msg = tag :: ws ++ ts ++ y :: rest') by (rewrite E in Etag; injection Etag as Etag; rewrite E; by f_equal).
  assert (Hs : ∃ z, (if (length ts =? 0)%nat then Some msg else shift_words (length ts) (S (length ws + length ts)) msg) = Some (tag :: ws ++ z :: ts ++ rest')).
  { destruct (Nat.eqb_spec (length ts) 0) as [Hz|_]; [exists y; rewrite Htag; by destruct ts|].
    rewrite Htag. exact (shift_words_spec (tag :: ws) ts y rest'). }
  destruct Hs as [z ->]. simpl. unfold set_tag_u. rewrite El, Ef, Et, Eu.
  set (tag' := tag_of label 0 (Z.of_nat (length ts)) (Z.of_nat (length ws) + 1)).
  assert (Eu' : tag_u tag' = Z.of_nat (S (length ws))).
  { unfold tag'. destruct (tag_parts label 0 (Z.of_nat (length ts)) (Z.of_nat (length ws) + 1)) as (_&_&_&->); bits; lia. }
  rewrite Eu', Nat2Z.id. change (tag' :: ws ++ z :: ts ++ rest') with ((tag' :: ws) ++ z :: ts ++ rest').
  rewrite put_at by done. eexists. split; [done|]. exists rest'. rewrite length_app. simpl. rewrite <- app_assoc. simpl.
  split; [unfold tag'; do 2 f_equal; lia|]. split; [|done]. rewrite Htag in Hlen. simpl in *. rewrite !length_app in *. simpl in *. rewrite !length_app in *. simpl in *. lia.
Qed.

Lemma memcpy_middle A old (sw B : list Z) : length old = length sw → memcpy (A ++ old ++ B) (length A) (Other sw) 0 (length sw) = Some (A ++ sw ++ B).
Proof.
  intros Hl. rewrite (memcpy_spec _ _ _ _ sw []); [|by rewrite app_nil_r|done|rewrite !length_app; lia].
  rewrite take_app_length. do 2 f_equal. rewrite <- drop_drop, drop_app_length. by rewrite <- Hl, drop_app_length.
Qed.

(** The words [sw] are behind the items; the tag counts them. *)
Lemma carries_typed msg label ws ts sw tag rest : carries msg label ws ts → msg !! O = Some tag →
  length (tag :: ws ++ ts ++ sw ++ rest) = NUM_MRS →
  carries (set_tag_t tag (tag_t tag + Z.of_nat (length sw)) :: ws ++ ts ++ sw ++ rest) label ws (ts ++ sw).
Proof.
  intros Hm Etag Hlen. destruct (message_tag _ _ _ _ Hm) as (tag'&Etag'&El&Ef&Et&Eu). rewrite Etag in Etag'. injection Etag' as <-.
  exists rest. split; [|split; [done|by destruct Hm as (?&_&_&?)]].
  unfold set_tag_t. rewrite El, Ef, Et, Eu, length_app, <- app_assoc. do 2 f_equal. lia.
Qed.

Lemma carries_shape msg label ws ts n : carries msg label ws ts → (length ws + length ts + n ≤ 63)%nat →
  ∃ tag old rest, msg !! O = Some tag ∧ msg = tag :: ws ++ ts ++ old ++ rest ∧ length old = n ∧ length msg = NUM_MRS.
Proof.
  intros (rest&E&Hlen&_) Hn. eexists _, (take n rest), (drop n rest). rewrite take_drop. split_and!; [by rewrite E|done| |done].
  rewrite length_take. rewrite E in Hlen. simpl in Hlen. rewrite !length_app in Hlen. unfold NUM_MRS in Hlen. lia.
Qed.

Lemma carries_append_item msg label ws ts i : carries msg label ws ts → (length ws + length ts + 2 ≤ 63)%nat →
  ∃ msg', append_item msg i = Some msg' ∧ carries msg' label ws (ts ++ [raw0 i; raw1 i]).
Proof.
  intros Hm Hn. destruct (carries_shape _ _ _ _ 2 Hm Hn) as (tag&old&rest&Etag&E&Hold&Hlen).
  destruct old as [|a [|b [|? ?]]]; try done. unfold append_item. rewrite (message_u _ _ _ _ Hm), (message_t _ _ _ _ Hm). simpl.
  replace msg with ((tag :: ws ++ ts) ++ a :: b :: rest) by (rewrite E; simpl; by rewrite <- app_assoc).
  rewrite put_at by (simpl; rewrite length_app; lia). simpl.
  replace (tag :: (ws ++ ts) ++ raw0 i :: b :: rest) with ((tag :: ws ++ ts ++ [raw0 i]) ++ b :: rest) by (simpl; by rewrite <- !app_assoc).
  rewrite put_at by (simpl; rewrite !length_app; simpl; lia). simpl. rewrite put_head. eexists. split; [done|].
  replace ((ws ++ ts ++ [raw0 i]) ++ raw1 i :: rest) with (ws ++ ts ++ [raw0 i; raw1 i] ++ rest) by (simpl; by rewrite <- !app_assoc).
  eapply (carries_typed msg label ws ts [raw0 i; raw1 i] tag rest Hm Etag). rewrite <- Hlen, E. simpl. by rewrite !length_app.
Qed.

(** The words of one string: it ends where they end. *)
Definition string_words (sw : list Z) : Prop := ∃ p, end_of_string sw 0 = Some (length sw, p).

Lemma carries_append_string msg label ws ts sw : carries msg label ws ts → string_words sw → (length ws + length ts + length sw ≤ 63)%nat →
  ∃ msg', L4_MsgAppendStringItem msg sw = Some msg' ∧ carries msg' label ws (ts ++ sw).
Proof.
  intros Hm [p Hp] Hn. destruct (carries_shape _ _ _ _ (length sw) Hm Hn) as (tag&old&rest&Etag&E&Hold&Hlen).
  unfold L4_MsgAppendStringItem, Copy_String. rewrite (message_u _ _ _ _ Hm), (message_t _ _ _ _ Hm). simpl. rewrite Hp. simpl.
  rewrite Nat.sub_0_r. replace msg with ((tag :: ws ++ ts) ++ old ++ rest) by (rewrite E; simpl; by rewrite <- app_assoc).
  replace (length ws + length ts + 1)%nat with (length (tag :: ws ++ ts)) by (simpl; rewrite length_app; lia).
  rewrite memcpy_middle by done. simpl. rewrite put_head. eexists. split; [done|]. rewrite <- app_assoc.
  eapply (carries_typed msg label ws ts sw tag rest Hm Etag). rewrite <- Hlen, E. simpl. rewrite !length_app. lia.
Qed.

(** * Building a message *)

(** What can be appended, in any order. *)
Inductive part := Word (w : Z) | Map_item (i : L4_item) | Grant_item (i : L4_item) | Simple_string (i : L4_item) | String_item (sw : list Z).
Definition append (msg : list Z) (p : part) : option (list Z) :=
  match p with
  | Word w => L4_MsgAppendWord msg w
  | Map_item i => L4_MsgAppendMapItem msg i
  | Grant_item i => L4_MsgAppendGrantItem msg i
  | Simple_string i => L4_MsgAppendSimpleStringItem msg i
  | String_item sw => L4_MsgAppendStringItem msg sw
  end.
Fixpoint appends (msg : list Z) (ps : list part) : option (list Z) :=
  match ps with [] => Some msg | p :: ps => msg ← append msg p; appends msg ps end.

Definition words_of (p : part) : list Z := match p with Word w => [w] | _ => [] end.
Definition typed_of (p : part) : list Z :=
  match p with
  | Word _ => []
  | Map_item i | Grant_item i => [raw0 i; raw1 i]
  | Simple_string i => [raw0 (simple_string i); raw1 i]
  | String_item sw => sw
  end.
Definition part_ok (p : part) : Prop := match p with String_item sw => string_words sw | _ => True end.
Definition parts_size (ps : list part) : nat := length (ps ≫= words_of) + length (ps ≫= typed_of).

Lemma carries_appends ps : ∀ msg label ws ts, carries msg label ws ts → Forall part_ok ps →
  (length ws + length ts + parts_size ps ≤ 63)%nat →
  ∃ msg', appends msg ps = Some msg' ∧ carries msg' label (ws ++ (ps ≫= words_of)) (ts ++ (ps ≫= typed_of)).
Proof.
  induction ps as [|p ps IH]; intros msg label ws ts Hm Hok Hn; [exists msg; by rewrite !app_nil_r|].
  apply Forall_cons in Hok as [Hp Hok]. unfold parts_size in *. rewrite !bind_cons, !length_app in Hn.
  assert (∃ msg1, append msg p = Some msg1 ∧ carries msg1 label (ws ++ words_of p) (ts ++ typed_of p)) as (msg1&E1&H1).
  { destruct p as [w|i|i|i|sw]; cbn [append words_of typed_of length] in *; rewrite ?app_nil_r.
    - apply carries_append_word; [done|lia].
    - apply carries_append_item; [done|lia].
    - apply carries_append_item; [done|lia].
    - apply (carries_append_item _ _ _ _ (simple_string i)); [done|lia].
    - apply carries_append_string; [done|done|lia]. }
  simpl. rewrite E1. simpl. destruct (IH msg1 label _ _ H1 Hok) as (msg'&E'&H'); [rewrite !length_app; lia|].
  exists msg'. split; [done|]. by rewrite <- !app_assoc in H'.
Qed.

(** * The registers that carry it *)

Lemma LoadMRs_lookup ws : ∀ r i j, L4_LoadMRs r i ws !! j = if decide (i ≤ j < i + Z.of_nat (length ws)) then ws !! Z.to_nat (j - i) else r !! j.
Proof.
  induction ws as [|w ws IH]; intros r i j; simpl; [by rewrite decide_False by lia|]. rewrite IH.
  destruct (decide (j = i)) as [->|Hj].
  - rewrite decide_False by lia. rewrite lookup_insert_eq, decide_True by lia. by rewrite Z.sub_diag.
  - rewrite lookup_insert_ne by done. destruct (decide (i + 1 ≤ j < i + 1 + Z.of_nat (length ws))).
    + rewrite decide_True by lia. replace (Z.to_nat (j - i)) with (S (Z.to_nat (j - (i + 1)))) by lia. done.
    + by rewrite decide_False by lia.
Qed.

Lemma StoreMRs_spec ws : ∀ r i, (∀ k, (k < length ws)%nat → r !! (i + Z.of_nat k) = ws !! k) → L4_StoreMRs r i (length ws) = Some ws.
Proof.
  induction ws as [|w ws IH]; intros r i Hr; [done|]. simpl. pose proof (Hr O ltac:(simpl; lia)) as H0. rewrite Z.add_0_r in H0.
  rewrite H0. simpl. rewrite IH; [done|]. intros k Hk. pose proof (Hr (S k) ltac:(simpl; lia)) as HS. simpl in HS. rewrite <- HS. f_equal. lia.
Qed.

(** C16: A message that is cleared, labelled and built from words, map items, grant items and
    strings in any order, then loaded, arrives, is stored and read as these words in their
    order and these items in theirs, with its label, when it fits into the 64 registers. *)
Theorem message_roundtrip ps label msg0 r : length msg0 = NUM_MRS → 0 ≤ label < 2 ^ 16 → Forall part_ok ps → (parts_size ps ≤ 63)%nat →
  ∃ msg r1, (m ← L4_MsgClear msg0; m ← L4_Set_MsgLabel m label; appends m ps) = Some msg ∧ L4_MsgLoad r msg = Some r1 ∧
    ∀ r2 msg2, length msg2 = NUM_MRS → (∀ i, 0 ≤ i ≤ Z.of_nat (parts_size ps) → r2 !! i = r1 !! i) →
      ∃ tag msg3, L4_MsgTag r2 = Some tag ∧ L4_Label tag = label ∧ L4_MsgStore r2 tag msg2 = Some msg3 ∧
        L4_MsgGet msg3 = Some (ps ≫= words_of, ps ≫= typed_of).
Proof.
  intros H0 Hl Hok Hn. destruct msg0 as [|w0 rest0]; [done|]. unfold L4_MsgClear, L4_Set_MsgLabel. rewrite put_head. simpl.
  assert (Hc : carries (L4_MsgTagAddLabel 0 label :: rest0) label [] []).
  { exists rest0. split_and!; [|done|lia..]. unfold L4_MsgTagAddLabel. done. }
  destruct (carries_appends ps _ _ _ _ Hc Hok) as (msg&E&Hm); [simpl; lia|]. simpl in Hm. unfold parts_size in *.
  set (ws := ps ≫= words_of) in *. set (ts := ps ≫= typed_of) in *.
  pose proof (message_length _ _ _ _ Hm) as Hmax. pose proof (message_u _ _ _ _ Hm) as Hu. pose proof (message_t _ _ _ _ Hm) as Ht.
  destruct (message_tag _ _ _ _ Hm) as (tag&Etag&El&_&Et&Eu). destruct Hm as (rest&Em&Hlen&_).
  assert (Em' : msg = (tag :: ws ++ ts) ++ rest) by (rewrite Em in Etag; injection Etag as Etag; rewrite Em, Etag; simpl; by rewrite <- app_assoc).
  exists msg, (L4_LoadMRs r 0 (tag :: ws ++ ts)). split; [done|].
  assert (Hwords : words_at msg 0 (length ws + length ts + 1) = Some (tag :: ws ++ ts)).
  { rewrite words_at_spec by (rewrite Hlen; unfold NUM_MRS; lia). rewrite drop_0, Em'. f_equal. apply take_app_length'. simpl. rewrite length_app. lia. }
  split; [unfold L4_MsgLoad; by rewrite Hu, Ht; simpl; rewrite Hwords|].
  intros r2 msg2 H2 Hr2.
  assert (Hmr : ∀ k, (k < length (tag :: ws ++ ts))%nat → r2 !! Z.of_nat k = (tag :: ws ++ ts) !! k).
  { intros k Hk. simpl in Hk. rewrite length_app in Hk. rewrite Hr2, LoadMRs_lookup by lia. rewrite decide_True by (simpl; rewrite length_app; lia).
    by rewrite Z.sub_0_r, Nat2Z.id. }
  destruct msg2 as [|x rest2]; [done|].
  assert (Hst : L4_StoreMRs r2 1 (length (ws ++ ts)) = Some (ws ++ ts)).
  { apply StoreMRs_spec. intros k Hk. replace (1 + Z.of_nat k) with (Z.of_nat (S k)) by lia. apply (Hmr (S k)). simpl. lia. }
  assert (Hsplit : ∃ old rest3, rest2 = old ++ rest3 ∧ length old = length (ws ++ ts)).
  { exists (take (length (ws ++ ts)) rest2), (drop (length (ws ++ ts)) rest2). rewrite take_drop. split; [done|].
    rewrite length_take. simpl in H2. unfold NUM_MRS in H2. rewrite length_app. lia. }
  destruct Hsplit as (old&rest3&->&Hold).
  exists tag, (tag :: (ws ++ ts) ++ rest3). split_and!; [exact (Hmr O ltac:(simpl; lia))|done| |].
  - unfold L4_MsgStore. replace (Z.to_nat (tag_u tag + tag_t tag)) with (length (ws ++ ts)) by (rewrite Eu, Et, length_app; lia).
    rewrite Hst. cbn [mbind option_bind]. pose proof (memcpy_middle [x] old (ws ++ ts) rest3 Hold) as Hcopy.
    change (memcpy (x :: old ++ rest3) 1 (Other (ws ++ ts)) 0 (length (ws ++ ts)) = Some (x :: (ws ++ ts) ++ rest3)) in Hcopy.
    rewrite Hcopy. cbn [mbind option_bind]. by rewrite put_head.
  - apply (message_get _ label). exists rest3. rewrite <- app_assoc. split_and!; [|simpl in H2; simpl; rewrite length_app in H2; rewrite !length_app; rewrite length_app in Hold; lia|lia..].
    rewrite Em in Etag. injection Etag as <-. done.
Qed.
