(* ===== verification/Console.v ===== *)
(** The console server (src/sdios/src/consoleserver/console.cc): the 80x25 text screen
    in the VGA memory, its cursor, and the calls that write, delete and clear.

    The screen is the page of 4096 bytes the server asks sigma0 for, a character and an
    attribute per position.  The ports of the CRT controller are outside the server:
    what is written to them is a log. *)

From S2P Require Import Prelude Machine Server.

(** * The server *)

Record console := Console {
  vga : list Z;
  consoleCursorHPos : Z;
  consoleCursorVPos : Z;
  crtcAddrReg : Z;
  crtcDataReg : Z;
  ports : list (Z * Z);
}.
#[global] Instance console_fields : Fields console := λ r, {|
  vga := vga r; consoleCursorHPos := consoleCursorHPos r;
  consoleCursorVPos := consoleCursorVPos r; crtcAddrReg := crtcAddrReg r;
  crtcDataReg := crtcDataReg r; ports := ports r |}.

(** [sequence<char>] of IDL4. *)
Record buffer_t := Buffer { bytes : list Z; bytes_length : Z }.

Definition outb (port val : Z) (c : console) : console :=
  c <| ports ::= λ l, l ++ [(port, u8 val)] |>.

Definition drawCursor (c : console) : console :=
  let curhighreg := 14 in
  let curlowreg := 15 in
  let curaddr := u16 (80 * consoleCursorVPos c + consoleCursorHPos c) in
  let c := outb (crtcAddrReg c) curhighreg c in
  let c := outb (crtcDataReg c) (Z.shiftr curaddr 8) c in
  let c := outb (crtcAddrReg c) curlowreg c in
  outb (crtcDataReg c) (Z.land curaddr 255) c.

(** [*((unsigned char * )vgaStart + 160 * V + 2 * H) = ch] *)
Definition draw (ch : Z) (c : console) : option console :=
  d ← put (Z.to_nat (u32 (160 * consoleCursorVPos c + 2 * consoleCursorHPos c))) (u8 ch) (vga c);
  Some (c <| vga := d |>).

(** [*(vgaStart + pos) = 0xa00] on 16-bit positions, [n] of them from [pos]. *)
Fixpoint blank_cells (d : list Z) (pos n : nat) : option (list Z) :=
  match n with
  | O => Some d
  | S n => d ← store_le 2 (2 * pos) 2560 d; blank_cells d (S pos) n
  end.

(** The screen one line up; the last line is cleared when fewer than 80 characters
    are left of the buffer. *)
Definition shift_up (left : Z) (c : console) : option console :=
  d ← memcpy (vga c) 0 Within 160 3840;
  d ← if left <? 80 then blank_cells d 1920 80 else Some d;
  Some (c <| vga := d |>).

Definition new_line (left : Z) (c : console) : option console :=
  c ← (if consoleCursorVPos c =? 24 then shift_up left c
       else Some (c <| consoleCursorVPos ::= λ v, u32 (v + 1) |>));
  Some (c <| consoleCursorHPos := 0 |>).

(** The body of the loop of [console_write_implementation]. *)
Definition write_char (left ch : Z) (c : console) : option console :=
  c ← (if (consoleCursorHPos c =? 80) || (ch =? 10) then new_line left c else Some c);
  if negb (ch =? 10)
  then c ← draw ch c; Some (c <| consoleCursorHPos ::= λ h, u32 (h + 1) |>)
  else Some c.

Fixpoint write_chars (input : buffer_t) (pos n : nat) (c : console) : option console :=
  match n with
  | O => Some c
  | S n =>
      ch ← bytes input !! pos;
      c ← write_char (u32 (bytes_length input - Z.of_nat pos)) ch c;
      write_chars input (S pos) n c
  end.

Definition console_write (input : buffer_t) (len : Z) (c : console) : option console :=
  c ← write_chars input 0 (Z.to_nat len) c; Some (drawCursor c).

(** One character back, to the end of the line above at the start of a line. *)
Definition step_back (c : console) : console :=
  if consoleCursorHPos c =? 0
  then if negb (consoleCursorVPos c =? 0)
       then c <| consoleCursorVPos ::= λ v, u32 (v - 1) |> <| consoleCursorHPos := 79 |>
       else c
  else c <| consoleCursorHPos ::= λ h, u32 (h - 1) |>.

Fixpoint delete_chars (n : nat) (c : console) : option console :=
  match n with
  | O => Some c
  | S n => c ← draw 2560 (step_back c); delete_chars n c
  end.

Definition console_delete (numChars : Z) (c : console) : option console :=
  c ← draw 2560 c; c ← delete_chars (Z.to_nat numChars) c; Some (drawCursor c).

Definition console_clear (c : console) : option console :=
  d ← blank_cells (vga c) 0 2000;
  Some (c <| vga := d |> <| consoleCursorHPos := 0 |> <| consoleCursorVPos := 0 |>).

(** The start of [console_server]: which ports the controller has, and a cursor on the
    two last scan lines; [misc] and [scan] are what the ports 0x3cc and [maxscanreg]
    answer. *)
Definition console_server (misc scan : Z) (c : console) : console :=
  let c := if has misc 1
           then c <| crtcAddrReg := 980 |> <| crtcDataReg := 981 |>
           else c <| crtcAddrReg := 948 |> <| crtcDataReg := 949 |> in
  let c := outb (crtcAddrReg c) 9 c in
  let maxscan := Z.land scan 31 in
  let c := outb (crtcAddrReg c) 10 c in
  let c := outb (crtcDataReg c) (maxscan - 2) c in
  let c := outb (crtcAddrReg c) 11 c in
  outb (crtcDataReg c) maxscan c.

(** * The terminal the server implements *)

Record terminal := Terminal { glyph : nat → nat → Z; row : nat; col : nat }.

Definition scrolled (blank : bool) (g : nat → nat → Z) : nat → nat → Z :=
  λ v h, if (v <? 24)%nat then g (S v) h else if blank then 0 else g v h.

Definition next_line (blank : bool) (t : terminal) : terminal :=
  if (row t =? 24)%nat then Terminal (scrolled blank (glyph t)) 24 0
  else Terminal (glyph t) (S (row t)) 0.

Definition type_glyph (ch : Z) (t : terminal) : terminal :=
  Terminal (λ v h, if decide (v = row t ∧ h = col t) then ch else glyph t v h) (row t) (S (col t)).

(** A full line is left when the next character arrives. *)
Definition type_char (blank : bool) (ch : Z) (t : terminal) : terminal :=
  let t := if (col t =? 80)%nat || (ch =? 10) then next_line blank t else t in
  if ch =? 10 then t else type_glyph ch t.

Fixpoint type_text (total : Z) (text : list Z) (pos : nat) (t : terminal) : terminal :=
  match text with
  | [] => t
  | ch :: text =>
      type_text total text (S pos) (type_char (u32 (total - Z.of_nat pos) <? 80) ch t)
  end.

(** A terminal that clears the line it scrolls in. *)
Definition type_plain (text : list Z) (t : terminal) : terminal := foldl (λ t ch, type_char true ch t) t text.

Lemma type_text_plain total text pos t :
  Z.of_nat (pos + length text) ≤ total → total < Z.of_nat pos + 80 → total < 2 ^ 32 →
  type_text total text pos t = type_plain text t.
Proof.
  revert pos t. induction text as [|ch text IH]; intros pos t H1 H2 H3; [done|]. cbn [type_text type_plain foldl].
  simpl length in H1. rewrite u32_id, (proj2 (Z.ltb_lt _ _)) by lia. apply IH; lia.
Qed.

(** * The screen shows the terminal *)

Record console_ok (c : console) : Prop := {
  co_page : length (vga c) = 4096%nat;
  co_h : 0 ≤ consoleCursorHPos c ≤ 80;
  co_v : 0 ≤ consoleCursorVPos c ≤ 24;
}.

Record shows (c : console) (t : terminal) : Prop := {
  sh_row : consoleCursorVPos c = Z.of_nat (row t);
  sh_col : consoleCursorHPos c = Z.of_nat (col t);
  sh_glyph v h : (v < 25)%nat → (h < 80)%nat →
    vga c !! (160 * v + 2 * h)%nat = Some (glyph t v h);
}.

(** * Proofs *)

Lemma blank_cells_spec d pos n :
  (2 * (pos + n) ≤ length d)%nat →
  ∃ d', blank_cells d pos n = Some d' ∧ length d' = length d ∧
    ∀ k, d' !! (2 * k)%nat = if decide (pos ≤ k < pos + n)%nat then Some 0 else d !! (2 * k)%nat.
Proof.
  revert d pos. induction n as [|n IH]; intros d pos Hlen; cbn [blank_cells].
  - exists d. split_and!; [done|done|]. intros k. by rewrite decide_False by lia.
  - destruct (store_le_is_Some 2 (2 * pos) 2560 d) as [d1 Hd1]; [lia|]. rewrite Hd1. cbn [mbind option_bind].
    pose proof (length_store_le _ _ _ _ _ Hd1) as Hl1.
    destruct (IH d1 (S pos)) as (d'&Hd'&Hl&Hk); [lia|]. exists d'. split_and!; [done|lia|].
    intros k. rewrite Hk. rewrite (lookup_splice _ _ _ _ (2 * k)%nat Hd1).
    change (Z_to_little_endian (Z.of_nat 2) 8 2560) with [0; 10]. simpl length.
    repeat case_decide; try lia; try done.
    by replace (2 * k - 2 * pos)%nat with 0%nat by lia.
Qed.

Section screen.
Implicit Types (c : console) (t : terminal).

(** The ports of the controller, and what has been written to them. *)
Definition wires (c : console) : Z * Z * list (Z * Z) := (crtcAddrReg c, crtcDataReg c, ports c).

Lemma draw_spec c t ch :
  console_ok c → shows c t → consoleCursorHPos c < 80 → 0 ≤ ch < 2 ^ 8 →
  ∃ d, draw ch c = Some (c <| vga := d |>) ∧ console_ok (c <| vga := d |>) ∧
    ∀ v h, (v < 25)%nat → (h < 80)%nat →
      d !! (160 * v + 2 * h)%nat
      = Some (if decide (v = row t ∧ h = col t) then ch else glyph t v h).
Proof.
  intros [Hp Hh Hv] [Hr Hc Hg] Hlt Hch. unfold draw.
  rewrite u32_id by lia.
  replace (Z.to_nat _) with (160 * row t + 2 * col t)%nat by lia.
  rewrite put_Some by lia. simpl. eexists. split_and!; [done| |].
  - split; simpl; [by rewrite length_insert|done|done].
  - intros v h Hv25 Hh80. case_decide as E.
    + destruct E as [-> ->]. rewrite list_lookup_insert_eq by lia. unfold u8. by rewrite Z.mod_small by lia.
    + rewrite list_lookup_insert_ne by lia. by apply Hg.
Qed.

Lemma shift_up_spec c t left :
  console_ok c → shows c t →
  ∃ d, shift_up left c = Some (c <| vga := d |>) ∧ length d = 4096%nat ∧
    ∀ v h, (v < 25)%nat → (h < 80)%nat →
      d !! (160 * v + 2 * h)%nat = Some (scrolled (left <? 80) (glyph t) v h).
Proof.
  intros [Hp Hh Hv] [Hr Hc Hg]. unfold shift_up.
  assert (memcpy (vga c) 0 Within 160 3840 =
    Some (take 3840 (drop 160 (vga c)) ++ drop 3840 (vga c))) as ->.
  { replace 3840%nat with (length (take 3840 (drop 160 (vga c)))) at 1
      by (rewrite length_take, length_drop; lia).
    rewrite (memcpy_spec _ _ _ _ _ (drop 4000 (vga c))).
    - rewrite length_take, length_drop, Hp. done.
    - simpl. rewrite <- (take_drop 3840 (drop 160 (vga c))) at 1. by rewrite drop_drop.
    - lia.
    - rewrite length_take, length_drop. lia. }
  cbn [mbind option_bind].
  set (d := _ ++ _).
  assert (length d = 4096%nat) as Hl.
  { unfold d. rewrite length_app, length_take, !length_drop, Hp. done. }
  assert (∀ v h, (v < 25)%nat → (h < 80)%nat →
    d !! (160 * v + 2 * h)%nat = Some (scrolled false (glyph t) v h)) as Hd.
  { intros v h Hv25 Hh80. unfold d, scrolled. destruct (Nat.ltb_spec v 24).
    - rewrite lookup_app_l by (rewrite length_take, length_drop; lia).
      rewrite lookup_take_lt by lia. rewrite lookup_drop. rewrite <- Hg by lia. f_equal. lia.
    - rewrite lookup_app_r by (rewrite length_take, length_drop; lia).
      rewrite lookup_drop, length_take, length_drop, Hp. rewrite <- Hg by lia. f_equal. lia. }
  destruct (left <? 80); [|by exists d].
  assert (Hblank : (2 * (1920 + 80) ≤ length d)%nat) by lia.
  destruct (blank_cells_spec d 1920 80 Hblank) as (d'&->&Hl'&Hk). exists d'. split_and!; [done|lia|].
  intros v h Hv25 Hh80. replace (160 * v + 2 * h)%nat with (2 * (80 * v + h))%nat by lia.
  rewrite Hk. replace (2 * (80 * v + h))%nat with (160 * v + 2 * h)%nat by lia. rewrite Hd by done.
  unfold scrolled. destruct (Nat.ltb_spec v 24).
  - by rewrite decide_False by lia.
  - by rewrite decide_True by lia.
Qed.

Lemma new_line_spec c t left :
  console_ok c → shows c t →
  ∃ c', new_line left c = Some c' ∧ console_ok c' ∧ shows c' (next_line (left <? 80) t) ∧
    consoleCursorHPos c' = 0 ∧ wires c' = wires c.
Proof.
  intros Hok Hs. unfold new_line, next_line.
  pose proof (sh_row _ _ Hs). pose proof (co_v _ Hok).
  destruct (Z.eqb_spec (consoleCursorVPos c) 24) as [E|E].
  - destruct (shift_up_spec c t left Hok Hs) as (d&->&Hl&Hd). simpl. eexists. split; [done|].
    rewrite (proj2 (Nat.eqb_eq (row t) 24)) by lia.
    split_and!; [split; simpl; lia|split; simpl; [lia|done|done]|done|done].
  - simpl. eexists. split; [done|]. rewrite (proj2 (Nat.eqb_neq (row t) 24)) by lia.
    split_and!; [split|split| |]; simpl; try done; try (rewrite u32_id by lia; lia).
    + apply Hok.
    + apply Hs.
Qed.

Lemma write_char_spec c t left ch :
  console_ok c → shows c t → 0 ≤ ch < 2 ^ 8 →
  ∃ c', write_char left ch c = Some c' ∧ console_ok c' ∧ shows c' (type_char (left <? 80) ch t) ∧
    wires c' = wires c.
Proof.
  intros Hok Hs Hch. unfold write_char, type_char.
  assert ((col t =? 80)%nat = (consoleCursorHPos c =? 80)) as ->.
  { rewrite (sh_col _ _ Hs). destruct (Nat.eqb_spec (col t) 80), (Z.eqb_spec (Z.of_nat (col t)) 80); lia || done. }
  assert (∃ c1, (if (consoleCursorHPos c =? 80) || (ch =? 10) then new_line left c else Some c) = Some c1 ∧
    console_ok c1 ∧ shows c1 (if (consoleCursorHPos c =? 80) || (ch =? 10) then next_line (left <? 80) t else t) ∧
    consoleCursorHPos c1 < 80 ∧ wires c1 = wires c) as (c1&->&Hok1&Hs1&Hlt&Hp1).
  { destruct (_ || _) eqn:E.
    - destruct (new_line_spec c t left Hok Hs) as (c1&?&?&?&?&?). exists c1. split_and!; try done. lia.
    - apply orb_false_iff in E as [E%Z.eqb_neq _]. exists c. pose proof (co_h _ Hok).
      split_and!; try done. lia. }
  simpl. set (t1 := if (consoleCursorHPos c =? 80) || (ch =? 10) then next_line (left <? 80) t else t) in *. destruct (ch =? 10); simpl; [by exists c1|].
  destruct (draw_spec c1 t1 ch Hok1 Hs1 Hlt Hch) as (d&->&Hok'&Hd). simpl.
  pose proof (co_h _ Hok1). eexists. split_and!; [done| | |done].
  - split; simpl; [by apply Hok'|rewrite u32_id; lia|by apply Hok'].
  - split; simpl; [apply Hs1| |done]. rewrite (sh_col _ _ Hs1), u32_id; [lia|]. rewrite (sh_col _ _ Hs1) in Hlt. lia.
Qed.

Lemma write_chars_spec input pos n c t :
  console_ok c → shows c t → Forall byte_ok (bytes input) → (pos + n ≤ length (bytes input))%nat →
  ∃ c', write_chars input pos n c = Some c' ∧ console_ok c' ∧
    shows c' (type_text (bytes_length input) (take n (drop pos (bytes input))) pos t) ∧ wires c' = wires c.
Proof.
  intros Hok Hs Hb. revert pos c t Hok Hs. induction n as [|n IH]; intros pos c t Hok Hs Hlen; simpl.
  - by exists c.
  - destruct (lookup_lt_is_Some_2 (bytes input) pos) as [ch Hch]; [lia|]. rewrite Hch. simpl.
    pose proof (proj1 (Forall_lookup _ _) Hb _ _ Hch) as Hbyte.
    destruct (write_char_spec c t (u32 (bytes_length input - Z.of_nat pos)) ch Hok Hs Hbyte)
      as (c1&->&Hok1&Hs1&Hp1). simpl.
    destruct (IH (S pos) c1 _ Hok1 Hs1) as (c2&->&Hok2&Hs2&Hp2); [lia|]. exists c2.
    rewrite (drop_S _ _ _ Hch). simpl. split_and!; [done|done|done|congruence].
Qed.

(** The registers of the cursor, after a log that ends in [drawCursor]. *)
Lemma drawCursor_spec c :
  console_ok c →
  ports (drawCursor c) = ports c ++
    [(crtcAddrReg c, 14); (crtcDataReg c, (80 * consoleCursorVPos c + consoleCursorHPos c) / 2 ^ 8);
     (crtcAddrReg c, 15); (crtcDataReg c, (80 * consoleCursorVPos c + consoleCursorHPos c) mod 2 ^ 8)].
Proof.
  intros [_ Hh Hv]. unfold drawCursor. simpl. rewrite <- !app_assoc. simpl.
  rewrite u16_id by lia. rewrite (land_mask 8) by lia. rewrite Z.shiftr_div_pow2 by lia.
  unfold u8. rewrite Z.mod_mod by lia. rewrite (Z.mod_small (_ / _)) by zlia. done.
Qed.

(** What the controller is told: register 14 is the upper half of the position, register
    15 the lower one. *)
Definition cursor_log (addr data pos : Z) : list (Z * Z) :=
  [(addr, 14); (data, pos / 2 ^ 8); (addr, 15); (data, pos mod 2 ^ 8)].

Lemma console_write_shows c t input len :
  console_ok c → shows c t → Forall byte_ok (bytes input) → 0 ≤ len ≤ Z.of_nat (length (bytes input)) →
  ∃ c', console_write input len c = Some c' ∧ console_ok c' ∧
    let t' := type_text (bytes_length input) (take (Z.to_nat len) (bytes input)) 0 t in
    shows c' t' ∧ crtcAddrReg c' = crtcAddrReg c ∧ crtcDataReg c' = crtcDataReg c ∧
    ports c' = ports c ++ cursor_log (crtcAddrReg c) (crtcDataReg c) (Z.of_nat (80 * row t' + col t')).
Proof.
  intros Hok Hs Hb Hlen. unfold console_write.
  destruct (write_chars_spec input 0 (Z.to_nat len) c t Hok Hs Hb) as (c1&->&Hok1&Hs1&[= Ha Hd Hp]); [lia|].
  rewrite drop_0 in Hs1. simpl. eexists. split; [done|]. split_and!; [by destruct Hok1|by destruct Hs1|done|done|].
  rewrite (drawCursor_spec _ Hok1), Hp, Ha, Hd, (sh_row _ _ Hs1), (sh_col _ _ Hs1). unfold cursor_log. repeat f_equal; lia.
Qed.

(** C19: When the cursor is on the screen and the client's buffer holds the [len]
    characters, [console_write_implementation] stays inside the VGA page, leaves the cursor
    on the screen, shows what the terminal of [type_text] shows after the characters are
    typed (a full line is left when the next character arrives, the screen scrolls at the
    bottom), and ends by giving the position to the controller: the number of each of the
    two registers to its address port, the half of the position to its data port, and
    nothing else to any port.  For a buffer of fewer than 80 characters this is the plain
    terminal, which clears the line it scrolls in; with more, the line is cleared only
    when fewer than 80 characters of the buffer are left. *)
Theorem console_write_contract c t input len :
  console_ok c → shows c t → Forall byte_ok (bytes input) →
  0 ≤ len ≤ Z.of_nat (length (bytes input)) →
  ∃ c', console_write input len c = Some c' ∧ console_ok c' ∧
    let text := take (Z.to_nat len) (bytes input) in let t' := type_text (bytes_length input) text 0 t in
    shows c' t' ∧ (len ≤ bytes_length input < 80 → t' = type_plain text t) ∧
    crtcAddrReg c' = crtcAddrReg c ∧ crtcDataReg c' = crtcDataReg c ∧
    ports c' = ports c ++ cursor_log (crtcAddrReg c) (crtcDataReg c) (Z.of_nat (80 * row t' + col t')).
Proof.
  intros Hok Hs Hb Hlen. destruct (console_write_shows c t input len Hok Hs Hb Hlen) as (c'&E&Hok'&Hs'&Ha&Hd&Hp).
  exists c'. split; [done|]. split; [done|]. cbv zeta. split_and!; try done.
  intros Hl. apply type_text_plain; [|lia|lia]. rewrite length_take. lia.
Qed.
End screen.

(** The place of the cursor as the controller counts it. *)
Definition place (c : console) : Z := 80 * consoleCursorVPos c + consoleCursorHPos c.

Lemma draw_inside ch c :
  console_ok c →
  ∃ d, draw ch c = Some (c <| vga := d |>) ∧ console_ok (c <| vga := d |>) ∧
    d = <[Z.to_nat (2 * place c) := u8 ch]> (vga c).
Proof.
  intros [Hp Hh Hv]. unfold draw, place. rewrite u32_id by lia.
  replace (160 * consoleCursorVPos c + 2 * consoleCursorHPos c)
    with (2 * (80 * consoleCursorVPos c + consoleCursorHPos c)) by lia.
  rewrite put_Some by lia. simpl. eexists. split_and!; [done| |done].
  split; simpl; [by rewrite length_insert|done|done].
Qed.

Lemma step_back_spec c :
  console_ok c →
  console_ok (step_back c) ∧ place (step_back c) = Z.max 0 (place c - 1) ∧
  vga (step_back c) = vga c ∧ ports (step_back c) = ports c ∧
  crtcAddrReg (step_back c) = crtcAddrReg c ∧ crtcDataReg (step_back c) = crtcDataReg c.
Proof.
  intros [Hp Hh Hv]. unfold step_back, place.
  destruct (Z.eqb_spec (consoleCursorHPos c) 0) as [E|E];
    [destruct (Z.eqb_spec (consoleCursorVPos c) 0) as [E'|E']|]; simpl;
    rewrite ?u32_id by lia; (split; [split; simpl; rewrite ?u32_id by lia; lia|]); (split; [lia|done]).
Qed.

Lemma delete_chars_spec n c :
  console_ok c →
  ∃ c', delete_chars n c = Some c' ∧ console_ok c' ∧ place c' = Z.max 0 (place c - Z.of_nat n) ∧
    ports c' = ports c ∧ crtcAddrReg c' = crtcAddrReg c ∧ crtcDataReg c' = crtcDataReg c ∧
    (∀ k, (k < Z.to_nat (2 * place c'))%nat ∨ (Z.to_nat (2 * Z.max 1 (place c)) ≤ k)%nat → vga c' !! k = vga c !! k) ∧
    (∀ i, vga c !! i = Some 0 → vga c' !! i = Some 0) ∧
    (∀ k, place c' ≤ k < place c → vga c' !! Z.to_nat (2 * k) = Some 0).
Proof.
  revert c. induction n as [|n IH]; intros c Hok; simpl.
  - exists c. split_and!; try done; [|lia]. destruct Hok. unfold place. lia.
  - destruct (step_back_spec c Hok) as (Hok1&Hp1&Hvga1&Hpo1&Ha1&Hd1).
    destruct (draw_inside 2560 _ Hok1) as (d&->&Hok2&Hd). simpl.
    destruct (IH _ Hok2) as (c'&->&Hok'&Hp'&Hpo'&Ha'&Hd'&Hk&Hkeep&Hz). exists c'.
    change (place (step_back c) <| vga := d |>) with (place (step_back c)) in *.
    pose proof (co_page _ Hok) as Hpage.
    assert (0 ≤ place c ≤ 2000) by (destruct Hok; unfold place; lia).
    split_and!; try done; simpl in *; try congruence; [lia| | |].
    + intros k Hkk. rewrite Hk by lia. rewrite Hd. rewrite Hvga1.
      by rewrite list_lookup_insert_ne by lia.
    + intros i Hi. apply Hkeep. rewrite Hd, Hvga1. apply lookup_lt_Some in Hi as Hlt.
      destruct (decide (i = Z.to_nat (2 * place (step_back c)))) as [->|].
      * by rewrite list_lookup_insert_eq.
      * by rewrite list_lookup_insert_ne.
    + intros k Hkk. destruct (decide (k < place (step_back c))) as [|]; [by apply Hz; lia|].
      apply Hkeep. rewrite Hd. replace k with (place (step_back c)) by lia.
      by rewrite list_lookup_insert_eq by (rewrite Hvga1; lia).
Qed.

(** [console_delete_implementation] moves the cursor back over [numChars]
    characters, across lines and not past the start of the screen, and clears the
    characters it passes and the one it started at; every other byte of the page is
    left, the call stays inside the page and ends by giving the position to the
    controller.  [console_clear_implementation] clears the 2000 positions and goes to
    the start, without telling the controller. *)
Theorem console_delete_contract c numChars :
  console_ok c →
  (∃ c', console_delete numChars c = Some c' ∧ console_ok c' ∧
    place c' = Z.max 0 (place c - Z.max 0 numChars) ∧
    (∀ k, place c' ≤ k ≤ place c → vga c' !! Z.to_nat (2 * k) = Some 0) ∧
    (∀ i, (i < Z.to_nat (2 * place c'))%nat ∨ (Z.to_nat (2 * place c) + 2 ≤ i)%nat → vga c' !! i = vga c !! i) ∧
    drop (length (ports c)) (ports c') =
      [(crtcAddrReg c, 14); (crtcDataReg c, place c' / 2 ^ 8);
       (crtcAddrReg c, 15); (crtcDataReg c, place c' mod 2 ^ 8)]) ∧
  (∃ c', console_clear c = Some c' ∧ console_ok c' ∧ place c' = 0 ∧
    (∀ k, (k < 2000)%nat → vga c' !! (2 * k)%nat = Some 0) ∧ ports c' = ports c).
Proof.
  intros Hok. pose proof (co_page _ Hok) as Hpage.
  assert (0 ≤ place c ≤ 2000) as Hplace by (destruct Hok; unfold place; lia). split.
  - unfold console_delete. destruct (draw_inside 2560 c Hok) as (d&->&Hok1&Hd). simpl.
    destruct (delete_chars_spec (Z.to_nat numChars) _ Hok1) as (c'&->&Hok'&Hp'&Hpo'&Ha'&Hd'&Hk&Hkeep&Hz).
    change (place c <| vga := d |>) with (place c) in *. simpl in *.
    eexists. split; [done|]. change (place (drawCursor c')) with (place c').
    change (vga (drawCursor c')) with (vga c').
    split_and!; [by destruct Hok'; split|lia| | |].
    + intros k Hkk. destruct (decide (k < place c)); [by apply Hz; lia|].
      apply Hkeep. rewrite Hd. replace k with (place c) by lia.
      by rewrite list_lookup_insert_eq by lia.
    + intros i Hi. destruct (decide (place c = 0)) as [E|E].
      * rewrite Hk by lia. rewrite Hd. by rewrite list_lookup_insert_ne by lia.
      * rewrite Hk by lia. rewrite Hd. by rewrite list_lookup_insert_ne by lia.
    + rewrite (drawCursor_spec _ Hok'), Hpo', drop_app_length, Ha', Hd'. done.
  - unfold console_clear.
    assert (Hblank : (2 * (0 + 2000) ≤ length (vga c))%nat) by lia.
    destruct (blank_cells_spec (vga c) 0 2000 Hblank) as (d&->&Hl&Hk).
    eexists. split; [done|]. split_and!; [split; simpl; lia|done| |done].
    intros k Hkk. change (vga _) with d. by rewrite Hk, decide_True by lia.
Qed.
