(* ===== verification/Keymap.v ===== *)
(** From scancodes to characters (src/sdios/src/consoleserver/keymap.cc): the tables of
    the German keyboard, the state of the modifier keys and [keycodeToChars]. *)

From Stdlib Require Import Ascii String.
From S2P Require Import Prelude Machine Server.

(** The bytes of a string of the tables, in the encoding of the source file (UTF-8),
    and those of an escape sequence. *)
Definition esc (s : string) : list Z := 27 :: txt s.

Open Scope string_scope.

Definition map_none : list (list Z) :=
  [ []; [27]; txt "1"; txt "2"; txt "3"; txt "4"; txt "5"; txt "6"; txt "7"; txt "8"; txt "9";
    txt "0"; txt "ß"; txt "'"; [8]; [9]; txt "q"; txt "w"; txt "e"; txt "r"; txt "t"; txt "z";
    txt "u"; txt "i"; txt "o"; txt "p"; txt "ü"; txt "+"; [10]; []; txt "a"; txt "s"; txt "d";
    txt "f"; txt "g"; txt "h"; txt "j"; txt "k"; txt "l"; txt "ö"; txt "ä"; txt "#"; [];
    txt "<"; txt "y"; txt "x"; txt "c"; txt "v"; txt "b"; txt "n"; txt "m"; txt ","; txt ".";
    txt "-"; []; txt "*"; []; txt " "; []; esc "[OP"; esc "[OQ"; esc "[OR"; esc "[OS";
    esc "[[15~"; esc "[[17~"; esc "[[18~"; esc "[[19~"; esc "[[20~"; esc "[[21~"; []; [];
    esc "[1~"; esc "[A"; esc "[5~"; txt "-"; esc "[D"; esc "[E"; esc "[C"; txt "+"; esc "[4~";
    esc "[B"; esc "[6~"; esc "[2~"; esc "[3~"; []; []; []; esc "[23~"; esc "[24~" ].

Definition map_ctrl : list (list Z) :=
  [ []; [27]; txt "1"; txt "2"; txt "3"; txt "4"; txt "5"; txt "6"; txt "7"; txt "8"; txt "9";
    txt "0"; txt "ß"; txt "'"; [8]; [9]; [17]; [23]; [5]; [18]; [20]; [26]; [21]; [9]; [15];
    [16]; txt "ü"; txt "+"; [10]; []; [1]; [19]; [4]; [6]; [7]; [8]; [10]; [11]; [12]; txt "ö";
    txt "ä"; txt "#"; []; txt "<"; [25]; [24]; [3]; [22]; [2]; [14]; [13]; txt ","; txt ".";
    txt "-"; []; txt "*"; []; txt " "; []; esc "[OP"; esc "[OQ"; esc "[OR"; esc "[OS";
    esc "[[15~"; esc "[[17~"; esc "[[18~"; esc "[[19~"; esc "[[20~"; esc "[[21~"; []; [];
    esc "[1~"; esc "[A"; esc "[5~"; txt "-"; esc "[D"; esc "[E"; esc "[C"; txt "+"; esc "[4~";
    esc "[B"; esc "[6~"; esc "[2~"; esc "[3~"; []; []; []; esc "[23~"; esc "[24~" ].

Definition map_alt : list (list Z) :=
  [ []; [27]; esc "1"; esc "2"; esc "3"; esc "4"; esc "5"; esc "6"; esc "7"; esc "8"; esc "9";
    esc "0"; esc "ß"; esc "'"; [27; 8]; [27; 9]; esc "q"; esc "w"; esc "e"; esc "r"; esc "t";
    esc "z"; esc "u"; esc "i"; esc "o"; esc "p"; esc "ü"; esc "+"; [27; 10]; []; esc "a";
    esc "s"; esc "d"; esc "f"; esc "g"; esc "h"; esc "j"; esc "k"; esc "l"; esc "ö"; esc "ä";
    esc "#"; []; esc "<"; esc "y"; esc "x"; esc "c"; esc "v"; esc "b"; esc "n"; esc "m";
    esc ","; esc "."; esc "-"; []; txt "*"; []; esc " "; []; esc "[OP"; esc "[OQ"; esc "[OR";
    esc "[OS"; esc "[[15~"; esc "[[17~"; esc "[[18~"; esc "[[19~"; esc "[[20~"; esc "[[21~";
    []; []; esc "[1~"; esc "[A"; esc "[5~"; txt "-"; esc "[D"; esc "[E"; esc "[C"; txt "+";
    esc "[4~"; esc "[B"; esc "[6~"; esc "[2~"; esc "[3~"; []; []; []; esc "[23~"; esc "[24~" ].

Definition map_ctrlalt : list (list Z) :=
  [ []; [27]; txt "¹"; txt "²"; txt "³"; txt "¼"; txt "½"; txt "¬"; txt "{"; txt "["; txt "]";
    txt "}"; txt "\"; txt "¸"; [8]; [9]; txt "@"; txt "ł"; txt "€"; txt "¶"; txt "ŧ"; txt "←";
    txt "↓"; txt "→"; txt "ø"; txt "þ"; txt "¨"; txt "~"; [10]; []; txt "æ"; txt "ß"; txt "ð";
    txt "đ"; txt "ŋ"; txt "ħ"; txt "j"; txt "ĸ"; txt "ł"; txt "˝"; txt "^"; txt "`"; [];
    txt "|"; txt "«"; txt "»"; txt "¢"; txt "“"; txt "”"; txt "n"; txt "µ"; txt ","; txt "·";
    txt "-"; []; txt "*"; []; txt " "; []; esc "[OP"; esc "[OQ"; esc "[OR"; esc "[OS";
    esc "[[15~"; esc "[[17~"; esc "[[18~"; esc "[[19~"; esc "[[20~"; esc "[[21~"; []; [];
    esc "[1~"; esc "[A"; esc "[5~"; txt "-"; esc "[D"; esc "[E"; esc "[C"; txt "+"; esc "[4~";
    esc "[B"; esc "[6~"; esc "[2~"; esc "[3~"; []; []; []; esc "[23~"; esc "[24~" ].

Definition map_shift : list (list Z) :=
  [ []; [27]; txt "!"; [34]; txt "§"; txt "$"; txt "%"; txt "&"; txt "/"; txt "("; txt ")";
    txt "="; txt "?"; txt "`"; [8]; [9]; txt "Q"; txt "W"; txt "E"; txt "R"; txt "T"; txt "Z";
    txt "U"; txt "I"; txt "O"; txt "P"; txt "Ü"; txt "*"; [10]; []; txt "A"; txt "S"; txt "D";
    txt "F"; txt "G"; txt "H"; txt "J"; txt "K"; txt "L"; txt "Ö"; txt "Ä"; txt "'"; [];
    txt ">"; txt "Y"; txt "X"; txt "C"; txt "V"; txt "B"; txt "N"; txt "M"; txt ";"; txt ":";
    txt "_"; []; txt "*"; []; txt " "; []; esc "[OP"; esc "[OQ"; esc "[OR"; esc "[OS";
    esc "[[15~"; esc "[[17~"; esc "[[18~"; esc "[[19~"; esc "[[20~"; esc "[[21~"; []; [];
    esc "[1~"; esc "[A"; esc "[5~"; txt "-"; esc "[D"; esc "[E"; esc "[C"; txt "+"; esc "[4~";
    esc "[B"; esc "[6~"; esc "[2~"; esc "[3~"; []; []; []; esc "[23~"; esc "[24~" ].

Definition map_ctrlshift : list (list Z) :=
  [ []; [27]; txt "!"; [34]; txt "§"; txt "$"; txt "%"; txt "&"; txt "/"; txt "("; txt ")";
    txt "="; txt "?"; txt "`"; [8]; [9]; txt "Q"; txt "W"; txt "E"; txt "R"; txt "T"; txt "Z";
    txt "U"; txt "I"; txt "O"; txt "P"; txt "Ü"; txt "*"; [10]; []; txt "A"; txt "S"; txt "D";
    txt "F"; txt "G"; txt "H"; txt "J"; txt "K"; txt "L"; txt "Ö"; txt "Ä"; txt "'"; [];
    txt ">"; txt "Y"; txt "X"; txt "C"; txt "V"; txt "B"; txt "N"; txt "M"; txt ";"; txt ":";
    txt "_"; []; txt "*"; []; txt " "; []; esc "[OP"; esc "[OQ"; esc "[OR"; esc "[OS";
    esc "[[15~"; esc "[[17~"; esc "[[18~"; esc "[[19~"; esc "[[20~"; esc "[[21~"; []; [];
    esc "[1~"; esc "[A"; esc "[5~"; txt "-"; esc "[D"; esc "[E"; esc "[C"; txt "+"; esc "[4~";
    esc "[B"; esc "[6~"; esc "[2~"; esc "[3~"; []; []; []; esc "[23~"; esc "[24~" ].

Definition map_altshift : list (list Z) :=
  [ []; [27]; txt "!"; [34]; txt "§"; txt "$"; txt "%"; txt "&"; txt "/"; txt "("; txt ")";
    txt "="; txt "?"; txt "`"; [8]; [9]; txt "Q"; txt "W"; txt "E"; txt "R"; txt "T"; txt "Z";
    txt "U"; txt "I"; txt "O"; txt "P"; txt "Ü"; txt "*"; [10]; []; txt "A"; txt "S"; txt "D";
    txt "F"; txt "G"; txt "H"; txt "J"; txt "K"; txt "L"; txt "Ö"; txt "Ä"; txt "'"; [];
    txt ">"; txt "Y"; txt "X"; txt "C"; txt "V"; txt "B"; txt "N"; txt "M"; txt ";"; txt ":";
    txt "_"; []; txt "*"; []; txt " "; []; esc "[OP"; esc "[OQ"; esc "[OR"; esc "[OS";
    esc "[[15~"; esc "[[17~"; esc "[[18~"; esc "[[19~"; esc "[[20~"; esc "[[21~"; []; [];
    esc "[1~"; esc "[A"; esc "[5~"; txt "-"; esc "[D"; esc "[E"; esc "[C"; txt "+"; esc "[4~";
    esc "[B"; esc "[6~"; esc "[2~"; esc "[3~"; []; []; []; esc "[23~"; esc "[24~" ].

Definition map_ctrlaltshift : list (list Z) :=
  [ []; [27]; txt "¡"; txt "⅛"; txt "£"; txt "¤"; txt "⅜"; txt "⅝"; txt "⅞"; txt "™"; txt "±";
    txt "°"; txt "¿"; txt "˛"; [8]; [9]; txt "Ω"; txt "Ł"; txt "€"; txt "®"; txt "Ŧ"; txt "¥";
    txt "↑"; txt "ı"; txt "Ø"; txt "Þ"; txt "Ü"; txt "*"; [10]; []; txt "Æ"; txt "§"; txt "Ð";
    txt "ª"; txt "Ŋ"; txt "Ħ"; txt "J"; txt "&"; txt "Ł"; txt "˝"; txt "ˇ"; txt "˘"; [];
    txt "¦"; txt "<"; txt ">"; txt "©"; txt "‘"; txt "’"; txt "N"; txt "º"; txt "×"; txt "÷";
    txt "_"; []; txt "*"; []; txt " "; []; esc "[OP"; esc "[OQ"; esc "[OR"; esc "[OS";
    esc "[[15~"; esc "[[17~"; esc "[[18~"; esc "[[19~"; esc "[[20~"; esc "[[21~"; []; [];
    esc "[1~"; esc "[A"; esc "[5~"; txt "-"; esc "[D"; esc "[E"; esc "[C"; txt "+"; esc "[4~";
    esc "[B"; esc "[6~"; esc "[2~"; esc "[3~"; []; []; []; esc "[23~"; esc "[24~" ].

Close Scope string_scope.

(** The bits of [modifiers]. *)
Record modifiers_t := Modifiers {
  capsLock : Z; numLock : Z; scrollLock : Z; ctrlDown : Z; altDown : Z; shiftDown : Z;
}.
#[global] Instance modifiers_fields : Fields modifiers_t := λ r, {|
  capsLock := capsLock r; numLock := numLock r; scrollLock := scrollLock r;
  ctrlDown := ctrlDown r; altDown := altDown r; shiftDown := shiftDown r |}.

Definition no_modifiers : modifiers_t := Modifiers 0 0 0 0 0 0.

Definition MAX_CHAR_LEN : nat := 7.
Definition HIGH_CODE : Z := 89.

(** The table the modifiers select. *)
Definition current_map (m : modifiers_t) : list (list Z) :=
  if negb (truth (shiftDown m)) then
    if negb (truth (altDown m)) then
      if negb (truth (ctrlDown m)) then map_none else map_ctrl
    else
      if negb (truth (ctrlDown m)) then map_alt else map_ctrlalt
  else
    if negb (truth (altDown m)) then
      if negb (truth (ctrlDown m)) then map_shift else map_ctrlshift
    else
      if negb (truth (ctrlDown m)) then map_altshift else map_ctrlaltshift.

(** [char row[MAX_CHAR_LEN]] initialised by a string. *)
Definition char_row (s : list Z) : list Z := take MAX_CHAR_LEN (s ++ repeat 0 MAX_CHAR_LEN).

(** The loop that copies the string at [current], for at most the length of [row]. *)
Fixpoint copy_chars (row : list Z) (buf : list Z) (pos : nat) : option (list Z * nat) :=
  match row with
  | [] => Some (buf, pos)
  | c :: row =>
      buf ← put pos c buf;
      if negb (truth c) then Some (buf, pos) else copy_chars row buf (S pos)
  end.

(** The special keys; [None] for the others. *)
Definition modifier_key (scancode : Z) (m : modifiers_t) : option modifiers_t :=
  if scancode =? 224 then Some m
  else if scancode =? 29 then Some (m <| ctrlDown := 1 |>)
  else if scancode =? 157 then Some (m <| ctrlDown := 0 |>)
  else if (scancode =? 42) || (scancode =? 54) then Some (m <| shiftDown := 1 |>)
  else if (scancode =? 170) || (scancode =? 182) then Some (m <| capsLock := 0 |> <| shiftDown := 0 |>)
  else if scancode =? 56 then Some (m <| altDown := 1 |>)
  else if scancode =? 184 then Some (m <| altDown := 0 |>)
  else if scancode =? 58 then Some (m <| shiftDown := 1 |> <| capsLock := 1 |>)
  else if scancode =? 69 then Some (m <| numLock := (1 - numLock m) mod 2 |>)
  else if scancode =? 70 then Some (m <| scrollLock := (1 - scrollLock m) mod 2 |>)
  else None.

(** The characters are stored at [pos] of [buf]; the new position and the modifiers. *)
Definition keycodeToChars (scancode : Z) (buf : list Z) (pos : nat) (m : modifiers_t)
    : option (list Z * nat * modifiers_t) :=
  r ← match modifier_key scancode m with
      | Some m' => Some (buf, pos, m')
      | None =>
          if scancode <? HIGH_CODE then
            current ← current_map m !! Z.to_nat scancode;
            bp ← copy_chars (char_row current) buf pos;
            Some (bp, m)
          else Some (buf, pos, m)
      end;
  let '(buf, pos, m) := r in
  buf ← put pos 0 buf;
  Some (buf, pos, m).

(** * What a key types *)

Definition key_text (m : modifiers_t) (scancode : Z) : list Z :=
  match modifier_key scancode m with
  | Some _ => []
  | None =>
      if scancode <? HIGH_CODE
      then match current_map m !! Z.to_nat scancode with Some s => s | None => [] end
      else []
  end.

Definition key_modifiers (m : modifiers_t) (scancode : Z) : modifiers_t :=
  match modifier_key scancode m with Some m' => m' | None => m end.

(** A sequence of keys. *)
Fixpoint typed (m : modifiers_t) (codes : list Z) : list Z :=
  match codes with
  | [] => []
  | c :: codes => key_text m c ++ typed (key_modifiers m c) codes
  end.
Definition typed_modifiers (m : modifiers_t) (codes : list Z) : modifiers_t :=
  foldl key_modifiers m codes.

(** Every table has a string for every code, shorter than its row, without NUL. *)
Definition text_ok (s : list Z) : Prop :=
  (length s < MAX_CHAR_LEN)%nat ∧ Forall (λ c, 0 < c < 256) s.
#[global] Instance text_ok_dec s : Decision (text_ok s).
Proof. unfold text_ok. apply _. Defined.

Definition table_ok (t : list (list Z)) : Prop := Z.of_nat (length t) = HIGH_CODE ∧ Forall text_ok t.

Lemma current_map_ok m : table_ok (current_map m).
Proof.
  unfold current_map. repeat case_match.
  all: split; [done|]; apply (bool_decide_unpack _); vm_compute; exact I.
Qed.

Lemma key_text_ok m code : text_ok (key_text m code).
Proof.
  unfold key_text. assert (text_ok []) by (split; [unfold MAX_CHAR_LEN; simpl; lia|done]).
  repeat case_match; try done. eapply Forall_lookup_1; [apply current_map_ok|done].
Qed.

Lemma copy_chars_spec s row buf pos :
  row = s ++ repeat 0 (length row - length s) → (length s < length row)%nat →
  Forall (λ c, 0 < c < 256) s → (pos + length s < length buf)%nat →
  copy_chars row buf pos
  = Some (take pos buf ++ s ++ 0 :: drop (S (pos + length s)) buf, (pos + length s)%nat).
Proof.
  intros Hrow Hlen Hs. revert row buf pos Hrow Hlen. induction Hs as [|c s Hc Hs IH]; intros row buf pos Hrow Hlen Hfit.
  - destruct row as [|z row]; [simpl in *; lia|]. simpl in *. simplify_eq. rewrite put_Some by lia.
    simpl. rewrite Nat.add_0_r. by rewrite insert_take_drop by lia.
  - destruct row as [|z row]; [simpl in *; lia|]. simpl in *. injection Hrow as -> Hrow.
    rewrite put_Some by lia. simpl. unfold truth. rewrite (proj2 (Z.eqb_neq c 0)) by lia. simpl.
    rewrite (IH _ _ _ Hrow); [|lia|rewrite length_insert; lia].
    do 2 f_equal; [|lia]. rewrite (take_S_r _ _ c) by (rewrite list_lookup_insert_eq; [done|lia]).
    rewrite take_insert_ge, drop_insert_lt by lia. rewrite <- app_assoc. simpl. by rewrite Nat.add_succ_r.
Qed.

(** [keycodeToChars] stores the text of the key and a NUL behind it. *)
Lemma keycodeToChars_spec scancode buf pos m :
  0 ≤ scancode < 256 → (pos + length (key_text m scancode) < length buf)%nat →
  keycodeToChars scancode buf pos m
  = Some (take pos buf ++ key_text m scancode ++ 0 :: drop (S (pos + length (key_text m scancode))) buf,
          (pos + length (key_text m scancode))%nat, key_modifiers m scancode).
Proof.
  intros Hcode Hfit. pose proof (key_text_ok m scancode) as Hok. revert Hfit Hok.
  unfold keycodeToChars, key_text, key_modifiers.
  destruct (modifier_key scancode m) as [m'|]; simpl.
  { intros Hfit _. rewrite Nat.add_0_r in *. rewrite put_Some by lia. simpl.
    by rewrite insert_take_drop by lia. }
  destruct (Z.ltb_spec scancode HIGH_CODE); simpl.
  2:{ intros Hfit _. rewrite Nat.add_0_r in *. rewrite put_Some by lia. simpl.
      by rewrite insert_take_drop by lia. }
  destruct (current_map_ok m) as [Hl _].
  destruct (lookup_lt_is_Some_2 (current_map m) (Z.to_nat scancode)) as [s Hs]; [lia|].
  rewrite Hs. simpl. intros Hfit [Hlen Hnz].
  assert (length (char_row s) = MAX_CHAR_LEN) as Hrl.
  { unfold char_row. rewrite length_take, length_app, repeat_length. lia. }
  rewrite (copy_chars_spec s); [| |lia|done|done].
  - simpl. rewrite put_Some by (rewrite !length_app, length_take; simpl; lia). simpl.
    do 3 f_equal. rewrite app_assoc. rewrite insert_app_r_alt by (rewrite length_app, length_take; lia).
    rewrite length_app, length_take. replace (_ - _)%nat with 0%nat by lia. simpl. by rewrite <- app_assoc.
  - unfold char_row at 1. rewrite take_app_ge by lia. f_equal. rewrite Hrl.
    replace (repeat 0 MAX_CHAR_LEN) with (repeat 0 (MAX_CHAR_LEN - length s) ++ repeat 0 (length s))
      by (rewrite <- repeat_app; f_equal; lia).
    by rewrite take_app_length' by (by rewrite repeat_length).
Qed.
