(* ===== verification/Keyboard.v ===== *)
(** The keyboard server (src/sdios/src/consoleserver/keyboard.cc): the buffer of typed
    characters between the interrupt of the controller and the clients that read.

    The controller is outside the server: the class [Controller] has its ports.  The
    thread ids are the words the kernel gives; 0 is [L4_nilthread]. *)

From S2P Require Import Prelude Machine Server Keymap.

(** What reading and writing a byte at a port does to the controller. *)
Class Controller := {
  controller : Type;
  inb : Z → controller → Z * controller;
  outb : Z → Z → controller → controller;
}.

Definition BUFFER_LENGTH : nat := 1024.

(** [keyboardBuffer] of include/sdi/keyboard.h. *)
Record keyboardBuffer := KeyboardBuffer { numchars : Z; more : Z; chars : list Z }.
#[global] Instance keyboardBuffer_fields : Fields keyboardBuffer := λ r, {|
  numchars := numchars r; more := more r; chars := chars r |}.

(** The globals; [buffer_pos] is an index, and [clientBuffer] the object the waiting
    call will return. *)
Record keyboard := Keyboard {
  buffer : list Z;
  buffer_pos : nat;
  clientWaiting : Z;
  clientBuffer : keyboardBuffer;
  modifiers : modifiers_t;
}.
#[global] Instance keyboard_fields : Fields keyboard := λ r, {|
  buffer := buffer r; buffer_pos := buffer_pos r; clientWaiting := clientWaiting r;
  clientBuffer := clientBuffer r; modifiers := modifiers r |}.

Definition keyboard_read_processbuffers (outBuffer : keyboardBuffer) (k : keyboard)
    : option (keyboardBuffer * keyboard) :=
  let chars_in_buf := buffer_pos k in
  cs ← strncpy (chars outBuffer) 0 (Other (buffer k)) 0 7;
  let outBuffer := outBuffer <| chars := cs |> in
  if (chars_in_buf <=? 7)%nat then
    b ← put 0 0 (buffer k);
    Some (outBuffer <| more := 0 |> <| numchars := Z.of_nat chars_in_buf |>,
          k <| buffer := b |> <| buffer_pos := 0%nat |>)
  else
    b ← strncpy (buffer k) 0 Within 7 (BUFFER_LENGTH - 7);
    Some (outBuffer <| more := 1 |> <| numchars := 7 |>,
          k <| buffer := b |> <| buffer_pos ::= λ p, (p - 7)%nat |>).

(** The answer to the caller; [None] when it is left to wait. *)
Definition keyboard_read (caller : Z) (outBuffer : keyboardBuffer) (k : keyboard)
    : option (option keyboardBuffer * keyboard) :=
  if negb (buffer_pos k =? 0)%nat then
    r ← keyboard_read_processbuffers outBuffer k; Some (Some r.1, r.2)
  else if clientWaiting k =? 0 then
    Some (None, k <| clientWaiting := caller |> <| clientBuffer := outBuffer |>)
  else
    cs ← memset (chars outBuffer) 0 0 7;
    Some (Some (outBuffer <| more := 0 |> <| numchars := 0 |> <| chars := cs |>), k).

Section interrupt.
Context `{Controller}.

(** [ledstatus], as C parses it: [+] binds tighter than [<<]. *)
Definition ledstatus (m : modifiers_t) : Z :=
  u8 (Z.shiftl (Z.shiftl (Z.shiftl (capsLock m) (2 + numLock m)) (1 + scrollLock m)) 1).

(** One round of the loop of the interrupt handler, for the scancode it reads. *)
Definition take_scancode (k : keyboard) (p : controller) : option (keyboard * controller) :=
  let '(scancode, p) := inb 96 p in
  r ← keycodeToChars scancode (buffer k) (buffer_pos k) (modifiers k);
  let '(b, pos, m) := r in
  let k := k <| buffer := b |> <| buffer_pos := pos |> <| modifiers := m |> in
  let p := if (scancode =? 58) || (scancode =? 69) || (scancode =? 70)
           then outb 96 (ledstatus m) (outb 96 237 p) else p in
  Some (k, p).

(** [while ((status & 1) && room for a key)]; [None] also when the fuel is used up. *)
Fixpoint take_scancodes (fuel : nat) (status : Z) (k : keyboard) (p : controller)
    : option (keyboard * controller) :=
  if has status 1 && (buffer_pos k <? BUFFER_LENGTH - MAX_CHAR_LEN)%nat then
    match fuel with
    | O => None
    | S fuel =>
        r ← take_scancode k p;
        let '(k, p) := r in
        let '(status, p) := inb 100 p in
        take_scancodes fuel status k p
    end
  else Some (k, p).

(** The handler; with the state, the client that is sent its buffer, if one is. *)
Definition keyboard_interrupt (fuel : nat) (k : keyboard) (p : controller)
    : option (option (Z * keyboardBuffer) * keyboard * controller) :=
  let '(status, p) := inb 100 p in
  r ← take_scancodes fuel status k p;
  let '(k, p) := r in
  if negb (clientWaiting k =? 0) && negb (buffer_pos k =? 0)%nat then
    a ← keyboard_read_processbuffers (clientBuffer k) k;
    let '(b, k) := a in
    Some (Some (clientWaiting k, b), k <| clientBuffer := b |> <| clientWaiting := 0 |>, p)
  else Some (None, k, p).
End interrupt.

(** * The queue of characters *)

Definition queue (k : keyboard) : list Z := take (buffer_pos k) (buffer k).

(** The characters of an answer. *)
Definition answer (b : keyboardBuffer) : list Z := take (Z.to_nat (numchars b)) (chars b).

Record keyboard_ok (k : keyboard) : Prop := {
  kb_length : length (buffer k) = BUFFER_LENGTH;
  kb_pos : (buffer_pos k < BUFFER_LENGTH)%nat;
  kb_text : Forall (λ c, 0 < c < 256) (queue k);
  kb_nul : buffer k !! buffer_pos k = Some 0;
  kb_client : length (chars (clientBuffer k)) = 7%nat;
}.

(** The answer to a client that gets the front of the queue [q], of which [q'] is left. *)
Record serves (q q' : list Z) (b : keyboardBuffer) : Prop := {
  sv_chars : answer b = take 7 q;
  sv_rest : q' = drop 7 q;
  sv_count : numchars b = Z.of_nat (length (take 7 q));
  sv_more : more b = if (7 <? length q)%nat then 1 else 0;
  sv_room : length (chars b) = 7%nat;
}.

Lemma length_queue k : keyboard_ok k → length (queue k) = buffer_pos k.
Proof.
  intros [Hl Hp _ _ _]. unfold queue. rewrite length_take. unfold BUFFER_LENGTH in *. lia.
Qed.

(** The buffer is the queue, a NUL and old characters. *)
Lemma buffer_queue k : keyboard_ok k → buffer k = queue k ++ 0 :: drop (S (buffer_pos k)) (buffer k).
Proof. intros Hok. unfold queue. symmetry. apply take_drop_middle, Hok. Qed.

Lemma processbuffers_spec outBuffer k :
  keyboard_ok k → length (chars outBuffer) = 7%nat →
  ∃ b k', keyboard_read_processbuffers outBuffer k = Some (b, k') ∧ keyboard_ok k' ∧
    serves (queue k) (queue k') b ∧ clientWaiting k' = clientWaiting k ∧
    modifiers k' = modifiers k ∧ clientBuffer k' = clientBuffer k.
Proof.
  intros Hok Hout. pose proof (length_queue k Hok) as Hq. pose proof (buffer_queue k Hok) as Hb.
  pose proof (kb_text _ Hok) as Htext. pose proof (kb_length _ Hok) as Hl. pose proof (kb_pos _ Hok) as Hpos.
  assert (Hnz : ∀ l, Forall (λ c, 0 < c < 256) l → Forall (λ c, c ≠ 0) l).
  { intros l Hf. eapply Forall_impl; [exact Hf|]. simpl. lia. }
  unfold keyboard_read_processbuffers. unfold BUFFER_LENGTH in *.
  destruct (Nat.leb_spec (buffer_pos k) 7) as [Hle|Hgt].
  - set (out := if (buffer_pos k =? 7)%nat then queue k else queue k ++ [0]).
    assert (buffer_pos k ≤ length out ≤ 7 ∧ take (buffer_pos k) out = queue k)%nat as [Hol Hot].
    { unfold out. destruct (Nat.eqb_spec (buffer_pos k) 7).
      - split; [lia|]. apply take_ge. lia.
      - rewrite length_app. simpl. split; [lia|]. by rewrite take_app_length'. }
    rewrite (strncpy_spec _ 0 _ 0 7 (queue k) (0 :: drop (S (buffer_pos k)) (buffer k)) out);
      [|simpl; by rewrite drop_0|done|by apply Hnz| |simpl; lia].
    2:{ unfold out. destruct (Nat.eqb_spec (buffer_pos k) 7); [left|right]; split_and?; simpl; done || lia. }
    simpl. rewrite put_Some by lia. simpl. eexists _, _. split; [done|].
    split_and!; try done.
    + split; simpl; unfold queue; simpl; try done; unfold BUFFER_LENGTH; try lia.
      * by rewrite length_insert.
      * by rewrite list_lookup_insert_eq by lia.
      * apply Hok.
    + assert (take 7 (queue k) = queue k) as E by (apply take_ge; lia). split.
      * unfold answer. simpl. rewrite Nat2Z.id, take_app_le by lia.
        by rewrite E.
      * unfold queue at 1. simpl. symmetry. apply drop_ge. lia.
      * simpl. by rewrite E, Hq.
      * simpl. by rewrite (proj2 (Nat.ltb_ge 7 _)) by lia.
      * simpl. rewrite length_app, length_drop. lia.
  - rewrite (strncpy_spec _ 0 _ 0 7 (take 7 (queue k)) (drop 7 (buffer k)) (take 7 (queue k)));
      [| |done|by apply Hnz, Forall_take|left; split; [rewrite length_take; lia|done]|rewrite length_take; lia].
    2:{ simpl. rewrite drop_0. unfold queue. rewrite take_take, Nat.min_l by lia. by rewrite take_drop. }
    cbn [mbind option_bind].
    rewrite (strncpy_spec _ 0 Within 7 (1024 - 7) (drop 7 (queue k)) (0 :: drop (S (buffer_pos k)) (buffer k)) (drop 7 (queue k) ++ [0]));
      [| |lia|by apply Hnz, Forall_drop|right; rewrite length_drop; split_and!; [lia|done|done]|rewrite length_app, length_drop; simpl; lia].
    2:{ simpl. rewrite Hb at 1. rewrite drop_app_le by lia. done. }
    cbn [mbind option_bind]. eexists _, _. split; [done|].
    set (nb := take 0 (buffer k) ++ _). assert (nb = drop 7 (queue k) ++ 0 :: drop (0 + length (drop 7 (queue k) ++ [0])) (buffer k)) as Enb.
    { unfold nb. rewrite take_0. simpl. by rewrite <- app_assoc. }
    assert (length (drop 7 (queue k)) = buffer_pos k - 7)%nat as Hdl by (rewrite length_drop; lia).
    assert (queue (k <| buffer := nb |> <| buffer_pos ::= λ p, (p - 7)%nat |>) = drop 7 (queue k)) as Eq.
    { change (take (buffer_pos k - 7) nb = drop 7 (queue k)). rewrite Enb. by rewrite take_app_length'. }
    split_and!; try done.
    + split.
      * change (length nb = BUFFER_LENGTH). rewrite Enb, length_app. cbn [length].
        rewrite Hdl, !length_drop, length_app, length_drop, Hq. cbn [length]. unfold BUFFER_LENGTH. lia.
      * change (buffer_pos k - 7 < BUFFER_LENGTH)%nat. unfold BUFFER_LENGTH. lia.
      * rewrite Eq. by apply Forall_drop.
      * change (nb !! (buffer_pos k - 7)%nat = Some 0). rewrite Enb, lookup_app_r by lia.
        rewrite Hdl, Nat.sub_diag. done.
      * apply Hok.
    + rewrite Eq. split.
      * unfold answer. simpl chars. change (Z.to_nat _) with 7%nat.
        rewrite take_app_le by (rewrite length_take; lia).
        apply take_ge. rewrite length_take. lia.
      * done.
      * rewrite length_take. simpl numchars. lia.
      * change (1 = if (7 <? length (queue k))%nat then 1 else 0). by rewrite (proj2 (Nat.ltb_lt 7 _)) by lia.
      * simpl chars. rewrite !length_app, length_drop, !length_take. simpl length. lia.
Qed.

(** * The contracts *)

(** [keyboard_read_implementation].  With characters in the buffer the caller gets
    the next seven of them, or all, in the order they were typed, and is told whether
    more are left; without any it waits, unless another client already does: then it
    gets an empty answer and the state is as it was.  The buffer stays well formed and
    no access leaves it. *)
Theorem keyboard_read_contract caller outBuffer k :
  keyboard_ok k → length (chars outBuffer) = 7%nat → caller ≠ 0 →
  ∃ r k', keyboard_read caller outBuffer k = Some (r, k') ∧ keyboard_ok k' ∧
    modifiers k' = modifiers k ∧
    match r with
    | Some b =>
        serves (queue k) (queue k') b ∧ clientWaiting k' = clientWaiting k ∧
        (queue k = [] → clientWaiting k ≠ 0 ∧ k' = k)
    | None =>
        queue k = [] ∧ queue k' = [] ∧ clientWaiting k = 0 ∧
        clientWaiting k' = caller ∧ clientBuffer k' = outBuffer
    end.
Proof.
  intros Hok Hout Hcaller. pose proof (length_queue k Hok) as Hq. unfold keyboard_read.
  destruct (Nat.eqb_spec (buffer_pos k) 0) as [E0|E0]; cbn [negb].
  - assert (queue k = []) as Eq by (apply length_zero_iff_nil; lia).
    destruct (Z.eqb_spec (clientWaiting k) 0) as [Ec|Ec].
    + eexists _, _. split; [done|]. split_and!; try done. destruct Hok. by split.
    + rewrite (memset_spec _ 0 0 7) by lia. cbn [mbind option_bind]. eexists _, _. split; [done|].
      split_and!; try done. split; rewrite ?Eq; try done.
      change (length (take 0 (chars outBuffer) ++ repeat 0 7 ++ drop (0 + 7) (chars outBuffer)) = 7%nat).
      rewrite !length_app, length_drop, Hout. done.
  - destruct (processbuffers_spec outBuffer k Hok Hout) as (b&k'&->&Hok'&Hs&Hc&Hm&_). simpl.
    eexists _, _. split; [done|]. split_and!; try done.
    intros Eq. rewrite Eq in Hq. simpl in Hq. lia.
Qed.

(** The keyboard answers a byte that is written to it: it acknowledges it (0xFA), asks for it
    again (0xFE), or has not answered yet. *)
Definition is_reply (c : Z) : Prop := c = 250 ∨ c = 254.
Definition may_reply (l : list Z) : Prop := l = [] ∨ ∃ c, is_reply c ∧ l = [c].

(** What the keyboard controller promises.  [stream] are the bytes that it will give out until the
    handler is done (those of keys pressed meanwhile too), when nothing more is written,
    and [ready] of them are there already.  Bit 0 of the status tells whether there are any;
    reading port 0x60 takes the oldest; writing to it puts an answer of the keyboard somewhere
    behind the bytes that are there; and more bytes may become ready at any time. *)
Class ControllerLaws `{Controller} := {
  stream : controller → list Z;
  ready : controller → nat;
  stream_bytes p : Forall byte_ok (stream p);
  ready_le p : (ready p ≤ length (stream p))%nat;
  status_law p : has (inb 100 p).1 1 = negb (ready (inb 100 p).2 =? 0)%nat ∧
    stream (inb 100 p).2 = stream p ∧ (ready p ≤ ready (inb 100 p).2)%nat;
  data_law p c codes : ready p ≠ 0%nat → stream p = c :: codes →
    (inb 96 p).1 = c ∧ stream (inb 96 p).2 = codes ∧ (pred (ready p) ≤ ready (inb 96 p).2)%nat;
  outb_law v p : ∃ l1 r l2, stream p = l1 ++ l2 ∧ stream (outb 96 v p) = l1 ++ r ++ l2 ∧ may_reply r ∧
    (ready p ≤ length l1)%nat ∧ (ready p ≤ ready (outb 96 v p))%nat;
}.

(** [l'] is [l] with answers of the keyboard in between. *)
Inductive with_replies : list Z → list Z → Prop :=
  | wr_nil : with_replies [] []
  | wr_key c l l' : with_replies l l' → with_replies (c :: l) (c :: l')
  | wr_reply c l l' : is_reply c → with_replies l l' → with_replies l (c :: l').

Lemma with_replies_refl l : with_replies l l.
Proof. induction l; by constructor. Qed.
Lemma with_replies_trans l1 l2 l3 : with_replies l1 l2 → with_replies l2 l3 → with_replies l1 l3.
Proof.
  intros H1 H2. revert l1 H1. induction H2 as [|c l l' _ IH|c l l' Hc _ IH]; intros l1 H1; [done| |by constructor; auto].
  inversion H1; subst; constructor; auto.
Qed.
Lemma with_replies_insert l1 r l2 : may_reply r → with_replies (l1 ++ l2) (l1 ++ r ++ l2).
Proof.
  intros Hr. induction l1 as [|c l1 IH]; [|by constructor]. destruct Hr as [->|(c&Hc&->)]; simpl.
  - apply with_replies_refl.
  - apply wr_reply; [done|apply with_replies_refl].
Qed.
Lemma with_replies_app l l1 l2 : with_replies l1 l2 → with_replies (l ++ l1) (l ++ l2).
Proof. intros Hl. induction l; [done|by constructor]. Qed.

(** The answers are no keys: they type nothing. *)
Lemma typed_replies l l' m : with_replies l l' → typed m l' = typed m l ∧ typed_modifiers m l' = typed_modifiers m l.
Proof.
  intros Hl. revert m. induction Hl as [|c l l' _ IH|c l l' Hc _ IH]; intros m; [done| |].
  - destruct (IH (key_modifiers m c)) as [E1 E2]. split; [|done]. simpl. by rewrite E1.
  - assert (key_text m c = [] ∧ key_modifiers m c = m) as [E1 E2] by (by destruct Hc as [->| ->]).
    destruct (IH m) as [E3 E4]. unfold typed_modifiers in *. simpl. by rewrite E1, E2, E3, E4.
Qed.

(** The keys after which the handler writes to the keyboard. *)
Definition sets_leds (c : Z) : bool := (c =? 58) || (c =? 69) || (c =? 70).
(** The bytes of a stream, with the two answers that such a key may bring. *)
Definition effort (l : list Z) : nat := sum_list_with (λ c, if sets_leds c then 3 else 1)%nat l.

Lemma effort_app l1 l2 : effort (l1 ++ l2) = (effort l1 + effort l2)%nat.
Proof. unfold effort. induction l1 as [|c l1 IH]; [done|]. simpl. rewrite IH. lia. Qed.
Lemma effort_reply r : may_reply r → (effort r ≤ 1)%nat.
Proof. intros [->|(c&[->| ->]&->)]; by vm_compute; lia. Qed.

Section contract.
Context `{ControllerLaws}.

(** A byte is written. *)
Lemma outb_spec v p :
  with_replies (stream p) (stream (outb 96 v p)) ∧ (ready p ≤ ready (outb 96 v p))%nat ∧
  (effort (stream (outb 96 v p)) ≤ effort (stream p) + 1)%nat.
Proof.
  destruct (outb_law v p) as (l1&r&l2&->&->&Hr&_&Hle). split_and!; [by apply with_replies_insert|done|].
  rewrite !effort_app. pose proof (effort_reply r Hr). lia.
Qed.

Lemma take_scancode_spec k p c codes :
  keyboard_ok k → (buffer_pos k < BUFFER_LENGTH - MAX_CHAR_LEN)%nat → ready p ≠ 0%nat → stream p = c :: codes →
  ∃ k' p', take_scancode k p = Some (k', p') ∧ keyboard_ok k' ∧
    with_replies codes (stream p') ∧ (effort (stream p') < effort (stream p))%nat ∧
    queue k' = queue k ++ key_text (modifiers k) c ∧
    modifiers k' = key_modifiers (modifiers k) c ∧
    clientWaiting k' = clientWaiting k ∧ clientBuffer k' = clientBuffer k.
Proof.
  intros Hok Hroom Hr Hw. pose proof (stream_bytes p) as Hb. rewrite Hw in Hb.
  apply Forall_cons in Hb as [Hc _]. destruct (data_law p c codes Hr Hw) as (Hd1&Hd2&_).
  destruct (key_text_ok (modifiers k) c) as [Hlen Htext]. unfold MAX_CHAR_LEN, BUFFER_LENGTH in *.
  pose proof (kb_length _ Hok) as Hl. unfold BUFFER_LENGTH in Hl.
  pose proof (length_queue k Hok) as Hq.
  unfold take_scancode. destruct (inb 96 p) as [code p1]. simpl in Hd1, Hd2. subst code.
  rewrite keycodeToChars_spec by (done || unfold byte_ok in Hc; lia).
  cbn [mbind option_bind]. eexists _, _. split; [done|].
  set (text := key_text (modifiers k) c) in *.
  set (k' := k <| buffer := _ |> <| buffer_pos := _ |> <| modifiers := _ |>).
  assert (queue k' = queue k ++ text) as Eq.
  { change (queue k') with (take (buffer_pos k + length text) (queue k ++ text ++ 0 :: drop (S (buffer_pos k + length text)) (buffer k))).
    rewrite app_assoc. apply take_app_length'. rewrite length_app. lia. }
  assert (Hstream : ∀ v1 v2, let p' := if sets_leds c then outb 96 v1 (outb 96 v2 p1) else p1 in
    with_replies codes (stream p') ∧ (effort (stream p') < effort (stream p))%nat).
  { intros v1 v2. rewrite Hw, <- Hd2. unfold effort at 2. simpl sum_list_with. fold (effort (stream p1)).
    destruct (sets_leds c); [|split; [apply with_replies_refl|lia]].
    destruct (outb_spec v2 p1) as (Hw1&_&He1), (outb_spec v1 (outb 96 v2 p1)) as (Hw2&_&He2).
    split; [by eapply with_replies_trans|lia]. }
  split_and!; try done; try apply Hstream.
  split.
  - change (buffer k') with (queue k ++ text ++ 0 :: drop (S (buffer_pos k + length text)) (buffer k)).
    rewrite !length_app. cbn [length]. rewrite length_drop. unfold BUFFER_LENGTH. lia.
  - change (buffer_pos k') with (buffer_pos k + length text)%nat. unfold BUFFER_LENGTH. lia.
  - rewrite Eq. apply Forall_app. split; [apply Hok|done].
  - change (buffer k') with (queue k ++ text ++ 0 :: drop (S (buffer_pos k + length text)) (buffer k)).
    change (buffer_pos k') with (buffer_pos k + length text)%nat.
    rewrite app_assoc, lookup_app_r by (rewrite length_app; lia). rewrite length_app.
    by replace (_ - _)%nat with 0%nat by lia.
  - apply Hok.
Qed.

Lemma take_scancodes_spec fuel status k p :
  keyboard_ok k → (effort (stream p) < fuel)%nat → has status 1 = negb (ready p =? 0)%nat →
  ∃ k' p' taken, take_scancodes fuel status k p = Some (k', p') ∧ keyboard_ok k' ∧
    with_replies (stream p) (taken ++ stream p') ∧
    queue k' = queue k ++ typed (modifiers k) taken ∧
    modifiers k' = typed_modifiers (modifiers k) taken ∧
    (ready p' = 0%nat ∨ (BUFFER_LENGTH - MAX_CHAR_LEN ≤ length (queue k'))%nat) ∧
    clientWaiting k' = clientWaiting k ∧ clientBuffer k' = clientBuffer k.
Proof.
  revert status k p. induction fuel as [|fuel IH]; intros status k p Hok Hf Hst; [lia|].
  cbn [take_scancodes]. destruct (has status 1) eqn:Es; cbn [andb].
  2:{ exists k, p, []. rewrite app_nil_r. split_and!; try done; [apply with_replies_refl|]. left.
      symmetry in Hst. by apply negb_false_iff, Nat.eqb_eq in Hst. }
  destruct (Nat.ltb_spec (buffer_pos k) (BUFFER_LENGTH - MAX_CHAR_LEN)) as [Hlt|Hge].
  2:{ exists k, p, []. rewrite app_nil_r. split_and!; try done; [apply with_replies_refl|]. right.
      by rewrite (length_queue k Hok). }
  symmetry in Hst. apply negb_true_iff, Nat.eqb_neq in Hst.
  destruct (stream p) as [|c codes] eqn:Ew; [pose proof (ready_le p) as Hr; rewrite Ew in Hr; simpl in Hr; lia|].
  destruct (take_scancode_spec k p c codes Hok Hlt Hst Ew) as (k1&p1&->&Hok1&Hw1&He1&Hq1&Hm1&Hc1&Hcb1).
  cbn [mbind option_bind]. pose proof (status_law p1) as (Hs2&Hw2&_).
  destruct (inb 100 p1) as [status2 p2]. simpl in Hs2, Hw2. rewrite Ew in He1.
  destruct (IH status2 k1 p2) as (k'&p'&taken&->&Hok'&Hw'&Hq'&Hm'&Hend&Hc'&Hcb'); [done|rewrite Hw2; lia|done|].
  exists k', p', (c :: taken). split_and!; try done; try congruence.
  - apply wr_key. eapply with_replies_trans; [exact Hw1|]. by rewrite <- Hw2.
  - rewrite Hq', Hq1, Hm1. simpl. by rewrite app_assoc.
  - by rewrite Hm', Hm1.
Qed.

(** C31: [keyboard_interrupt_implementation] types what the controller holds: the
    bytes it takes, oldest first, are turned into the characters of their keys
    under the modifiers at that moment, behind the characters typed before, and the
    modifiers follow them; it stops when the controller has no byte ready or no key is sure to
    fit, and never writes past the buffer.  Keys may be pressed meanwhile, and what is written to
    the keyboard for its lights is answered: the bytes taken and the bytes to come are those of the
    keys with these answers in between, and the answers type nothing.  The handler ends.
    A client that waits gets the front of the
    queue as soon as there is a character, and waits no longer. *)
Theorem keyboard_interrupt_contract fuel k p :
  keyboard_ok k → (effort (stream p) < fuel)%nat →
  ∃ reply k' p' taken, keyboard_interrupt fuel k p = Some (reply, k', p') ∧ keyboard_ok k' ∧
    with_replies (stream p) (taken ++ stream p') ∧ typed (modifiers k) (taken ++ stream p') = typed (modifiers k) (stream p) ∧
    modifiers k' = typed_modifiers (modifiers k) taken ∧
    let q := queue k ++ typed (modifiers k) taken in
    (ready p' = 0%nat ∨ (BUFFER_LENGTH - MAX_CHAR_LEN ≤ length q)%nat) ∧
    match reply with
    | Some (client, b) =>
        client = clientWaiting k ∧ client ≠ 0 ∧ q ≠ [] ∧ serves q (queue k') b ∧ clientWaiting k' = 0
    | None => queue k' = q ∧ clientWaiting k' = clientWaiting k ∧ (clientWaiting k = 0 ∨ q = [])
    end.
Proof.
  intros Hok Hf. unfold keyboard_interrupt. pose proof (status_law p) as (Hs&Hw&_).
  destruct (inb 100 p) as [status p0]. simpl in Hs, Hw.
  destruct (take_scancodes_spec fuel status k p0) as (k1&p'&taken&->&Hok1&Hw1&Hq1&Hm1&Hend&Hc1&Hcb1);
    [done|by rewrite Hw|done|]. cbn [mbind option_bind].
  pose proof (length_queue k1 Hok1) as Hlen. rewrite Hw in Hw1. rewrite Hc1.
  destruct (typed_replies _ _ (modifiers k) Hw1) as [Ht _].
  destruct (Z.eqb_spec (clientWaiting k) 0) as [Ec|Ec]; cbn [andb].
  - exists None, k1, p', taken. rewrite <- Hq1. split_and!; try done. by left.
  - destruct (Nat.eqb_spec (buffer_pos k1) 0) as [E0|E0]; simpl negb; cbn iota.
    + exists None, k1, p', taken. rewrite <- Hq1. split_and!; try done. right.
      apply length_zero_iff_nil. lia.
    + destruct (processbuffers_spec (clientBuffer k1) k1 Hok1) as (b&k'&->&Hok'&Hsv&Hcw&Hm'&_); [apply Hok1|].
      cbn [mbind option_bind]. eexists (Some (_, _)), _, p', taken. split; [done|]. rewrite <- Hq1.
      split_and!; try done.
      * destruct Hok'. split; try done. apply Hsv.
      * by rewrite <- Hm1, <- Hm'.
      * congruence.
      * congruence.
      * intros E. rewrite E in Hlen. simpl in Hlen. lia.
Qed.
End contract.
