(* ===== verification/TaskServer.v ===== *)
(** The task server (src/sdios/src/taskserver): address spaces, their threads and the
    clients that wait for a thread to end.

    The tables are the arrays of taskserver.cc, a pointer into them an index.  The
    kernel, the locator and the pagers are outside: what is asked of them is a log of
    calls, and what the server learns from them (its own id, the size of a UTCB, the
    answers of the locator) is the class [Platform]. *)

From S2P Require Import Prelude Machine Server L4Types Links.

Class Platform := {
  myself : Z;
  my_local_id : Z;
  utcb_size : Z;
  utcb_area_size_log2 : Z;
  ram_dsm_id : Z;
  locate : nat → Z;
}.

(** The calls of other servers, with their arguments. *)
Inductive call :=
  | ThreadControl (dest space scheduler pager utcb : Z)
  | SpaceControl (space control kiparea utcbarea redirector : Z)
  | BiElf_associateImage (thread module : Z)
  | BiElf_copyAssociation (from to : Z)
  | AppPager_associateImage (pager thread : Z) (path : list Z)
  | AppPager_copyAssociation (pager from to : Z)
  | AppPager_deleteAssociation (pager thread : Z)
  | waitTid_reply (listener status : Z).

Inductive pagedby_e := pagedbyBiElfLoader | pagedbyAppPager.
#[global] Instance pagedby_e_eq : EqDecision pagedby_e.
Proof. solve_decision. Defined.

Record as_t := As { utcbarea : Z; pagedby : pagedby_e; firstThread : option nat }.
#[global] Instance as_t_fields : Fields as_t := λ r, {|
  utcbarea := utcbarea r; pagedby := pagedby r; firstThread := firstThread r |}.

Record thread_t := Thread {
  globalid : Z;
  localid : Z;
  as_ : option nat;
  nextThread : option nat;
  firstListener : option nat;
}.
#[global] Instance thread_t_fields : Fields thread_t := λ r, {|
  globalid := globalid r; localid := localid r; as_ := as_ r;
  nextThread := nextThread r; firstListener := firstListener r |}.

Record listener_t := Listener { listeningThread : Z; nextListener : option nat }.
#[global] Instance listener_t_fields : Fields listener_t := λ r, {|
  listeningThread := listeningThread r; nextListener := nextListener r |}.

Record ts := Ts {
  spaces : list as_t;
  threads : list thread_t;
  listeners : list listener_t;
  next_thread_idx : Z;
  next_as_idx : Z;
  next_listener_idx : Z;
  next_thread_no : Z;
  apppagerid : Z;
  located : nat;
  calls : list call;
}.
#[global] Instance ts_fields : Fields ts := λ r, {|
  spaces := spaces r; threads := threads r; listeners := listeners r;
  next_thread_idx := next_thread_idx r; next_as_idx := next_as_idx r;
  next_listener_idx := next_listener_idx r; next_thread_no := next_thread_no r;
  apppagerid := apppagerid r; located := located r; calls := calls r |}.

Definition MAX_NUM_SPACES : nat := 64.
Definition MAX_NUM_THREADS : nat := 256.
Definition MAX_NUM_LISTENERS : nat := 256.

#[global] Program Instance spaces_array : Array ts as_t :=
  {| cells := spaces; set_cells l s := s <| spaces := l |> |}.
Next Obligation. done. Qed.
#[global] Program Instance threads_array : Array ts thread_t :=
  {| cells := threads; set_cells l s := s <| threads := l |> |}.
Next Obligation. done. Qed.
#[global] Program Instance listeners_array : Array ts listener_t :=
  {| cells := listeners; set_cells l s := s <| listeners := l |> |}.
Next Obligation. done. Qed.

Section taskserver.
Context `{Platform}.

Definition request (c : call) : Srv ts unit := update (λ s, s <| calls ::= λ l, l ++ [c] |>).

(** * Finding a free slot *)

(** [for (i = next; i != next - 1; i = (i + 1) % max)]; after two rounds of the array
    the loop never ends. *)
Fixpoint free_from {T} `{!Array ts T} (isfree : T → bool) (max stop : Z) (fuel : nat) (i : Z)
    : Srv ts (option nat) :=
  if i =? stop then mret None else
  match fuel with
  | O => spins
  | S fuel =>
      b ← peek isfree (Z.to_nat i);
      if (b : bool) then mret (Some (Z.to_nat i)) else free_from isfree max stop fuel ((i + 1) mod max)
  end.

Definition get_free {T} `{!Array ts T} (isfree : T → bool) (zero : T) (max : nat)
    (next : ts → Z) (set_next : Z → ts → ts) : Srv ts nat :=
  n ← get next;
  r ← free_from isfree (Z.of_nat max) (u32 (n - 1)) (2 * max) n;
  match r with
  | Some i =>
      poke i (λ _, zero);;
      update (set_next (Z.of_nat i + 1));;
      mret i
  | None => halt
  end.

Definition get_free_ascb : Srv ts nat :=
  get_free (λ a, bool_decide (firstThread a = None)) (As 0 pagedbyBiElfLoader None) MAX_NUM_SPACES
    next_as_idx (λ n s, s <| next_as_idx := n |>).

Definition get_free_tcb : Srv ts nat :=
  get_free (λ t, bool_decide (as_ t = None)) (Thread 0 0 None None None) MAX_NUM_THREADS
    next_thread_idx (λ n s, s <| next_thread_idx := n |>).

Definition get_free_listener : Srv ts nat :=
  get_free (λ l, L4_IsNilThread (listeningThread l)) (Listener 0 None) MAX_NUM_LISTENERS
    next_listener_idx (λ n s, s <| next_listener_idx := n |>).

(** Is [id] the local id of a thread of the chain at [cur]? *)
Fixpoint has_localid (fuel : nat) (id : Z) (cur : option nat) : Srv ts bool :=
  match cur with
  | None => mret false
  | Some c =>
      match fuel with
      | O => spins
      | S fuel =>
          l ← peek localid c;
          if l =? id then mret true else n ← peek nextThread c; has_localid fuel id n
      end
  end.

Fixpoint localid_from (fuel : nat) (space : nat) (id last : Z) : Srv ts Z :=
  if id <? last then
    match fuel with
    | O => spins
    | S fuel =>
        cur ← peek firstThread space;
        used ← has_localid MAX_NUM_THREADS id cur;
        if (used : bool) then localid_from fuel space (u32 (id + utcb_size)) last else mret id
    end
  else mret L4_nilthread.

Definition get_free_localid (space : nat) : Srv ts Z :=
  area ← peek utcbarea space;
  let utcbareasize := L4_Size area in
  let utcbareastart := L4_Address area in
  localid_from (Z.to_nat utcbareasize) space utcbareastart (u32 (utcbareasize + utcbareastart)).

(** * Looking up and deleting threads *)

Definition find_tcb (threadid : Z) : Srv ts (option nat) :=
  get (λ s, fst <$> list_find (λ t, globalid t = threadid) (threads s)).

(** The listeners of a chain are marked as free. *)
Fixpoint free_listeners (fuel : nat) (cur : option nat) : Srv ts unit :=
  match cur with
  | None => mret tt
  | Some l =>
      match fuel with
      | O => spins
      | S fuel =>
          poke l (λ x, x <| listeningThread := L4_nilthread |>);;
          n ← peek nextListener l; free_listeners fuel n
      end
  end.

(** The thread of the chain before [thread], or the last one. *)
Fixpoint thread_before (fuel : nat) (thread : nat) (cur : nat) : Srv ts nat :=
  n ← peek nextThread cur;
  match n with
  | None => mret cur
  | Some i =>
      if (i =? thread)%nat then mret cur else
      match fuel with O => spins | S fuel => thread_before fuel thread i end
  end.

Definition delete_tcb (thread : nat) : Srv ts unit :=
  space ← peek as_ thread;
  fl ← peek firstListener thread;
  free_listeners MAX_NUM_LISTENERS fl;;
  sp ← follow space;
  ft ← peek firstThread sp;
  n ← peek nextThread thread;
  (if decide (ft = Some thread) then poke sp (λ a, a <| firstThread := n |>)
   else
     c ← follow ft;
     b ← thread_before MAX_NUM_THREADS thread c;
     poke b (λ t, t <| nextThread := n |>));;
  poke thread (λ t, t <| nextThread := None |> <| as_ := None |>).

Definition get_free_threadid : Srv ts Z :=
  n ← get next_thread_no;
  update (λ s, s <| next_thread_no ::= λ n, u32 (n + 1) |>);;
  mret (L4_GlobalId n 1).

(** Asks the locator until it knows the pager. *)
Fixpoint get_apppager (fuel : nat) : Srv ts Z :=
  id ← get apppagerid;
  if L4_IsNilThread id then
    match fuel with
    | O => spins
    | S fuel =>
        update (λ s, s <| apppagerid := locate (located s) |> <| located ::= S |>);;
        get_apppager fuel
    end
  else mret id.

(** * The calls *)

(** [tries] bounds the requests to the locator. *)
Definition startTask (tries : nat) (path : list Z) : Srv ts Z :=
  thread ← get_free_tcb;
  space ← get_free_ascb;
  poke space (λ a, a <| firstThread := Some thread |>);;
  poke thread (λ t, t <| as_ := Some space |>);;
  threadId ← get_free_threadid;
  poke thread (λ t, t <| globalid := threadId |>);;
  let kiparea := L4_FpageLog2 2952790016 14 in
  let area := L4_FpageLog2 my_local_id (utcb_area_size_log2 + 1) in
  poke space (λ a, a <| utcbarea := area |>);;
  poke thread (λ t, t <| localid := L4_Address area |>);;
  request (ThreadControl threadId threadId myself L4_nilthread (2 ^ 32 - 1));;
  request (SpaceControl threadId 0 kiparea area L4_anythread);;
  c ← follow (head path);
  (if negb (c =? 47) then
     poke space (λ a, a <| pagedby := pagedbyBiElfLoader |>);;
     l ← peek localid thread;
     request (ThreadControl threadId threadId L4_nilthread ram_dsm_id l);;
     request (BiElf_associateImage threadId (u32 (i8 c)))
   else
     poke space (λ a, a <| pagedby := pagedbyAppPager |>);;
     pagerid ← get_apppager tries;
     l ← peek localid thread;
     request (ThreadControl threadId threadId L4_nilthread pagerid l);;
     request (AppPager_associateImage pagerid threadId (tail path)));;
  mret threadId.

(** [IF_TASK_waitTid_reply] to every listener of a chain. *)
Fixpoint notify (fuel : nat) (cur : option nat) : Srv ts unit :=
  match cur with
  | None => mret tt
  | Some l =>
      match fuel with
      | O => spins
      | S fuel =>
          t ← peek listeningThread l;
          request (waitTid_reply t 0);;
          n ← peek nextListener l; notify fuel n
      end
  end.

Definition kill (tries : nat) (thread : Z) : Srv ts unit :=
  r ← find_tcb thread;
  match r with
  | None => halt
  | Some tcb =>
      request (ThreadControl thread L4_nilthread L4_nilthread L4_nilthread (2 ^ 32 - 1));;
      a ← peek as_ tcb;
      sp ← follow a;
      pg ← peek pagedby sp;
      onlyif (bool_decide (pg = pagedbyAppPager))
        (p ← get_apppager tries; request (AppPager_deleteAssociation p thread));;
      fl ← peek firstListener tcb;
      notify MAX_NUM_LISTENERS fl;;
      delete_tcb tcb
  end.

(** [None]: the reply is sent when the thread is killed. *)
Definition waitTid (caller thread : Z) : Srv ts (option Z) :=
  r ← find_tcb thread;
  match r with
  | None => mret (Some (2 ^ 32 - 1))
  | Some tcb =>
      l ← get_free_listener;
      poke l (λ x, x <| listeningThread := caller |>);;
      fl ← peek firstListener tcb;
      poke l (λ x, x <| nextListener := fl |>);;
      poke tcb (λ t, t <| firstListener := Some l |>);;
      mret None
  end.

Definition createThread (tries : nat) (caller_id : Z) : Srv ts Z :=
  r ← find_tcb caller_id;
  caller ← follow r;
  a ← peek as_ caller;
  newthreadid ← get_free_threadid;
  newthread ← get_free_tcb;
  n ← peek nextThread caller;
  poke newthread (λ t, t <| nextThread := n |>);;
  poke caller (λ t, t <| nextThread := Some newthread |>);;
  poke newthread (λ t, t <| globalid := newthreadid |>);;
  space ← follow a;
  l ← get_free_localid space;
  poke newthread (λ t, t <| localid := l |>);;
  poke newthread (λ t, t <| as_ := Some space |>);;
  request (ThreadControl newthreadid caller_id myself ram_dsm_id l);;
  pg ← peek pagedby space;
  c ← peek globalid caller;
  (match pg with
   | pagedbyBiElfLoader => request (BiElf_copyAssociation c newthreadid)
   | pagedbyAppPager => p ← get_apppager tries; request (AppPager_copyAssociation p c newthreadid)
   end);;
  mret newthreadid.

Definition getThreadStatus (thread : Z) : Srv ts Z := mret 0.
End taskserver.
