(* ===== verification/TaskServerSpec.v ===== *)
(** The task server keeps its tables: each address space has the chain of its threads,
    each thread the chain of the clients that wait for it. *)

From S2P Require Import Prelude Machine Server L4Types Links TaskServer.

(** * Finding a free slot *)

Section find.
Context {T : Type} `{!Array ts T} (isfree : T → bool) (max : Z).
Implicit Types (s : ts) (i stop : Z) (k fuel : nat).

(** The slot after [k] rounds from [i]. *)
Definition cyc i k : Z := (i + Z.of_nat k) mod max.

Definition busy s i : Prop := isfree <$> cells s !! Z.to_nat i = Some false.

Lemma cyc_S i k : 0 < max → cyc ((i + 1) mod max) k = cyc i (S k).
Proof. intros. unfold cyc. rewrite Zplus_mod_idemp_l. f_equal. lia. Qed.

Lemma free_from_busy stop fuel i s k :
  0 ≤ i < max → (k ≤ fuel)%nat →
  (∀ j, (j < k)%nat → cyc i j ≠ stop ∧ busy s (cyc i j)) →
  free_from isfree max stop fuel i s = free_from isfree max stop (fuel - k) (cyc i k) s.
Proof.
  revert fuel i. induction k as [|k IH]; intros fuel i Hi Hk H.
  - unfold cyc. rewrite Z.add_0_r, Z.mod_small by lia. by rewrite Nat.sub_0_r.
  - destruct fuel as [|fuel]; [lia|]. simpl.
    destruct (H 0%nat) as [Hne Hb]; [lia|]. unfold cyc in Hne, Hb.
    rewrite Z.add_0_r, Z.mod_small in Hne, Hb by lia. rewrite (proj2 (Z.eqb_neq _ _) Hne).
    unfold mbind, Srv_bind, peek. unfold busy in Hb.
    destruct (cells s !! Z.to_nat i) as [x|]; [|done]. simpl in Hb. simplify_eq. rewrite Hb.
    rewrite IH; [|apply Z.mod_pos_bound; lia|lia|].
    + by rewrite cyc_S by lia.
    + intros j Hj. rewrite cyc_S by lia. apply H. lia.
Qed.

Lemma free_from_found stop fuel i s k x :
  0 ≤ i < max → (k < fuel)%nat →
  (∀ j, (j < k)%nat → cyc i j ≠ stop ∧ busy s (cyc i j)) →
  cyc i k ≠ stop → cells s !! Z.to_nat (cyc i k) = Some x → isfree x = true →
  free_from isfree max stop fuel i s = Done (Some (Z.to_nat (cyc i k))) s.
Proof.
  intros Hi Hk H Hne Hx Hf. rewrite (free_from_busy _ _ _ _ k) by (done || lia).
  destruct (fuel - k)%nat as [|f] eqn:E; [lia|]. simpl. rewrite (proj2 (Z.eqb_neq _ _) Hne).
  unfold mbind, Srv_bind, peek. by rewrite Hx, Hf.
Qed.

Lemma free_from_none stop fuel i s k :
  0 ≤ i < max → (k ≤ fuel)%nat →
  (∀ j, (j < k)%nat → cyc i j ≠ stop ∧ busy s (cyc i j)) →
  cyc i k = stop → free_from isfree max stop fuel i s = Done None s.
Proof.
  intros Hi Hk H Heq. rewrite (free_from_busy _ _ _ _ k) by (done || lia).
  rewrite Heq. destruct (fuel - k)%nat; simpl; by rewrite Z.eqb_refl.
Qed.

Lemma free_from_spins stop fuel i s :
  0 ≤ i < max → (∀ j, cyc i j ≠ stop ∧ busy s (cyc i j)) →
  free_from isfree max stop fuel i s = Spins.
Proof.
  intros Hi H. rewrite (free_from_busy _ _ _ _ fuel) by (done || auto).
  rewrite Nat.sub_diag. simpl. destruct (H fuel) as [Hne _]. by rewrite (proj2 (Z.eqb_neq _ _) Hne).
Qed.
End find.

Section get_free.
Context {T : Type} `{!Array ts T} (isfree : T → bool) (zero : T) (max : nat).
Context (next : ts → Z) (set_next : Z → ts → ts).
Implicit Types s : ts.

(** How many slots a search from [n] looks at: all but the one before [n], but all of
    them from 0, where [next - 1] wraps around. *)
Definition searched (n : Z) : nat := if n =? 0 then max else (max - 1)%nat.

Lemma stop_ne n k :
  (0 < max)%nat → Z.of_nat max < 2 ^ 32 → 0 ≤ n < Z.of_nat max → (k < searched n)%nat →
  cyc (Z.of_nat max) n k ≠ u32 (n - 1).
Proof.
  intros Hm Hmax Hn Hk. unfold searched in Hk. unfold cyc, u32.
  destruct (Z.eqb_spec n 0) as [->|Hn0].
  - rewrite Z.mod_small by lia. change (0 - 1) with (-1). change (-1 mod 2 ^ 32) with (2 ^ 32 - 1). lia.
  - rewrite (Z.mod_small (n - 1)) by lia. destruct (decide (n + Z.of_nat k < Z.of_nat max)).
    + rewrite Z.mod_small by lia. lia.
    + replace (n + Z.of_nat k) with (n + Z.of_nat k - Z.of_nat max + 1 * Z.of_nat max) by lia.
      rewrite Z.mod_add, Z.mod_small by lia. lia.
Qed.

Lemma get_free_spec s :
  (0 < max)%nat → Z.of_nat max < 2 ^ 32 → length (cells s) = max → 0 ≤ next s ≤ Z.of_nat max →
  let slot k := Z.to_nat (cyc (Z.of_nat max) (next s) k) in
  (next s = Z.of_nat max → get_free isfree zero max next set_next s = Undefined) ∧
  (next s < Z.of_nat max →
    (∀ k x, (k < searched (next s))%nat → cells s !! slot k = Some x → isfree x = true →
      (∀ j, (j < k)%nat → isfree <$> cells s !! slot j = Some false) →
      get_free isfree zero max next set_next s =
        Done (slot k) (set_next (Z.of_nat (slot k) + 1) (set_cells (<[slot k := zero]> (cells s)) s))) ∧
    ((∀ k, (k < searched (next s))%nat → isfree <$> cells s !! slot k = Some false) →
      get_free isfree zero max next set_next s = if next s =? 0 then Spins else Halted s)).
Proof.
  intros Hm Hmax Hlen Hn slot. split; [intros En|intros Hlt; split].
  - unfold get_free, get. unfold mbind at 1, Srv_bind at 1. rewrite En.
    replace (2 * max)%nat with (S (2 * max - 1)) by lia. cbn [free_from].
    rewrite (proj2 (Z.eqb_neq _ _)) by (rewrite u32_id by lia; lia).
    unfold mbind, Srv_bind, peek. by rewrite (proj2 (lookup_ge_None (cells s) _)) by lia.
  - intros k x Hk Hx Hf Hbusy. unfold get_free, get. unfold mbind at 1, Srv_bind at 1.
    assert (k < 2 * max)%nat by (unfold searched in Hk; destruct (next s =? 0); lia).
    unfold mbind at 1, Srv_bind at 1.
    rewrite (free_from_found _ _ _ _ _ _ k x); try done; try lia.
    + unfold mbind, Srv_bind, poke. fold (slot k). by rewrite Hx.
    + intros j Hj. split; [apply stop_ne; lia|by apply Hbusy].
    + apply stop_ne; done || lia.
  - intros Hbusy. unfold get_free, get. unfold mbind at 1, Srv_bind at 1.
    unfold mbind at 1, Srv_bind at 1. unfold searched in Hbusy.
    destruct (Z.eqb_spec (next s) 0) as [E0|E0].
    + rewrite free_from_spins; [done|lia|]. intros j. set (j' := Z.to_nat (Z.of_nat j mod Z.of_nat max)).
      assert (Hj' : (j' < max)%nat) by (pose proof (Z.mod_pos_bound (Z.of_nat j) (Z.of_nat max)); lia).
      assert (Ej : cyc (Z.of_nat max) (next s) j = cyc (Z.of_nat max) (next s) j').
      { unfold cyc, j'. rewrite E0, !Z.add_0_l, Z2Nat.id by (apply Z.mod_pos_bound; lia).
        by rewrite Z.mod_mod by lia. }
      rewrite Ej. split; [|by apply Hbusy]. apply stop_ne; try lia. unfold searched.
      by rewrite E0, Z.eqb_refl.
    + rewrite (free_from_none _ _ _ _ _ _ (max - 1)); [done|lia|lia| |].
      * intros j Hj. split; [|by apply Hbusy]. apply stop_ne; try lia. unfold searched.
        by rewrite (proj2 (Z.eqb_neq _ _) E0).
      * unfold cyc. rewrite u32_id by lia.
        replace (next s + Z.of_nat (max - 1)) with (next s - 1 + 1 * Z.of_nat max) by lia.
        rewrite Z.mod_add, Z.mod_small by lia. done.
Qed.
End get_free.

(** The first of the numbers below [n] with a property. *)
Lemma first_such (P : nat → Prop) `{∀ k, Decision (P k)} n :
  (∃ k, (k < n)%nat ∧ P k) → ∃ k, (k < n)%nat ∧ P k ∧ ∀ j, (j < k)%nat → ¬ P j.
Proof.
  intros (k&Hk&HP). revert Hk HP. induction (lt_wf k) as [k _ IH]. intros Hk HP.
  destruct (decide (Exists P (seq 0 k))) as [Hex|Hno].
  - apply Exists_exists in Hex as (j&Hj%elem_of_seq&HPj). apply (IH j); done || lia.
  - exists k. split_and!; [done|done|]. intros j Hj HPj. apply Hno, Exists_exists.
    exists j. split; [apply elem_of_seq; lia|done].
Qed.

(** A slot of the array [l] that a search from [n] finds. *)
Definition available {T} (isfree : T → bool) (l : list T) (n : Z) : Prop :=
  0 ≤ n < Z.of_nat (length l) ∧
  ∃ k, (k < searched (length l) n)%nat ∧
    isfree <$> l !! Z.to_nat (cyc (Z.of_nat (length l)) n k) = Some true.

Lemma get_free_runs {T} `{!Array ts T} isfree zero max next set_next (Q : nat → ts → Prop) s :
  length (cells s) = max → Z.of_nat max < 2 ^ 32 → available isfree (cells s) (next s) →
  (∀ i x, cells s !! i = Some x → isfree x = true →
    Q i (set_next (Z.of_nat i + 1) (set_cells (<[i := zero]> (cells s)) s))) →
  runs (get_free isfree zero max next set_next) Q s.
Proof.
  intros Hl Hmax [Hn Hex] HQ.
  apply (first_such (λ k, isfree <$> cells s !! Z.to_nat (cyc (Z.of_nat (length (cells s))) (next s) k) = Some true)) in Hex
    as (k&Hk&Hf&Hbusy).
  destruct (get_free_spec isfree zero max next set_next s) as [_ [Hrun _]]; [lia|done|done|lia|lia|].
  rewrite Hl in *. destruct (cells s !! _) as [x|] eqn:Ex in Hf; [|done].
  assert (isfree x = true) as Hfx by (simpl in Hf; congruence).
  unfold runs. rewrite (Hrun k x Hk Ex Hfx).
  - by apply (HQ _ x).
  - intros j Hj. specialize (Hbusy j Hj).
    assert (is_Some (cells s !! Z.to_nat (cyc (Z.of_nat max) (next s) j))) as [y Hy].
    { apply lookup_lt_is_Some_2. unfold cyc. pose proof (Z.mod_pos_bound (next s + Z.of_nat j) (Z.of_nat max)). lia. }
    rewrite Hy in *. simpl in *. destruct (isfree y); [done|done].
Qed.

(** * The tables *)

Definition tnext (th : list thread_t) (t : nat) : option (option nat) := nextThread <$> th !! t.
Definition lnext (li : list listener_t) (l : nat) : option (option nat) := nextListener <$> li !! l.
(** The address space of a thread; none when the slot is free. *)
Definition home (th : list thread_t) (t : nat) : option nat := th !! t ≫= as_.

(** [ch sp]: the threads of the space [sp]; [lc t]: the listeners of the thread [t]. *)
Record tables_ok (sp : list as_t) (th : list thread_t) (li : list listener_t)
    (ch lc : nat → list nat) : Prop := {
  to_first j a : sp !! j = Some a → firstThread a = head (ch j);
  to_seg j : (j < length sp)%nat → seg (tnext th) (ch j) None;
  to_nodup j : (j < length sp)%nat → NoDup (ch j);
  to_member j t : (j < length sp)%nat → t ∈ ch j ↔ home th t = Some j;
  to_home t j : home th t = Some j → (j < length sp)%nat;
  to_lfirst t x : th !! t = Some x → is_Some (as_ x) → firstListener x = head (lc t);
  to_lseg t : is_Some (home th t) → seg (lnext li) (lc t) None;
  to_lnodup t : is_Some (home th t) → NoDup (lc t);
  to_busy t l : is_Some (home th t) → l ∈ lc t → ∃ x, li !! l = Some x ∧ listeningThread x ≠ 0;
  to_apart t t' l : is_Some (home th t) → is_Some (home th t') → l ∈ lc t → l ∈ lc t' → t = t';
}.

Definition upd (f : nat → list nat) (k : nat) (l : list nat) : nat → list nat :=
  λ x, if decide (x = k) then l else f x.

Lemma upd_eq f k l : upd f k l k = l.
Proof. unfold upd. by rewrite decide_True. Qed.
Lemma upd_ne f k l x : x ≠ k → upd f k l x = f x.
Proof. intros. unfold upd. by rewrite decide_False. Qed.

Section tables.
Implicit Types (sp : list as_t) (th : list thread_t) (li : list listener_t) (ch lc : nat → list nat).

Lemma home_lookup th t x : th !! t = Some x → home th t = as_ x.
Proof. intros E. unfold home. by rewrite E. Qed.

(** A slot that is free is on no chain. *)
Lemma free_not_member sp th li ch lc i j :
  tables_ok sp th li ch lc → home th i = None → (j < length sp)%nat → i ∉ ch j.
Proof. intros Hok Hi Hj Hin. apply (to_member _ _ _ _ _ Hok) in Hin; [|done]. congruence. Qed.

(** Changing what the chains do not depend on. *)
Lemma tables_ok_shape sp sp' th th' li ch lc :
  tables_ok sp th li ch lc → firstThread <$> sp' = firstThread <$> sp →
  (λ t, (as_ t, nextThread t, firstListener t)) <$> th' = (λ t, (as_ t, nextThread t, firstListener t)) <$> th →
  tables_ok sp' th' li ch lc.
Proof.
  intros Hok Hsp Hth.
  assert (length sp' = length sp) as Hl by (rewrite <- (length_fmap firstThread sp'), Hsp; apply length_fmap).
  assert (Ht : ∀ t, (λ t, (as_ t, nextThread t, firstListener t)) <$> th' !! t
                  = (λ t, (as_ t, nextThread t, firstListener t)) <$> th !! t).
  { intros t. by rewrite <- !list_lookup_fmap, Hth. }
  assert (Hn : ∀ t, tnext th' t = tnext th t).
  { intros t. unfold tnext. specialize (Ht t). destruct (th' !! t), (th !! t); simpl in *; congruence. }
  assert (Hh : ∀ t, home th' t = home th t).
  { intros t. unfold home. specialize (Ht t). destruct (th' !! t), (th !! t); simpl in *; congruence. }
  destruct Hok as [h1 h2 h3 h4 h5 h6 h7 h8 h9 h10]. split; rewrite ?Hl; intros *; rewrite ?Hh; eauto.
  - intros Ha. assert (firstThread <$> sp !! j = Some (firstThread a)) as Hj.
    { by rewrite <- list_lookup_fmap, <- Hsp, list_lookup_fmap, Ha. }
    destruct (sp !! j) as [a'|] eqn:E; [|done].
    simpl in Hj. injection Hj as Hj. rewrite <- Hj. by apply h1.
  - intros Hj. eapply seg_ext; [|by apply h2]. auto.
  - intros Hx Hs. specialize (Ht t). rewrite Hx in Ht. destruct (th !! t) as [y|] eqn:E; [|done].
    simpl in Ht. injection Ht as Ht1 Ht2 Ht3. rewrite Ht3. apply (h6 t); [done|]. by rewrite <- Ht1.
Qed.

Lemma fmap_insert_same {A B} (f : A → B) (l : list A) i x y :
  l !! i = Some x → f y = f x → f <$> <[i := y]> l = f <$> l.
Proof. intros Hx Hf. rewrite list_fmap_insert, Hf. apply list_insert_id. by rewrite list_lookup_fmap, Hx. Qed.

(** Clearing a free slot of the threads. *)
Lemma tables_ok_tcb sp th li ch lc i x z :
  tables_ok sp th li ch lc → th !! i = Some x → as_ x = None → as_ z = None →
  tables_ok sp (<[i := z]> th) li ch lc.
Proof.
  intros Hok Hx Hax Haz. pose proof (lookup_lt_Some _ _ _ Hx) as Hlt.
  assert (Hh : ∀ t, home (<[i := z]> th) t = home th t).
  { intros t. unfold home. destruct (decide (t = i)) as [->|].
    - rewrite list_lookup_insert_eq, Hx by done. simpl. congruence.
    - by rewrite list_lookup_insert_ne by done. }
  assert (Hi : home th i = None) by (by rewrite (home_lookup _ _ _ Hx)).
  pose proof (λ j, free_not_member _ _ _ _ _ i j Hok Hi) as Hnm.
  destruct Hok as [h1 h2 h3 h4 h5 h6 h7 h8 h9 h10]. split; intros *; rewrite ?Hh; eauto.
  - intros Hj. eapply seg_ext; [|by apply h2]. intros t Ht. unfold tnext.
    rewrite list_lookup_insert_ne; [done|]. intros ->. by apply (Hnm j Hj).
  - intros Hy Hs. destruct (decide (t = i)) as [->|].
    + rewrite list_lookup_insert_eq in Hy by done. simplify_eq. rewrite Haz in Hs. by destruct Hs.
    + rewrite list_lookup_insert_ne in Hy by done. by apply h6.
Qed.

(** A free space gets its first thread, which was free. *)
Lemma tables_ok_start sp th li ch lc i j x a z b :
  tables_ok sp th li ch lc →
  th !! i = Some x → as_ x = None → sp !! j = Some a → firstThread a = None →
  as_ z = Some j → nextThread z = None → firstListener z = None → firstThread b = Some i →
  tables_ok (<[j := b]> sp) (<[i := z]> th) li (upd ch j [i]) (upd lc i []).
Proof.
  intros Hok Hx Hax Ha Haf Hz1 Hz2 Hz3 Hb.
  pose proof (lookup_lt_Some _ _ _ Hx) as Hlt. pose proof (lookup_lt_Some _ _ _ Ha) as Hltj.
  assert (Hi : home th i = None) by (by rewrite (home_lookup _ _ _ Hx)).
  assert (Hcj : ch j = []).
  { pose proof (to_first _ _ _ _ _ Hok _ _ Ha) as E. rewrite Haf in E. by destruct (ch j). }
  assert (Hno : ∀ t, home th t ≠ Some j).
  { intros t Ht. apply (to_member _ _ _ _ _ Hok) in Ht; [|done]. rewrite Hcj in Ht. by apply not_elem_of_nil in Ht. }
  assert (Hh : ∀ t, home (<[i := z]> th) t = if decide (t = i) then Some j else home th t).
  { intros t. unfold home. case_decide as E; [subst t|].
    - rewrite list_lookup_insert_eq by done. done.
    - by rewrite list_lookup_insert_ne by done. }
  pose proof (λ k, free_not_member _ _ _ _ _ i k Hok Hi) as Hnm.
  destruct Hok as [h1 h2 h3 h4 h5 h6 h7 h8 h9 h10].
  split; rewrite ?length_insert; intros *; rewrite ?Hh; unfold upd.
  - intros Ha'. case_decide as E; [subst j0|].
    + rewrite list_lookup_insert_eq in Ha' by done. by simplify_eq.
    + rewrite list_lookup_insert_ne in Ha' by done. by apply h1.
  - intros Hj. case_decide as E; [subst j0|].
    + simpl. split; [|done]. unfold tnext. rewrite list_lookup_insert_eq by done. simpl. by rewrite Hz2.
    + eapply seg_ext; [|by apply h2]. intros t Ht. unfold tnext. rewrite list_lookup_insert_ne; [done|].
      intros ->. by apply (Hnm j0 Hj).
  - intros Hj. case_decide; [by apply NoDup_singleton|by apply h3].
  - intros Hj. case_decide as E; [subst j0|].
    + rewrite list_elem_of_singleton. case_decide; [done|]. split; [done|]. intros Ht. by apply Hno in Ht.
    + rewrite h4 by done. case_decide as E'; [subst t|done]. rewrite Hi. split; congruence.
  - case_decide; [by intros [= <-]|]. apply h5.
  - intros Hy Hs. case_decide as E; [subst t|].
    + rewrite list_lookup_insert_eq in Hy by done. simplify_eq. by rewrite Hz3.
    + rewrite list_lookup_insert_ne in Hy by done. by apply h6.
  - case_decide; [done|]. apply h7.
  - case_decide; [intros _; apply NoDup_nil_2|]. apply h8.
  - case_decide; [|apply h9]. intros _ Hl. by apply not_elem_of_nil in Hl.
  - repeat case_decide; try (intros ?? Hl; by apply not_elem_of_nil in Hl).
    + intros ??? Hl. by apply not_elem_of_nil in Hl.
    + apply h10.
Qed.

(** The thread [i], which was free, enters the chain of [c] behind it. *)
Lemma tables_ok_create sp th li ch lc i j c x y z w l1 l2 :
  tables_ok sp th li ch lc → i ≠ c → ch j = l1 ++ c :: l2 →
  th !! i = Some x → as_ x = None → th !! c = Some y → as_ y = Some j →
  as_ z = Some j → nextThread z = nextThread y → firstListener z = None →
  as_ w = Some j → nextThread w = Some i → firstListener w = firstListener y →
  tables_ok sp (<[c := w]> (<[i := z]> th)) li (upd ch j (l1 ++ c :: i :: l2)) (upd lc i []).
Proof.
  intros Hok Hic Hch Hx Hax Hy Hay Hz1 Hz2 Hz3 Hw1 Hw2 Hw3.
  pose proof (lookup_lt_Some _ _ _ Hx) as Hlt. pose proof (lookup_lt_Some _ _ _ Hy) as Hltc.
  assert (Hi : home th i = None) by (by rewrite (home_lookup _ _ _ Hx)).
  assert (Hc : home th c = Some j) by (by rewrite (home_lookup _ _ _ Hy)).
  pose proof (to_home _ _ _ _ _ Hok _ _ Hc) as Hltj.
  assert (Hz : ∀ t, (<[c := w]> (<[i := z]> th)) !! t =
    if decide (t = c) then Some w else if decide (t = i) then Some z else th !! t).
  { intros t. case_decide; [subst; by rewrite list_lookup_insert_eq by (by rewrite length_insert)|].
    rewrite list_lookup_insert_ne by done. case_decide; [subst; by rewrite list_lookup_insert_eq|].
    by rewrite list_lookup_insert_ne by done. }
  assert (Hh : ∀ t, home (<[c := w]> (<[i := z]> th)) t = if decide (t = i) then Some j else home th t).
  { intros t. unfold home at 1. rewrite Hz. repeat case_decide; subst; simpl; try congruence. done. }
  assert (Hnm : ∀ k, (k < length sp)%nat → i ∉ ch k) by (intros k Hk; by eapply free_not_member).
  pose proof (to_seg _ _ _ _ _ Hok j Hltj) as Hseg. pose proof (to_nodup _ _ _ _ _ Hok j Hltj) as Hnd.
  pose proof (Hnm j Hltj) as Hnj. rewrite Hch in Hseg, Hnd, Hnj.
  destruct Hok as [h1 h2 h3 h4 h5 h6 h7 h8 h9 h10].
  split; intros *; rewrite ?Hh; unfold upd.
  - intros Ha. case_decide as E; [subst j0|by apply h1]. rewrite (h1 _ _ Ha), Hch. by destruct l1.
  - intros Hj. case_decide as E; [subst j0|].
    + apply seg_app in Hseg as [Hl1 Hl2]. simpl in Hl2. destruct Hl2 as [Hc2 Hl2].
      apply NoDup_middle in Hnd as [Hcn Hnd].
      assert (∀ t, t ∈ l1 ++ l2 → tnext (<[c := w]> (<[i := z]> th)) t = tnext th t) as Hsame.
      { intros t Ht. unfold tnext. rewrite Hz, !decide_False; [done| |intros ->; done].
        intros ->. apply Hnj. apply elem_of_app in Ht as [|]; apply elem_of_app; [by left|right; by right]. }
      rewrite seg_app. split.
      * eapply seg_ext; [|exact Hl1]. intros t Ht. apply Hsame, elem_of_app. by left.
      * simpl. split_and!.
        -- unfold tnext. rewrite Hz, decide_True by done. simpl. by rewrite Hw2.
        -- unfold tnext in *. rewrite Hz, decide_False, decide_True by done. simpl. rewrite Hz2.
           rewrite Hy in Hc2. done.
        -- eapply seg_ext; [|exact Hl2]. intros t Ht. apply Hsame, elem_of_app. by right.
    + eapply seg_ext; [|by apply h2]. intros t Ht. unfold tnext. rewrite Hz, !decide_False; [done| |].
      * intros ->. by apply (Hnm j0 Hj).
      * intros ->. apply h4 in Ht; [|done]. congruence.
  - intros Hj. case_decide as E; [subst j0|by apply h3].
    replace (l1 ++ c :: i :: l2) with ((l1 ++ [c]) ++ i :: l2) by (by rewrite <- app_assoc).
    apply NoDup_middle. by rewrite <- !app_assoc.
  - intros Hj. case_decide as E; [subst j0|].
    + replace (l1 ++ c :: i :: l2) with ((l1 ++ [c]) ++ i :: l2) by (by rewrite <- app_assoc).
      transitivity (t = i ∨ t ∈ ch j).
      { rewrite Hch, !elem_of_app, !elem_of_cons, elem_of_nil. tauto. }
      rewrite h4 by done. case_decide as E; [subst t; rewrite Hi|]; intuition congruence.
    + rewrite h4 by done. case_decide as E'; [subst t; rewrite Hi|done]. split; congruence.
  - case_decide; [by intros [= <-]|]. apply h5.
  - intros Ht Hs. rewrite Hz in Ht. case_decide as E; [subst t|case_decide as E'; [subst t|]].
    + simplify_eq. rewrite decide_False by done. rewrite Hw3. apply h6; [done|]. by rewrite Hay.
    + simplify_eq. rewrite ?decide_True by done. by rewrite Hz3.
    + by apply h6.
  - case_decide; [done|]. apply h7.
  - case_decide; [intros _; apply NoDup_nil_2|]. apply h8.
  - case_decide; [|apply h9]. intros _ Hl. by apply not_elem_of_nil in Hl.
  - repeat case_decide; try (intros ?? Hl; by apply not_elem_of_nil in Hl).
    + intros ??? Hl. by apply not_elem_of_nil in Hl.
    + apply h10.
Qed.

(** A live thread [t] gets the listener [l], which was free, in front of the others; for
    a dead one nothing of the chains changes. *)
Lemma tables_ok_wait sp th li ch lc t l x y z w :
  tables_ok sp th li ch lc → li !! l = Some x → listeningThread x = 0 →
  th !! t = Some y → nextListener z = firstListener y → listeningThread z ≠ 0 →
  as_ w = as_ y → nextThread w = nextThread y → firstListener w = Some l →
  tables_ok sp (<[t := w]> th) (<[l := z]> li) ch (match as_ y with Some _ => upd lc t (l :: lc t) | None => lc end).
Proof.
  intros Hok Hx Hxf Hy Hz Hzb Hw1 Hw2 Hw3.
  pose proof (lookup_lt_Some _ _ _ Hx) as Hltl. pose proof (lookup_lt_Some _ _ _ Hy) as Hltt.
  assert (Hh : ∀ u, home (<[t := w]> th) u = home th u).
  { intros u. unfold home. destruct (decide (u = t)) as [->|]; [|by rewrite list_lookup_insert_ne].
    rewrite list_lookup_insert_eq, Hy by done. simpl. congruence. }
  assert (Hn : ∀ u, tnext (<[t := w]> th) u = tnext th u).
  { intros u. unfold tnext. destruct (decide (u = t)) as [->|]; [|by rewrite list_lookup_insert_ne].
    rewrite list_lookup_insert_eq, Hy by done. simpl. congruence. }
  assert (Hnl : ∀ u, is_Some (home th u) → l ∉ lc u).
  { intros u Hu Hin. destruct (to_busy _ _ _ _ _ Hok u l Hu Hin) as (x'&Hx'&Hne). congruence. }
  assert (Hsame : ∀ u k, is_Some (home th u) → k ∈ lc u → <[l := z]> li !! k = li !! k).
  { intros u k Hu Hk. rewrite list_lookup_insert_ne; [done|]. intros <-. by apply (Hnl u). }
  assert (Hseg : ∀ u, is_Some (home th u) → seg (lnext (<[l := z]> li)) (lc u) None).
  { intros u Hu. eapply seg_ext; [|by apply Hok]. intros k Hk. unfold lnext. by rewrite (Hsame u). }
  assert (Hty : home th t = as_ y) by (by apply home_lookup).
  set (lc' := match as_ y with Some _ => upd lc t (l :: lc t) | None => lc end).
  assert (Hlc : ∀ u, is_Some (home th u) → lc' u = if decide (u = t) then l :: lc u else lc u).
  { intros u Hu. unfold lc'. destruct (as_ y) as [s|] eqn:Es.
    - unfold upd. case_decide; [by subst u|done].
    - rewrite decide_False; [done|]. intros ->. rewrite Hty in Hu. by destruct Hu. }
  pose proof Hok as [h1 h2 h3 h4 h5 h6 h7 h8 h9 h10].
  split; intros *; rewrite ?Hh; auto.
  - intros Hj. eapply seg_ext; [|by apply h2]. auto.
  - apply h5.
  - intros Hu Hs. assert (is_Some (home th t0)) as Hu'.
    { rewrite <- Hh. by rewrite (home_lookup _ _ _ Hu). }
    rewrite Hlc by done. case_decide as E; [subst t0|].
    + rewrite list_lookup_insert_eq in Hu by done. by simplify_eq.
    + rewrite list_lookup_insert_ne in Hu by done. by apply h6.
  - intros Hu. rewrite Hlc by done. case_decide as E; [subst t0|by apply Hseg].
    simpl. split; [|by apply Hseg]. unfold lnext. rewrite list_lookup_insert_eq by done. simpl.
    rewrite Hz. rewrite Hty in Hu. rewrite (h6 _ _ Hy Hu). by rewrite head_or_None.
  - intros Hu. rewrite Hlc by done. case_decide; [subst t0|by apply h8].
    apply NoDup_cons. split; [by apply Hnl|by apply h8].
  - intros Hu. rewrite Hlc by done. intros Hin. destruct (decide (l0 = l)) as [->|Hne].
    + exists z. by rewrite list_lookup_insert_eq by done.
    + rewrite list_lookup_insert_ne by done. apply (h9 t0); [done|].
      case_decide; [|done]. by apply elem_of_cons in Hin as [|].
  - intros Hu Hu'. rewrite !Hlc by done. intros Hin Hin'.
    destruct (decide (l0 = l)) as [->|Hne].
    + case_decide as E1; case_decide as E2; subst; try done; exfalso; [by apply (Hnl t')|by apply (Hnl t0)|by apply (Hnl t0)].
    + assert (∀ u, l0 ∈ (if decide (u = t) then l :: lc u else lc u) → l0 ∈ lc u) as Hold.
      { intros u. destruct (decide (u = t)); [|done]. intros [?|Hm]%elem_of_cons; [congruence|exact Hm]. }
      apply (h10 _ _ l0); auto.
Qed.

(** The thread [t] leaves its chain, and its listeners are free. *)
Lemma tables_ok_delete sp sp' th th' li li' ch lc t j l1 l2 :
  tables_ok sp th li ch lc → home th t = Some j → ch j = l1 ++ t :: l2 →
  (∀ k, k ≠ j → firstThread <$> sp' !! k = firstThread <$> sp !! k) →
  firstThread <$> sp' !! j = Some (head (l1 ++ l2)) → length sp' = length sp →
  (∀ u, home th' u = if decide (u = t) then None else home th u) →
  (∀ u, u ≠ t → firstListener <$> th' !! u = firstListener <$> th !! u) →
  (∀ p, last l1 = Some p → tnext th' p = Some (head l2)) →
  (∀ u, u ≠ t → last l1 ≠ Some u → tnext th' u = tnext th u) →
  (∀ l, nextListener <$> li' !! l = nextListener <$> li !! l) →
  (∀ l, l ∉ lc t → li' !! l = li !! l) →
  tables_ok sp' th' li' (upd ch j (l1 ++ l2)) lc.
Proof.
  intros Hok Ht Hch Hsp Hspj Hlen Hh Hfl Hp Hn Hln Hli.
  pose proof (to_home _ _ _ _ _ Hok _ _ Ht) as Hltj.
  pose proof (to_seg _ _ _ _ _ Hok j Hltj) as Hseg. pose proof (to_nodup _ _ _ _ _ Hok j Hltj) as Hnd.
  rewrite Hch in Hseg, Hnd. apply NoDup_middle in Hnd as Hnd'. destruct Hnd' as [Htn Hnd'].
  assert (Hlive : ∀ u, is_Some (home th' u) → u ≠ t ∧ is_Some (home th u)).
  { intros u. rewrite Hh. case_decide; [by intros []|done]. }
  assert (Hsame : ∀ u l, u ≠ t → is_Some (home th u) → l ∈ lc u → li' !! l = li !! l).
  { intros u l Hu Hs Hin. apply Hli. intros Hin'. apply Hu.
    by apply (to_apart _ _ _ _ _ Hok u t l Hs ltac:(by rewrite Ht)). }
  pose proof Hok as [h1 h2 h3 h4 h5 h6 h7 h8 h9 h10].
  assert (Hother : ∀ k, (k < length sp)%nat → k ≠ j → ∀ u, u ∈ ch k → u ≠ t ∧ last l1 ≠ Some u).
  { intros k Hk Hkj u Hu. apply h4 in Hu; [|done]. split; [congruence|]. intros Hlast.
    assert (u ∈ ch j) as Hj.
    { rewrite Hch. apply elem_of_app. left. apply last_Some in Hlast as [l' ->].
      apply elem_of_app. right. by apply list_elem_of_here. }
    apply h4 in Hj; [congruence|done]. }
  split; rewrite ?Hlen; intros *; unfold upd.
  - intros Ha. case_decide as E; [subst j0; rewrite Ha in Hspj; by simplify_eq/=|].
    specialize (Hsp j0 E). rewrite Ha in Hsp. destruct (sp !! j0) as [a'|] eqn:Ea; [|done].
    simpl in Hsp. injection Hsp as ->. by apply h1.
  - intros Hj. case_decide as E; [subst j0|].
    + set (nxt := λ u, if decide (u = t) then tnext th t else tnext th' u).
      assert (seg nxt (l1 ++ l2) None) as Hs.
      { eapply seg_remove; [exact Hnd|exact Hseg| |].
        - intros p Hlast. unfold nxt. rewrite decide_False; [by rewrite head_or_None; apply Hp|].
          intros ->. apply Htn, elem_of_app. left. apply last_Some in Hlast as [l' ->].
          apply elem_of_app. right. by apply list_elem_of_here.
        - intros u Hu. unfold nxt. case_decide; [by subst u|by apply Hn]. }
      eapply seg_ext; [|exact Hs]. intros u Hu. unfold nxt. rewrite decide_False; [done|]. by intros ->.
    + eapply seg_ext; [|by apply h2]. intros u Hu. destruct (Hother j0 Hj E u Hu). by apply Hn.
  - intros Hj. case_decide; [done|by apply h3].
  - intros Hj. rewrite Hh. case_decide as E; [subst j0|].
    + case_decide as E; [subst t0; done|]. rewrite <- h4, Hch by done.
      rewrite !elem_of_app, elem_of_cons. tauto.
    + rewrite h4 by done. case_decide as E'; [subst t0|done]. split; congruence.
  - rewrite Hh. case_decide; [done|]. apply h5.
  - intros Hx Hs. assert (is_Some (home th' t0)) as Hl%Hlive by (by rewrite (home_lookup _ _ _ Hx)).
    destruct Hl as [Hne Hl]. specialize (Hfl t0 Hne). rewrite Hx in Hfl. simpl in Hfl.
    destruct (th !! t0) as [y|] eqn:E; [|done]. simpl in Hfl. injection Hfl as ->.
    apply h6; [done|]. by rewrite (home_lookup _ _ _ E) in Hl.
  - intros [Hne Hl]%Hlive. eapply seg_ext; [|by apply h7]. intros l _. apply Hln.
  - intros [Hne Hl]%Hlive. by apply h8.
  - intros [Hne Hl]%Hlive Hin. destruct (h9 _ _ Hl Hin) as (x&Hx&?). exists x.
    by rewrite (Hsame t0).
  - intros [? ?]%Hlive [? ?]%Hlive. by apply h10.
Qed.
End tables.

(** * The loops over the chains *)

Lemma NoDup_bound (l : list nat) n : NoDup l → (∀ i, i ∈ l → (i < n)%nat) → (length l ≤ n)%nat.
Proof.
  intros Hnd Hl. rewrite <- (length_seq n 0). apply submseteq_length.
  apply NoDup_submseteq; [done|]. intros i Hi%Hl. apply elem_of_seq. lia.
Qed.

Definition reply_to (li : list listener_t) (l : nat) : call :=
  waitTid_reply (match li !! l with Some x => listeningThread x | None => 0 end) 0.

Section loops.
Context `{Platform}.
Implicit Types s : ts.

Lemma notify_spec l fuel s :
  seg (lnext (listeners s)) l None → (length l ≤ fuel)%nat →
  runs (notify fuel (head l))
    (λ _ s', s' = s <| calls := calls s ++ (reply_to (listeners s) <$> l) |>) s.
Proof.
  revert fuel s. induction l as [|k l IH]; intros fuel s Hseg Hf.
  - destruct fuel; apply runs_ret; simpl; rewrite app_nil_r; by destruct s.
  - destruct fuel as [|fuel]; [simpl in Hf; lia|]. simpl in Hseg, Hf. destruct Hseg as [Hk Hl].
    unfold lnext in Hk. destruct (listeners s !! k) as [x|] eqn:Ex; [|done]. simpl in Hk.
    simpl. apply runs_bind. eapply runs_peek; [exact Ex|]. apply runs_bind, runs_update, runs_bind.
    eapply runs_peek; [exact Ex|]. injection Hk as ->. rewrite head_or_None.
    eapply runs_mono; [apply IH; [done|lia]|]. intros _ s' ->.
    transitivity (s <| calls := (calls s ++ [waitTid_reply (listeningThread x) 0]) ++ (reply_to (listeners s) <$> l) |>); [done|].
    rewrite <- app_assoc. unfold reply_to at 2. by rewrite Ex.
Qed.

Lemma free_listeners_spec l fuel s :
  seg (lnext (listeners s)) l None → (length l ≤ fuel)%nat →
  runs (free_listeners fuel (head l))
    (λ _ s', ∃ li, s' = s <| listeners := li |> ∧ length li = length (listeners s) ∧
      (∀ k, nextListener <$> li !! k = nextListener <$> listeners s !! k) ∧
      (∀ k, k ∉ l → li !! k = listeners s !! k) ∧
      (∀ k, k ∈ l → listeningThread <$> li !! k = Some L4_nilthread)) s.
Proof.
  revert fuel s. induction l as [|k l IH]; intros fuel s Hseg Hf.
  - destruct fuel; apply runs_ret; exists (listeners s); (split; [by destruct s|]);
      split_and!; try done; intros ? Hin; by apply not_elem_of_nil in Hin.
  - destruct fuel as [|fuel]; [simpl in Hf; lia|]. simpl in Hseg, Hf. destruct Hseg as [Hk Hl].
    unfold lnext in Hk. destruct (listeners s !! k) as [x|] eqn:Ex; [|done]. simpl in Hk. injection Hk as Hk.
    pose proof (lookup_lt_Some _ _ _ Ex) as Hlt.
    simpl. apply runs_bind. eapply runs_poke; [exact Ex|]. apply runs_bind.
    set (x' := x <| listeningThread := L4_nilthread |>). set (li1 := <[k := x']> (listeners s)).
    change (set_cells _ s) with (s <| listeners := li1 |>).
    assert (Hnx : ∀ i, nextListener <$> li1 !! i = nextListener <$> listeners s !! i).
    { intros i. unfold li1. destruct (decide (i = k)) as [->|]; [|by rewrite list_lookup_insert_ne].
      by rewrite list_lookup_insert_eq, Ex by done. }
    eapply (runs_peek _ _ x'); [by apply list_lookup_insert_eq|].
    change (nextListener x') with (nextListener x). rewrite Hk, head_or_None.
    eapply runs_mono; [apply IH; [|lia]|].
    + eapply seg_ext; [|exact Hl]. intros i _. apply Hnx.
    + intros _ s' (li&->&Hlen&Hn&Hout&Hin). exists li. split; [done|].
      change (listeners _) with li1 in Hlen, Hn, Hout. split_and!.
      * rewrite Hlen. apply length_insert.
      * intros i. by rewrite Hn.
      * intros i [Hi1 Hi2]%not_elem_of_cons. rewrite Hout by done. unfold li1. by rewrite list_lookup_insert_ne.
      * intros i Hi. destruct (decide (i ∈ l)); [by apply Hin|]. apply elem_of_cons in Hi as [->|]; [|done].
        rewrite Hout by done. unfold li1. by rewrite list_lookup_insert_eq.
Qed.

(** From the first thread of a chain to the one before [t]. *)
Lemma thread_before_spec l1 p t l2 c fuel s :
  seg (tnext (threads s)) (l1 ++ p :: t :: l2) None → NoDup (l1 ++ p :: t :: l2) →
  head (l1 ++ [p]) = Some c → (length l1 ≤ fuel)%nat →
  runs (thread_before fuel t c) (λ r s', r = p ∧ s' = s) s.
Proof.
  revert c fuel. induction l1 as [|i l1 IH]; intros c fuel Hseg Hnd Hc Hf; simpl in *.
  - injection Hc as ->. destruct Hseg as [Hp _]. unfold tnext in Hp.
    destruct (threads s !! c) as [x|] eqn:Ex; [|done]. simpl in Hp. injection Hp as Hp.
    destruct fuel; simpl; apply runs_bind; (eapply runs_peek; [exact Ex|]); rewrite Hp, Nat.eqb_refl; by apply runs_ret.
  - injection Hc as <-. destruct Hseg as [Hi Hseg]. unfold tnext in Hi.
    destruct (threads s !! i) as [x|] eqn:Ex; [|done]. simpl in Hi. injection Hi as Hi.
    destruct fuel as [|fuel]; [lia|]. apply NoDup_cons in Hnd as [_ Hnd]. simpl. apply runs_bind.
    eapply runs_peek; [exact Ex|]. rewrite Hi.
    assert (∃ n, head_or None (l1 ++ p :: t :: l2) = Some n ∧ head (l1 ++ [p]) = Some n ∧ n ≠ t) as (n&->&Hn&Hne).
    { destruct l1 as [|n l1]; simpl; eexists; (split; [done|]); (split; [done|]).
      - intros ->. apply NoDup_cons in Hnd as [Hnin _]. apply Hnin. by left.
      - intros ->. simpl in Hnd. apply NoDup_cons in Hnd as [Hnin _]. apply Hnin, elem_of_app. right. right. by left. }
    rewrite (proj2 (Nat.eqb_neq n t)) by done. apply IH; done || lia.
Qed.

Definition pager_known (tries : nat) (s : ts) : Prop :=
  apppagerid s ≠ 0 ∨ ∃ k, (k < tries)%nat ∧ locate (located s + k) ≠ 0.

Lemma get_apppager_spec tries s :
  pager_known tries s →
  runs (get_apppager tries)
    (λ p s', p ≠ 0 ∧ ∃ n, s' = s <| apppagerid := p |> <| located := n |>) s.
Proof.
  revert s. induction tries as [|tries IH]; intros s Hk; simpl; apply runs_bind, runs_get;
    unfold L4_IsNilThread; destruct (Z.eqb_spec (apppagerid s) 0) as [E|E].
  - destruct Hk as [|(k&?&_)]; [done|lia].
  - apply runs_ret. split; [done|]. exists (located s). by destruct s.
  - apply runs_bind, runs_update. eapply runs_mono; [apply IH|].
    + destruct Hk as [|(k&Hk&Hne)]; [done|]. destruct k as [|k].
      * left. by rewrite Nat.add_0_r in Hne.
      * right. exists k. split; [lia|]. change (located _) with (S (located s)).
        by rewrite Nat.add_succ_comm.
    + intros p s' (Hp&n&->). split; [done|]. by exists n.
  - apply runs_ret. split; [done|]. exists (located s). by destruct s.
Qed.

Record ts_inv s (ch lc : nat → list nat) : Prop := {
  ti_spaces : length (spaces s) = MAX_NUM_SPACES;
  ti_threads : length (threads s) = MAX_NUM_THREADS;
  ti_listeners : length (listeners s) = MAX_NUM_LISTENERS;
  ti_tables : tables_ok (spaces s) (threads s) (listeners s) ch lc;
}.

Lemma ti_live_bound s ch lc t j : ts_inv s ch lc → home (threads s) t = Some j → (j < MAX_NUM_SPACES)%nat.
Proof. intros Hi Ht. rewrite <- (ti_spaces _ _ _ Hi). by eapply to_home; [apply Hi|]. Qed.

Lemma ti_listeners_bound s ch lc t : ts_inv s ch lc → is_Some (home (threads s) t) → (length (lc t) ≤ MAX_NUM_LISTENERS)%nat.
Proof.
  intros Hi Ht. rewrite <- (ti_listeners _ _ _ Hi). apply NoDup_bound; [by eapply to_lnodup; [apply Hi|]|].
  intros l Hl. destruct (to_busy _ _ _ _ _ (ti_tables _ _ _ Hi) _ _ Ht Hl) as (x&Hx&_).
  by eapply lookup_lt_Some.
Qed.

Lemma ti_chain_bound s ch lc j : ts_inv s ch lc → (j < MAX_NUM_SPACES)%nat → (length (ch j) ≤ MAX_NUM_THREADS)%nat.
Proof.
  intros Hi Hj. rewrite <- (ti_spaces _ _ _ Hi) in Hj. rewrite <- (ti_threads _ _ _ Hi).
  apply NoDup_bound; [by eapply to_nodup; [apply Hi|]|].
  intros t Ht. apply (to_member _ _ _ _ _ (ti_tables _ _ _ Hi)) in Ht; [|done].
  unfold home in Ht. destruct (threads s !! t) eqn:E; [|done]. by eapply lookup_lt_Some.
Qed.

(** What [delete_tcb] leaves of the threads [th] when [p] is before [t]. *)
Definition unlinked (th : list thread_t) (t : nat) (p : option nat) (n : option nat) : list thread_t :=
  let th := match p with Some p => alter (λ x, x <| nextThread := n |>) p th | None => th end in
  alter (λ x, x <| nextThread := None |> <| as_ := None |>) t th.

Lemma alter_poke {A} (f : A → A) (l : list A) i x : l !! i = Some x → alter f i l = <[i := f x]> l.
Proof.
  intros E. apply list_eq. intros k. destruct (decide (k = i)) as [->|].
  - rewrite list_lookup_alter_eq, E. simpl. by rewrite list_lookup_insert_eq by by eapply lookup_lt_Some.
  - by rewrite list_lookup_alter_ne, list_lookup_insert_ne.
Qed.

Lemma unlinked_lookup th t p n u :
  p ≠ Some t →
  unlinked th t p n !! u =
    (λ x, if decide (u = t) then x <| nextThread := None |> <| as_ := None |>
          else if decide (p = Some u) then x <| nextThread := n |> else x) <$> th !! u.
Proof.
  intros Hp. unfold unlinked. destruct (decide (u = t)) as [->|Hu].
  - rewrite list_lookup_alter_eq. destruct p as [p|]; [|done].
    rewrite list_lookup_alter_ne by congruence. done.
  - rewrite list_lookup_alter_ne by done. destruct p as [p|].
    + destruct (decide (p = u)) as [->|].
      * rewrite list_lookup_alter_eq. destruct (th !! u); [|done]. simpl. by rewrite decide_True.
      * rewrite list_lookup_alter_ne by done. destruct (th !! u); [|done]. simpl. rewrite decide_False; [done|congruence].
    + destruct (th !! u); [|done]. simpl. done.
Qed.

Lemma delete_tcb_spec s ch lc t y j :
  ts_inv s ch lc → threads s !! t = Some y → as_ y = Some j →
  runs (delete_tcb t) (λ _ s', ∃ l1 l2 sp li,
    ch j = l1 ++ t :: l2 ∧
    s' = s <| listeners := li |> <| spaces := sp |> <| threads := unlinked (threads s) t (last l1) (head l2) |> ∧
    length sp = length (spaces s) ∧ length li = length (listeners s) ∧
    (∀ k, k ≠ j → sp !! k = spaces s !! k) ∧ firstThread <$> sp !! j = Some (head (l1 ++ l2)) ∧
    (∀ k, nextListener <$> li !! k = nextListener <$> listeners s !! k) ∧
    (∀ k, k ∉ lc t → li !! k = listeners s !! k) ∧
    (∀ k, k ∈ lc t → listeningThread <$> li !! k = Some L4_nilthread)) s.
Proof.
  intros Hinv Hy Hay. pose proof (ti_tables _ _ _ Hinv) as Hok.
  assert (Ht : home (threads s) t = Some j) by (by rewrite (home_lookup _ _ _ Hy)).
  pose proof (to_home _ _ _ _ _ Hok _ _ Ht) as Hj.
  destruct (lookup_lt_is_Some_2 _ _ Hj) as [a Ha].
  pose proof (to_first _ _ _ _ _ Hok _ _ Ha) as Hfirst.
  assert (t ∈ ch j) as (l1&l2&Hch)%list_elem_of_split by by apply (to_member _ _ _ _ _ Hok).
  pose proof (to_seg _ _ _ _ _ Hok j Hj) as Hseg. pose proof (to_nodup _ _ _ _ _ Hok j Hj) as Hnd.
  pose proof (ti_chain_bound _ _ _ j Hinv ltac:(by eapply ti_live_bound)) as Hbound.
  rewrite Hch in *.
  assert (nextThread y = head l2) as Hn.
  { apply seg_mid in Hseg. unfold tnext in Hseg. rewrite Hy in Hseg. simpl in Hseg.
    injection Hseg as ->. apply head_or_None. }
  unfold delete_tcb. apply runs_bind. eapply runs_peek; [exact Hy|]. rewrite Hay.
  apply runs_bind. eapply runs_peek; [exact Hy|]. rewrite (to_lfirst _ _ _ _ _ Hok _ _ Hy) by by rewrite Hay.
  apply runs_bind. eapply runs_mono.
  { apply free_listeners_spec; [apply (to_lseg _ _ _ _ _ Hok); by rewrite Ht|].
    eapply ti_listeners_bound; [done|by rewrite Ht]. }
  intros _ s1 (li&->&Hli&Hnx&Hout&Hin).
  apply runs_bind. eapply runs_follow; [done|]. apply runs_bind.
  eapply runs_peek; [exact Ha|]. apply runs_bind. eapply runs_peek; [exact Hy|]. rewrite Hn, Hfirst.
  destruct l1 as [|p l0 _] using rev_ind.
  - rewrite decide_True by done. apply runs_bind. eapply runs_poke; [exact Ha|].
    eapply runs_poke; [exact Hy|]. eexists [], l2, _, li. split; [done|]. split.
    { unfold unlinked. simpl. rewrite (alter_poke _ _ _ _ Hy). reflexivity. }
    split_and!; try done.
    + apply length_insert.
    + intros k Hk. by rewrite list_lookup_insert_ne.
    + rewrite list_lookup_insert_eq by done. done.
  - rewrite <- app_assoc in Hseg, Hnd, Hbound. simpl in Hseg, Hnd, Hbound.
    assert (p ≠ t ∧ head ((l0 ++ [p]) ++ t :: l2) ≠ Some t ∧
      ∃ c, head ((l0 ++ [p]) ++ t :: l2) = Some c ∧ head (l0 ++ [p]) = Some c) as (Hpt&Hne&c&Hc&Hc').
    { assert (p ≠ t) as Hpt.
      { intros ->. apply NoDup_app in Hnd as (_&_&Hnd). apply NoDup_cons in Hnd as [Hnin _]. apply Hnin. by left. }
      split; [done|]. destruct l0 as [|c l0]; simpl; [split; [congruence|by exists p]|].
      split; [|by exists c]. intros [= ->]. simpl in Hnd. apply NoDup_cons in Hnd as [Hnin _].
      apply Hnin, elem_of_app. right. right. by left. }
    rewrite decide_False by done.
    assert (p < length (threads s))%nat as Hplt.
    { assert (p ∈ ch j) as Hp.
      { rewrite Hch. apply elem_of_app. left. apply elem_of_app. right. by left. }
      apply (to_member _ _ _ _ _ Hok) in Hp; [|done]. unfold home in Hp.
      destruct (threads s !! p) eqn:E; [|done]. by eapply lookup_lt_Some. }
    destruct (lookup_lt_is_Some_2 _ _ Hplt) as [w Hw].
    apply runs_bind. apply runs_bind. eapply runs_follow; [exact Hc|]. apply runs_bind.
    eapply runs_mono.
    { apply (thread_before_spec l0 p t l2); [done|done|done|].
      rewrite length_app in Hbound. simpl in Hbound. lia. }
    intros b s2 [-> ->]. eapply runs_poke; [exact Hw|].
    eapply (runs_poke _ _ y). { change ((<[p := w <| nextThread := head l2 |>]> (threads s)) !! t = Some y).
      by rewrite list_lookup_insert_ne. }
    eexists (l0 ++ [p]), l2, (spaces s), li. split; [done|]. split.
    { unfold unlinked. rewrite last_snoc. rewrite (alter_poke _ (threads s) _ _ Hw).
      rewrite (alter_poke _ (<[p := _]> (threads s)) t y) by (by rewrite list_lookup_insert_ne).
      by destruct s. }
    split_and!; try done. rewrite Ha. simpl. rewrite Hfirst. by destruct l0.
Qed.

Lemma home_unlinked (th : list thread_t) t p n u :
  p ≠ Some t → home (unlinked th t p n) u = if decide (u = t) then None else home th u.
Proof.
  intros Hp. unfold home. rewrite unlinked_lookup by done.
  destruct (th !! u) as [x|]; simpl; repeat case_decide; done.
Qed.

Lemma delete_inv s s' ch lc t j l1 l2 :
  ts_inv s ch lc → home (threads s) t = Some j → ch j = l1 ++ t :: l2 →
  threads s' = unlinked (threads s) t (last l1) (head l2) →
  length (spaces s') = length (spaces s) → length (listeners s') = length (listeners s) →
  (∀ k, k ≠ j → spaces s' !! k = spaces s !! k) → firstThread <$> spaces s' !! j = Some (head (l1 ++ l2)) →
  (∀ k, nextListener <$> listeners s' !! k = nextListener <$> listeners s !! k) →
  (∀ k, k ∉ lc t → listeners s' !! k = listeners s !! k) →
  ts_inv s' (upd ch j (l1 ++ l2)) lc ∧
  (∀ u, home (threads s') u = if decide (u = t) then None else home (threads s) u).
Proof.
  intros Hinv Ht Hch Hth Hls Hll Hsp Hspj Hnx Hout. pose proof (ti_tables _ _ _ Hinv) as Hok.
  pose proof (to_home _ _ _ _ _ Hok _ _ Ht) as Hj.
  pose proof (to_nodup _ _ _ _ _ Hok j Hj) as Hnd. rewrite Hch in Hnd.
  apply NoDup_middle in Hnd as [Hnin _].
  assert (last l1 ≠ Some t) as Hlast.
  { intros Hl. apply Hnin, elem_of_app. left. apply last_Some in Hl as [l' ->]. apply elem_of_app. right. by left. }
  assert (∀ u, home (threads s') u = if decide (u = t) then None else home (threads s) u) as Hh.
  { intros u. rewrite Hth. by apply home_unlinked. }
  split; [|done]. split.
  - rewrite Hls. apply Hinv.
  - rewrite Hth. unfold unlinked. rewrite length_alter. destruct (last l1); rewrite ?length_alter; apply Hinv.
  - rewrite Hll. apply Hinv.
  - eapply tables_ok_delete; try done.
    + intros k Hk. by rewrite Hsp.
    + intros u Hu. rewrite Hth, unlinked_lookup by done. destruct (threads s !! u); simpl; [|done].
      rewrite decide_False by done. by case_decide.
    + intros p Hp. rewrite Hth. unfold tnext. rewrite unlinked_lookup by done.
      assert (p ∈ ch j) as Hpj.
      { rewrite Hch. apply elem_of_app. left. apply last_Some in Hp as [l' ->]. apply elem_of_app. right. by left. }
      apply (to_member _ _ _ _ _ Hok) in Hpj; [|done]. unfold home in Hpj.
      destruct (threads s !! p) as [x|]; [|done]. simpl. rewrite decide_False by congruence.
      by rewrite decide_True.
    + intros u Hu Hlu. rewrite Hth. unfold tnext. rewrite unlinked_lookup by done.
      destruct (threads s !! u); [|done]. simpl. by rewrite !decide_False.
Qed.

(** C17: [taskserver_kill] of a thread the server knows and that runs in the space [j]:
    the kernel is asked to end it, the AppPager is told if it pages the space, every
    client that waits for it is answered once, in the order of its chain, and then its
    TCB and the listeners are free; it leaves the chain of its space, no other thread
    moves, and the tables keep their invariant. *)
Theorem kill_contract tries s ch lc id t y j :
  ts_inv s ch lc → list_find (λ x, globalid x = id) (threads s) = Some (t, y) →
  as_ y = Some j → pager_known tries s →
  runs (kill tries id) (λ _ s', ∃ l1 l2 told,
    ch j = l1 ++ t :: l2 ∧ ts_inv s' (upd ch j (l1 ++ l2)) lc ∧
    (∀ u, home (threads s') u = if decide (u = t) then None else home (threads s) u) ∧
    (∀ l, l ∈ lc t → listeningThread <$> listeners s' !! l = Some L4_nilthread) ∧
    (∀ l, l ∉ lc t → listeners s' !! l = listeners s !! l) ∧
    calls s' = calls s ++ [ThreadControl id 0 0 0 (2 ^ 32 - 1)] ++ told ++ (reply_to (listeners s) <$> lc t) ∧
    (told = [] ∧ pagedby <$> spaces s !! j ≠ Some pagedbyAppPager ∨
     pagedby <$> spaces s !! j = Some pagedbyAppPager ∧
       told = [AppPager_deleteAssociation (apppagerid s') id] ∧ apppagerid s' ≠ 0)) s.
Proof.
  intros Hinv Hfind Hay Hpk. pose proof (ti_tables _ _ _ Hinv) as Hok.
  apply list_find_Some in Hfind as Hf. destruct Hf as (Hy&_&_).
  assert (Ht : home (threads s) t = Some j) by (by rewrite (home_lookup _ _ _ Hy)).
  pose proof (to_home _ _ _ _ _ Hok _ _ Ht) as Hj. destruct (lookup_lt_is_Some_2 _ _ Hj) as [a Ha].
  unfold kill, find_tcb. apply runs_bind, runs_get. rewrite Hfind.
  change (fst <$> Some (t, y)) with (Some t). cbn iota.
  apply runs_bind, runs_update, runs_bind. eapply runs_peek; [exact Hy|]. rewrite Hay.
  apply runs_bind. eapply runs_follow; [done|]. apply runs_bind. eapply runs_peek; [exact Ha|].
  set (s1 := s <| calls ::= _ |>). rewrite Ha.
  change (pagedby <$> Some a) with (Some (pagedby a)).
  apply runs_bind.
  apply (runs_mono _ (λ _ s2, ∃ told p n, s2 = s1 <| calls := calls s1 ++ told |> <| apppagerid := p |> <| located := n |> ∧
    (told = [] ∧ Some (pagedby a) ≠ Some pagedbyAppPager ∨
     Some (pagedby a) = Some pagedbyAppPager ∧ told = [AppPager_deleteAssociation p id] ∧ p ≠ 0))).
  { apply runs_onlyif.
    - intros E%bool_decide_eq_true. apply runs_bind. eapply runs_mono; [by apply get_apppager_spec|].
      intros p s2 (Hp&n&->). apply runs_update. exists [AppPager_deleteAssociation p id], p, n.
      split; [done|]. right. by rewrite E.
    - intros E%bool_decide_eq_false. exists [], (apppagerid s1), (located s1). split; [|left; split; [done|congruence]].
      rewrite app_nil_r. by destruct s. }
  intros _ s2 (told&p&n&->&Htold). apply runs_bind. eapply runs_peek; [exact Hy|].
  rewrite (to_lfirst _ _ _ _ _ Hok _ _ Hy) by by rewrite Hay.
  apply runs_bind. eapply runs_mono.
  { apply notify_spec; [apply (to_lseg _ _ _ _ _ Hok); by rewrite Ht|].
    eapply ti_listeners_bound; [done|by rewrite Ht]. }
  intros _ s3 ->. eapply runs_mono.
  { apply (delete_tcb_spec _ ch lc t y j); [|done|done]. destruct Hinv. by split. }
  intros _ s' (l1&l2&sp&li&Hch&->&Hls&Hll&Hsp&Hspj&Hnx&Hout&Hin). exists l1, l2, told.
  split; [done|].
  destruct (delete_inv s (s <| listeners := li |> <| spaces := sp |>
    <| threads := unlinked (threads s) t (last l1) (head l2) |>) ch lc t j l1 l2) as [Hinv' Hh]; try done.
  split_and!; try done.
  - destruct Hinv'. by split.
  - transitivity ((calls s1 ++ told) ++ (reply_to (listeners s) <$> lc t)); [done|].
    change (calls s1) with (calls s ++ [ThreadControl id 0 0 0 (2 ^ 32 - 1)]). by rewrite <- !app_assoc.
Qed.

(** [taskserver_waitTid].  An id no TCB holds is answered at once.  Otherwise the
    caller is left without an answer; if the thread lives, its listener is in front of
    the chain [kill] will answer.  A TCB keeps the id of a thread that has ended until
    it is used again: then the caller is left too, and no chain has its listener. *)
Theorem waitTid_contract s ch lc caller id :
  ts_inv s ch lc → caller ≠ L4_nilthread →
  (list_find (λ x, globalid x = id) (threads s) = None → waitTid caller id s = Done (Some (2 ^ 32 - 1)) s) ∧
  (∀ t y, list_find (λ x, globalid x = id) (threads s) = Some (t, y) →
    available (λ l, L4_IsNilThread (listeningThread l)) (listeners s) (next_listener_idx s) →
    runs (waitTid caller id) (λ r s', r = None ∧ ∃ l,
      ts_inv s' ch (match as_ y with Some _ => upd lc t (l :: lc t) | None => lc end) ∧
      listeningThread <$> listeners s !! l = Some L4_nilthread ∧
      listeningThread <$> listeners s' !! l = Some caller ∧
      (∀ u, home (threads s') u = home (threads s) u) ∧ calls s' = calls s) s).
Proof.
  intros Hinv Hcaller. split.
  { intros Hfind. unfold waitTid, find_tcb, get, mbind, Srv_bind. by rewrite Hfind. }
  intros t y Hfind Hav. apply list_find_Some in Hfind as Hf. destruct Hf as (Hy&_&_).
  unfold waitTid, find_tcb. apply runs_bind, runs_get. rewrite Hfind.
  change (fst <$> Some (t, y)) with (Some t). cbn iota. apply runs_bind.
  apply get_free_runs; [apply Hinv|done|done|]. intros l x Hx Hfree.
  apply Z.eqb_eq in Hfree. change (cells s) with (listeners s) in Hx. set (s1 := _ <| next_listener_idx := _ |>).
  pose proof (lookup_lt_Some _ _ _ Hx) as Hlt.
  assert (Hl1 : listeners s1 !! l = Some (Listener 0 None)) by by apply list_lookup_insert_eq.
  apply runs_bind. eapply runs_poke; [exact Hl1|]. apply runs_bind. eapply runs_peek; [exact Hy|].
  apply runs_bind. eapply runs_poke.
  { apply list_lookup_insert_eq. by eapply lookup_lt_Some. }
  apply runs_bind. eapply runs_poke; [exact Hy|]. apply runs_ret. split; [done|]. exists l.
  set (s' := set_cells _ _).
  assert (Es' : listeners s' = <[l := Listener caller (firstListener y)]> (listeners s)).
  { change (listeners s') with (<[l := Listener caller (firstListener y)]> (<[l := Listener caller None]> (<[l := Listener 0 None]> (listeners s)))).
    by rewrite !list_insert_insert_eq. }
  change (threads s') with (<[t := y <| firstListener := Some l |>]> (threads s)).
  rewrite Es', list_lookup_insert_eq, Hx by done. split_and!; try done.
  - destruct Hinv as [h1 h2 h3 h4]. split.
    + exact h1.
    + change (threads s') with (<[t := y <| firstListener := Some l |>]> (threads s)). by rewrite length_insert.
    + by rewrite Es', length_insert.
    + rewrite Es'. by eapply tables_ok_wait.
  - simpl. by rewrite Hfree.
  - intros u. unfold home. destruct (decide (u = t)) as [->|]; [|by rewrite list_lookup_insert_ne].
    rewrite list_lookup_insert_eq, Hy by by eapply lookup_lt_Some. done.
Qed.

(** * Local ids *)

Definition uses (th : list thread_t) (l : list nat) (id : Z) : Prop :=
  Exists (λ u, localid <$> th !! u = Some id) l.

Lemma has_localid_spec l fuel id s :
  seg (tnext (threads s)) l None → (length l ≤ fuel)%nat →
  runs (has_localid fuel id (head l)) (λ b s', s' = s ∧ (b = true ↔ uses (threads s) l id)) s.
Proof.
  revert fuel. induction l as [|u l IH]; intros fuel Hseg Hf.
  - destruct fuel; apply runs_ret; (split; [done|]); unfold uses; rewrite Exists_nil; done.
  - destruct fuel as [|fuel]; [simpl in Hf; lia|]. simpl in Hseg, Hf. destruct Hseg as [Hu Hl].
    unfold tnext in Hu. destruct (threads s !! u) as [x|] eqn:Ex; [|done]. simpl in Hu. injection Hu as Hu.
    assert (Hcons : uses (threads s) (u :: l) id ↔ localid x = id ∨ uses (threads s) l id).
    { unfold uses. rewrite Exists_cons, Ex. simpl. split; (intros [H1|H1]; [left|by right]); congruence. }
    cbn [has_localid head]. apply runs_bind. eapply runs_peek; [exact Ex|].
    destruct (Z.eqb_spec (localid x) id) as [E|E].
    + apply runs_ret. split; [done|]. rewrite Hcons. tauto.
    + apply runs_bind. eapply runs_peek; [exact Ex|]. rewrite Hu, head_or_None.
      eapply runs_mono; [apply IH; [done|lia]|]. intros b s' [-> Hb]. split; [done|].
      rewrite Hcons, Hb. tauto.
Qed.

(** The first location from [start] to [last] that is not taken; 0 when all of them are. *)
Definition first_location (start last : Z) (taken : Z → Prop) (r : Z) : Prop :=
  (∃ k, 0 ≤ k ∧ r = start + k * utcb_size ∧ r < last ∧ ¬ taken r ∧ ∀ k', 0 ≤ k' < k → taken (start + k' * utcb_size)) ∨
  r = 0 ∧ ∀ k, 0 ≤ k → start + k * utcb_size < last → taken (start + k * utcb_size).

Lemma first_location_iff start last (P P' : Z → Prop) r : (∀ x, P x ↔ P' x) → first_location start last P r → first_location start last P' r.
Proof.
  intros HP [(k&?&?&?&Hr&Hk)|[? Hk]]; [left; exists k|right]; split_and!; try done; [by rewrite <- HP|..]; intros; apply HP; auto.
Qed.

(** The first location of the area that no thread of the chain uses, or none. *)
Lemma localid_from_spec l fuel space a id last s :
  0 < utcb_size → 0 ≤ id → last + utcb_size ≤ 2 ^ 32 → last - id ≤ Z.of_nat fuel →
  spaces s !! space = Some a → firstThread a = head l →
  seg (tnext (threads s)) l None → (length l ≤ MAX_NUM_THREADS)%nat →
  runs (localid_from fuel space id last) (λ r s', s' = s ∧ first_location id last (uses (threads s) l) r) s.
Proof.
  intros Hsz Hid Hlast Hfuel Ha Hfirst Hseg Hlen. revert id Hid Hfuel.
  induction fuel as [|fuel IH]; intros id Hid Hfuel; cbn [localid_from]; destruct (Z.ltb_spec id last) as [Hlt|Hge].
  - lia.
  - apply runs_ret. split; [done|]. right. split; [done|]. intros k Hk ?. nia.
  - apply runs_bind. eapply runs_peek; [exact Ha|]. rewrite Hfirst. apply runs_bind.
    eapply runs_mono; [by apply has_localid_spec|]. intros b s' [-> Hb]. destruct b.
    + rewrite u32_id by lia. eapply runs_mono; [apply IH; lia|]. intros r s' [-> Hr]. split; [done|].
      assert (Hnext : ∀ k (R : Z → Prop), 0 ≤ k → (1 ≤ k → R (id + utcb_size + (k - 1) * utcb_size)) → (k = 0 → R id) → R (id + k * utcb_size)).
      { intros k R Hk H1 H0. destruct (decide (k = 0)) as [->|].
        - replace (id + 0 * utcb_size) with id by lia. by apply H0.
        - replace (id + k * utcb_size) with (id + utcb_size + (k - 1) * utcb_size) by lia. apply H1; lia. }
      destruct Hr as [(k&?&->&?&?&Hr)|[-> Hr]].
      * left. exists (k + 1). split_and!; try (done || lia). intros k' Hk'. apply Hnext; [lia|intros; apply Hr; lia|by intros _; apply Hb].
      * right. split; [done|]. intros k Hk Hkl. apply Hnext; [lia|intros; apply Hr; lia|by intros _; apply Hb].
    + apply runs_ret. split; [done|]. left. exists 0. split_and!; try lia.
      intros Hu. by apply Hb in Hu.
  - apply runs_ret. split; [done|]. right. split; [done|]. intros k Hk ?. nia.
Qed.

(** * New threads *)

(** The UTCB area of a space is inside the address space, with a UTCB to spare. *)
Definition area_ok (a : as_t) : Prop := L4_Address (utcbarea a) + L4_Size (utcbarea a) + utcb_size ≤ 2 ^ 32.

Lemma L4_Size_nonneg f : 0 ≤ L4_Size f.
Proof. unfold L4_Size. case_match; [lia|]. apply u32_range. Qed.

Lemma L4_Address_nonneg f : 0 ≤ L4_Address f.
Proof.
  unfold L4_Address. apply Z.land_nonneg. right. pose proof (u32_range (Z.shiftl 1 (fpage_s f))). lia.
Qed.

Lemma get_free_localid_spec l space a s :
  0 < utcb_size → area_ok a → spaces s !! space = Some a → firstThread a = head l →
  seg (tnext (threads s)) l None → (length l ≤ MAX_NUM_THREADS)%nat →
  let start := L4_Address (utcbarea a) in
  let last := L4_Address (utcbarea a) + L4_Size (utcbarea a) in
  runs (get_free_localid space) (λ r s', s' = s ∧ first_location start last (uses (threads s) l) r) s.
Proof.
  intros Hsz Hao Ha Hfirst Hseg Hlen start last. unfold area_ok in Hao.
  pose proof (L4_Size_nonneg (utcbarea a)). pose proof (L4_Address_nonneg (utcbarea a)).
  unfold get_free_localid. apply runs_bind. eapply runs_peek; [exact Ha|]. rewrite u32_id by lia.
  replace (L4_Size (utcbarea a) + L4_Address (utcbarea a)) with last by (unfold last; lia).
  unfold last, start in *. apply (localid_from_spec l _ _ a); done || lia.
Qed.

(** The tables with the new thread [i] behind [c]. *)
Lemma create_home (th : list thread_t) i c j y z w u :
  i ≠ c → (i < length th)%nat → th !! c = Some y → as_ w = as_ y → as_ z = Some j →
  home (<[c := w]> (<[i := z]> th)) u = if decide (u = i) then Some j else home th u.
Proof.
  intros Hic Hi Hy Hw Hz. unfold home. destruct (decide (u = c)) as [->|].
  - rewrite list_lookup_insert_eq by (rewrite length_insert; by eapply lookup_lt_Some).
    rewrite decide_False, Hy by done. done.
  - rewrite list_lookup_insert_ne by done. case_decide as E; [subst u; by rewrite list_lookup_insert_eq|].
    by rewrite list_lookup_insert_ne.
Qed.

(** The chain with the new thread, before its space is noted. *)
Lemma create_chain s ch lc i j c x y z z' w a l1 l2 :
  ts_inv s ch lc → i ≠ c → ch j = l1 ++ c :: l2 →
  threads s !! i = Some x → as_ x = None → threads s !! c = Some y → as_ y = Some j →
  as_ z = Some j → nextThread z = nextThread y → firstListener z = None →
  as_ w = Some j → nextThread w = Some i → firstListener w = firstListener y →
  nextThread z' = nextThread z → spaces s !! j = Some a →
  seg (tnext (<[c := w]> (<[i := z']> (threads s)))) (l1 ++ c :: i :: l2) None ∧
  (length (l1 ++ c :: i :: l2) ≤ MAX_NUM_THREADS)%nat ∧ firstThread a = head (l1 ++ c :: i :: l2).
Proof.
  intros Hinv Hic Hch Hx Hax Hy Hay Hz1 Hz2 Hz3 Hw1 Hw2 Hw3 Hz' Ha.
  pose proof (tables_ok_create _ _ _ _ _ i j c x y z w l1 l2 (ti_tables _ _ _ Hinv)) as Hok.
  repeat (specialize (Hok ltac:(done))).
  pose proof (lookup_lt_Some _ _ _ Ha) as Hj. pose proof (lookup_lt_Some _ _ _ Hx) as Hi.
  pose proof (to_seg _ _ _ _ _ Hok j Hj) as Hseg. pose proof (to_nodup _ _ _ _ _ Hok j Hj) as Hnd.
  pose proof (to_first _ _ _ _ _ Hok j a Ha) as Hfirst.
  pose proof (λ u, to_member _ _ _ _ _ Hok j u Hj) as Hm. rewrite upd_eq in Hseg, Hnd, Hfirst, Hm.
  split_and!; [| |done].
  - eapply seg_ext; [|exact Hseg]. intros u _. unfold tnext. destruct (decide (u = c)) as [->|].
    + by rewrite !list_lookup_insert_eq by (rewrite length_insert; by eapply lookup_lt_Some).
    + rewrite !(list_lookup_insert_ne _ c) by done. destruct (decide (u = i)) as [->|].
      * rewrite !list_lookup_insert_eq by done. simpl. by rewrite Hz'.
      * by rewrite !list_lookup_insert_ne.
  - rewrite <- (ti_threads _ _ _ Hinv). apply NoDup_bound; [done|]. intros u Hu%Hm. unfold home in Hu.
    destruct (_ !! u) eqn:E; [|done]. apply lookup_lt_Some in E. by rewrite !length_insert in E.
Qed.

(** The local ids of the longer chain are those of the chain and that of the new thread. *)
Lemma uses_create (th : list thread_t) i c y z w l1 l2 id :
  i ≠ c → i ∉ l1 ++ c :: l2 → (i < length th)%nat → th !! c = Some y → localid w = localid y →
  uses (<[c := w]> (<[i := z]> th)) (l1 ++ c :: i :: l2) id ↔ localid z = id ∨ uses th (l1 ++ c :: l2) id.
Proof.
  intros Hic Hni Hi Hy Hw. unfold uses. set (th' := <[c := w]> _).
  assert (Ei : localid <$> th' !! i = Some (localid z)) by (unfold th'; by rewrite list_lookup_insert_ne, list_lookup_insert_eq).
  assert (Hu : ∀ u, u ≠ i → localid <$> th' !! u = localid <$> th !! u).
  { intros u Hu. unfold th'. destruct (decide (u = c)) as [->|].
    - rewrite list_lookup_insert_eq by (rewrite length_insert; by eapply lookup_lt_Some). rewrite Hy. simpl. congruence.
    - by rewrite !list_lookup_insert_ne. }
  rewrite !Exists_exists. setoid_rewrite elem_of_app. setoid_rewrite elem_of_cons. setoid_rewrite elem_of_cons.
  rewrite elem_of_app, elem_of_cons in Hni. split.
  - intros (u&Hin&E). destruct (decide (u = i)) as [->|Hne]; [left; rewrite Ei in E; congruence|].
    right. exists u. rewrite <- Hu by done. split; [tauto|done].
  - intros [<-|(u&Hin&E)]; [exists i; split; [tauto|done]|]. exists u. rewrite Hu by (intros ->; tauto). split; [tauto|done].
Qed.

(** What [createThread] leaves: [i] is behind [c] in the space [j]. *)
Definition new_thread s s' (ch lc : nat → list nat) (i j c : nat) (l1 l2 : list nat) (a : as_t) (id : Z) : Prop :=
  ∃ x, threads s' !! i = Some x ∧ globalid x = id ∧
    ts_inv s' (upd ch j (l1 ++ c :: i :: l2)) (upd lc i []) ∧
    (∀ u, home (threads s') u = if decide (u = i) then Some j else home (threads s) u) ∧
    first_location (L4_Address (utcbarea a)) (L4_Address (utcbarea a) + L4_Size (utcbarea a))
      (λ r, 0 = r ∨ uses (threads s) (ch j) r) (localid x).

(** The new TCB [z] behind the caller, which becomes [w], is all that is left. *)
Lemma new_thread_made s s' ch lc i j c x y z w a l1 l2 :
  ts_inv s ch lc → i ≠ c → ch j = l1 ++ c :: l2 →
  threads s !! i = Some x → as_ x = None → threads s !! c = Some y → as_ y = Some j → spaces s !! j = Some a →
  as_ z = Some j → nextThread z = nextThread y → firstListener z = None →
  as_ w = Some j → nextThread w = Some i → firstListener w = firstListener y → localid w = localid y →
  first_location (L4_Address (utcbarea a)) (L4_Address (utcbarea a) + L4_Size (utcbarea a))
    (uses (<[c := w]> (<[i := z <| localid := 0 |> <| as_ := None |>]> (threads s))) (l1 ++ c :: i :: l2)) (localid z) →
  spaces s' = spaces s → listeners s' = listeners s → threads s' = <[c := w]> (<[i := z]> (threads s)) →
  new_thread s s' ch lc i j c l1 l2 a (globalid z).
Proof.
  intros Hinv Hic Hch Hx Hfree Hy Hay Ha Hz1 Hz2 Hz3 Hw1 Hw2 Hw3 Hw4 Hl E1 E2 E3.
  pose proof (ti_tables _ _ _ Hinv) as Hok. pose proof (lookup_lt_Some _ _ _ Hx) as Hlt.
  exists z. rewrite E3. split_and!; [|done| |intros u; eapply create_home; try done; congruence|].
  - rewrite list_lookup_insert_ne by done. by apply list_lookup_insert_eq.
  - split; rewrite ?E1, ?E2, ?E3, ?length_insert; [apply Hinv..|]. by eapply tables_ok_create.
  - eapply first_location_iff; [|exact Hl]. intros r. rewrite Hch. apply (uses_create _ _ _ y); try done. rewrite <- Hch.
    eapply free_not_member; [done|by rewrite (home_lookup _ _ _ Hx)|by eapply lookup_lt_Some].
Qed.

(** Linking the TCB [i] behind [c]. *)
Lemma link_runs {A} i c y z0 id (k : Srv ts A) Q s :
  i ≠ c → threads s !! c = Some y → threads s !! i = Some z0 →
  (∀ s', s' = s <| threads := <[c := y <| nextThread := Some i |>]>
       (<[i := z0 <| nextThread := nextThread y |> <| globalid := id |>]> (threads s)) |> → runs k Q s') →
  runs (n ← peek nextThread c;
        poke i (λ t : thread_t, t <| nextThread := n |>);;
        poke c (λ t : thread_t, t <| nextThread := Some i |>);;
        poke i (λ t : thread_t, t <| globalid := id |>);; k) Q s.
Proof.
  intros Hic Hc Hi Hk. apply runs_bind. eapply runs_peek; [exact Hc|].
  apply runs_bind. eapply runs_poke; [exact Hi|]. set (z1 := z0 <| nextThread := nextThread y |>).
  apply runs_bind. eapply (runs_poke _ _ y).
  { change (<[i := z1]> (threads s) !! c = Some y). by rewrite list_lookup_insert_ne. }
  set (w := y <| nextThread := Some i |>).
  apply runs_bind. eapply (runs_poke _ _ z1).
  { change (<[c := w]> (<[i := z1]> (threads s)) !! i = Some z1). rewrite list_lookup_insert_ne by done.
    apply list_lookup_insert_eq. by eapply lookup_lt_Some. }
  apply Hk. destruct s; unfold set_field; simpl. f_equal.
  rewrite list_insert_insert_ne by done. by rewrite list_insert_insert_eq.
Qed.

(** C18: [taskserver_createThread] by a thread [c] of the space [j], when the search of the
    tables finds a free TCB, the UTCB area lies inside the address space with a UTCB to
    spare, and the application pager is known: a free TCB enters the chain of the space
    behind the caller, with a new global id and as local id the first UTCB location of the
    area that is neither 0 nor the local id of a thread of the space ([first_location]; 0 when all are taken);
    no other thread moves, and the tables keep their invariant. *)
Theorem createThread_contract tries s ch lc id c y j a :
  ts_inv s ch lc → list_find (λ x, globalid x = id) (threads s) = Some (c, y) → as_ y = Some j →
  available (λ t, bool_decide (as_ t = None)) (threads s) (next_thread_idx s) →
  spaces s !! j = Some a → 0 < utcb_size → area_ok a → pager_known tries s →
  runs (createThread tries id) (λ r s', r = L4_GlobalId (next_thread_no s) 1 ∧ ∃ i l1 l2,
    home (threads s) i = None ∧ ch j = l1 ++ c :: l2 ∧ new_thread s s' ch lc i j c l1 l2 a r) s.
Proof.
  intros Hinv Hfind Hay Hav Ha Hsz Hao Hpk. pose proof (ti_tables _ _ _ Hinv) as Hok.
  apply list_find_Some in Hfind as Hf. destruct Hf as (Hy&_&_).
  assert (Hc : home (threads s) c = Some j) by (by rewrite (home_lookup _ _ _ Hy)).
  assert (c ∈ ch j) as (l1&l2&Hch)%list_elem_of_split by (apply (to_member _ _ _ _ _ Hok); [by eapply to_home|done]).
  unfold createThread, find_tcb, get_free_threadid.
  apply runs_bind, runs_get. rewrite Hfind. change (fst <$> Some (c, y)) with (Some c).
  apply runs_bind. eapply runs_follow; [done|]. apply runs_bind. eapply runs_peek; [exact Hy|]. rewrite Hay.
  apply runs_bind, runs_bind, runs_get, runs_bind, runs_update, runs_ret.
  apply runs_bind, get_free_runs; [apply Hinv|done|done|]. intros i x Hx Hfree.
  change (cells _) with (threads s) in Hx |- *. apply bool_decide_eq_true in Hfree.
  pose proof (lookup_lt_Some _ _ _ Hx) as Hlt. assert (Hic : i ≠ c) by congruence.
  set (z0 := Thread 0 0 None None None). set (id' := L4_GlobalId _ _). set (s1 := _ <| next_thread_idx := _ |>).
  apply (link_runs i c y z0 id').
  { done. }
  { change (<[i := z0]> (threads s) !! c = Some y). by rewrite list_lookup_insert_ne. }
  { by apply (list_lookup_insert_eq (threads s)). }
  set (z2 := z0 <| nextThread := nextThread y |> <| globalid := id' |>). set (w := y <| nextThread := Some i |>).
  intros s2 Es2. assert (Eth2 : threads s2 = <[c := w]> (<[i := z2]> (threads s))).
  { rewrite Es2. change (threads s1) with (<[i := z0]> (threads s)). simpl. by rewrite list_insert_insert_eq. }
  assert (Esp2 : spaces s2 = spaces s ∧ listeners s2 = listeners s) by by rewrite Es2.
  assert (Hpk2 : pager_known tries s2) by by rewrite Es2.
  clear Es2. destruct Esp2 as [Esp2 Eli2]. assert (Ha2 : spaces s2 !! j = Some a) by by rewrite Esp2.
  assert (Hi2 : threads s2 !! i = Some z2).
  { rewrite Eth2, list_lookup_insert_ne by done. by apply list_lookup_insert_eq. }
  assert (Hc2 : threads s2 !! c = Some w).
  { rewrite Eth2. apply list_lookup_insert_eq. rewrite length_insert. by eapply lookup_lt_Some. }
  destruct (create_chain s ch lc i j c x y (z2 <| as_ := Some j |>) z2 w a l1 l2) as (Hseg&Hlen&Hfirst); try done.
  apply runs_bind. eapply runs_follow; [done|]. apply runs_bind. eapply runs_mono.
  { apply (get_free_localid_spec (l1 ++ c :: i :: l2) j a); try done. by rewrite Eth2. }
  intros l s' [-> Hl]. set (z3 := z2 <| localid := l |> <| as_ := Some j |>).
  assert (Hgoal : ∀ s', spaces s' = spaces s → listeners s' = listeners s →
    threads s' = <[c := w]> (<[i := z3]> (threads s)) → new_thread s s' ch lc i j c l1 l2 a id').
  { intros s'. apply (new_thread_made s s' ch lc i j c x y z3 w); try done. change (localid z3) with l. by rewrite Eth2 in Hl. }
  apply runs_bind. eapply runs_poke; [exact Hi2|].
  apply runs_bind. eapply runs_poke; [apply (list_lookup_insert_eq (threads s2)); by eapply lookup_lt_Some|].
  match goal with |- runs _ _ ?st => set (s4 := st) end.
  assert (Eth4 : threads s4 = <[c := w]> (<[i := z3]> (threads s))).
  { change (threads s4) with (<[i := z3]> (<[i := z2 <| localid := l |>]> (threads s2))).
    rewrite Eth2, list_insert_insert_eq, list_insert_insert_ne by done. by rewrite list_insert_insert_eq. }
  assert (Hc4 : threads s4 !! c = Some w) by (rewrite Eth4; apply list_lookup_insert_eq; rewrite length_insert; by eapply lookup_lt_Some).
  apply runs_bind, runs_update. apply runs_bind. eapply runs_peek; [exact Ha2|].
  apply runs_bind. eapply runs_peek; [exact Hc4|]. apply runs_bind.
  destruct (pagedby a); [|apply runs_bind; eapply runs_mono; [by apply get_apppager_spec|]; intros p s' (_&n&->)];
    apply runs_update, runs_ret; (split; [done|]); exists i, l1, l2; rewrite (home_lookup _ _ _ Hx);
    (split_and!; [done|done|by apply Hgoal]).
Qed.

(** What the rest of the system is asked to start the thread [id] in a new space. *)
Definition start_calls (id area : Z) (pager : Z) (c : Z) (path : list Z) : list call :=
  [ThreadControl id id myself L4_nilthread (2 ^ 32 - 1);
   SpaceControl id 0 (L4_FpageLog2 2952790016 14) area L4_anythread;
   ThreadControl id id L4_nilthread pager (L4_Address area);
   if c =? 47 then AppPager_associateImage pager id path else BiElf_associateImage id (u32 (i8 c))].

(** Assigning again to a slot that was assigned to. *)
Lemma lookup_again {A} (l : list A) i x y : l !! i = Some x → <[i := y]> l !! i = Some y.
Proof. intros E. apply list_lookup_insert_eq. by eapply lookup_lt_Some. Qed.

Ltac again H := first [exact H | eapply lookup_again; again H].
Ltac poke_again H := eapply runs_poke; [again H|].

(** The tables after a space got its first thread. *)
Lemma start_result s s' ch lc i j x a id l area pg :
  ts_inv s ch lc → threads s !! i = Some x → as_ x = None → spaces s !! j = Some a → firstThread a = None →
  threads s' = <[i := Thread id l (Some j) None None]> (threads s) → listeners s' = listeners s →
  spaces s' = <[j := As area pg (Some i)]> (spaces s) →
  home (threads s) i = None ∧ ch j = [] ∧ ts_inv s' (upd ch j [i]) (upd lc i []) ∧
  (∀ u, home (threads s') u = if decide (u = i) then Some j else home (threads s) u) ∧
  threads s' !! i = Some (Thread id l (Some j) None None) ∧ spaces s' !! j = Some (As area pg (Some i)).
Proof.
  intros Hinv Hx Hfx Ha Hfa E1 E2 E3. pose proof (ti_tables _ _ _ Hinv) as Hok.
  pose proof (lookup_lt_Some _ _ _ Hx) as Hi. pose proof (lookup_lt_Some _ _ _ Ha) as Hj.
  rewrite E1, E3. split_and!.
  - by rewrite (home_lookup _ _ _ Hx).
  - pose proof (to_first _ _ _ _ _ Hok _ _ Ha) as E. rewrite Hfa in E. by destruct (ch j).
  - split; rewrite ?E1, ?E2, ?E3, ?length_insert; [apply Hinv..|]. by eapply tables_ok_start.
  - intros u. unfold home. case_decide as E; [subst u; by rewrite list_lookup_insert_eq|].
    by rewrite list_lookup_insert_ne.
  - by apply list_lookup_insert_eq.
  - by apply list_lookup_insert_eq.
Qed.

(** The state as a record of its fields, once the initial state is one. *)
Ltac compact :=
  lazymatch goal with
  | |- runs ?m ?Q ?st =>
      let st' := eval cbv beta iota delta [set_cells cells spaces_array threads_array listeners_array
        set_field fields ts_fields as_t_fields thread_t_fields spaces threads listeners next_thread_idx
        next_as_idx next_listener_idx next_thread_no apppagerid located calls utcbarea pagedby firstThread
        globalid localid as_ nextThread firstListener] in st in
      change (runs m Q st')
  end.

(** [taskserver_startTask]: a free TCB becomes the only thread of a free space, with
    a new global id and the first location of the UTCB area as its local id; a path that
    starts with a slash is left to the AppPager, as soon as the locator knows it, any
    other to the ELF loader of the boot modules, and the kernel, the space and the pager
    are set up in this order.  No other thread moves and the tables keep their
    invariant. *)
Theorem startTask_contract tries s ch lc c path :
  ts_inv s ch lc →
  available (λ t, bool_decide (as_ t = None)) (threads s) (next_thread_idx s) →
  available (λ a, bool_decide (firstThread a = None)) (spaces s) (next_as_idx s) →
  pager_known tries s →
  let id := L4_GlobalId (next_thread_no s) 1 in
  let area := L4_FpageLog2 my_local_id (utcb_area_size_log2 + 1) in
  runs (startTask tries (c :: path)) (λ r s', r = id ∧ ∃ i j pager,
    home (threads s) i = None ∧ ch j = [] ∧
    ts_inv s' (upd ch j [i]) (upd lc i []) ∧
    (∀ u, home (threads s') u = if decide (u = i) then Some j else home (threads s) u) ∧
    threads s' !! i = Some (Thread id (L4_Address area) (Some j) None None) ∧
    spaces s' !! j = Some (As area (if c =? 47 then pagedbyAppPager else pagedbyBiElfLoader) (Some i)) ∧
    pager = (if c =? 47 then apppagerid s' else ram_dsm_id) ∧ (c = 47 → pager ≠ 0) ∧
    calls s' = calls s ++ start_calls id area pager c path) s.
Proof.
  destruct s as [sp th li ti ai lj no pg lo cl]. intros Hinv Havt Hava Hpk id area.
  pose proof (ti_tables _ _ _ Hinv) as Hok. cbn [spaces threads listeners] in Hok.
  unfold startTask. apply runs_bind, get_free_runs; [apply Hinv|done|done|]. intros i x Hx Hfx. compact.
  apply runs_bind, get_free_runs; [apply Hinv|done|done|]. intros j a Ha Hfa. compact.
  apply bool_decide_eq_true in Hfx, Hfa. change (th !! i = Some x) in Hx. change (sp !! j = Some a) in Ha.
  pose proof (lookup_lt_Some _ _ _ Hx) as Hi. pose proof (lookup_lt_Some _ _ _ Ha) as Hj.
  set (z := Thread id (L4_Address area) (Some j) None None).
  apply runs_bind. poke_again Ha. compact. apply runs_bind. poke_again Hx. compact.
  unfold get_free_threadid. apply runs_bind, runs_bind, runs_get, runs_bind, runs_update, runs_ret. compact.
  apply runs_bind. poke_again Hx. compact. apply runs_bind. poke_again Ha. compact.
  apply runs_bind. poke_again Hx. compact.
  apply runs_bind, runs_update, runs_bind, runs_update. compact.
  apply runs_bind. eapply runs_follow; [done|]. rewrite !list_insert_insert_eq, <- app_assoc.
  match goal with |- runs _ _ ?st => set (s1 := st) end.
  assert (Eth : threads s1 = <[i := z]> th) by reflexivity.
  assert (Esp : spaces s1 = <[j := As area pagedbyBiElfLoader (Some i)]> sp) by reflexivity.
  assert (Eli : listeners s1 = li) by reflexivity.
  assert (Eca : calls s1 = cl ++ [ThreadControl id id myself L4_nilthread (2 ^ 32 - 1);
    SpaceControl id 0 (L4_FpageLog2 2952790016 14) area L4_anythread]) by reflexivity.
  assert (Hpk1 : pager_known tries s1) by exact Hpk.
  clearbody s1. cbn [spaces threads listeners calls].
  assert (Hz : threads s1 !! i = Some z) by (rewrite Eth; by apply list_lookup_insert_eq).
  assert (Hb : spaces s1 !! j = Some (As area pagedbyBiElfLoader (Some i))) by (rewrite Esp; by apply list_lookup_insert_eq).
  pose proof (λ s' pg, start_result _ s' ch lc i j x a id (L4_Address area) area pg Hinv Hx Hfx Ha Hfa) as Hgoal.
  cbn [spaces threads listeners] in Hgoal. fold z in Hgoal. rewrite <- Eth, <- Eli in Hgoal.
  unfold start_calls. destruct (Z.eqb_spec c 47) as [->|Hc]; simpl.
  - apply runs_bind, runs_bind. eapply runs_poke; [exact Hb|]. apply runs_bind.
    eapply runs_mono; [by apply get_apppager_spec|]. intros p s2 (Hp&n&->).
    apply runs_bind. eapply runs_peek; [exact Hz|]. apply runs_bind, runs_update, runs_update, runs_ret.
    match goal with |- _ ∧ ∃ _ _ _, _ ∧ _ ∧ ts_inv ?st _ _ ∧ _ => set (s' := st) end.
    destruct (Hgoal s' pagedbyAppPager) as (G1&G2&G3&G4&G5&G6); [done|done| |].
    { transitivity (<[j := As area pagedbyAppPager (Some i)]> (spaces s1)); [done|]. by rewrite Esp, list_insert_insert_eq. }
    split; [done|]. exists i, j, p. split_and!; try done.
    transitivity ((calls s1 ++ [ThreadControl id id L4_nilthread p (L4_Address area)]) ++
      [AppPager_associateImage p id path]); [done|]. by rewrite Eca, <- !app_assoc.
  - apply runs_bind, runs_bind. eapply runs_poke; [exact Hb|].
    apply runs_bind. eapply runs_peek; [exact Hz|]. apply runs_bind, runs_update, runs_update, runs_ret.
    match goal with |- _ ∧ ∃ _ _ _, _ ∧ _ ∧ ts_inv ?st _ _ ∧ _ => set (s' := st) end.
    destruct (Hgoal s' pagedbyBiElfLoader) as (G1&G2&G3&G4&G5&G6); [done|done| |].
    { transitivity (<[j := As area pagedbyBiElfLoader (Some i)]> (spaces s1)); [done|]. by rewrite Esp, list_insert_insert_eq. }
    split; [done|]. exists i, j, ram_dsm_id. split_and!; try done.
    transitivity ((calls s1 ++ [ThreadControl id id L4_nilthread ram_dsm_id (L4_Address area)]) ++
      [BiElf_associateImage id (u32 (i8 c))]); [done|]. by rewrite Eca, <- !app_assoc.
Qed.
End loops.

(** C39: [get_free_tcb] on each of its ends.  With the next index inside the array it
    takes the first free TCB from there on, cyclically, and clears it; the TCB before
    the next index is not looked at, so the search panics while that one may be free;
    from index 0 no TCB is left out, but [next_thread_idx - 1] wraps around and a search
    of a full array never ends; and after TCB 255 was taken the next search starts
    outside the array. *)
Theorem get_free_tcb_contract s :
  length (threads s) = MAX_NUM_THREADS → 0 ≤ next_thread_idx s ≤ 256 →
  let slot k := Z.to_nat (cyc 256 (next_thread_idx s) k) in
  let seen := searched MAX_NUM_THREADS (next_thread_idx s) in
  let taken k := (λ t, bool_decide (as_ t = None)) <$> threads s !! slot k = Some false in
  (next_thread_idx s = 256 → get_free_tcb s = Undefined) ∧
  (next_thread_idx s < 256 →
    (∀ k x, (k < seen)%nat → threads s !! slot k = Some x → as_ x = None → (∀ j, (j < k)%nat → taken j) →
      get_free_tcb s = Done (slot k)
        (s <| threads := <[slot k := Thread 0 0 None None None]> (threads s) |>
           <| next_thread_idx := Z.of_nat (slot k) + 1 |>)) ∧
    ((∀ k, (k < seen)%nat → taken k) → get_free_tcb s = if next_thread_idx s =? 0 then Spins else Halted s)).
Proof.
  intros Hlen Hn slot seen taken.
  destruct (get_free_spec (λ t, bool_decide (as_ t = None)) (Thread 0 0 None None None) MAX_NUM_THREADS
    next_thread_idx (λ n s, s <| next_thread_idx := n |>) s) as [Hout Hin];
    [unfold MAX_NUM_THREADS; lia|unfold MAX_NUM_THREADS; lia|done|done|].
  split; [exact Hout|]. intros Hlt. destruct (Hin Hlt) as [Hfound Hnone]. split; [|exact Hnone].
  intros k x Hk Hx Hfree Hbusy. refine (Hfound k x Hk Hx _ Hbusy). by apply bool_decide_eq_true.
Qed.
