(* ===== verification/ElfLoader.v ===== *)
(** Loading programs on page faults: the ELF loader of the boot modules
    (src/sdios/src/ram_dsm/bielfloader.cc, main.cc).  apppager.cc fills a page in the
    same way.

    Memory is addressed physically: a function from addresses to bytes.  What sigma0
    grants is a parameter of the definitions that ask it. *)

From S2P Require Import Prelude Machine Server L4Types.

Definition memory : Type := Z → Z.

Definition store (m : memory) (a v : Z) : memory := λ x, if x =? a then v else m x.

(** The little-endian value of [n] bytes at [a]. *)
Fixpoint load (n : nat) (m : memory) (a : Z) : Z :=
  match n with O => 0 | S n => m (u32 a) + 2 ^ 8 * load n m (a + 1) end.

(** [memset] and [memcpy] of include/stdlib.h at addresses. *)
Fixpoint fill (m : memory) (dest c : Z) (size : nat) : memory :=
  match size with O => m | S n => fill (store m (u32 dest) c) (dest + 1) c n end.
Fixpoint copy (m : memory) (dest src : Z) (size : nat) : memory :=
  match size with O => m | S n => copy (store m (u32 dest) (m (u32 src))) (dest + 1) (src + 1) n end.

(** * ELF images *)

(** [Elf32_Phdr], at the [i]-th place of the table at [phdr]. *)
Record Elf32_Phdr := Phdr { p_type : Z; p_offset : Z; p_vaddr : Z; p_filesz : Z; p_memsz : Z }.

Definition phdr_at (m : memory) (phdr i : Z) : Elf32_Phdr :=
  let a := phdr + 32 * i in
  Phdr (load 4 m a) (load 4 m (a + 4)) (load 4 m (a + 8)) (load 4 m (a + 16)) (load 4 m (a + 20)).

Definition e_entry (m : memory) (hdr : Z) : Z := load 4 m (hdr + 24).
Definition e_phoff (m : memory) (hdr : Z) : Z := load 4 m (hdr + 28).
Definition e_phnum (m : memory) (hdr : Z) : Z := load 2 m (hdr + 44).
Definition PT_LOAD : Z := 1.

(** Does the segment overlap the page? *)
Definition overlaps (page_start page_end : Z) (ph : Elf32_Phdr) : bool :=
  (p_vaddr ph <=? page_end) && (page_start <? u32 (p_vaddr ph + p_memsz ph)).

(** Where the copy starts in the segment and in the page, and how long it is. *)
Definition s_offset (page_start : Z) (ph : Elf32_Phdr) : Z :=
  if p_vaddr ph <? page_start then u32 (page_start - p_vaddr ph) else 0.
Definition d_offset (page_start : Z) (ph : Elf32_Phdr) : Z :=
  if page_start <? p_vaddr ph then u32 (p_vaddr ph - page_start) else 0.
Definition copylength (page_start : Z) (ph : Elf32_Phdr) : Z :=
  let s_max := u32 (p_filesz ph - s_offset page_start ph) in
  let d_max := u32 (4096 - d_offset page_start ph) in
  if d_max <? s_max then d_max else s_max.

(** The body of the loop over the program headers. *)
Definition load_section (page page_start page_end hdr : Z) (ph : Elf32_Phdr) (m : memory) : memory :=
  if (p_type ph =? PT_LOAD) && overlaps page_start page_end ph then
    copy m (u32 (d_offset page_start ph + L4_Address page))
      (u32 (s_offset page_start ph + u32 (hdr + p_offset ph)))
      (Z.to_nat (copylength page_start ph))
  else m.

(** [for (i = 0; i < hdr->e_phnum; i++)]; the header is read again in each round. *)
Fixpoint load_sections (fuel : nat) (page page_start page_end hdr phdr i : Z) (m : memory) : memory :=
  match fuel with
  | O => m
  | S fuel =>
      if i <? e_phnum m hdr
      then load_sections fuel page page_start page_end hdr phdr (i + 1)
             (load_section page page_start page_end hdr (phdr_at m phdr i) m)
      else m
  end.

(** [e_phnum] has 16 bits, so the loop has fewer rounds than this. *)
Definition phdr_fuel : nat := Z.to_nat 65536.

(** The page [page] gets what the image at [hdr] has at the page of [address]. *)
Definition fill_page (page address hdr : Z) (m : memory) : memory :=
  let page_start := Z.land address 4294963200 in
  let page_end := Z.lor address 4095 in
  let m := fill m (L4_Address page) 0 (Z.to_nat (L4_Size page)) in
  let phdr := u32 (e_phoff m hdr + hdr) in
  load_sections phdr_fuel page page_start page_end hdr phdr 0 m.

(** * Boot modules (include/l4/bootinfo.h) *)

Definition L4_BootInfo_Module : Z := 1.
Definition L4_Type (m : memory) (rec : Z) : Z := load 4 m rec.
Definition L4_Next (m : memory) (rec : Z) : Z := u32 (rec + load 4 m (rec + 8)).
Definition L4_Module_Start (m : memory) (rec : Z) : Z := load 4 m (rec + 12).
Definition L4_Module_Size (m : memory) (rec : Z) : Z := load 4 m (rec + 16).
Definition L4_BootInfo_FirstEntry (m : memory) (info : Z) : Z := u32 (info + load 4 m (info + 12)).
Definition L4_BootInfo_Entries (m : memory) (info : Z) : Z := load 4 m (info + 16).

(** * The server *)

Record association_t := Association { thread : Z; module : Z }.

Record bielfloader := Bielfloader {
  associationTable : list association_t;
  associationFreePos : Z;
  available_b : list Z;
  lastFreePageBase : Z;
  locator_id : Z;
  mem : memory;
}.
#[global] Instance bielfloader_fields : Fields bielfloader := λ r, {|
  associationTable := associationTable r; associationFreePos := associationFreePos r;
  available_b := available_b r; lastFreePageBase := lastFreePageBase r;
  locator_id := locator_id r; mem := mem r |}.

#[global] Program Instance associations_array : Array bielfloader association_t :=
  {| cells := associationTable; set_cells l s := s <| associationTable := l |> |}.
Next Obligation. done. Qed.
#[global] Program Instance available_array : Array bielfloader Z :=
  {| cells := available_b; set_cells l s := s <| available_b := l |> |}.
Next Obligation. done. Qed.

Definition ASSOC_TABLE_SIZE : Z := 64.
Definition AVAILABLE_BITMAP_SIZE : nat := 256.

Definition appendToAssociationTable (a : association_t) : Srv bielfloader unit :=
  n ← get associationFreePos;
  if n <? ASSOC_TABLE_SIZE - 1 then
    poke (Z.to_nat n) (λ _ : association_t, a);;
    update (λ s, s <| associationFreePos ::= λ n, n + 1 |>)
  else halt.

(** The module of the first association of the thread among the used ones, or 0. *)
Definition getModuleId (t : Z) : Srv bielfloader Z :=
  get (λ s, match list_find (λ a, thread a = t) (take (Z.to_nat (associationFreePos s)) (associationTable s)) with
            | Some (_, a) => module a | None => 0 end).

(** [available_b[i >> 17] & (1UL << ((i >> 12) & 0x1f))] for the page at [i]. *)
Definition page_word (i : Z) : nat := Z.to_nat (Z.shiftr i 17).
Definition page_mask (i : Z) : Z := Z.shiftl 1 (Z.land (Z.shiftr i 12) 31).

Fixpoint free_page_from (fuel : nat) (i : Z) : Srv bielfloader Z :=
  if i <? 33554432 then
    match fuel with
    | O => spins
    | S fuel =>
        free ← peek (λ w, has w (page_mask i)) (page_word i);
        if (free : bool) then
          poke (page_word i) (λ w, Z.land w (2 ^ 32 - 1 - page_mask i));;
          mret (L4_FpageLog2 i 12)
        else free_page_from fuel (i + 4096)
    end
  else mret L4_Nilpage.

Definition getFreePage : Srv bielfloader Z :=
  i ← get lastFreePageBase; free_page_from (Z.to_nat 8192) i.

(** [bootrec = L4_Next(bootrec)], [n] times. *)
Fixpoint next_records (m : memory) (n : nat) (rec : Z) : Z :=
  match n with O => rec | S n => next_records m n (L4_Next m rec) end.

Definition find_module (index bootinfo : Z) : Srv bielfloader Z :=
  m ← get mem;
  if L4_BootInfo_Entries m bootinfo <? index then halt
  else mret (next_records m (Z.to_nat index) (L4_BootInfo_FirstEntry m bootinfo)).

Definition elfLoadHeader (rec : Z) : Srv bielfloader Z :=
  m ← get mem;
  if negb (L4_Type m rec =? L4_BootInfo_Module) then halt else mret (L4_Module_Start m rec).

(** The page given back and the address it is mapped at. *)
Definition bielfloader_pagefault (bootinfo caller address : Z) : Srv bielfloader (Z * Z) :=
  moduleId ← getModuleId caller;
  module ← find_module moduleId bootinfo;
  hdr ← elfLoadHeader module;
  page ← getFreePage;
  if L4_IsNilFpage page then halt
  else
    update (λ s, s <| mem ::= fill_page page address hdr |>);;
    mret (page, Z.lor address 4095).

(** Every page of the module is asked of sigma0 before its header is read. *)
Fixpoint bring_in (sigma0 : Z → bool) (fuel : nat) (base module_end : Z) : Srv bielfloader unit :=
  if base <? module_end then
    match fuel with
    | O => spins
    | S fuel => if sigma0 base then bring_in sigma0 fuel (u32 (base + 4096)) module_end else halt
    end
  else mret tt.

(** The entry point, also sent to the new thread. *)
Definition bielfloader_associateImage (sigma0 : Z → bool) (bootinfo t bootModuleId : Z) : Srv bielfloader Z :=
  appendToAssociationTable (Association t bootModuleId);;
  module ← find_module bootModuleId bootinfo;
  m ← get mem;
  let module_start := L4_Module_Start m module in
  let module_end := u32 (L4_Module_Start m module + L4_Module_Size m module) in
  bring_in sigma0 (Z.to_nat (module_end - module_start)) module_start module_end;;
  hdr ← elfLoadHeader module;
  m ← get mem;
  mret (e_entry m hdr).

Definition bielfloader_copyAssociation (fromThread toThread : Z) : Srv bielfloader unit :=
  m ← getModuleId fromThread; appendToAssociationTable (Association toThread m).

Definition bielfloader_registerLocator (id : Z) : Srv bielfloader unit :=
  l ← get locator_id; onlyif (L4_IsNilThread l) (update (λ s, s <| locator_id := id |>)).

Definition bielfloader_getLocator : Srv bielfloader Z := get locator_id.

(** The start of [main]: the pages of 16 to 32 MB that sigma0 gives are available. *)
Fixpoint claim_pages (sigma0 : Z → bool) (n : nat) (i : Z) (available : list Z) : option (list Z) :=
  match n with
  | O => Some available
  | S n =>
      a ← (if sigma0 i then
             w ← available !! Z.to_nat (Z.shiftr i 5);
             Some (<[Z.to_nat (Z.shiftr i 5) := Z.lor w (Z.shiftl 1 (Z.land i 31))]> available)
           else Some available);
      claim_pages sigma0 n (i + 1) a
  end.
Definition main (sigma0 : Z → bool) : option (list Z) :=
  claim_pages sigma0 (Z.to_nat 4096) 4096 (repeat 0 AVAILABLE_BITMAP_SIZE).
