(* ===== verification/ElfLoaderSpec.v ===== *)
(** What a program finds in its memory after a page fault, and that no page is given
    out twice. *)

From S2P Require Import Prelude Machine Server L4Types ElfLoader.

(** * Memory *)

Definition bytes_ok (m : memory) : Prop := ∀ x, byte_ok (m x).

(** [n] addresses from [a] that do not wrap around. *)
Definition in_range (a n : Z) : Prop := 0 ≤ a ∧ a + n ≤ 2 ^ 32.

Lemma fill_spec m dest c n x :
  in_range dest (Z.of_nat n) →
  fill m dest c n x = if decide (dest ≤ x < dest + Z.of_nat n) then c else m x.
Proof.
  revert m dest. induction n as [|n IH]; intros m dest [H0 Hr]; simpl.
  - by rewrite decide_False by lia.
  - rewrite IH by (split; lia). unfold store. rewrite u32_id by lia.
    repeat case_decide; destruct (Z.eqb_spec x dest); try lia; done.
Qed.

Lemma copy_spec m dest src n x :
  in_range dest (Z.of_nat n) → in_range src (Z.of_nat n) →
  dest + Z.of_nat n ≤ src ∨ src + Z.of_nat n ≤ dest →
  copy m dest src n x = if decide (dest ≤ x < dest + Z.of_nat n) then m (src + (x - dest)) else m x.
Proof.
  revert m dest src. induction n as [|n IH]; intros m dest src [H0 Hr] [H0' Hr'] Hd; simpl.
  - by rewrite decide_False by lia.
  - rewrite IH by (try split; lia). unfold store. rewrite !u32_id by lia.
    repeat case_decide; try lia.
    + destruct (Z.eqb_spec (src + 1 + (x - (dest + 1))) dest); [lia|]. f_equal. lia.
    + destruct (Z.eqb_spec x dest) as [->|]; [|lia]. f_equal. lia.
    + destruct (Z.eqb_spec x dest); [lia|done].
Qed.

Lemma load_ext n m m' a : in_range a (Z.of_nat n) →
  (∀ x, a ≤ x < a + Z.of_nat n → m' x = m x) → load n m' a = load n m a.
Proof.
  revert a. induction n as [|n IH]; intros a [H0 Hr] Hx; simpl; [done|].
  rewrite u32_id by lia. rewrite Hx by lia. rewrite IH; [done|split; lia|]. intros x ?. apply Hx. lia.
Qed.

Lemma load_range n m a : bytes_ok m → 0 ≤ load n m a < 2 ^ (8 * Z.of_nat n).
Proof.
  intros Hb. revert a. induction n as [|n IH]; intros a; [simpl; lia|]. cbn [load].
  specialize (IH (a + 1)). pose proof (Hb (u32 a)) as Hu. unfold byte_ok in Hu.
  replace (8 * Z.of_nat (S n)) with (8 + 8 * Z.of_nat n) by lia. rewrite Z.pow_add_r by lia. nia.
Qed.

(** * Images *)

Definition phdrs (m : memory) (hdr : Z) : list Elf32_Phdr :=
  phdr_at m (hdr + e_phoff m hdr) <$> seqZ 0 (e_phnum m hdr).

(** The image of [len] bytes at [hdr]: the table and the segments are inside the image,
    and no segment wraps around the address space. *)
Record file_ok (m : memory) (hdr len : Z) : Prop := {
  im_bytes : bytes_ok m;
  im_range : 0 ≤ hdr ∧ hdr + len < 2 ^ 32;
  im_header : 52 ≤ len;
  im_table : e_phoff m hdr + 32 * e_phnum m hdr ≤ len;
  im_segment ph : ph ∈ phdrs m hdr → p_type ph = PT_LOAD →
    p_offset ph + p_filesz ph ≤ len ∧ p_filesz ph ≤ p_memsz ph ∧ p_vaddr ph + p_memsz ph < 2 ^ 32;
}.

(** It is away from the page at [page]. *)
Record image_ok (m : memory) (hdr len page : Z) : Prop := {
  im_file : file_ok m hdr len;
  im_page : in_range page 4096;
  im_apart : hdr + len ≤ page ∨ page + 4096 ≤ hdr;
}.

(** The byte the file has for the address [va]: of the last segment that holds it, and 0
    where no segment has a byte in the file. *)
Definition in_file (va : Z) (ph : Elf32_Phdr) : bool :=
  (p_type ph =? PT_LOAD) && (p_vaddr ph <=? va) && (va <? p_vaddr ph + p_filesz ph).
Definition elf_byte (m : memory) (hdr : Z) (phs : list Elf32_Phdr) (va : Z) : Z :=
  foldl (λ b ph, if in_file va ph then m (hdr + p_offset ph + (va - p_vaddr ph)) else b) 0 phs.

(** The page is not in the part of a segment that is only in memory. *)
Definition in_file_part (page_start : Z) (ph : Elf32_Phdr) : Prop :=
  p_type ph = PT_LOAD → overlaps page_start (page_start + 4095) ph = true →
  page_start ≤ p_vaddr ph + p_filesz ph.

(** [m'] is [m] on the image. *)
Definition same_image (m m' : memory) (hdr len : Z) : Prop := ∀ x, hdr ≤ x < hdr + len → m' x = m x.

Record phdr_ok (ph : Elf32_Phdr) : Prop := {
  ph_offset : 0 ≤ p_offset ph;
  ph_vaddr : 0 ≤ p_vaddr ph;
  ph_filesz : 0 ≤ p_filesz ph;
}.

Lemma phdr_at_ok m a i : bytes_ok m → phdr_ok (phdr_at m a i).
Proof. intros Hb. split; apply (proj1 (load_range 4 m _ Hb)). Qed.

Section file.
Context (m : memory) (hdr len : Z) (Hok : file_ok m hdr len).

Lemma im_phoff : 0 ≤ e_phoff m hdr.
Proof. apply (proj1 (load_range 4 m _ (im_bytes _ _ _ Hok))). Qed.
Lemma im_phnum : 0 ≤ e_phnum m hdr < 2 ^ 16.
Proof. apply (load_range 2 m _ (im_bytes _ _ _ Hok)). Qed.

Lemma header_same m' : same_image m m' hdr len →
  e_phoff m' hdr = e_phoff m hdr ∧ e_phnum m' hdr = e_phnum m hdr ∧
  ∀ i, 0 ≤ i < e_phnum m hdr → phdr_at m' (hdr + e_phoff m hdr) i = phdr_at m (hdr + e_phoff m hdr) i.
Proof.
  intros Hs. destruct (im_range _ _ _ Hok) as [H0 Hr].
  pose proof (im_header _ _ _ Hok). pose proof (im_table _ _ _ Hok). pose proof im_phoff.
  assert (Hl : ∀ n a, hdr ≤ a → a + Z.of_nat n ≤ hdr + len → load n m' a = load n m a).
  { intros n a ? ?. apply load_ext; [split; lia|]. intros x ?. apply Hs. lia. }
  split_and!; [apply Hl; lia|apply Hl; lia|]. intros i Hi. unfold phdr_at. rewrite !Hl by lia. done.
Qed.

Lemma phdrs_lookup i : 0 ≤ i < e_phnum m hdr →
  phdrs m hdr !! Z.to_nat i = Some (phdr_at m (hdr + e_phoff m hdr) i).
Proof.
  intros Hi. unfold phdrs. rewrite list_lookup_fmap, lookup_seqZ_lt by lia. simpl. do 2 f_equal. lia.
Qed.

Lemma length_phdrs : length (phdrs m hdr) = Z.to_nat (e_phnum m hdr).
Proof. unfold phdrs. by rewrite length_fmap, length_seqZ. Qed.
End file.

Section image.
Context (m : memory) (hdr len page : Z) (Hok : image_ok m hdr len page).
Let Hfile : file_ok m hdr len := im_file _ _ _ _ Hok.

(** One segment. *)
Lemma load_section_spec m' page_start ph x :
  ph ∈ phdrs m hdr → same_image m m' hdr len → 0 ≤ page_start → page_start + 4096 ≤ 2 ^ 32 →
  page mod 2 ^ 12 = 0 → in_file_part page_start ph →
  load_section (L4_FpageLog2 page 12) page_start (page_start + 4095) hdr ph m' x
  = if bool_decide (page ≤ x < page + 4096) && in_file (page_start + (x - page)) ph
    then m (hdr + p_offset ph + (page_start + (x - page) - p_vaddr ph)) else m' x.
Proof.
  intros Hin Hs Hps Hpe Hal Hpart. destruct (im_range _ _ _ Hfile) as [H0 Hr].
  destruct (im_page _ _ _ _ Hok) as [Hp0 Hpr]. pose proof (im_apart _ _ _ _ Hok) as Hap.
  assert (phdr_ok ph) as [Ho Hv Hf].
  { apply list_elem_of_fmap in Hin as (i&->&_). apply phdr_at_ok, Hfile. }
  unfold load_section, in_file. destruct (Z.eqb_spec (p_type ph) PT_LOAD) as [Ht|Ht]; simpl; [|by rewrite andb_false_r].
  destruct (im_segment _ _ _ Hfile ph Hin Ht) as (Hseg&Hfm&Hvm). specialize (Hpart Ht).
  destruct (overlaps page_start (page_start + 4095) ph) eqn:Eov.
  - specialize (Hpart eq_refl). unfold overlaps in Eov. rewrite u32_id in Eov by lia.
    apply andb_true_iff in Eov as [E1%Z.leb_le E2%Z.ltb_lt].
    destruct (L4_FpageLog2_parts page 12) as [-> _]; [lia|lia|done|].
    assert (Hoff : ∃ so d, s_offset page_start ph = so ∧ d_offset page_start ph = d ∧
      0 ≤ so ∧ 0 ≤ d < 4096 ∧ so ≤ p_filesz ph ∧ page_start + d = p_vaddr ph + so ∧ (so = 0 ∨ d = 0)).
    { unfold s_offset, d_offset. eexists _, _. split; [done|]. split; [done|].
      destruct (Z.ltb_spec (p_vaddr ph) page_start), (Z.ltb_spec page_start (p_vaddr ph));
        rewrite ?u32_id by lia; lia. }
    destruct Hoff as (so&d&Es&Ed&Hso&Hd&Hsf&Heq&Hz). unfold copylength. rewrite Es, Ed.
    rewrite (u32_id (p_filesz ph - so)), (u32_id (4096 - d)) by lia.
    set (n := if 4096 - d <? p_filesz ph - so then 4096 - d else p_filesz ph - so).
    assert (Hn : n = Z.min (4096 - d) (p_filesz ph - so)) by (unfold n; destruct (Z.ltb_spec (4096 - d) (p_filesz ph - so)); lia).
    rewrite (u32_id (d + page)), (u32_id (hdr + p_offset ph)) by lia.
    destruct (decide (n = 0)) as [En|En].
    { rewrite En. simpl. destruct (bool_decide_reflect (page ≤ x < page + 4096)); simpl; [|done].
      destruct (Z.leb_spec (p_vaddr ph) (page_start + (x - page))); simpl; [|done].
      destruct (Z.ltb_spec (page_start + (x - page)) (p_vaddr ph + p_filesz ph)); [lia|done]. }
    rewrite (u32_id (so + (hdr + p_offset ph))) by lia.
    rewrite copy_spec by (rewrite ?Z2Nat.id by lia; try split; lia). rewrite Z2Nat.id by lia.
    case_decide as Ex.
    + rewrite bool_decide_eq_true_2 by lia.
      rewrite (proj2 (Z.leb_le _ _)) by lia. rewrite (proj2 (Z.ltb_lt _ _)) by lia. simpl.
      rewrite Hs by lia. f_equal. lia.
    + destruct (bool_decide_reflect (page ≤ x < page + 4096)); simpl; [|done].
      destruct (Z.leb_spec (p_vaddr ph) (page_start + (x - page))); simpl; [|done].
      destruct (Z.ltb_spec (page_start + (x - page)) (p_vaddr ph + p_filesz ph)); [lia|done].
  - clear Hpart. destruct (bool_decide_reflect (page ≤ x < page + 4096)) as [Hx|]; simpl; [|done].
    destruct (Z.leb_spec (p_vaddr ph) (page_start + (x - page))) as [H1|]; simpl; [|done].
    destruct (Z.ltb_spec (page_start + (x - page)) (p_vaddr ph + p_filesz ph)) as [H2|]; [|done].
    exfalso. unfold overlaps in Eov. rewrite u32_id in Eov by lia.
    rewrite (proj2 (Z.leb_le _ _)) in Eov by lia. rewrite (proj2 (Z.ltb_lt _ _)) in Eov by lia. done.
Qed.

(** The loop from the [i]-th header on. *)
Lemma load_sections_spec fuel page_start i m' :
  0 ≤ page_start → page_start + 4096 ≤ 2 ^ 32 → page mod 2 ^ 12 = 0 →
  Forall (in_file_part page_start) (phdrs m hdr) →
  0 ≤ i ≤ e_phnum m hdr → e_phnum m hdr - i < Z.of_nat fuel →
  same_image m m' hdr len →
  (∀ k, 0 ≤ k < 4096 → m' (page + k) = elf_byte m hdr (take (Z.to_nat i) (phdrs m hdr)) (page_start + k)) →
  let r := load_sections fuel (L4_FpageLog2 page 12) page_start (page_start + 4095) hdr (hdr + e_phoff m hdr) i m' in
  (∀ k, 0 ≤ k < 4096 → r (page + k) = elf_byte m hdr (phdrs m hdr) (page_start + k)) ∧
  (∀ x, ¬ page ≤ x < page + 4096 → r x = m' x).
Proof.
  intros Hps Hpe Hal Hparts. revert i m'. induction fuel as [|fuel IH]; intros i m' Hi Hf Hs Hm'; [lia|].
  destruct (header_same m hdr len Hfile m' Hs) as (Ho&Hn&Hph). cbn [load_sections]. rewrite Hn.
  destruct (Z.ltb_spec i (e_phnum m hdr)) as [Hlt|Hge].
  - rewrite Hph by lia. set (ph := phdr_at m (hdr + e_phoff m hdr) i).
    assert (Hlk : phdrs m hdr !! Z.to_nat i = Some ph) by (apply phdrs_lookup; lia).
    assert (Hin : ph ∈ phdrs m hdr) by by eapply list_elem_of_lookup_2.
    assert (Hpart : in_file_part page_start ph) by by eapply Forall_lookup_1.
    assert (Hsec := load_section_spec m' page_start ph).
    set (m1 := load_section _ _ _ _ _ _). destruct (IH (i + 1) m1) as [IH1 IH2]; [lia|lia| | |].
    + intros x Hx. unfold m1. rewrite Hsec by done. pose proof (im_apart _ _ _ _ Hok).
      rewrite bool_decide_eq_false_2 by lia. by apply Hs.
    + intros k Hk. unfold m1. rewrite Hsec by done. rewrite bool_decide_eq_true_2 by lia. simpl.
      replace (page + k - page) with k by lia.
      rewrite Z2Nat.inj_add, Nat.add_1_r by lia. rewrite (take_S_r _ _ _ Hlk).
      unfold elf_byte. rewrite foldl_app. simpl. fold (elf_byte m hdr (take (Z.to_nat i) (phdrs m hdr)) (page_start + k)).
      by rewrite <- Hm' by done.
    + split; [exact IH1|]. intros x Hx. rewrite IH2 by done. unfold m1. rewrite Hsec by done.
      by rewrite bool_decide_eq_false_2 by done.
  - split; [|done]. intros k Hk. rewrite Hm' by done. f_equal. apply take_ge. rewrite length_phdrs. lia.
Qed.

(** The page of an address. *)
Lemma page_bounds address : 0 ≤ address < 2 ^ 32 →
  Z.land address 4294963200 = 4096 * (address / 4096) ∧
  Z.lor address 4095 = 4096 * (address / 4096) + 4095.
Proof.
  intros Ha. split; [apply (land_high address 12); lia|].
  replace (Z.lor address 4095) with (Z.lor (Z.shiftl (Z.shiftr address 12) 12) 4095).
  { rewrite lor_shiftl_add, Z.shiftr_div_pow2 by lia. change (2 ^ 12) with 4096. lia. }
  apply Z.bits_inj'. intros n Hn. rewrite !Z.lor_spec. change 4095 with (Z.ones 12).
  destruct (decide (n < 12)).
  - by rewrite Z.ones_spec_low, !orb_true_r by lia.
  - rewrite Z.ones_spec_high, !orb_false_r by lia. rewrite Z.shiftl_spec, Z.shiftr_spec by lia. f_equal. lia.
Qed.

Lemma phdr_fuel_value : Z.of_nat phdr_fuel = 65536.
Proof. unfold phdr_fuel. by rewrite Z2Nat.id. Qed.

(** C20: the page a page fault fills ([bielfloader_pagefault] and
    [apppager_pagefault]) is the page of the program: when the image is well formed and
    away from it, and the faulting page is in the part of its segments that is in the
    file, every byte of it is the byte the last segment that holds its address has in
    the file, and 0 where no segment has one; no other byte of memory changes. *)
Theorem fill_page_contract address :
  0 ≤ address < 2 ^ 32 → page mod 2 ^ 12 = 0 →
  let page_start := 4096 * (address / 4096) in
  Forall (in_file_part page_start) (phdrs m hdr) →
  let r := fill_page (L4_FpageLog2 page 12) address hdr m in
  (∀ k, 0 ≤ k < 4096 → r (page + k) = elf_byte m hdr (phdrs m hdr) (page_start + k)) ∧
  (∀ x, ¬ page ≤ x < page + 4096 → r x = m x).
Proof.
  intros Ha Hal page_start Hparts. destruct (im_page _ _ _ _ Hok) as [Hp0 Hpr].
  destruct (page_bounds address Ha) as [El Eh]. pose proof (im_apart _ _ _ _ Hok) as Hap.
  destruct (L4_FpageLog2_parts page 12) as [Eaddr Esize]; [lia|lia|done|].
  unfold fill_page. rewrite El, Eh, Eaddr, Esize. set (m0 := fill _ _ _ _).
  assert (Hm0 : ∀ x, m0 x = if decide (page ≤ x < page + 4096) then 0 else m x).
  { intros x. unfold m0. by rewrite fill_spec by (split; lia). }
  clearbody m0.
  assert (Hs : same_image m m0 hdr len) by (intros x ?; rewrite Hm0; by rewrite decide_False by lia).
  destruct (header_same m hdr len Hfile m0 Hs) as (Ho&_&_). rewrite Ho.
  pose proof (im_phoff m hdr len Hfile). pose proof (im_phnum m hdr len Hfile). destruct (im_range _ _ _ Hfile). pose proof (im_table _ _ _ Hfile).
  rewrite u32_id by lia. rewrite (Z.add_comm (e_phoff m hdr)).
  pose proof phdr_fuel_value as Hfuel. revert Hfuel. generalize phdr_fuel. intros fuel Hfuel.
  destruct (load_sections_spec fuel page_start 0 m0) as [Hr1 Hr2]; try done; try lia; try (unfold page_start; zlia).
  - intros k Hk. rewrite Hm0. by rewrite decide_True by lia.
  - split; [exact Hr1|]. intros x Hx. rewrite Hr2 by done. rewrite Hm0. by rewrite decide_False.
Qed.

(** a page past the file data of its segment, which the program expects to be zero,
    is not: [p_filesz - s_offset] is taken on unsigned words, the copy is as long as the
    page, and the program gets what follows the segment in the image.  This is the step
    for one segment. *)
Theorem bss_page_contract ph page_start m' x :
  0 ≤ page_start → page_start + 4096 ≤ 2 ^ 32 → page mod 2 ^ 12 = 0 → phdr_ok ph → p_type ph = PT_LOAD →
  p_vaddr ph + p_filesz ph < page_start < p_vaddr ph + p_memsz ph → p_vaddr ph + p_memsz ph < 2 ^ 32 - 4096 →
  hdr + p_offset ph + (page_start - p_vaddr ph) + 4096 ≤ 2 ^ 32 →
  hdr + p_offset ph + (page_start - p_vaddr ph) + 4096 ≤ page ∨ page + 4096 ≤ hdr + p_offset ph + (page_start - p_vaddr ph) →
  page ≤ x < page + 4096 →
  load_section (L4_FpageLog2 page 12) page_start (page_start + 4095) hdr ph m' x
  = m' (hdr + p_offset ph + (page_start + (x - page) - p_vaddr ph)).
Proof.
  intros Hps Hpe Hal [Ho Hv Hf] Ht Hbss Hvm Hsrc Hdis Hx. destruct (im_range _ _ _ Hfile) as [H0 Hr].
  destruct (im_page _ _ _ _ Hok) as [Hp0 Hpr].
  destruct (L4_FpageLog2_parts page 12) as [Eaddr _]; [lia|lia|done|].
  unfold load_section. rewrite Ht, Z.eqb_refl. unfold overlaps. rewrite u32_id by lia.
  rewrite (proj2 (Z.leb_le _ _)) by lia. rewrite (proj2 (Z.ltb_lt _ _)) by lia. cbn [andb].
  assert (Es : s_offset page_start ph = page_start - p_vaddr ph).
  { unfold s_offset. rewrite (proj2 (Z.ltb_lt _ _)) by lia. by rewrite u32_id by lia. }
  assert (Ed : d_offset page_start ph = 0).
  { unfold d_offset. by rewrite (proj2 (Z.ltb_ge _ _)) by lia. }
  assert (Ec : copylength page_start ph = 4096).
  { unfold copylength. rewrite Es, Ed. rewrite (u32_id (4096 - 0)) by lia.
    replace (u32 (p_filesz ph - (page_start - p_vaddr ph))) with (2 ^ 32 + (p_filesz ph - (page_start - p_vaddr ph)))
      by (unfold u32; apply Z.mod_unique with (q := -1); lia).
    by rewrite (proj2 (Z.ltb_lt _ _)) by lia. }
  rewrite Es, Ed, Ec, Eaddr, Z.add_0_l. rewrite (u32_id page), (u32_id (hdr + p_offset ph)) by lia.
  rewrite (u32_id (page_start - p_vaddr ph + _)) by lia.
  rewrite copy_spec by (rewrite ?Z2Nat.id by lia; try split; lia). rewrite Z2Nat.id by lia.
  rewrite decide_True by lia. f_equal. lia.
Qed.
End image.

(** * The pages that are free *)

Definition page_free (available : list Z) (n : Z) : bool :=
  match available !! Z.to_nat (n / 32) with Some w => Z.testbit w (n mod 32) | None => false end.

Lemma page_word_mask n : 0 ≤ n →
  page_word (4096 * n) = Z.to_nat (n / 32) ∧ page_mask (4096 * n) = Z.shiftl 1 (n mod 32).
Proof.
  intros Hn. unfold page_word, page_mask. rewrite !Z.shiftr_div_pow2 by lia.
  change 31 with (2 ^ 5 - 1). rewrite land_mask by lia. split.
  - change (2 ^ 17) with (4096 * 32). by rewrite Z.div_mul_cancel_l by lia.
  - change (2 ^ 12) with 4096. by rewrite (Z.mul_comm 4096), Z.div_mul by lia.
Qed.

(** Clearing a bit of a word. *)
Lemma land_clear w b i : 0 ≤ w < 2 ^ 32 → 0 ≤ b < 32 → 0 ≤ i →
  Z.testbit (Z.land w (2 ^ 32 - 1 - Z.shiftl 1 b)) i = Z.testbit w i && negb (i =? b).
Proof.
  intros Hw Hb Hi. rewrite Z.land_spec. rewrite Z.shiftl_1_l.
  destruct (decide (i < 32)) as [Hlt|Hge].
  - f_equal. replace (2 ^ 32 - 1 - 2 ^ b) with (Z.lxor (Z.ones 32) (2 ^ b)).
    + rewrite Z.lxor_spec, Z.ones_spec_low, Z.pow2_bits_eqb by lia. rewrite (Z.eqb_sym b). done.
    + change (2 ^ 32 - 1) with (Z.ones 32). rewrite Z.sub_nocarry_ldiff.
      2:{ apply Z.bits_inj'. intros k Hk. rewrite Z.ldiff_spec, Z.pow2_bits_eqb, Z.bits_0 by lia.
          destruct (Z.eqb_spec b k) as [->|]; [|done]. by rewrite Z.ones_spec_low by lia. }
      apply Z.bits_inj'. intros k Hk. rewrite Z.lxor_spec, Z.ldiff_spec, Z.pow2_bits_eqb by lia.
      destruct (Z.eqb_spec b k) as [->|]; [by rewrite Z.ones_spec_low by lia|].
      by rewrite xorb_false_r, andb_true_r.
  - rewrite (proj1 (Z.bounded_iff_bits_nonneg 32 w ltac:(lia) ltac:(lia)) ltac:(lia) i) by lia. done.
Qed.

Lemma page_free_poke l n w k :
  Forall (λ w, 0 ≤ w < 2 ^ 32) l → 0 ≤ n → 0 ≤ k → l !! Z.to_nat (n / 32) = Some w →
  page_free (<[Z.to_nat (n / 32) := Z.land w (2 ^ 32 - 1 - Z.shiftl 1 (n mod 32))]> l) k
  = page_free l k && negb (k =? n).
Proof.
  intros Hl Hn Hk Hw. unfold page_free. pose proof (proj1 (Forall_lookup _ _) Hl _ _ Hw) as Hr. simpl in Hr.
  destruct (decide (Z.to_nat (k / 32) = Z.to_nat (n / 32))) as [E|E].
  - rewrite E, list_lookup_insert_eq, Hw by by eapply lookup_lt_Some.
    rewrite land_clear by (done || apply Z.mod_pos_bound; lia). f_equal. f_equal.
    destruct (Z.eqb_spec (k mod 32) (n mod 32)), (Z.eqb_spec k n); try done; zlia.
  - rewrite list_lookup_insert_ne by done. destruct (Z.eqb_spec k n) as [->|]; [done|].
    by rewrite andb_true_r.
Qed.

(** What a search of the pages from [n] on gives. *)
Definition page_found s s' (n r : Z) : Prop :=
  (r = L4_Nilpage ∧ s' = s ∧ ∀ k, n ≤ k < 8192 → page_free (available_b s) k = false) ∨
  ∃ p, n ≤ p < 8192 ∧ r = L4_FpageLog2 (4096 * p) 12 ∧ page_free (available_b s) p = true ∧
    (∀ k, n ≤ k < p → page_free (available_b s) k = false) ∧
    (∀ k, 0 ≤ k → page_free (available_b s') k = page_free (available_b s) k && negb (k =? p)) ∧
    s' = s <| available_b := available_b s' |>.

Lemma free_page_from_spec fuel n s :
  Forall (λ w, 0 ≤ w < 2 ^ 32) (available_b s) → length (available_b s) = AVAILABLE_BITMAP_SIZE →
  0 ≤ n → 8192 - n ≤ Z.of_nat fuel →
  runs (free_page_from fuel (4096 * n)) (λ r s', page_found s s' n r) s.
Proof.
  intros Hw Hl. revert n. induction fuel as [|fuel IH]; intros n Hn Hf; cbn [free_page_from];
    destruct (Z.ltb_spec (4096 * n) 33554432) as [Hlt|Hge]; try lia.
  - apply runs_ret. left. split_and!; try done. lia.
  - destruct (page_word_mask n Hn) as [-> ->].
    destruct (lookup_lt_is_Some_2 (available_b s) (Z.to_nat (n / 32))) as [w Hlk].
    { rewrite Hl. unfold AVAILABLE_BITMAP_SIZE. zlia. }
    apply runs_bind. eapply runs_peek; [exact Hlk|]. rewrite has_bit by (apply Z.mod_pos_bound; lia).
    assert (Hpf : page_free (available_b s) n = Z.testbit w (n mod 32)) by (unfold page_free; by rewrite Hlk).
    destruct (Z.testbit w (n mod 32)) eqn:Eb.
    + apply runs_bind. eapply runs_poke; [exact Hlk|]. apply runs_ret. right. exists n.
      split_and!; try done; try lia. intros k Hk. by apply page_free_poke.
    + replace (4096 * n + 4096) with (4096 * (n + 1)) by lia. eapply runs_mono; [apply IH; lia|].
      intros r s' [(->&->&Hno)|(p&Hp&->&Hfree&Hno&Hrest)].
      * left. split_and!; try done. intros k Hk. destruct (decide (k = n)) as [->|]; [congruence|]. apply Hno. lia.
      * right. exists p. split_and!; try done; try lia; try apply Hrest.
        intros k Hk. destruct (decide (k = n)) as [->|]; [congruence|]. apply Hno. lia.
  - apply runs_ret. left. split_and!; try done. lia.
Qed.

(** [getFreePage] gives the lowest free page from [lastFreePageBase] on, as a
    flexpage of 4 KB, and takes exactly this one from the free pages, so no page is
    given twice; without one it gives the nil page and changes nothing; it always
    returns, within the 8192 pages of the bitmap. *)
Theorem getFreePage_contract s n :
  Forall (λ w, 0 ≤ w < 2 ^ 32) (available_b s) → length (available_b s) = AVAILABLE_BITMAP_SIZE →
  0 ≤ n → lastFreePageBase s = 4096 * n →
  runs getFreePage (λ r s',
    page_found s s' n r ∧
    (r ≠ L4_Nilpage → ∃ p, L4_Address r = 4096 * p ∧ L4_Size r = 4096 ∧ page_free (available_b s') p = false)) s.
Proof.
  intros Hw Hl Hn Hb. unfold getFreePage. apply runs_bind, runs_get. rewrite Hb.
  eapply runs_mono; [apply free_page_from_spec; try done; lia|]. intros r s' Hr. split; [done|].
  intros Hnil. destruct Hr as [(->&_)|(p&Hp&->&_&_&Hrest&_)]; [done|]. exists p.
  destruct (L4_FpageLog2_parts (4096 * p) 12) as [-> ->]; [lia|lia|zlia|]. split_and!; try done.
  rewrite Hrest by lia. by rewrite Z.eqb_refl, andb_false_r.
Qed.

(** the associations: what [associateImage] or [copyAssociation] enters for a thread
    without one is what [getModuleId] finds, the other threads keep theirs, and a thread
    keeps its first; the last of the 64 places is never used: the server stops when 63
    are taken. *)
Theorem appendToAssociationTable_contract s a :
  Z.of_nat (length (associationTable s)) = ASSOC_TABLE_SIZE → 0 ≤ associationFreePos s ≤ ASSOC_TABLE_SIZE - 1 →
  let found s t := match getModuleId t s with Done m _ => m | _ => 0 end in
  let used s := take (Z.to_nat (associationFreePos s)) (associationTable s) in
  if associationFreePos s =? ASSOC_TABLE_SIZE - 1
  then appendToAssociationTable a s = Halted s
  else runs (appendToAssociationTable a) (λ _ s', used s' = used s ++ [a] ∧
         ∀ t, found s' t = if decide (t = thread a ∧ t ∉ (thread <$> used s)) then module a else found s t) s.
Proof.
  intros Hl Hp found used. unfold ASSOC_TABLE_SIZE in Hl, Hp |- *.
  destruct (Z.eqb_spec (associationFreePos s) (64 - 1)) as [E|E].
  { unfold appendToAssociationTable, ASSOC_TABLE_SIZE, get, mbind, Srv_bind. by rewrite E. }
  unfold appendToAssociationTable, ASSOC_TABLE_SIZE. apply runs_bind, runs_get.
  rewrite (proj2 (Z.ltb_lt _ _)) by lia.
  destruct (lookup_lt_is_Some_2 (associationTable s) (Z.to_nat (associationFreePos s))) as [x Hx]; [lia|].
  apply runs_bind. eapply runs_poke; [exact Hx|]. apply runs_update.
  set (s' := _ <| associationFreePos ::= _ |>).
  assert (Hu : used s' = used s ++ [a]).
  { transitivity (take (Z.to_nat (associationFreePos s + 1)) (<[Z.to_nat (associationFreePos s) := a]> (associationTable s))); [done|].
    rewrite Z2Nat.inj_add, Nat.add_1_r by lia.
    rewrite (take_S_r _ _ a) by (rewrite list_lookup_insert_eq; [done|lia]).
    by rewrite take_insert_ge by lia. }
  split; [done|]. intros t.
  assert (Hf : ∀ s0, found s0 t = match list_find (λ a, thread a = t) (used s0) with Some (_, a) => module a | None => 0 end) by done.
  rewrite !Hf, Hu. destruct (list_find (λ a, thread a = t) (used s)) as [[i y]|] eqn:El.
  - rewrite (list_find_app_l _ _ _ _ _ El). rewrite decide_False; [done|]. intros [_ Hnin]. apply Hnin.
    apply list_find_Some in El as (Hi&<-&_). apply list_elem_of_fmap. exists y. split; [done|]. by eapply list_elem_of_lookup_2.
  - rewrite list_find_app_r by done. pose proof El as Hnone. apply list_find_None in Hnone.
    assert (t ∉ (thread <$> used s)) as Hnin.
    { intros Hin. apply list_elem_of_fmap in Hin as (y&->&Hy). by apply (proj1 (Forall_forall _ _) Hnone y Hy). }
    simpl. destruct (decide (thread a = t)) as [Et|Et].
    + by rewrite decide_True.
    + rewrite decide_False by naive_solver. done.
Qed.
