(* ===== verification/SimpleFs.v ===== *)
(** The simple file system (src/sdios/src/simplefs/filesystem.cc): files of whole pages,
    one behind the other from 1 GB on, and the table of their handles.

    A file name arrives as the bytes of the client's string.  The name of a handle is
    its array of 16 bytes: a comparison that runs over its end is undefined here. *)

From S2P Require Import Prelude Machine Server L4Types ElfLoader.

Record filehandle_t := Filehandle { position : Z; size : Z; valid : bool; name : list Z }.
#[global] Instance filehandle_fields : Fields filehandle_t := λ r, {|
  position := position r; size := size r; valid := valid r; name := name r |}.

Definition MAXFILE : nat := 255.
Definition beginOfFilesystem : Z := 1073741824.

Record simplefs := Simplefs {
  filehandles : list filehandle_t;
  filesystemPointer : Z;
  fs_mem : memory;
}.
#[global] Instance simplefs_fields : Fields simplefs := λ r, {|
  filehandles := filehandles r; filesystemPointer := filesystemPointer r; fs_mem := fs_mem r |}.

#[global] Program Instance filehandles_array : Array simplefs filehandle_t :=
  {| cells := filehandles; set_cells l s := s <| filehandles := l |> |}.
Next Obligation. done. Qed.

(** The exceptions of IF_FILESYSTEM. *)
Inductive fs_exception :=
  | fileNotFound | readError | writeError | outOfFilehandles | outOfMemory | fileExists.

(** [for (i = 0; i < MAXFILE; i++)] *)
Fixpoint init_from (n i : nat) : Srv simplefs unit :=
  match n with
  | O => mret tt
  | S n =>
      c ← peek name i;
      c' ← follow (put 0 0 c);
      poke i (λ _, Filehandle 0 0 false c');;
      init_from n (S i)
  end.
Definition initFilehandles : Srv simplefs unit := init_from MAXFILE 0.

Fixpoint locate_from (n i : nat) (filename : list Z) : Srv simplefs (option nat) :=
  match n with
  | O => mret None
  | S n =>
      h ← peek id i;
      if valid h then
        r ← follow (strcmp (name h) filename);
        if r =? 0 then mret (Some i) else locate_from n (S i) filename
      else locate_from n (S i) filename
  end.
Definition locateFilehandle (filename : list Z) : Srv simplefs (option nat) := locate_from MAXFILE 0 filename.

Fixpoint free_handle_from (n i : nat) : Srv simplefs (option nat) :=
  match n with
  | O => mret None
  | S n =>
      v ← peek valid i;
      if (v : bool) then free_handle_from n (S i) else mret (Some i)
  end.
Definition locateFreeFilehandle : Srv simplefs (option nat) := free_handle_from MAXFILE 0.

(** The names of the valid handles, 16 bytes each, in the cleared buffer. *)
Fixpoint list_from (n i : nat) (retPos : nat) (buffer : list Z) : Srv simplefs (list Z) :=
  match n with
  | O => mret buffer
  | S n =>
      h ← peek id i;
      if valid h then
        b ← follow (strncpy buffer retPos (Other (name h)) 0 15);
        b ← follow (memset b (retPos + 15) 0 1);
        list_from n (S i) (retPos + 16) b
      else list_from n (S i) retPos buffer
  end.
Definition listFiles : Srv simplefs (list Z) :=
  list_from MAXFILE 0 0 (repeat 0 ((MAXFILE + 1) * 16)).

Definition mapFile (filename : list Z) : Srv simplefs (fs_exception + Z) :=
  r ← locateFilehandle filename;
  match r with
  | None => mret (inl fileNotFound)
  | Some i => h ← peek id i; mret (inr (L4_Fpage (position h) (size h)))
  end.

(** [while (mysize < size) mysize *= 2]; 33 rounds without an end are endless, since
    the word is 0 from then on. *)
Fixpoint double_until (fuel : nat) (mysize sz : Z) : Srv simplefs Z :=
  if mysize <? sz then
    match fuel with O => spins | S fuel => double_until fuel (u32 (mysize * 2)) sz end
  else mret mysize.

Definition createFile (filename : list Z) (sz : Z) : Srv simplefs (option fs_exception) :=
  mysize ← double_until 33 (Z.land sz 4294963200) sz;
  r ← locateFilehandle filename;
  match r with
  | Some _ => mret (Some fileExists)
  | None =>
      p ← get filesystemPointer;
      if 3221225472 <=? u32 (p + mysize) then mret (Some outOfMemory) else
      r ← locateFreeFilehandle;
      match r with
      | None => mret (Some outOfFilehandles)
      | Some i =>
          poke i (λ h, h <| position := p |> <| size := mysize |> <| valid := true |>);;
          n ← peek name i;
          n ← follow (strncpy n 0 (Other filename) 0 16);
          poke i (λ h, h <| name := n |>);;
          update (λ s, s <| filesystemPointer ::= λ p, u32 (p + 4 * (mysize / 4)) |>);;
          p' ← peek position i;
          update (λ s, s <| fs_mem ::= λ m, fill m p' 0 (Z.to_nat mysize) |>);;
          mret None
      end
  end.

Definition deleteFile (filename : list Z) : Srv simplefs (option fs_exception) :=
  r ← locateFilehandle filename;
  match r with
  | None => mret (Some fileNotFound)
  | Some i => poke i (λ h, h <| valid := false |>);; mret None
  end.

(** * The files *)

Definition text_ok (cs : list Z) : Prop := Forall (λ c, c ≠ 0) cs.

(** The C string at the start of a list of bytes. *)
Definition c_str (bs : list Z) : list Z :=
  match list_find (λ c, c = 0) bs with Some (i, _) => take i bs | None => bs end.

Definition is_file (cs : list Z) (h : filehandle_t) : Prop := valid h = true ∧ c_str (name h) = cs.
#[global] Instance is_file_dec cs h : Decision (is_file cs h).
Proof. unfold is_file. apply _. Defined.

(** Where the file of a name is, and how long. *)
Definition file_of (s : simplefs) (cs : list Z) : option (Z * Z) :=
  (λ h, (position h.2, size h.2)) <$> list_find (is_file cs) (take MAXFILE (filehandles s)).

Definition name_ok (h : filehandle_t) : Prop :=
  length (name h) = 16%nat ∧ (valid h = true → 0 ∈ name h).

Record simplefs_ok (s : simplefs) : Prop := {
  sf_length : length (filehandles s) = S MAXFILE;
  sf_names : Forall name_ok (filehandles s);
  sf_pointer : beginOfFilesystem ≤ filesystemPointer s < 3221225472 ∧ filesystemPointer s mod 4096 = 0;
  sf_place i h : (i < MAXFILE)%nat → filehandles s !! i = Some h → valid h = true →
    beginOfFilesystem ≤ position h ∧ 0 ≤ size h ∧ position h + size h ≤ filesystemPointer s ∧
    position h mod 4096 = 0 ∧ size h mod 4096 = 0;
  sf_apart i j h k : (i < MAXFILE)%nat → (j < MAXFILE)%nat → i ≠ j →
    filehandles s !! i = Some h → filehandles s !! j = Some k → valid h = true → valid k = true →
    position h + size h ≤ position k ∨ position k + size k ≤ position h;
  sf_unique i j h k : (i < MAXFILE)%nat → (j < MAXFILE)%nat →
    filehandles s !! i = Some h → filehandles s !! j = Some k → valid h = true → valid k = true →
    c_str (name h) = c_str (name k) → i = j;
}.
