(* ===== verification/SimpleFsSpec.v ===== *)
(** The files of the simple file system do not overlap, and its calls change the map
    from names to files as they say. *)

From S2P Require Import Prelude Machine Server L4Types ElfLoader ElfLoaderSpec SimpleFs.

Lemma c_str_split bs : 0 ∈ bs → ∃ tl, bs = c_str bs ++ 0 :: tl ∧ text_ok (c_str bs).
Proof.
  intros Hin. unfold c_str. destruct (list_find (λ c, c = 0) bs) as [[i x]|] eqn:E.
  - apply list_find_Some in E as (Hi&->&Hbefore). exists (drop (S i) bs).
    split; [by rewrite take_drop_middle|]. apply Forall_lookup. intros j c Hj.
    apply lookup_take_Some in Hj as [Hj Hlt]. by eapply Hbefore.
  - apply list_find_None in E. by destruct (proj1 (Forall_forall _ _) E 0 Hin).
Qed.

Lemma c_str_app cs tl : text_ok cs → c_str (cs ++ 0 :: tl) = cs.
Proof.
  intros Hcs. unfold c_str. rewrite list_find_app_r.
  - simpl. by rewrite take_app_length' by lia.
  - apply list_find_None. eapply Forall_impl; [exact Hcs|]. by simpl.
Qed.

(** The size a file gets. *)
Definition rounded (sz : Z) : Z := if sz mod 4096 =? 0 then sz else 2 * (sz - sz mod 4096).

Section calls.
Implicit Types s : simplefs.

Lemma page_part sz : 0 ≤ sz < 2 ^ 32 → Z.land sz 4294963200 = sz - sz mod 4096.
Proof. intros H. rewrite (proj1 (page_bounds sz H)). zlia. Qed.

Lemma rounded_bounds sz : 4096 ≤ sz → sz ≤ rounded sz < 2 * sz ∧ rounded sz mod 4096 = 0.
Proof. intros H. unfold rounded. destruct (Z.eqb_spec (sz mod 4096) 0); zlia. Qed.

Lemma double_until_spec sz s :
  sz = 0 ∨ 4096 ≤ sz → rounded sz < 2 ^ 32 → double_until 33 (Z.land sz 4294963200) sz s = Done (rounded sz) s.
Proof.
  intros [->|Hsz] Hr; [done|]. destruct (rounded_bounds sz Hsz) as [Hb _].
  rewrite page_part by lia. unfold rounded in *. cbn [double_until].
  destruct (Z.eqb_spec (sz mod 4096) 0) as [E|E].
  - by rewrite E, Z.sub_0_r, (proj2 (Z.ltb_ge sz sz)) by lia.
  - rewrite (proj2 (Z.ltb_lt _ _)) by zlia. rewrite u32_id by zlia.
    rewrite (proj2 (Z.ltb_ge _ _)) by zlia. rewrite (Z.mul_comm 2). done.
Qed.

(** Doubling 0 leads nowhere. *)
Lemma double_until_small sz s fuel : 0 < sz < 4096 → double_until fuel (Z.land sz 4294963200) sz s = Spins.
Proof.
  intros Hsz. rewrite page_part, Z.mod_small, Z.sub_diag by lia.
  induction fuel as [|fuel IH]; simpl; rewrite (proj2 (Z.ltb_lt 0 sz)) by lia; done.
Qed.

Lemma locate_from_spec s n i cs tl :
  simplefs_ok s → text_ok cs → (i + n = MAXFILE)%nat →
  runs (locate_from n i (cs ++ 0 :: tl))
    (λ r s', s' = s ∧ r = (λ p, i + p.1)%nat <$> list_find (is_file cs) (drop i (take MAXFILE (filehandles s)))) s.
Proof.
  intros Hok Hcs. revert i. induction n as [|n IH]; intros i Hi; cbn [locate_from].
  - apply runs_ret. split; [done|]. rewrite drop_ge; [done|]. rewrite length_take. lia.
  - destruct (lookup_lt_is_Some_2 (filehandles s) i) as [h Hh]; [rewrite (sf_length _ Hok); lia|].
    rewrite (drop_S _ h) by (by rewrite lookup_take_lt by lia). simpl.
    apply runs_bind. eapply runs_peek; [exact Hh|]. cbn [id].
    assert (Hnext : ¬ is_file cs h → runs (locate_from n (S i) (cs ++ 0 :: tl))
      (λ r s', s' = s ∧ r = (λ p, i + p.1)%nat <$> (prod_map S id <$> list_find (is_file cs) (drop (S i) (take MAXFILE (filehandles s))))) s).
    { intros _. eapply runs_mono; [apply IH; lia|]. intros r s' [-> ->]. split; [done|].
      rewrite <- option_fmap_compose. apply option_fmap_ext. intros [k x]. simpl. lia. }
    pose proof (proj1 (Forall_lookup _ _) (sf_names _ Hok) _ _ Hh) as [_ Hnul].
    destruct (valid h) eqn:Ev.
    + destruct (c_str_split (name h) (Hnul eq_refl)) as (tl'&Hname&Htext).
      destruct (strcmp_spec (c_str (name h)) cs tl' tl Htext Hcs) as (r&Hr&Heq).
      rewrite <- Hname in Hr. rewrite Hr. apply runs_bind. eapply runs_follow; [done|].
      destruct (Z.eqb_spec r 0) as [E|E].
      * apply runs_ret. split; [done|]. rewrite decide_True by (split; [done|by apply Heq]). simpl. f_equal. lia.
      * rewrite decide_False by (intros [_ H]; by apply E, Heq). apply Hnext. intros [_ H]. by apply E, Heq.
    + rewrite decide_False by (intros [H _]; congruence). apply Hnext. intros [H _]. congruence.
Qed.

Lemma file_of_spec s cs p sz :
  simplefs_ok s →
  file_of s cs = Some (p, sz) ↔
  ∃ i h, (i < MAXFILE)%nat ∧ filehandles s !! i = Some h ∧ is_file cs h ∧ position h = p ∧ size h = sz.
Proof.
  intros Hok. unfold file_of. split.
  - destruct (list_find _ _) as [[i h]|] eqn:E; [|done]. simpl. intros [= <- <-].
    apply list_find_Some in E as (Hi&Hf&_). apply lookup_take_Some in Hi as [Hi Hlt]. by exists i, h.
  - intros (i&h&Hlt&Hi&[Hv Hn]&<-&<-).
    destruct (list_find_elem_of (is_file cs) (take MAXFILE (filehandles s)) h) as [[j k] E].
    + apply list_elem_of_lookup_2 with i. by rewrite lookup_take_lt.
    + done.
    + rewrite E. simpl. apply list_find_Some in E as (Hj&[Hv' Hn']&_). apply lookup_take_Some in Hj as [Hj Hltj].
      assert (i = j) as -> by (eapply (sf_unique _ Hok i j h k); try done; congruence). congruence.
Qed.

(** [locateFilehandle] on a string: the handle of the file of that name. *)
Lemma locateFilehandle_spec s cs tl :
  simplefs_ok s → text_ok cs →
  runs (locateFilehandle (cs ++ 0 :: tl)) (λ r s', s' = s ∧
    match r with
    | Some i => (i < MAXFILE)%nat ∧ ∃ h, filehandles s !! i = Some h ∧ is_file cs h ∧
                 file_of s cs = Some (position h, size h)
    | None => file_of s cs = None
    end) s.
Proof.
  intros Hok Hcs. unfold locateFilehandle. eapply runs_mono; [by apply locate_from_spec|].
  intros r s' [-> ->]. split; [done|]. rewrite drop_0. unfold file_of.
  destruct (list_find _ _) as [[i h]|] eqn:E; [|done]. simpl.
  apply list_find_Some in E as (Hi&Hf&_). apply lookup_take_Some in Hi as [Hi Hlt]. split; [done|].
  by exists h.
Qed.

Lemma free_handle_from_spec s n i :
  length (filehandles s) = S MAXFILE → (i + n = MAXFILE)%nat →
  runs (free_handle_from n i) (λ r s', s' = s ∧
    match r with
    | Some k => (i ≤ k < MAXFILE)%nat ∧ valid <$> filehandles s !! k = Some false
    | None => ∀ k, (i ≤ k < MAXFILE)%nat → valid <$> filehandles s !! k = Some true
    end) s.
Proof.
  intros Hl. revert i. induction n as [|n IH]; intros i Hi; cbn [free_handle_from].
  - apply runs_ret. split; [done|]. lia.
  - destruct (lookup_lt_is_Some_2 (filehandles s) i) as [h Hh]; [lia|].
    apply runs_bind. eapply runs_peek; [exact Hh|]. destruct (valid h) eqn:Ev.
    + eapply runs_mono; [apply IH; lia|]. intros [k|] s' [-> Hr]; (split; [done|]).
      * split; [lia|apply Hr].
      * intros k Hk. destruct (decide (k = i)) as [->|]; [by rewrite Hh; simpl; rewrite Ev|]. apply Hr. lia.
    + apply runs_ret. split; [done|]. split; [lia|]. rewrite Hh. simpl. by rewrite Ev.
Qed.

(** A new file behind the others, in a handle that was free. *)
Lemma create_ok s s' i x h cs mysize :
  simplefs_ok s → (i < MAXFILE)%nat → filehandles s !! i = Some x → valid x = false → file_of s cs = None →
  filehandles s' = <[i := h]> (filehandles s) → is_file cs h → name_ok h →
  position h = filesystemPointer s → size h = mysize →
  0 ≤ mysize → mysize mod 4096 = 0 → filesystemPointer s + mysize < 3221225472 →
  filesystemPointer s' = filesystemPointer s + mysize →
  simplefs_ok s' ∧ ∀ cs', file_of s' cs' = if decide (cs' = cs) then Some (filesystemPointer s, mysize) else file_of s cs'.
Proof.
  intros Hok Hi Hx Hxv Hnone Ehs [Hv Hn] Hnok Hpos Hsize Hms Hal Hroom Ep.
  pose proof (lookup_lt_Some _ _ _ Hx) as Hlt.
  assert (Hlk : ∀ k, filehandles s' !! k = if decide (k = i) then Some h else filehandles s !! k).
  { intros k. rewrite Ehs. case_decide; [subst; by apply list_lookup_insert_eq|by apply list_lookup_insert_ne]. }
  assert (Hnew : ∀ k y, (k < MAXFILE)%nat → filehandles s !! k = Some y → valid y = true → c_str (name y) ≠ cs).
  { intros k y Hk Hy Hyv Hyn. assert (file_of s cs = Some (position y, size y)) as E; [|congruence].
    apply file_of_spec; [done|]. exists k, y. by split_and!. }
  assert (Hok' : simplefs_ok s').
  { destruct Hok as [h1 h2 h3 h4 h5 h6]. split.
    - rewrite Ehs. by rewrite length_insert.
    - rewrite Ehs. by apply Forall_insert.
    - rewrite Ep. split; [lia|zlia].
    - intros k y Hk. rewrite Hlk. case_decide as E.
      + intros [= <-] _. rewrite Hpos, Hsize, Ep. destruct h3. lia.
      + intros Hy Hyv. destruct (h4 k y Hk Hy Hyv) as (?&?&?&?&?). rewrite Ep. split_and!; done || lia.
    - intros k l y z Hk Hl Hkl. rewrite !Hlk. repeat case_decide; try congruence.
      + intros [= <-] Hz _ Hzv. destruct (h4 l z Hl Hz Hzv). lia.
      + intros Hy [= <-] Hyv _. destruct (h4 k y Hk Hy Hyv). lia.
      + by apply h5.
    - intros k l y z Hk Hl. rewrite !Hlk. repeat case_decide; try congruence.
      + intros [= <-] Hz _ Hzv E. exfalso. apply (Hnew l z Hl Hz Hzv). congruence.
      + intros Hy [= <-] Hyv _ E. exfalso. apply (Hnew k y Hk Hy Hyv). congruence.
      + by apply h6. }
  split; [done|]. intros cs'. apply option_eq. intros [p sz]. rewrite file_of_spec by done. case_decide as E.
  - subst cs'. split.
    + intros (k&y&Hk&Hy&[Hyv Hyn]&<-&<-). rewrite Hlk in Hy. case_decide; [congruence|].
      exfalso. by apply (Hnew k y Hk Hy Hyv).
    + intros [= <- <-]. exists i, h. rewrite Hlk, decide_True by done. by split_and!.
  - rewrite file_of_spec by done. split; intros (k&y&Hk&Hy&Hf&?&?); exists k, y; split_and!; try done.
    + rewrite Hlk in Hy. case_decide; [|done]. simplify_eq. destruct Hf as [_ Hf]. congruence.
    + rewrite Hlk. case_decide as Ek; [|done]. subst k. destruct Hf as [Hf _]. congruence.
Qed.

(** C21: [filesystem_createFile] for a name of at most 15 characters. A size of 1 to 4095
    never ends: the rounding doubles 0. A size of 0 or of a page and more, for which
    the pointer of the file system and the rounded size do not wrap around 2 ^ 32: in
    this order, a name that exists, a file that does not fit below 3 GB and a full
    table are refused and leave the state; else the name has a new file of whole
    pages, at least [sz] and less than twice as long (none for a size of 0), behind
    all others and filled with zeros; the files stay disjoint, aligned and with names
    of their own, and no other changes. *)
Theorem createFile_contract s cs tl sz :
  simplefs_ok s → text_ok cs → (length cs ≤ 15)%nat →
  (0 < sz < 4096 → createFile (cs ++ 0 :: tl) sz s = Spins) ∧
  (sz = 0 ∨ 4096 ≤ sz → filesystemPointer s + rounded sz < 2 ^ 32 → runs (createFile (cs ++ 0 :: tl) sz) (λ r s',
    match r with
    | Some fileExists => s' = s ∧ is_Some (file_of s cs)
    | Some outOfMemory => s' = s ∧ file_of s cs = None ∧ 3221225472 ≤ filesystemPointer s + rounded sz
    | Some outOfFilehandles => s' = s ∧ file_of s cs = None ∧
        ∀ k, (k < MAXFILE)%nat → valid <$> filehandles s !! k = Some true
    | None => file_of s cs = None ∧ simplefs_ok s' ∧ sz ≤ rounded sz ∧ (0 < sz → rounded sz < 2 * sz) ∧
        (∀ cs', file_of s' cs' = if decide (cs' = cs) then Some (filesystemPointer s, rounded sz) else file_of s cs') ∧
        ∀ x, fs_mem s' x = if decide (filesystemPointer s ≤ x < filesystemPointer s + rounded sz) then 0 else fs_mem s x
    | Some _ => False
    end) s).
Proof.
  intros Hok Hcs Hlen. split.
  { intros Hsz. unfold createFile, mbind at 1, Srv_bind at 1. by rewrite double_until_small. }
  intros Hsz Hwrap. destruct (sf_pointer _ Hok) as [Hp Hpal].
  assert (Hr : sz ≤ rounded sz ∧ (0 < sz → rounded sz < 2 * sz) ∧ rounded sz mod 4096 = 0 ∧ 0 ≤ rounded sz).
  { destruct Hsz as [->|Hsz]; [done|]. pose proof (rounded_bounds sz Hsz). lia. }
  destruct Hr as (Hr&Hr2&Hal&Hr0).
  unfold createFile. apply runs_bind. unfold runs at 1. rewrite double_until_spec by (done || unfold beginOfFilesystem in Hp; lia).
  apply runs_bind. eapply runs_mono; [by apply locateFilehandle_spec|]. intros [i|] s1 [-> Hloc].
  { apply runs_ret. destruct Hloc as (_&h&_&_&->). by split. }
  apply runs_bind, runs_get. unfold beginOfFilesystem in Hp. rewrite u32_id by lia.
  destruct (Z.leb_spec 3221225472 (filesystemPointer s + rounded sz)); [by apply runs_ret|].
  apply runs_bind. eapply runs_mono; [apply (free_handle_from_spec s MAXFILE 0); [apply Hok|done]|].
  intros [i|] s1 [-> Hfree]; [|apply runs_ret; split_and!; [done|done|]; intros k Hk; apply Hfree; lia].
  destruct Hfree as [[_ Hi] Hxv]. destruct (filehandles s !! i) as [x|] eqn:Hx; [|done].
  assert (valid x = false) as Hv by (simpl in Hxv; congruence). clear Hxv.
  pose proof (proj1 (Forall_lookup _ _) (sf_names _ Hok) _ _ Hx) as [Hnl _].
  pose proof (lookup_lt_Some _ _ _ Hx) as Hlt.
  set (x1 := x <| position := filesystemPointer s |> <| size := rounded sz |> <| valid := true |>).
  apply runs_bind. eapply runs_poke; [exact Hx|]. fold x1.
  apply runs_bind. eapply (runs_peek _ _ x1); [by apply (list_lookup_insert_eq (filehandles s))|].
  apply runs_bind. eapply runs_follow.
  { apply (strncpy_spec _ 0 _ 0 16 cs (0 :: tl) (cs ++ [0])); [done|done|done| |].
    - right. split_and!; [lia|done|done].
    - rewrite length_app. simpl. change (name x1) with (name x). lia. }
  set (nm := take 0 _ ++ _ ++ _). set (h := x1 <| name := nm |>).
  assert (Hnm : nm = cs ++ 0 :: drop (length (cs ++ [0])) (name x)).
  { unfold nm. change (name x1) with (name x). simpl. by rewrite <- app_assoc. }
  apply runs_bind. eapply (runs_poke _ _ x1); [by apply (list_lookup_insert_eq (filehandles s))|]. fold h.
  apply runs_bind, runs_update. apply runs_bind.
  eapply (runs_peek _ _ h). { apply list_lookup_insert_eq.
    change (i < length (<[i := x1]> (filehandles s)))%nat. by rewrite length_insert. }
  apply runs_bind, runs_update, runs_ret. change (position h) with (filesystemPointer s).
  match goal with |- _ ∧ simplefs_ok ?st ∧ _ => set (s' := st) end.
  assert (Ehs : filehandles s' = <[i := h]> (filehandles s)).
  { change (filehandles s') with (<[i := h]> (<[i := x1]> (filehandles s))). apply list_insert_insert_eq. }
  assert (Ep : filesystemPointer s' = filesystemPointer s + rounded sz).
  { change (filesystemPointer s') with (u32 (filesystemPointer s + 4 * (rounded sz / 4))). rewrite u32_id; zlia. }
  destruct (create_ok s s' i x h cs (rounded sz)) as [Hok' Hmap]; try done; try lia.
  - split; [done|]. change (name h) with nm. rewrite Hnm. by apply c_str_app.
  - split; change (name h) with nm; rewrite Hnm.
    + rewrite length_app. cbn [length]. rewrite length_drop, Hnl, length_app. simpl. lia.
    + intros _. apply elem_of_app. right. by left.
  - split_and!; try done; try lia. intros y.
    change (fs_mem s' y) with (fill (fs_mem s) (filesystemPointer s) 0 (Z.to_nat (rounded sz)) y).
    rewrite fill_spec by (split; lia). by rewrite Z2Nat.id by lia.
Qed.

(** [filesystem_deleteFile] takes exactly the file of the name out of the map, its
    place in memory is not used again, and a name without a file is refused. *)
Theorem deleteFile_contract s cs tl :
  simplefs_ok s → text_ok cs →
  runs (deleteFile (cs ++ 0 :: tl)) (λ r s',
    match r with
    | Some e => e = fileNotFound ∧ s' = s ∧ file_of s cs = None
    | None => is_Some (file_of s cs) ∧ simplefs_ok s' ∧
        (∀ cs', file_of s' cs' = if decide (cs' = cs) then None else file_of s cs') ∧
        filesystemPointer s' = filesystemPointer s ∧ fs_mem s' = fs_mem s
    end) s.
Proof.
  intros Hok Hcs. unfold deleteFile. apply runs_bind. eapply runs_mono; [by apply locateFilehandle_spec|].
  intros [i|] s1 [-> Hloc]; [|by apply runs_ret].
  destruct Hloc as (Hi&h&Hh&Hf&Hfile). apply runs_bind. eapply runs_poke; [exact Hh|]. apply runs_ret.
  set (h' := h <| valid := false |>). set (s' := set_cells _ _).
  pose proof (lookup_lt_Some _ _ _ Hh) as Hlt.
  assert (Hlk : ∀ k, filehandles s' !! k = if decide (k = i) then Some h' else filehandles s !! k).
  { intros k. change (filehandles s') with (<[i := h']> (filehandles s)).
    case_decide; [subst; by apply list_lookup_insert_eq|by apply list_lookup_insert_ne]. }
  assert (Hlive : ∀ k y, filehandles s' !! k = Some y → valid y = true → k ≠ i ∧ filehandles s !! k = Some y).
  { intros k y. rewrite Hlk. case_decide; [by intros [= <-]|done]. }
  assert (Hok' : simplefs_ok s').
  { pose proof Hok as [h1 h2 h3 h4 h5 h6]. split; [by rewrite <- h1; apply length_insert| |done|..].
    - change (filehandles s') with (<[i := h']> (filehandles s)). apply Forall_insert; [done|].
      destruct (proj1 (Forall_lookup _ _) h2 _ _ Hh) as [Hn _]. by split.
    - intros k y Hk Hy Hyv. destruct (Hlive k y Hy Hyv). by apply (h4 k).
    - intros k l y z Hk Hl Hkl Hy Hz Hyv Hzv. destruct (Hlive k y Hy Hyv), (Hlive l z Hz Hzv). by apply (h5 k l).
    - intros k l y z Hk Hl Hy Hz Hyv Hzv. destruct (Hlive k y Hy Hyv), (Hlive l z Hz Hzv). by apply (h6 k l). }
  split; [by rewrite Hfile|]. split; [done|]. split; [|done].
  intros cs'. apply option_eq. intros [p sz]. rewrite file_of_spec by done. case_decide as E.
  - subst cs'. split; [|done]. intros (k&y&Hk&Hy&[Hyv Hyn]&_). destruct (Hlive k y Hy Hyv) as [Hki Hy'].
    exfalso. apply Hki. destruct Hf as [Hhv Hhn]. by apply (sf_unique _ Hok k i y h); try congruence.
  - rewrite file_of_spec by done. split; intros (k&y&Hk&Hy&[Hyv Hyn]&?&?); exists k, y; split_and!; try done.
    + by destruct (Hlive k y Hy Hyv).
    + rewrite Hlk. case_decide as Ek; [|done]. subst k. exfalso. apply E. destruct Hf as [_ Hf]. congruence.
Qed.

(** [filesystem_mapFile] of a file of [sz] bytes at [p]: the flexpage is of the
    least power of two that holds [sz], but from [p] rounded down to it; so the client
    gets the whole file exactly when [p] is at most [2 ^ n - sz] into its flexpage, and
    else the start of the page belongs to other files and the end of the file is
    missing. *)
Theorem mapFile_contract s cs tl :
  simplefs_ok s → text_ok cs →
  runs (mapFile (cs ++ 0 :: tl)) (λ r s', s' = s ∧
    match r with
    | inl e => e = fileNotFound ∧ file_of s cs = None
    | inr f => ∃ p sz, file_of s cs = Some (p, sz) ∧
        (4096 ≤ sz ≤ 2 ^ 31 → let n := Z.log2_up sz in
           L4_Size f = 2 ^ n ∧ sz ≤ 2 ^ n ∧ L4_Address f = p - p mod 2 ^ n ∧
           ((∀ x, p ≤ x < p + sz → L4_Address f ≤ x < L4_Address f + L4_Size f) ↔ p mod 2 ^ n + sz ≤ 2 ^ n))
    end) s.
Proof.
  intros Hok Hcs. unfold mapFile. apply runs_bind. eapply runs_mono; [by apply locateFilehandle_spec|].
  intros [i|] s1 [-> Hloc]; [|by apply runs_ret].
  destruct Hloc as (Hi&h&Hh&[Hv _]&Hfile). apply runs_bind. eapply runs_peek; [exact Hh|]. apply runs_ret.
  split; [done|]. exists (position h), (size h). split; [done|]. intros Hsz. set (n := Z.log2_up (size h)).
  destruct (sf_place _ Hok i h Hi Hh Hv) as (Hp1&_&Hp2&Hpal&_). destruct (sf_pointer _ Hok) as [Hp _].
  unfold beginOfFilesystem in *. destruct (L4_Fpage_parts (position h) (size h)) as [Ha Hs]; [lia|lia|zlia|].
  fold n in Ha, Hs. cbn [id]. rewrite Ha, Hs. assert (0 ≤ n) by apply Z.log2_up_nonneg.
  assert (size h ≤ 2 ^ n) by (apply Z.log2_up_spec; lia).
  pose proof (Z.mod_pos_bound (position h) (2 ^ n) ltac:(apply Z.pow_pos_nonneg; lia)).
  split_and!; try done. split; [|intros ? x ?; lia].
  intros H'. specialize (H' (position h + size h - 1)). lia.
Qed.

(** [initFilehandles] on a table whose names have 16 bytes starts without files. *)
Theorem initFilehandles_contract s :
  length (filehandles s) = S MAXFILE → Forall (λ h, length (name h) = 16%nat) (filehandles s) →
  valid <$> filehandles s !! MAXFILE = Some false → filesystemPointer s = beginOfFilesystem →
  runs initFilehandles (λ _ s', simplefs_ok s' ∧ ∀ cs, file_of s' cs = None) s.
Proof.
  intros Hl Hn Hlast Hp.
  assert (H : ∀ n i s, (i + n = MAXFILE)%nat → length (filehandles s) = S MAXFILE →
    Forall (λ h, length (name h) = 16%nat) (filehandles s) →
    (∀ k h, filehandles s !! k = Some h → (k < i ∨ k = MAXFILE)%nat → valid h = false) →
    runs (init_from n i) (λ _ s', length (filehandles s') = S MAXFILE ∧
      Forall (λ h, length (name h) = 16%nat) (filehandles s') ∧
      (∀ k h, filehandles s' !! k = Some h → valid h = false) ∧ filesystemPointer s' = filesystemPointer s) s).
  { clear. induction n as [|n IH]; intros i s Hi Hl Hn Hv; cbn [init_from].
    - apply runs_ret. split_and!; try done. intros k h Hk. apply (Hv k h Hk).
      apply lookup_lt_Some in Hk. lia.
    - destruct (lookup_lt_is_Some_2 (filehandles s) i) as [h Hh]; [lia|].
      pose proof (proj1 (Forall_lookup _ _) Hn _ _ Hh) as Hhn. simpl in Hhn.
      apply runs_bind. eapply runs_peek; [exact Hh|]. apply runs_bind.
      eapply runs_follow; [apply put_Some; lia|]. apply runs_bind. eapply runs_poke; [exact Hh|].
      set (h' := Filehandle _ _ _ _). eapply runs_mono; [apply IH; [lia|..]|].
      + change (length (<[i := h']> (filehandles s)) = S MAXFILE). by rewrite length_insert.
      + apply Forall_insert; [done|]. unfold h'. simpl name. by rewrite length_insert.
      + intros k y. change (filehandles (set_cells _ s)) with (<[i := h']> (filehandles s)).
        destruct (decide (k = i)) as [->|].
        * rewrite list_lookup_insert_eq by by eapply lookup_lt_Some. by intros [= <-].
        * rewrite list_lookup_insert_ne by done. intros Hy Hk. apply (Hv k y Hy). lia.
      + done. }
  eapply runs_mono; [apply (H MAXFILE 0%nat s); [done|done|done|]|].
  - intros k h Hk [?| ->]; [lia|]. rewrite Hk in Hlast. simpl in Hlast. congruence.
  - intros _ s' (Hl'&Hn'&Hv'&Hp'). split.
    + split; try done.
      * eapply Forall_impl; [|]. 1: apply Forall_lookup; intros i h Hi; exact (conj (proj1 (Forall_lookup _ _) Hn' i h Hi) (Hv' i h Hi)).
        simpl. intros h [Hx Hy]. split; [done|]. by rewrite Hy.
      * rewrite Hp', Hp. done.
      * intros i h _ Hi Hvi. by rewrite (Hv' i h Hi) in Hvi.
      * intros i j h k _ _ _ Hi _ Hvi. by rewrite (Hv' i h Hi) in Hvi.
      * intros i j h k _ _ Hi _ Hvi. by rewrite (Hv' i h Hi) in Hvi.
    + intros cs. unfold file_of. destruct (list_find _ _) as [[i h]|] eqn:E; [|done].
      apply list_find_Some in E as (Hi&[Hvi _]&_). apply lookup_take_Some in Hi as [Hi _].
      by rewrite (Hv' i h Hi) in Hvi.
Qed.
End calls.
