(* ===== verification/Heap.v ===== *)
(** The heap of the servers (src/sdios/lib/sdi/heap.cc): first fit on a circular list of
    free blocks in the order of their addresses.

    Memory is counted in headers of 8 bytes from [__elf_end]: the header at [p] is the
    pair of [h_ptr p] and [h_size p], and [p + 1] is the first unit after it. *)

From stdpp Require Import sorting.
From S2P Require Import Prelude Machine Server.

Record heap := Heap { freep : option Z; h_ptr : Z → Z; h_size : Z → Z }.
#[global] Instance heap_fields : Fields heap := λ r, {|
  freep := freep r; h_ptr := h_ptr r; h_size := h_size r |}.

(** Assignment to a field of the header at [p]. *)
Definition at_ (p v : Z) (f : Z → Z) : Z → Z := λ x, if x =? p then v else f x.

Section heap.
(** The address of [__elf_end]. *)
Context (elf_end : Z).

Definition set_ptr (p v : Z) : Srv heap unit := update (λ h, h <| h_ptr ::= at_ p v |>).
Definition set_size (p v : Z) : Srv heap unit := update (λ h, h <| h_size ::= at_ p v |>).

Definition nunits (nbytes : Z) : Z := u32 (u32 (nbytes + 7) / 8 + 1).

(** The loop of [alloc]; the result is the block, [None] when the list was passed. *)
Fixpoint alloc_from (fuel : nat) (n : Z) (prevp : Z) : Srv heap (option Z) :=
  match fuel with
  | O => spins
  | S fuel =>
      p ← get (λ h, h_ptr h prevp);
      sz ← get (λ h, h_size h p);
      if n <=? sz then
        r ← (if sz =? n then
               q ← get (λ h, h_ptr h p); set_ptr prevp q;; mret p
             else
               set_size p (u32 (sz - n));;
               s ← get (λ h, h_size h p);
               let p := p + s in
               set_size p n;; mret p);
        update (λ h, h <| freep := Some prevp |>);;
        mret (Some (r + 1))
      else
        f ← get freep;
        if decide (Some p = f) then mret None else alloc_from fuel n p
  end.

Definition alloc (fuel : nat) (nbytes : Z) : Srv heap (option Z) :=
  let n := nunits nbytes in
  f ← get freep;
  match f with
  | Some prevp => alloc_from fuel n prevp
  | None =>
      update (λ h, h <| freep := Some 1 |>);;
      set_ptr 1 1;;
      set_size 1 (u32 (1073741823 - (elf_end + 8)) / 8);;
      alloc_from fuel n 1
  end.

(** The block of the list behind which [bp] belongs. *)
Fixpoint place_from (fuel : nat) (bp p : Z) : Srv heap Z :=
  q ← get (λ h, h_ptr h p);
  if (p <? bp) && (bp <? q) then mret p
  else if (q <=? p) && ((p <? bp) || (bp <? q)) then mret p
  else match fuel with O => spins | S fuel => place_from fuel bp q end.

Definition free (fuel : nat) (ap : Z) : Srv heap unit :=
  let bp := ap - 1 in
  f ← get freep;
  p ← follow f;
  p ← place_from fuel bp p;
  q ← get (λ h, h_ptr h p);
  sb ← get (λ h, h_size h bp);
  (if bp + sb =? q then
     sq ← get (λ h, h_size h q);
     set_size bp (u32 (sb + sq));;
     qq ← get (λ h, h_ptr h q);
     set_ptr bp qq
   else set_ptr bp q);;
  sp ← get (λ h, h_size h p);
  (if p + sp =? bp then
     sb ← get (λ h, h_size h bp);
     set_size p (u32 (sp + sb));;
     q ← get (λ h, h_ptr h bp);
     set_ptr p q
   else set_ptr p bp);;
  update (λ h, h <| freep := Some p |>).
End heap.

(** * The free list *)

(** Following [ptr] one meets the blocks of [l] in this order and then [e]. *)
Fixpoint links (ptr : Z → Z) (l : list Z) (e : Z) : Prop :=
  match l with
  | [] => True
  | a :: l => ptr a = hd e l ∧ links ptr l e
  end.
Definition circle (ptr : Z → Z) (l : list Z) : Prop := links ptr l (hd 0 l).

(** The blocks of [l] in the order of their addresses, with a gap between two of them. *)
Definition ordered (size : Z → Z) (l : list Z) : Prop := StronglySorted (λ a b, a + size a < b) l.

(** A block of the memory that ends at [top]. *)
Definition block_ok (size : Z → Z) (top a : Z) : Prop := 0 < a ∧ 0 < size a ∧ a + size a ≤ top.

Record heap_ok (h : heap) (l : list Z) (top : Z) : Prop := {
  hp_circle : circle (h_ptr h) l;
  hp_ordered : ordered (h_size h) l;
  hp_blocks : Forall (block_ok (h_size h) top) l;
  hp_top : top ≤ 2 ^ 27;
  hp_freep : ∃ f, freep h = Some f ∧ f ∈ l;
}.

(** The units that are free. *)
Definition free_unit (h : heap) (l : list Z) (u : Z) : Prop :=
  ∃ a, a ∈ l ∧ a ≤ u < a + h_size h a.
