(* ===== verification/HeapSpec.v ===== *)
(** [alloc] and [free] of the heap keep its free list, and move exactly the units of a
    block between the free ones and the caller. *)

From stdpp Require Import sorting.
From S2P Require Import Prelude Machine Server Heap.

(** * Circular lists *)

Section links.
Implicit Types (ptr : Z → Z) (l : list Z).

Lemma links_app ptr l1 l2 e : links ptr (l1 ++ l2) e ↔ links ptr l1 (hd e l2) ∧ links ptr l2 e.
Proof.
  induction l1 as [|a l1 IH]; simpl; [tauto|]. rewrite IH. destruct l1; simpl; tauto.
Qed.

Lemma links_out ptr l e b v : b ∉ l → links (at_ b v ptr) l e ↔ links ptr l e.
Proof.
  induction l as [|a l IH]; simpl; [done|]. rewrite not_elem_of_cons. intros [Hab Hl].
  rewrite IH by done. unfold at_ at 1. by rewrite (proj2 (Z.eqb_neq a b)) by done.
Qed.

Lemma circle_rotate ptr l1 l2 : circle ptr (l1 ++ l2) → circle ptr (l2 ++ l1).
Proof.
  unfold circle. rewrite !links_app. destruct l1, l2; simpl; tauto.
Qed.

Lemma circle_last ptr l p : circle ptr (l ++ [p]) → ptr p = hd p l.
Proof. unfold circle. rewrite links_app. intros (_&E&_). simpl in E. rewrite E. by destruct l. Qed.

Lemma hd_elem_of (d : Z) l : hd d l ∈ l ++ [d].
Proof. destruct l; simpl; left. Qed.

(** A block is where one link leads only. *)
Lemma circle_pred ptr l p a : circle ptr (l ++ [p]) → NoDup (l ++ [p]) → a ∈ l ++ [p] → ptr a = ptr p → a = p.
Proof.
  intros Hc Hnd Ha Heq. apply elem_of_app in Ha as [Ha|Ha]; [|by apply list_elem_of_singleton in Ha].
  exfalso. pose proof (circle_last _ _ _ Hc) as Hp. apply list_elem_of_split in Ha as (l1&l2&->).
  unfold circle in Hc. rewrite <- app_assoc, links_app in Hc. destruct Hc as (_&Hc&_).
  assert (hd p l2 = hd a l1) as E. { transitivity (ptr a); [rewrite Hc; by destruct l2|]. rewrite Heq, Hp. by destruct l1. }
  replace ((l1 ++ a :: l2) ++ [p]) with ((l1 ++ [a]) ++ l2 ++ [p]) in Hnd by (by rewrite <- !app_assoc).
  apply NoDup_app in Hnd as (_&Hnd&_). apply (Hnd (hd a l1)); [apply hd_elem_of|].
  rewrite <- E. apply hd_elem_of.
Qed.

(** Closing a chain behind [p]. *)
Lemma circle_close ptr l p : p ∉ l → links ptr l p → circle (at_ p (hd p l) ptr) (l ++ [p]).
Proof.
  intros Hp Hl. unfold circle. rewrite links_app. simpl. split; [by apply links_out|].
  unfold at_. rewrite Z.eqb_refl. split; [|done]. by destruct l.
Qed.
End links.

(** * [alloc] *)

Section alloc.
Implicit Types (h : heap) (l : list Z).

Lemma ordered_NoDup size l top : ordered size l → Forall (block_ok size top) l → NoDup l.
Proof.
  induction 1 as [|a l Hl IH Ha]; intros Hb; constructor; inv Hb as [|?? Hba Hbl].
  - intros Hin. pose proof (proj1 (Forall_forall _ _) Ha a Hin) as H. destruct Hba. simpl in H. lia.
  - by apply IH.
Qed.

Lemma ordered_middle size l1 a l2 :
  ordered size (l1 ++ a :: l2) ↔
  ordered size (l1 ++ l2) ∧ Forall (λ b, b + size b < a) l1 ∧ Forall (λ b, a + size a < b) l2.
Proof.
  unfold ordered. rewrite !StronglySorted_app. split.
  - intros (H12&H1&H2). inv H2. split_and!; try done.
    + intros x y Hx Hy. apply H12; [done|by right].
    + apply Forall_forall. intros x Hx. apply H12; [done|left].
  - intros ((H12&H1&H2)&Ha1&Ha2). split_and!; [|done|by constructor].
    intros x y Hx Hy. apply elem_of_cons in Hy as [->|Hy]; [by apply (proj1 (Forall_forall _ _) Ha1)|by apply H12].
Qed.

(** Sizes that stay the same, or of other blocks. *)
Lemma ordered_ext size size' l : (∀ a, a ∈ l → size' a ≤ size a) → ordered size l → ordered size' l.
Proof.
  intros Hle. induction 1 as [|a l Hl IH Ha]; constructor.
  - apply IH. intros b Hb. apply Hle. by right.
  - apply Forall_forall. intros b Hb. pose proof (proj1 (Forall_forall _ _) Ha b Hb) as H. simpl in H.
    pose proof (Hle a ltac:(left)). lia.
Qed.

Lemma at_eq p v f : at_ p v f p = v.
Proof. unfold at_. by rewrite Z.eqb_refl. Qed.
Lemma at_ne p v f x : x ≠ p → at_ p v f x = f x.
Proof. intros H. unfold at_. by rewrite (proj2 (Z.eqb_neq x p)). Qed.

(** The state and the block after [n] units of the block [p] behind [prev] are taken. *)
Definition taken h (prev p n : Z) : Z * heap :=
  if h_size h p =? n then (p, h <| h_ptr ::= at_ prev (h_ptr h p) |> <| freep := Some prev |>)
  else let b := p + (h_size h p - n) in
       (b, h <| h_size ::= λ sz, at_ b n (at_ p (h_size h p - n) sz) |> <| freep := Some prev |>).

(** The first block of [v] that is large enough. *)
Definition first_fit h (n : Z) (v : list Z) : option Z := snd <$> list_find (λ a, n ≤ h_size h a) v.

Lemma alloc_round h fuel n prevp p :
  h_ptr h prevp = p → 0 < n → 0 < h_size h p < 2 ^ 32 →
  alloc_from (S fuel) n prevp h =
    if n <=? h_size h p then Done (Some ((taken h prevp p n).1 + 1)) (taken h prevp p n).2
    else if decide (Some p = freep h) then Done None h else alloc_from fuel n p h.
Proof.
  intros Hp Hn Hsz. unfold taken, alloc_from, mbind, Srv_bind, get. rewrite Hp.
  destruct (Z.leb_spec n (h_size h p)); [|by repeat case_decide].
  destruct (Z.eqb_spec (h_size h p) n) as [E|E]; [done|].
  unfold set_size, update, mret, Srv_ret. cbn. rewrite u32_id by lia.
  assert (∀ v, h_size (h <| h_size ::= at_ p v |>) p = v) as Eat by (intros; apply at_eq).
  by rewrite Eat.
Qed.

Lemma alloc_from_spec h fuel n prevp v0 f :
  freep h = Some f → f ∉ v0 → links (h_ptr h) (prevp :: v0) f → (length v0 < fuel)%nat →
  0 < n → Forall (λ a, 0 < h_size h a < 2 ^ 32) (v0 ++ [f]) →
  match first_fit h n (v0 ++ [f]) with
  | None => alloc_from fuel n prevp h = Done None h
  | Some p => ∃ prev, prev ∈ prevp :: v0 ∧ h_ptr h prev = p ∧
      alloc_from fuel n prevp h = Done (Some ((taken h prev p n).1 + 1)) (taken h prev p n).2
  end.
Proof.
  intros Hf Hnew Hl Hfuel Hn Hsz. revert prevp fuel Hl Hfuel. unfold first_fit.
  induction v0 as [|a v0 IH]; intros prevp fuel Hl Hfuel; destruct fuel as [|fuel]; try (simpl in Hfuel; lia).
  - destruct Hl as [Hp _]. cbn [hd app] in *. apply Forall_cons in Hsz as [Ha _].
    rewrite (alloc_round _ _ _ _ f) by done. cbn [list_find]. case_decide.
    + exists prevp. rewrite (proj2 (Z.leb_le _ _)) by done. split_and!; [left|done|done].
    + rewrite (proj2 (Z.leb_gt _ _)) by lia. by rewrite decide_True.
  - destruct Hl as [Hp Hl]. cbn [hd app] in *. apply Forall_cons in Hsz as [Ha Hsz'].
    apply not_elem_of_cons in Hnew as [Hfa Hnew]. simpl in Hfuel.
    rewrite (alloc_round _ _ _ _ a) by done. cbn [list_find]. case_decide.
    + exists prevp. rewrite (proj2 (Z.leb_le _ _)) by done. split_and!; [left|done|done].
    + rewrite (proj2 (Z.leb_gt _ _)), decide_False by (lia || congruence).
      specialize (IH Hnew Hsz' a fuel Hl ltac:(lia)).
      destruct (list_find _ (v0 ++ [f])) as [[i p]|]; simpl in *; [|done].
      destruct IH as (prev&Hin&?&?). exists prev. split_and!; [by right|done..].
Qed.

Lemma first_fit_Some h n v p : first_fit h n v = Some p → p ∈ v ∧ n ≤ h_size h p.
Proof.
  unfold first_fit. destruct (list_find _ v) as [[i a]|] eqn:E; [|done]. simpl. intros [= <-].
  apply list_find_Some in E as (Hi&Hle&_). split; [by eapply list_elem_of_lookup_2|done].
Qed.

(** What [alloc] promises about the block [b] of [n] units it takes. *)
Record block_taken h l top (n b : Z) h' : Prop := {
  tk_ok : ∃ l', heap_ok h' l' top ∧
    (∀ u, free_unit h' l' u ↔ free_unit h l u ∧ ¬ b ≤ u < b + n);
  tk_block u : b ≤ u < b + n → free_unit h l u;
  tk_size : h_size h' b = n;
  tk_other a : ¬ free_unit h l a → h_size h' a = h_size h a;
}.

(** The order in which a search meets the blocks. *)
Lemma around l f : f ∈ l → ∃ v0, v0 ++ [f] ≡ₚ l ∧ ∀ ptr, circle ptr l → links ptr (f :: v0) f.
Proof.
  intros Hf. apply list_elem_of_split in Hf as (l1&l2&->). exists (l2 ++ l1). split.
  - rewrite <- app_assoc, (Permutation_app_comm l2), <- app_assoc. done.
  - intros ptr Hc. apply circle_rotate in Hc. simpl app in Hc. unfold circle in Hc.
    cbn [app hd] in Hc. exact Hc.
Qed.

Lemma free_unit_middle h l1 p l2 u :
  free_unit h (l1 ++ p :: l2) u ↔ free_unit h (l1 ++ l2) u ∨ p ≤ u < p + h_size h p.
Proof.
  unfold free_unit. split.
  - intros (a&Ha&Hu). rewrite elem_of_app, elem_of_cons in Ha.
    destruct Ha as [?|[->|?]]; [left|by right|left]; exists a; (split; [apply elem_of_app; tauto|done]).
  - intros [(a&Ha&Hu)|Hu]; [|exists p; split; [apply elem_of_app; right; left|done]].
    exists a. split; [|done]. rewrite elem_of_app, elem_of_cons. rewrite elem_of_app in Ha. tauto.
Qed.

Lemma free_unit_apart h l1 p l2 u :
  ordered (h_size h) (l1 ++ p :: l2) → free_unit h (l1 ++ l2) u → ¬ p ≤ u < p + h_size h p.
Proof.
  intros (_&Ho1&Ho2)%ordered_middle (a&Ha&Hu). apply elem_of_app in Ha as [Ha|Ha].
  - pose proof (proj1 (Forall_forall _ _) Ho1 a Ha) as H. simpl in H. lia.
  - pose proof (proj1 (Forall_forall _ _) Ho2 a Ha) as H. simpl in H. lia.
Qed.

(** The whole of a block goes. *)
Lemma taken_whole h l top prev p :
  heap_ok h l top → p ∈ l → prev ∈ l → h_ptr h prev = p → l ≠ [p] →
  block_taken h l top (h_size h p) p (h <| h_ptr ::= at_ prev (h_ptr h p) |> <| freep := Some prev |>).
Proof.
  intros Hok Hp Hprev Hlink Hsingle. pose proof (ordered_NoDup _ _ _ (hp_ordered _ _ _ Hok) (hp_blocks _ _ _ Hok)) as Hnd.
  destruct Hok as [Hc Ho Hb Ht Hf]. apply list_elem_of_split in Hp as (l1&l2&->).
  pose proof Ho as Ho'. apply ordered_middle in Ho as (Ho&_&_).
  rewrite Forall_app, Forall_cons in Hb. destruct Hb as (Hb1&_&Hb2).
  assert (Hc' : circle (at_ prev (h_ptr h p) (h_ptr h)) (l1 ++ l2) ∧ prev ∈ l1 ++ l2).
  { apply circle_rotate in Hc. cbn [app] in Hc.
    destruct (exists_last (l := l2 ++ l1)) as (c0&x&E).
    { intros [-> ->]%app_eq_nil. done. }
    rewrite E, app_comm_cons in Hc. assert ((p :: c0) ++ [x] ≡ₚ l1 ++ p :: l2) as Hperm.
    { cbn [app]. rewrite <- E, (Permutation_app_comm l2). apply Permutation_middle. }
    assert (NoDup ((p :: c0) ++ [x])) as Hnd' by by rewrite Hperm.
    assert (prev = x) as ->.
    { pose proof (circle_last _ _ _ Hc) as Hx. eapply circle_pred; [exact Hc|done|by rewrite Hperm|].
      by rewrite Hlink, Hx. }
    unfold circle in Hc. rewrite links_app in Hc. destruct Hc as ((Hpn&Hc)&_).
    assert (x ∉ c0) as Hxc.
    { apply NoDup_app in Hnd' as (_&Hnd'&_). intros Hin. by apply (Hnd' x); [right|left]. }
    split.
    - apply circle_rotate. rewrite E. cbn [hd] in Hpn. rewrite Hpn. by apply circle_close.
    - rewrite (Permutation_app_comm l1), E. apply elem_of_app. right. left. }
  destruct Hc' as [Hc' Hin']. split; [|intros u Hu; apply free_unit_middle; by right|done|done].
  exists (l1 ++ l2). split.
  - split; try done. { by apply Forall_app. } by exists prev.
  - intros u. rewrite free_unit_middle. pose proof (free_unit_apart h l1 p l2 u Ho') as Hapart.
    change (free_unit _ (l1 ++ l2) u) with (free_unit h (l1 ++ l2) u) at 1. tauto.
Qed.

(** The tail of a block goes. *)
Lemma taken_tail h l top prev p n :
  heap_ok h l top → p ∈ l → prev ∈ l → 0 < n < h_size h p → let b := p + (h_size h p - n) in
  block_taken h l top n b
    (h <| h_size ::= λ sz, at_ b n (at_ p (h_size h p - n) sz) |> <| freep := Some prev |>).
Proof.
  intros [Hc Ho Hb Ht Hf] Hp Hprev Hn b. apply list_elem_of_split in Hp as (l1&l2&->).
  set (h' := h <| h_size ::= _ |> <| freep := _ |>).
  pose proof Ho as (_&Ho1&Ho2)%ordered_middle.
  assert (Hbl : ¬ b ∈ l1 ++ l2). { intros Hin. apply (free_unit_apart h l1 p l2 b); [done| |unfold b; lia].
    exists b. split; [done|]. rewrite Forall_app, Forall_cons in Hb. destruct Hb as (Hb1&_&Hb2).
    apply elem_of_app in Hin as [Hin|Hin]; [apply (proj1 (Forall_forall _ _) Hb1) in Hin|apply (proj1 (Forall_forall _ _) Hb2) in Hin].
    all: unfold block_ok in Hin; lia. }
  assert (Hpl : ¬ p ∈ l1 ++ l2). { intros Hin. apply elem_of_app in Hin as [Hin|Hin].
    - pose proof (proj1 (Forall_forall _ _) Ho1 p Hin) as H. simpl in H. lia.
    - pose proof (proj1 (Forall_forall _ _) Ho2 p Hin) as H. simpl in H. lia. }
  assert (Hsz : ∀ a, a ∈ l1 ++ l2 → h_size h' a = h_size h a).
  { intros a Ha. change (h_size h' a) with (at_ b n (at_ p (h_size h p - n) (h_size h)) a).
    rewrite !at_ne by congruence. done. }
  assert (Hszp : h_size h' p = h_size h p - n).
  { change (h_size h' p) with (at_ b n (at_ p (h_size h p - n) (h_size h)) p). rewrite at_ne, at_eq by (unfold b; lia). done. }
  assert (Hall : ∀ u, free_unit h' (l1 ++ p :: l2) u ↔ free_unit h (l1 ++ p :: l2) u ∧ ¬ b ≤ u < b + n).
  { intros u. rewrite !free_unit_middle, Hszp. pose proof (free_unit_apart h l1 p l2 u Ho) as Hapart.
    assert (free_unit h' (l1 ++ l2) u ↔ free_unit h (l1 ++ l2) u) as ->.
    { unfold free_unit. split; intros (a&Ha&Hu); specialize (Hsz a Ha); exists a; (split; [done|lia]). }
    unfold b. split; [intros [?|?]|intros [[?|?] ?]]; [|by (split; [right|]; lia)|by left|right; lia].
    split; [by left|]. intros ?. apply Hapart; [done|lia]. }
  assert (Hle : ∀ a, a ∈ l1 ++ p :: l2 → h_size h' a ≤ h_size h a).
  { intros a. rewrite elem_of_app, elem_of_cons. intros [?|[->|?]]; [rewrite Hsz; [lia|]|lia|rewrite Hsz; [lia|]].
    all: apply elem_of_app; tauto. }
  split.
  - exists (l1 ++ p :: l2). split; [|done]. split; try done.
    + by apply ordered_ext with (h_size h).
    + apply Forall_forall. intros a Ha. pose proof (proj1 (Forall_forall _ _) Hb a Ha) as Hba.
      specialize (Hle a Ha). unfold block_ok in *. assert (0 < h_size h' a); [|lia].
      rewrite elem_of_app, elem_of_cons in Ha. destruct Ha as [?|[->|?]]; [rewrite Hsz; [lia|]|lia|rewrite Hsz; [lia|]].
      all: apply elem_of_app; tauto.
    + by exists prev.
  - intros u Hu. apply free_unit_middle. right. unfold b in *. lia.
  - change (h_size h' b) with (at_ b n (at_ p (h_size h p - n) (h_size h)) b). apply at_eq.
  - intros a Ha. rewrite free_unit_middle in Ha.
    change (h_size h' a) with (at_ b n (at_ p (h_size h p - n) (h_size h)) a). rewrite !at_ne; [done|intros ->..].
    all: apply Ha; right; unfold b; lia.
Qed.

(** The heap [alloc] finds, or starts with when there is no list yet. *)
Definition started (elf_end : Z) h : heap :=
  match freep h with
  | Some _ => h
  | None => h <| freep := Some 1 |> <| h_ptr ::= at_ 1 1 |>
              <| h_size ::= at_ 1 (u32 (1073741823 - (elf_end + 8)) / 8) |>
  end.

Lemma started_ok elf_end h :
  0 ≤ elf_end ≤ 1073741823 - 16 → freep h = None →
  heap_ok (started elf_end h) [1] (1 + (1073741815 - elf_end) / 8).
Proof.
  intros He Hf. unfold started. rewrite Hf.
  assert (E : u32 (1073741823 - (elf_end + 8)) / 8 = (1073741815 - elf_end) / 8).
  { rewrite u32_id by lia. f_equal. lia. }
  rewrite E. split.
  - split; [|done]. apply at_eq.
  - by repeat constructor.
  - constructor; [|done]. unfold block_ok. change (h_size _ 1) with (at_ 1 ((1073741815 - elf_end) / 8) (h_size h) 1).
    rewrite at_eq. zlia.
  - zlia.
  - exists 1. split; [done|left].
Qed.

Lemma alloc_started elf_end fuel nbytes h f :
  freep (started elf_end h) = Some f →
  alloc elf_end fuel nbytes h = alloc_from fuel (nunits nbytes) f (started elf_end h).
Proof.
  unfold started, alloc, mbind, Srv_bind, get, set_ptr, set_size, update.
  destruct (freep h) as [f'|] eqn:E; cbn; [rewrite E; by intros [= ->]|by intros [= <-]].
Qed.

Lemma nunits_bounds nbytes :
  0 ≤ nbytes ≤ 2 ^ 32 - 8 → 0 < nunits nbytes ∧ nbytes ≤ 8 * (nunits nbytes - 1) < nbytes + 8.
Proof. intros H. unfold nunits. rewrite (u32_id (nbytes + 7)), u32_id by zlia. zlia. Qed.

(** [alloc] of [nbytes]: [n] units that were free, which hold a header and the
    bytes, are taken out of the free ones and nothing else changes; NULL only if no
    block is large enough.  If the only free block has exactly [n] units it is given
    out and stays in the list: the same call again returns the same block. *)
Theorem alloc_contract elf_end h l top fuel nbytes :
  let h0 := started elf_end h in let n := nunits nbytes in
  heap_ok h0 l top → 0 ≤ nbytes ≤ 2 ^ 32 - 8 → (length l ≤ fuel)%nat →
  ((∀ a, l = [a] → h_size h0 a ≠ n) →
   runs (alloc elf_end fuel nbytes) (λ r h',
     match r with
     | None => h' = h0 ∧ ∀ a, a ∈ l → h_size h0 a < n
     | Some p => nbytes ≤ 8 * (n - 1) ∧ block_taken h0 l top n (p - 1) h'
     end) h) ∧
  (∀ a, l = [a] → h_size h0 a = n → ∃ h' h'',
     alloc elf_end fuel nbytes h = Done (Some (a + 1)) h' ∧
     alloc elf_end fuel nbytes h' = Done (Some (a + 1)) h'').
Proof.
  intros h0 n Hok Hn Hfuel. destruct (nunits_bounds nbytes Hn) as [Hpos Hfit]. fold n in Hpos, Hfit.
  split.
  - intros Hexact. destruct (hp_freep _ _ _ Hok) as (f&Hf&Hfl). unfold runs. rewrite (alloc_started _ _ _ _ f Hf).
    fold h0 n. destruct (around l f Hfl) as (v0&Hperm&Hround).
    assert (Hfv : f ∉ v0).
    { pose proof (ordered_NoDup _ _ _ (hp_ordered _ _ _ Hok) (hp_blocks _ _ _ Hok)) as Hnd. rewrite <- Hperm in Hnd.
      apply NoDup_app in Hnd as (_&Hnd&_). intros Hin. apply (Hnd f Hin). left. }
    assert (Hsz : Forall (λ a, 0 < h_size h0 a < 2 ^ 32) (v0 ++ [f])).
    { rewrite Hperm. eapply Forall_impl; [apply Hok|]. pose proof (hp_top _ _ _ Hok). unfold block_ok. lia. }
    assert (Hlen : (length v0 < fuel)%nat).
    { apply Permutation_length in Hperm. rewrite length_app in Hperm. simpl in Hperm. lia. }
    pose proof (alloc_from_spec h0 fuel n f v0 f Hf Hfv (Hround _ (hp_circle _ _ _ Hok)) Hlen Hpos Hsz) as Hrun.
    destruct (first_fit h0 n (v0 ++ [f])) as [p|] eqn:Efit.
    + destruct Hrun as (prev&Hprev&Hlink&->). apply first_fit_Some in Efit as [Hp Hle]. rewrite Hperm in Hp.
      assert (prev ∈ l) as Hpl by (rewrite <- Hperm, elem_of_app; apply elem_of_cons in Hprev as [->|?]; [right; left|by left]).
      split; [lia|]. rewrite Z.add_simpl_r. unfold taken. destruct (Z.eqb_spec (h_size h0 p) n) as [E|E].
      * rewrite <- E. apply taken_whole; try done. intros ->. by apply (Hexact p).
      * apply taken_tail; try done. lia.
    + rewrite Hrun. split; [done|]. intros a Ha. unfold first_fit in Efit. apply fmap_None in Efit.
      apply list_find_None in Efit. rewrite <- Hperm in Ha. pose proof (proj1 (Forall_forall _ _) Efit a Ha) as H.
      simpl in H. lia.
  - intros a -> Ha. destruct (hp_freep _ _ _ Hok) as (f&Hf&Hfl). apply list_elem_of_singleton in Hfl as ->.
    pose proof (hp_top _ _ _ Hok). pose proof (proj1 (Forall_cons _ _ _) (hp_blocks _ _ _ Hok)) as [Hb _]. unfold block_ok in Hb.
    destruct fuel as [|fuel]; [simpl in Hfuel; lia|]. assert (Hpa : h_ptr h0 a = a) by apply (hp_circle _ _ _ Hok).
    assert (Hstep : ∀ s, freep s = Some a → h_ptr s a = a → h_size s a = n →
      alloc_from (S fuel) n a s = Done (Some (a + 1)) (s <| h_ptr ::= at_ a (h_ptr s a) |> <| freep := Some a |>)).
    { intros s Hs1 Hs2 Hs3. rewrite (alloc_round _ _ _ _ a), Hs3, Z.leb_refl by (done || lia).
      unfold taken. by rewrite Hs3, Z.eqb_refl. }
    eexists _, _. rewrite (alloc_started _ _ _ _ a Hf). split; [by apply Hstep|].
    rewrite (alloc_started _ _ _ _ a) by done. apply Hstep; [done| |done]. 
    etrans; [apply (at_eq a (h_ptr h0 a))|done].
Qed.
End alloc.

(** * [free] *)

Section free.
Implicit Types (h : heap) (l : list Z).

(** The condition under which the search of [free] stops at [p]. *)
Definition stops h (bp p : Z) : Prop :=
  p < bp ∧ bp < h_ptr h p ∨ h_ptr h p ≤ p ∧ (p < bp ∨ bp < h_ptr h p).

Lemma place_from_spec h bp v : ∀ fuel p e,
  links (h_ptr h) (p :: v) e → Exists (stops h bp) (p :: v) → (length v ≤ fuel)%nat →
  runs (place_from fuel bp p) (λ p' h', h' = h ∧ p' ∈ p :: v ∧ stops h bp p') h.
Proof.
  unfold stops. induction v as [|a v IH]; intros fuel p e Hl Hex Hfuel.
  all: assert (Hcase : stops h bp p ∨ ¬ stops h bp p) by (unfold stops; lia).
  all: destruct fuel as [|fuel]; try (simpl in Hfuel; lia); cbn [place_from]; apply runs_bind, runs_get.
  all: destruct Hcase as [Hst|Hst];
    [unfold stops in Hst; destruct ((p <? bp) && (bp <? h_ptr h p)) eqn:E1;
      [apply runs_ret; split_and!; [done|left|done]|];
     destruct ((h_ptr h p <=? p) && ((p <? bp) || (bp <? h_ptr h p))) eqn:E2;
      [apply runs_ret; split_and!; [done|left|done]|]; exfalso; lia|].
  1, 2: inv Hex as [?? H|?? H]; [by destruct Hst|by inv H].
  unfold stops in Hst. inv Hex as [?? H|?? Hex']; [by destruct Hst|].
  destruct Hl as [Hp Hl]. cbn [hd] in Hp. rewrite Hp in *.
  rewrite (proj2 (andb_false_iff _ _)) by lia. rewrite (proj2 (andb_false_iff _ _)) by lia.
  eapply runs_mono; [apply (IH fuel a e Hl Hex'); simpl in Hfuel; lia|].
  intros p' h' (->&Hin&Hs). split_and!; [done|by right|done].
Qed.

(** The list is split by an address outside it. *)
Lemma split_at size l bp :
  ordered size l → (∀ a, a ∈ l → 0 < size a ∧ a ≠ bp) →
  ∃ l1 l2, l = l1 ++ l2 ∧ Forall (λ a, a < bp) l1 ∧ Forall (λ a, bp < a) l2.
Proof.
  induction 1 as [|a l Hl IH Ha]; intros Hne; [by exists [], []|].
  destruct (Hne a ltac:(left)) as [Hpos Hab].
  destruct (decide (a < bp)).
  - destruct IH as (l1&l2&->&?&?); [intros b Hb; apply Hne; by right|]. exists (a :: l1), l2. by repeat constructor.
  - exists [], (a :: l). split_and!; [done|constructor|constructor; [lia|]].
    eapply Forall_impl; [exact Ha|]. simpl. lia.
Qed.

Lemma ordered_hd size bp d l :
  ordered size l → (∀ a, a ∈ l → 0 < size a) → bp < hd d l → Forall (λ a, bp < a) l.
Proof.
  intros Ho Hpos Hbp. destruct Ho as [|a l Ho Ha]; constructor; [done|].
  pose proof (Hpos a ltac:(left)). eapply Forall_impl; [exact Ha|]. simpl in *. lia.
Qed.

(** Where the search of [free] ends: [p] is the last block below [bp], or of all if
    there is none, and [l2 ++ l1] is the list from the block behind it on. *)
Record gap h (l1 l2 c0 : list Z) (p bp top : Z) : Prop := {
  gp_round : l2 ++ l1 = c0 ++ [p];
  gp_links : links (h_ptr h) c0 p;
  gp_ordered : ordered (h_size h) (l1 ++ l2);
  gp_blocks : Forall (block_ok (h_size h) top) (l1 ++ l2);
  gp_below : Forall (λ a, a + h_size h a ≤ bp) l1;
  gp_above : Forall (λ a, bp + h_size h bp ≤ a) l2;
  gp_block : block_ok (h_size h) top bp;
}.

Lemma circle_succ ptr c0 p : circle ptr (c0 ++ [p]) → links ptr c0 p ∧ ptr p = hd p c0.
Proof.
  intros Hc. split; [|by apply circle_last]. unfold circle in Hc. rewrite links_app in Hc. apply Hc.
Qed.

(** There is a place to stop at ... *)
Lemma stops_exists h l bp :
  circle (h_ptr h) l → ordered (h_size h) l → (∀ a, a ∈ l → 0 < h_size h a ∧ a ≠ bp) → l ≠ [] →
  ∃ p, p ∈ l ∧ stops h bp p.
Proof.
  intros Hc Ho Hne Hnil. destruct (split_at _ _ _ Ho Hne) as (l1&l2&->&H1&H2).
  destruct (exists_last (l := l2 ++ l1)) as (c0&p&E). { intros [-> ->]%app_eq_nil. done. }
  apply circle_rotate in Hc. rewrite E in Hc. apply circle_succ in Hc as [_ Hp].
  exists p. split. { rewrite (Permutation_app_comm l1), E, elem_of_app. right. left. }
  unfold stops. rewrite Hp.
  destruct (decide (l1 = [])) as [->|Hl1].
  - rewrite app_nil_r in E. subst l2. simpl in Ho. rewrite Forall_app, Forall_singleton in H2. destruct H2 as [H2 Hbp].
    right. destruct c0 as [|a c0]; simpl; [lia|]. inv Ho as [|?? _ Ha].
    rewrite Forall_app, Forall_singleton in Ha. destruct Ha as [_ Ha].
    destruct (Hne a) as [Hs _]; [left|]. apply Forall_cons in H2 as [H2 _]. simpl in *. lia.
  - destruct (exists_last Hl1) as (l0&x&->). rewrite app_assoc in E. apply app_inj_tail in E as [<- ->].
    rewrite Forall_app, Forall_singleton in H1. destruct H1 as [H1 Hbp].
    destruct l2 as [|b l2]; simpl; [|apply Forall_cons in H2 as [H2 _]; simpl in *; lia].
    right. destruct l0 as [|a l0]; simpl; [lia|]. simpl in Ho. inv Ho as [|?? _ Ha].
    apply Forall_forall with (x := p) in Ha; [|rewrite !elem_of_app; left; right; left]. simpl in Ha.
    destruct (Hne a) as [Hs _]; [left|]. lia.
Qed.

(** A block of which no unit is free is behind or before the others. *)
Lemma sides h l bp top :
  Forall (block_ok (h_size h) top) l → block_ok (h_size h) top bp →
  (∀ u, bp ≤ u < bp + h_size h bp → ¬ free_unit h l u) → ∀ k, (∀ a, a ∈ k → a ∈ l) →
  (Forall (λ a, a < bp) k → Forall (λ a, a + h_size h a ≤ bp) k) ∧
  (Forall (λ a, bp < a) k → Forall (λ a, bp + h_size h bp ≤ a) k).
Proof.
  intros Hb Hbp Hfree k Hsub.
  assert (Hsep : ∀ a, a ∈ k → (a + h_size h a ≤ bp ∨ bp + h_size h bp ≤ a) ∧ 0 < h_size h a ∧ 0 < h_size h bp).
  { intros a Ha. pose proof (proj1 (Forall_forall _ _) Hb a (Hsub a Ha)) as Hba. unfold block_ok in *. split; [|lia].
    destruct (decide (a + h_size h a ≤ bp)); [by left|]. destruct (decide (bp + h_size h bp ≤ a)); [by right|].
    exfalso. apply (Hfree (Z.max a bp)); [lia|]. exists a. split; [by apply Hsub|lia]. }
  rewrite !Forall_forall. split; intros Hk a Ha; specialize (Hk a Ha); specialize (Hsep a Ha); lia.
Qed.

(** ... and it is where the block belongs. *)
Lemma stops_gap h l p bp top :
  heap_ok h l top → p ∈ l → stops h bp p → block_ok (h_size h) top bp →
  (∀ u, bp ≤ u < bp + h_size h bp → ¬ free_unit h l u) →
  ∃ l1 l2 c0, l = l1 ++ l2 ∧ gap h l1 l2 c0 p bp top ∧ h_ptr h p = hd p c0.
Proof.
  intros [Hc Ho Hb _ _] Hp Hst Hbp Hfree.
  apply list_elem_of_split in Hp as (la&lb&->).
  assert (Hrot : circle (h_ptr h) ((lb ++ la) ++ [p])).
  { replace (la ++ p :: lb) with ((la ++ [p]) ++ lb) in Hc by by rewrite <- app_assoc.
    apply circle_rotate in Hc. by rewrite <- app_assoc. }
  apply circle_succ in Hrot as [Hlinks Hnext].
  assert (Hlow : ∀ k, Forall (λ a, a < bp) k → (∀ a, a ∈ k → a ∈ la ++ p :: lb) → Forall (λ a, a + h_size h a ≤ bp) k).
  { intros k Hk Hsub. by apply (sides _ _ _ _ Hb Hbp Hfree k Hsub). }
  assert (Hhigh : ∀ k, Forall (λ a, bp < a) k → (∀ a, a ∈ k → a ∈ la ++ p :: lb) → Forall (λ a, bp + h_size h bp ≤ a) k).
  { intros k Hk Hsub. by apply (sides _ _ _ _ Hb Hbp Hfree k Hsub). }
  assert (Hpos : ∀ a, a ∈ la ++ p :: lb → 0 < h_size h a).
  { intros a Ha. apply (proj1 (Forall_forall _ _) Hb a Ha). }
  pose proof Ho as (_&Ho1&_)%ordered_middle.
  assert (Hla : Forall (λ a, a < p) la).
  { apply Forall_forall. intros a Ha. pose proof (proj1 (Forall_forall _ _) Ho1 a Ha) as H. simpl in H.
    pose proof (Hpos a ltac:(apply elem_of_app; by left)). lia. }
  unfold stops in Hst. rewrite Hnext in Hst. destruct lb as [|b lb].
  - assert (Hle : hd p la ≤ p).
    { destruct Hla; simpl; lia. }
    cbn [app] in *. destruct (decide (p < bp)) as [Hlt|Hlt].
    + exists (la ++ [p]), [], la. rewrite !app_nil_r. split_and!; [done| |done].
      split; try done; rewrite ?app_nil_r; try done. apply Hlow; [|done].
      apply Forall_app. split; [|by constructor]. eapply Forall_impl; [exact Hla|]. simpl. lia.
    + exists [], (la ++ [p]), la. split_and!; [done| |done]. split; try done; rewrite ?app_nil_r; try done.
      apply Hhigh; [|done]. apply (ordered_hd _ _ p _ Ho Hpos). destruct la; simpl in *; lia.
  - simpl in Hst. assert (Hpb : p < bp < b).
    { pose proof Ho as (_&_&Ho2)%ordered_middle. apply Forall_cons in Ho2 as [Hb' _]. simpl in Hb'.
      pose proof (Hpos p ltac:(apply elem_of_app; right; left)). lia. }
    exists (la ++ [p]), (b :: lb), ((b :: lb) ++ la). split_and!; [by rewrite <- app_assoc| |done].
    split; rewrite <- ?app_assoc; try done.
    + apply Hlow; [|intros a; rewrite !elem_of_app, !elem_of_cons, elem_of_nil; tauto].
      apply Forall_app. split; [|constructor; [lia|done]]. eapply Forall_impl; [exact Hla|]. simpl. lia.
    + apply Hhigh; [|intros a; rewrite elem_of_app, (elem_of_cons (b :: lb)); tauto].
      unfold ordered in Ho. apply StronglySorted_app in Ho as (_&_&Ho). inv Ho as [|?? Ho' _].
      apply (ordered_hd (h_size h) _ p _ Ho'); [|simpl; lia].
      intros a Ha. apply Hpos. rewrite elem_of_app, (elem_of_cons (b :: lb)). tauto.
Qed.

(** The two halves of [free] behind its search. *)
Definition join_upper h (bp q : Z) : heap :=
  if bp + h_size h bp =? q
  then h <| h_size ::= at_ bp (h_size h bp + h_size h q) |> <| h_ptr ::= at_ bp (h_ptr h q) |>
  else h <| h_ptr ::= at_ bp q |>.
Definition join_lower h (bp p : Z) : heap :=
  if p + h_size h p =? bp
  then h <| h_size ::= at_ p (h_size h p + h_size h bp) |> <| h_ptr ::= at_ p (h_ptr h bp) |>
  else h <| h_ptr ::= at_ p bp |>.

(** A block outside the ones of a list. *)
Lemma gap_outside h l1 l2 c0 p bp top : gap h l1 l2 c0 p bp top → (bp ∉ l1 ++ l2) ∧ (p ∈ l1 ++ l2) ∧ (p ∉ c0).
Proof.
  intros [Hr Hl Ho Hb Hbe Hab Hbp].
  assert (p ∈ l1 ++ l2) as Hp by (rewrite (Permutation_app_comm l1), Hr, elem_of_app; right; left).
  split_and!; [|done|].
  - unfold block_ok in *. intros Hin. pose proof (proj1 (Forall_forall _ _) Hb _ Hin) as H. simpl in H.
    apply elem_of_app in Hin as [Hin|Hin].
    + pose proof (proj1 (Forall_forall _ _) Hbe _ Hin) as H'. simpl in H'. lia.
    + pose proof (proj1 (Forall_forall _ _) Hab _ Hin) as H'. simpl in H'. lia.
  - pose proof (ordered_NoDup _ _ _ Ho Hb) as Hnd. rewrite (Permutation_app_comm l1), Hr in Hnd.
    apply NoDup_app in Hnd as (_&Hnd&_). intros Hin. apply (Hnd p Hin). left.
Qed.

(** Blocks of the same sizes. *)
Lemma same_sizes h h' l top :
  (∀ a, a ∈ l → h_size h' a = h_size h a) →
  (ordered (h_size h) l → ordered (h_size h') l) ∧
  (Forall (block_ok (h_size h) top) l → Forall (block_ok (h_size h') top) l) ∧
  (∀ u, free_unit h' l u ↔ free_unit h l u).
Proof.
  intros Hsz. split_and!.
  - apply ordered_ext. intros a Ha. rewrite Hsz; [lia|done].
  - rewrite !Forall_forall. intros Hb a Ha. unfold block_ok. rewrite Hsz by done. by apply Hb.
  - intros u. unfold free_unit. split; intros (a&Ha&Hu); exists a; (split; [done|]); specialize (Hsz a Ha); lia.
Qed.

Lemma hd_snoc (l1 l2 : list Z) p x : x :: l1 = l2 ++ [p] → hd p l2 = x.
Proof. destruct l2; simpl; congruence. Qed.

(** What the first half leaves: the block fits into the gap, and does not touch a block
    behind it; its units have grown by those of a block it was joined with. *)
Record upper_done h h' l1 l2 l2' c0' (p bp top : Z) : Prop := {
  ud_gap : gap h' l1 l2' c0' p bp top;
  ud_next : h_ptr h' bp = hd p c0';
  ud_strict : Forall (λ a, bp + h_size h' bp < a) l2';
  ud_units u : free_unit h' (l1 ++ l2') u ∨ bp ≤ u < bp + h_size h' bp ↔
               free_unit h (l1 ++ l2) u ∨ bp ≤ u < bp + h_size h bp;
  ud_sizes a : a ≠ bp → h_size h' a = h_size h a;
}.

Lemma upper_joined h l1 l2 c0 p bp x top :
  gap h l1 (x :: l2) (x :: c0) p bp top → bp + h_size h bp = x →
  upper_done h (h <| h_size ::= at_ bp (h_size h bp + h_size h x) |> <| h_ptr ::= at_ bp (h_ptr h x) |>)
    l1 (x :: l2) l2 c0 p bp top.
Proof.
  intros Hgap Hx. pose proof (gap_outside _ _ _ _ _ _ _ Hgap) as (Hout&_&Hpc).
  destruct Hgap as [Hr Hl Ho Hb Hbe Hab Hbp]. set (h' := h <| h_size ::= _ |> <| h_ptr ::= _ |>).
  assert (Hsz : ∀ a, a ≠ bp → h_size h' a = h_size h a) by (intros a Ha; by apply at_ne).
  assert (Hszb : h_size h' bp = h_size h bp + h_size h x) by apply at_eq.
  assert (Hsub : ∀ a, a ∈ l1 ++ l2 → a ≠ bp).
  { intros a Ha ->. apply Hout. rewrite elem_of_app, elem_of_cons. rewrite elem_of_app in Ha. tauto. }
  destruct (same_sizes h h' (l1 ++ l2) top) as (Ho'&Hb'&Hu'); [by intros a Ha; apply Hsz, Hsub|].
  pose proof Ho as (Ho2&_&Habove)%ordered_middle. rewrite Forall_app, Forall_cons in Hb. destruct Hb as (Hb1&Hbx&Hb2).
  destruct Hl as [Hxn Hl]. simpl in Hr. injection Hr as Hr. unfold block_ok in *.
  split; [split| | | |done].
  - done.
  - apply links_out; [|done]. intros Hin. apply (Hsub bp); [|done].
    rewrite (Permutation_app_comm l1), Hr, elem_of_app. by left.
  - by apply Ho'.
  - apply Hb'. by apply Forall_app.
  - eapply Forall_impl; [apply Forall_and; split; [exact Hbe|apply (Forall_forall (λ a, a ≠ bp)); intros a Ha; apply Hsub, elem_of_app; by left]|].
    intros a [H1 H2]. pose proof (Hsz a H2). cbv beta in H1 |- *. lia.
  - eapply Forall_impl; [exact Habove|]. intros a Ha. cbv beta in *. rewrite Hszb. lia.
  - unfold block_ok. rewrite Hszb. lia.
  - transitivity (h_ptr h x); [apply at_eq|done].
  - eapply Forall_impl; [exact Habove|]. intros a Ha. cbv beta in *. rewrite Hszb. lia.
  - intros u. rewrite free_unit_middle, Hu', Hszb. intuition lia.
Qed.

Lemma upper_apart h l1 l2 c0 p bp top :
  gap h l1 l2 c0 p bp top → bp + h_size h bp ≠ hd p c0 →
  upper_done h (h <| h_ptr ::= at_ bp (hd p c0) |>) l1 l2 l2 c0 p bp top.
Proof.
  intros Hgap Hx. pose proof (gap_outside _ _ _ _ _ _ _ Hgap) as (Hout&_&_). pose proof Hgap as [Hr Hl Ho Hb Hbe Hab Hbp].
  assert (bp ∉ c0) as Hbc.
  { intros Hin. apply Hout. rewrite (Permutation_app_comm l1), Hr, elem_of_app. by left. }
  split; [split; try done; by apply links_out|apply at_eq| |done|done].
  destruct l2 as [|y l2]; [constructor|]. apply hd_snoc in Hr. subst y.
  unfold ordered in Ho. apply StronglySorted_app in Ho as (_&_&Ho). apply (ordered_hd (h_size h) _ 0); [done| |].
  - intros a Ha. rewrite Forall_app in Hb. by apply (proj1 (Forall_forall _ _) (proj2 Hb) a Ha).
  - apply Forall_cons in Hab as [Hab _]. simpl in *. lia.
Qed.

Lemma join_upper_done h l1 l2 c0 p bp top :
  gap h l1 l2 c0 p bp top → ¬ (∃ a, l1 ++ l2 = [a] ∧ bp + h_size h bp = a) →
  ∃ l2' c0', upper_done h (join_upper h bp (hd p c0)) l1 l2 l2' c0' p bp top.
Proof.
  intros Hgap Hbug. unfold join_upper. case_match eqn:E; [|apply Z.eqb_neq in E; eauto using upper_apart].
  apply Z.eqb_eq in E. pose proof Hgap as [Hr Hl Ho Hb Hbe Hab Hbp]. unfold block_ok in Hbp.
  destruct l2 as [|x l2].
  { exfalso. simpl in Hr. assert (hd p c0 ∈ l1) as Hin by (rewrite Hr; apply hd_elem_of).
    pose proof (proj1 (Forall_forall _ _) Hbe _ Hin) as H. simpl in H. rewrite app_nil_r in Hb.
    pose proof (proj1 (Forall_forall _ _) Hb _ Hin) as H'. unfold block_ok in H'. lia. }
  destruct c0 as [|y c0].
  { destruct l2, l1; try done. injection Hr as ->. destruct Hbug. by exists p. }
  simpl in Hr. injection Hr as -> Hr. simpl in E |- *. exists l2, c0. by apply upper_joined.
Qed.

(** What the second half leaves. *)
Record lower_done h h' l (bp top : Z) : Prop := {
  ld_ok : ∃ l', heap_ok h' l' top ∧ ∀ u, free_unit h' l' u ↔ free_unit h l u ∨ bp ≤ u < bp + h_size h bp;
  ld_sizes a : ¬ free_unit h l a → h_size h' a = h_size h a;
}.

Lemma gap_last h l1 l2 c0 p bp top :
  gap h l1 l2 c0 p bp top → l1 = [] ∨ ∃ l0, l1 = l0 ++ [p] ∧ c0 = l2 ++ l0.
Proof.
  intros [Hr _ _ _ _ _ _]. destruct (decide (l1 = [])) as [|Hl1]; [by left|]. right.
  destruct (exists_last Hl1) as (l0&x&->). rewrite app_assoc in Hr. apply app_inj_tail in Hr as [<- ->]. by exists l0.
Qed.

Lemma lower_joined h l1 l2 c0 p bp top :
  gap h l1 l2 c0 p bp top → h_ptr h bp = hd p c0 → Forall (λ a, bp + h_size h bp < a) l2 → top ≤ 2 ^ 27 →
  p + h_size h p = bp →
  lower_done h (h <| h_size ::= at_ p (h_size h p + h_size h bp) |> <| h_ptr ::= at_ p (h_ptr h bp) |> <| freep := Some p |>)
    (l1 ++ l2) bp top.
Proof.
  intros Hgap Hnext Hstrict Htop Hx. pose proof (gap_outside _ _ _ _ _ _ _ Hgap) as (Hout&Hp&Hpc).
  set (h' := h <| h_size ::= _ |> <| h_ptr ::= _ |> <| freep := _ |>).
  assert (Hsz : ∀ a, a ≠ p → h_size h' a = h_size h a) by (intros a Ha; by apply at_ne).
  assert (Hszp : h_size h' p = h_size h p + h_size h bp) by apply at_eq.
  destruct (gap_last _ _ _ _ _ _ _ Hgap) as [->|(l0&->&->)].
  { exfalso. pose proof (proj1 (Forall_forall _ _) (gp_above _ _ _ _ _ _ _ Hgap) p Hp) as H. simpl in H.
    pose proof (proj1 (Forall_forall _ _) (gp_blocks _ _ _ _ _ _ _ Hgap) p Hp) as H'.
    pose proof (gp_block _ _ _ _ _ _ _ Hgap). unfold block_ok in *. lia. }
  destruct Hgap as [_ Hl Ho Hb Hbe Hab Hbp]. rewrite <- app_assoc in Ho, Hb |- *. cbn [app] in Ho, Hb |- *.
  destruct (same_sizes h h' (l0 ++ l2) top) as (Ho'&Hb'&Hu').
  { intros a Ha. apply Hsz. intros ->. apply Hpc. by rewrite Permutation_app_comm. }
  apply ordered_middle in Ho as (Ho&Hbelow&_). rewrite Forall_app, Forall_cons in Hb. destruct Hb as (Hb1&Hbx&Hb2).
  assert (Hsz1 : ∀ a, a ∈ l0 → h_size h' a = h_size h a).
  { intros a Ha. apply Hsz. intros ->. apply Hpc, elem_of_app. by right. }
  unfold block_ok in Hbx, Hbp. split.
  - exists (l0 ++ p :: l2). split; [split|].
    + replace (l0 ++ p :: l2) with ((l0 ++ [p]) ++ l2) by by rewrite <- app_assoc.
      apply circle_rotate. rewrite app_assoc. change (h_ptr h') with (at_ p (h_ptr h bp) (h_ptr h)).
      rewrite Hnext. by apply circle_close.
    + apply ordered_middle. split_and!; [by apply Ho'| |].
      * rewrite Forall_forall in Hbelow |- *. intros a Ha. rewrite Hsz1 by done. by apply Hbelow.
      * eapply Forall_impl; [exact Hstrict|]. intros a Ha. cbv beta in *. lia.
    + specialize (Hb' (proj2 (Forall_app _ _ _) (conj Hb1 Hb2))). rewrite Forall_app in Hb'.
      rewrite Forall_app, Forall_cons. split_and!; [apply Hb'| |apply Hb']. unfold block_ok. lia.
    + done.
    + exists p. split; [done|]. rewrite elem_of_app. right. left.
    + intros u. rewrite !free_unit_middle, Hu'. intuition lia.
  - intros a Ha. apply Hsz. intros ->. apply Ha, free_unit_middle. right. lia.
Qed.

Lemma lower_apart h l1 l2 c0 p bp top :
  gap h l1 l2 c0 p bp top → h_ptr h bp = hd p c0 → Forall (λ a, bp + h_size h bp < a) l2 → top ≤ 2 ^ 27 →
  p + h_size h p ≠ bp →
  lower_done h (h <| h_ptr ::= at_ p bp |> <| freep := Some p |>) (l1 ++ l2) bp top.
Proof.
  intros Hgap Hnext Hstrict Htop Hx. pose proof (gap_outside _ _ _ _ _ _ _ Hgap) as (Hout&Hp&Hpc).
  pose proof (gap_last _ _ _ _ _ _ _ Hgap) as Hlast. destruct Hgap as [Hr Hl Ho Hb Hbe Hab Hbp].
  assert (Hbelow : Forall (λ a, a + h_size h a < bp) l1).
  { destruct Hlast as [->|(l0&->&->)]; [constructor|]. rewrite Forall_app, Forall_singleton in Hbe |- *.
    destruct Hbe as [_ Hbe]. split; [|lia]. rewrite <- app_assoc in Ho.
    apply ordered_middle in Ho as (_&Ho&_). pose proof (proj1 (Forall_forall _ _) Hb p Hp) as Hbx. unfold block_ok in Hbx.
    eapply Forall_impl; [exact Ho|]. simpl. lia. }
  split; [|done]. exists (l1 ++ bp :: l2). split; [split|].
  - apply (circle_rotate _ (bp :: l2)). cbn [app]. rewrite Hr, app_comm_cons.
    change (h_ptr _) with (at_ p (hd p (bp :: c0)) (h_ptr h)). apply circle_close; [|done].
    apply not_elem_of_cons. split; [|done]. intros ->. done.
  - apply ordered_middle. done.
  - rewrite Forall_app in Hb. apply Forall_app. rewrite Forall_cons. tauto.
  - done.
  - exists p. split; [done|]. rewrite elem_of_app, elem_of_cons. rewrite elem_of_app in Hp. tauto.
  - intros u. exact (free_unit_middle h l1 bp l2 u).
Qed.

(** The state in which [free] returns. *)
Lemma free_state fuel ap h f p :
  freep h = Some f → place_from fuel (ap - 1) f h = Done p h → let bp := ap - 1 in
  let h1 := join_upper h bp (h_ptr h p) in
  0 ≤ h_size h bp + h_size h (h_ptr h p) < 2 ^ 32 → 0 ≤ h_size h1 p + h_size h1 bp < 2 ^ 32 →
  free fuel ap h = Done tt ((join_lower h1 bp p) <| freep := Some p |>).
Proof.
  intros Hf Hplace bp h1 H1 H2.
  set (second := sp ← get (λ h, h_size h p);
    (if p + sp =? bp then
       sb ← get (λ h, h_size h bp);
       set_size p (u32 (sp + sb));;
       q ← get (λ h, h_ptr h bp);
       set_ptr p q
     else set_ptr p bp);;
    update (λ h, h <| freep := Some p |>)).
  transitivity (second h1).
  - unfold free, mbind, Srv_bind, get. rewrite Hf. cbn [follow mret Srv_ret]. rewrite Hplace. fold bp.
    unfold h1, join_upper. destruct (bp + h_size h bp =? h_ptr h p); [|done]. by rewrite u32_id.
  - clearbody h1. unfold second, mbind, Srv_bind, get, join_lower.
    destruct (p + h_size h1 p =? bp); [|done]. by rewrite u32_id.
Qed.

Lemma size_bound size top l a : top ≤ 2 ^ 27 → Forall (block_ok size top) l → a ∈ l → 0 < size a ≤ 2 ^ 27.
Proof. intros Ht Hb Ha. pose proof (proj1 (Forall_forall _ _) Hb a Ha) as H. unfold block_ok in H. lia. Qed.

(** The search of [free] ends. *)
Lemma place_found h l top fuel bp :
  heap_ok h l top → block_ok (h_size h) top bp →
  (∀ u, bp ≤ u < bp + h_size h bp → ¬ free_unit h l u) → (length l ≤ fuel)%nat →
  ∃ f p, freep h = Some f ∧ place_from fuel bp f h = Done p h ∧ p ∈ l ∧ stops h bp p.
Proof.
  intros Hok Hbp Hfree Hfuel. unfold block_ok in Hbp.
  destruct (hp_freep _ _ _ Hok) as (f&Hf&Hfl). destruct (around l f Hfl) as (v0&Hperm&Hround).
  assert (Hin : ∀ a, a ∈ f :: v0 ↔ a ∈ l) by (intros a; by rewrite <- Hperm, (Permutation_app_comm v0)).
  destruct (stops_exists h l bp) as (x&Hx&Hxs); [apply Hok..| |by intros ->; apply not_elem_of_nil in Hfl|].
  { intros a Ha. pose proof (size_bound _ _ _ _ (hp_top _ _ _ Hok) (hp_blocks _ _ _ Hok) Ha). split; [lia|].
    intros ->. apply (Hfree bp); [lia|]. exists bp. split; [done|lia]. }
  assert (Hrun : runs (place_from fuel bp f) (λ p' h', h' = h ∧ p' ∈ f :: v0 ∧ stops h bp p') h).
  { apply (place_from_spec h bp v0 fuel f f); [apply Hround, Hok|apply Exists_exists; exists x; by rewrite Hin|].
    apply Permutation_length in Hperm. rewrite length_app in Hperm. simpl in Hperm. lia. }
  unfold runs in Hrun. destruct (place_from fuel bp f h) as [p s| | |] eqn:E; try done.
  destruct Hrun as (->&Hp&Hst). exists f, p. by rewrite <- Hin.
Qed.

Lemma join_lower_done h l1 l2 l2' c0' h1 p bp top :
  upper_done h h1 l1 l2 l2' c0' p bp top → top ≤ 2 ^ 27 →
  lower_done h1 ((join_lower h1 bp p) <| freep := Some p |>) (l1 ++ l2') bp top.
Proof.
  intros [Hgap Hnext Hstrict _ _] Ht. unfold join_lower. destruct (Z.eqb_spec (p + h_size h1 p) bp).
  - by eapply lower_joined.
  - by eapply lower_apart.
Qed.

(** The only free block starts where the block that is freed ends. *)
Lemma free_below_only h fuel ap f a :
  let bp := ap - 1 in
  freep h = Some f → place_from fuel bp f h = Done a h → h_ptr h a = a → bp + h_size h bp = a → bp ≠ a →
  0 < h_size h a ≤ 2 ^ 27 → 0 < h_size h bp ≤ 2 ^ 27 →
  runs (free fuel ap) (λ _ h', freep h' = Some a ∧ h_ptr h' a = bp ∧ h_ptr h' bp = a ∧
    h_size h' a = h_size h a ∧ h_size h' bp = h_size h bp + h_size h a) h.
Proof.
  intros bp Hf Hplace Hq Hx Hne Ha Hb.
  assert (E : join_upper h bp (h_ptr h a) =
    h <| h_size ::= at_ bp (h_size h bp + h_size h a) |> <| h_ptr ::= at_ bp a |>).
  { unfold join_upper. by rewrite !Hq, Hx, Z.eqb_refl. }
  unfold runs. rewrite (free_state fuel ap h f a Hf Hplace); fold bp.
  - rewrite E. set (h1 := h <| h_size ::= _ |> <| h_ptr ::= _ |>).
    assert (h_size h1 a = h_size h a) as E1 by (by apply at_ne).
    unfold join_lower. rewrite E1, (proj2 (Z.eqb_neq _ _)) by lia.
    split_and!; [done|apply at_eq| |exact E1|apply at_eq]. etrans; [by apply at_ne|apply at_eq].
  - rewrite Hq. lia.
  - rewrite E. assert (∀ v w, h_size (h <| h_size ::= at_ bp v |> <| h_ptr ::= at_ bp w |>) a = h_size h a ∧
      h_size (h <| h_size ::= at_ bp v |> <| h_ptr ::= at_ bp w |>) bp = v) as Hs.
    { intros v w. split; [by apply at_ne|apply at_eq]. }
    destruct (Hs (h_size h bp + h_size h a) a) as [-> ->]. lia.
Qed.

(** C30: [free] of a block of which no unit is free: exactly its units are added to the
    free ones, the list stays in order with adjacent blocks joined, and the headers of
    the other blocks in use stay.  The exception is a block that ends where the only
    free block starts: the two then point to each other and the larger one covers the
    smaller. *)
Theorem free_contract h l top fuel ap :
  let bp := ap - 1 in
  heap_ok h l top → block_ok (h_size h) top bp →
  (∀ u, bp ≤ u < bp + h_size h bp → ¬ free_unit h l u) → (length l ≤ fuel)%nat →
  (¬ (∃ a, l = [a] ∧ bp + h_size h bp = a) →
   runs (free fuel ap) (λ _ h',
     (∃ l', heap_ok h' l' top ∧ ∀ u, free_unit h' l' u ↔ free_unit h l u ∨ bp ≤ u < bp + h_size h bp) ∧
     ∀ a, ¬ free_unit h l a → ¬ bp ≤ a < bp + h_size h bp → h_size h' a = h_size h a) h) ∧
  (∀ a, l = [a] → bp + h_size h bp = a →
   runs (free fuel ap) (λ _ h', freep h' = Some a ∧ h_ptr h' a = bp ∧ h_ptr h' bp = a ∧
     h_size h' a = h_size h a ∧ h_size h' bp = h_size h bp + h_size h a) h).
Proof.
  intros bp Hok Hbp Hfree Hfuel. pose proof (hp_top _ _ _ Hok) as Ht.
  destruct (place_found h l top fuel bp Hok Hbp Hfree Hfuel) as (f&p&Hf&Hplace&Hp&Hst).
  destruct (stops_gap h l p bp top Hok Hp Hst Hbp Hfree) as (l1&l2&c0&->&Hgap&Hnext).
  pose proof (gap_outside _ _ _ _ _ _ _ Hgap) as (Hout&_&_). pose proof (gp_round _ _ _ _ _ _ _ Hgap) as Hround.
  assert (h_ptr h p ∈ l1 ++ l2) as Hq by (rewrite Hnext, (Permutation_app_comm l1), Hround; apply hd_elem_of).
  assert (Hsize : ∀ a, a ∈ l1 ++ l2 → 0 < h_size h a ≤ 2 ^ 27) by (intros a; apply (size_bound _ _ _ _ Ht (hp_blocks _ _ _ Hok))).
  pose proof (Hsize _ Hp) as Hsp. pose proof (Hsize _ Hq) as Hsq. assert (bp ≠ p) as Hpb by congruence.
  split; intros Hcase.
  - destruct (join_upper_done h l1 l2 c0 p bp top Hgap Hcase) as (l2'&c0'&Hup). rewrite <- Hnext in Hup.
    unfold runs. rewrite (free_state fuel ap h f p Hf Hplace); fold bp.
    + pose proof (join_lower_done _ _ _ _ _ _ _ _ _ Hup Ht) as [(l'&Hok'&Hunits) Hsizes].
      destruct Hup as [_ _ _ Hu Hs]. split.
      * exists l'. split; [done|]. intros u. by rewrite Hunits, Hu.
      * intros a Ha Hab. rewrite Hsizes, Hs; [done| |].
        -- intros ->. unfold block_ok in Hbp. lia.
        -- intros Ha'. destruct (proj1 (Hu a)); [by left|done|done].
    + unfold block_ok in Hbp. lia.
    + destruct Hup as [Hg' _ _ _ Hs]. rewrite (Hs p) by done.
      pose proof (gp_block _ _ _ _ _ _ _ Hg'). unfold block_ok in *. lia.
  - intros Ea Hx. rewrite Ea in Hp, Hq. apply list_elem_of_singleton in Hp as ->, Hq as Hq. clear Hround Hout.
    apply (free_below_only h fuel ap f Hcase); try done. fold bp. unfold block_ok in Hbp. lia.
Qed.
End free.
