(* ===== verification/AppPager.v ===== *)
(** The application pager (src/sdios/src/apppager): the threads it pages for, their
    spaces and the pages it has given them (util.cc, util.h), and its calls
    (apppager.cc).

    An object made with [new] is an index into the list of the objects of its class, in
    the order they were made; the thread of a deleted object is [None], and following a
    pointer to it is undefined.  The file server's answer to [mapFile] and the id of the
    locator are the class [Files]. *)

From S2P Require Import Prelude Machine Server L4Types ElfLoader.

Class Files := {
  map_file : list Z → Z → memory → memory;
  locatorid : Z;
}.

Inductive pager_call :=
  | L4_Send (thread ip : Z)
  | L4_UnmapFpage (fpage : Z).

(** * The objects *)

Record page_t := Page { desc : Z; nextPage : option nat }.
#[global] Instance page_t_fields : Fields page_t := λ r, {|
  desc := desc r; nextPage := nextPage r |}.

Record space_t := Space {
  globalNextFreeSpace : option nat;
  firstPage : option nat;
  fileSlot : Z;
  firstThread : option nat;
}.
#[global] Instance space_t_fields : Fields space_t := λ r, {|
  globalNextFreeSpace := globalNextFreeSpace r; firstPage := firstPage r;
  fileSlot := fileSlot r; firstThread := firstThread r |}.

Record thread_t := Thread {
  globalNextThread : option nat;
  nextThread : option nat;
  globalid : Z;
  space : option nat;
}.
#[global] Instance thread_t_fields : Fields thread_t := λ r, {|
  globalNextThread := globalNextThread r; nextThread := nextThread r;
  globalid := globalid r; space := space r |}.

Record pager := Pager {
  pages : list page_t;
  spaces : list space_t;
  threads : list (option thread_t);
  globalFirstFreePage : option nat;
  nextAllocablePageStart : Z;
  globalFirstThread : option nat;
  globalFirstFreeSpace : option nat;
  nextAllocableFileSlot : Z;
  pager_mem : memory;
  sent : list pager_call;
}.
#[global] Instance pager_fields : Fields pager := λ r, {|
  pages := pages r; spaces := spaces r; threads := threads r;
  globalFirstFreePage := globalFirstFreePage r; nextAllocablePageStart := nextAllocablePageStart r;
  globalFirstThread := globalFirstThread r; globalFirstFreeSpace := globalFirstFreeSpace r;
  nextAllocableFileSlot := nextAllocableFileSlot r; pager_mem := pager_mem r; sent := sent r |}.

#[global] Program Instance pages_array : Array pager page_t :=
  {| cells := pages; set_cells l s := s <| pages := l |> |}.
Next Obligation. done. Qed.
#[global] Program Instance spaces_array : Array pager space_t :=
  {| cells := spaces; set_cells l s := s <| spaces := l |> |}.
Next Obligation. done. Qed.
#[global] Program Instance threads_array : Array pager (option thread_t) :=
  {| cells := threads; set_cells l s := s <| threads := l |> |}.
Next Obligation. done. Qed.

(** A field of a thread, undefined when it was deleted. *)
Definition tpeek {A} (f : thread_t → A) (t : nat) : Srv pager A :=
  x ← peek (fmap f) t; follow x.
Definition tpoke (t : nat) (f : thread_t → thread_t) : Srv pager unit :=
  tpeek id t ≫= λ x, poke t (λ _, Some (f x)).

(** [new], of the fields the constructor sets. *)
Definition create {T} `{!Array pager T} (x : T) : Srv pager nat :=
  n ← get (λ s, length (cells s)); update (λ s, set_cells (cells s ++ [x]) s);; mret n.

(** * Pages *)

Definition Page_alloc : Srv pager (option nat) :=
  freePage ← get globalFirstFreePage;
  match freePage with
  | None =>
      n ← get nextAllocablePageStart;
      if 2147483648 <=? n then mret None else
      update (λ s, s <| pager_mem ::= λ m, fill m n 0 4 |>);;
      i ← create (Page (L4_FpageLog2 n 12) None);
      update (λ s, s <| nextAllocablePageStart ::= λ n, u32 (n + 4096) |>);;
      mret (Some i)
  | Some i =>
      n ← peek nextPage i;
      update (λ s, s <| globalFirstFreePage := n |>);;
      poke i (λ p, p <| nextPage := None |>);;
      mret (Some i)
  end.

(** [while (p->nextPage != NULL)] *)
Fixpoint last_page (fuel : nat) (p : nat) : Srv pager nat :=
  n ← peek nextPage p;
  match n with
  | None => mret p
  | Some q => match fuel with O => spins | S fuel => last_page fuel q end
  end.

Definition Page_free (this : nat) : Srv pager unit :=
  n ← get (λ s, length (pages s));
  p ← last_page n this;
  g ← get globalFirstFreePage;
  poke p (λ p, p <| nextPage := g |>);;
  update (λ s, s <| globalFirstFreePage := Some this |>).

(** * Spaces *)

Definition addPage (this page : nat) : Srv pager unit :=
  f ← peek firstPage this;
  poke page (λ p, p <| nextPage := f |>);;
  poke this (λ s, s <| firstPage := Some page |>).

Definition Space_alloc (thread : nat) : Srv pager (option nat) :=
  freeSpace ← get globalFirstFreeSpace;
  r ← (match freeSpace with
       | None =>
           n ← get nextAllocableFileSlot;
           if 2684354560 <=? n then mret None else
           j ← create (Space None None 0 None);
           poke j (λ x, x <| fileSlot := L4_FpageLog2 n 18 |>);;
           mret (Some j)
       | Some j =>
           n ← peek globalNextFreeSpace j;
           update (λ s, s <| globalFirstFreeSpace := n |>);;
           poke j (λ x, x <| globalNextFreeSpace := None |>);;
           mret (Some j)
       end);
  match r with
  | None => mret None
  | Some j =>
      poke j (λ x, x <| firstThread := Some thread |>);;
      poke j (λ x, x <| firstPage := None |>);;
      mret (Some j)
  end.

Definition Space_free (this : nat) : Srv pager unit :=
  p ← peek firstPage this;
  p ← follow p;
  Page_free p;;
  g ← get globalFirstFreeSpace;
  poke this (λ x, x <| globalNextFreeSpace := g |>);;
  update (λ s, s <| globalFirstFreeSpace := Some this |>);;
  f ← peek fileSlot this;
  update (λ s, s <| sent ::= λ l, l ++ [L4_UnmapFpage f] |>).

(** * Threads *)

(** [Thread(global_id)] *)
Definition Thread_new (id : Z) : Srv pager nat :=
  g ← get globalFirstThread;
  this ← create (Some (Thread g None id None));
  update (λ s, s <| globalFirstThread := Some this |>);;
  sp ← Space_alloc this;
  tpoke this (λ t, t <| space := sp |>);;
  mret this.

(** [Thread(global_id, inSpace)] *)
Definition Thread_new_in (id : Z) (inSpace : option nat) : Srv pager nat :=
  g ← get globalFirstThread;
  this ← create (Some (Thread g None id None));
  update (λ s, s <| globalFirstThread := Some this |>);;
  sp ← follow inSpace;
  f ← peek firstThread sp;
  tpoke this (λ t, t <| nextThread := f |>);;
  poke sp (λ x, x <| firstThread := Some this |>);;
  tpoke this (λ t, t <| space := Some sp |>);;
  mret this.

(** The loops of [~Thread]: from [p] on the thread whose link leads to [this] skips it. *)
Fixpoint unlink (next : thread_t → option nat) (set_next : option nat → thread_t → thread_t)
    (fuel : nat) (this p : nat) : Srv pager unit :=
  n ← tpeek next p;
  match n with
  | None => mret tt
  | Some q =>
      if decide (q = this) then m ← tpeek next this; tpoke p (set_next m)
      else match fuel with O => spins | S fuel => unlink next set_next fuel this q end
  end.

Definition Thread_destroy (this : nat) : Srv pager unit :=
  n ← get (λ s, length (threads s));
  p ← get globalFirstThread;
  match p with
  | None => mret tt
  | Some p =>
      (if decide (p = this) then
         m ← tpeek globalNextThread this; update (λ s, s <| globalFirstThread := m |>)
       else unlink globalNextThread (λ m t, t <| globalNextThread := m |>) n this p);;
      sp ← tpeek space this;
      sp ← follow sp;
      p ← peek firstThread sp;
      match p with
      | None => mret tt
      | Some p =>
          onlyif (bool_decide (p = this))
            (m ← tpeek nextThread this; poke sp (λ x, x <| firstThread := m |>));;
          unlink nextThread (λ m t, t <| nextThread := m |>) n this p;;
          f ← peek firstThread sp;
          onlyif (bool_decide (f = None)) (Space_free sp)
      end
  end.

(** [delete t] *)
Definition delete (t : option nat) : Srv pager unit :=
  match t with
  | None => mret tt
  | Some t => Thread_destroy t;; poke t (λ _, None)
  end.

Fixpoint find_from (fuel : nat) (id : Z) (p : option nat) : Srv pager (option nat) :=
  match p with
  | None => mret None
  | Some t =>
      match fuel with
      | O => spins
      | S fuel =>
          g ← tpeek globalid t;
          if g =? id then mret (Some t) else n ← tpeek globalNextThread t; find_from fuel id n
      end
  end.
Definition find (id : Z) : Srv pager (option nat) :=
  n ← get (λ s, length (threads s)); p ← get globalFirstThread; find_from n id p.

(** * The calls *)

Section calls.
Context `{Files}.

(** The page given back and the address it is mapped at. *)
Definition apppager_pagefault (caller address : Z) : Srv pager (Z * Z) :=
  t ← find caller;
  t ← follow t;
  s ← tpeek space t;
  s ← follow s;
  fs ← peek fileSlot s;
  apage ← Page_alloc;
  match apage with
  | None => halt
  | Some apage =>
      addPage s apage;;
      page ← peek desc apage;
      update (λ s, s <| pager_mem ::= fill_page page address (L4_Address fs) |>);;
      mret (page, Z.lor address 4095)
  end.

Definition apppager_associateImage (thread : Z) (filename : list Z) : Srv pager Z :=
  t ← Thread_new thread;
  s ← tpeek space t;
  s ← follow s;
  fs ← peek fileSlot s;
  update (λ s, s <| pager_mem ::= map_file filename fs |>);;
  m ← get pager_mem;
  let ip := e_entry m (L4_Address fs) in
  update (λ s, s <| sent ::= λ l, l ++ [L4_Send thread ip] |>);;
  mret ip.

Definition apppager_copyAssociation (fromThread toThread : Z) : Srv pager unit :=
  f ← find fromThread;
  f ← follow f;
  s ← tpeek space f;
  t ← Thread_new_in toThread s;
  mret tt.

Definition apppager_deleteAssociation (thread : Z) : Srv pager unit :=
  t ← find thread; delete t.

Definition apppager_getLocator : Srv pager Z := mret locatorid.
End calls.
