(* ===== verification/AppPagerSpec.v ===== *)
(** The application pager keeps its lists: all threads, the threads and the pages of each
    space, and what is free; so no page belongs to two spaces. *)

From S2P Require Import Prelude Machine Server L4Types ElfLoader Links AppPager.

(** * The lists *)

Implicit Types (th : list (option thread_t)) (sp : list space_t) (pgs : list page_t).
Implicit Types (ch pg : nat → list nat) (G F Q : list nat) (s : pager).

(** The thread with an index, if it exists and was not deleted. *)
Definition thread_at th (t : nat) : option thread_t := match th !! t with Some x => x | None => None end.
Definition tlink (f : thread_t → option nat) th (t : nat) : option (option nat) := f <$> thread_at th t.
Definition slink (f : space_t → option nat) sp (j : nat) : option (option nat) := f <$> sp !! j.
Definition plink pgs (i : nat) : option (option nat) := nextPage <$> pgs !! i.

(** The space of a thread; none when it was deleted. *)
Definition home th (t : nat) : option nat := thread_at th t ≫= space.

(** A space that is in use. *)
Definition live sp F (j : nat) : Prop := (j < length sp)%nat ∧ j ∉ F.

(** [G]: all threads. *)
Record global_ok th (first : option nat) G : Prop := {
  gl_first : first = head G;
  gl_seg : seg (tlink globalNextThread th) G None;
  gl_nodup : NoDup G;
  gl_member t : t ∈ G ↔ is_Some (thread_at th t);
}.

(** [ch j]: the threads of the space [j]. *)
Record members_ok th sp F ch : Prop := {
  mb_first j : live sp F j → slink firstThread sp j = Some (head (ch j));
  mb_seg j : live sp F j → seg (tlink nextThread th) (ch j) None;
  mb_nodup j : live sp F j → NoDup (ch j);
  mb_some j : live sp F j → ch j ≠ [];
  mb_member j t : live sp F j → t ∈ ch j ↔ home th t = Some j;
  mb_home t x : th !! t = Some (Some x) → ∃ j, space x = Some j ∧ live sp F j;
}.

(** [pg j]: the pages of the space [j]; [Q]: the free ones. *)
Record pages_ok pgs sp F (first : option nat) pg Q : Prop := {
  pg_free : first = head Q;
  pg_free_seg : seg (plink pgs) Q None;
  pg_free_nodup : NoDup Q;
  pg_first j : live sp F j → slink firstPage sp j = Some (head (pg j));
  pg_seg j : live sp F j → seg (plink pgs) (pg j) None;
  pg_nodup j : live sp F j → NoDup (pg j);
  pg_used j i : live sp F j → i ∈ pg j → i ∉ Q;
  pg_apart j k i : live sp F j → live sp F k → i ∈ pg j → i ∈ pg k → j = k;
}.

(** [F]: the free spaces. *)
Record free_ok sp (first : option nat) F : Prop := {
  fr_first : first = head F;
  fr_seg : seg (slink globalNextFreeSpace sp) F None;
  fr_nodup : NoDup F;
}.

(** The address of a page, and the file slot of a space. *)
Definition page_address (i : nat) : Z := 1073741824 + 4096 * Z.of_nat i.
Definition the_slot : Z := L4_FpageLog2 2147483648 18.

Record pager_ok s G ch pg F Q : Prop := {
  po_global : global_ok (threads s) (globalFirstThread s) G;
  po_members : members_ok (threads s) (spaces s) F ch;
  po_pages : pages_ok (pages s) (spaces s) F (globalFirstFreePage s) pg Q;
  po_free : free_ok (spaces s) (globalFirstFreeSpace s) F;
  po_desc i x : pages s !! i = Some x → desc x = L4_FpageLog2 (page_address i) 12;
  po_next : nextAllocablePageStart s = page_address (length (pages s)) ∧ nextAllocablePageStart s ≤ 2147483648;
  po_slots j x : spaces s !! j = Some x → fileSlot x = the_slot;
  po_slot : nextAllocableFileSlot s = 2147483648;
}.

Definition upd (f : nat → list nat) (k : nat) (l : list nat) : nat → list nat :=
  λ x, if decide (x = k) then l else f x.

(** * Rules *)

Section rules.
Lemma alter_insert {A} (f : A → A) (l : list A) i x : l !! i = Some x → alter f i l = <[i := f x]> l.
Proof.
  intros Hx. apply list_eq. intros k. destruct (decide (k = i)) as [->|Hk].
  - by rewrite list_lookup_alter_eq, list_lookup_insert_eq, Hx by by eapply lookup_lt_Some.
  - by rewrite list_lookup_alter_ne, list_lookup_insert_ne.
Qed.

Lemma runs_tpeek {A} (f : thread_t → A) t x (R : A → pager → Prop) s :
  threads s !! t = Some (Some x) → R (f x) s → runs (tpeek f t) R s.
Proof.
  intros Ht HR. apply runs_bind. eapply runs_peek; [exact Ht|]. by eapply runs_follow.
Qed.

Lemma runs_tpoke t f x (R : unit → pager → Prop) s :
  threads s !! t = Some (Some x) → R tt (s <| threads := <[t := Some (f x)]> (threads s) |>) → runs (tpoke t f) R s.
Proof.
  intros Ht HR. apply runs_bind. eapply runs_tpeek; [exact Ht|]. eapply runs_poke; [exact Ht|exact HR].
Qed.

Lemma tpeek_done {A} (f : thread_t → A) t x s :
  threads s !! t = Some (Some x) → tpeek f t s = Done (f x) s.
Proof. intros Ht. unfold tpeek, peek, mbind, Srv_bind. change (cells s) with (threads s). by rewrite Ht. Qed.

Lemma runs_create {T} `{!Array pager T} (x : T) (R : nat → pager → Prop) s :
  R (length (cells s)) (set_cells (cells s ++ [x]) s) → runs (create x) R s.
Proof. done. Qed.

Lemma tlink_lookup f th t x : th !! t = Some (Some x) → tlink f th t = Some (f x).
Proof. intros H. unfold tlink, thread_at. by rewrite H. Qed.

Lemma tlink_insert f th t u x :
  (t < length th)%nat → tlink f (<[t := Some x]> th) u = if decide (u = t) then Some (f x) else tlink f th u.
Proof.
  intros Hlt. unfold tlink, thread_at. case_decide as E; [subst; by rewrite list_lookup_insert_eq|].
  by rewrite list_lookup_insert_ne.
Qed.

Lemma seg_bound {A} (l : list A) nxt k e :
  (∀ i, is_Some (nxt i) → (i < length l)%nat) → seg nxt k e → NoDup k → (length k ≤ length l)%nat.
Proof.
  intros Hlt Hseg Hnd. rewrite <- (length_seq (length l) 0). apply submseteq_length.
  apply NoDup_submseteq; [done|]. intros i Hi. apply elem_of_seq.
  apply list_elem_of_lookup in Hi as [n Hn]. assert (i < length l)%nat; [|lia].
  apply Hlt. rewrite (seg_lookup _ _ _ _ _ Hseg Hn). done.
Qed.

Lemma tlink_bound f th t : is_Some (tlink f th t) → (t < length th)%nat.
Proof.
  intros [y Hy]. unfold tlink, thread_at in Hy. destruct (th !! t) eqn:E; [by eapply lookup_lt_Some|done].
Qed.
Lemma slink_bound f sp j : is_Some (slink f sp j) → (j < length sp)%nat.
Proof. unfold slink. rewrite fmap_is_Some. apply lookup_lt_is_Some_1. Qed.
Lemma plink_bound pgs i : is_Some (plink pgs i) → (i < length pgs)%nat.
Proof. unfold plink. rewrite fmap_is_Some. apply lookup_lt_is_Some_1. Qed.
End rules.

(** * Looking up a thread *)

Lemma find_from_spec s id G fuel :
  seg (tlink globalNextThread (threads s)) G None → (length G ≤ fuel)%nat →
  runs (find_from fuel id (head G)) (λ r s', s' = s ∧
    match r with
    | Some t => t ∈ G ∧ ∃ x, threads s !! t = Some (Some x) ∧ globalid x = id
    | None => ∀ t x, t ∈ G → threads s !! t = Some (Some x) → globalid x ≠ id
    end) s.
Proof.
  revert G. induction fuel as [|fuel IH]; intros [|t G] Hseg Hfuel; try (simpl in Hfuel; lia).
  1, 2: apply runs_ret; split; [done|]; by intros t x ?%not_elem_of_nil.
  destruct Hseg as [Ht Hseg]. unfold tlink, thread_at in Ht. destruct (threads s !! t) as [[x|]|] eqn:E; try done.
  injection Ht as Ht. rewrite head_or_None in Ht. cbn [head find_from].
  apply runs_bind. eapply runs_tpeek; [exact E|]. destruct (Z.eqb_spec (globalid x) id) as [Eid|Eid].
  - apply runs_ret. split; [done|]. split; [left|]. by exists x.
  - apply runs_bind. eapply runs_tpeek; [exact E|]. rewrite Ht.
    eapply runs_mono; [apply IH; [done|simpl in Hfuel; lia]|]. intros [u|] s' [-> Hr]; (split; [done|]).
    + destruct Hr as [Hu Hx]. split; [by right|done].
    + intros u y [->|Hu]%elem_of_cons Hy; [congruence|by eapply Hr].
Qed.

Lemma find_spec s G ch pg F Q id :
  pager_ok s G ch pg F Q →
  runs (find id) (λ r s', s' = s ∧
    match r with
    | Some t => t ∈ G ∧ ∃ x j, threads s !! t = Some (Some x) ∧ globalid x = id ∧
                  space x = Some j ∧ live (spaces s) F j ∧ t ∈ ch j
    | None => ∀ t x, threads s !! t = Some (Some x) → globalid x ≠ id
    end) s.
Proof.
  intros Hok. destruct (po_global _ _ _ _ _ _ Hok) as [Hf Hseg Hnd Hm]. unfold find.
  apply runs_bind, runs_get. apply runs_bind, runs_get. rewrite Hf.
  eapply runs_mono; [apply (find_from_spec s id G); [done|]|].
  - eapply seg_bound; [|exact Hseg|done]. intros i. apply tlink_bound.
  - intros [t|] s' [-> Hr]; (split; [done|]).
    + destruct Hr as (Ht&x&Hx&Hid). split; [done|].
      destruct (mb_home _ _ _ _ (po_members _ _ _ _ _ _ Hok) t x Hx) as (j&Hj&Hlive). exists x, j. split_and!; try done.
      apply (mb_member _ _ _ _ (po_members _ _ _ _ _ _ Hok) j t Hlive). unfold home, thread_at. by rewrite Hx.
    + intros t x Hx. apply (Hr t x); [|done]. apply Hm. unfold thread_at. by rewrite Hx.
Qed.

(** * Page faults *)

Lemma seg_elem nxt (l : list nat) e i : seg nxt l e → i ∈ l → is_Some (nxt i).
Proof.
  intros Hseg Hi. apply list_elem_of_lookup in Hi as [k Hk]. by rewrite (seg_lookup _ _ _ _ _ Hseg Hk).
Qed.

Lemma seg_same nxt nxt' l e i :
  (∀ u, u ≠ i → is_Some (nxt u) → nxt' u = nxt u) → i ∉ l → seg nxt l e → seg nxt' l e.
Proof.
  intros Hext Hi Hseg. eapply seg_ext; [|exact Hseg]. intros u Hu. apply Hext; [by intros ->|by eapply seg_elem].
Qed.

(** A page that is no space's becomes the first one of the space [j]. *)
Lemma pages_ok_give pgs pgs' sp sp' F first first' pg Q Q' j i :
  pages_ok pgs sp F first pg Q → live sp F j → first' = head Q' → Q' = Q ∨ Q = i :: Q' →
  i ∉ Q' → (∀ k, live sp F k → i ∉ pg k) →
  plink pgs' i = Some (head (pg j)) → (∀ u, u ≠ i → is_Some (plink pgs u) → plink pgs' u = plink pgs u) →
  length sp' = length sp → (∀ k, slink firstPage sp' k = if decide (k = j) then Some (Some i) else slink firstPage sp k) →
  pages_ok pgs' sp' F first' (upd pg j (i :: pg j)) Q'.
Proof.
  intros [h1 h2 h3 h4 h5 h6 h7 h8] Hj Hf HQ HiQ Hi Hpi Hp Hl Hs.
  assert (Hlive : ∀ k, live sp' F k ↔ live sp F k) by (intros k; unfold live; by rewrite Hl).
  assert (Hsub : ∀ u, u ∈ Q' → u ∈ Q) by (destruct HQ as [-> | ->]; [done|by right]).
  split; try setoid_rewrite Hlive; unfold upd.
  - done.
  - eapply seg_same; [exact Hp|done|]. destruct HQ as [-> | ->]; [done|by destruct h2].
  - destruct HQ as [-> | ->]; [done|by apply NoDup_cons in h3 as [_ ?]].
  - intros k Hk. rewrite Hs. case_decide; [done|by apply h4].
  - intros k Hk. case_decide as E; [subst k; split; [by rewrite head_or_None|]|].
    all: eapply seg_same; [exact Hp|by apply Hi|by apply h5].
  - intros k Hk. case_decide; [subst; apply NoDup_cons; split; [by apply Hi|]|]; by apply h6.
  - intros k u Hk Hu Hq. case_decide; [apply elem_of_cons in Hu as [->|Hu]; [done|subst k]|].
    all: by apply (h7 _ u Hk Hu), Hsub.
  - intros k k' u Hk Hk' Hu Hu'. repeat case_decide; subst; try done.
    + apply elem_of_cons in Hu' as [->|Hu']; [by destruct (Hi k Hk)|by apply (h8 k j u)].
    + apply elem_of_cons in Hu as [->|Hu]; [by destruct (Hi k' Hk')|by apply (h8 j k' u)].
    + by apply (h8 k k' u).
Qed.

(** Fields of the spaces that an operation does not touch. *)
Lemma members_ok_spaces th sp sp' F ch :
  length sp' = length sp → (∀ j, slink firstThread sp' j = slink firstThread sp j) →
  members_ok th sp F ch → members_ok th sp' F ch.
Proof.
  intros Hl Hs [h1 h2 h3 h4 h5 h6]. assert (Hlive : ∀ k, live sp' F k ↔ live sp F k) by (intros k; unfold live; by rewrite Hl).
  split; setoid_rewrite Hlive; try done. intros j Hj. rewrite Hs. by apply h1.
Qed.

Lemma free_ok_spaces sp sp' first F :
  (∀ j, slink globalNextFreeSpace sp' j = slink globalNextFreeSpace sp j) → free_ok sp first F → free_ok sp' first F.
Proof. intros Hs [h1 h2 h3]. split; [done| |done]. eapply seg_ext; [|exact h2]. by intros. Qed.

Lemma slink_insert f sp j k x :
  (j < length sp)%nat → slink f (<[j := x]> sp) k = if decide (k = j) then Some (f x) else slink f sp k.
Proof.
  intros Hlt. unfold slink. case_decide; [subst; by rewrite list_lookup_insert_eq|by rewrite list_lookup_insert_ne].
Qed.

(** Storing a field of a space that [f] does not read. *)
Lemma slink_keep f sp j k x y :
  sp !! j = Some x → f y = f x → slink f (<[j := y]> sp) k = slink f sp k.
Proof.
  intros Hx Hf. rewrite slink_insert by by eapply lookup_lt_Some. case_decide; [|done].
  subst. unfold slink. by rewrite Hx, Hf.
Qed.

Lemma plink_insert pgs i u x :
  (i < length pgs)%nat → plink (<[i := x]> pgs) u = if decide (u = i) then Some (nextPage x) else plink pgs u.
Proof.
  intros Hlt. unfold plink. case_decide; [subst; by rewrite list_lookup_insert_eq|by rewrite list_lookup_insert_ne].
Qed.

Lemma plink_snoc pgs x u :
  plink (pgs ++ [x]) u = if decide (u = length pgs) then Some (nextPage x) else plink pgs u.
Proof.
  unfold plink. case_decide as E; [subst; by rewrite list_lookup_middle|].
  destruct (decide (u < length pgs)%nat); [by rewrite lookup_app_l|].
  rewrite lookup_app_r by lia. rewrite list_lookup_singleton. destruct (u - length pgs)%nat eqn:E'; [lia|].
  by rewrite (lookup_ge_None_2 pgs) by lia.
Qed.

(** The page that [Page_alloc] gives: the first of the free ones, or a new one. *)
Definition given s Q : nat := match Q with i :: _ => i | [] => length (pages s) end.

(** The state after [Page_alloc]. *)
Record allocated s s' (Q : list nat) (i : nat) : Prop := {
  al_pages : pages s' = match Q with
    | [] => pages s ++ [Page (L4_FpageLog2 (page_address i) 12) None]
    | _ => alter (λ p, p <| nextPage := None |>) i (pages s) end;
  al_first : globalFirstFreePage s' = head (tail Q);
  al_next : nextAllocablePageStart s' = nextAllocablePageStart s + match Q with [] => 4096 | _ => 0 end;
  al_mem : pager_mem s' = match Q with [] => fill (pager_mem s) (page_address i) 0 4 | _ => pager_mem s end;
  al_rest : spaces s' = spaces s ∧ threads s' = threads s ∧ globalFirstThread s' = globalFirstThread s ∧
    globalFirstFreeSpace s' = globalFirstFreeSpace s ∧ nextAllocableFileSlot s' = nextAllocableFileSlot s ∧ sent s' = sent s;
}.

Lemma Page_alloc_spec s G ch pg F Q :
  pager_ok s G ch pg F Q →
  runs Page_alloc (λ r s', match r with
    | Some i => i = given s Q ∧ (Q = [] → nextAllocablePageStart s < 2147483648) ∧ allocated s s' Q i
    | None => s' = s ∧ Q = [] ∧ nextAllocablePageStart s = 2147483648
    end) s.
Proof.
  intros Hok. pose proof (po_pages _ _ _ _ _ _ Hok) as [Hfree Hseg _ _ _ _ _ _]. destruct (po_next _ _ _ _ _ _ Hok) as [Hn Hmax].
  unfold Page_alloc. apply runs_bind, runs_get. destruct Q as [|i Q]; simpl in Hfree; rewrite Hfree.
  - apply runs_bind, runs_get. destruct (Z.leb_spec 2147483648 (nextAllocablePageStart s)); [apply runs_ret; split_and!; [done|done|lia]|].
    apply runs_bind, runs_update. apply runs_bind, runs_create. apply runs_bind, runs_update, runs_ret.
    split; [done|]. split; [done|]. split; try done.
    + change (pages s ++ [Page (L4_FpageLog2 (nextAllocablePageStart s) 12) None] =
        pages s ++ [Page (L4_FpageLog2 (page_address (length (pages s))) 12) None]). by rewrite Hn.
    + change (u32 (nextAllocablePageStart s + 4096) = nextAllocablePageStart s + 4096). apply u32_id.
      rewrite Hn in *. unfold page_address in *. lia.
    + change (fill (pager_mem s) (nextAllocablePageStart s) 0 4 = fill (pager_mem s) (page_address (length (pages s))) 0 4).
      by rewrite Hn.
  - destruct Hseg as [Hi Hseg]. unfold plink in Hi. destruct (pages s !! i) as [x|] eqn:E; [|done].
    simpl in Hi. injection Hi as Hi. rewrite head_or_None in Hi.
    apply runs_bind. eapply runs_peek; [exact E|]. apply runs_bind, runs_update. apply runs_bind.
    eapply runs_poke; [exact E|]. apply runs_ret. split; [done|]. split; [done|]. split; try done.
    + change (<[i := x <| nextPage := None |>]> (pages s) = alter (λ p, p <| nextPage := None |>) i (pages s)).
      by rewrite (alter_insert _ _ _ _ E).
    + by rewrite Z.add_0_r.
Qed.

Lemma pages_member pgs sp F first pg Q j i : pages_ok pgs sp F first pg Q → live sp F j → i ∈ pg j → (i < length pgs)%nat.
Proof. intros Hok Hj Hi. apply plink_bound. eapply seg_elem; [by apply (pg_seg _ _ _ _ _ _ Hok j)|done]. Qed.

(** The page that is given belongs to no space. *)
Lemma given_fresh s G ch pg F Q k : pager_ok s G ch pg F Q → live (spaces s) F k → given s Q ∉ pg k.
Proof.
  intros Hok Hk Hi. pose proof (po_pages _ _ _ _ _ _ Hok) as Hp. destruct Q as [|i Q]; simpl in Hi.
  - pose proof (pages_member _ _ _ _ _ _ _ _ Hp Hk Hi). lia.
  - apply (pg_used _ _ _ _ _ _ Hp k i Hk Hi). left.
Qed.

(** What [Page_alloc] leaves at the page and elsewhere. *)
Lemma allocated_page s s' G ch pg F Q i :
  pager_ok s G ch pg F Q → i = given s Q → allocated s s' Q i →
  ∃ x, pages s' !! i = Some x ∧ desc x = L4_FpageLog2 (page_address i) 12 ∧
    (∀ k y, k ≠ i → pages s' !! k = Some y → pages s !! k = Some y) ∧
    (∀ k, k ≠ i → is_Some (plink (pages s) k) → plink (pages s') k = plink (pages s) k) ∧
    length (pages s') = (length (pages s) + match Q with [] => 1 | _ => 0 end)%nat.
Proof.
  intros Hok -> Hal. pose proof (al_pages _ _ _ _ Hal) as Hp. destruct Q as [|i Q]; simpl in *.
  - rewrite Hp. eexists. split; [by apply list_lookup_middle|]. split_and!; [done|..|by rewrite length_app].
    + intros k y Hk Hy. rewrite lookup_app_l in Hy; [done|]. apply lookup_lt_Some in Hy. rewrite length_app in Hy. simpl in Hy. lia.
    + intros k Hk _. rewrite plink_snoc. by rewrite decide_False.
  - destruct (lookup_lt_is_Some_2 (pages s) i) as [x Hx].
    { apply plink_bound. eapply seg_elem; [apply (pg_free_seg _ _ _ _ _ _ (po_pages _ _ _ _ _ _ Hok))|left]. }
    rewrite Hp. exists (x <| nextPage := None |>). split; [by rewrite list_lookup_alter_eq, Hx|]. split_and!.
    + exact (po_desc _ _ _ _ _ _ Hok i x Hx).
    + intros k y Hk. by rewrite list_lookup_alter_ne.
    + intros k Hk _. unfold plink. by rewrite list_lookup_alter_ne.
    + rewrite length_alter. lia.
Qed.

(** A page fault of a thread of the space [j]. *)
Lemma fault_ok s s' s'' G ch pg F Q i j y x :
  pager_ok s G ch pg F Q → i = given s Q → allocated s s' Q i → (Q = [] → nextAllocablePageStart s < 2147483648) →
  live (spaces s) F j → spaces s !! j = Some y → pages s' !! i = Some x →
  pages s'' = <[i := x <| nextPage := head (pg j) |>]> (pages s') →
  spaces s'' = <[j := y <| firstPage := Some i |>]> (spaces s) →
  threads s'' = threads s' → globalFirstFreePage s'' = globalFirstFreePage s' →
  nextAllocablePageStart s'' = nextAllocablePageStart s' → globalFirstThread s'' = globalFirstThread s' →
  globalFirstFreeSpace s'' = globalFirstFreeSpace s' → nextAllocableFileSlot s'' = nextAllocableFileSlot s' →
  pager_ok s'' G ch (upd pg j (i :: pg j)) F (tail Q).
Proof.
  intros Hok Hi Hal Hroom Hlive Hy Hx Ep Es Et E1 E2 E3 E4 E5.
  destruct (al_rest _ _ _ _ Hal) as (Rs&Rt&R1&R2&R3&_). destruct (allocated_page _ _ _ _ _ _ _ _ Hok Hi Hal) as (x'&Hx'&Hd&Hold&Hpl&Hlen).
  assert (x' = x) as -> by congruence. pose proof (lookup_lt_Some _ _ _ Hx) as Hlt. pose proof (lookup_lt_Some _ _ _ Hy) as Hlty.
  pose proof Hok as [h1 h2 h3 h4 h5 [h6 h6'] h7 h8].
  assert (Hpl2 : ∀ u, plink (pages s'') u = if decide (u = i) then Some (head (pg j)) else plink (pages s') u).
  { intros u. rewrite Ep. by rewrite plink_insert. }
  split; rewrite ?E1, ?E2, ?E3, ?E4, ?E5, ?Et, ?Rt, ?R1, ?R2, ?R3.
  - done.
  - eapply members_ok_spaces; [| |exact h2]; rewrite Es; [by rewrite length_insert|intros k; by eapply slink_keep].
  - apply (pages_ok_give (pages s) _ (spaces s) _ F (globalFirstFreePage s) _ pg Q).
    + done.
    + done.
    + apply Hal.
    + destruct Q as [|q Q]; [by left|right]. by rewrite Hi.
    + pose proof (pg_free_nodup _ _ _ _ _ _ h3) as Hnd. destruct Q as [|q Q]; simpl; [apply not_elem_of_nil|].
      rewrite Hi. by apply NoDup_cons in Hnd as [? _].
    + intros k Hk. rewrite Hi. by eapply given_fresh.
    + rewrite Hpl2. by rewrite decide_True.
    + intros u Hu Hs. rewrite Hpl2, decide_False by done. by apply Hpl.
    + by rewrite Es, length_insert.
    + intros k. rewrite Es, slink_insert by done. done.
  - eapply free_ok_spaces; [|exact h4]. intros k. rewrite Es. eapply slink_keep; [exact Hy|reflexivity].
  - intros k z. rewrite Ep. destruct (decide (k = i)) as [->|Hk].
    + rewrite list_lookup_insert_eq by done. by intros [= <-].
    + rewrite list_lookup_insert_ne by done. intros Hz. by apply h5, Hold.
  - rewrite Ep, length_insert, Hlen, (al_next _ _ _ _ Hal), h6. destruct Q as [|q Q]; simpl; unfold page_address in *; [|lia].
    specialize (Hroom eq_refl). rewrite h6 in Hroom. lia.
  - intros k z. rewrite Es. destruct (decide (k = j)) as [->|Hk].
    + rewrite list_lookup_insert_eq by done. intros [= <-]. exact (h7 j y Hy).
    + rewrite list_lookup_insert_ne by done. apply h7.
  - done.
Qed.

(** * A new thread in a space of its own *)

(** The space that is given, and the spaces in use after that. *)
Definition given_space s F : nat := match F with j :: _ => j | [] => length (spaces s) end.

Record space_given s s' F (j t : nat) : Prop := {
  sg_length : length (spaces s') = (length (spaces s) + match F with [] => 1 | _ => 0 end)%nat;
  sg_space : ∃ y, spaces s' !! j = Some y ∧ firstThread y = Some t ∧ firstPage y = None ∧
    globalNextFreeSpace y = None ∧ fileSlot y = the_slot;
  sg_other k : k ≠ j → spaces s' !! k = spaces s !! k;
  sg_first : globalFirstFreeSpace s' = head (tail F);
}.

(** What stays as it was. *)
Definition space_rest s s' : Prop :=
  threads s' = threads s ∧ pages s' = pages s ∧ globalFirstFreePage s' = globalFirstFreePage s ∧
  nextAllocablePageStart s' = nextAllocablePageStart s ∧ globalFirstThread s' = globalFirstThread s ∧
  nextAllocableFileSlot s' = nextAllocableFileSlot s ∧ pager_mem s' = pager_mem s ∧ sent s' = sent s.

Lemma Space_alloc_spec s F t :
  free_ok (spaces s) (globalFirstFreeSpace s) F → nextAllocableFileSlot s = 2147483648 →
  (∀ j x, spaces s !! j = Some x → fileSlot x = the_slot) →
  runs (Space_alloc t) (λ r s', r = Some (given_space s F) ∧ space_given s s' F (given_space s F) t ∧ space_rest s s') s.
Proof.
  intros [Hf Hseg _] Hn Hslot. unfold Space_alloc. apply runs_bind, runs_get. rewrite Hf. apply runs_bind.
  destruct F as [|j F]; simpl.
  - apply runs_bind, runs_get. rewrite Hn. cbn iota. apply runs_bind, runs_create. apply runs_bind.
    set (y0 := Space None None 0 None). change (cells s) with (spaces s).
    set (s1 := set_cells (spaces s ++ [y0]) s).
    eapply (runs_poke _ _ y0); [by apply (list_lookup_middle (spaces s))|]. apply runs_ret. apply runs_bind.
    set (y1 := y0 <| fileSlot := _ |>). eapply (runs_poke _ _ y1).
    { apply (list_lookup_insert_eq (spaces s1)). change (spaces s1) with (spaces s ++ [y0]). rewrite length_app. simpl. lia. }
    apply runs_bind. set (y2 := y1 <| firstThread := _ |>). eapply (runs_poke _ _ y2).
    { apply list_lookup_insert_eq. change (length (spaces s) < length (<[length (spaces s) := y1]> (spaces s ++ [y0])))%nat.
      rewrite length_insert, length_app. simpl. lia. }
    apply runs_ret. split; [done|]. match goal with |- space_given _ ?st _ _ _ ∧ _ => set (s2 := st) end.
    split; [|repeat split].
    assert (Es : spaces s2 = <[length (spaces s) := y2 <| firstPage := None |>]> (spaces s ++ [y0])).
    { change (spaces s2) with (<[length (spaces s) := y2 <| firstPage := None |>]> (<[length (spaces s) := y2]>
        (<[length (spaces s) := y1]> (spaces s ++ [y0])))). by rewrite !list_insert_insert_eq. }
    split.
    + rewrite Es, length_insert, length_app. done.
    + exists (y2 <| firstPage := None |>). split; [|done]. rewrite Es. apply list_lookup_insert_eq. rewrite length_app. simpl. lia.
    + intros k Hk. rewrite Es, list_lookup_insert_ne by done. destruct (decide (k < length (spaces s))%nat); [by rewrite lookup_app_l|].
      rewrite lookup_app_r, !lookup_ge_None_2 by (simpl; lia). done.
    + done.
  - destruct Hseg as [Hj Hseg]. unfold slink in Hj. destruct (spaces s !! j) as [y|] eqn:Ey; [|done].
    simpl in Hj. injection Hj as Hj. rewrite head_or_None in Hj. pose proof (lookup_lt_Some _ _ _ Ey) as Hlt.
    apply runs_bind. eapply runs_peek; [exact Ey|]. apply runs_bind, runs_update. apply runs_bind.
    eapply runs_poke; [exact Ey|]. apply runs_ret. apply runs_bind. set (y1 := y <| globalNextFreeSpace := _ |>).
    eapply (runs_poke _ _ y1); [by apply (list_lookup_insert_eq (spaces s))|]. apply runs_bind.
    set (y2 := y1 <| firstThread := _ |>). eapply (runs_poke _ _ y2).
    { apply list_lookup_insert_eq. change (j < length (<[j := y1]> (spaces s)))%nat. by rewrite length_insert. }
    apply runs_ret. split; [done|]. match goal with |- space_given _ ?st _ _ _ ∧ _ => set (s2 := st) end.
    split; [|repeat split].
    assert (Es : spaces s2 = <[j := y2 <| firstPage := None |>]> (spaces s)).
    { change (spaces s2) with (<[j := y2 <| firstPage := None |>]> (<[j := y2]> (<[j := y1]> (spaces s)))).
      by rewrite !list_insert_insert_eq. }
    split.
    + rewrite Es, length_insert. lia.
    + exists (y2 <| firstPage := None |>). split; [rewrite Es; by apply list_lookup_insert_eq|].
      split_and!; try done. exact (Hslot j y Ey).
    + intros k Hk. by rewrite Es, list_lookup_insert_ne.
    + done.
Qed.

Lemma thread_at_snoc th x u : thread_at (th ++ [x]) u = if decide (u = length th) then x else thread_at th u.
Proof.
  unfold thread_at. case_decide as E; [subst; by rewrite list_lookup_middle|].
  destruct (decide (u < length th)%nat); [by rewrite lookup_app_l|].
  rewrite lookup_app_r by lia. rewrite list_lookup_singleton. destruct (u - length th)%nat eqn:E'; [lia|].
  by rewrite (lookup_ge_None_2 th) by lia.
Qed.

Lemma given_space_free s F : free_ok (spaces s) (globalFirstFreeSpace s) F → ¬ live (spaces s) F (given_space s F).
Proof. intros _ [Hlt Hn]. destruct F as [|j F]; simpl in *; [lia|]. apply Hn. left. Qed.

Lemma live_given s s' F t k :
  free_ok (spaces s) (globalFirstFreeSpace s) F → space_given s s' F (given_space s F) t →
  live (spaces s') (tail F) k ↔ k = given_space s F ∨ live (spaces s) F k.
Proof.
  intros Hf Hg. unfold live. rewrite (sg_length _ _ _ _ _ Hg). destruct F as [|j F]; simpl.
  - pose proof (not_elem_of_nil k) as Hnil. destruct (decide (k = length (spaces s))) as [->|Hk].
    + split; [by left|]. split; [lia|done].
    + split; [intros [? ?]; right; split; [lia|done]|]. intros [?|[? ?]]; [done|]. split; [lia|done].
  - pose proof (fr_nodup _ _ _ Hf) as [Hnin _]%NoDup_cons.
    assert (j < length (spaces s))%nat as Hlt.
    { apply (slink_bound globalNextFreeSpace). eapply seg_elem; [apply (fr_seg _ _ _ Hf)|left]. }
    rewrite not_elem_of_cons, Nat.add_0_r. destruct (decide (k = j)) as [->|Hk].
    + split; [by left|done].
    + split; [intros [? ?]; right; done|]. by intros [?|(?&?&?)].
Qed.

Lemma tlink_snoc f th x u : tlink f (th ++ [Some x]) u = if decide (u = length th) then Some (f x) else tlink f th u.
Proof. unfold tlink. rewrite thread_at_snoc. by case_decide. Qed.

Lemma member_bound th first G t : global_ok th first G → t ∈ G → (t < length th)%nat.
Proof. intros Hg Ht. eapply tlink_bound, seg_elem; [apply (gl_seg _ _ _ Hg)|done]. Qed.

(** The new thread is the first of all. *)
Lemma global_ok_new th first G x :
  global_ok th first G → globalNextThread x = first → global_ok (th ++ [Some x]) (Some (length th)) (length th :: G).
Proof.
  intros Hok Hx. pose proof Hok as [h1 h2 h3 h4].
  assert (Hnin : length th ∉ G) by (intros Hin; pose proof (member_bound _ _ _ _ Hok Hin); lia).
  split; [done| |by constructor|].
  - split; [rewrite tlink_snoc, decide_True, head_or_None by done; congruence|].
    eapply seg_ext; [|exact h2]. intros u Hu. rewrite tlink_snoc, decide_False; [done|by intros ->].
  - intros t. rewrite elem_of_cons, thread_at_snoc, h4. case_decide; [by intuition eauto|]. tauto.
Qed.

Lemma home_snoc th x u : home (th ++ [Some x]) u = if decide (u = length th) then space x else home th u.
Proof. unfold home. rewrite thread_at_snoc. by case_decide. Qed.

Lemma home_bound th u j : home th u = Some j → (u < length th)%nat.
Proof. unfold home, thread_at. destruct (th !! u) eqn:E; [intros _; by eapply lookup_lt_Some|done]. Qed.

(** ... and the only one of its space. *)
Lemma members_ok_new s s' F ch t x :
  members_ok (threads s) (spaces s) F ch → free_ok (spaces s) (globalFirstFreeSpace s) F →
  space_given s s' F (given_space s F) t → t = length (threads s) →
  space x = Some (given_space s F) → nextThread x = None →
  members_ok (threads s ++ [Some x]) (spaces s') (tail F) (upd ch (given_space s F) [t]).
Proof.
  intros [h1 h2 h3 h4 h5 h6] Hf Hg -> Hsp Hx. set (j := given_space s F) in *.
  pose proof (given_space_free s F Hf) as Hnl. fold j in Hnl.
  assert (Hlive : ∀ k, live (spaces s') (tail F) k ↔ k = j ∨ live (spaces s) F k) by (intros k; by eapply live_given).
  assert (Hbound : ∀ k u, live (spaces s) F k → u ∈ ch k → u ≠ length (threads s)).
  { intros k u Hk Hu ->. apply h5, home_bound in Hu; [lia|done]. }
  split; try setoid_rewrite Hlive; unfold upd.
  - intros k Hk. unfold slink. case_decide as E.
    + subst k. destruct (sg_space _ _ _ _ _ Hg) as (y&Hy&Ht&_). rewrite Hy. simpl. by rewrite Ht.
    + rewrite (sg_other _ _ _ _ _ Hg) by done. apply h1. tauto.
  - intros k Hk. case_decide as E.
    + split; [|done]. by rewrite tlink_snoc, decide_True, Hx.
    + destruct Hk as [?|Hk]; [done|]. eapply seg_ext; [|by apply h2]. intros u Hu.
      rewrite tlink_snoc, decide_False; [done|by eapply Hbound].
  - intros k Hk. case_decide; [apply NoDup_singleton|]. apply h3. tauto.
  - intros k Hk. case_decide; [done|]. apply h4. tauto.
  - intros k u Hk. rewrite home_snoc. destruct (decide (u = length (threads s))) as [->|Hu].
    + rewrite Hsp. destruct (decide (k = j)) as [->|Hkj].
      * split; [done|]. intros _. left.
      * destruct Hk as [?|Hk]; [done|]. split; [|congruence]. intros Hin. by destruct (Hbound k _ Hk Hin).
    + destruct (decide (k = j)) as [->|Hkj].
      * split; [by intros ?%list_elem_of_singleton|]. intros Hh. exfalso. unfold home, thread_at in Hh.
        destruct (threads s !! u) as [[z|]|] eqn:Ez; try done. destruct (h6 u z Ez) as (k&Hk'&Hl). simpl in Hh. congruence.
      * destruct Hk as [?|Hk]; [done|]. by apply h5.
  - intros u y Hu. destruct (decide (u = length (threads s))) as [->|Hne].
    + rewrite list_lookup_middle in Hu by done. injection Hu as <-. exists j. split; [done|by left].
    + rewrite lookup_app_l in Hu.
      * destruct (h6 u y Hu) as (k&?&?). exists k. split; [done|by right].
      * apply lookup_lt_Some in Hu. rewrite length_app in Hu. simpl in Hu. lia.
Qed.

(** The space starts without pages. *)
Lemma pages_ok_new s s' F pg Q t :
  pages_ok (pages s) (spaces s) F (globalFirstFreePage s) pg Q → free_ok (spaces s) (globalFirstFreeSpace s) F →
  space_given s s' F (given_space s F) t →
  pages_ok (pages s) (spaces s') (tail F) (globalFirstFreePage s) (upd pg (given_space s F) []) Q.
Proof.
  intros [h1 h2 h3 h4 h5 h6 h7 h8] Hf Hg. set (j := given_space s F) in *.
  assert (Hlive : ∀ k, live (spaces s') (tail F) k ↔ k = j ∨ live (spaces s) F k) by (intros k; by eapply live_given).
  split; try setoid_rewrite Hlive; unfold upd; try done.
  - intros k Hk. unfold slink. case_decide as E.
    + subst k. destruct (sg_space _ _ _ _ _ Hg) as (y&Hy&_&Hp&_). rewrite Hy. simpl. by rewrite Hp.
    + rewrite (sg_other _ _ _ _ _ Hg) by done. apply h4. tauto.
  - intros k Hk. case_decide; [done|]. apply h5. tauto.
  - intros k Hk. case_decide; [constructor|]. apply h6. tauto.
  - intros k i Hk. case_decide; [by intros ?%not_elem_of_nil|]. apply h7. tauto.
  - intros k k' i Hk Hk'. repeat case_decide; subst; try done; try by intros ?%not_elem_of_nil.
    + by intros _ ?%not_elem_of_nil.
    + apply h8; tauto.
Qed.

Lemma free_ok_new s s' F t :
  free_ok (spaces s) (globalFirstFreeSpace s) F → space_given s s' F (given_space s F) t →
  free_ok (spaces s') (globalFirstFreeSpace s') (tail F).
Proof.
  intros [h1 h2 h3] Hg. split; [apply Hg| |by destruct F as [|? ?]; [|apply NoDup_cons in h3 as [_ ?]]].
  destruct F as [|j F]; simpl in *; [done|]. destruct h2 as [_ h2]. apply NoDup_cons in h3 as [Hnin _].
  eapply seg_ext; [|exact h2]. intros k Hk. unfold slink. rewrite (sg_other _ _ _ _ _ Hg); [done|by intros ->].
Qed.

(** * Removing a thread *)

Section unlink.
Context (next : thread_t → option nat) (set_next : option nat → thread_t → thread_t).

(** The loop finds the thread before [t]. *)
Lemma unlink_before s l1 q t l2 p fuel :
  head (l1 ++ [q]) = Some p → seg (tlink next (threads s)) (l1 ++ q :: t :: l2) None →
  t ∉ l1 ++ [q] → (length l1 ≤ fuel)%nat →
  ∃ y, threads s !! q = Some (Some y) ∧
    unlink next set_next fuel t p s = Done tt (s <| threads := <[q := Some (set_next (head l2) y)]> (threads s) |>).
Proof.
  revert p fuel. induction l1 as [|a l1 IH]; intros p fuel Hp Hseg Hnin Hfuel.
  - injection Hp as ->. destruct Hseg as (Hq&Ht&Hl2). simpl in Hq, Ht. rewrite head_or_None in Ht.
    unfold tlink, thread_at in Hq, Ht. destruct (threads s !! p) as [[y|]|] eqn:Ey; try done.
    destruct (threads s !! t) as [[x|]|] eqn:Ex; try done. simpl in Hq, Ht. exists y. split; [done|].
    destruct fuel; cbn [unlink]; rewrite (bind_done _ _ _ _ _ (tpeek_done next p y s Ey)); injection Hq as ->.
    all: rewrite decide_True by done; rewrite (bind_done _ _ _ _ _ (tpeek_done next t x s Ex)); injection Ht as ->.
    all: unfold tpoke; rewrite (bind_done _ _ _ _ _ (tpeek_done id p y s Ey)).
    all: unfold poke; change (cells s) with (threads s); by rewrite Ey.
  - injection Hp as ->. destruct Hseg as (Ha&Hseg). destruct fuel as [|fuel]; [simpl in Hfuel; lia|].
    unfold tlink, thread_at in Ha. destruct (threads s !! p) as [[y|]|] eqn:Ey; try done. simpl in Ha.
    assert (Hn : ∃ b, head (l1 ++ [q]) = Some b ∧ next y = Some b ∧ b ≠ t).
    { destruct l1 as [|b l1]; simpl in *; eexists; (split; [done|]); split; try congruence.
      - intros ->. apply Hnin. right. left.
      - intros ->. apply Hnin. right. left. }
    destruct Hn as (b&Hb&Hyb&Hbt). cbn [unlink]. rewrite (bind_done _ _ _ _ _ (tpeek_done next p y s Ey)), Hyb.
    rewrite decide_False by done. apply IH; [done|done| |simpl in Hfuel; lia].
    intros Hin. apply Hnin. by right.
Qed.

(** It does nothing on a chain the thread is not on. *)
Lemma unlink_absent s l t p fuel :
  seg (tlink next (threads s)) (p :: l) None → t ∉ l → (length l ≤ fuel)%nat →
  unlink next set_next fuel t p s = Done tt s.
Proof.
  revert p fuel. induction l as [|b l IH]; intros p fuel [Hp Hseg] Hnin Hfuel.
  all: unfold tlink, thread_at in Hp; destruct (threads s !! p) as [[y|]|] eqn:Ey; try done; simpl in Hp.
  - destruct fuel; cbn [unlink]; rewrite (bind_done _ _ _ _ _ (tpeek_done next p y s Ey)); by injection Hp as ->.
  - destruct fuel as [|fuel]; [simpl in Hfuel; lia|]. cbn [unlink].
    rewrite (bind_done _ _ _ _ _ (tpeek_done next p y s Ey)). injection Hp as ->.
    apply not_elem_of_cons in Hnin as [Hb Hnin]. rewrite decide_False by done.
    apply IH; [done|done|simpl in Hfuel; lia].
Qed.
End unlink.

(** The threads without [t], which was between [l1] and [l2] in the list of all, and
    between [k1] and [k2] in the one of its space. *)
Record removed th th' (t : nat) (l1 l2 k1 k2 : list nat) : Prop := {
  rm_gone : thread_at th' t = None;
  rm_alive u : u ≠ t → is_Some (thread_at th' u) ↔ is_Some (thread_at th u);
  rm_home u : u ≠ t → home th' u = home th u;
  rm_gprev p : last l1 = Some p → tlink globalNextThread th' p = Some (head l2);
  rm_gother u : u ≠ t → last l1 ≠ Some u → tlink globalNextThread th' u = tlink globalNextThread th u;
  rm_prev p : last k1 = Some p → tlink nextThread th' p = Some (head k2);
  rm_other u : u ≠ t → last k1 ≠ Some u → tlink nextThread th' u = tlink nextThread th u;
}.

(** A chain without one of its slots. *)
Lemma seg_without nxt nxt' l1 t l2 :
  NoDup (l1 ++ t :: l2) → seg nxt (l1 ++ t :: l2) None →
  (∀ p, last l1 = Some p → nxt' p = Some (head l2)) → (∀ u, u ≠ t → last l1 ≠ Some u → nxt' u = nxt u) →
  seg nxt' (l1 ++ l2) None.
Proof.
  intros Hnd Hseg Hp Hn. pose proof (proj1 (NoDup_middle _ _ _) Hnd) as [Htn _].
  set (nx := λ u, if decide (u = t) then nxt t else nxt' u).
  assert (seg nx (l1 ++ l2) None) as Hs.
  { eapply seg_remove; [exact Hnd|exact Hseg| |].
    - intros p Hlast. unfold nx. rewrite decide_False; [by rewrite head_or_None; apply Hp|].
      intros ->. apply Htn, elem_of_app. left. apply last_Some in Hlast as [l' ->].
      apply elem_of_app. right. by apply list_elem_of_here.
    - intros u Hu. unfold nx. case_decide; [by subst u|by apply Hn]. }
  eapply seg_ext; [|exact Hs]. intros u Hu. unfold nx. rewrite decide_False; [done|]. by intros ->.
Qed.

Lemma global_ok_delete th th' first t l1 l2 k1 k2 :
  global_ok th first (l1 ++ t :: l2) → removed th th' t l1 l2 k1 k2 → global_ok th' (head (l1 ++ l2)) (l1 ++ l2).
Proof.
  intros [h1 h2 h3 h4] [r1 r2 r3 r4 r5 r6 r7]. pose proof (proj1 (NoDup_middle _ _ _) h3) as [Htn Hnd].
  split; [done|by eapply seg_without|done|]. intros u. destruct (decide (u = t)) as [->|Hu].
  - rewrite r1. split; [done|by intros []].
  - rewrite r2, <- h4, !elem_of_app, elem_of_cons by done. tauto.
Qed.

(** The other chains of threads. *)
Lemma members_other th th' sp F ch t j k l1 l2 k1 k2 :
  members_ok th sp F ch → removed th th' t l1 l2 k1 k2 → live sp F j → ch j = k1 ++ t :: k2 →
  live sp F k → k ≠ j → seg (tlink nextThread th') (ch k) None ∧ ∀ u, u ∈ ch k ↔ home th' u = Some k.
Proof.
  intros [h1 h2 h3 h4 h5 h6] Hr Hj Hch Hk Hkj.
  assert (Ht : home th t = Some j) by (apply h5; [done|]; rewrite Hch, elem_of_app; right; left).
  assert (Hne : ∀ u, u ∈ ch k → u ≠ t ∧ last k1 ≠ Some u).
  { intros u Hu. apply h5 in Hu; [|done]. split; [congruence|]. intros Hlast.
    assert (u ∈ ch j) as Hu'; [|apply h5 in Hu'; [congruence|done]].
    rewrite Hch, elem_of_app. left. apply last_Some in Hlast as [l' ->]. apply elem_of_app. right. left. }
  split.
  - eapply seg_ext; [|by apply h2]. intros u Hu. destruct (Hne u Hu). by apply (rm_other _ _ _ _ _ _ _ Hr).
  - intros u. split.
    + intros Hu. rewrite (rm_home _ _ _ _ _ _ _ Hr) by by apply Hne. by apply h5.
    + intros Hu. destruct (decide (u = t)) as [->|Hut].
      * unfold home in Hu. by rewrite (rm_gone _ _ _ _ _ _ _ Hr) in Hu.
      * apply h5; [done|]. by rewrite <- (rm_home _ _ _ _ _ _ _ Hr).
Qed.

Lemma removed_thread th th' sp F ch t l1 l2 k1 k2 u x :
  members_ok th sp F ch → removed th th' t l1 l2 k1 k2 → th' !! u = Some (Some x) →
  u ≠ t ∧ ∃ j, space x = Some j ∧ live sp F j ∧ home th u = Some j.
Proof.
  intros Hm Hr Hu. assert (thread_at th' u = Some x) as Hx by (unfold thread_at; by rewrite Hu).
  assert (u ≠ t) as Hut by (intros ->; by rewrite (rm_gone _ _ _ _ _ _ _ Hr) in Hx). split; [done|].
  pose proof (rm_home _ _ _ _ _ _ _ Hr u Hut) as Hh. unfold home in Hh. rewrite Hx in Hh. simpl in Hh.
  destruct (proj1 (rm_alive _ _ _ _ _ _ _ Hr u Hut)) as [y Hy]; [by rewrite Hx|].
  rewrite Hy in Hh. simpl in Hh. unfold thread_at in Hy. destruct (th !! u) as [z|] eqn:Ez; [|done]. subst z.
  destruct (mb_home _ _ _ _ Hm u y Ez) as (j&Hj&Hl). exists j. split_and!; [congruence|done|].
  unfold home, thread_at. by rewrite Ez.
Qed.

(** Another thread of the space is left. *)
Lemma members_ok_delete th th' sp sp' F ch t j l1 l2 k1 k2 :
  members_ok th sp F ch → removed th th' t l1 l2 k1 k2 → live sp F j → ch j = k1 ++ t :: k2 → k1 ++ k2 ≠ [] →
  length sp' = length sp →
  (∀ k, slink firstThread sp' k = if decide (k = j) then Some (head (k1 ++ k2)) else slink firstThread sp k) →
  members_ok th' sp' F (upd ch j (k1 ++ k2)).
Proof.
  intros Hm Hr Hj Hch Hne Hl Hs. pose proof Hm as [h1 h2 h3 h4 h5 h6].
  assert (Hlive : ∀ k, live sp' F k ↔ live sp F k) by (intros k; unfold live; by rewrite Hl).
  pose proof (h3 j Hj) as Hnd. rewrite Hch in Hnd. pose proof (proj1 (NoDup_middle _ _ _) Hnd) as [Htn Hnd'].
  split; try setoid_rewrite Hlive; unfold upd.
  - intros k Hk. rewrite Hs. case_decide; [done|by apply h1].
  - intros k Hk. case_decide as E; [subst k|by apply (members_other _ _ _ _ _ _ _ _ _ _ _ _ Hm Hr Hj Hch Hk E)].
    pose proof (h2 j Hj) as Hseg. rewrite Hch in Hseg. eapply seg_without; [exact Hnd|exact Hseg|apply Hr|apply Hr].
  - intros k Hk. case_decide; [done|by apply h3].
  - intros k Hk. case_decide; [done|by apply h4].
  - intros k u Hk. case_decide as E; [subst k|by apply (members_other _ _ _ _ _ _ _ _ _ _ _ _ Hm Hr Hj Hch Hk E)].
    destruct (decide (u = t)) as [->|Hu].
    + split; [done|]. unfold home. by rewrite (rm_gone _ _ _ _ _ _ _ Hr).
    + rewrite (rm_home _ _ _ _ _ _ _ Hr), <- h5, Hch, !elem_of_app, elem_of_cons by done. tauto.
  - intros u x Hu. destruct (removed_thread _ _ _ _ _ _ _ _ _ _ _ _ Hm Hr Hu) as (_&k&?&?&_). by exists k.
Qed.

Lemma live_cons sp sp' F j k : length sp' = length sp → live sp' (j :: F) k ↔ k ≠ j ∧ live sp F k.
Proof. intros Hl. unfold live. rewrite Hl, not_elem_of_cons. tauto. Qed.

(** It was the last one. *)
Lemma members_ok_last th th' sp sp' F ch t j l1 l2 :
  members_ok th sp F ch → removed th th' t l1 l2 [] [] → live sp F j → ch j = [t] → length sp' = length sp →
  (∀ k, k ≠ j → slink firstThread sp' k = slink firstThread sp k) → members_ok th' sp' (j :: F) ch.
Proof.
  intros Hm Hr Hj Hch Hl Hs. pose proof Hm as [h1 h2 h3 h4 h5 h6].
  assert (Hlive : ∀ k, live sp' (j :: F) k ↔ k ≠ j ∧ live sp F k) by (intros k; by apply live_cons).
  split; try setoid_rewrite Hlive.
  - intros k [Hk Hlk]. rewrite Hs by done. by apply h1.
  - intros k [Hk Hlk]. by apply (members_other _ _ _ _ _ _ _ _ _ _ _ _ Hm Hr Hj Hch Hlk Hk).
  - intros k [_ Hk]. by apply h3.
  - intros k [_ Hk]. by apply h4.
  - intros k u [Hk Hlk]. by apply (members_other _ _ _ _ _ _ _ _ _ _ _ _ Hm Hr Hj Hch Hlk Hk).
  - intros u x Hu. destruct (removed_thread _ _ _ _ _ _ _ _ _ _ _ _ Hm Hr Hu) as (Hut&k&Hk&Hlk&Hh). exists k.
    split_and!; [done| |done]. intros ->. apply h5 in Hh; [|done]. rewrite Hch in Hh. by apply list_elem_of_singleton in Hh.
Qed.

(** The pages of a space join the free ones. *)
Lemma pages_ok_free pgs pgs' sp sp' F first pg Q j :
  pages_ok pgs sp F first pg Q → live sp F j → pg j ≠ [] → length sp' = length sp →
  (∀ p, last (pg j) = Some p → plink pgs' p = Some (head Q)) →
  (∀ u, last (pg j) ≠ Some u → plink pgs' u = plink pgs u) →
  (∀ k, k ≠ j → slink firstPage sp' k = slink firstPage sp k) →
  pages_ok pgs' sp' (j :: F) (head (pg j)) pg (pg j ++ Q).
Proof.
  intros [h1 h2 h3 h4 h5 h6 h7 h8] Hj Hne Hl Hlast Hp Hs.
  assert (Hlive : ∀ k, live sp' (j :: F) k ↔ k ≠ j ∧ live sp F k) by (intros k; by apply live_cons).
  assert (Hin : ∀ u, last (pg j) = Some u → u ∈ pg j).
  { intros u Hu. apply last_Some in Hu as [l ->]. apply elem_of_app. right. left. }
  split; try setoid_rewrite Hlive.
  - by destruct (pg j).
  - apply seg_app. rewrite head_or_None. split.
    + destruct (exists_last Hne) as (l&p&E). pose proof (h5 j Hj) as Hseg. pose proof (h6 j Hj) as Hnd.
      rewrite E in *. rewrite last_snoc in *. eapply seg_relink; [exact Hnd|by apply Hlast| |exact Hseg].
      intros u Hu. apply Hp. congruence.
    + eapply seg_ext; [|exact h2]. intros u Hu. apply Hp. intros Hx%Hin. by apply (h7 j u Hj Hx).
  - apply NoDup_app. split_and!; [by apply h6|by intros u ?; apply (h7 j)|done].
  - intros k [Hk Hlk]. rewrite Hs by done. by apply h4.
  - intros k [Hk Hlk]. eapply seg_ext; [|by apply h5]. intros u Hu. apply Hp. intros Hx%Hin. by apply Hk, (h8 k j u).
  - intros k [_ Hk]. by apply h6.
  - intros k u [Hk Hlk] Hu [Hu'|Hu']%elem_of_app; [by apply Hk, (h8 k j u)|by apply (h7 k u)].
  - intros k k' u [_ Hk] [_ Hk']. by apply h8.
Qed.

Lemma last_page_spec s l p q fuel :
  head (l ++ [q]) = Some p → seg (plink (pages s)) (l ++ [q]) None → (length l ≤ fuel)%nat →
  runs (last_page fuel p) (λ r s', r = q ∧ s' = s) s.
Proof.
  revert p fuel. induction l as [|a l IH]; intros p fuel Hp [Ha Hseg] Hfuel; injection Hp as ->.
  all: unfold plink in Ha; destruct (pages s !! p) as [x|] eqn:Ex; [|done]; simpl in Ha.
  - destruct fuel; cbn [last_page]; apply runs_bind; (eapply runs_peek; [exact Ex|]); injection Ha as ->; by apply runs_ret.
  - destruct fuel as [|fuel]; [simpl in Hfuel; lia|]. cbn [last_page]. apply runs_bind. eapply runs_peek; [exact Ex|].
    rewrite head_or_None in Ha. injection Ha as ->. destruct (l ++ [q]) as [|b l'] eqn:E; [by destruct l|].
    cbn [head]. apply IH; [done|done|simpl in Hfuel; lia].
Qed.

Lemma Page_free_spec s P i :
  head P = Some i → seg (plink (pages s)) P None → NoDup P →
  runs (Page_free i) (λ _ s', ∃ q x, last P = Some q ∧ pages s !! q = Some x ∧
    s' = s <| pages := <[q := x <| nextPage := globalFirstFreePage s |>]> (pages s) |> <| globalFirstFreePage := Some i |>) s.
Proof.
  intros Hi Hseg Hnd. destruct (exists_last (l := P)) as (l&q&->); [by intros ->|].
  unfold Page_free. apply runs_bind, runs_get. apply runs_bind. eapply runs_mono.
  { apply (last_page_spec s l i q); [done|done|]. apply Nat.lt_le_incl.
    pose proof (seg_bound (pages s) _ _ _ (plink_bound (pages s)) Hseg Hnd) as Hlen. rewrite length_app in Hlen. simpl in Hlen. lia. }
  intros r s' [-> ->]. apply runs_bind, runs_get. destruct (pages s !! q) as [x|] eqn:Ex.
  - apply runs_bind. eapply runs_poke; [exact Ex|]. apply runs_update. exists q, x. by rewrite last_snoc.
  - apply seg_snoc in Hseg as [_ Hq]. unfold plink in Hq. by rewrite Ex in Hq.
Qed.

(** * Thread(global_id) *)

Lemma Thread_new_spec s G ch pg F Q id :
  pager_ok s G ch pg F Q →
  let t := length (threads s) in let j := given_space s F in
  runs (Thread_new id) (λ r s', r = t ∧ pager_ok s' (t :: G) (upd ch j [t]) (upd pg j []) (tail F) Q ∧
    threads s' = threads s ++ [Some (Thread (globalFirstThread s) None id (Some j))] ∧
    pages s' = pages s ∧ pager_mem s' = pager_mem s ∧ sent s' = sent s) s.
Proof.
  intros Hok t j. pose proof Hok as [Hg Hm Hp Hf Hd Hn Hs Hslot]. set (x0 := Thread (globalFirstThread s) None id None).
  unfold Thread_new. apply runs_bind, runs_get. apply runs_bind, runs_create. change (cells s) with (threads s). fold x0 t.
  apply runs_bind, runs_update. set (s1 := _ <| globalFirstThread := _ |>).
  apply runs_bind. eapply runs_mono; [by apply (Space_alloc_spec s1 F t)|]. intros r s2 (->&Hsg&R1&R2&R3&R4&R5&R6&R7&R8).
  change (given_space s1 F) with j in *.
  assert (Hsg' : space_given s s2 F j t) by (destruct Hsg; by split).
  assert (Ht : threads s2 !! t = Some (Some x0)) by (rewrite R1; by apply (list_lookup_middle (threads s))).
  apply runs_bind. eapply runs_tpoke; [exact Ht|]. apply runs_ret. set (s3 := _ <| threads := _ |>).
  set (x := x0 <| space := Some j |>). assert (Et : threads s3 = threads s ++ [Some x]).
  { change (threads s3) with (<[t := Some x]> (threads s2)). rewrite R1. change (threads s1) with (threads s ++ [Some x0]).
    rewrite insert_app_r_alt by done. by rewrite Nat.sub_diag. }
  split; [done|]. split; [|split; [exact Et|]; split_and!; [exact R2|exact R7|exact R8]]. split.
  - rewrite Et. change (globalFirstThread s3) with (globalFirstThread s2). rewrite R5.
    eapply (global_ok_new (threads s) (globalFirstThread s)); [exact Hg|done].
  - rewrite Et. change (spaces s3) with (spaces s2). by apply (members_ok_new s s2 F ch t x).
  - change (pages s3) with (pages s2). change (spaces s3) with (spaces s2).
    change (globalFirstFreePage s3) with (globalFirstFreePage s2). rewrite R2, R3. by eapply pages_ok_new.
  - by apply (free_ok_new s s2 F t).
  - intros i y. change (pages s3) with (pages s2). rewrite R2. apply Hd.
  - change (nextAllocablePageStart s3) with (nextAllocablePageStart s2). change (pages s3) with (pages s2). by rewrite R4, R2.
  - intros k y. change (spaces s3) with (spaces s2). destruct (decide (k = j)) as [->|Hk].
    + destruct (sg_space _ _ _ _ _ Hsg') as (z&Hz&_&_&_&Hfs). by intros ?; simplify_eq.
    + rewrite (sg_other _ _ _ _ _ Hsg') by done. apply Hs.
  - change (nextAllocableFileSlot s3) with (nextAllocableFileSlot s2). by rewrite R6.
Qed.

(** * Deleting a thread *)

(** A field of the thread before, if there is one. *)
Definition set_at (g : thread_t → thread_t) (p : option nat) th : list (option thread_t) :=
  match p with Some q => alter (fmap g) q th | None => th end.

Lemma thread_at_set g p th u : thread_at (set_at g p th) u = if decide (p = Some u) then g <$> thread_at th u else thread_at th u.
Proof.
  unfold thread_at, set_at. destruct p as [q|]; [|by rewrite decide_False]. destruct (decide (q = u)) as [->|Hq].
  - rewrite decide_True, list_lookup_alter_eq by done. by destruct (th !! u) as [[]|].
  - by rewrite decide_False, list_lookup_alter_ne by congruence.
Qed.

Lemma tlink_set f g p th u :
  tlink f (set_at g p th) u = if decide (p = Some u) then (λ x, f (g x)) <$> thread_at th u else tlink f th u.
Proof. unfold tlink. rewrite thread_at_set. case_decide; [|done]. by destruct (thread_at th u). Qed.

Lemma tlink_set_other f g p th u : (∀ x, f (g x) = f x) → tlink f (set_at g p th) u = tlink f th u.
Proof. intros Hf. rewrite tlink_set. case_decide; [|done]. unfold tlink. destruct (thread_at th u); [simpl; by rewrite Hf|done]. Qed.

Lemma length_set_at g p th : length (set_at g p th) = length th.
Proof. destruct p; [apply length_alter|done]. Qed.

Lemma home_set g p th u : (∀ x, space (g x) = space x) → home (set_at g p th) u = home th u.
Proof. intros Hg. unfold home. rewrite thread_at_set. case_decide; [|done]. destruct (thread_at th u); [apply Hg|done]. Qed.

(** The loop on the chain of a thread. *)
Lemma unlink_chain next set_next s l1 t l2 p fuel :
  head (l1 ++ [t]) = Some p → seg (tlink next (threads s)) (l1 ++ t :: l2) None → NoDup (l1 ++ t :: l2) →
  (length (l1 ++ t :: l2) ≤ fuel)%nat →
  unlink next set_next fuel t p s = Done tt (s <| threads := set_at (set_next (head l2)) (last l1) (threads s) |>).
Proof.
  intros Hp Hseg Hnd Hfuel. pose proof (proj1 (NoDup_middle _ _ _) Hnd) as [Hnin _].
  rewrite not_elem_of_app in Hnin. destruct Hnin as [Hn1 Hn2]. rewrite length_app in Hfuel. simpl in Hfuel.
  destruct (decide (l1 = [])) as [->|Hne].
  - injection Hp as <-. rewrite (unlink_absent next set_next s l2 t t fuel Hseg Hn2) by lia. by destruct s.
  - destruct (exists_last Hne) as (l&q&->). rewrite <- !(assoc_L app) in *. cbn [app] in *.
    destruct (unlink_before next set_next s l q t l2 p fuel) as (y&Hy&->); [by destruct l|done|done|rewrite length_app in Hfuel; lia|].
    rewrite last_snoc. unfold set_at. by rewrite (alter_insert _ _ _ _ Hy).
Qed.

(** The threads after the loops. *)
Definition unlinked th (l1 l2 k1 k2 : list nat) : list (option thread_t) :=
  set_at (λ x, x <| nextThread := head k2 |>) (last k1) (set_at (λ x, x <| globalNextThread := head l2 |>) (last l1) th).

Lemma unlinked_removed th t l1 l2 k1 k2 :
  (t < length th)%nat → (∀ u, u ∈ l1 ∨ u ∈ k1 → is_Some (thread_at th u)) →
  t ∉ l1 → t ∉ k1 → removed th (<[t := None]> (unlinked th l1 l2 k1 k2)) t l1 l2 k1 k2.
Proof.
  intros Ht Hsome Hl Hk.
  assert (Hlen : length (unlinked th l1 l2 k1 k2) = length th) by (unfold unlinked; by rewrite !length_set_at).
  assert (Hne : ∀ u, u ≠ t → thread_at (<[t := None]> (unlinked th l1 l2 k1 k2)) u = thread_at (unlinked th l1 l2 k1 k2) u).
  { intros u Hu. unfold thread_at. by rewrite list_lookup_insert_ne. }
  assert (Hlast : ∀ (l : list nat) p, last l = Some p → p ∈ l).
  { intros l p Hp. apply last_Some in Hp as [l' ->]. apply elem_of_app. right. left. }
  split.
  - unfold thread_at. by rewrite list_lookup_insert_eq by by rewrite Hlen.
  - intros u Hu. rewrite Hne by done. unfold unlinked. rewrite !thread_at_set. by repeat case_decide; rewrite ?fmap_is_Some.
  - intros u Hu. unfold home at 1. rewrite Hne by done. change (home (unlinked th l1 l2 k1 k2) u = home th u).
    unfold unlinked. by rewrite !home_set.
  - intros p Hp. pose proof (Hlast _ _ Hp) as Hin. assert (p ≠ t) as Hpt by (by intros ->).
    unfold tlink. rewrite Hne by done. change (tlink globalNextThread (unlinked th l1 l2 k1 k2) p = Some (head l2)).
    unfold unlinked. rewrite tlink_set_other, tlink_set, decide_True by done.
    destruct (Hsome p) as [y ->]; [by left|done].
  - intros u Hu Hlu. unfold tlink at 1. rewrite Hne by done. change (tlink globalNextThread (unlinked th l1 l2 k1 k2) u = tlink globalNextThread th u).
    unfold unlinked. by rewrite tlink_set_other, tlink_set, decide_False by done.
  - intros p Hp. pose proof (Hlast _ _ Hp) as Hin. assert (p ≠ t) as Hpt by (by intros ->).
    unfold tlink. rewrite Hne by done. change (tlink nextThread (unlinked th l1 l2 k1 k2) p = Some (head k2)).
    unfold unlinked. rewrite tlink_set, decide_True, thread_at_set by done.
    destruct (Hsome p) as [y ->]; [by right|]. by case_decide.
  - intros u Hu Hlu. unfold tlink at 1. rewrite Hne by done. change (tlink nextThread (unlinked th l1 l2 k1 k2) u = tlink nextThread th u).
    unfold unlinked. by rewrite tlink_set, decide_False, tlink_set_other by done.
Qed.

Lemma last_mem {A} (l : list A) p : last l = Some p → p ∈ l.
Proof. intros [l' ->]%last_Some. apply elem_of_app. right. left. Qed.

Lemma lookup_set_last g l th t : t ∉ l → set_at g (last l) th !! t = th !! t.
Proof.
  intros Hn. destruct (last l) as [u|] eqn:Hlast; [|done]. simpl. apply list_lookup_alter_ne.
  intros ->. by apply Hn, last_mem.
Qed.

(** The state when the thread is on no list any more. *)
Definition off_lists s (j : nat) (l1 l2 k1 k2 : list nat) : pager :=
  s <| threads := unlinked (threads s) l1 l2 k1 k2 |>
    <| globalFirstThread := head (l1 ++ l2) |>
    <| spaces := alter (λ y, y <| firstThread := head (k1 ++ k2) |>) j (spaces s) |>.

(** What is known of a thread and its space. *)
Record placed s F ch pg (t j : nat) (x : thread_t) (y : space_t) : Prop := {
  pl_thread : threads s !! t = Some (Some x);
  pl_home : space x = Some j;
  pl_live : live (spaces s) F j;
  pl_in : t ∈ ch j;
  pl_space : spaces s !! j = Some y;
  pl_first : firstThread y = head (ch j);
  pl_page : firstPage y = head (pg j);
  pl_slot : fileSlot y = the_slot;
}.

Lemma thread_placed s G ch pg F Q t x :
  pager_ok s G ch pg F Q → threads s !! t = Some (Some x) → ∃ j y, placed s F ch pg t j x y.
Proof.
  intros [Hg Hm Hp Hf Hd Hn Hs Hslot] Hx. destruct (mb_home _ _ _ _ Hm t x Hx) as (j&Hj&Hl).
  destruct (lookup_lt_is_Some_2 (spaces s) j (proj1 Hl)) as [y Hy]. exists j, y. split; try done.
  - apply (mb_member _ _ _ _ Hm j t Hl). unfold home, thread_at. by rewrite Hx.
  - pose proof (mb_first _ _ _ _ Hm j Hl) as H. unfold slink in H. rewrite Hy in H. by injection H.
  - pose proof (pg_first _ _ _ _ _ _ Hp j Hl) as H. unfold slink in H. rewrite Hy in H. by injection H.
  - by apply (Hs j).
Qed.

(** The first loop of [~Thread]. *)
Lemma destroy_global s G l1 t l2 x p n :
  global_ok (threads s) (globalFirstThread s) G → G = l1 ++ t :: l2 → threads s !! t = Some (Some x) →
  globalFirstThread s = Some p → n = length (threads s) →
  (if decide (p = t) then m ← tpeek globalNextThread t; update (λ s, s <| globalFirstThread := m |>)
   else unlink globalNextThread (λ m t, t <| globalNextThread := m |>) n t p) s =
  Done tt (s <| threads := set_at (λ x, x <| globalNextThread := head l2 |>) (last l1) (threads s) |>
             <| globalFirstThread := head (l1 ++ l2) |>).
Proof.
  intros [h1 h2 h3 h4] -> Hx Hp ->. rewrite h1 in Hp. case_decide as E.
  - subst p. assert (l1 = []) as ->.
    { destruct l1 as [|a l1]; [done|]. injection Hp as ->. apply NoDup_cons in h3 as [[] _]. apply elem_of_app. right. left. }
    rewrite (bind_done _ _ _ _ _ (tpeek_done globalNextThread t x s Hx)).
    destruct h2 as [Ht _]. unfold tlink, thread_at in Ht. rewrite Hx in Ht. injection Ht as ->. rewrite head_or_None.
    by destruct s.
  - rewrite (unlink_chain globalNextThread (λ m t, t <| globalNextThread := m |>) s l1 t l2 p); try done.
    + destruct l1 as [|a l1]; [by injection Hp as ->|]. rewrite <- (app_comm_cons) in *. simpl in *. rewrite <- h1. by destruct s.
    + by destruct l1.
    + by eapply seg_bound; [|exact h2|]; [intros i; apply tlink_bound|].
Qed.

(** The second loop, in a state where the threads of the space are still linked. *)
Lemma destroy_member s (ch : list nat) k1 t k2 j x y p n :
  seg (tlink nextThread (threads s)) ch None → NoDup ch → ch = k1 ++ t :: k2 →
  threads s !! t = Some (Some x) → spaces s !! j = Some y → firstThread y = head ch → head ch = Some p →
  n = length (threads s) →
  (onlyif (bool_decide (p = t)) (m ← tpeek nextThread t; poke j (λ x, x <| firstThread := m |>));;
   unlink nextThread (λ m t, t <| nextThread := m |>) n t p) s =
  Done tt (s <| threads := set_at (λ x, x <| nextThread := head k2 |>) (last k1) (threads s) |>
             <| spaces := alter (λ y, y <| firstThread := head (k1 ++ k2) |>) j (spaces s) |>).
Proof.
  intros Hseg Hnd -> Hx Hy Hfy Hp ->. rewrite (alter_insert _ _ _ _ Hy).
  pose proof (seg_bound _ _ _ _ (tlink_bound nextThread (threads s)) Hseg Hnd) as Hlen.
  case_bool_decide as E; cbn [onlyif].
  - subst p. assert (k1 = []) as ->.
    { destruct k1 as [|a k1]; [done|]. injection Hp as ->. apply NoDup_cons in Hnd as [[] _]. apply elem_of_app. right. left. }
    pose proof Hseg as [Ht _]. unfold tlink, thread_at in Ht. rewrite Hx in Ht. injection Ht as Ht. rewrite head_or_None in Ht.
    erewrite bind_done; [|erewrite bind_done by (by apply tpeek_done); unfold poke; change (cells s) with (spaces s); by rewrite Hy].
    match goal with |- unlink _ _ _ _ _ ?st = _ => rewrite (unlink_absent nextThread _ st k2 t t) end.
    + rewrite Ht. by destruct s.
    + exact Hseg.
    + by apply NoDup_cons in Hnd as [? _].
    + simpl in Hlen. lia.
  - erewrite bind_done by done.
    rewrite (unlink_chain nextThread (λ m t, t <| nextThread := m |>) s k1 t k2 p); try done.
    + destruct k1 as [|a k1]; [by injection Hp as ->|]. cbn [app head] in *. f_equal. rewrite <- Hfy.
      replace (<[j := y <| firstThread := firstThread y |>]> (spaces s)) with (spaces s); [by destruct s|].
      symmetry. rewrite list_insert_id; [done|]. by destruct y.
    + by destruct k1.
Qed.

(** [~Thread] takes the thread off both lists, and frees its space after the last one. *)
Lemma Thread_destroy_run s G ch pg F Q t x j y l1 l2 k1 k2 :
  pager_ok s G ch pg F Q → placed s F ch pg t j x y → G = l1 ++ t :: l2 → ch j = k1 ++ t :: k2 →
  Thread_destroy t s = onlyif (bool_decide (head (k1 ++ k2) = None)) (Space_free j) (off_lists s j l1 l2 k1 k2).
Proof.
  intros Hok [Hx Hj Hl Hin Hy Hfy Hpy Hsl] HG Hch. pose proof Hok as [Hg Hm _ _ _ _ _ _].
  assert (Hf : is_Some (globalFirstThread s)) by (rewrite (gl_first _ _ _ Hg), HG; by destruct l1).
  destruct Hf as [p Hp]. destruct (head (ch j)) as [q|] eqn:Hq; [|rewrite Hch in Hq; by destruct k1].
  unfold Thread_destroy. erewrite bind_done by done. erewrite bind_done by done. rewrite Hp.
  erewrite bind_done by (by eapply destroy_global). set (s1 := _ <| globalFirstThread := _ |>).
  assert (Htl : ∀ u, tlink nextThread (threads s1) u = tlink nextThread (threads s) u).
  { intros u. change (threads s1) with (set_at (λ x, x <| globalNextThread := head l2 |>) (last l1) (threads s)). by apply tlink_set_other. }
  assert (Hx1 : threads s1 !! t = Some (Some x)).
  { change (threads s1) with (set_at (λ x, x <| globalNextThread := head l2 |>) (last l1) (threads s)).
    pose proof (gl_nodup _ _ _ Hg) as Hnd. rewrite HG in Hnd. apply NoDup_middle in Hnd as [[Hn _]%not_elem_of_app _].
    by rewrite lookup_set_last. }
  erewrite bind_done by (by apply tpeek_done). rewrite Hj. erewrite bind_done by done.
  erewrite bind_done by (by apply (peek_done firstThread j y)). rewrite Hfy.
  match goal with |- (onlyif ?b ?m;; unlink ?nx ?st ?n ?u ?v;; ?k) s1 = _ =>
    transitivity (((onlyif b m;; unlink nx st n u v) ≫= λ _, k) s1);
    [symmetry; apply bind_assoc|] end.
  erewrite bind_done.
  2: { eapply (destroy_member s1 (ch j) k1 t k2 j x y q); try done.
       - eapply seg_ext; [|by apply (mb_seg _ _ _ _ Hm j)]. intros u _. apply Htl.
       - by apply Hm.
       - by rewrite Hq.
       - symmetry. apply length_set_at. }
  match goal with |- _ ?st = _ => change st with (off_lists s j l1 l2 k1 k2) end.
  erewrite bind_done; [|eapply (peek_done firstThread j (y <| firstThread := head (k1 ++ k2) |>))]; [done|].
  change (alter (λ y, y <| firstThread := head (k1 ++ k2) |>) j (spaces s) !! j = Some (y <| firstThread := head (k1 ++ k2) |>)).
  by rewrite list_lookup_alter_eq, Hy.
Qed.

(** A list without a slot. *)
Definition without (t : nat) (l : list nat) : list nat := filter (λ u, u ≠ t) l.

Lemma without_absent t l : t ∉ l → without t l = l.
Proof.
  induction l as [|u l IH]; intros Hn; [done|]. apply not_elem_of_cons in Hn as [Hu Hn].
  unfold without. rewrite filter_cons_True by done. f_equal. by apply IH.
Qed.

Lemma without_middle t l1 l2 : NoDup (l1 ++ t :: l2) → without t (l1 ++ t :: l2) = l1 ++ l2.
Proof.
  intros [[H1 H2]%not_elem_of_app _]%NoDup_middle. unfold without.
  rewrite filter_app, filter_cons_False by tauto.
  change (without t l1 ++ without t l2 = l1 ++ l2). by rewrite !without_absent.
Qed.

(** The thread is deleted, and others are left in its space. *)
Definition gone s (t : nat) : pager := s <| threads := <[t := None]> (threads s) |>.

Lemma off_removed s G ch pg F Q t x j y l1 l2 k1 k2 :
  pager_ok s G ch pg F Q → placed s F ch pg t j x y → G = l1 ++ t :: l2 → ch j = k1 ++ t :: k2 →
  removed (threads s) (threads (gone (off_lists s j l1 l2 k1 k2) t)) t l1 l2 k1 k2.
Proof.
  intros Hok [Hx Hj Hl Hin Hy Hfy Hpy Hsl] HG Hch. pose proof Hok as [Hg Hm _ _ _ _ _ _].
  pose proof (gl_nodup _ _ _ Hg) as Hn1. rewrite HG in Hn1. apply NoDup_middle in Hn1 as [[H1 _]%not_elem_of_app _].
  pose proof (mb_nodup _ _ _ _ Hm j Hl) as Hn2. rewrite Hch in Hn2. apply NoDup_middle in Hn2 as [[H2 _]%not_elem_of_app _].
  apply (unlinked_removed (threads s)); [by eapply lookup_lt_Some| |done|done]. intros u [Hu|Hu].
  - apply (gl_member _ _ _ Hg). rewrite HG. apply elem_of_app. by left.
  - assert (u ∈ ch j) as Hc by (rewrite Hch; apply elem_of_app; by left).
    apply (mb_member _ _ _ _ Hm j u Hl) in Hc. unfold home in Hc. by destruct (thread_at (threads s) u).
Qed.

Lemma off_thread s G ch pg F Q t x j y l1 l2 k1 k2 :
  pager_ok s G ch pg F Q → placed s F ch pg t j x y → G = l1 ++ t :: l2 → ch j = k1 ++ t :: k2 →
  threads (off_lists s j l1 l2 k1 k2) !! t = Some (Some x).
Proof.
  intros Hok [Hx Hj Hl Hin Hy Hfy Hpy Hsl] HG Hch. pose proof Hok as [Hg Hm _ _ _ _ _ _].
  pose proof (gl_nodup _ _ _ Hg) as Hn1. rewrite HG in Hn1. apply NoDup_middle in Hn1 as [[H1 _]%not_elem_of_app _].
  pose proof (mb_nodup _ _ _ _ Hm j Hl) as Hn2. rewrite Hch in Hn2. apply NoDup_middle in Hn2 as [[H2 _]%not_elem_of_app _].
  change (unlinked (threads s) l1 l2 k1 k2 !! t = Some (Some x)). unfold unlinked. by rewrite !lookup_set_last.
Qed.

Lemma slink_alter_other f sp g j k : (∀ y, f (g y) = f y) → slink f (alter g j sp) k = slink f sp k.
Proof.
  intros Hg. unfold slink. destruct (decide (k = j)) as [->|Hk].
  - rewrite list_lookup_alter_eq. destruct (sp !! j); [simpl; by rewrite Hg|done].
  - by rewrite list_lookup_alter_ne.
Qed.

Lemma slink_alter f sp g j k v : (j < length sp)%nat → (∀ y, f (g y) = v) →
  slink f (alter g j sp) k = if decide (k = j) then Some v else slink f sp k.
Proof.
  intros Hj Hg. unfold slink. case_decide as E.
  - subst. rewrite list_lookup_alter_eq. destruct (lookup_lt_is_Some_2 sp j Hj) as [y ->]. simpl. by rewrite Hg.
  - by rewrite list_lookup_alter_ne.
Qed.

Lemma delete_ok s G ch pg F Q t x j y l1 l2 k1 k2 :
  pager_ok s G ch pg F Q → placed s F ch pg t j x y → G = l1 ++ t :: l2 → ch j = k1 ++ t :: k2 → k1 ++ k2 ≠ [] →
  pager_ok (gone (off_lists s j l1 l2 k1 k2) t) (l1 ++ l2) (upd ch j (k1 ++ k2)) pg F Q.
Proof.
  intros Hok Hpl HG Hch Hne. pose proof (off_removed _ _ _ _ _ _ _ _ _ _ _ _ _ _ Hok Hpl HG Hch) as Hr.
  pose proof Hpl as [Hx Hj Hl Hin Hy Hfy Hpy Hsl]. pose proof Hok as [Hg Hm Hp Hf Hd Hn Hs Hslot]. set (s' := gone _ t) in *.
  assert (Es : spaces s' = alter (λ y, y <| firstThread := head (k1 ++ k2) |>) j (spaces s)) by done.
  assert (Hlen : length (spaces s') = length (spaces s)) by by rewrite Es, length_alter.
  split.
  - change (globalFirstThread s') with (head (l1 ++ l2)). rewrite HG in Hg. by eapply global_ok_delete.
  - eapply (members_ok_delete (threads s)); [exact Hm|exact Hr|done|done|done|done|].
    intros k. rewrite Es. apply slink_alter; [apply Hl|done].
  - change (pages_ok (pages s) (spaces s') F (globalFirstFreePage s) pg Q). destruct Hp as [h1 h2 h3 h4 h5 h6 h7 h8].
    assert (Hlive : ∀ k, live (spaces s') F k ↔ live (spaces s) F k) by (intros k; unfold live; by rewrite Hlen).
    split; try setoid_rewrite Hlive; try done. intros k Hk. rewrite Es, slink_alter_other by done. by apply h4.
  - eapply free_ok_spaces; [|exact Hf]. intros k. rewrite Es. by apply slink_alter_other.
  - exact Hd.
  - exact Hn.
  - intros k z. rewrite Es, list_lookup_alter. case_decide as E; [subst|by apply Hs]. rewrite Hy. by intros [= <-].
  - exact Hslot.
Qed.

(** The last thread of a space takes the space and its pages with it. *)
Lemma free_ok_push sp sp' first F j :
  free_ok sp first F → j ∉ F → slink globalNextFreeSpace sp' j = Some first →
  (∀ k, k ≠ j → slink globalNextFreeSpace sp' k = slink globalNextFreeSpace sp k) → free_ok sp' (Some j) (j :: F).
Proof.
  intros [h1 h2 h3] Hj Hx Ho. split; [done| |by constructor].
  split; [by rewrite Hx, h1, head_or_None|]. eapply seg_ext; [|exact h2]. intros k Hk. apply Ho. by intros ->.
Qed.

Lemma delete_last_ok s s' G ch pg F Q t x j y l1 l2 q z :
  pager_ok s G ch pg F Q → placed s F ch pg t j x y → G = l1 ++ t :: l2 → ch j = [t] → pg j ≠ [] →
  last (pg j) = Some q → pages s !! q = Some z →
  threads s' = threads (gone (off_lists s j l1 l2 [] []) t) → globalFirstThread s' = head (l1 ++ l2) →
  pages s' = <[q := z <| nextPage := globalFirstFreePage s |>]> (pages s) → globalFirstFreePage s' = head (pg j) →
  spaces s' = alter (λ y, y <| globalNextFreeSpace := globalFirstFreeSpace s |>) j (spaces (off_lists s j l1 l2 [] [])) →
  globalFirstFreeSpace s' = Some j → nextAllocablePageStart s' = nextAllocablePageStart s →
  nextAllocableFileSlot s' = nextAllocableFileSlot s →
  pager_ok s' (l1 ++ l2) ch pg (j :: F) (pg j ++ Q).
Proof.
  intros Hok Hpl HG Hch Hne Hq Hz E1 E2 E3 E4 E5 E6 E7 E8.
  pose proof (off_removed _ _ _ _ _ _ _ _ _ _ _ _ [] [] Hok Hpl HG Hch) as Hr. rewrite <- E1 in Hr.
  pose proof Hpl as [Hx Hj Hl Hin Hy Hfy Hpy Hsl]. pose proof Hok as [Hg Hm Hp Hf Hd Hn Hs Hslot].
  change (spaces (off_lists s j l1 l2 [] [])) with (alter (λ y, y <| firstThread := None |>) j (spaces s)) in E5.
  assert (Hlen : length (spaces s') = length (spaces s)) by by rewrite E5, !length_alter.
  pose proof (lookup_lt_Some _ _ _ Hz) as Hltq.
  assert (Hsl' : ∀ A (f : space_t → A) k, k ≠ j → f <$> spaces s' !! k = f <$> spaces s !! k).
  { intros A f k Hk. by rewrite E5, !list_lookup_alter_ne by done. }
  split; rewrite ?E2, ?E4, ?E6, ?E7, ?E8.
  - rewrite HG in Hg. by eapply global_ok_delete.
  - eapply (members_ok_last (threads s)); [exact Hm|exact Hr|done|done|done|]. intros k. apply Hsl'.
  - eapply (pages_ok_free (pages s) _ (spaces s)); [exact Hp|done|done|done| | |intros k; apply Hsl'].
    + intros p Hp'. assert (p = q) as -> by congruence. rewrite E3, plink_insert, decide_True by done.
      change (Some (globalFirstFreePage s) = Some (head Q)). by rewrite (pg_free _ _ _ _ _ _ Hp).
    + intros u Hu. rewrite E3, plink_insert, decide_False by congruence. done.
  - eapply free_ok_push; [exact Hf|apply Hl| |intros k; apply Hsl'].
    rewrite E5. rewrite (slink_alter _ _ _ _ _ (globalFirstFreeSpace s)), decide_True; [done|done| |done].
    rewrite length_alter. apply Hl.
  - intros i w. rewrite E3. destruct (decide (i = q)) as [->|Hi].
    + rewrite list_lookup_insert_eq by done. intros [= <-]. by apply (Hd q z).
    + rewrite list_lookup_insert_ne by done. apply Hd.
  - rewrite E3, length_insert. exact Hn.
  - intros k w. destruct (decide (k = j)) as [->|Hk].
    + rewrite E5, !list_lookup_alter_eq, Hy. intros [= <-]. exact Hsl.
    + rewrite E5, !list_lookup_alter_ne by done. apply Hs.
  - done.
Qed.

(** [free()] on the space of the last thread, and the storage of the thread. *)
Lemma Space_free_run s G ch pg F Q t x j y l1 l2 :
  pager_ok s G ch pg F Q → placed s F ch pg t j x y → G = l1 ++ t :: l2 → ch j = [t] → pg j ≠ [] →
  runs (Space_free j;; poke t (λ _, None)) (λ _ s',
    pager_ok s' (l1 ++ l2) ch pg (j :: F) (pg j ++ Q) ∧ threads s' = threads (gone (off_lists s j l1 l2 [] []) t) ∧
    pager_mem s' = pager_mem s ∧ sent s' = sent s ++ [L4_UnmapFpage the_slot]) (off_lists s j l1 l2 [] []).
Proof.
  intros Hok Hpl HG Hch Hne. pose proof Hpl as [Hx Hj Hl Hin Hy Hfy Hpy Hsl]. set (s2 := off_lists s j l1 l2 [] []).
  assert (Hy2 : spaces s2 !! j = Some (y <| firstThread := None |>)).
  { change (alter (λ y, y <| firstThread := None |>) j (spaces s) !! j = Some (y <| firstThread := None |>)).
    by rewrite list_lookup_alter_eq, Hy. }
  destruct (pg j) as [|i P] eqn:EP; [done|]. apply runs_bind. unfold Space_free.
  apply runs_bind. eapply runs_peek; [exact Hy2|]. apply runs_bind. eapply runs_follow; [exact Hpy|].
  apply runs_bind. eapply runs_mono; [apply (Page_free_spec s2 (pg j)); rewrite ?EP; [done| |]|].
  { rewrite <- EP. by apply (po_pages _ _ _ _ _ _ Hok). }
  { rewrite <- EP. by apply (po_pages _ _ _ _ _ _ Hok). }
  intros _ s3 (q&z&Hq&Hz&->). change (pages s2) with (pages s) in Hz. apply runs_bind, runs_get.
  apply runs_bind. eapply runs_poke; [exact Hy2|]. apply runs_bind, runs_update.
  set (y3 := y <| firstThread := None |> <| globalNextFreeSpace := globalFirstFreeSpace s |>).
  apply runs_bind. eapply (runs_peek fileSlot j y3).
  { apply (list_lookup_insert_eq (spaces s2)). by eapply lookup_lt_Some. }
  apply runs_update. apply (runs_poke t (λ _, None) (Some x)).
  { by apply (off_thread s G ch pg F Q t x j y l1 l2 [] []). }
  split_and!; [|done|done|].
  - rewrite <- EP. eapply (delete_last_ok s); try done; rewrite ?EP; try done.
    symmetry. by apply (alter_insert _ (spaces s2)).
  - match goal with |- sent ?st = _ => change (sent st) with (sent s ++ [L4_UnmapFpage (fileSlot y)]) end. by rewrite Hsl.
Qed.

Section calls.
Context `{Files}.

(** C27: [apppager_pagefault] of a thread the pager knows: one more page, that belonged
    to no space, is the first one of the thread's space, filled from the image in the
    file slot, all lists keep their invariant; only without a free page and at 2 GB
    the pager stops. *)
Theorem apppager_pagefault_contract s G ch pg F Q caller address t x :
  pager_ok s G ch pg F Q → threads s !! t = Some (Some x) → globalid x = caller →
  if decide (Q = [] ∧ nextAllocablePageStart s = 2147483648) then apppager_pagefault caller address s = Halted s
  else runs (apppager_pagefault caller address) (λ r s', ∃ u y j, let i := given s Q in
    let page := L4_FpageLog2 (page_address i) 12 in
    threads s !! u = Some (Some y) ∧ globalid y = caller ∧ u ∈ ch j ∧ live (spaces s) F j ∧
    (∀ k, live (spaces s) F k → i ∉ pg k) ∧ pager_ok s' G ch (upd pg j (i :: pg j)) F (tail Q) ∧
    r = (page, Z.lor address 4095) ∧
    pager_mem s' = fill_page page address 2147483648 (match Q with [] => fill (pager_mem s) (page_address i) 0 4 | _ => pager_mem s end)) s.
Proof.
  intros Hok Ht Hid. pose proof (find_spec s G ch pg F Q caller Hok) as Hfind.
  unfold runs in Hfind. destruct (find caller s) as [r s0| | |] eqn:Ef; try done. destruct Hfind as [-> Hr].
  destruct r as [u|]; [|by destruct (Hr t x Ht)]. destruct Hr as (_&y&j&Hu&Hyid&Hsp&Hlive&Hch).
  destruct (lookup_lt_is_Some_2 (spaces s) j (proj1 Hlive)) as [z Hz].
  pose proof (po_slots _ _ _ _ _ _ Hok j z Hz) as Hslot.
  assert (Hstart : apppager_pagefault caller address s =
    (apage ← Page_alloc;
     match apage with
     | None => halt
     | Some apage =>
         addPage j apage;; page ← peek desc apage;
         update (λ s, s <| pager_mem ::= fill_page page address (L4_Address the_slot) |>);;
         mret (page, Z.lor address 4095)
     end) s).
  { unfold apppager_pagefault. erewrite bind_done by exact Ef.
    erewrite (bind_done (follow (Some u))) by done. erewrite bind_done by (by apply tpeek_done).
    rewrite Hsp. erewrite (bind_done (follow (Some j))) by done. erewrite bind_done by (by apply peek_done).
    by rewrite Hslot. }
  rewrite Hstart. unfold runs at 1. rewrite Hstart. clear Hstart.
  pose proof (Page_alloc_spec s G ch pg F Q Hok) as Halloc.
  case_decide as Hfull.
  - destruct Hfull as [-> Hlim]. unfold runs in Halloc. destruct (Page_alloc s) as [[i|] s1| | |] eqn:Ea; try done.
    + destruct Halloc as (_&Hroom&_). specialize (Hroom eq_refl). lia.
    + destruct Halloc as [-> _]. by erewrite bind_done by exact Ea.
  - apply runs_bind. eapply runs_mono; [exact Halloc|]. intros [i|] s1; [|tauto].
    intros (Hi&Hroom&Hal). destruct (al_rest _ _ _ _ Hal) as (Rs&Rt&_).
    destruct (allocated_page _ _ _ _ _ _ _ _ Hok Hi Hal) as (x'&Hx'&Hd&_). pose proof (lookup_lt_Some _ _ _ Hx') as Hlt.
    assert (Hfp : firstPage z = head (pg j)).
    { pose proof (pg_first _ _ _ _ _ _ (po_pages _ _ _ _ _ _ Hok) j Hlive) as Hfp. unfold slink in Hfp. rewrite Hz in Hfp.
      by injection Hfp. }
    apply runs_bind. unfold addPage. apply runs_bind. eapply runs_peek; [rewrite <- Rs in Hz; exact Hz|].
    apply runs_bind. eapply runs_poke; [exact Hx'|]. eapply runs_poke; [rewrite <- Rs in Hz; exact Hz|].
    rewrite Hfp. set (x2 := x' <| nextPage := _ |>). apply runs_bind. eapply (runs_peek _ _ x2).
    { by apply (list_lookup_insert_eq (pages s1)). }
    apply runs_bind, runs_update, runs_ret. rewrite <- Hi. exists u, y, j. split_and!; try done.
    + intros k Hk. rewrite Hi. by eapply given_fresh.
    + eapply (fault_ok s s1); try done.
      match goal with |- spaces ?st = _ => change (spaces st) with (<[j := z <| firstPage := Some i |>]> (spaces s1)) end.
      by rewrite Rs.
    + change (desc x2) with (desc x'). by rewrite Hd.
    + match goal with |- pager_mem ?st = _ => change (pager_mem st) with (fill_page (desc x') address (L4_Address the_slot) (pager_mem s1)) end.
      rewrite Hd, (al_mem _ _ _ _ Hal). done.
Qed.

(** [apppager_associateImage] makes a new thread, the first of all and the only one
    of a space that was in use by nobody, without pages; the file is mapped to the
    space's file slot and the thread is started at the entry point of the image. *)
Theorem apppager_associateImage_contract s G ch pg F Q thread filename :
  pager_ok s G ch pg F Q →
  let t := length (threads s) in let j := given_space s F in
  ¬ live (spaces s) F j ∧
  runs (apppager_associateImage thread filename) (λ r s',
    pager_ok s' (t :: G) (upd ch j [t]) (upd pg j []) (tail F) Q ∧ home (threads s') t = Some j ∧
    (∃ x, threads s' = threads s ++ [Some x] ∧ globalid x = thread) ∧
    pager_mem s' = map_file filename the_slot (pager_mem s) ∧
    r = e_entry (pager_mem s') 2147483648 ∧ sent s' = sent s ++ [L4_Send thread r]) s.
Proof.
  intros Hok t j. split; [apply given_space_free, Hok|]. unfold apppager_associateImage.
  apply runs_bind. eapply runs_mono; [by apply Thread_new_spec|]. intros t' s1 (->&Hok1&Et&_&Em&Es). fold t j in Hok1, Et |- *.
  set (x := Thread _ _ _ _) in Et. assert (Ht : threads s1 !! t = Some (Some x)) by (rewrite Et; by apply list_lookup_middle).
  destruct (thread_placed _ _ _ _ _ _ _ _ Hok1 Ht) as (j'&y&[_ Hj _ _ Hy _ _ Hsl]). injection Hj as <-.
  apply runs_bind. eapply runs_tpeek; [exact Ht|]. apply runs_bind. eapply runs_follow; [done|].
  apply runs_bind. eapply runs_peek; [exact Hy|]. apply runs_bind, runs_update. apply runs_bind, runs_get.
  apply runs_bind, runs_update, runs_ret. rewrite Hsl.
  match goal with |- pager_ok ?st _ _ _ _ _ ∧ _ => set (s2 := st) end.
  change (pager_mem s1) with (pager_mem s1) in *. split_and!.
  - destruct Hok1 as [h1 h2 h3 h4 h5 h6 h7 h8]. by split.
  - change (threads s2) with (threads s1). unfold home, thread_at. by rewrite Ht.
  - exists x. split; [exact Et|done].
  - change (pager_mem s2) with (map_file filename the_slot (pager_mem s1)). by rewrite Em.
  - done.
  - change (sent s2) with (sent s1 ++ [L4_Send thread (e_entry (map_file filename the_slot (pager_mem s1)) 2147483648)]).
    by rewrite Es.
Qed.

(** C26: [apppager_deleteAssociation] of a thread nobody knows does nothing; else the
    thread leaves all lists, and the others keep their spaces and pages; with the last
    thread of a space the space and all its pages become free and the file slot is
    unmapped, but a space that has no page yet makes it follow a null pointer. *)
Theorem apppager_deleteAssociation_contract s G ch pg F Q thread :
  pager_ok s G ch pg F Q →
  (∀ t x, threads s !! t = Some (Some x) → globalid x ≠ thread) ∧ apppager_deleteAssociation thread s = Done tt s ∨
  ∃ t j x, threads s !! t = Some (Some x) ∧ globalid x = thread ∧ live (spaces s) F j ∧ t ∈ ch j ∧
    if decide (ch j = [t] ∧ pg j = []) then apppager_deleteAssociation thread s = Undefined
    else runs (apppager_deleteAssociation thread) (λ _ s',
      thread_at (threads s') t = None ∧ (∀ u, u ≠ t → home (threads s') u = home (threads s) u) ∧
      pager_mem s' = pager_mem s ∧
      if decide (ch j = [t])
      then pager_ok s' (without t G) ch pg (j :: F) (pg j ++ Q) ∧ sent s' = sent s ++ [L4_UnmapFpage the_slot]
      else pager_ok s' (without t G) (upd ch j (without t (ch j))) pg F Q ∧ sent s' = sent s) s.
Proof.
  intros Hok. pose proof (find_spec s G ch pg F Q thread Hok) as Hfind. unfold runs in Hfind.
  destruct (find thread s) as [r s0| | |] eqn:Ef; try done. destruct Hfind as [-> Hr].
  destruct r as [t|]; [|left; split; [done|unfold apppager_deleteAssociation; by rewrite (bind_done _ _ _ _ _ Ef)]].
  right. destruct Hr as (HtG&x&_&Hx&Hid&_). destruct (thread_placed _ _ _ _ _ _ _ _ Hok Hx) as (j&y&Hpl).
  pose proof Hpl as [_ Hj Hl Hin Hy Hfy Hpy Hsl]. exists t, j, x. split_and!; try done.
  destruct (list_elem_of_split _ _ HtG) as (l1&l2&HG). destruct (list_elem_of_split _ _ Hin) as (k1&k2&Hch).
  pose proof (Thread_destroy_run _ _ _ _ _ _ _ _ _ _ _ _ _ _ Hok Hpl HG Hch) as Hrun.
  pose proof (off_removed _ _ _ _ _ _ _ _ _ _ _ _ _ _ Hok Hpl HG Hch) as Hrem.
  pose proof (gl_nodup _ _ _ (po_global _ _ _ _ _ _ Hok)) as HnG. rewrite HG in HnG.
  pose proof (mb_nodup _ _ _ _ (po_members _ _ _ _ _ _ Hok) j Hl) as Hnc. rewrite Hch in Hnc.
  assert (Hdel : apppager_deleteAssociation thread s =
    (onlyif (bool_decide (head (k1 ++ k2) = None)) (Space_free j);; poke t (λ _, None)) (off_lists s j l1 l2 k1 k2)).
  { unfold apppager_deleteAssociation. rewrite (bind_done _ _ _ _ _ Ef). unfold delete, mbind at 1, Srv_bind at 1. by rewrite Hrun. }
  assert (Hlast : ch j = [t] ↔ k1 ++ k2 = []).
  { rewrite Hch. split; [|intros [-> ->]%app_nil; done]. intros E. apply (f_equal length) in E.
    rewrite length_app in E. simpl in E. destruct k1, k2; simpl in *; try lia. done. }
  rewrite HG, Hch, !without_middle by done. rewrite <- Hch. unfold runs. rewrite Hdel.
  destruct (decide (ch j = [t])) as [Ech|Ech].
  - apply Hlast, app_nil in Ech as E. destruct E as [-> ->]. cbn [app head]. rewrite bool_decide_true by done. cbn [onlyif].
    destruct (decide (ch j = [t] ∧ pg j = [])) as [[_ Ep]|Hne].
    + unfold Space_free. rewrite Ep in Hpy.
      rewrite !bind_assoc. erewrite bind_done; [|apply (peek_done firstPage j (y <| firstThread := None |>))];
        [change (firstPage (y <| firstThread := None |>)) with (firstPage y); by rewrite Hpy|].
      change (alter (λ y, y <| firstThread := None |>) j (spaces s) !! j = Some (y <| firstThread := None |>)).
      by rewrite list_lookup_alter_eq, Hy.
    + eapply runs_mono; [eapply (Space_free_run s); try done; by intros ?; apply Hne|].
      intros _ s' (Hok'&Et&Em&Es). rewrite Et. split_and!; try done; [apply Hrem|apply Hrem].
  - rewrite decide_False by tauto. assert (Hne : k1 ++ k2 ≠ []) by tauto.
    rewrite bool_decide_false by (by destruct (k1 ++ k2)). cbn [onlyif].
    pose proof (delete_ok _ _ _ _ _ _ _ _ _ _ _ _ _ _ Hok Hpl HG Hch Hne) as Hok'.
    erewrite bind_done by done. unfold poke.
    change (cells (off_lists s j l1 l2 k1 k2)) with (threads (off_lists s j l1 l2 k1 k2)).
    rewrite (off_thread _ _ _ _ _ _ _ _ _ _ _ _ _ _ Hok Hpl HG Hch). split_and!; [apply Hrem|apply Hrem|done|exact Hok'|done].
Qed.
End calls.
