(* ===== verification/Print.v ===== *)
(** Formatted output (src/sdios/lib/io/print.cc) and the input of a number
    (src/sdios/lib/io/get_hex.cc).

    The conversion works in the monad of the servers, over the locals that the macros and
    the branches of [__l4_vsnprintf] share; [goto Done] is [halt].  A format is the list
    of its bytes with the null character at its end, beyond which nothing may be read.
    An argument is a word or a double; the string at an address is the class
    [Strings].  Doubles are those of IEEE 754 (the Standard Library's SpecFloat), rounded
    at each assignment. *)

From Stdlib Require Import SpecFloat.
From stdpp Require Import strings.
From S2P Require Import Prelude Machine Server L4Types.

Inductive arg :=
  | Word (w : Z)
  | Double (d : spec_float).

Class Strings := string_at : Z → option (list Z).

Record flags := Flags { f_left : bool; f_sign : bool; f_space : bool; f_zero : bool; f_alternate : bool }.
#[global] Instance flags_fields : Fields flags := λ r, {|
  f_left := f_left r; f_sign := f_sign r; f_space := f_space r; f_zero := f_zero r; f_alternate := f_alternate r |}.
Definition no_flags : flags := Flags false false false false false.

(** [str] up to [p], [size], the rest of [fmt] and of [ap], [numpr], and what [%n] stored. *)
Record printing := Printing {
  str : list Z;
  room : Z;
  fmt : list Z;
  ap : list arg;
  numpr : Z;
  stores : list (Z * Z);
}.
#[global] Instance printing_fields : Fields printing := λ r, {|
  str := str r; room := room r; fmt := fmt r; ap := ap r; numpr := numpr r; stores := stores r |}.

(** * The macros *)

(** [size-- <= 0], of the unsigned [size] *)
Definition full : Srv printing bool :=
  n ← get room; update (λ s, s <| room := u32 (n - 1) |>);; mret (n <=? 0).

Definition put (ch : Z) : Srv printing unit := update (λ s, s <| str ::= λ l, l ++ [u8 ch] |>).

Definition PUTCH (ch : Z) : Srv printing unit :=
  b ← full; if (b : bool) then halt else put ch.

Fixpoint PUTSTR (st : list Z) : Srv printing unit :=
  match st with [] => mret tt | c :: st => PUTCH c;; PUTSTR st end.

(** [for ( i = n; i > 0; i-- ) PUTCH( ch )] *)
Fixpoint fill_with (n : nat) (ch : Z) : Srv printing unit :=
  match n with O => mret tt | S n => PUTCH ch;; fill_with n ch end.

(** The loop that fills [convert], an array of 64 characters, with the digits of [uval]. *)
Fixpoint convert (n : nat) (digits : list Z) (base uval : Z) : option (list Z) :=
  match n with
  | O => None
  | S n =>
      d ← digits !! Z.to_nat (uval mod base);
      let uval := uval / base in
      if 0 <? uval then l ← convert n digits base uval; Some (d :: l) else Some [d]
  end.
Definition reversed_digits (digits : list Z) (base uval : Z) : Srv printing (list Z) :=
  follow (convert 64 digits base uval).

Definition PUTDEC (digits : list Z) (num : Z) : Srv printing unit :=
  l ← reversed_digits digits 10 num; PUTSTR (reverse l).

Definition LEFTPAD (f : flags) (num : Z) : Srv printing unit :=
  onlyif (negb (f_left f) && (0 <? num)) (fill_with (Z.to_nat num) (if f_zero f then 48 else 32)).
Definition RIGHTPAD (f : flags) (num : Z) : Srv printing unit :=
  onlyif (f_left f && (0 <? num)) (fill_with (Z.to_nat num) 32).

(** * Reading the format and the arguments *)

(** [*fmt] and [c = *fmt++] *)
Definition look : Srv printing Z :=
  l ← get fmt; match l with [] => undefined | c :: _ => mret c end.
Definition advance : Srv printing unit := update (λ s, s <| fmt ::= tail |>).
Definition next : Srv printing Z := c ← look; advance;; mret c.

(** [va_arg( ap, int )], and [va_arg( ap, long )], as an unsigned long *)
Definition va_word : Srv printing Z :=
  l ← get ap;
  match l with Word w :: l => update (λ s, s <| ap := l |>);; mret w | _ => undefined end.
Definition va_double : Srv printing spec_float :=
  l ← get ap;
  match l with Double d :: l => update (λ s, s <| ap := l |>);; mret d | _ => undefined end.

Fixpoint copy_until_percent (fuel : nat) : Srv printing unit :=
  match fuel with
  | O => spins
  | S fuel =>
      c ← next;
      if c =? 37 then mret tt else
      b ← full;
      if (b : bool) || (c =? 0) then halt else put c;; copy_until_percent fuel
  end.

Fixpoint parse_flags (fuel : nat) (f : flags) : Srv printing flags :=
  match fuel with
  | O => spins
  | S fuel =>
      c ← look;
      match c with
      | 45 (* - *) => advance;; parse_flags fuel (f <| f_left := true |>)
      | 43 (* + *) => advance;; parse_flags fuel (f <| f_sign := true |>)
      | 32 (* space *) => advance;; parse_flags fuel (f <| f_space := true |>)
      | 48 (* 0 *) => advance;; parse_flags fuel (f <| f_zero := true |>)
      | 35 (* # *) => advance;; parse_flags fuel (f <| f_alternate := true |>)
      | _ => mret f
      end
  end.

Definition is_digit (c : Z) : bool := (48 <=? c) && (c <=? 57).

Fixpoint parse_decimal (fuel : nat) (n : Z) : Srv printing Z :=
  match fuel with
  | O => spins
  | S fuel =>
      c ← look;
      if is_digit c then advance;; parse_decimal fuel (i32 (i32 (n * 10) + (c - 48))) else mret n
  end.

(** A number, or a star for an argument, or nothing. *)
Definition parse_number : Srv printing Z :=
  n ← get (λ s, length (fmt s));
  c ← look;
  if c =? 42 then w ← va_word; advance;; mret (i32 w)
  else if is_digit c then parse_decimal (S n) 0
  else mret (-1).

Definition parse_precision : Srv printing Z :=
  c ← look; if c =? 46 then advance;; parse_number else mret (-1).

(** The length modifiers; long and int have the same width. *)
Definition parse_length : Srv printing unit :=
  c ← look; onlyif (bool_decide (c = 104 ∨ c = 108 ∨ c = 76)) advance.

(** * Numbers *)

Definition octal_digits : list Z := txt "012345678".
Definition decimal_digits : list Z := txt "0123456789".
Definition hex_digits : list Z := txt "0123456789abcdef".
Definition upper_hex_digits : list Z := txt "0123456789ABCDEF".

(** The sign character and the magnitude. *)
Definition sign_of (f : flags) (sign : bool) (uval : Z) : Z * Z :=
  if sign then
    if f_sign f && (0 <=? i32 uval) then (43, uval)
    else if f_space f && (0 <=? i32 uval) then (32, uval)
    else if i32 uval <? 0 then (45, u32 (- i32 uval))
    else (0, uval)
  else (0, uval).

(** From the sign character on, for a number of [n] characters. *)
Definition print_digits (f : flags) (width base signch : Z) (convert : list Z) (n : Z) : Srv printing unit :=
  onlyif (truth signch) (PUTCH signch);;
  let n := if truth signch then n - 1 else n in
  n ← (if f_alternate f then
      if base =? 2 then PUTCH 37;; mret (n - 1)
      else if base =? 8 then PUTCH 48;; mret (n - 1)
      else if base =? 16 then PUTSTR [48; 120];; mret (n - 2)
      else mret n
    else mret n);
  update (λ s, s <| numpr := n |>);;
  fill_with (Z.to_nat (n - Z.of_nat (length convert))) 48;;
  PUTSTR (reverse convert);;
  RIGHTPAD f (i32 (width - n - (if truth signch then 1 else 0))).

Definition print_number (f : flags) (width precision base : Z) (digits : list Z) (sign : bool) (uval : Z) : Srv printing unit :=
  let '(signch, uval) := sign_of f sign uval in
  convert ← reversed_digits digits base uval;
  let numdigits := Z.of_nat (length convert) in
  let n := if precision <? numdigits then numdigits else precision in
  let n := if truth signch then i32 (n + 1) else n in
  let n := if f_alternate f then
      if base =? 8 then i32 (n + 1) else if (base =? 16) || (base =? 2) then i32 (n + 2) else n
    else n in
  n ← (if negb (f_left f) && (n <? width) then
      if f_zero f then mret width else fill_with (Z.to_nat (width - n)) 32;; mret n
    else mret n);
  print_digits f width base signch convert n.

(** * Floating point numbers *)

Definition dbl (z : Z) : spec_float := binary_normalize 53 1024 z 0 false.
Definition dbl_sub : spec_float → spec_float → spec_float := SFsub 53 1024.
Definition dbl_mul : spec_float → spec_float → spec_float := SFmul 53 1024.

(** [(unsigned long) d], undefined when the integer part does not fit. *)
Definition ulong_of (d : spec_float) : option Z :=
  match d with
  | S754_zero _ => Some 0
  | S754_finite s m e =>
      let t := (if s then -1 else 1) * (if 0 <=? e then Zpos m * 2 ^ e else Zpos m / 2 ^ (- e)) in
      if (0 <=? t) && (t <? 2 ^ 32) then Some t else None
  | _ => None
  end.

(** [while ( fval >= 1.0 )] *)
Fixpoint fraction (fuel : nat) (fval : spec_float) : Srv printing spec_float :=
  if SFleb (dbl 1) fval then
    match fuel with
    | O => spins
    | S fuel => u ← follow (ulong_of fval); fraction fuel (dbl_sub fval (dbl u))
    end
  else mret fval.

Fixpoint fraction_digits (precision : nat) (fval : spec_float) : Srv printing unit :=
  match precision with
  | O => mret tt
  | S precision =>
      let fval := dbl_mul fval (dbl 10) in
      u ← follow (ulong_of fval);
      PUTCH (48 + u);;
      fraction_digits precision (dbl_sub fval (dbl u))
  end.

Definition print_double (f : flags) (width precision : Z) (fval : spec_float) : Srv printing unit :=
  let precision := if precision =? -1 then 6 else precision in
  let '(signch, fval) :=
    if f_sign f && SFleb (dbl 0) fval then (43, fval)
    else if f_space f && SFleb (dbl 0) fval then (32, fval)
    else if SFltb fval (dbl 0) then (45, SFopp fval)
    else (0, fval) in
  uval ← follow (ulong_of fval);
  convert ← reversed_digits decimal_digits 10 uval;
  let n := Z.of_nat (length convert) + (if truth signch then 1 else 0) in
  let n := if 0 <? precision then i32 (n + i32 (1 + precision)) else n in
  update (λ s, s <| numpr := n |>);;
  LEFTPAD f (i32 (width - n));;
  onlyif (truth signch) (PUTCH signch);;
  PUTSTR (reverse convert);;
  onlyif (0 <? precision)
    (fval ← fraction 2 fval;
     PUTCH 46;;
     fraction_digits (Z.to_nat precision) fval);;
  RIGHTPAD f (i32 (width - n)).

(** * Threads and strings *)

(** [__zeros], the six low bits *)
Definition L4_IsLocalId (t : Z) : bool := t mod 2 ^ 6 =? 0.
Definition L4_IsGlobalId (t : Z) : bool := negb (t mod 2 ^ 6 =? 0).

Definition print_thread (tid : Z) : Srv printing unit :=
  if L4_IsNilThread tid then PUTSTR (txt "NIL_ID") else
  if L4_IsGlobalId tid then
    PUTSTR (txt "GlobThread=");; PUTDEC decimal_digits (L4_ThreadNo tid);;
    PUTSTR (txt ",ver=");; PUTDEC decimal_digits (L4_Version tid)
  else if L4_IsLocalId tid then
    PUTSTR (txt "LocThread=");; PUTDEC decimal_digits (tid / 2 ^ 6)
  else PUTSTR (txt "? ");; PUTDEC decimal_digits tid.

(** The loop of at most [precision] characters. *)
Definition upto (precision : Z) (l : list Z) : list Z :=
  if 0 <=? precision then take (Z.to_nat precision) l else l.

Definition print_field (f : flags) (width precision : Z) (string : list Z) : Srv printing unit :=
  onlyif (0 <? width)
    (let n := Z.of_nat (length string) in
     let n := if (0 <=? precision) && (precision <? n) then precision else n in
     update (λ s, s <| numpr := n |>);;
     LEFTPAD f (width - n));;
  PUTSTR (upto precision string);;
  n ← get numpr; RIGHTPAD f (i32 (width - n)).

(** * The conversion of a format *)

Section calls.
Context `{Strings}.

(** [PUTCH( va_arg( ap, int ) )], which reads the argument if there is room. *)
Definition PUTARG : Srv printing unit :=
  b ← full; if (b : bool) then halt else va_word ≫= put.

(** The switch on the character [c]. *)
Definition convert_with (f : flags) (width precision c : Z) : Srv printing unit :=
  match c with
  | 98 (* b *) => va_word ≫= print_number f width precision 2 (txt "01") false
  | 111 (* o *) => va_word ≫= print_number f width precision 8 octal_digits false
  | 112 (* p *) => va_word ≫= print_number (f <| f_alternate := true |>) 8 8 16 hex_digits false
  | 120 (* x *) => va_word ≫= print_number f width precision 16 hex_digits false
  | 88 (* X *) => va_word ≫= print_number f width precision 16 upper_hex_digits false
  | 100 | 105 (* d i *) => va_word ≫= print_number f width precision 10 decimal_digits true
  | 117 (* u *) => va_word ≫= print_number f width precision 10 decimal_digits false
  | 102 (* f *) => va_double ≫= print_double f width precision
  | 116 (* t *) => va_word ≫= print_thread
  | 115 (* s *) =>
      w ← va_word;
      if w =? 0 then PUTSTR (txt "(null)") else
      l ← follow (string_at w); print_field f width precision l
  | 99 (* c *) => PUTARG
  | 37 => PUTCH 37
  | 110 (* n *) =>
      w ← va_word; update (λ s, s <| stores ::= λ l, l ++ [(w, Z.of_nat (length (str s)))] |>)
  | _ => PUTCH 37;; PUTCH c
  end.

Definition conversion : Srv printing unit :=
  n ← get (λ s, length (fmt s));
  f ← parse_flags (S n) no_flags;
  width ← parse_number;
  precision ← parse_precision;
  parse_length;;
  c ← next;
  convert_with f width precision c.

(** [while ( size > 0 )] *)
Fixpoint vloop (fuel : nat) : Srv printing unit :=
  n ← get room;
  if 0 <? n then
    match fuel with
    | O => spins
    | S fuel =>
        m ← get (λ s, length (fmt s));
        copy_until_percent (S m);; conversion;; vloop fuel
    end
  else mret tt.

(** The bytes stored at [str], what [%n] stored and the value returned; or the call is undefined
    in C, or the loops do not end within their fuel. *)
Inductive outcome :=
  | Stores (bytes : list Z) (counts : list (Z * Z)) (r : Z)
  | Illegal
  | Endless.

Definition vsnprintf (size : Z) (format : option (list Z)) (args : list arg) : outcome :=
  let s := Printing [] (u32 (size - 1)) (default [] format) args 0 [] in
  match (match format with
         | None => PUTSTR (txt "(null fmt string)")
         | Some l => vloop (S (length l))
         end) s with
  | Done _ s | Halted s => Stores (str s ++ [0]) (stores s) (Z.of_nat (length (str s)))
  | Undefined => Illegal
  | Spins => Endless
  end.

(** Nothing is stored when there is no format. *)
Definition snprintf (size : Z) (format : option (list Z)) (args : list arg) : outcome :=
  match format with None => Stores [] [] 0 | _ => vsnprintf size format args end.

(** * Output to the terminal: the characters given to [putc] *)

(** [print_string] of the bytes at its argument. *)
Fixpoint print_string (s : list Z) : option (list Z) :=
  match s with [] => None | c :: s => if c =? 0 then Some [] else cons c <$> print_string s end.

Definition puts (s : list Z) : option (list Z * Z) :=
  l ← print_string s; n ← strlen s; Some (l ++ [10], Z.of_nat n).
Definition putchar (c : Z) : list Z * Z := ([c], c).

(** What is put out takes the place of the bytes stored. *)
Definition printf (format : option (list Z)) (args : list arg) : outcome :=
  match format with
  | None => Stores [] [] 0
  | _ =>
      match vsnprintf 256 format args with
      | Stores outbuf counts r =>
          if 0 <? r then
            match print_string outbuf with Some l => Stores l counts r | None => Illegal end
          else Stores [] counts r
      | other => other
      end
  end.
End calls.

(** * Input of a number (get_hex.cc) *)

(** The value of a digit, in the arithmetic of [char]. *)
Definition hex_digit (c : Z) : option Z :=
  if (48 <=? c) && (c <=? 57) then Some (c - 48)
  else if (97 <=? c) && (c <=? 102) then Some (c - 32 - 65 + 10)
  else if (65 <=? c) && (c <=? 70) then Some (c - 65 + 10)
  else None.

(** The characters that are typed, to the value and the echo; [None] when more are awaited. *)
Fixpoint get_hex_from (input : list Z) (i val : Z) (echo : list Z) : option (Z * list Z * list Z) :=
  match input with
  | [] => None
  | t :: input =>
      if t =? 13 then Some (val, echo, input) else
      match hex_digit t with
      | None => get_hex_from input i val echo
      | Some c =>
          let val := u32 (u32 (Z.shiftl val 4) + c) in
          if i + 1 =? 8 then Some (val, echo ++ [t], input)
          else get_hex_from input (i + 1) val (echo ++ [t])
      end
  end.
Definition get_hex (input : list Z) : option (Z * list Z * list Z) := get_hex_from input 0 0 [].
