(* ===== verification/PrintSpec.v ===== *)
(** What a format means: [vsnprintf] stores the text of the format, cut off at the size of
    the buffer; and the numbers it prints can be read back. *)

From Stdlib Require Import SpecFloat.
From stdpp Require Import strings.
From S2P Require Import Prelude Machine Server L4Types Print.

(** * Numerals *)

(** The digits of [n], the most significant one first. *)
Fixpoint numeral_upto (k : nat) (base n : Z) : list Z :=
  match k with
  | O => []
  | S k => if n <? base then [n] else numeral_upto k base (n / base) ++ [n mod base]
  end.
Definition numeral (base n : Z) : list Z := numeral_upto 32 base n.

Definition digit_char (upper : bool) (d : Z) : Z := if d <? 10 then 48 + d else (if upper then 55 else 87) + d.

(** * The syntax of formats *)

Inductive count := Unset | Star | Num (n : Z).
Inductive conv :=
  | Binary | Octal | Hexadecimal (upper : bool) | Pointer | Decimal (i : bool) | Unsigned
  | ThreadId | String | Character | Percent.

Record directive := Directive {
  d_flags : list Z;
  d_width : count;
  d_precision : option count;
  d_length : option Z;
  d_conv : conv;
}.
Inductive item := Plain (c : Z) | Conversion (d : directive).

Definition show_count (c : count) : list Z :=
  match c with Unset => [] | Star => [42] | Num n => digit_char false <$> numeral 10 n end.
Definition conv_char (c : conv) : Z :=
  match c with
  | Binary => 98 | Octal => 111 | Hexadecimal false => 120 | Hexadecimal true => 88 | Pointer => 112
  | Decimal false => 100 | Decimal true => 105 | Unsigned => 117 | ThreadId => 116 | String => 115
  | Character => 99 | Percent => 37
  end.
Definition show_directive (d : directive) : list Z :=
  d_flags d ++ show_count (d_width d) ++
  match d_precision d with None => [] | Some c => 46 :: show_count c end ++ option_list (d_length d) ++ [conv_char (d_conv d)].
Definition show_item (i : item) : list Z :=
  match i with Plain c => [c] | Conversion d => 37 :: show_directive d end.

(** The bytes of a format, with the null character. *)
Definition show (its : list item) : list Z := (its ≫= show_item) ++ [0].

Definition flag_chars : list Z := [45; 43; 32; 48; 35].
Definition is_flag (c : Z) : Prop := c ∈ flag_chars.
Definition count_ok (least : Z) (c : count) : Prop := match c with Num n => least ≤ n < 2 ^ 31 | _ => True end.

(** A width that starts with 0 would be a flag. *)
Definition directive_ok (d : directive) : Prop :=
  Forall is_flag (d_flags d) ∧ count_ok 1 (d_width d) ∧
  match d_precision d with Some c => count_ok 0 c | None => True end ∧
  match d_length d with Some c => c = 104 ∨ c = 108 ∨ c = 76 | None => True end.
Definition item_ok (i : item) : Prop :=
  match i with Plain c => c ≠ 0 ∧ c ≠ 37 | Conversion d => directive_ok d end.

(** * The text of a format *)

Definition flags_of (l : list Z) : flags :=
  Flags (bool_decide (45 ∈ l)) (bool_decide (43 ∈ l)) (bool_decide (32 ∈ l)) (bool_decide (48 ∈ l)) (bool_decide (35 ∈ l)).

(** Fields of at most 2^29 characters. *)
Definition field_max : Z := 2 ^ 29.
Definition sane (n : Z) : bool := (- field_max <=? n) && (n <=? field_max).

Definition spaces_ (n : Z) : list Z := replicate (Z.to_nat n) 32.
Definition zeros_ (n : Z) : list Z := replicate (Z.to_nat n) 48.

(** A number with the text of its sign and its prefix, with [extra] more zeros than the
    precision asks for; the prefix does not count for the padding on the right. *)
Definition number_text (f : flags) (width precision extra : Z) (sgn pre ds : list Z) : list Z :=
  let len := λ l : list Z, Z.of_nat (length l) in
  let body := len ds `max` precision + extra in
  let total := len sgn + len pre + body in
  (if f_left f || f_zero f then [] else spaces_ (width - total)) ++ sgn ++ pre ++
  zeros_ ((if negb (f_left f) && f_zero f && (total <? width) then width - len sgn - len pre else body) - len ds) ++ ds ++
  (if f_left f then spaces_ (width - len sgn - body) else []).

Definition prefix (f : flags) (base : Z) : list Z :=
  if f_alternate f then
    if base =? 2 then [37] else if base =? 8 then [48] else if base =? 16 then [48; 120] else []
  else [].

(** The prefix of a binary number is counted twice. *)
Definition extra_zeros (f : flags) (base : Z) : Z := if f_alternate f && (base =? 2) then 1 else 0.

Definition unsigned_text (f : flags) (width precision base : Z) (upper : bool) (n : Z) : list Z :=
  number_text f width precision (extra_zeros f base) [] (prefix f base) (digit_char upper <$> numeral base n).

Definition signed_prefix (f : flags) (n : Z) : list Z :=
  if n <? 0 then [45] else if f_sign f then [43] else if f_space f then [32] else [].
Definition signed_text (f : flags) (width precision n : Z) : list Z :=
  number_text f width precision 0 (signed_prefix f n) [] (digit_char false <$> numeral 10 (Z.abs n)).

Definition string_text (f : flags) (width precision : Z) (l : list Z) : list Z :=
  let t := upto precision l in
  let pad := width - Z.of_nat (length t) in
  if f_left f then t ++ spaces_ pad else (if f_zero f then zeros_ pad else spaces_ pad) ++ t.

Definition thread_text (t : Z) : list Z :=
  let dec := λ n, digit_char false <$> numeral 10 n in
  if t =? 0 then txt "NIL_ID"
  else if t mod 2 ^ 6 =? 0 then txt "LocThread=" ++ dec (t / 2 ^ 6)
  else txt "GlobThread=" ++ dec (L4_ThreadNo t) ++ txt ",ver=" ++ dec (L4_Version t).

(** The next argument, a word. *)
Definition pop (args : list arg) : option (Z * list arg) :=
  match args with Word w :: args => if (0 <=? w) && (w <? 2 ^ 32) then Some (w, args) else None | _ => None end.
Definition count_value (c : count) (args : list arg) : option (Z * list arg) :=
  match c with
  | Unset => Some (-1, args)
  | Star => '(w, args) ← pop args; Some (i32 w, args)
  | Num n => Some (n, args)
  end.

Section text.
Context `{Strings}.

Definition conv_text (c : conv) (f : flags) (width precision : Z) (args : list arg) : option (list Z * list arg) :=
  match c with
  | Percent => Some ([37], args)
  | _ =>
      '(w, args) ← pop args;
      t ← match c with
          | Binary => Some (unsigned_text f width precision 2 false w)
          | Octal => Some (unsigned_text f width precision 8 false w)
          | Hexadecimal upper => Some (unsigned_text f width precision 16 upper w)
          | Pointer => Some (unsigned_text (f <| f_alternate := true |>) 8 8 16 false w)
          | Decimal _ => Some (signed_text f width precision (i32 w))
          | Unsigned => Some (unsigned_text f width precision 10 false w)
          | ThreadId => Some (thread_text w)
          | String =>
              if w =? 0 then Some (txt "(null)") else
              l ← string_at w; if Z.of_nat (length l) <=? field_max then Some (string_text f width precision l) else None
          | Character => Some [w]
          | Percent => None
          end;
      Some (t, args)
  end.

Definition directive_text (d : directive) (args : list arg) : option (list Z * list arg) :=
  '(width, args) ← count_value (d_width d) args;
  '(precision, args) ← count_value (default Unset (d_precision d)) args;
  if sane width && sane precision then conv_text (d_conv d) (flags_of (d_flags d)) width precision args else None.

Fixpoint text (its : list item) (args : list arg) : option (list Z) :=
  match its with
  | [] => Some []
  | Plain c :: its => cons c <$> text its args
  | Conversion d :: its => '(t, args) ← directive_text d args; app t <$> text its args
  end.
End text.

(** * Output of a text into a buffer *)

Definition numpr_ok (s : printing) : Prop := 0 ≤ numpr s ≤ field_max + 16.

(** The state after the text, of which nothing else is left. *)
Record printed (s s' : printing) (t : list Z) : Prop := {
  pr_str : str s' = str s ++ (u8 <$> t);
  pr_room : room s' = room s - Z.of_nat (length t);
  pr_fmt : fmt s' = fmt s;
  pr_ap : ap s' = ap s;
  pr_stores : stores s' = stores s;
  pr_ok : numpr_ok s → numpr_ok s';
}.

(** [m] prints [t], as much of it as there is room for. *)
Definition emits (m : Srv printing unit) (t : list Z) (s : printing) : Prop :=
  0 ≤ room s < 2 ^ 32 →
  match m s with
  | Done _ s' => Z.of_nat (length t) ≤ room s ∧ printed s s' t
  | Halted s' => room s < Z.of_nat (length t) ∧ str s' = str s ++ take (Z.to_nat (room s)) (u8 <$> t) ∧ stores s' = stores s
  | _ => False
  end.

Lemma printed_nil s s' : printed s s' [] ↔
  str s' = str s ∧ room s' = room s ∧ fmt s' = fmt s ∧ ap s' = ap s ∧ stores s' = stores s ∧ (numpr_ok s → numpr_ok s').
Proof.
  split.
  - intros [h1 h2 h3 h4 h5 h6]. rewrite app_nil_r in h1. simpl in h2. split_and!; try done. lia.
  - intros (h1&h2&h3&h4&h5&h6). split; try done; [by rewrite app_nil_r|simpl; lia].
Qed.

Lemma printed_app s s1 s2 t1 t2 : printed s s1 t1 → printed s1 s2 t2 → printed s s2 (t1 ++ t2).
Proof.
  intros [h1 h2 h3 h4 h5 h6] [k1 k2 k3 k4 k5 k6]. split; try congruence.
  - by rewrite k1, h1, fmap_app, (assoc_L app).
  - rewrite k2, h2, length_app. lia.
  - tauto.
Qed.

Lemma emits_ret s : emits (mret tt) [] s.
Proof. intros Hr. split; [simpl; lia|]. by apply printed_nil. Qed.

Lemma emits_run (m : Srv printing unit) (k : Srv printing unit) t1 t2 s :
  emits m t1 s → (∀ s', m s = Done tt s' → printed s s' t1 → emits k t2 s') → emits (m ≫= λ _, k) (t1 ++ t2) s.
Proof.
  intros Hm Hk Hr. specialize (Hm Hr). unfold mbind, Srv_bind. destruct (m s) as [[] s1|s1| |] eqn:Em; try done.
  - destruct Hm as [Hle Hp]. specialize (Hk s1 eq_refl Hp). pose proof (pr_room _ _ _ Hp) as Hroom. specialize (Hk ltac:(lia)).
    destruct (k s1) as [[] s2|s2| |]; try done.
    + destruct Hk as [Hle2 Hp2]. split; [rewrite length_app; lia|by eapply printed_app].
    + destruct Hk as (Hlt&Hs&Ht). split; [rewrite length_app; lia|]. split; [|by rewrite Ht; apply Hp].
      rewrite Hs, (pr_str _ _ _ Hp), <- (assoc_L app), fmap_app, take_app_ge by (rewrite length_fmap; lia).
      rewrite length_fmap. by replace (Z.to_nat (room s) - length t1)%nat with (Z.to_nat (room s1)) by lia.
  - destruct Hm as (Hlt&Hs&Ht). split; [rewrite length_app; lia|]. split; [|done].
    rewrite Hs, fmap_app, take_app_le by (rewrite length_fmap; lia). done.
Qed.

Lemma emits_bind (m : Srv printing unit) (k : Srv printing unit) t1 t2 s :
  emits m t1 s → (∀ s', printed s s' t1 → emits k t2 s') → emits (m ≫= λ _, k) (t1 ++ t2) s.
Proof. intros Hm Hk. apply emits_run; [done|]. intros s' _. apply Hk. Qed.

(** A computation without output before one with. *)
Lemma emits_done {A} (m : Srv printing A) (k : A → Srv printing unit) t s a s1 :
  m s = Done a s1 → printed s s1 [] → emits (k a) t s1 → emits (m ≫= k) t s.
Proof.
  intros Hm Hp Hk Hr. unfold mbind, Srv_bind. rewrite Hm. pose proof Hp as (h1&h2&h3&h4&h5&h6)%printed_nil.
  specialize (Hk ltac:(lia)). destruct (k a s1) as [[] s2|s2| |]; try done.
  - destruct Hk as [? Hp2]. split; [lia|]. by apply (printed_app s s1 s2 [] t).
  - by rewrite <- h1, <- h2, <- h5.
Qed.

Lemma emits_assoc {A B} (m : Srv printing A) (k : A → Srv printing B) (l : B → Srv printing unit) t s :
  emits (m ≫= λ a, k a ≫= l) t s → emits ((m ≫= k) ≫= l) t s.
Proof. unfold emits. by rewrite bind_assoc. Qed.

Lemma emits_bind_val {A} (m : Srv printing unit) (v : A) (k : A → Srv printing unit) t1 t2 s :
  emits m t1 s → (∀ s', printed s s' t1 → emits (k v) t2 s') → emits ((m;; mret v) ≫= k) (t1 ++ t2) s.
Proof.
  intros Hm Hk. apply emits_assoc. by apply (emits_bind m (k v)).
Qed.

Lemma emits_numpr n t k s : 0 ≤ n ≤ field_max + 16 → (∀ s', numpr s' = n → emits k t s') →
  emits (update (λ s, s <| numpr := n |>);; k) t s.
Proof.
  intros Hn Hk. eapply (emits_done _ _ _ _ tt); [done| |by apply Hk]. apply printed_nil. split_and!; try done.
Qed.

Lemma PUTCH_emits ch s : emits (PUTCH ch) [ch] s.
Proof.
  intros Hr. unfold PUTCH, full, mbind, Srv_bind, get, update, mret, Srv_ret. destruct (Z.leb_spec (room s) 0) as [Hz|Hz].
  - simpl. split; [lia|]. split; [|done]. replace (Z.to_nat (room s)) with O by lia. simpl. by rewrite app_nil_r.
  - simpl. split; [lia|]. split; try done.
    match goal with |- room ?st = _ => change (room st) with (u32 (room s - 1)) end. apply u32_id. simpl. lia.
Qed.

Lemma PUTSTR_emits l s : emits (PUTSTR l) l s.
Proof.
  revert s. induction l as [|c l IH]; intros s; [apply emits_ret|].
  change (c :: l) with ([c] ++ l) at 2. apply emits_bind; [apply PUTCH_emits|]. intros s' _. apply IH.
Qed.

Lemma fill_with_emits n ch s : emits (fill_with n ch) (replicate n ch) s.
Proof.
  revert s. induction n as [|n IH]; intros s; [apply emits_ret|].
  change (replicate (S n) ch) with ([ch] ++ replicate n ch). apply emits_bind; [apply PUTCH_emits|]. intros s' _. apply IH.
Qed.

Lemma onlyif_emits (b : bool) m t s : (b = true → emits m t s) → emits (onlyif b m) (if b then t else []) s.
Proof. destruct b; intros Hm; [by apply Hm|apply emits_ret]. Qed.

Lemma emits_eq m t t' s : t = t' → emits m t s → emits m t' s.
Proof. by intros ->. Qed.

Lemma RIGHTPAD_emits f n s : emits (RIGHTPAD f n) (if f_left f then spaces_ n else []) s.
Proof.
  eapply emits_eq; [|apply onlyif_emits; intros _; apply fill_with_emits].
  destruct (f_left f); simpl; [|done]. destruct (Z.ltb_spec 0 n); [done|]. unfold spaces_. by replace (Z.to_nat n) with O by lia.
Qed.

Lemma LEFTPAD_emits f n s : emits (LEFTPAD f n) (if f_left f then [] else if f_zero f then zeros_ n else spaces_ n) s.
Proof.
  eapply emits_eq; [|apply onlyif_emits; intros _; apply fill_with_emits].
  destruct (f_left f); simpl; [done|]. unfold zeros_, spaces_.
  destruct (Z.ltb_spec 0 n); [by destruct (f_zero f)|]. replace (Z.to_nat n) with O by lia. by destruct (f_zero f).
Qed.

(** * The digits of a number *)

Definition table_ok (digits : list Z) (base : Z) (upper : bool) : Prop :=
  ∀ d, 0 ≤ d < base → digits !! Z.to_nat d = Some (digit_char upper d).

Lemma convert_numeral digits base upper k : 2 ≤ base → table_ok digits base upper → ∀ m n,
  0 ≤ n < 2 ^ Z.of_nat k → (1 ≤ k ≤ m)%nat →
  convert m digits base n = Some (reverse (digit_char upper <$> numeral_upto k base n)).
Proof.
  intros Hbase Htab. induction k as [|k IH]; intros m n Hn Hk; [lia|]. destruct m as [|m]; [lia|]. cbn [convert numeral_upto].
  assert (Hmod : 0 ≤ n mod base < base) by (apply Z.mod_pos_bound; lia).
  rewrite (Htab _ Hmod). cbn [mbind option_bind]. destruct (Z.ltb_spec n base) as [Hlt|Hge].
  - rewrite Z.div_small, Z.mod_small by lia. done.
  - assert (1 ≤ n / base) by (apply Z.div_le_lower_bound; lia).
    assert (n / base < 2 ^ Z.of_nat k).
    { apply Z.div_lt_upper_bound; [lia|]. rewrite Nat2Z.inj_succ, Z.pow_succ_r in Hn by lia.
      apply (Z.lt_le_trans _ (2 * 2 ^ Z.of_nat k)); [lia|]. apply Z.mul_le_mono_nonneg_r; lia. }
    rewrite (proj2 (Z.ltb_lt 0 (n / base))) by lia. rewrite (IH m (n / base)); [|lia|].
    + cbn [mbind option_bind]. by rewrite fmap_app, reverse_app.
    + destruct k; [simpl in *; lia|lia].
Qed.

Lemma reversed_digits_done digits base upper n s : 2 ≤ base → table_ok digits base upper → 0 ≤ n < 2 ^ 32 →
  reversed_digits digits base n s = Done (reverse (digit_char upper <$> numeral base n)) s.
Proof.
  intros Hb Ht Hn. unfold reversed_digits, numeral. rewrite (convert_numeral digits base upper 32); [done|done|done|done|lia].
Qed.

Lemma numeral_length base n : 2 ≤ base → 0 ≤ n → (1 ≤ length (numeral base n) ≤ 32)%nat.
Proof.
  intros Hb Hn. unfold numeral. enough (∀ k m, (length (numeral_upto k base m) ≤ k)%nat ∧ (1 ≤ k → 1 ≤ length (numeral_upto k base m))%nat) as H.
  { specialize (H 32%nat n). lia. }
  induction k as [|k IH]; intros m; simpl; [lia|]. destruct (m <? base); simpl; [lia|]. rewrite length_app. simpl. specialize (IH (m / base)). lia.
Qed.

Lemma table_check digits base upper :
  Forall (λ d, digits !! Z.to_nat d = Some (digit_char upper d)) (seqZ 0 base) → table_ok digits base upper.
Proof. rewrite Forall_forall. intros H d Hd. apply H. rewrite elem_of_seqZ. lia. Qed.

Lemma table_decimal : table_ok decimal_digits 10 false.
Proof. apply table_check. by repeat constructor. Qed.
Lemma table_hex (upper : bool) : table_ok (if upper then upper_hex_digits else hex_digits) 16 upper.
Proof. destruct upper; apply table_check; by repeat constructor. Qed.
Lemma table_octal : table_ok octal_digits 8 false.
Proof. apply table_check. by repeat constructor. Qed.
Lemma table_binary : table_ok (txt "01") 2 false.
Proof. apply table_check. by repeat constructor. Qed.

Lemma PUTDEC_emits n s : 0 ≤ n < 2 ^ 32 → emits (PUTDEC decimal_digits n) (digit_char false <$> numeral 10 n) s.
Proof.
  intros Hn. unfold PUTDEC. eapply emits_done; [by apply reversed_digits_done with (upper := false); [|apply table_decimal|]|by apply printed_nil|].
  rewrite reverse_involutive. apply PUTSTR_emits.
Qed.

(** * The conversions *)

(** The sign character, if there is one. *)
Definition sign_text (signch : Z) : list Z := if truth signch then [signch] else [].

Lemma i32_small n : - 2 ^ 31 ≤ n < 2 ^ 31 → i32 n = n.
Proof. unfold i32. zlia. Qed.

Lemma spaces_nonpos n : n ≤ 0 → spaces_ n = [].
Proof. intros Hn. unfold spaces_. by replace (Z.to_nat n) with O by lia. Qed.

Lemma print_digits_emits f width base signch ds n s :
  let len := λ l : list Z, Z.of_nat (length l) in let sgn := sign_text signch in let pre := prefix f base in
  len sgn + len pre + len ds ≤ n ≤ field_max + 16 → - field_max ≤ width ≤ field_max →
  emits (print_digits f width base signch (reverse ds) n)
    (sgn ++ pre ++ zeros_ (n - len sgn - len pre - len ds) ++ ds ++
     if f_left f then spaces_ (width - (n - len sgn - len pre) - len sgn) else []) s.
Proof.
  intros len sgn pre Hn Hw. unfold field_max in *. unfold print_digits. apply emits_bind.
  { apply (onlyif_emits _ _ [signch]). intros _. apply PUTCH_emits. }
  intros s1 _. assert (Hs : len sgn = if truth signch then 1 else 0) by (unfold len, sgn, sign_text; by destruct (truth signch)).
  set (n1 := if truth signch then n - 1 else n). assert (Hn1 : n1 = n - len sgn) by (subst n1; destruct (truth signch); lia).
  assert (Hrest : ∀ s, emits (update (λ s, s <| numpr := n1 - len pre |>);;
      fill_with (Z.to_nat (n1 - len pre - Z.of_nat (length (reverse ds)))) 48;; PUTSTR (reverse (reverse ds));;
      RIGHTPAD f (i32 (width - (n1 - len pre) - (if truth signch then 1 else 0))))
    (zeros_ (n - len sgn - len pre - len ds) ++ ds ++
     if f_left f then spaces_ (width - (n - len sgn - len pre) - len sgn) else []) s).
  { intros s2. apply emits_numpr; [unfold len, field_max in *; lia|]. intros s3 _.
    rewrite length_reverse, reverse_involutive, <- Hs, Hn1, i32_small by (unfold len in *; lia).
    repeat (apply emits_bind; [apply fill_with_emits || apply PUTSTR_emits|intros ? _]). apply RIGHTPAD_emits. }
  assert (Hpre : (f_alternate f = false ∨ base ≠ 2 ∧ base ≠ 8 ∧ base ≠ 16) ∧ pre = [] ∨
    f_alternate f = true ∧ (base = 2 ∧ pre = [37] ∨ base = 8 ∧ pre = [48] ∨ base = 16 ∧ pre = [48; 120])).
  { change pre with (prefix f base). unfold prefix. destruct (f_alternate f); [|by left; split; [left|]].
    destruct (Z.eqb_spec base 2), (Z.eqb_spec base 8), (Z.eqb_spec base 16); tauto. }
  destruct Hpre as [[Ha Hp]|[Ha Hp]].
  - rewrite Hp in *. eapply (emits_done _ _ _ _ n1); [|by apply printed_nil|].
    + destruct (f_alternate f); [|done]. destruct Ha as [|(?&?&?)]; [done|].
      by rewrite !(proj2 (Z.eqb_neq _ _)) by done.
    + change (len []) with 0 in *. rewrite (Z.sub_0_r n1) in Hrest. apply Hrest.
  - rewrite Ha. destruct Hp as [[-> Hp]|[[-> Hp]|[-> Hp]]]; rewrite Hp in *.
    all: apply emits_bind_val; [apply PUTCH_emits || apply PUTSTR_emits|intros ? _; apply Hrest].
Qed.

Lemma sign_of_spec f sign uval : 0 ≤ uval < 2 ^ 32 →
  ∃ ch m, sign_of f sign uval = (ch, m) ∧ 0 ≤ m < 2 ^ 32 ∧ m = (if sign then Z.abs (i32 uval) else uval) ∧
    sign_text ch = if sign then signed_prefix f (i32 uval) else [].
Proof.
  intros Hu. destruct sign; [|exists 0, uval; split_and!; done || lia]. pose proof (i32_range uval) as Hr.
  assert (Hpos : 0 ≤ i32 uval → Z.abs (i32 uval) = uval) by (unfold i32 in *; zlia).
  unfold sign_of, signed_prefix. destruct (Z.ltb_spec (i32 uval) 0) as [Hneg|Hneg].
  - rewrite !(proj2 (Z.leb_gt 0 (i32 uval))), !andb_false_r by done. eexists _, _. split; [done|].
    rewrite u32_id by lia. split_and!; [lia|lia|lia|done].
  - rewrite !(proj2 (Z.leb_le 0 (i32 uval))), !andb_true_r, Hpos by done.
    destruct (f_sign f); [|destruct (f_space f)]; eexists _, _; split_and!; try done; lia.
Qed.

Lemma print_number_emits f width precision base digits upper sign uval s :
  2 ≤ base → table_ok digits base upper → 0 ≤ uval < 2 ^ 32 → (sign = true → base = 10 ∧ upper = false) →
  - field_max ≤ width ≤ field_max → precision ≤ field_max →
  emits (print_number f width precision base digits sign uval)
    (if sign then signed_text f width precision (i32 uval) else unsigned_text f width precision base upper uval) s.
Proof.
  intros Hb Ht Hu Hsign Hw Hp. unfold field_max in *.
  destruct (sign_of_spec f sign uval Hu) as (ch&m&Es&Hm&Em&Et). unfold print_number. rewrite Es.
  eapply emits_done; [by apply reversed_digits_done with (upper := upper)|by apply printed_nil|].
  set (ds := digit_char upper <$> numeral base m). set (len := λ l : list Z, Z.of_nat (length l)).
  assert (Hlen : 1 ≤ len ds ≤ 32).
  { unfold len, ds. rewrite length_fmap. pose proof (numeral_length base m Hb ltac:(lia)). lia. }
  rewrite length_reverse. change (Z.of_nat (length ds)) with (len ds).
  eapply emits_eq; [|instantiate (1 := number_text f width precision (extra_zeros f base) (sign_text ch) (prefix f base) ds)].
  { destruct sign; [|unfold unsigned_text; by rewrite Et, <- Em]. destruct Hsign as [-> ->]; [done|]. unfold signed_text. rewrite <- Et, <- Em.
    unfold prefix, extra_zeros. by destruct (f_alternate f). }
  set (body := len ds `max` precision + extra_zeros f base). set (total := len (sign_text ch) + len (prefix f base) + body).
  match goal with |- emits ((if negb _ && (?n <? _) then _ else _) ≫= _) _ _ => assert (Hn : n = total) end.
  { unfold total, body, sign_text, prefix, extra_zeros. rewrite (Z.max_comm (len ds)).
    replace (if precision <? len ds then len ds else precision) with (precision `max` len ds) by (destruct (Z.ltb_spec precision (len ds)); lia).
    rewrite (i32_small (precision `max` len ds + 1)) by lia.
    destruct (truth ch), (f_alternate f); try (unfold len; simpl; lia).
    all: destruct (Z.eqb_spec base 8), (Z.eqb_spec base 16), (Z.eqb_spec base 2); try lia; cbn [orb].
    all: rewrite ?i32_small by lia; unfold len; simpl; lia. }
  rewrite Hn. clear Hn.
  assert (Htotal : len (sign_text ch) + len (prefix f base) + len ds ≤ total ≤ 2 ^ 29 + 16).
  { unfold total, body, sign_text, prefix, extra_zeros. destruct (truth ch), (f_alternate f), (base =? 2), (base =? 8), (base =? 16); unfold len in *; simpl; lia. }
  assert (Hbody : total - len (sign_text ch) - len (prefix f base) = body) by lia.
  change (number_text f width precision (extra_zeros f base) (sign_text ch) (prefix f base) ds) with
    ((if f_left f || f_zero f then [] else spaces_ (width - total)) ++ sign_text ch ++ prefix f base ++
     zeros_ ((if negb (f_left f) && f_zero f && (total <? width) then width - len (sign_text ch) - len (prefix f base) else body) - len ds) ++
     ds ++ (if f_left f then spaces_ (width - len (sign_text ch) - body) else [])).
  pose proof (print_digits_emits f width base ch ds) as Hd. cbv zeta in Hd. change (λ l : list Z, Z.of_nat (length l)) with len in Hd.
  unfold field_max in Hd. destruct (f_left f); cbn [negb andb orb].
  - eapply (emits_done _ _ _ _ total); [done|by apply printed_nil|]. eapply emits_eq; [|apply Hd; lia].
    rewrite Hbody. by replace (width - body - len (sign_text ch)) with (width - len (sign_text ch) - body) by lia.
  - destruct (Z.ltb_spec total width) as [Hlt|Hge].
    + destruct (f_zero f).
      * eapply (emits_done _ _ _ _ width); [done|by apply printed_nil|]. eapply emits_eq; [|apply Hd; lia]. done.
      * apply emits_bind_val; [apply fill_with_emits|]. intros s' _. eapply emits_eq; [|apply Hd; lia]. by rewrite Hbody.
    + eapply (emits_done _ _ _ _ total); [done|by apply printed_nil|]. eapply emits_eq; [|apply Hd; lia].
      rewrite Hbody, spaces_nonpos by lia. rewrite andb_false_r. by destruct (f_zero f).
Qed.

Lemma print_thread_emits t s : 0 ≤ t < 2 ^ 32 → emits (print_thread t) (thread_text t) s.
Proof.
  intros Ht. assert (0 ≤ L4_ThreadNo t < 2 ^ 32) by (unfold L4_ThreadNo; zlia).
  assert (0 ≤ L4_Version t < 2 ^ 32) by (unfold L4_Version; zlia). assert (0 ≤ t / 2 ^ 6 < 2 ^ 32) by zlia.
  unfold print_thread, thread_text, L4_IsNilThread, L4_IsGlobalId, L4_IsLocalId.
  destruct (t =? 0); [apply PUTSTR_emits|]. destruct (t mod 2 ^ 6 =? 0); cbn [negb].
  all: repeat (apply emits_bind; [apply PUTSTR_emits || by apply PUTDEC_emits|intros ? _]); by apply PUTDEC_emits.
Qed.

Lemma length_upto precision l : - field_max ≤ precision →
  Z.of_nat (length (upto precision l)) =
  if (0 <=? precision) && (precision <? Z.of_nat (length l)) then precision else Z.of_nat (length l).
Proof.
  intros Hp. unfold upto. destruct (Z.leb_spec 0 precision); [|done]. rewrite length_take. cbn [andb].
  destruct (Z.ltb_spec precision (Z.of_nat (length l))); lia.
Qed.

Lemma zeros_nonpos n : n ≤ 0 → zeros_ n = [].
Proof. intros Hn. unfold zeros_. by replace (Z.to_nat n) with O by lia. Qed.

(** The output of characters does not change [numpr]. *)
Definition keeps (m : Srv printing unit) : Prop := ∀ s s', m s = Done tt s' → numpr s' = numpr s.

Lemma keeps_bind m k : keeps m → keeps k → keeps (m ≫= λ _, k).
Proof.
  intros Hm Hk s s' E. unfold mbind, Srv_bind in E. destruct (m s) as [[] s1|s1| |] eqn:Em; try done.
  by rewrite (Hk _ _ E), (Hm _ _ Em).
Qed.
Lemma PUTCH_keeps ch : keeps (PUTCH ch).
Proof.
  intros s s' E. unfold PUTCH, full, mbind, Srv_bind, get, update, mret, Srv_ret in E. cbn in E.
  destruct (room s <=? 0); [done|]. by injection E as <-.
Qed.
Lemma PUTSTR_keeps l : keeps (PUTSTR l).
Proof. induction l as [|c l IH]; [by intros s s' [= <-]|]. apply keeps_bind; [apply PUTCH_keeps|done]. Qed.
Lemma fill_with_keeps n ch : keeps (fill_with n ch).
Proof. induction n as [|n IH]; [by intros s s' [= <-]|]. apply keeps_bind; [apply PUTCH_keeps|done]. Qed.
Lemma LEFTPAD_keeps f n : keeps (LEFTPAD f n).
Proof. unfold LEFTPAD. destruct (_ && _); [apply fill_with_keeps|by intros s s' [= <-]]. Qed.

Lemma print_field_emits f width precision l s :
  - field_max ≤ width ≤ field_max → - field_max ≤ precision → Z.of_nat (length l) ≤ field_max → numpr_ok s →
  emits (print_field f width precision l) (string_text f width precision l) s.
Proof.
  intros Hw Hp Hl Hok. pose proof (length_upto precision l Hp) as Ht. set (t := upto precision l) in *.
  assert (Htl : Z.of_nat (length t) ≤ field_max).
  { unfold t, upto. destruct (0 <=? precision); [rewrite length_take|]; lia. }
  unfold print_field. fold t. rewrite <- Ht. unfold numpr_ok, field_max in *.
  assert (Hend : ∀ n s, numpr s = n → 0 ≤ n ≤ 2 ^ 29 + 16 →
    emits (n ← get numpr; RIGHTPAD f (i32 (width - n))) (if f_left f then spaces_ (width - n) else []) s).
  { intros n s1 Hn1 Hn. eapply emits_done; [done|by apply printed_nil|]. rewrite Hn1, i32_small by lia. apply RIGHTPAD_emits. }
  unfold string_text. fold t. destruct (Z.ltb_spec 0 width) as [Hpos|Hneg]; cbn [onlyif].
  - apply emits_assoc, emits_numpr; [unfold field_max; lia|]. intros s1 Hn1.
    eapply emits_eq; [|apply emits_run; [apply LEFTPAD_emits|intros s2 E2 _; apply emits_run; [apply PUTSTR_emits|intros s3 E3 _]]].
    2: { apply (Hend (Z.of_nat (length t))); [|lia]. by rewrite (PUTSTR_keeps _ _ _ E3), (LEFTPAD_keeps _ _ _ _ E2). }
    destruct (f_left f); [done|]. by rewrite app_nil_r.
  - eapply emits_done; [done|by apply printed_nil|].
    rewrite !spaces_nonpos, !zeros_nonpos by lia.
    eapply emits_eq; [|apply emits_run; [apply PUTSTR_emits|intros s1 E1 _; apply (Hend (numpr s)); [by apply (PUTSTR_keeps _ _ _ E1)|lia]]].
    rewrite spaces_nonpos by lia. destruct (f_left f); [done|]. rewrite app_nil_r. by destruct (f_zero f).
Qed.

(** * Reading a format *)

(** [m] reads the format from [l] to [r] and the arguments from [p] to [q]. *)
Definition reads {A} (m : Srv printing A) (a : A) (l r : list Z) (p q : list arg) : Prop :=
  ∀ s, fmt s = l → ap s = p → m s = Done a (s <| fmt := r |> <| ap := q |>).

Lemma reads_bind {A B} (m : Srv printing A) (k : A → Srv printing B) a b l r t p q u :
  reads m a l r p q → reads (k a) b r t q u → reads (m ≫= k) b l t p u.
Proof.
  intros Hm Hk s Hl Hp. rewrite (bind_done _ _ _ _ _ (Hm s Hl Hp)). rewrite Hk by done. by destruct s.
Qed.

Lemma reads_ret {A} (a : A) l p : reads (mret a) a l l p p.
Proof. intros s <- <-. by destruct s. Qed.

Lemma reads_get {A} (f : printing → A) (k : A → Srv printing unit) t s : emits (k (f s)) t s → emits (get f ≫= k) t s.
Proof. done. Qed.

Lemma reads_length {A} (k : nat → Srv printing A) a l r p q :
  reads (k (length l)) a l r p q → reads (get (λ s, length (fmt s)) ≫= k) a l r p q.
Proof. intros Hk s <- Hp. by apply Hk. Qed.

Lemma look_reads c l p : reads look c (c :: l) (c :: l) p p.
Proof. intros s Hl <-. unfold look, mbind, Srv_bind, get. rewrite Hl. rewrite <- Hl. by destruct s. Qed.

Lemma advance_reads c l p : reads advance tt (c :: l) l p p.
Proof. intros s Hl <-. unfold advance, update. f_equal. destruct s. simpl in Hl. by rewrite Hl. Qed.

Lemma next_reads c l p : reads next c (c :: l) l p p.
Proof.
  unfold next. eapply reads_bind; [apply look_reads|]. eapply reads_bind; [apply advance_reads|]. apply reads_ret.
Qed.

Lemma va_word_reads w l p q : pop p = Some (w, q) → reads va_word w l l p q.
Proof.
  intros Hpop s <- Hp. destruct p as [|[w'|] p]; try done. simpl in Hpop. destruct (_ && _); [|done]. injection Hpop as -> ->.
  unfold va_word, mbind, Srv_bind, get. rewrite Hp. by destruct s.
Qed.

(** The flags. *)
Definition add_flag (f : flags) (c : Z) : flags :=
  Flags (f_left f || bool_decide (c = 45)) (f_sign f || bool_decide (c = 43)) (f_space f || bool_decide (c = 32))
    (f_zero f || bool_decide (c = 48)) (f_alternate f || bool_decide (c = 35)).

Lemma foldl_add_flag fl f :
  foldl add_flag f fl = Flags (f_left f || bool_decide (45 ∈ fl)) (f_sign f || bool_decide (43 ∈ fl))
    (f_space f || bool_decide (32 ∈ fl)) (f_zero f || bool_decide (48 ∈ fl)) (f_alternate f || bool_decide (35 ∈ fl)).
Proof.
  revert f. induction fl as [|c fl IH]; intros f; cbn [foldl].
  - destruct f as [[] [] [] [] []]; done.
  - rewrite IH. cbn [add_flag f_left f_sign f_space f_zero f_alternate]. rewrite <- !orb_assoc.
    f_equal; f_equal; rewrite !(bool_decide_ext (_ ∈ c :: fl) (c = _ ∨ _ ∈ fl)) by (rewrite elem_of_cons; split; (intros [?|?]; [by left|by right])).
    all: by rewrite bool_decide_or.
Qed.

Lemma flags_of_foldl fl : foldl add_flag no_flags fl = flags_of fl.
Proof. by rewrite foldl_add_flag. Qed.

Lemma parse_flags_reads fl c l p fuel f :
  Forall is_flag fl → ¬ is_flag c → (length fl < fuel)%nat →
  reads (parse_flags fuel f) (foldl add_flag f fl) (fl ++ c :: l) (c :: l) p p.
Proof.
  intros Hfl Hc. revert fuel f. induction fl as [|a fl IH]; intros [|fuel] f Hfuel; cbn [length] in Hfuel; try lia.
  - cbn [parse_flags foldl app]. eapply reads_bind; [apply look_reads|]. assert (c ≠ 45 ∧ c ≠ 43 ∧ c ≠ 32 ∧ c ≠ 48 ∧ c ≠ 35) as Hne.
    { unfold is_flag, flag_chars in Hc. rewrite !not_elem_of_cons in Hc. tauto. }
    match goal with |- reads ?m _ _ _ _ _ => replace m with (mret f : Srv printing flags); [apply reads_ret|] end.
    destruct Hne as (?&?&?&?&?). repeat (case_match; try lia; try done).
  - apply Forall_cons in Hfl as [Ha Hfl]. cbn [parse_flags foldl app]. eapply reads_bind; [apply look_reads|].
    assert (Hstep : reads (advance;; parse_flags fuel (add_flag f a)) (foldl add_flag (add_flag f a) fl) (a :: fl ++ c :: l) (c :: l) p p).
    { eapply reads_bind; [apply advance_reads|]. apply IH; [done|lia]. }
    unfold is_flag, flag_chars in Ha. rewrite !elem_of_cons, elem_of_nil in Ha. destruct f.
    destruct Ha as [->|[->|[->|[->|[->|[]]]]]]; unfold add_flag in *; simpl in *; rewrite ?orb_false_r, ?orb_true_r in *; exact Hstep.
Qed.

(** Decimal numbers. *)
Definition digit_ok (base d : Z) : Prop := 0 ≤ d < base.
Definition value (base acc : Z) (ds : list Z) : Z := foldl (λ a d, a * base + d) acc ds.

Lemma numeral_upto_digits k base n : 2 ≤ base → 0 ≤ n → Forall (digit_ok base) (numeral_upto k base n).
Proof.
  intros Hb. revert n. induction k as [|k IH]; intros n Hn; [constructor|]. cbn [numeral_upto]. destruct (Z.ltb_spec n base).
  - apply Forall_singleton. unfold digit_ok. lia.
  - apply Forall_app. split; [apply IH, Z.div_pos; lia|]. apply Forall_singleton, Z.mod_pos_bound. lia.
Qed.

(** A digit is read back from the others. *)
Lemma numeral_upto_value k base n : 2 ≤ base → 0 ≤ n < 2 ^ Z.of_nat k → value base 0 (numeral_upto k base n) = n.
Proof.
  intros Hb. revert n. induction k as [|k IH]; intros n Hn; [simpl in *; lia|]. cbn [numeral_upto]. destruct (Z.ltb_spec n base); [done|].
  unfold value in *. rewrite foldl_app, IH; cbn [foldl]; [pose proof (Z.div_mod n base); lia|]. split; [apply Z.div_pos; lia|].
  apply Z.div_lt_upper_bound; [lia|]. rewrite Nat2Z.inj_succ, Z.pow_succ_r in Hn by lia.
  apply (Z.lt_le_trans _ (2 * 2 ^ Z.of_nat k)); [lia|]. apply Z.mul_le_mono_nonneg_r; lia.
Qed.

Lemma numeral_upto_head k base n : 2 ≤ base → 1 ≤ n < 2 ^ Z.of_nat k → ∃ d l, numeral_upto k base n = d :: l ∧ d ≠ 0.
Proof.
  intros Hb. revert n. induction k as [|k IH]; intros n Hn; [simpl in *; lia|]. cbn [numeral_upto].
  destruct (Z.ltb_spec n base); [exists n, []; split; [done|lia]|].
  destruct (IH (n / base)) as (d&l&->&Hd).
  - split; [apply Z.div_le_lower_bound; lia|]. apply Z.div_lt_upper_bound; [lia|].
    rewrite Nat2Z.inj_succ, Z.pow_succ_r in Hn by lia.
    apply (Z.lt_le_trans _ (2 * 2 ^ Z.of_nat k)); [lia|]. apply Z.mul_le_mono_nonneg_r; lia.
  - by exists d, (l ++ [n mod base]).
Qed.

Lemma value_mono base ds acc : 2 ≤ base → Forall (digit_ok base) ds → 0 ≤ acc → acc ≤ value base acc ds.
Proof.
  intros Hb. revert acc. induction ds as [|d ds IH]; intros acc Hds Hacc; [done|]. apply Forall_cons in Hds as [Hd Hds].
  unfold digit_ok in Hd. unfold value in *. cbn [foldl]. specialize (IH (acc * base + d) Hds). nia.
Qed.

Lemma is_digit_char d : digit_ok 10 d → is_digit (digit_char false d) = true ∧ digit_char false d = 48 + d.
Proof. unfold digit_ok, digit_char, is_digit. intros Hd. rewrite (proj2 (Z.ltb_lt d 10)) by lia. split; [|done]. rewrite andb_true_iff. lia. Qed.

Lemma parse_decimal_reads ds c l p fuel acc :
  Forall (digit_ok 10) ds → is_digit c = false → 0 ≤ acc → value 10 acc ds < 2 ^ 31 → (length ds < fuel)%nat →
  reads (parse_decimal fuel acc) (value 10 acc ds) ((digit_char false <$> ds) ++ c :: l) (c :: l) p p.
Proof.
  intros Hds Hc. revert fuel acc. induction ds as [|d ds IH]; intros [|fuel] acc Hacc Hv Hfuel; cbn [length] in Hfuel; try lia.
  - cbn [parse_decimal fmap list_fmap app]. eapply reads_bind; [apply look_reads|]. rewrite Hc. apply reads_ret.
  - apply Forall_cons in Hds as [Hd Hds]. destruct (is_digit_char d Hd) as [Hdig Hch]. unfold digit_ok in Hd.
    pose proof (value_mono 10 ds (acc * 10 + d) ltac:(lia) Hds ltac:(lia)) as Hm. change (value 10 acc (d :: ds)) with (value 10 (acc * 10 + d) ds) in *.
    cbn [parse_decimal fmap list_fmap app]. eapply reads_bind; [apply look_reads|]. rewrite Hdig.
    eapply reads_bind; [apply advance_reads|]. rewrite Hch. replace (48 + d - 48) with d by lia.
    rewrite !i32_small by (rewrite ?i32_small; lia). apply IH; [done|lia|done|lia].
Qed.

Lemma numeral_decimal n : 0 ≤ n < 2 ^ 31 → Forall (digit_ok 10) (numeral 10 n) ∧ value 10 0 (numeral 10 n) = n.
Proof.
  intros Hn. unfold numeral. split; [by apply numeral_upto_digits; lia|]. apply numeral_upto_value; [lia|]. change (2 ^ Z.of_nat 32) with (2 ^ 32). lia.
Qed.

(** A character after a number. *)
Definition after_count (c : Z) : Prop := is_digit c = false ∧ c ≠ 42.

Lemma parse_number_reads cn least c l p q v :
  count_ok least cn → 0 ≤ least → after_count c → count_value cn p = Some (v, q) →
  reads parse_number v (show_count cn ++ c :: l) (c :: l) p q.
Proof.
  intros Hcn Hleast [Hc Hstar] Hv. unfold parse_number. eapply reads_length.
  destruct cn as [| |n]; cbn [show_count app].
  - injection Hv as <- <-. eapply reads_bind; [apply look_reads|]. rewrite (proj2 (Z.eqb_neq _ _) Hstar), Hc. apply reads_ret.
  - simpl in Hv. destruct (pop p) as [[w q']|] eqn:Hpop; [|done]. simpl in Hv. injection Hv as <- <-.
    eapply reads_bind; [apply look_reads|]. simpl. eapply reads_bind; [by apply va_word_reads|].
    eapply reads_bind; [apply advance_reads|]. apply reads_ret.
  - injection Hv as <- <-. simpl in Hcn. destruct (numeral_decimal n) as [Hds Hval]; [lia|].
    pose proof (numeral_length 10 n ltac:(lia) ltac:(lia)) as Hlen. pose proof (parse_decimal_reads (numeral 10 n) c l p) as Hdec.
    destruct (numeral 10 n) as [|d ds] eqn:En; [simpl in Hlen; lia|]. destruct (is_digit_char d) as [Hdig Hch]; [by apply Forall_cons in Hds as [? _]|].
    rewrite fmap_cons. cbn [app]. eapply reads_bind; [apply look_reads|]. rewrite Hdig.
    rewrite (proj2 (Z.eqb_neq _ _)); [|unfold is_digit in Hdig; rewrite andb_true_iff in Hdig; lia].
    rewrite <- Hval. apply Hdec; [done|done|lia|rewrite Hval; lia|]. cbn [length]. rewrite length_app, length_fmap. simpl. lia.
Qed.

(** [m] reads up to [r] and [q], and then prints [t]. *)
Definition steps (m : Srv printing unit) (l : list Z) (p : list arg) (t r : list Z) (q : list arg) : Prop :=
  ∀ s, fmt s = l → ap s = p → numpr_ok s →
    ∃ m', m s = m' (s <| fmt := r |> <| ap := q |>) ∧ emits m' t (s <| fmt := r |> <| ap := q |>).

Lemma steps_bind {A} (m : Srv printing A) (k : A → Srv printing unit) a l l1 p p1 t r q :
  reads m a l l1 p p1 → steps (k a) l1 p1 t r q → steps (m ≫= k) l p t r q.
Proof.
  intros Hm Hk s Hl Hp Hok. rewrite (bind_done _ _ _ _ _ (Hm s Hl Hp)).
  destruct (Hk (s <| fmt := l1 |> <| ap := p1 |>)) as (m'&E&He); [done..|]. exists m'. split; [rewrite E|]; by destruct s.
Qed.

Lemma steps_emits m t l p : (∀ s, numpr_ok s → emits m t s) → steps m l p t l p.
Proof. intros Hm s <- <- Hok. exists m. replace (s <| fmt := fmt s |> <| ap := ap s |>) with s by (by destruct s). auto. Qed.

Lemma steps_length {A} (k : nat → Srv printing A) (h : A → Srv printing unit) l p t r q :
  steps (k (length l) ≫= h) l p t r q → steps (get (λ s, length (fmt s)) ≫= λ n, k n ≫= h) l p t r q.
Proof. intros Hk s <- Hp. by apply Hk. Qed.

(** What follows the width and the precision. *)
Definition conv_rest (d : directive) (l : list Z) : list Z := option_list (d_length d) ++ [conv_char (d_conv d)] ++ l.
Definition precision_rest (d : directive) (l : list Z) : list Z :=
  match d_precision d with None => [] | Some c => 46 :: show_count c end ++ conv_rest d l.

Ltac character := repeat split; unfold is_flag, flag_chars; rewrite ?elem_of_cons, ?elem_of_nil; unfold is_digit; simpl; lia || intuition lia || done.

Lemma conv_rest_head d l : directive_ok d → ∃ c l', conv_rest d l = c :: l' ∧ after_count c ∧ ¬ is_flag c ∧ c ≠ 46.
Proof.
  intros (_&_&_&Hlen). unfold conv_rest. destruct (d_length d) as [c|]; simpl; eexists _, _; (split; [done|]).
  - destruct Hlen as [->|[->| ->]]; character.
  - destruct (d_conv d) as [| |[]| |[]| | | | |]; character.
Qed.

Lemma precision_rest_head d l : directive_ok d → ∃ c l', precision_rest d l = c :: l' ∧ after_count c ∧ ¬ is_flag c.
Proof.
  intros Hd. unfold precision_rest. destruct (d_precision d) as [c|]; simpl.
  - eexists _, _. split; [done|]. character.
  - destruct (conv_rest_head d l Hd) as (c&l'&->&?&?&?). by exists c, l'.
Qed.

Lemma count_head least cn c l :
  count_ok least cn → 1 ≤ least → ¬ is_flag c → ∃ c' l', show_count cn ++ c :: l = c' :: l' ∧ ¬ is_flag c'.
Proof.
  intros Hcn Hleast Hc. destruct cn as [| |n]; simpl.
  - by exists c, l.
  - eexists _, _. split; [done|]. character.
  - simpl in Hcn. destruct (numeral_upto_head 32 10 n) as (d&ds&E&Hd); [lia|change (2 ^ Z.of_nat 32) with (2 ^ 32); lia|].
    destruct (numeral_decimal n) as [Hds _]; [lia|]. unfold numeral in *. rewrite E in *. apply Forall_cons in Hds as [Hdig _].
    destruct (is_digit_char d Hdig) as [_ Hch]. eexists _, _. split; [by rewrite fmap_cons|]. rewrite Hch. unfold digit_ok in Hdig.
    unfold is_flag, flag_chars. rewrite !elem_of_cons, elem_of_nil. lia.
Qed.

Lemma parse_precision_reads d l p q v :
  directive_ok d → count_value (default Unset (d_precision d)) p = Some (v, q) →
  reads parse_precision v (precision_rest d l) (conv_rest d l) p q.
Proof.
  intros Hd Hv. destruct (conv_rest_head d l Hd) as (c&l'&E&Hc&_&Hdot). unfold parse_precision, precision_rest.
  destruct Hd as (_&_&Hp&_). destruct (d_precision d) as [cn|]; cbn [app].
  - eapply reads_bind; [apply look_reads|]. cbn [Z.eqb]. eapply reads_bind; [apply advance_reads|].
    rewrite E. by eapply parse_number_reads.
  - injection Hv as <- <-. rewrite E. eapply reads_bind; [apply look_reads|]. rewrite (proj2 (Z.eqb_neq _ _) Hdot). apply reads_ret.
Qed.

Lemma parse_length_reads d l p : directive_ok d → reads parse_length tt (conv_rest d l) (conv_char (d_conv d) :: l) p p.
Proof.
  intros (_&_&_&Hlen). unfold parse_length, conv_rest. destruct (d_length d) as [c|]; simpl.
  - eapply reads_bind; [apply look_reads|]. rewrite bool_decide_true by tauto. apply advance_reads.
  - eapply reads_bind; [apply look_reads|]. rewrite bool_decide_false; [apply reads_ret|].
    destruct (d_conv d) as [| |[]| |[]| | | | |]; simpl; lia.
Qed.

(** * What printf(3) says

    The text of a format by the C standard (7.21.6.1), where [vsnprintf] follows it: no text
    otherwise.  [%b], [%p], [%t] and a null string are not of the standard; for them the text is
    what the code means: a numeral to the base 2, "0x" and eight digits, the parts of a thread
    id, and "(null)". *)

#[global] Instance count_eq_dec : EqDecision count.
Proof. solve_decision. Defined.
#[global] Instance conv_eq_dec : EqDecision conv.
Proof. solve_decision. Defined.
#[global] Instance directive_eq_dec : EqDecision directive.
Proof. solve_decision. Defined.

Section printf.
Context `{Strings}.












End printf.

Section formats.
Context `{Strings}.

Lemma pop_range p w q : pop p = Some (w, q) → 0 ≤ w < 2 ^ 32.
Proof. destruct p as [|[w'|] p]; simpl; try done. destruct (_ && _) eqn:E; [|done]. rewrite andb_true_iff in E. intros [= <- <-]. lia. Qed.

Lemma steps_word k l p w q t :
  pop p = Some (w, q) → (∀ s, numpr_ok s → emits (k w) t s) → steps (va_word ≫= k) l p t l q.
Proof. intros Hpop Hk. eapply steps_bind; [by apply va_word_reads|by apply steps_emits]. Qed.

Lemma unsigned_steps f width precision base digits upper l p w q :
  pop p = Some (w, q) → 2 ≤ base → table_ok digits base upper → - field_max ≤ width ≤ field_max → precision ≤ field_max →
  steps (va_word ≫= print_number f width precision base digits false) l p (unsigned_text f width precision base upper w) l q.
Proof.
  intros Hpop Hb Ht Hw Hp. apply (steps_word _ l p w); [done|]. intros s _.
  apply (print_number_emits f width precision base digits upper false w s); try done. by eapply pop_range.
Qed.

Lemma PUTARG_steps l p w q : pop p = Some (w, q) → steps PUTARG l p [w] l q.
Proof.
  intros Hpop s <- <- _. set (s' := s <| fmt := _ |> <| ap := _ |>). exists (λ _, PUTARG s). split; [done|]. intros Hr.
  pose proof (PUTCH_emits w s' Hr) as Hput.
  unfold PUTARG, PUTCH, full, mbind, Srv_bind, get, update, mret, Srv_ret in *. change (room s') with (room s) in *.
  destruct (room s <=? 0); [exact Hput|].
  set (s1 := s <| room := _ |>). pose proof (va_word_reads w (fmt s) (ap s) q Hpop s1 eq_refl eq_refl) as Ew. rewrite Ew.
  destruct Hput as [Hle [h1 h2 h3 h4 h5 h6]]. split; [exact Hle|]. split; [exact h1|exact h2|done|done|exact h5|exact h6].
Qed.

Lemma conv_steps c f width precision l p t q :
  conv_text c f width precision p = Some (t, q) → - field_max ≤ width ≤ field_max → - field_max ≤ precision ≤ field_max →
  steps (convert_with f width precision (conv_char c)) l p t l q.
Proof.
  intros Ht Hw Hp. unfold convert_with. destruct c; cbn [conv_text conv_char] in *.
  all: try (destruct (pop p) as [[w q']|] eqn:Hpop; [simpl in Ht|done]); try injection Ht as <- <-.
  - apply unsigned_steps; [done|done|apply table_binary|done|lia].
  - apply unsigned_steps; [done|done|apply table_octal|done|lia].
  - destruct upper; apply unsigned_steps; try done; try apply (table_hex true); try apply (table_hex false); lia.
  - apply unsigned_steps; [done|done|apply (table_hex false)|unfold field_max; lia|unfold field_max; lia].
  - assert (Hd : steps (va_word ≫= print_number f width precision 10 decimal_digits true) l p (signed_text f width precision (i32 w)) l q').
    { apply (steps_word _ l p w); [done|]. intros s _.
      apply (print_number_emits f width precision 10 decimal_digits false true w s); try done; [apply table_decimal|by eapply pop_range|lia]. }
    destruct i; exact Hd.
  - apply unsigned_steps; [done|done|apply table_decimal|done|lia].
  - apply (steps_word _ l p w); [done|]. intros s _. apply print_thread_emits. by eapply pop_range.
  - destruct (w =? 0) eqn:Ez.
    + simpl in Ht. injection Ht as <- <-. apply (steps_word _ l p w); [done|]. intros s _. rewrite Ez. apply PUTSTR_emits.
    + destruct (string_at w) as [str|] eqn:Estr; [simpl in Ht|done]. destruct (Z.leb_spec (Z.of_nat (length str)) field_max); [|done].
      injection Ht as <- <-. apply (steps_word _ l p w); [done|]. intros s Hs. rewrite Ez.
      eapply emits_done; [by rewrite Estr|by apply printed_nil|]. apply print_field_emits; try done. lia.
  - by apply PUTARG_steps.
  - apply steps_emits. intros s _. apply PUTCH_emits.
Qed.

(** One conversion. *)
Lemma conversion_steps d l p t q :
  directive_ok d → directive_text d p = Some (t, q) → steps conversion (show_directive d ++ l) p t l q.
Proof.
  intros Hd Ht. unfold directive_text in Ht. destruct (count_value (d_width d) p) as [[width p1]|] eqn:Ew; [|done]. simpl in Ht.
  destruct (count_value (default Unset (d_precision d)) p1) as [[precision p2]|] eqn:Ep; [|done]. simpl in Ht.
  destruct (sane width && sane precision) eqn:Hs; [|done]. unfold sane in Hs. rewrite !andb_true_iff, !Z.leb_le in Hs.
  destruct Hs as [Hw Hp]. destruct (precision_rest_head d l Hd) as (c1&l1&E1&Hc1&Hf1).
  pose proof Hd as (Hfl&Hwd&_&_). destruct (count_head 1 (d_width d) c1 l1 Hwd) as (c2&l2&E2&Hf2); [lia|done|].
  assert (El : show_directive d ++ l = d_flags d ++ c2 :: l2).
  { unfold show_directive. rewrite <- E2, <- E1. unfold precision_rest, conv_rest. by rewrite <- !(assoc_L app). }
  rewrite El. unfold conversion. apply steps_length. eapply steps_bind.
  { apply parse_flags_reads; [done|done|]. rewrite length_app. simpl. lia. }
  rewrite <- E2. eapply steps_bind; [by eapply parse_number_reads|]. rewrite <- E1.
  eapply steps_bind; [by apply parse_precision_reads|]. eapply steps_bind; [by apply parse_length_reads|].
  eapply steps_bind; [apply next_reads|]. rewrite flags_of_foldl.
  by apply conv_steps.
Qed.
(** The rest of the output is [t], as much of it as there is room for. *)
Definition final (m : Srv printing unit) (t : list Z) (s : printing) : Prop :=
  match m s with
  | Done _ s' | Halted s' => str s' = str s ++ take (Z.to_nat (room s)) (u8 <$> t) ∧ stores s' = stores s
  | _ => False
  end.

Lemma emits_final m k t1 t2 s :
  0 ≤ room s < 2 ^ 32 → emits m t1 s → (∀ s', printed s s' t1 → Z.of_nat (length t1) ≤ room s → final k t2 s') →
  final (m ≫= λ _, k) (t1 ++ t2) s.
Proof.
  intros Hr Hm Hk. specialize (Hm Hr). unfold final, mbind, Srv_bind. rewrite fmap_app.
  destruct (m s) as [[] s1|s1| |]; try done.
  - destruct Hm as [Hle Hp]. specialize (Hk s1 Hp Hle). unfold final in Hk. rewrite (pr_str _ _ _ Hp), (pr_room _ _ _ Hp), (pr_stores _ _ _ Hp) in Hk.
    rewrite take_app_ge by (rewrite length_fmap; lia). rewrite length_fmap, (assoc_L app).
    replace (Z.to_nat (room s) - length t1)%nat with (Z.to_nat (room s - Z.of_nat (length t1))) by lia. exact Hk.
  - destruct Hm as (Hlt&Hs&Hst). rewrite take_app_le by (rewrite length_fmap; lia). done.
Qed.

Lemma show_cons i its : show (i :: its) = show_item i ++ show its.
Proof. unfold show. rewrite bind_cons. by rewrite <- (assoc_L app). Qed.

(** One character of the format outside of conversions. *)
Lemma copy_step k c l s :
  fmt s = c :: l → c ≠ 37 → 0 ≤ room s < 2 ^ 32 →
  copy_until_percent (S k) s =
    if (room s <=? 0) || (c =? 0) then Halted (s <| fmt := l |> <| room := u32 (room s - 1) |>)
    else copy_until_percent k (s <| fmt := l |> <| room := room s - 1 |> <| str ::= λ l, l ++ [u8 c] |>).
Proof.
  intros Hl Hc Hr. cbn [copy_until_percent]. rewrite (bind_done _ _ _ _ _ (next_reads c l (ap s) s Hl eq_refl)).
  rewrite (proj2 (Z.eqb_neq _ _) Hc). unfold full. rewrite !bind_assoc.
  erewrite bind_done by done. rewrite bind_assoc. erewrite bind_done by done. erewrite bind_done by done.
  assert (E : s <| fmt := l |> <| ap := ap s |> = s <| fmt := l |>) by (by destruct s). rewrite E.
  change (room (s <| fmt := l |>)) with (room s).
  destruct (Z.leb_spec (room s) 0); cbn [orb]; [done|]. destruct (c =? 0); [done|].
  erewrite bind_done by done. rewrite (u32_id (room s - 1)) by lia. done.
Qed.

Lemma final_same m m' t s s' :
  m s = m' s' → str s' = str s → room s' = room s → stores s' = stores s → final m' t s' → final m t s.
Proof. unfold final. by intros -> -> -> ->. Qed.

Lemma final_reads {A} (m : Srv printing A) k (a : A) l r p q t s :
  reads m a l r p q → fmt s = l → ap s = p → final (k a) t (s <| fmt := r |> <| ap := q |>) → final (m ≫= k) t s.
Proof.
  intros Hm Hl Hp. apply final_same; [|done..]. by rewrite (bind_done _ _ _ _ _ (Hm s Hl Hp)).
Qed.

(** The loop goes on while there is room. *)
Lemma vloop_final fuel t s :
  0 ≤ room s → (0 < room s → final (copy_until_percent (S (length (fmt s)));; conversion;; vloop fuel) t s) → final (vloop (S fuel)) t s.
Proof.
  intros Hr Hk. destruct (Z.ltb_spec 0 (room s)) as [Hpos|Hneg].
  - eapply final_same; [|done..|by apply Hk]. cbn [vloop]. erewrite bind_done by done. rewrite (proj2 (Z.ltb_lt 0 (room s))) by done.
    by erewrite bind_done by done.
  - unfold final. cbn [vloop]. erewrite bind_done by done. rewrite (proj2 (Z.ltb_ge 0 (room s))) by done.
    replace (Z.to_nat (room s)) with O by lia. cbn. split; [|done]. by rewrite app_nil_r.
Qed.

Lemma loop_final its : ∀ p t fuel k s,
  Forall item_ok its → text its p = Some t → fmt s = show its → ap s = p → numpr_ok s → 0 ≤ room s < 2 ^ 32 →
  (length (show its) ≤ S fuel)%nat → (length (show its) ≤ k)%nat →
  final (copy_until_percent k;; conversion;; vloop fuel) t s.
Proof.
  induction its as [|[c|d] its IH]; intros p t fuel k s Hok Ht Hl Hp Hn Hr Hf Hk.
  - injection Ht as <-. destruct k as [|k]; [simpl in Hk; lia|]. unfold final, mbind at 1, Srv_bind at 1.
    rewrite (copy_step k 0 [] s Hl) by done. rewrite orb_true_r. cbn. split; [|done]. by rewrite take_nil, app_nil_r.
  - apply Forall_cons in Hok as [[Hc0 Hc] Hok]. rewrite show_cons in Hl, Hf, Hk. cbn [show_item app length] in Hl, Hf, Hk.
    destruct k as [|k]; [lia|]. simpl in Ht. destruct (text its p) as [t'|] eqn:Et; [|done]. injection Ht as <-.
    unfold final, mbind at 1, Srv_bind at 1. rewrite (copy_step k c _ s Hl) by done. rewrite (proj2 (Z.eqb_neq c 0)), orb_false_r by done.
    destruct (Z.leb_spec (room s) 0).
    + replace (Z.to_nat (room s)) with O by lia. cbn. split; [|done]. by rewrite app_nil_r.
    + set (s1 := s <| fmt := _ |> <| room := _ |> <| str ::= _ |>).
      assert (final (copy_until_percent k;; conversion;; vloop fuel) t' s1) as Hfin.
      { apply (IH p); [done|done|done|done|done|change (room s1) with (room s - 1); lia|lia|lia]. }
      unfold final, mbind at 1, Srv_bind at 1 in Hfin. change (str s1) with (str s ++ [u8 c]) in Hfin.
      change (room s1) with (room s - 1) in Hfin. change (stores s1) with (stores s) in Hfin.
      rewrite fmap_cons. replace (Z.to_nat (room s)) with (S (Z.to_nat (room s - 1))) by lia.
      rewrite firstn_cons. rewrite <- (assoc_L app) in Hfin. exact Hfin.
  - apply Forall_cons in Hok as [Hd Hok]. rewrite show_cons in Hl, Hf, Hk. cbn [show_item app length] in Hl, Hf, Hk.
    destruct k as [|k]; [lia|]. simpl in Ht. destruct (directive_text d p) as [[t1 q]|] eqn:Et1; [|done]. simpl in Ht.
    destruct (text its q) as [t'|] eqn:Et; [|done]. injection Ht as <-.
    rewrite (length_app (show_directive d)) in Hf, Hk.
    apply (final_reads _ _ tt (37 :: show_directive d ++ show its) (show_directive d ++ show its) p p); [|done|done|].
    { cbn [copy_until_percent]. eapply reads_bind; [apply next_reads|apply reads_ret]. }
    set (s1 := s <| fmt := _ |> <| ap := _ |>).
    destruct (conversion_steps d (show its) p t1 q Hd Et1 s1) as (m'&Em&He); [done..|]. set (s2 := s1 <| fmt := _ |> <| ap := _ |>) in *.
    apply (final_same _ (m' ≫= λ _, vloop fuel) _ s1 s2); [unfold mbind, Srv_bind; by rewrite Em|done..|].
    apply emits_final; [done|exact He|]. intros s3 Hp3 Hle. pose proof Hp3 as [h1 h2 h3 h4 h5 h6].
    change (room s2) with (room s) in *. destruct fuel as [|fuel].
    { unfold show in Hf. rewrite length_app in Hf. simpl in Hf. lia. }
    apply vloop_final; [lia|]. intros Hpos. apply (IH q); [done|done|by rewrite h3|by rewrite h4|by apply h6|lia|lia|rewrite h3; change (fmt s2) with (show its); lia].
Qed.

Lemma vsnprintf_text its args t size :
  Forall item_ok its → text its args = Some t → 1 ≤ size < 2 ^ 32 →
  let stored := take (Z.to_nat (size - 1)) (u8 <$> t) in
  vsnprintf size (Some (show its)) args = Stores (stored ++ [0]) [] (Z.of_nat (length stored)).
Proof.
  intros Hok Ht Hsize stored. unfold vsnprintf. set (s := Printing _ _ _ _ _ _).
  assert (Hroom : room s = size - 1) by (change (room s) with (u32 (size - 1)); apply u32_id; lia).
  assert (final (vloop (S (length (show its)))) t s) as Hfin.
  { apply vloop_final; [lia|]. intros Hpos.
    apply (loop_final its args); [done|done|done|done|by split|lia|lia|change (fmt s) with (show its); lia]. }
  unfold final in Hfin. rewrite Hroom in Hfin. fold stored in Hfin. simpl default.
  destruct (vloop (S (length (show its))) s) as [a s'|s'| |]; try done; destruct Hfin as [-> ->]; done.
Qed.


(** Where the code and the standard part; the standard would print, in this order: "101" with a
    prefix of its own, the field of 10 characters, "    a", "0", "010", "0XFF", "   005", an empty text, "1",
    "7   ". *)
Lemma printf_differences :
  let prints := fun format args text =>
    vsnprintf 100 (Some (txt format ++ [0])) args = Stores (txt text ++ [0]) [] (Z.of_nat (length (txt text))) in
  prints "%#b" [Word 5] "%0101" ∧
  prints "%#-10x|" [Word 255] "0xff        |" ∧
  prints "%5c" [Word 97] "a" ∧
  prints "%#x" [Word 0] "0x0" ∧
  prints "%#.3o" [Word 8] "0010" ∧
  prints "%#X" [Word 255] "0xFF" ∧
  prints "%06.3d" [Word 5] "000005" ∧
  prints "%.0d" [Word 0] "0" ∧
  prints "%hu" [Word 65537] "65537" ∧
  prints "%*d" [Word (2 ^ 32 - 4); Word 7] "7".
Proof. repeat split; by vm_compute. Qed.
End formats.

(** * The fraction of a double *)

Lemma digits2_bounds m : 2 ^ (Zpos (digits2_pos m) - 1) ≤ Zpos m < 2 ^ Zpos (digits2_pos m).
Proof.
  induction m as [m IH|m IH|]; cbn [digits2_pos]; rewrite ?Pos2Z.inj_succ; [| |simpl; lia].
  all: rewrite Z.pow_succ_r by lia; replace (Z.succ (Zpos (digits2_pos m)) - 1) with (Z.succ (Zpos (digits2_pos m) - 1)) by lia.
  all: rewrite Z.pow_succ_r by lia; lia.
Qed.
(** The number of digits is the one that fits. *)
Lemma digits2_unique m k : 2 ^ (k - 1) ≤ Zpos m < 2 ^ k → Zpos (digits2_pos m) = k.
Proof.
  intros Hm. pose proof (digits2_bounds m) as Hd.
  destruct (Z.lt_trichotomy (Zpos (digits2_pos m)) k) as [Hlt|[|Hlt]]; [|done|]; exfalso.
  - pose proof (Z.pow_le_mono_r 2 (Zpos (digits2_pos m)) (k - 1) ltac:(lia) ltac:(lia)). lia.
  - pose proof (Z.pow_le_mono_r 2 k (Zpos (digits2_pos m) - 1) ltac:(lia) ltac:(lia)). lia.
Qed.
Lemma digits2_le m k : 0 ≤ k → Zpos m < 2 ^ k → Zpos (digits2_pos m) ≤ k.
Proof.
  intros Hk Hm. destruct (Z.le_gt_cases (Zpos (digits2_pos m)) k); [done|]. pose proof (digits2_bounds m).
  pose proof (Z.pow_le_mono_r 2 k (Zpos (digits2_pos m) - 1) ltac:(lia) ltac:(lia)). lia.
Qed.

Lemma pos_iter_xO m d : Zpos (Pos.iter xO m d) = Zpos m * 2 ^ Zpos d.
Proof.
  induction d as [|d IH] using Pos.peano_ind; [simpl; lia|].
  rewrite Pos.iter_succ, Pos2Z.inj_succ, Z.pow_succ_r, Pos2Z.inj_xO, IH by lia. lia.
Qed.
Lemma shl_align_le m e e' : e' ≤ e → ∃ mz, shl_align m e e' = (mz, e') ∧ Zpos mz = Zpos m * 2 ^ (e - e').
Proof.
  intros He. unfold shl_align. destruct (e' - e) as [|d|d] eqn:E; [|lia|].
  - exists m. replace e' with e by lia. by rewrite Z.sub_diag, Z.mul_1_r.
  - eexists. split; [done|]. rewrite pos_iter_xO. do 2 f_equal. lia.
Qed.
Lemma shl_align_ge m e e' : e ≤ e' → shl_align m e e' = (m, e).
Proof. intros He. unfold shl_align. destruct (e' - e) as [|d|d] eqn:E; [done|done|lia]. Qed.

Lemma shr_1_m r : 0 ≤ shr_m r → shr_m (shr_1 r) = shr_m r / 2.
Proof. destruct r as [[|[p|p|]|p] ? ?]; simpl; intros; try lia; zlia. Qed.
Lemma iter_shr_m p r : 0 ≤ shr_m r → shr_m (SpecFloat.iter_pos shr_1 p r) = shr_m r / 2 ^ Zpos p.
Proof.
  revert r. induction p as [p IH|p IH|]; intros r Hr; cbn [SpecFloat.iter_pos].
  - assert (0 ≤ shr_m (shr_1 r)) by (rewrite shr_1_m by done; by apply Z.div_pos).
    rewrite !IH, shr_1_m; [|done|done|rewrite IH by done; apply Z.div_pos; lia].
    rewrite !Z.div_div by lia. f_equal. rewrite (Pos2Z.inj_xI p), Z.pow_add_r, Z.mul_comm, <- Z.add_diag, Z.pow_add_r by lia. lia.
  - rewrite !IH; [|done|rewrite IH by done; apply Z.div_pos; lia].
    rewrite Z.div_div by lia. f_equal. by rewrite (Pos2Z.inj_xO p), <- Z.add_diag, Z.pow_add_r by lia.
  - by apply shr_1_m.
Qed.

(** A shift to the right by [n], if that is positive. *)
Lemma shr_spec m l e n : 0 ≤ m → shr_m (shr (shr_record_of_loc m l) e n).1 = m / 2 ^ (n `max` 0) ∧ (shr (shr_record_of_loc m l) e n).2 = e + n `max` 0.
Proof.
  intros Hm. assert (Er : shr_m (shr_record_of_loc m l) = m) by (by destruct l as [|[]]).
  destruct n as [|p|p]; simpl.
  - by rewrite Er, Z.div_1_r, Z.add_0_r.
  - by rewrite iter_shr_m, Er by (by rewrite Er).
  - by rewrite Er, Z.div_1_r, Z.add_0_r.
Qed.

Lemma round_near m l : m ≤ round_nearest_even m l ≤ m + 1.
Proof. destruct l as [|[]]; simpl; try lia. destruct (Z.even m); lia. Qed.

(** Not above 1: 0, 1 itself, or below the smallest exponent of the doubles from 1 on. *)
Definition one : spec_float := S754_finite false 4503599627370496 (-52).
Inductive below_one : spec_float → Prop :=
  | below_zero s : below_one (S754_zero s)
  | below_itself : below_one one
  | below_small m e : e < -52 → below_one (S754_finite false m e).

Lemma rounded_below m1 t :
  0 ≤ m1 ≤ 2 ^ 53 → -1074 ≤ t ≤ -53 →
  below_one (let '(mrs, e) := shr_fexp 53 1024 m1 t loc_Exact in
    match shr_m mrs with
    | Z0 => S754_zero false
    | Zpos m => if e <=? 971 then S754_finite false m e else S754_infinity false
    | _ => S754_nan
    end).
Proof.
  intros Hm Ht. destruct (decide (m1 = 2 ^ 53)) as [->|Hne].
  - change (shr_fexp 53 1024 (2 ^ 53) t loc_Exact) with (shr (shr_record_of_loc (2 ^ 53) loc_Exact) t (((54 + t) - 53) `max` (-1074) - t)).
    replace (((54 + t) - 53) `max` (-1074) - t) with 1 by lia. simpl. rewrite (proj2 (Z.leb_le _ _)) by lia.
    destruct (decide (t = -53)) as [->|]; [apply below_itself|apply below_small; lia].
  - assert (Hn : shr_fexp 53 1024 m1 t loc_Exact = (shr_record_of_loc m1 loc_Exact, t)).
    { unfold shr_fexp. assert (Hz : fexp 53 1024 (Zdigits2 m1 + t) - t ≤ 0).
      { unfold fexp, emin. destruct m1 as [|m1|m1]; simpl Zdigits2; [lia| |lia]. pose proof (digits2_le m1 53). lia. }
      unfold shr. by destruct (fexp 53 1024 (Zdigits2 m1 + t) - t). }
    rewrite Hn. simpl. destruct m1 as [|m1|]; [apply below_zero| |lia]. rewrite (proj2 (Z.leb_le _ _)) by lia. apply below_small. lia.
Qed.

Lemma binary_round_below m e : e < 0 → Zpos m < 2 ^ (- e) → below_one (binary_round 53 1024 false m e).
Proof.
  intros He Hm. unfold binary_round. set (D := Zpos (digits2_pos m) + e).
  assert (HD : D ≤ 0) by (pose proof (digits2_le m (- e)); unfold D; lia).
  set (t := fexp 53 1024 D). assert (Ht : t = (D - 53) `max` (-1074)) by done. clearbody t.
  assert (∃ mz ez, shl_align m e t = (mz, ez) ∧ ez ≤ t ∧ Zpos (digits2_pos mz) + ez = D) as (mz&ez&->&Hez&HD').
  { pose proof (digits2_bounds m) as Hd. destruct (Z.le_gt_cases e t) as [Hle|Hgt].
    - rewrite shl_align_ge by done. by exists m, e.
    - destruct (shl_align_le m e t ltac:(lia)) as (mz&->&E). exists mz, t. split_and!; [done|lia|].
      enough (Zpos (digits2_pos mz) = Zpos (digits2_pos m) + (e - t)) as -> by (unfold D; lia).
      apply digits2_unique. rewrite E.
      replace (Zpos (digits2_pos m) + (e - t) - 1) with (Zpos (digits2_pos m) - 1 + (e - t)) by lia.
      rewrite !Z.pow_add_r by lia. nia. }
  unfold binary_round_aux.
  change (shr_fexp 53 1024 (Zpos mz) ez loc_Exact)
    with (shr (shr_record_of_loc (Zpos mz) loc_Exact) ez (((Zpos (digits2_pos mz) + ez) - 53) `max` (-1074) - ez)).
  rewrite HD', <- Ht. destruct (shr_spec (Zpos mz) loc_Exact ez (t - ez)) as [Em Ee]; [done|].
  destruct (shr _ ez (t - ez)) as [r e']. simpl in Em, Ee. replace e' with t by lia. rewrite Z.max_l in Em by lia.
  apply (rounded_below _ t); [|lia]. pose proof (round_near (shr_m r) (loc_of_shr_record r)).
  assert (0 ≤ shr_m r < 2 ^ 53); [|lia]. rewrite Em. pose proof (digits2_bounds mz) as Hz. split; [apply Z.div_pos; lia|].
  apply Z.div_lt_upper_bound; [lia|]. rewrite <- Z.pow_add_r by lia.
  pose proof (Z.pow_le_mono_r 2 (Zpos (digits2_pos mz)) (t - ez + 53) ltac:(lia) ltac:(lia)). lia.
Qed.

(** A word is a double. *)
Lemma dbl_word u : 0 < u < 2 ^ 32 → ∃ k m, 0 ≤ k ∧ dbl u = S754_finite false m (- k) ∧ Zpos m = u * 2 ^ k.
Proof.
  intros Hu. destruct u as [|u|u]; [lia| |lia]. pose proof (digits2_le u 32 ltac:(lia) ltac:(lia)) as Hd.
  set (k := 53 - Zpos (digits2_pos u)). assert (21 ≤ k ≤ 52) by lia. exists k.
  assert (Et : fexp 53 1024 (Zpos (digits2_pos u) + 0) = - k) by (unfold fexp, emin; lia).
  unfold dbl, binary_normalize, binary_round. rewrite Et.
  destruct (shl_align_le u 0 (- k) ltac:(lia)) as (m&->&Em). exists m.
  rewrite Z.sub_opp_r, Z.add_0_l in Em. split_and!; [lia| |done].
  assert (Hm : Zpos (digits2_pos m) = 53).
  { apply digits2_unique. rewrite Em. pose proof (digits2_bounds u).
    replace (53 - 1) with (Zpos (digits2_pos u) - 1 + k) by lia. replace 53 with (Zpos (digits2_pos u) + k) by lia. rewrite !Z.pow_add_r by lia. nia. }
  assert (Hs : shr_fexp 53 1024 (Zpos m) (- k) loc_Exact = (shr_record_of_loc (Zpos m) loc_Exact, - k)).
  { unfold shr_fexp. simpl Zdigits2. rewrite Hm. replace (fexp 53 1024 (53 + - k) - - k) with 0 by (unfold fexp, emin; lia). done. }
  unfold binary_round_aux. rewrite Hs. simpl. rewrite Hs. simpl. by rewrite (proj2 (Z.leb_le _ _)) by lia.
Qed.

(** What is left of a double from 1 on without its integer part. *)
Lemma fraction_below x u :
  valid_binary 53 1024 x = true → SFleb (dbl 1) x = true → ulong_of x = Some u → below_one (dbl_sub x (dbl u)).
Proof.
  intros Hv Hge Hu. change (dbl 1) with one in Hge.
  destruct x as [|[]| |[] m e]; try done. simpl in Hu. rewrite Z.mul_1_l in *.
  set (t := if 0 <=? e then Zpos m * 2 ^ e else Zpos m / 2 ^ (- e)) in *.
  assert (Et : t = if 0 <=? e then Zpos m * 2 ^ e else Zpos m / 2 ^ (- e)) by done. clearbody t.
  destruct ((0 <=? t) && (t <? 2 ^ 32)) eqn:Er; [|done]. injection Hu as ->. rewrite andb_true_iff, Z.leb_le, Z.ltb_lt in Er.
  simpl in Hv. unfold SpecFloat.bounded, canonical_mantissa in Hv. rewrite andb_true_iff, Z.eqb_eq in Hv.
  unfold fexp, emin in Hv. pose proof (digits2_bounds m) as Hd.
  assert (Hm : -52 ≤ e ∧ (e < 0 → 2 ^ 52 ≤ Zpos m)).
  { unfold SFleb in Hge. cbn [one SFcompare] in Hge. destruct (Z.compare_spec (-52) e); try done; (split; [lia|intros He]).
    - replace (Zpos (digits2_pos m)) with 53 in Hd by lia. lia.
    - replace (Zpos (digits2_pos m)) with 53 in Hd by lia. lia. }
  (* The integer part, in the unit of [x]. *)
  assert (Hpart : 0 < u ∧ ∀ z, z ≤ e → z ≤ 0 → 0 ≤ Zpos m * 2 ^ (e - z) - u * 2 ^ (- z) < 2 ^ (- z)).
  { destruct (Z.leb_spec 0 e).
    - rewrite Et. split; [apply Z.mul_pos_pos; lia|]. intros z Hz Hz0. rewrite <- Z.mul_assoc, <- Z.pow_add_r by lia.
      replace (e + - z) with (e - z) by lia. lia.
    - pose proof (Z.pow_le_mono_r 2 (- e) 52 ltac:(lia) ltac:(lia)). split; [rewrite Et; apply Z.div_str_pos; lia|].
      intros z Hz _. replace (- z) with (- e + (e - z)) by lia. rewrite Z.pow_add_r by lia.
      pose proof (Z.div_mod (Zpos m) (2 ^ (- e))) as Hdm. pose proof (Z.mod_pos_bound (Zpos m) (2 ^ (- e))). rewrite <- Et in Hdm. nia. }
  destruct Hpart as [Hu Hpart]. destruct (dbl_word u ltac:(lia)) as (k&mu&Hk&->&Emu).
  unfold dbl_sub, SFsub. set (z := e `min` (- k)). cbn [cond_Zopp].
  destruct (shl_align_le m e z) as (a&->&Ea); [lia|]. destruct (shl_align_le mu (- k) z) as (b&->&Eb); [lia|]. cbn [fst].
  specialize (Hpart z ltac:(lia) ltac:(lia)).
  assert (Eab : Zpos a - Zpos b = Zpos m * 2 ^ (e - z) - u * 2 ^ (- z)).
  { rewrite Ea, Eb, Emu, <- Z.mul_assoc, <- Z.pow_add_r by lia. do 2 f_equal. f_equal. lia. }
  rewrite <- Eab in Hpart. destruct (Zpos a - Zpos b) as [|c|c]; [apply below_zero| |lia].
  apply binary_round_below; [|lia]. destruct (decide (z = 0)) as [Ez|]; [rewrite Ez in Hpart; simpl in Hpart; lia|lia].
Qed.

(** The loop ends at the second round, or the third when the fraction has been rounded to 1. *)
Lemma fraction_ends x s : valid_binary 53 1024 x = true → fraction 2 x s ≠ Spins.
Proof.
  intros Hv. cbn [fraction]. destruct (SFleb (dbl 1) x) eqn:Hge; [|done].
  destruct (ulong_of x) as [u|] eqn:Hu; [|done]. erewrite bind_done by done.
  destruct (fraction_below x u Hv Hge Hu) as [sg| |m e He]; [done|by vm_compute|].
  change (dbl 1) with one. unfold SFleb. cbn [one SFcompare]. by destruct (Z.compare_spec (-52) e); try lia.
Qed.

(** * Bounds and ends, for any format *)

(** A double of the machine. *)
Definition arg_ok (a : arg) : Prop := match a with Word _ => True | Double d => valid_binary 53 1024 d = true end.
Definition fine (s : printing) : Prop := 0 ≤ room s < 2 ^ 32 ∧ Forall arg_ok (ap s).

(** From [s], [m] only stores into the room there is, does not go back in the format, and ends. *)
Definition bounded_at {A} (m : Srv printing A) (s : printing) : Prop :=
  match m s with
  | Done _ s' => 0 ≤ room s' ∧ Z.of_nat (length (str s')) + room s' = Z.of_nat (length (str s)) + room s ∧ room s' ≤ room s ∧
      Forall arg_ok (ap s') ∧ (length (fmt s') ≤ length (fmt s))%nat
  | Halted s' => Z.of_nat (length (str s')) ≤ Z.of_nat (length (str s)) + room s
  | Undefined => True
  | Spins => False
  end.
Definition bounded {A} (m : Srv printing A) : Prop := ∀ s, fine s → bounded_at m s.

Lemma bounded_at_bind {A B} (m : Srv printing A) (k : A → Srv printing B) s :
  fine s → bounded_at m s → (∀ a s', m s = Done a s' → fine s' → bounded_at (k a) s') → bounded_at (m ≫= k) s.
Proof.
  intros [Hs _] Hm Hk. unfold bounded_at, mbind, Srv_bind in *. destruct (m s) as [a s1| | |]; try done.
  destruct Hm as (H1&H2&H3&H4&H5). specialize (Hk a s1 eq_refl (conj (conj H1 (Z.le_lt_trans _ _ _ H3 (proj2 Hs))) H4)).
  destruct (k a s1); try done; [|lia]. destruct Hk as (K1&K2&K3&K4&K5). split_and!; try done; lia.
Qed.
Lemma bounded_bind {A B} (m : Srv printing A) (k : A → Srv printing B) :
  bounded m → (∀ a, bounded (k a)) → bounded (m ≫= k).
Proof. intros Hm Hk s Hs. apply bounded_at_bind; [done|by apply Hm|]. intros a s' _. apply Hk. Qed.
Lemma bounded_ret {A} (a : A) : bounded (mret a).
Proof. intros s [Hs Ha]. unfold bounded_at. simpl. split_and!; done || lia. Qed.
Lemma bounded_get {A} (f : printing → A) : bounded (get f).
Proof. intros s [Hs Ha]. unfold bounded_at. simpl. split_and!; done || lia. Qed.
Lemma bounded_undefined {A} : bounded (undefined (A := A)).
Proof. by intros s Hs. Qed.
Lemma bounded_halt {A} : bounded (halt (A := A)).
Proof. intros s [Hs _]. unfold bounded_at. simpl. lia. Qed.
Lemma bounded_follow {A} (o : option A) : bounded (follow o).
Proof. destruct o; [apply bounded_ret|apply bounded_undefined]. Qed.
Lemma bounded_onlyif b m : bounded m → bounded (onlyif b m).
Proof. destruct b; [done|intros _; apply bounded_ret]. Qed.
Lemma bounded_update f :
  (∀ s, str (f s) = str s ∧ room (f s) = room s ∧ ap (f s) = ap s ∧ fmt (f s) = fmt s) → bounded (update f).
Proof.
  intros Hf s [Hs Ha]. destruct (Hf s) as (E1&E2&E3&E4). unfold bounded_at. simpl. rewrite E1, E2, E3, E4. split_and!; done || lia.
Qed.

(** [size--] and the store after it *)
Lemma bounded_store ch b : bounded (b' ← full; if (b' : bool) || b then halt else put ch).
Proof.
  intros s [Hs Ha]. unfold bounded_at, full, mbind, Srv_bind, get, update, mret, Srv_ret. destruct (Z.leb_spec (room s) 0); cbn.
  - change (str (s <| room := u32 (room s - 1) |>)) with (str s). lia.
  - destruct b; cbn; [change (str (s <| room := u32 (room s - 1) |>)) with (str s); lia|].
    match goal with |- _ ≤ room ?st ∧ _ => change (room st) with (u32 (room s - 1)); change (str st) with (str s ++ [u8 ch]) end.
    rewrite u32_id, length_app by lia. simpl. split_and!; done || lia.
Qed.

Lemma bounded_PUTCH ch : bounded (PUTCH ch).
Proof.
  intros s Hs. pose proof (bounded_store ch false s Hs) as H. revert H.
  unfold bounded_at, PUTCH, mbind, Srv_bind. destruct (full s) as [b| | |]; [|done..]. by rewrite orb_false_r.
Qed.
Lemma bounded_PUTSTR l : bounded (PUTSTR l).
Proof. induction l as [|c l IH]; [apply bounded_ret|]. apply bounded_bind; [apply bounded_PUTCH|by intros]. Qed.
Lemma bounded_fill n ch : bounded (fill_with n ch).
Proof. induction n as [|n IH]; [apply bounded_ret|]. apply bounded_bind; [apply bounded_PUTCH|by intros]. Qed.

Create HintDb bounded.
#[export] Hint Resolve bounded_ret bounded_get bounded_undefined bounded_halt bounded_follow bounded_PUTCH
  bounded_PUTSTR bounded_fill : bounded.

(** Compositions of them. *)
Ltac bounded :=
  repeat first
    [ progress eauto with bounded
    | apply bounded_bind; [|intros ?]
    | apply bounded_onlyif
    | apply bounded_update; by intros
    | case_match ].

Lemma bounded_look : bounded look.
Proof. unfold look. bounded. Qed.
Lemma bounded_advance : bounded advance.
Proof.
  intros s [Hs Ha]. unfold bounded_at, advance, update. change (fmt (s <| fmt ::= tail |>)) with (tail (fmt s)). simpl.
  split_and!; try done; try lia. destruct (fmt s); simpl; lia.
Qed.
#[export] Hint Resolve bounded_look bounded_advance : bounded.
Lemma bounded_next : bounded next.
Proof. unfold next. bounded. Qed.

(** Behind a character there is less of the format. *)
Lemma look_shape s c s' : look s = Done c s' → s' = s ∧ ∃ l, fmt s = c :: l.
Proof.
  unfold look, mbind, Srv_bind, get. destruct (fmt s) as [|c' l] eqn:E; [done|]. intros [= <- <-]. split; [done|by exists l].
Qed.
Lemma advance_shape s s' : advance s = Done tt s' → fmt s' = tail (fmt s).
Proof. by intros [= <-]. Qed.
Lemma next_shape s c s' : next s = Done c s' → (length (fmt s') < length (fmt s))%nat.
Proof.
  intros E. unfold next, mbind, Srv_bind in E. destruct (look s) as [c1 s1| | |] eqn:El; try done.
  apply look_shape in El as [-> [l Hl]]. injection E as _ <-. change (fmt (s <| fmt ::= tail |>)) with (tail (fmt s)). rewrite Hl. simpl. lia.
Qed.

Lemma bounded_va_word : bounded va_word.
Proof.
  intros s Hs. pose proof Hs as [Hr Ha]. unfold va_word. apply bounded_at_bind; [done|by apply bounded_get|].
  intros a s' [= <- <-] _. destruct (ap s) as [|[w|d] l] eqn:E; try done.
  apply Forall_cons in Ha as [_ Ha]. unfold bounded_at. simpl. split_and!; done || lia.
Qed.
#[export] Hint Resolve bounded_next bounded_va_word : bounded.

(** A loop that advances over what it looks at. *)
Lemma bounded_advance_over {A} (m : Srv printing A) fuel s c l :
  fine s → fmt s = c :: l → (length (fmt s) < S fuel)%nat →
  (∀ s, fine s → (length (fmt s) < fuel)%nat → bounded_at m s) → bounded_at (advance;; m) s.
Proof.
  intros Hs Hl Hf Hm. apply bounded_at_bind; [done|by apply bounded_advance|]. intros [] s' E%advance_shape Hs'.
  apply Hm; [done|]. rewrite E, Hl. rewrite Hl in Hf. simpl in *. lia.
Qed.
Lemma bounded_parse_flags fuel f s : fine s → (length (fmt s) < fuel)%nat → bounded_at (parse_flags fuel f) s.
Proof.
  revert f s. induction fuel as [|fuel IH]; intros f s Hs Hf; [lia|]. cbn [parse_flags].
  apply bounded_at_bind; [done|by apply bounded_look|]. intros c s' [-> [l Hl]]%look_shape _.
  assert (H : ∀ f, bounded_at (advance;; parse_flags fuel f) s) by (intros; eapply bounded_advance_over; eauto).
  repeat case_match; try apply H; by apply bounded_ret.
Qed.
Lemma bounded_parse_decimal fuel n s : fine s → (length (fmt s) < fuel)%nat → bounded_at (parse_decimal fuel n) s.
Proof.
  revert n s. induction fuel as [|fuel IH]; intros n s Hs Hf; [lia|]. cbn [parse_decimal].
  apply bounded_at_bind; [done|by apply bounded_look|]. intros c s' [-> [l Hl]]%look_shape _.
  destruct (is_digit c); [|by apply bounded_ret]. eapply bounded_advance_over; eauto.
Qed.
Lemma bounded_length {A} (k : nat → Srv printing A) s :
  bounded_at (k (length (fmt s))) s → bounded_at (get (λ s, length (fmt s)) ≫= k) s.
Proof. done. Qed.
Lemma bounded_parse_number : bounded parse_number.
Proof.
  intros s Hs. unfold parse_number. apply bounded_length. apply bounded_at_bind; [done|by apply bounded_look|].
  intros c s' [-> _]%look_shape _. destruct (c =? 42); [|destruct (is_digit c)].
  - revert s Hs. change (bounded (w ← va_word; advance;; mret (i32 w))). bounded.
  - apply bounded_parse_decimal; [done|lia].
  - by apply bounded_ret.
Qed.
#[export] Hint Resolve bounded_parse_number : bounded.
Lemma bounded_parse_precision : bounded parse_precision.
Proof. unfold parse_precision. bounded. Qed.
Lemma bounded_parse_length : bounded parse_length.
Proof. unfold parse_length. bounded. Qed.
#[export] Hint Resolve bounded_parse_precision bounded_parse_length : bounded.

Lemma bounded_reversed digits base n : bounded (reversed_digits digits base n).
Proof. unfold reversed_digits. bounded. Qed.
Lemma bounded_LEFTPAD f n : bounded (LEFTPAD f n).
Proof. unfold LEFTPAD. bounded. Qed.
Lemma bounded_RIGHTPAD f n : bounded (RIGHTPAD f n).
Proof. unfold RIGHTPAD. bounded. Qed.
#[export] Hint Resolve bounded_reversed bounded_LEFTPAD bounded_RIGHTPAD : bounded.
Lemma bounded_PUTDEC digits n : bounded (PUTDEC digits n).
Proof. unfold PUTDEC. bounded. Qed.
#[export] Hint Resolve bounded_PUTDEC : bounded.
Lemma bounded_number f width precision base digits sign uval : bounded (print_number f width precision base digits sign uval).
Proof. unfold print_number, print_digits. bounded. Qed.
Lemma fraction_same fuel d s : (∃ d', fraction fuel d s = Done d' s) ∨ fraction fuel d s = Undefined ∨ fraction fuel d s = Spins.
Proof.
  revert d. induction fuel as [|fuel IH]; intros d; cbn [fraction]; destruct (SFleb (dbl 1) d); eauto.
  destruct (ulong_of d) as [u|]; [|auto]. erewrite bind_done by done. apply IH.
Qed.
Lemma bounded_fraction d : valid_binary 53 1024 d = true → bounded (fraction 2 d).
Proof.
  intros Hd s Hs. pose proof (fraction_ends d s Hd) as He. unfold bounded_at.
  destruct (fraction_same 2 d s) as [[d' E]|[E|E]]; rewrite E; [by apply (bounded_ret d')|done|by apply He].
Qed.
Lemma bounded_fraction_digits n d : bounded (fraction_digits n d).
Proof. revert d. induction n as [|n IH]; intros d; cbn [fraction_digits]; bounded. Qed.
#[export] Hint Resolve bounded_number bounded_fraction bounded_fraction_digits : bounded.
Lemma bounded_double f width precision d : valid_binary 53 1024 d = true → bounded (print_double f width precision d).
Proof.
  intros Hd. unfold print_double.
  assert (Ho : valid_binary 53 1024 (SFopp d) = true) by by destruct d.
  repeat (case_match; simplify_eq); bounded.
Qed.
Lemma bounded_field f width precision l : bounded (print_field f width precision l).
Proof. unfold print_field. bounded. Qed.
Lemma bounded_thread t : bounded (print_thread t).
Proof. unfold print_thread. bounded. Qed.
#[export] Hint Resolve bounded_double bounded_field bounded_thread : bounded.

Lemma bounded_at_assoc {A B C} (m : Srv printing A) (k : A → Srv printing B) (l : B → Srv printing C) s :
  bounded_at (m ≫= λ a, k a ≫= l) s → bounded_at ((m ≫= k) ≫= l) s.
Proof. unfold bounded_at. by rewrite bind_assoc. Qed.

(** The argument of a conversion of a double. *)
Lemma bounded_va_double f width precision : bounded (va_double ≫= print_double f width precision).
Proof.
  intros s Hs. pose proof Hs as [Hr Ha]. unfold va_double. apply bounded_at_assoc, bounded_at_bind; [done|by apply bounded_get|].
  intros a s' [= <- <-] _. destruct (ap s) as [|[w|d] l] eqn:E; try done. apply Forall_cons in Ha as [Hd Ha].
  apply bounded_at_assoc, bounded_at_bind; [done| |].
  - unfold bounded_at. simpl. split_and!; done || lia.
  - intros [] s' _ Hs'. by apply (bounded_double f width precision d Hd s').
Qed.

(** The copy ends behind a percent sign, or for good. *)
Lemma bounded_copy fuel s : fine s → (length (fmt s) < fuel)%nat →
  bounded_at (copy_until_percent fuel) s ∧
  ∀ s', copy_until_percent fuel s = Done tt s' → (length (fmt s') < length (fmt s))%nat.
Proof.
  revert s. induction fuel as [|fuel IH]; intros s Hs Hf; [lia|]. cbn [copy_until_percent].
  set (rest := λ c, if c =? 37 then _ else _). destruct (next s) as [c s1|s1| |] eqn:En.
  2, 3, 4: pose proof (bounded_next s Hs) as Hb; unfold bounded_at, mbind, Srv_bind in *; rewrite En in *; done.
  pose proof (next_shape _ _ _ En) as Hlt.
  assert (Hrest : fine s1 → bounded_at (rest c) s1 ∧ ∀ s', rest c s1 = Done tt s' → (length (fmt s') ≤ length (fmt s1))%nat).
  { intros Hs1. unfold rest. destruct (c =? 37); [split; [by apply bounded_ret|by intros s' [= <-]]|].
    set (store := b ← full; if (b : bool) || (c =? 0) then halt else put c).
    assert (Eq : (b ← full; if (b : bool) || (c =? 0) then halt else put c;; copy_until_percent fuel) s1 = (store;; copy_until_percent fuel) s1).
    { unfold store, mbind, Srv_bind. destruct (full s1) as [b s2| | |]; try done. by destruct (b || (c =? 0)). }
    assert (Hfmt : ∀ s2, store s1 = Done tt s2 → fmt s2 = fmt s1).
    { intros s2. unfold store, full, mbind, Srv_bind, get, update, mret, Srv_ret. cbn.
      destruct ((room s1 <=? 0) || (c =? 0)); [done|]. by intros [= <-]. }
    unfold bounded_at at 1. rewrite Eq. clear Eq. split.
    - apply bounded_at_bind; [done|by apply bounded_store|]. intros [] s2 E2%Hfmt Hs2. apply IH; [done|]. rewrite E2. lia.
    - intros s'. pose proof (bounded_store c (c =? 0) s1 Hs1) as Hst. fold store in Hst. unfold bounded_at, mbind, Srv_bind in *.
      destruct (store s1) as [[] s2| | |] eqn:E2; try done. specialize (Hfmt _ eq_refl). intros E.
      destruct (IH s2) as [_ Hl]; [|rewrite Hfmt; lia|]; [|specialize (Hl _ E); rewrite Hfmt in Hl; lia].
      destruct Hst as (?&?&?&?&?). destruct Hs1. by split; [lia|]. }
  pose proof (bounded_next s Hs) as Hn.
  assert (Hs1 : fine s1) by (unfold bounded_at in Hn; rewrite En in Hn; destruct Hn as (?&?&?&?&?), Hs; by split; [lia|]).
  destruct (Hrest Hs1) as [Hb Hl]. split.
  - apply bounded_at_bind; [done|done|]. intros c' s2 E _. rewrite En in E. by injection E as <- <-.
  - intros s' E. rewrite (bind_done _ _ _ _ _ En) in E. specialize (Hl _ E). lia.
Qed.

Lemma bounded_PUTARG : bounded PUTARG.
Proof.
  intros s Hs. unfold bounded_at, PUTARG, full, va_word, mbind, Srv_bind, get, update, mret, Srv_ret. destruct Hs as [Hs Ha].
  destruct (Z.leb_spec (room s) 0) as [Hz|Hz]; cbn.
  - change (str (s <| room := u32 (room s - 1) |>)) with (str s). lia.
  - change (ap (s <| room := u32 (room s - 1) |>)) with (ap s). destruct (ap s) as [|[w|d] l]; try done. cbn.
    apply Forall_cons in Ha as [_ Ha].
    match goal with |- _ ≤ room ?st ∧ _ => change (room st) with (u32 (room s - 1)); change (str st) with (str s ++ [u8 w]) end.
    rewrite u32_id, length_app by lia. simpl. split_and!; done || lia.
Qed.
#[export] Hint Resolve bounded_PUTARG bounded_va_double : bounded.

Section bounds.
Context `{Strings}.

Lemma bounded_convert_with f width precision c : bounded (convert_with f width precision c).
Proof.
  unfold convert_with. repeat case_match; bounded.
Qed.
#[local] Hint Resolve bounded_convert_with : bounded.

Lemma bounded_conversion : bounded conversion.
Proof.
  intros s Hs. unfold conversion. apply bounded_length. apply bounded_at_bind; [done|apply bounded_parse_flags; [done|lia]|].
  intros f s' _ Hs'. revert s' Hs'.
  match goal with |- ∀ s', fine s' → bounded_at ?m s' => change (bounded m) end. bounded.
Qed.

Lemma bounded_vloop fuel s : fine s → (length (fmt s) < fuel)%nat → bounded_at (vloop fuel) s.
Proof.
  revert s. induction fuel as [|fuel IH]; intros s Hs Hf; [lia|]. cbn [vloop].
  apply bounded_at_bind; [done|by apply bounded_get|]. intros n s' [= <- <-] _. destruct (0 <? room s); [|by apply bounded_ret].
  apply bounded_length. destruct (bounded_copy (S (length (fmt s))) s Hs) as [Hb Hlt]; [lia|].
  apply bounded_at_bind; [done|done|]. intros [] s1 E1 Hs1. specialize (Hlt _ E1).
  apply bounded_at_bind; [done|by apply bounded_conversion|]. intros [] s2 E2 Hs2. apply IH; [done|].
  pose proof (bounded_conversion s1 Hs1) as Hc. unfold bounded_at in Hc. rewrite E2 in Hc. lia.
Qed.

(** C29: [vsnprintf] with a buffer of [size] bytes, of 1 byte at least, always ends, whatever the
    format and the arguments are (the doubles among them doubles of the machine).  Either the
    call is undefined in C (the format has no null character or ends within a conversion,
    an argument is missing or of another type, a string or a double it cannot read:
    [Illegal], see the findings), or at most [size] bytes are stored, the last one is the null
    character, and the number of the others is returned. *)
Theorem vsnprintf_bounds size format args :
  1 ≤ size < 2 ^ 32 → Forall arg_ok args →
  vsnprintf size format args = Illegal ∨
  ∃ bytes st r, vsnprintf size format args = Stores bytes st r ∧
    Z.of_nat (length bytes) ≤ size ∧ last bytes = Some 0 ∧ r = Z.of_nat (length bytes) - 1.
Proof.
  intros Hsize Hargs. unfold vsnprintf. set (s := Printing _ _ _ _ _ _).
  assert (Hroom : room s = size - 1) by (change (room s) with (u32 (size - 1)); apply u32_id; lia).
  assert (Hs : fine s) by (split; [lia|done]).
  match goal with |- match ?m s with _ => _ end = _ ∨ _ => assert (bounded_at m s) as Hb; [|unfold bounded_at in Hb; destruct (m s) as [a s'|s'| |]] end.
  { destruct format as [l|]; [|by apply bounded_PUTSTR]. apply bounded_vloop; [done|]. change (fmt s) with l. lia. }
  all: try (by left); try done; right; eexists _, _, _; (split; [done|]).
  all: rewrite Hroom in Hb; change (str s) with (@nil Z) in Hb; rewrite last_snoc, length_app; simpl in *; split_and!; [lia|done|lia].
Qed.
End bounds.

(** * Reading numbers back *)

Lemma hex_digit_char (upper : bool) d : 0 ≤ d < 16 → hex_digit (digit_char upper d) = Some d ∧ digit_char upper d ≠ 13.
Proof.
  intros Hd. unfold hex_digit, digit_char. destruct (Z.ltb_spec d 10).
  - rewrite (proj2 (Z.leb_le 48 _)), (proj2 (Z.leb_le _ 57)) by lia. cbn [andb]. split; [f_equal|]; lia.
  - destruct upper.
    + rewrite (proj2 (Z.leb_gt (55 + d) 57)), (proj2 (Z.leb_gt 97 _)), (proj2 (Z.leb_le 65 _)), (proj2 (Z.leb_le _ 70)), andb_false_r by lia.
      cbn [andb]. split; [f_equal|]; lia.
    + rewrite (proj2 (Z.leb_gt (87 + d) 57)), (proj2 (Z.leb_le 97 _)), (proj2 (Z.leb_le _ 102)), andb_false_r by lia.
      cbn [andb]. split; [f_equal|]; lia.
Qed.

(** The digits of a number that is not too large are read one after the other. *)
Lemma get_hex_from_digits upper ds rest i val echo :
  Forall (digit_ok 16) ds → 0 ≤ val → 0 ≤ i → i + Z.of_nat (length ds) ≤ 8 → value 16 val ds < 2 ^ 32 →
  get_hex_from ((digit_char upper <$> ds) ++ 13 :: rest) i val echo =
    Some (value 16 val ds, echo ++ (digit_char upper <$> ds),
          if bool_decide (i + Z.of_nat (length ds) = 8 ∧ ds ≠ []) then 13 :: rest else rest).
Proof.
  revert i val echo. induction ds as [|d ds IH]; intros i val echo Hds Hval Hi Hlen Hmax.
  - cbn. rewrite app_nil_r, bool_decide_false; [done|]. by intros [_ []].
  - apply Forall_cons in Hds as [Hd Hds]. destruct (hex_digit_char upper d Hd) as [Hh Hne]. cbn [fmap list_fmap app get_hex_from length] in *.
    unfold digit_ok in Hd. change (value 16 val (d :: ds)) with (value 16 (val * 16 + d) ds) in *.
    pose proof (value_mono 16 ds (val * 16 + d) ltac:(lia) Hds ltac:(lia)) as Hm.
    rewrite (proj2 (Z.eqb_neq _ _) Hne), Hh, Z.shiftl_mul_pow2 by lia. change (2 ^ 4) with 16.
    rewrite !u32_id by (rewrite ?u32_id; lia).
    replace (echo ++ digit_char upper d :: (digit_char upper <$> ds)) with ((echo ++ [digit_char upper d]) ++ (digit_char upper <$> ds))
      by by rewrite <- (assoc_L app).
    destruct (Z.eqb_spec (i + 1) 8) as [E|E].
    + destruct ds; [|simpl in Hlen; lia]. rewrite bool_decide_true by (split; [simpl; lia|done]). by rewrite app_nil_r.
    + rewrite IH by (done || lia). erewrite bool_decide_ext; [done|]. destruct ds; simpl; [lia|]. split; (intros [? ?]; split; [lia|done]).
Qed.

Lemma numeral_hex n : 0 ≤ n < 2 ^ 32 →
  Forall (digit_ok 16) (numeral 16 n) ∧ value 16 0 (numeral 16 n) = n ∧ (length (numeral 16 n) ≤ 8)%nat.
Proof.
  intros Hn. unfold numeral. split_and!; [by apply numeral_upto_digits; lia|by apply numeral_upto_value; [lia|]|].
  enough (∀ j k m, 0 ≤ m < 16 ^ Z.of_nat (S j) → (length (numeral_upto k 16 m) ≤ S j)%nat) as H by (apply (H 7%nat); simpl; lia).
  clear. induction j as [|j IH]; intros [|k] m Hm; cbn [numeral_upto]; try (simpl; lia).
  - rewrite (proj2 (Z.ltb_lt m 16)) by (simpl in Hm; lia). simpl. lia.
  - destruct (m <? 16); [simpl; lia|]. rewrite length_app. cbn [length].
    enough (length (numeral_upto k 16 (m / 16)) ≤ S j)%nat by lia. apply IH. rewrite Nat2Z.inj_succ, Z.pow_succ_r in Hm by lia.
    split; [apply Z.div_pos; lia|]. apply Z.div_lt_upper_bound; lia.
Qed.

(** Without flags, width and precision there are only the digits. *)
Lemma unsigned_text_plain upper n : unsigned_text (flags_of []) (-1) (-1) 16 upper n = digit_char upper <$> numeral 16 n.
Proof.
  unfold unsigned_text, number_text. set (ds := digit_char upper <$> numeral 16 n). cbn [f_left f_zero flags_of].
  rewrite !bool_decide_false by apply not_elem_of_nil. cbn [negb orb andb].
  change (prefix (flags_of []) 16) with (@nil Z). change (extra_zeros (flags_of []) 16) with 0. simpl (length []).
  rewrite spaces_nonpos, zeros_nonpos by lia. simpl. by rewrite app_nil_r.
Qed.

(** a word that [snprintf] prints with the conversion x or X is read back by
    [get_hex], which echoes the same digits. *)
Theorem get_hex_snprintf `{Strings} (upper : bool) n :
  0 ≤ n < 2 ^ 32 →
  ∃ digits rest, snprintf 9 (Some (show [Conversion (Directive [] Unset None None (Hexadecimal upper))])) [Word n] =
      Stores (digits ++ [0]) [] (Z.of_nat (length digits)) ∧
    get_hex (digits ++ [13]) = Some (n, digits, rest).
Proof.
  intros Hn. destruct (numeral_hex n Hn) as (Hds&Hval&Hlen).
  set (digits := digit_char upper <$> numeral 16 n).
  assert (Hu8 : u8 <$> digits = digits).
  { unfold digits. rewrite <- list_fmap_compose. apply list_fmap_ext. intros i d Hd.
    rewrite Forall_forall in Hds. specialize (Hds d (list_elem_of_lookup_2 _ _ _ Hd)). unfold digit_ok in Hds.
    unfold compose, digit_char, u8. destruct (Z.ltb_spec d 10); [|destruct upper]; apply Z.mod_small; lia. }
  assert (Hld : (length digits ≤ 8)%nat) by (unfold digits; by rewrite length_fmap).
  eexists digits, _. split.
  - change (snprintf 9 ?f ?a) with (vsnprintf 9 f a).
    rewrite (vsnprintf_text _ _ digits); [| | |done].
    + rewrite Hu8, take_ge by done. done.
    + apply Forall_singleton. repeat split; done || constructor.
    + cbn [text directive_text count_value default d_width d_precision mbind option_bind]. change (sane (-1) && sane (-1)) with true. cbv iota.
      cbn [conv_text d_conv d_flags]. unfold pop. rewrite (proj2 (Z.leb_le 0 n)), (proj2 (Z.ltb_lt n (2 ^ 32))) by lia.
      cbn [andb mbind option_bind fmap option_fmap option_map]. rewrite unsigned_text_plain. by rewrite app_nil_r.
  - unfold get_hex, digits. rewrite (get_hex_from_digits upper _ []); [|done|lia|lia|lia|by rewrite Hval; lia]. by rewrite Hval.
Qed.
