(* ===== verification/Root.v ===== *)
(** The root task (src/sdios/src/root): starting the servers (main.cc), the name service
    (locator.cc), the system calls it does for others (syscall.cc) and the pager of the
    RAM data space manager (pager.cc).

    The calls to the kernel and to the other servers are a log; what the kernel answers is
    a function of the log before, and with the addresses of the program, the kernel
    interface page and what the stack holds where [start_task] keeps two variables it does
    not initialise it is the class [Boot]. *)

From S2P Require Import Prelude Machine Server L4Types ElfLoader.
From S2P Require Message.

Inductive root_call :=
  | ThreadControl (dest space scheduler pager utcb : Z)
  | SpaceControl (space control kip_area utcb_area redirector : Z)
  | Start (thread sp ip : Z)
  | Send (virtual_sender to : Z) (message_registers : list Z)
  | GetPage (fpage : Z)
  | Announce (locator type id : Z)
  | RegisterLocator (ram_dsm locator : Z)
  | AssociateImage (ram_dsm thread module : Z)
  | StartTask (taskserver module : Z).

Class Boot := {
  thread_control : list root_call → bool;
  space_control : list root_call → bool;
  sigma0_grants : Z → bool;
  myself : Z;
  my_pager : Z;
  my_local_id : Z;
  boot_info : Z;
  page_size_log2 : Z;
  utcb_size : Z;
  utcb_area_log2 : Z;
  locator_server : Z;
  syscall_server : Z;
  pager_loop : Z;
  stack_top : Z → Z;
  stack_mtag : Z;
  stack_msg : list Z;
}.

Record root := Root {
  next_thread_no : Z;
  locatorid : Z;
  syscallid : Z;
  ram_dsm_id : Z;
  taskserver_id : Z;
  pagesize : Z;
  utcbsize : Z;
  utcbarea : Z;
  root_mem : memory;
  calls : list root_call;
}.
#[global] Instance root_fields : Fields root := λ r, {|
  next_thread_no := next_thread_no r; locatorid := locatorid r; syscallid := syscallid r;
  ram_dsm_id := ram_dsm_id r; taskserver_id := taskserver_id r; pagesize := pagesize r;
  utcbsize := utcbsize r; utcbarea := utcbarea r; root_mem := root_mem r; calls := calls r |}.

Section root.
Context `{Boot}.

Definition call (c : root_call) : Srv root unit := update (λ s, s <| calls ::= λ l, l ++ [c] |>).

(** The calls of the kernel with an answer. *)
Definition do_ThreadControl (dest space scheduler pager utcb : Z) : Srv root bool :=
  h ← get calls; call (ThreadControl dest space scheduler pager utcb);; mret (thread_control h).
Definition do_SpaceControl (space control kip_area utcb_area redirector : Z) : Srv root bool :=
  h ← get calls; call (SpaceControl space control kip_area utcb_area redirector);; mret (space_control h).

Definition no_utcb : Z := 2 ^ 32 - 1.
Definition kip_area : Z := L4_FpageLog2 2952790016 14.

Definition start_thread (threadid ip sp pagerid utcblocation : Z) : Srv root Z :=
  b ← do_ThreadControl threadid myself myself pagerid utcblocation;
  if negb b then halt else call (Start threadid sp ip);; mret threadid.

Definition L4_Set_Propagation (t : Z) : Z := Message.tag_of (Message.tag_label t) 1 (Message.tag_t t) (Message.tag_u t).

(** The words that [L4_Load] puts into the message registers.  [mtag] comes from the stack but for
    its flags, and it replaces the tag that counts the appended words: it may say more words than
    [msg] has, which is undefined. *)
Definition startup_message (ip : Z) : option (list Z) :=
  msg ← Message.L4_MsgClear stack_msg;
  let mtag := L4_Set_Propagation stack_mtag in
  msg ← Message.L4_MsgAppendWord msg ip;
  msg ← Message.L4_MsgAppendWord msg 0;
  msg ← Message.L4_Set_MsgMsgTag msg mtag;
  u ← Message.msg_u msg; t ← Message.msg_t msg;
  Message.words_at msg 0 (u + t + 1).

Definition start_task (threadid ip pagerid nutcbarea : Z) : Srv root Z :=
  b ← do_ThreadControl threadid threadid myself L4_nilthread no_utcb;
  if negb b then halt else
  u ← get utcbarea;
  b ← do_SpaceControl threadid 0 kip_area u L4_anythread;
  if negb b then halt else
  b ← do_ThreadControl threadid threadid L4_nilthread pagerid (L4_Address nutcbarea);
  if negb b then halt else
  registers ← follow (startup_message ip);
  call (Send pagerid threadid registers);; mret threadid.

Definition request_page (addr : Z) : Srv root bool :=
  p ← get pagesize; call (GetPage (L4_Fpage addr p));; mret (sigma0_grants addr).

Definition find_module (index bootinfo : Z) : Srv root Z :=
  m ← get root_mem;
  if L4_BootInfo_Entries m bootinfo <? index then halt
  else mret (next_records m (Z.to_nat index) (L4_BootInfo_FirstEntry m bootinfo)).

(** [for (addr = start; addr < end; addr += pagesize)] *)
Fixpoint request_pages (fuel : nat) (addr module_end : Z) : Srv root unit :=
  if addr <? module_end then
    match fuel with
    | O => spins
    | S fuel =>
        b ← request_page addr;
        if negb b then halt else
        p ← get pagesize; request_pages fuel (u32 (addr + p)) module_end
    end
  else mret tt.

(** The most rounds without an endless loop: those of the module and, when the address
    wraps around, one of each page of the address space. *)
Definition request_fuel (size : Z) : nat := Z.to_nat (size + 2 ^ 20).

(** The tests of the ELF header. *)
Definition header_valid (m : memory) (hdr : Z) : bool :=
  (m (u32 hdr) =? 127) && (m (u32 (hdr + 1)) =? 69) && (m (u32 (hdr + 2)) =? 76) && (m (u32 (hdr + 3)) =? 70) &&
  (load 2 m (hdr + 16) =? 2) && (load 2 m (hdr + 18) =? 3) && (load 4 m (hdr + 20) =? 1) && (load 4 m (hdr + 36) =? 0) &&
  negb (e_phnum m hdr <=? 0).

(** One segment: the bytes of the file, and zeros for the rest. *)
Definition load_segment (hdr : Z) (ph : Elf32_Phdr) (m : memory) : memory :=
  if p_type ph =? PT_LOAD then
    let m := copy m (p_vaddr ph) (u32 (hdr + p_offset ph)) (Z.to_nat (p_filesz ph)) in
    fill m (u32 (p_vaddr ph + p_filesz ph)) 0 (Z.to_nat (u32 (p_memsz ph - p_filesz ph)))
  else m.

Fixpoint load_segments (fuel : nat) (hdr phdr i : Z) (m : memory) : memory :=
  match fuel with
  | O => m
  | S fuel =>
      if i <? e_phnum m hdr then load_segments fuel hdr phdr (i + 1) (load_segment hdr (phdr_at m phdr i) m) else m
  end.

(** The entry point, or 0. *)
Definition load_elfimage (rec : Z) : Srv root Z :=
  m ← get root_mem;
  if negb (L4_Type m rec =? L4_BootInfo_Module) then halt else
  let hdr := L4_Module_Start m rec in
  request_pages (request_fuel (L4_Module_Size m rec)) hdr (u32 (hdr + L4_Module_Size m rec));;
  m ← get root_mem;
  if negb (header_valid m hdr) then mret 0 else
  let phdr := u32 (e_phoff m hdr + hdr) in
  update (λ s, s <| root_mem ::= load_segments phdr_fuel hdr phdr 0 |>);;
  m ← get root_mem;
  mret (e_entry m hdr).

Definition activate_module (threadId moduleId : Z) : Srv root unit :=
  b ← do_ThreadControl threadId threadId myself L4_nilthread no_utcb;
  if negb b then halt else
  u ← get utcbarea;
  b ← do_SpaceControl threadId 0 kip_area u L4_anythread;
  if negb b then halt else
  d ← get ram_dsm_id;
  b ← do_ThreadControl threadId threadId L4_nilthread d (L4_Address u);
  if negb b then halt else
  call (AssociateImage d threadId moduleId).

Definition get_free_threadid : Srv root Z :=
  n ← get next_thread_no;
  update (λ s, s <| next_thread_no := u32 (n + 1) |>);;
  mret (L4_GlobalId n 1).

Definition kill (tid : Z) : Srv root bool := do_ThreadControl tid L4_nilthread L4_nilthread L4_nilthread no_utcb.

Definition UTCBaddress (x : Z) : Srv root Z :=
  u ← get utcbsize; mret (Z.land (u32 (my_local_id + u * x)) (2 ^ 32 - 1 - (u - 1))).

Definition BOOTINFO_MAGIC : Z := 347079197.
Definition BOOTINFO_VERSION : Z := 1.
Definition L4_BootInfo_Valid (m : memory) (info : Z) : bool :=
  (load 4 m info =? BOOTINFO_MAGIC) && (load 4 m (info + 4) =? BOOTINFO_VERSION).

Definition IF_SYSCALL_ID : Z := 3.

(** Up to the loop that sleeps. *)
Definition main : Srv root unit :=
  update (λ s, s <| next_thread_no := u32 (L4_ThreadNo myself + 1) |>);;
  update (λ s, s <| locatorid := L4_nilthread |> <| syscallid := L4_nilthread |>);;
  update (λ s, s <| pagesize := u32 (Z.shiftl 1 page_size_log2) |>);;
  update (λ s, s <| utcbsize := utcb_size |>);;
  update (λ s, s <| utcbarea := L4_FpageLog2 my_local_id (utcb_area_log2 + 1) |>);;
  l ← get_free_threadid;
  update (λ s, s <| locatorid := l |>);;
  u ← UTCBaddress 1; start_thread l locator_server (stack_top 1) my_pager u;;
  sc ← get_free_threadid;
  update (λ s, s <| syscallid := sc |>);;
  u ← UTCBaddress 2; start_thread sc syscall_server (stack_top 2) my_pager u;;
  b ← request_page boot_info;
  if negb b then halt else
  m ← get root_mem;
  if negb (L4_BootInfo_Valid m boot_info) then halt else
  call (Announce l IF_SYSCALL_ID sc);;
  p ← get_free_threadid;
  u ← UTCBaddress 3; start_thread p pager_loop (stack_top 3) my_pager u;;
  ram_dsm_module ← find_module 3 boot_info;
  ip ← load_elfimage ram_dsm_module;
  d ← get_free_threadid;
  update (λ s, s <| ram_dsm_id := d |>);;
  a ← get utcbarea; start_task d ip p a;;
  call (RegisterLocator d l);;
  t ← get_free_threadid;
  update (λ s, s <| taskserver_id := t |>);;
  activate_module t 5;;
  call (StartTask t 4);;
  call (StartTask t 6);;
  call (StartTask t 7);;
  call (StartTask t 8);;
  call (StartTask t 9).
End root.

(** * The name service *)

Definition MAX_INTERFACEID : Z := 16.
Definition IF_LOCATOR_ID : Z := 2.

Record locator := Locator { services : list Z }.
#[global] Instance locator_fields : Fields locator := λ r, {| services := services r |}.
#[global] Program Instance services_array : Array locator Z :=
  {| cells := services; set_cells l s := s <| services := l |> |}.
Next Obligation. done. Qed.

Definition init_locator (me : Z) : Srv locator unit :=
  update (λ s, s <| services := replicate 16 L4_nilthread |>);;
  poke (Z.to_nat IF_LOCATOR_ID) (λ _ : Z, me).

(** [services[type % MAX_INTERFACEID]]: an interface id is a signed char. *)
Definition slot (type : Z) : Srv locator nat :=
  let i := Z.rem (i8 type) MAX_INTERFACEID in
  if i <? 0 then undefined else mret (Z.to_nat i).

(** The exception [ex_type_conflict], if it is set. *)
Definition locator_Announce (type thread : Z) : Srv locator bool :=
  i ← slot type;
  t ← peek id i;
  if L4_IsNilThread t then poke i (λ _ : Z, thread);; mret false
  else mret true.

Definition locator_Locate (type : Z) : Srv locator Z :=
  i ← slot type; peek id i.

(** * The system calls *)

Inductive syscall_exception :=
  | noPrivilege | invalidThread | invalidSpace | invalidScheduler | invalidUtcbLocation | invalidKipArea | outOfMemory.

(** What is raised for the result of [L4_ThreadControl] and the error code; other errors
    end in [panic()]. *)
Definition syscall_ThreadControl (result error : Z) : Srv unit (option syscall_exception) :=
  if result =? 0 then
    match error with
    | 1 => mret (Some noPrivilege)
    | 2 => mret (Some invalidThread)
    | 3 => mret (Some invalidSpace)
    | 4 => mret (Some invalidScheduler)
    | 6 => mret (Some invalidUtcbLocation)
    | 8 => mret (Some outOfMemory)
    | _ => halt
    end
  else mret None.

Definition syscall_SpaceControl (result error : Z) : Srv unit (option syscall_exception) :=
  if result =? 0 then
    match error with
    | 1 => mret (Some noPrivilege)
    | 3 => mret (Some invalidSpace)
    | 6 => mret (Some invalidUtcbLocation)
    | 7 => mret (Some invalidKipArea)
    | _ => halt
    end
  else mret None.

(** * The pager: the map item of the reply, none for a malformed message *)

Definition pager_reply (page_bits untyped typed : Z) (succeeded : bool) (faddr : Z) : option (Z * Z) :=
  if negb (untyped =? 2) || negb (typed =? 0) || negb succeeded then None
  else Some (L4_FpageLog2 faddr page_bits + L4_FullyAccessible, faddr).
