(* ===== verification/RootSpec.v ===== *)
(** What the root task makes of a boot module, what the name service answers, and the order
    in which the system comes up. *)

From S2P Require Import Prelude Machine Server L4Types ElfLoader ElfLoaderSpec Root.

(** * The memory of a loaded program *)

Definition in_memory (x : Z) (ph : Elf32_Phdr) : bool :=
  (p_type ph =? PT_LOAD) && (p_vaddr ph <=? x) && (x <? p_vaddr ph + p_memsz ph).

(** The byte at [x] when the segments [phs] of the image at [hdr] are in memory: of the
    last segment that holds [x], 0 behind its data in the file. *)
Definition program_byte (m : memory) (hdr : Z) (phs : list Elf32_Phdr) (x : Z) : Z :=
  foldl (λ b ph, if in_memory x ph then
                   if x <? p_vaddr ph + p_filesz ph then m (hdr + p_offset ph + (x - p_vaddr ph)) else 0
                 else b) (m x) phs.

(** The program is away from its image. *)
Definition segment_apart (hdr len : Z) (ph : Elf32_Phdr) : Prop :=
  p_type ph = PT_LOAD → p_vaddr ph + p_memsz ph ≤ hdr ∨ hdr + len ≤ p_vaddr ph.

Section segments.
Context (m : memory) (hdr len : Z) (Hok : file_ok m hdr len) (Hapart : Forall (segment_apart hdr len) (phdrs m hdr)).

Lemma load_segment_spec m' ph x :
  ph ∈ phdrs m hdr → same_image m m' hdr len →
  load_segment hdr ph m' x
  = if in_memory x ph then
      if x <? p_vaddr ph + p_filesz ph then m (hdr + p_offset ph + (x - p_vaddr ph)) else 0
    else m' x.
Proof.
  intros Hin Hs. destruct (im_range _ _ _ Hok) as [H0 Hr].
  assert (phdr_ok ph) as [Ho Hv Hf].
  { apply list_elem_of_fmap in Hin as (i&->&_). apply phdr_at_ok, Hok. }
  unfold load_segment, in_memory. destruct (Z.eqb_spec (p_type ph) PT_LOAD) as [Ht|Ht]; [|done]. cbn [andb].
  destruct (im_segment _ _ _ Hok ph Hin Ht) as (Hseg&Hfm&Hvm).
  pose proof (proj1 (Forall_forall _ _) Hapart ph Hin Ht) as Hap.
  rewrite (u32_id (hdr + p_offset ph)), (u32_id (p_vaddr ph + p_filesz ph)), (u32_id (p_memsz ph - p_filesz ph)) by lia.
  rewrite fill_spec by (split; lia). rewrite copy_spec by (rewrite ?Z2Nat.id by lia; try split; lia).
  rewrite !Z2Nat.id by lia.
  destruct (Z.leb_spec (p_vaddr ph) x), (Z.ltb_spec x (p_vaddr ph + p_memsz ph)),
    (Z.ltb_spec x (p_vaddr ph + p_filesz ph)); repeat case_decide; try lia; try done.
  apply Hs. lia.
Qed.

Lemma load_segment_same m' ph : ph ∈ phdrs m hdr → same_image m m' hdr len → same_image m (load_segment hdr ph m') hdr len.
Proof.
  intros Hin Hs x Hx. rewrite load_segment_spec by done. destruct (in_memory x ph) eqn:E; [|by apply Hs].
  exfalso. unfold in_memory in E. rewrite !andb_true_iff, Z.eqb_eq, Z.leb_le, Z.ltb_lt in E.
  pose proof (proj1 (Forall_forall _ _) Hapart ph Hin) as Hap. unfold segment_apart in Hap. lia.
Qed.

(** The loop from the [i]-th header on. *)
Lemma load_segments_spec fuel i m' :
  0 ≤ i ≤ e_phnum m hdr → e_phnum m hdr - i < Z.of_nat fuel → same_image m m' hdr len →
  (∀ x, m' x = program_byte m hdr (take (Z.to_nat i) (phdrs m hdr)) x) →
  let r := load_segments fuel hdr (hdr + e_phoff m hdr) i m' in
  same_image m r hdr len ∧ ∀ x, r x = program_byte m hdr (phdrs m hdr) x.
Proof.
  revert i m'. induction fuel as [|fuel IH]; intros i m' Hi Hf Hs Hm'; [lia|].
  destruct (header_same m hdr len Hok m' Hs) as (_&Hn&Hph). cbn [load_segments]. rewrite Hn.
  destruct (Z.ltb_spec i (e_phnum m hdr)) as [Hlt|Hge].
  - rewrite Hph by lia. set (ph := phdr_at m (hdr + e_phoff m hdr) i).
    assert (Hlk : phdrs m hdr !! Z.to_nat i = Some ph) by (apply phdrs_lookup; lia).
    assert (Hin : ph ∈ phdrs m hdr) by by eapply list_elem_of_lookup_2.
    apply IH; [lia|lia|by apply load_segment_same|]. intros x. rewrite load_segment_spec by done.
    rewrite Z2Nat.inj_add, Nat.add_1_r by lia. rewrite (take_S_r _ _ _ Hlk).
    unfold program_byte. rewrite foldl_app. simpl. by rewrite (Hm' x).
  - split; [done|]. intros x. rewrite Hm'. f_equal. apply take_ge. rewrite length_phdrs. lia.
Qed.
End segments.

(** * Loading a module *)

Section load.
Context `{Boot}.

(** The calls for pages until one is refused. *)
Fixpoint asked (p : Z) (pages : list Z) : list root_call :=
  match pages with
  | [] => []
  | a :: pages => GetPage (L4_Fpage a p) :: if sigma0_grants a then asked p pages else []
  end.

(** The pages of [n] bytes from [start] on. *)
Definition module_pages (p start n : Z) : list Z := (λ i, start + p * i) <$> seqZ 0 ((n + p - 1) / p).

Definition log (l : list root_call) (s : root) : root := s <| calls ::= λ l', l' ++ l |>.

Lemma log_log l1 l2 s : log l2 (log l1 s) = log (l1 ++ l2) s.
Proof. unfold log, set_field. simpl. by rewrite app_assoc. Qed.

Lemma request_pages_spec n fuel p addr module_end s :
  (n < fuel)%nat → pagesize s = p → 0 < p → 0 ≤ addr → module_end + p ≤ 2 ^ 32 →
  (n = 0%nat ∧ module_end ≤ addr ∨ addr + p * (Z.of_nat n - 1) < module_end ≤ addr + p * Z.of_nat n) →
  let pages := (λ i, addr + p * i) <$> seqZ 0 (Z.of_nat n) in
  request_pages fuel addr module_end s
  = if forallb sigma0_grants pages then Done tt (log (asked p pages) s) else Halted (log (asked p pages) s).
Proof.
  revert addr fuel s. induction n as [|n IH]; intros addr fuel s Hf Es Hp Ha He Hn;
    (destruct fuel as [|fuel]; [lia|]); cbn [request_pages].
  - rewrite (proj2 (Z.ltb_ge _ _)) by nia. simpl. unfold log, set_field. destruct s; simpl. by rewrite app_nil_r.
  - rewrite (proj2 (Z.ltb_lt _ _)) by nia.
    rewrite (seqZ_cons 0) by lia. replace (Z.pred (Z.of_nat (S n))) with (Z.of_nat n) by lia.
    cbn [fmap list_fmap]. rewrite Z.mul_0_r, Z.add_0_r. cbn [forallb asked].
    rewrite (bind_done _ _ _ (sigma0_grants addr) (log [GetPage (L4_Fpage addr p)] s)) by (by rewrite <- Es).
    destruct (sigma0_grants addr); [|done]. cbn [negb andb].
    set (s1 := log _ s). rewrite (bind_done _ _ _ p s1) by (by rewrite <- Es). rewrite u32_id by nia.
    rewrite (IH (addr + p) fuel s1) by (done || nia).
    replace ((λ i, addr + p * i) <$> seqZ (Z.succ 0) (Z.of_nat n)) with ((λ i, addr + p + p * i) <$> seqZ 0 (Z.of_nat n)).
    2:{ change (Z.succ 0) with (1 + 0). rewrite <- fmap_add_seqZ, <- list_fmap_compose.
        apply list_fmap_ext. intros; simpl; lia. }
    unfold s1. by rewrite !log_log.
Qed.

Lemma module_pages_spec p start n s :
  pagesize s = p → 0 < p → p ≤ 2 ^ 31 → 0 ≤ n → 0 ≤ start → start + n + p ≤ 2 ^ 32 →
  request_pages (request_fuel n) start (start + n) s
  = if forallb sigma0_grants (module_pages p start n) then Done tt (log (asked p (module_pages p start n)) s)
    else Halted (log (asked p (module_pages p start n)) s).
Proof.
  intros Es Hp Hp' Hn Hs He. unfold module_pages.
  assert (0 ≤ (n + p - 1) / p) by (apply Z.div_pos; lia).
  assert (p * ((n + p - 1) / p) ≤ n + p - 1) by (apply Z.mul_div_le; lia).
  pose proof (Z.mul_succ_div_gt (n + p - 1) p ltac:(lia)) as Hgt.
  assert ((n + p - 1) / p < n + 2 ^ 20) by (apply Z.div_lt_upper_bound; nia).
  rewrite <- (Z2Nat.id ((n + p - 1) / p)) by done.
  apply request_pages_spec; rewrite ?Z2Nat.id by done; try done; try lia.
  unfold request_fuel. nia.
Qed.

(** The cases of [load_elfimage]. *)
Lemma load_elfimage_eq rec s :
  let m := root_mem s in
  let hdr := L4_Module_Start m rec in
  let len := L4_Module_Size m rec in
  let pages := module_pages (pagesize s) hdr len in
  let s1 := log (asked (pagesize s) pages) s in
  let m1 := load_segments phdr_fuel hdr (u32 (e_phoff m hdr + hdr)) 0 m in
  bytes_ok m → 0 < pagesize s ≤ 2 ^ 31 → hdr + len + pagesize s ≤ 2 ^ 32 →
  load_elfimage rec s
  = if negb (L4_Type m rec =? L4_BootInfo_Module) then Halted s
    else if negb (forallb sigma0_grants pages) then Halted s1
    else if negb (header_valid m hdr) then Done 0 s1
    else Done (e_entry m1 hdr) (s1 <| root_mem := m1 |>).
Proof.
  intros m hdr len pages s1 m1 Hb Hp He. unfold load_elfimage, m1. clear m1. generalize phdr_fuel. intros fuel.
  assert (Hh : 0 ≤ hdr) by apply (load_range 4 m _ Hb). assert (Hl : 0 ≤ len) by apply (load_range 4 m _ Hb).
  erewrite bind_done by done. fold m.
  destruct (negb (L4_Type m rec =? L4_BootInfo_Module)); [done|]. fold hdr len. rewrite u32_id by lia.
  assert (Hpg := module_pages_spec (pagesize s) hdr len s eq_refl ltac:(lia) ltac:(lia) ltac:(lia) ltac:(lia) ltac:(lia)).
  fold pages s1 in Hpg. destruct (forallb sigma0_grants pages); [|unfold mbind, Srv_bind; by rewrite Hpg].
  rewrite (bind_done _ _ _ _ _ Hpg). rewrite (bind_done _ _ _ m s1) by done.
  by destruct (header_valid m hdr).
Qed.

(** Loading keeps the image. *)
Lemma loaded_image m hdr len :
  file_ok m hdr len → Forall (segment_apart hdr len) (phdrs m hdr) →
  let m1 := load_segments phdr_fuel hdr (u32 (e_phoff m hdr + hdr)) 0 m in
  (∀ x, m1 x = program_byte m hdr (phdrs m hdr) x) ∧ e_entry m1 hdr = e_entry m hdr.
Proof.
  intros Hok Hap. pose proof (im_phoff m hdr len Hok). pose proof (im_phnum m hdr len Hok).
  pose proof (im_table _ _ _ Hok). pose proof (im_header _ _ _ Hok). destruct (im_range _ _ _ Hok).
  rewrite u32_id, (Z.add_comm (e_phoff m hdr)) by lia. pose proof phdr_fuel_value as Hfuel.
  revert Hfuel. generalize phdr_fuel. intros fuel Hfuel.
  destruct (load_segments_spec m hdr len Hok Hap fuel 0 m) as [Hs Hm]; [lia|lia|done|done|].
  split; [exact Hm|]. apply (load_ext 4); [split; lia|]. intros x ?. apply Hs. lia.
Qed.

(** The header of a program for this machine, byte by byte: 0x7f "ELF", an executable
    (2) for the 386 (3), version 1, no flags, and some program headers. *)
Definition header_bytes (m : memory) (hdr : Z) (places : list Z) : list Z := (λ k, m (u32 (hdr + k))) <$> places.
Record executable_header (m : memory) (hdr : Z) : Prop := {
  eh_magic : header_bytes m hdr [0; 1; 2; 3] = [127; 69; 76; 70];
  eh_machine : header_bytes m hdr [16; 17; 18; 19] = [2; 0; 3; 0];
  eh_version : header_bytes m hdr [20; 21; 22; 23] = [1; 0; 0; 0];
  eh_flags : header_bytes m hdr [36; 37; 38; 39] = [0; 0; 0; 0];
  eh_phnum : header_bytes m hdr [44; 45] ≠ [0; 0];
}.

#[global] Instance executable_header_dec m hdr : Decision (executable_header m hdr).
Proof.
  refine (cast_if (decide (header_bytes m hdr [0; 1; 2; 3] = [127; 69; 76; 70] ∧ header_bytes m hdr [16; 17; 18; 19] = [2; 0; 3; 0] ∧
    header_bytes m hdr [20; 21; 22; 23] = [1; 0; 0; 0] ∧ header_bytes m hdr [36; 37; 38; 39] = [0; 0; 0; 0] ∧
    header_bytes m hdr [44; 45] ≠ [0; 0]))); [by destruct_and!; split|by match goal with Hn : ¬ _ |- _ => intros []; apply Hn end].
Defined.

Lemma header_valid_spec m hdr : bytes_ok m → header_valid m hdr = true ↔ executable_header m hdr.
Proof.
  intros Hb. assert (Hr : ∀ x, 0 ≤ m x < 256) by apply Hb. unfold header_valid, e_phnum. cbn [load].
  rewrite <- !Z.add_assoc. 
  repeat match goal with |- context [Zpos ?a + Zpos ?b] => let c := eval vm_compute in (Zpos a + Zpos b) in change (Zpos a + Zpos b) with c end.
  pose proof (Hr (u32 (hdr + 16))). pose proof (Hr (u32 (hdr + 17))). pose proof (Hr (u32 (hdr + 18))). pose proof (Hr (u32 (hdr + 19))).
  pose proof (Hr (u32 (hdr + 20))). pose proof (Hr (u32 (hdr + 21))). pose proof (Hr (u32 (hdr + 22))). pose proof (Hr (u32 (hdr + 23))).
  pose proof (Hr (u32 (hdr + 36))). pose proof (Hr (u32 (hdr + 37))). pose proof (Hr (u32 (hdr + 38))). pose proof (Hr (u32 (hdr + 39))).
  pose proof (Hr (u32 (hdr + 44))). pose proof (Hr (u32 (hdr + 45))). rewrite !andb_true_iff, !Z.eqb_eq, negb_true_iff, Z.leb_gt. split.
  - intros Hv. split; unfold header_bytes; cbn [fmap list_fmap]; rewrite ?Z.add_0_r; try (repeat f_equal; lia). intros [= ? ?]. lia.
  - intros [E1 E2 E3 E4 E5]. unfold header_bytes in *. cbn [fmap list_fmap] in *. rewrite Z.add_0_r in E1.
    injection E1 as ? ? ? ?. injection E2 as ? ? ? ?. injection E3 as ? ? ? ?. injection E4 as ? ? ? ?.
    split_and!; try lia. assert (¬ (m (u32 (hdr + 44)) = 0 ∧ m (u32 (hdr + 45)) = 0)) by (intros [E E']; by rewrite E, E' in E5). lia.
Qed.

(** C24: [load_elfimage] puts a program where it expects itself.  It asks sigma0 for
    exactly the pages of the module, in order, and stops at the first that is refused or
    when the record is no module.  An image whose header is not that of a program for this
    machine ([executable_header]) gives 0 and leaves memory as it is.  Of one that has such a header, the theorem
    is about those whose segments lie in the module, have no more bytes in the file than in memory,
    do not wrap around and are away from the image: then every byte of memory is the byte of
    the last segment that holds its address, 0 behind the data in the file and unchanged
    outside the segments, and the entry point is returned.  (The code checks none of this,
    see the findings.) *)
Theorem load_elfimage_contract rec s :
  let m := root_mem s in
  let hdr := L4_Module_Start m rec in
  let len := L4_Module_Size m rec in
  let pages := module_pages (pagesize s) hdr len in
  let s1 := log (asked (pagesize s) pages) s in
  bytes_ok m → 0 < pagesize s ≤ 2 ^ 31 → hdr + len + pagesize s ≤ 2 ^ 32 →
  (executable_header m hdr → file_ok m hdr len ∧ Forall (segment_apart hdr len) (phdrs m hdr)) →
  (L4_Type m rec ≠ L4_BootInfo_Module → load_elfimage rec s = Halted s) ∧
  (L4_Type m rec = L4_BootInfo_Module →
    (forallb sigma0_grants pages = false → load_elfimage rec s = Halted s1) ∧
    (forallb sigma0_grants pages = true →
      (executable_header m hdr → ∃ m1, (∀ x, m1 x = program_byte m hdr (phdrs m hdr) x) ∧
        load_elfimage rec s = Done (e_entry m hdr) (s1 <| root_mem := m1 |>)) ∧
      (¬ executable_header m hdr → load_elfimage rec s = Done 0 s1))).
Proof.
  intros m hdr len pages s1 Hb Hp He Hfile. rewrite load_elfimage_eq by done. fold m hdr len pages s1.
  split; [intros Ht; by rewrite (proj2 (Z.eqb_neq _ _) Ht)|].
  intros Ht. rewrite (proj2 (Z.eqb_eq _ _) Ht). split; intros Hg; rewrite Hg; [done|].
  pose proof (header_valid_spec m hdr Hb) as Hv. split; intros Hh.
  - rewrite (proj2 Hv Hh). destruct (Hfile Hh) as [Hok Hap]. destruct (loaded_image m hdr len Hok Hap) as [Hm <-]. cbn [negb]. eauto.
  - rewrite <- Hv in Hh. by apply not_true_is_false in Hh as ->.
Qed.
End load.

(** * The name service *)

Inductive request := AskAnnounce (type thread : Z) | AskLocate (type : Z).
Inductive answer := Conflict (b : bool) | Found (thread : Z).

Definition serve (r : request) : Srv locator answer :=
  match r with
  | AskAnnounce type thread => b ← locator_Announce type thread; mret (Conflict b)
  | AskLocate type => t ← locator_Locate type; mret (Found t)
  end.

Fixpoint serve_all (l : list request) : Srv locator (list answer) :=
  match l with [] => mret [] | r :: l => a ← serve r; l ← serve_all l; mret (a :: l) end.

(** The thread that has the interface [c] (mod 16) after the announcements [h]: the first
    that announced it. *)
Definition holder (h : list (Z * Z)) (c : Z) : Z :=
  match list_find (λ a, a.1 mod 16 = c ∧ a.2 ≠ L4_nilthread) h with Some (_, a) => a.2 | None => L4_nilthread end.

Fixpoint expected (h : list (Z * Z)) (l : list request) : list answer :=
  match l with
  | [] => []
  | AskAnnounce type thread :: l =>
      Conflict (negb (L4_IsNilThread (holder h (type mod 16)))) :: expected (h ++ [(type, thread)]) l
  | AskLocate type :: l => Found (holder h (type mod 16)) :: expected h l
  end.

Definition type_of (r : request) : Z := match r with AskAnnounce type _ | AskLocate type => type end.

Definition represents (s : locator) (h : list (Z * Z)) : Prop :=
  length (services s) = 16%nat ∧ ∀ c, 0 ≤ c < 16 → services s !! Z.to_nat c = Some (holder h c).

Lemma holder_app h a c : holder (h ++ [a]) c
  = if L4_IsNilThread (holder h c) && bool_decide (a.1 mod 16 = c) then a.2 else holder h c.
Proof.
  unfold holder. destruct (list_find _ h) as [[i b]|] eqn:E.
  - rewrite (list_find_app_l _ _ _ _ _ E). apply list_find_Some in E as (_&[_ Hb]&_).
    unfold L4_IsNilThread. by rewrite (proj2 (Z.eqb_neq b.2 0) Hb).
  - rewrite list_find_app_r by done. simpl. destruct (bool_decide_reflect (a.1 mod 16 = c)) as [Hc|Hc].
    + destruct (decide (a.2 = L4_nilthread)) as [->|]; [by rewrite decide_False by naive_solver|].
      by rewrite decide_True.
    + by rewrite decide_False by naive_solver.
Qed.

Lemma slot_spec type s : 0 ≤ type < 128 → slot type s = Done (Z.to_nat (type mod 16)) s.
Proof.
  intros Ht. unfold slot, MAX_INTERFACEID. rewrite i8_id, Z.rem_mod_nonneg by lia.
  rewrite (proj2 (Z.ltb_ge _ _)) by (apply Z.mod_pos_bound; lia). done.
Qed.

Lemma serve_spec r s h : 0 ≤ type_of r < 128 → represents s h →
  runs (serve r) (λ a s', ∃ h', represents s' h' ∧ ∀ l, expected h (r :: l) = a :: expected h' l) s.
Proof.
  intros Ht [Hl Hs]. pose proof (Z.mod_pos_bound (type_of r) 16 ltac:(lia)) as Hc. pose proof (Hs _ Hc) as Hlk.
  destruct r as [type thread|type]; simpl in *.
  - unfold locator_Announce. apply runs_bind, runs_bind. unfold runs. rewrite slot_spec by done.
    apply runs_bind. eapply runs_peek; [exact Hlk|]. cbn [id].
    destruct (L4_IsNilThread (holder h (type mod 16))) eqn:En.
    + apply runs_bind. eapply runs_poke; [exact Hlk|]. do 2 apply runs_ret.
      exists (h ++ [(type, thread)]). split; [|done]. split; [by rewrite <- Hl; apply length_insert|].
      intros c Hc'. rewrite holder_app. simpl. destruct (bool_decide_reflect (type mod 16 = c)) as [<-|Hne].
      * rewrite En. simpl. by apply list_lookup_insert_eq; rewrite Hl; lia.
      * rewrite andb_false_r. rewrite <- Hs by done. apply list_lookup_insert_ne. lia.
    + do 2 apply runs_ret. exists (h ++ [(type, thread)]). split; [|done]. split; [done|].
      intros c Hc'. rewrite holder_app. simpl. destruct (bool_decide_reflect (type mod 16 = c)) as [<-|Hne].
      * rewrite En. by apply Hs.
      * rewrite andb_false_r. by apply Hs.
  - unfold locator_Locate. apply runs_bind, runs_bind. unfold runs. rewrite slot_spec by done.
    eapply runs_peek; [exact Hlk|]. apply runs_ret. by exists h.
Qed.

(** the name service is the map it stands for: from its start on, whatever is
    announced and asked, an interface is with the thread that announced it first (the
    service itself with the name service), a later announcement is a conflict and changes
    nothing, and an interface nobody announced is with the nil thread. *)
Theorem locator_refines_map me l s :
  length (services s) = 16%nat → Forall (λ r, 0 ≤ type_of r < 128) l →
  runs (init_locator me;; serve_all l) (λ answers _, answers = expected [(IF_LOCATOR_ID, me)] l) s.
Proof.
  intros Hs Hl. apply runs_bind. unfold init_locator. apply runs_bind, runs_update.
  eapply runs_poke; [done|].
  assert (H0 : represents (s <| services := <[2%nat := me]> (replicate 16 L4_nilthread) |>) [(IF_LOCATOR_ID, me)]).
  { split; [done|]. intros c Hc. unfold holder. simpl.
    destruct (decide (c = 2)) as [->|Hne].
    - destruct (decide _) as [|Hme]; [done|]. simpl. f_equal.
      destruct (decide (me = L4_nilthread)); [done|]. exfalso. by apply Hme.
    - rewrite decide_False by (intros [E _]; by apply Hne). simpl.
      assert (c = 0 ∨ c = 1 ∨ c = 3 ∨ c = 4 ∨ c = 5 ∨ c = 6 ∨ c = 7 ∨ c = 8 ∨ c = 9 ∨ c = 10 ∨ c = 11 ∨
        c = 12 ∨ c = 13 ∨ c = 14 ∨ c = 15) as Hcs by lia.
      repeat destruct Hcs as [->|Hcs]; try done. by subst c. }
  revert H0. generalize [(IF_LOCATOR_ID, me)]. change (cells ?x) with (services x).
  match goal with |- ∀ h, represents ?a h → runs _ _ ?b => change b with a; generalize a end.
  clear Hs. induction Hl as [|r l Hr Hl IH]; intros s0 h Hrep; [by apply runs_ret|].
  cbn [serve_all]. apply runs_bind. eapply runs_mono; [by apply (serve_spec r s0 h)|].
  intros a s' (h'&Hrep'&He). apply runs_bind. eapply runs_mono; [by apply IH|].
  intros answers s'' ->. apply runs_ret. symmetry. apply He.
Qed.

Section boot.
Context `{Boot}.

(** * Scripts

    A call whose answer is not looked at, a call that is given up on when the answer (a function of
    the calls before) is no, or a condition without which there is no going on. *)

Inductive step :=
  | Call (c : root_call)
  | Tested (c : root_call) (answer : list root_call → bool)
  | Need (condition : bool).

(** Whether the script ends, and the calls after those of [h]. *)
Fixpoint perform (l : list step) (h : list root_call) : bool * list root_call :=
  match l with
  | [] => (true, h)
  | Call c :: l => perform l (h ++ [c])
  | Tested c answer :: l => if answer h then perform l (h ++ [c]) else (false, h ++ [c])
  | Need condition :: l => if condition then perform l h else (false, h)
  end.

(** The calls of a script, when nothing stops it. *)
Fixpoint script_calls (l : list step) : list root_call :=
  match l with
  | [] => []
  | (Call c | Tested c _) :: l => c :: script_calls l
  | Need _ :: l => script_calls l
  end.

(** Nothing stops it. *)
Fixpoint smooth (l : list step) : Prop :=
  match l with
  | [] => True
  | Call _ :: l => smooth l
  | Tested _ answer :: l => (∀ h, answer h = true) ∧ smooth l
  | Need condition :: l => condition = true ∧ smooth l
  end.

Lemma perform_app l1 l2 h :
  perform (l1 ++ l2) h = if (perform l1 h).1 then perform l2 (perform l1 h).2 else perform l1 h.
Proof.
  revert h. induction l1 as [|[c|c answer|b] l1 IH]; intros h; cbn [perform app]; try done.
  - destruct (answer h); [apply IH|done].
  - destruct b; [apply IH|done].
Qed.
Lemma perform_smooth l h : smooth l → perform l h = (true, h ++ script_calls l).
Proof.
  revert h. induction l as [|[c|c answer|b] l IH]; intros h; cbn [perform smooth script_calls].
  - by rewrite app_nil_r.
  - intros Hl. by rewrite IH, <- app_assoc.
  - intros [-> Hl]. by rewrite IH, <- app_assoc.
  - intros [-> Hl]. by apply IH.
Qed.

(** A run performs the script [l]: it returns when the script ends and stops when it does. *)
Definition makes {A} (f : Srv root A) (l : list step) (Q : A → root → Prop) (s : root) : Prop :=
  match f s with
  | Done a s' => perform l (calls s) = (true, calls s') ∧ Q a s'
  | Halted s' => perform l (calls s) = (false, calls s')
  | _ => False
  end.

Lemma makes_bind {A B} l1 l2 (f : Srv root A) (k : A → Srv root B) Q s :
  makes f l1 (λ a s', makes (k a) l2 Q s') s → makes (f ≫= k) (l1 ++ l2) Q s.
Proof.
  unfold makes, mbind, Srv_bind. rewrite perform_app. destruct (f s) as [a s'|s'| |]; try done.
  - by intros [-> He].
  - by intros ->.
Qed.

(** A step that calls nothing. *)
Lemma makes_quiet {A B} l (f : Srv root A) (k : A → Srv root B) Q s a s' :
  f s = Done a s' → calls s' = calls s → makes (k a) l Q s' → makes (f ≫= k) l Q s.
Proof. intros E Ec. unfold makes. rewrite (bind_done _ _ _ _ _ E). by rewrite Ec. Qed.

Lemma makes_ret {A} (a : A) (Q : A → root → Prop) s : Q a s → makes (mret a) [] Q s.
Proof. by split. Qed.
Lemma makes_call c Q s : Q tt (log [c] s) → makes (call c) [Call c] Q s.
Proof. by split. Qed.
Lemma makes_need {A} b (k : Srv root A) l Q s : makes k l Q s → makes (if negb b then halt else k) (Need b :: l) Q s.
Proof. intros Hk. destruct b; [exact Hk|done]. Qed.

(** A call of the kernel that the root task checks. *)
Lemma makes_checked {B} c answer l (f : Srv root bool) (k : Srv root B) Q s :
  f s = Done (answer (calls s)) (log [c] s) → makes k l Q (log [c] s) →
  makes (b ← f; if negb b then halt else k) (Tested c answer :: l) Q s.
Proof.
  intros E Hk. unfold makes. rewrite (bind_done _ _ _ _ _ E). cbn [perform]. by destruct (answer (calls s)).
Qed.

Lemma makes_set {B} f (k : Srv root B) l Q s :
  calls (f s) = calls s → makes k l Q (f s) → makes (update f;; k) l Q s.
Proof. intros Ec He. by apply (makes_quiet _ _ (λ _, k) _ _ tt (f s)). Qed.

(** One step of the start, with the fact about the state [Hb]. *)
Tactic Notation "next" uconstr(lemma) :=
  match goal with
  | Hb : _ |- makes _ _ _ ?s =>
      eapply lemma; try exact Hb; try lia; try done; try (by destruct Hb); clear s Hb; intros s Hb
  end.

(** * The state while the system comes up *)

Definition page : Z := u32 (Z.shiftl 1 page_size_log2).
Definition tid (i : Z) : Z := L4_GlobalId (L4_ThreadNo myself + 1 + i) 1.
Definition utcb (i : Z) : Z := Z.land (u32 (my_local_id + utcb_size * i)) (2 ^ 32 - 1 - (utcb_size - 1)).
Definition area : Z := L4_FpageLog2 my_local_id (utcb_area_log2 + 1).

(** [i] threads have their ids, the loader is [d], and memory is [m]. *)
Record booting (i d : Z) (m : memory) (s : root) : Prop := {
  bt_next : next_thread_no s = L4_ThreadNo myself + 1 + i;
  bt_page : pagesize s = page;
  bt_utcb : utcbsize s = utcb_size;
  bt_area : utcbarea s = area;
  bt_loader : ram_dsm_id s = d;
  bt_mem : root_mem s = m;
}.

Context (Hme : 0 ≤ L4_ThreadNo myself < 2 ^ 18 - 6).

Lemma booting_log l i d m s : booting i d m s → booting i d m (log l s).
Proof. by intros []. Qed.

Lemma makes_new_thread {B} i d m (k : Z → Srv root B) l Q s :
  0 ≤ i < 5 → booting i d m s →
  (∀ s', booting (i + 1) d m s' → makes (k (tid i)) l Q s') →
  makes (t ← get_free_threadid; k t) l Q s.
Proof.
  intros Hi [] Hk. eapply makes_quiet; [done|done|]. rewrite bt_next0. apply Hk. split; try done.
  change (u32 (L4_ThreadNo myself + 1 + i + 1) = L4_ThreadNo myself + 1 + (i + 1)). rewrite u32_id; lia.
Qed.

(** What starts a thread of the root task, and the space of a server. *)
Definition thread_steps (t i ip : Z) : list step :=
  [Tested (ThreadControl t myself myself my_pager (utcb i)) thread_control; Call (Start t (stack_top i) ip)].
Definition space_steps (t pager : Z) : list step :=
  [Tested (ThreadControl t t myself L4_nilthread no_utcb) thread_control;
   Tested (SpaceControl t 0 kip_area area L4_anythread) space_control;
   Tested (ThreadControl t t L4_nilthread pager (L4_Address area)) thread_control].
Definition page_step (a : Z) : step := Tested (GetPage (L4_Fpage a page)) (λ _, sigma0_grants a).

(** What the stack says the startup message is: the tag, of which the flags are set, the
    entry point, 0, and what the message holds behind; as many words as the tag counts. *)
Definition startup_words : Z := Message.tag_u stack_mtag + Message.tag_t stack_mtag.
Definition startup_registers (ip : Z) : list Z :=
  take (Z.to_nat startup_words + 1)
    (Message.tag_of (Message.tag_label stack_mtag) 1 (Message.tag_t stack_mtag) (Message.tag_u stack_mtag)
     :: ip :: 0 :: drop 3 stack_msg).
Record stack_ok : Prop := {
  st_msg : length stack_msg = 64%nat;
  st_mtag : startup_words ≤ 63;
}.

Lemma makes_update {B} i d m f (k : Srv root B) l Q s :
  booting i d m s → calls (f s) = calls s → booting i d m (f s) → (∀ s', booting i d m s' → makes k l Q s') →
  makes (update f;; k) l Q s.
Proof. intros _ Ec Hb Hk. apply makes_set; auto. Qed.

Lemma makes_next {B} i d m c (k : Srv root B) l Q s :
  booting i d m s → (∀ s', booting i d m s' → makes k l Q s') → makes (call c;; k) (Call c :: l) Q s.
Proof. intros Hb Hk. apply (makes_bind [Call c]), makes_call, Hk. by apply booting_log. Qed.

Lemma makes_request_page {B} i d m a (k : Srv root B) l Q s :
  booting i d m s → (∀ s', booting i d m s' → makes k l Q s') →
  makes (b ← request_page a; if negb b then halt else k) (page_step a :: l) Q s.
Proof.
  intros Hb Hk. unfold page_step. rewrite <- (bt_page _ _ _ _ Hb). apply makes_checked; [done|]. by apply Hk, booting_log.
Qed.

Lemma makes_start_thread {B} j d m t i ip (k : Srv root B) l Q s :
  booting j d m s → (∀ s', booting j d m s' → makes k l Q s') →
  makes (u ← UTCBaddress i; start_thread t ip (stack_top i) my_pager u;; k) (thread_steps t i ip ++ l) Q s.
Proof.
  intros Hb Hk. eapply makes_quiet; [done|done|]. rewrite (bt_utcb _ _ _ _ Hb). fold (utcb i).
  apply makes_bind, makes_checked; [done|]. apply (makes_bind [_] []), makes_call, makes_ret, Hk.
  by do 2 apply booting_log.
Qed.

(** The flags are set and nothing else. *)
Lemma propagation_counts t :
  Message.tag_u (L4_Set_Propagation t) = Message.tag_u t ∧ Message.tag_t (L4_Set_Propagation t) = Message.tag_t t.
Proof.
  unfold L4_Set_Propagation.
  replace (Message.tag_of (Message.tag_label t) 1 (Message.tag_t t) (Message.tag_u t))
    with (Message.tag_of (Message.tag_label t mod 2 ^ 16) 1 (Message.tag_t t) (Message.tag_u t))
    by (unfold Message.tag_of; by rewrite Zmod_mod).
  destruct (Message.tag_parts (Message.tag_label t mod 2 ^ 16) 1 (Message.tag_t t) (Message.tag_u t)) as (_&_&?&?);
    unfold Message.tag_t, Message.tag_u in *; try done; by apply Z.mod_pos_bound.
Qed.

Lemma startup_message_spec ip : stack_ok → startup_message ip = Some (startup_registers ip).
Proof.
  intros [Hl Ht]. unfold startup_message, startup_registers, startup_words in *.
  destruct stack_msg as [|a [|b [|c rest]]]; try done. simpl. destruct (propagation_counts stack_mtag) as [-> ->].
  assert (0 ≤ Message.tag_u stack_mtag ∧ 0 ≤ Message.tag_t stack_mtag) as [? ?] by (split; by apply Z.mod_pos_bound).
  rewrite <- Z2Nat.inj_add by done. rewrite Message.words_at_spec; [done|]. simpl in Hl |- *. lia.
Qed.

Lemma makes_start_task {B} j d m t ip pager (k : Srv root B) l Q s :
  stack_ok → booting j d m s → (∀ s', booting j d m s' → makes k l Q s') →
  makes (start_task t ip pager area;; k) (space_steps t pager ++ Call (Send pager t (startup_registers ip)) :: l) Q s.
Proof.
  intros Hst Hb Hk. apply (makes_bind (space_steps t pager ++ [Call (Send pager t (startup_registers ip))]) l).
  apply makes_checked; [done|]. eapply makes_quiet; [done|done|]. rewrite (bt_area _ _ _ _ (booting_log _ _ _ _ _ Hb)).
  do 2 (apply makes_checked; [done|]).
  eapply makes_quiet; [by rewrite startup_message_spec|done|]. apply (makes_bind [_] []), makes_call, makes_ret, Hk.
  by do 4 apply booting_log.
Qed.

Lemma makes_activate_module {B} j d m t module (k : Srv root B) l Q s :
  booting j d m s → (∀ s', booting j d m s' → makes k l Q s') →
  makes (activate_module t module;; k)
    (space_steps t d ++ Call (AssociateImage d t module) :: l) Q s.
Proof.
  intros Hb Hk. apply (makes_bind (space_steps t d ++ [Call (AssociateImage d t module)]) l).
  apply makes_checked; [done|]. eapply makes_quiet; [done|done|]. rewrite (bt_area _ _ _ _ (booting_log _ _ _ _ _ Hb)).
  apply makes_checked; [done|]. eapply makes_quiet; [done|done|].
  change (ram_dsm_id (log _ (log _ s))) with (ram_dsm_id s). rewrite (bt_loader _ _ _ _ Hb).
  apply makes_checked; [done|]. apply makes_call, Hk. by do 4 apply booting_log.
Qed.

(** The module of the server that loads the others, and where it is entered. *)
Definition loader_module (m : memory) : Z := next_records m 3 (L4_BootInfo_FirstEntry m boot_info).
Definition loader_start (m : memory) : Z := L4_Module_Start m (loader_module m).
Definition loader_size (m : memory) : Z := L4_Module_Size m (loader_module m).
Definition loader_entry (m : memory) : Z :=
  if decide (executable_header m (loader_start m)) then e_entry m (loader_start m) else 0.

Lemma makes_find_module {B} i d m (k : Z → Srv root B) l Q s :
  booting i d m s → (∀ s', booting i d m s' → makes (k (loader_module m)) l Q s') →
  makes (rec ← find_module 3 boot_info; k rec) (Need (3 <=? L4_BootInfo_Entries m boot_info) :: l) Q s.
Proof.
  intros Hb Hk. apply (makes_bind [_]). unfold find_module. eapply makes_quiet; [done|done|].
  rewrite (bt_mem _ _ _ _ Hb), Z.ltb_antisym. apply makes_need. by apply makes_ret, Hk.
Qed.

Lemma perform_pages l h : perform (page_step <$> l) h = (forallb sigma0_grants l, h ++ asked page l).
Proof.
  revert h. induction l as [|a l IH]; intros h; cbn [fmap list_fmap perform page_step asked forallb]; [by rewrite app_nil_r|].
  destruct (sigma0_grants a); [|done]. rewrite IH. by rewrite <- app_assoc.
Qed.

(** A module that is loaded without harm to itself. *)
Record loader_ok (m : memory) : Prop := {
  lo_bytes : bytes_ok m;
  lo_page : 0 < page ≤ 2 ^ 31;
  lo_range : loader_start m + loader_size m + page ≤ 2 ^ 32;
  lo_file : executable_header m (loader_start m) →
    file_ok m (loader_start m) (loader_size m) ∧
    Forall (segment_apart (loader_start m) (loader_size m)) (phdrs m (loader_start m));
}.

Lemma makes_load {B} j d m (k : Z → Srv root B) l Q s :
  loader_ok m → booting j d m s → (∀ s', (∃ m', booting j d m' s') → makes (k (loader_entry m)) l Q s') →
  makes (ip ← load_elfimage (loader_module m); k ip)
    (Need (L4_Type m (loader_module m) =? L4_BootInfo_Module) ::
     (page_step <$> module_pages page (loader_start m) (loader_size m)) ++ l) Q s.
Proof.
  intros [Hb Hp He Hf] [] Hk. apply (makes_bind (Need _ :: _)). unfold makes at 1. rewrite load_elfimage_eq by by rewrite ?bt_mem0, ?bt_page0.
  rewrite bt_mem0, bt_page0. fold (loader_start m) (loader_size m). cbn [perform]. rewrite perform_pages.
  destruct (L4_Type m _ =? _); [|done]. destruct (forallb sigma0_grants _); cbn [negb]; [|done].
  unfold loader_entry in Hk. pose proof (header_valid_spec m (loader_start m) Hb) as Hv. destruct (decide _) as [Hh|Hh].
  - rewrite (proj2 Hv Hh). destruct (loaded_image m _ _ (proj1 (Hf Hh)) (proj2 (Hf Hh))) as [_ ->]. split; [done|]. apply Hk. by eexists.
  - rewrite <- Hv in Hh. apply not_true_is_false in Hh as ->. split; [done|]. apply Hk. by eexists.
Qed.

(** Everything the root task does to bring the system up. *)
Definition boot_script (m : memory) : list step :=
  thread_steps (tid 0) 1 locator_server ++ thread_steps (tid 1) 2 syscall_server ++
  [page_step boot_info; Need (L4_BootInfo_Valid m boot_info); Call (Announce (tid 0) IF_SYSCALL_ID (tid 1))] ++
  thread_steps (tid 2) 3 pager_loop ++
  [Need (3 <=? L4_BootInfo_Entries m boot_info); Need (L4_Type m (loader_module m) =? L4_BootInfo_Module)] ++
  (page_step <$> module_pages page (loader_start m) (loader_size m)) ++
  space_steps (tid 3) (tid 2) ++
  [Call (Send (tid 2) (tid 3) (startup_registers (loader_entry m))); Call (RegisterLocator (tid 3) (tid 0))] ++
  space_steps (tid 4) (tid 3) ++ [Call (AssociateImage (tid 3) (tid 4) 5)] ++
  ((λ i, Call (StartTask (tid 4) i)) <$> [4; 6; 7; 8; 9]).

Lemma makes_main s : stack_ok → loader_ok (root_mem s) → makes main (boot_script (root_mem s)) (λ _ _, True) s.
Proof.
  generalize (eq_refl (root_mem s)). generalize (root_mem s) at -2. intros m Em Hst Hok.
  unfold main, boot_script. do 5 (apply makes_set; [done|]).
  match goal with |- makes _ _ _ ?s1 => assert (booting 0 (ram_dsm_id s) m s1) as Hb; [|revert Hb; generalize s1] end.
  { split; try done. change (u32 (L4_ThreadNo myself + 1) = L4_ThreadNo myself + 1 + 0). rewrite u32_id; lia. }
  generalize (ram_dsm_id s). clear Em s. intros d s Hb.
  do 2 (next makes_new_thread; next makes_update; next makes_start_thread).
  next makes_request_page. eapply makes_quiet; [done|done|]. rewrite (bt_mem _ _ _ _ Hb).
  apply makes_need. next makes_next. next makes_new_thread. next makes_start_thread.
  next makes_find_module. next makes_load. clear Hok. destruct Hb as [m' Hb].
  generalize (loader_entry m). intros entry. next makes_new_thread.
  eapply (makes_set _ _ _ _ s); [done|].
  match goal with |- makes _ _ _ ?s1 => assert (booting 4 (tid 3) m' s1) as Hb'; [by destruct Hb|revert Hb'; generalize s1] end.
  clear s d Hb. intros s Hb. eapply makes_quiet; [done|done|]. rewrite (bt_area _ _ _ _ Hb).
  next makes_start_task. next makes_next. next makes_new_thread. next makes_update. next makes_activate_module.
Qed.

(** C25: how the system comes up.  The root task performs [boot_script], step by step: the
    name service before the first announcement, a pager before the server that is started
    with it, the loader before the servers it loads.  It makes the calls in this order
    and no other, stops exactly at the first call that the kernel or sigma0 refuses, or
    where the boot information is not valid, has less than three records, or its record is
    no module; without such a failure [main] comes to its end and has made all the calls.  The five threads
    have different ids.  The conditions: the image of the loader is well-formed
    ([loader_ok], as for C24), the message tag that [start_task] finds on the stack
    counts no more words than a message has ([stack_ok]), and the thread number of the root
    task leaves room for five more in its 18 bits.  The registers of the startup
    message are what the code sends, which is the entry point only if that tag counts a word
    (see the findings). *)
Theorem main_boot_order s :
  let m := root_mem s in
  stack_ok → loader_ok m →
  (∃ s', main s = (if (perform (boot_script m) (calls s)).1 then Done tt s' else Halted s') ∧
     calls s' = (perform (boot_script m) (calls s)).2) ∧
  (smooth (boot_script m) → ∃ s', main s = Done tt s' ∧ calls s' = calls s ++ script_calls (boot_script m)) ∧
  NoDup (tid <$> [0; 1; 2; 3; 4]).
Proof.
  intros m Hst Hok. pose proof (makes_main s Hst Hok) as He. unfold makes in He. fold m in He. split_and!.
  - destruct (main s) as [[] s'|s'| |]; try done; [destruct He as [-> _]|rewrite He]; by exists s'.
  - intros Hl. rewrite perform_smooth in He by done. destruct (main s) as [[] s'|s'| |]; try done.
    destruct He as [[= E] _]. by exists s'.
  - simpl. unfold tid, L4_GlobalId. rewrite !Z.mod_small by lia.
    repeat (apply NoDup_cons; split; [rewrite ?not_elem_of_cons; split_and?; try lia; apply not_elem_of_nil|]).
    apply NoDup_nil_2.
Qed.
End boot.
