(* ===== verification/Shell.v ===== *)
(** The shell (src/sdios/src/shell/main.cc): the line that is edited, its words, and the
    commands.

    The calls to the other servers are a log; what they do to the memory of the shell and
    what they answer is the class [System], which may depend on the calls before.  The
    arguments of a command are offsets in the line: those that the line does not have are
    pointers the shell never set, and their use is undefined here.  [outbuf] and
    [filenamebuf] are left out: they are pointers that stay null, and their fields are
    set anew before each use. *)

From stdpp Require Import strings.
From S2P Require Import Prelude Machine Server L4Types ElfLoader Keyboard.

Definition MAX_COMMAND_LENGTH : nat := 200.
Definition OUT_BUF_SIZE : nat := 8.
Definition KEY_BACKSPACE : Z := 8.
Definition MAXFILE : nat := 256.

Inductive shell_call :=
  | ConsoleWrite (buffer : list Z) (len : Z)
  | ConsoleDelete (numChars : Z)
  | ConsoleClear
  | MapFile (name : list Z) (window : Z)
  | Flush (fpage : Z)
  | StartTask (path : list Z)
  | WaitTid (thread : Z)
  | CreateFile (name : list Z) (size : Z)
  | DeleteFile (name : list Z)
  | ListFiles
  | Sigma0_GetPage (phys virt : Z)
  | RootPagefault (phys target : Z).

Class System := {
  map_file : list shell_call → list Z → Z → memory → memory;
  file_fpage : list shell_call → list Z → Z;
  sigma0_maps : list shell_call → Z → Z → memory → option memory;
  root_maps : list shell_call → Z → Z → memory → memory;
  list_files : list shell_call → list Z → list Z;
  start_task : list shell_call → list Z → Z;
  kip_BootInfo : Z;
}.

Record shell := Shell {
  cmdChars : list Z;
  cmdPointer : nat;
  inChars : list Z;
  outChars : list Z;
  filenames : list Z;
  modulePos : list Z;
  moduleSize : list Z;
  nextPos : Z;
  sh_mem : memory;
  sh_calls : list shell_call;
}.
#[global] Instance shell_fields : Fields shell := λ r, {|
  cmdChars := cmdChars r; cmdPointer := cmdPointer r; inChars := inChars r; outChars := outChars r;
  filenames := filenames r; modulePos := modulePos r; moduleSize := moduleSize r; nextPos := nextPos r;
  sh_mem := sh_mem r; sh_calls := sh_calls r |}.

Section shell.
Context `{System}.

Definition call (c : shell_call) : Srv shell unit := update (λ s, s <| sh_calls ::= λ l, l ++ [c] |>).

(** A read or a store of a character in one of the arrays. *)
Definition char_at (f : shell → list Z) (i : nat) : Srv shell Z := l ← get f; follow (l !! i).
Definition set_cmdChar (i : nat) (c : Z) : Srv shell unit :=
  l ← get cmdChars; l ← follow (put i c l); update (λ s, s <| cmdChars := l |>).
Definition set_outChar (i : nat) (c : Z) : Srv shell unit :=
  l ← get outChars; l ← follow (put i c l); update (λ s, s <| outChars := l |>).

(** * Output *)

(** [for (k = 0; k < OUT_BUF_SIZE; k++)], from [k] on; [pos] is the place in the string,
    and the result is [k] and the place after the loop. *)
Fixpoint fill_outChars (n k pos : nat) (c : list Z) : Srv shell (nat * nat) :=
  match n with
  | O => mret (k, pos)
  | S n =>
      ch ← follow (c !! pos);
      set_outChar k ch;;
      if ch =? 0 then mret (k, S pos) else fill_outChars n (S k) (S pos) c
  end.

(** [for (i = 0; i < numChars; i += OUT_BUF_SIZE)] *)
Fixpoint print_from (fuel i numChars pos : nat) (c : list Z) : Srv shell unit :=
  if (i <? numChars)%nat then
    match fuel with
    | O => spins
    | S fuel =>
        r ← fill_outChars OUT_BUF_SIZE 0 pos c;
        out ← get outChars;
        call (ConsoleWrite out (Z.of_nat r.1));;
        print_from fuel (i + OUT_BUF_SIZE) numChars r.2 c
    end
  else mret tt.

(** The characters at the argument. *)
Definition print (c : list Z) : Srv shell unit :=
  numChars ← follow (strlen c);
  print_from numChars 0 numChars 0 c.

Definition print_literal (s : string) : Srv shell unit := print (txt s ++ [0]).
Definition printPromt : Srv shell unit := print_literal "# ".

Definition newline : string := String.String (Ascii.ascii_of_nat 10) String.EmptyString.

(** * The line *)

(** The loop over the characters of a buffer; the result is what is left of [numchars],
    the characters to print, and whether the line is complete. *)
Fixpoint edit (fuel i : nat) (numchars : Z) (cleanChars : list Z) (cleanPointer : nat) (exCmd : bool) :
    Srv shell (Z * list Z * bool) :=
  if Z.of_nat i <? numchars then
    match fuel with
    | O => spins
    | S fuel =>
        ch ← char_at inChars i;
        if ch =? KEY_BACKSPACE then
          p ← get cmdPointer;
          if (0 <? p)%nat then
            update (λ s, s <| cmdPointer ::= pred |>);;
            call (ConsoleDelete 1);;
            edit fuel (S i) (numchars - 1) cleanChars cleanPointer exCmd
          else edit fuel (S i) numchars cleanChars cleanPointer exCmd
        else if ch =? 10 then
          cleanChars ← follow (put cleanPointer ch cleanChars);
          p ← get cmdPointer;
          set_cmdChar p ch;;
          set_cmdChar (S p) 0;;
          update (λ s, s <| cmdPointer := S (S p) |>);;
          edit fuel (S i) numchars cleanChars (S cleanPointer) true
        else if ch =? 9 then
          print_literal "    ";;
          edit fuel (S i) numchars cleanChars cleanPointer exCmd
        else
          cleanChars ← follow (put cleanPointer ch cleanChars);
          p ← get cmdPointer;
          set_cmdChar p ch;;
          update (λ s, s <| cmdPointer := S p |>);;
          edit fuel (S i) numchars cleanChars (S cleanPointer) exCmd
    end
  else mret (numchars, cleanChars, exCmd).

(** * The words of the line *)

(** [for (i = 0; cmdChars[i] != 0; i++)]: [argv] has the places where the words start. *)
Fixpoint split_words (fuel i : nat) (argv : list nat) : Srv shell (list nat) :=
  match fuel with
  | O => spins
  | S fuel =>
      ch ← char_at cmdChars i;
      if ch =? 0 then mret argv
      else if ch =? 32 then set_cmdChar i 0;; split_words fuel (S i) (argv ++ [S i])
      else if ch =? 10 then set_cmdChar i 0;; mret argv
      else split_words fuel (S i) argv
  end.

(** The string at a place of the line. *)
Fixpoint c_string (d : list Z) : option (list Z) :=
  match d with [] => None | c :: d => if c =? 0 then Some [] else cons c <$> c_string d end.
Definition string_at (p : nat) : Srv shell (list Z) := l ← get cmdChars; follow (c_string (drop p l)).
Definition argument (argv : list nat) (n : nat) : Srv shell (list Z) := p ← follow (argv !! n); string_at p.

(** * The commands *)

Definition window : Z := L4_FpageLog2 1073741824 18.
Definition window_size : Z := 262144.

Definition do_mapFile (name : list Z) : Srv shell Z :=
  h ← get sh_calls;
  call (MapFile name window);;
  update (λ s, s <| sh_mem ::= map_file h name window |>);;
  mret (file_fpage h name).

(** The file is printed up to its first NUL, which is in the window. *)
Definition cat (argv : list nat) : Srv shell unit :=
  name ← argument argv 1;
  do_mapFile name;;
  m ← get sh_mem;
  print (m <$> seqZ 1073741824 window_size);;
  call (Flush window).

Definition start (argv : list nat) : Srv shell unit :=
  p ← follow (argv !! 1%nat);
  set_cmdChar (pred p) 47;;
  path ← string_at (pred p);
  h ← get sh_calls;
  call (StartTask path);;
  call (WaitTid (start_task h path)).

(** The digits of [argv[1]]. *)
Definition moduleNr (digits : list Z) : Z := foldl (λ n c, i32 (i32 (n * 10) + (i8 c - 48))) 0 digits.

(** [for (pos = 0; pos <= size; pos += 1024)] *)
Fixpoint get_pages (fuel : nat) (pos size start target : Z) : Srv shell unit :=
  if pos <=? size then
    match fuel with
    | O => spins
    | S fuel =>
        h ← get sh_calls;
        m ← get sh_mem;
        let phys := L4_FpageLog2 (u32 (start + pos)) 12 in
        let virt := L4_FpageLog2 (u32 (target + pos)) 12 in
        call (Sigma0_GetPage phys virt);;
        match sigma0_maps h phys virt m with
        | None => halt
        | Some m => update (λ s, s <| sh_mem := m |>);; get_pages fuel (u32 (pos + 1024)) size start target
        end
    end
  else mret tt.

Definition bootInfo : Z := 1610612736.

(** More rounds than pages of 1 KB in the address space: an endless loop. *)
Definition page_fuel (size : Z) : nat := Z.to_nat (size / 1024 + 2).

(** A module is mapped when it is asked for the first time. *)
Definition fetch_module (nr : Z) : Srv shell unit :=
  m ← get sh_mem;
  if L4_BootInfo_Entries m bootInfo <? u32 nr then halt else
  let aModule := next_records m (Z.to_nat (u32 nr)) (L4_BootInfo_FirstEntry m bootInfo) in
  if negb (L4_Type m aModule =? L4_BootInfo_Module) then halt else
  let size := L4_Module_Size m aModule in
  target ← get nextPos;
  update (λ s, s <| modulePos ::= <[Z.to_nat nr := target]> |> <| moduleSize ::= <[Z.to_nat nr := size]> |>);;
  update (λ s, s <| nextPos := u32 (target + 262144) |>);;
  get_pages (page_fuel size) 0 size (L4_Module_Start m aModule) target.

Definition download (argv : list nat) : Srv shell unit :=
  digits ← argument argv 1;
  let nr := moduleNr digits in
  name ← argument argv 2;
  call (CreateFile name 262144);;
  fpage ← do_mapFile name;
  if nr <? 0 then undefined else
  pos ← char_at modulePos (Z.to_nat nr);
  (if pos =? 0 then fetch_module nr else mret tt);;
  module ← char_at modulePos (Z.to_nat nr);
  size ← char_at moduleSize (Z.to_nat nr);
  update (λ s, s <| sh_mem ::= λ m, copy m 1073741824 module (Z.to_nat size) |>);;
  call (Flush fpage).

(** [for (i = 0; i < MAXFILE; i++)]: a name has 16 characters. *)
Fixpoint print_names (n : nat) (outpointer : nat) : Srv shell unit :=
  match n with
  | O => mret tt
  | S n =>
      ch ← char_at filenames outpointer;
      (if ch =? 0 then mret tt
       else l ← get filenames; print (drop outpointer l);; print_literal newline);;
      print_names n (outpointer + 16)
  end.

Definition ls : Srv shell unit :=
  h ← get sh_calls;
  call ListFiles;;
  update (λ s, s <| filenames ::= list_files h |>);;
  print_names MAXFILE 0.

Definition help : string :=
  "Available Shell Commands:" ++ newline ++ newline ++ "start" ++ newline ++ "download" ++ newline ++
  "rm $filename" ++ newline ++ "touch $filename" ++ newline ++ "cat $filename" ++ newline ++ "ls" ++ newline.

(** [switch(argv[0][0])] *)
Definition execute (argv : list nat) : Srv shell unit :=
  ch ← char_at cmdChars 0;
  if ch =? 99 then cat argv
  else if ch =? 115 then start argv
  else if ch =? 100 then download argv
  else if ch =? 114 then name ← argument argv 1; call (DeleteFile name)
  else if ch =? 116 then name ← argument argv 1; call (CreateFile name 9000)
  else if ch =? 108 then ls
  else if ch =? 63 then print_literal help
  else print_literal ("Shell-Error: Command not found" ++ newline).

(** * The shell *)

(** The loop has at most as many rounds as [inChars] has places: it is undefined behind. *)
Definition edit_fuel : nat := 9.
Definition split_fuel : nat := S MAX_COMMAND_LENGTH.

(** [if (exCmd)] *)
Definition run_line : Srv shell unit :=
  argv ← split_words split_fuel 0 [0%nat];
  execute argv;;
  update (λ s, s <| cmdPointer := 0%nat |>);;
  printPromt.

(** One round of [shell_loop], for the answer of the keyboard server. *)
Definition shell_round (kbbuf : keyboardBuffer) : Srv shell unit :=
  l ← get inChars;
  l ← follow (strncpy l 0 (Other (chars kbbuf)) 0 (OUT_BUF_SIZE - 1));
  update (λ s, s <| inChars := l |>);;
  r ← edit edit_fuel 0 (numchars kbbuf) (replicate 8 0) 0 false;
  (if r.1.1 =? 0 then mret tt else print r.1.2);;
  onlyif r.2 run_line.

Fixpoint shell_rounds (l : list keyboardBuffer) : Srv shell unit :=
  match l with [] => mret tt | kbbuf :: l => shell_round kbbuf;; shell_rounds l end.

(** What is printed before the loop. *)
Definition banner : Srv shell unit :=
  update (λ s, s <| cmdPointer := 0%nat |>);;
  print_literal ("sdiOS/06 v0.1" ++ newline ++ newline);;
  print_literal ("System Architecture Group" ++ newline);;
  print (txt "Universit" ++ [132] ++ txt ("t Karlsruhe (TH)" ++ newline) ++ [0]);;
  print (txt "Forschungsuniversit" ++ [132] ++ txt "t - gegr" ++ [129] ++ txt ("ndet 1825" ++ newline) ++ [0]);;
  print_literal newline;;
  print_literal ("(C) Copyright 2008 by Jan Tepelmann, Marcel Noe, Moritz Lapp" ++ newline);;
  print_literal newline;;
  print (txt "Type " ++ [34] ++ txt "?" ++ [34] ++ txt (" to see a list of available commands." ++ newline ++ newline) ++ [0]);;
  printPromt.

(** [synRootPf] *)
Definition synRootPf (physAddr target : Z) : Srv shell unit :=
  h ← get sh_calls;
  call (RootPagefault physAddr target);;
  update (λ s, s <| sh_mem ::= root_maps h physAddr target |>).

(** [while (base < bootInfo->size)]: [base] is never changed. *)
Fixpoint map_rest (fuel : nat) (base : Z) : Srv shell unit :=
  m ← get sh_mem;
  if base <? load 4 m (bootInfo + 8) then
    match fuel with
    | O => spins
    | S fuel => synRootPf (u32 (kip_BootInfo + base)) (bootInfo + base);; map_rest fuel base
    end
  else mret tt.

(** From the request of the boot information on, with the servers located. *)
Definition main (fuel : nat) : Srv shell unit :=
  synRootPf kip_BootInfo bootInfo;;
  map_rest fuel 1024;;
  call ConsoleClear;;
  banner.
End shell.
