(* ===== verification/ShellSpec.v ===== *)
(** What the shell prints is what the console shows; the line it edits, the words of it, and
    the command it runs. *)

From stdpp Require Import strings.
From S2P Require Import Prelude Machine Server L4Types Console Keyboard ElfLoader Shell.

(** * What the calls amount to *)

Inductive event := Typed (c : Z) | Did (c : shell_call).

Definition call_events (c : shell_call) : list event :=
  match c with ConsoleWrite buffer len => Typed <$> take (Z.to_nat len) buffer | c => [Did c] end.
Definition events (l : list shell_call) : list event := l ≫= call_events.

(** A write gives the console a buffer of 8 bytes and 1 to 8 characters in it. *)
Definition call_ok (c : shell_call) : Prop :=
  match c with
  | ConsoleWrite buffer len => length buffer = 8%nat ∧ Forall byte_ok buffer ∧ 0 < len ≤ 8
  | _ => True
  end.

Record shell_ok (s : shell) : Prop := {
  so_cmd : length (cmdChars s) = 200%nat;
  so_in : length (inChars s) = 8%nat;
  so_out : length (outChars s) = 8%nat;
  so_bytes : Forall byte_ok (outChars s);
  so_pointer : (cmdPointer s ≤ 200)%nat;
}.

(** The calls from [s] to [s'] amount to [es]. *)
Definition does (es : list event) (s s' : shell) : Prop :=
  ∃ log, sh_calls s' = sh_calls s ++ log ∧ events log = es ∧ Forall call_ok log.

Lemma does_trans es1 es2 s1 s2 s3 : does es1 s1 s2 → does es2 s2 s3 → does (es1 ++ es2) s1 s3.
Proof.
  intros (l1&E1&<-&H1) (l2&E2&<-&H2). exists (l1 ++ l2). split_and!.
  - by rewrite E2, E1, app_assoc.
  - apply bind_app.
  - by apply Forall_app.
Qed.

Lemma does_nothing s s' : sh_calls s' = sh_calls s → does [] s s'.
Proof. intros E. exists []. by rewrite E, app_nil_r. Qed.

(** [p] in place of the characters from [i] on. *)
Definition write_at (i : nat) (p l : list Z) : list Z := take i l ++ p ++ drop (i + length p) l.

Lemma write_at_cons i c p l : (i < length l)%nat → write_at (S i) p (<[i := c]> l) = write_at i (c :: p) l.
Proof.
  intros Hi. unfold write_at. rewrite (take_S_r _ _ c) by (rewrite list_lookup_insert_eq; [done|lia]).
  rewrite take_insert_ge, drop_insert_lt by lia. rewrite <- app_assoc. simpl. by rewrite Nat.add_succ_r.
Qed.
Lemma length_write_at i p l : (i + length p ≤ length l)%nat → length (write_at i p l) = length l.
Proof. intros Hi. unfold write_at. rewrite !length_app, length_take, length_drop. lia. Qed.
Lemma take_write_at i p l : (i + length p ≤ length l)%nat → take (i + length p) (write_at i p l) = take i l ++ p.
Proof. intros Hi. unfold write_at. rewrite app_assoc. apply take_app_length'. rewrite length_app, length_take. lia. Qed.

(** * Output *)

Section print.
Context `{System}.

Lemma fill_outChars_spec n k pos c rest tl s :
  drop pos c = rest ++ 0 :: tl → Forall (λ c, 0 < c < 256) rest →
  length (outChars s) = 8%nat → Forall byte_ok (outChars s) → (k + n = 8)%nat →
  let m := (n `min` length rest)%nat in
  ∃ out pos', fill_outChars n k pos c s = Done ((k + m)%nat, pos') (s <| outChars := out |>) ∧
    length out = 8%nat ∧ Forall byte_ok out ∧ take (k + m) out = take k (outChars s) ++ take m rest ∧
    (n ≤ length rest → pos' = pos + n)%nat.
Proof.
  revert k pos rest s. induction n as [|n IH]; intros k pos rest s Hd Hr Hl Hb Hk m.
  { exists (outChars s), pos. rewrite Nat.add_0_r. split_and!; [by destruct s|done|done|by rewrite app_nil_r|lia]. }
  cbn [fill_outChars]. unfold set_outChar.
  assert (Hch : c !! pos = Some (default 0 (head rest))).
  { rewrite <- (Nat.add_0_r pos), <- lookup_drop, Hd. by destruct rest. }
  rewrite Hch. erewrite bind_done by done. rewrite bind_assoc. erewrite bind_done by done.
  rewrite bind_assoc, put_Some by lia. erewrite bind_done by done. erewrite bind_done by done.
  set (out := <[k := _]> (outChars s)).
  assert (Hlo : length out = 8%nat) by (unfold out; by rewrite length_insert).
  assert (Hbo : Forall byte_ok out).
  { apply Forall_insert; [done|]. destruct rest as [|ch rest]; [by vm_compute|].
    apply Forall_cons in Hr as [? _]. simpl. unfold byte_ok. lia. }
  destruct rest as [|ch rest].
  - change (default 0 (head [])) with 0 in *. rewrite Z.eqb_refl. exists out, (S pos). unfold m. rewrite Nat.min_0_r, Nat.add_0_r. split_and!; try done; [|simpl; lia].
    rewrite app_nil_r. by apply take_insert_ge.
  - change (default 0 (head (ch :: rest))) with ch in *.
    apply Forall_cons in Hr as [Hch0 Hr]. rewrite (proj2 (Z.eqb_neq ch 0)) by lia.
    destruct (IH (S k) (S pos) rest (s <| outChars := out |>)) as (out'&pos'&E&Hl'&Hb'&Ht&Hp); try done; try lia.
    { rewrite (drop_S _ ch) in Hd by done. by injection Hd. }
    exists out', pos'. unfold m. simpl length. replace (k + S n `min` S (length rest))%nat with (S k + n `min` length rest)%nat by lia.
    split_and!; try done; [|intros; rewrite Hp by lia; lia]. rewrite Ht.
    change (outChars (s <| outChars := out |>)) with out.
    rewrite (take_S_r _ _ ch) by (unfold out; rewrite list_lookup_insert_eq; [done|lia]).
    unfold out. rewrite take_insert_ge, <- app_assoc by lia. simpl. done.
Qed.

(** What printing leaves of the state. *)
Record printed (text : list Z) (s s' : shell) : Prop := {
  pr_state : s' = s <| outChars := outChars s' |> <| sh_calls := sh_calls s' |>;
  pr_out : length (outChars s') = 8%nat;
  pr_bytes : Forall byte_ok (outChars s');
  pr_does : does (Typed <$> text) s s';
}.

Lemma print_from_spec fuel i pos c rest tl s :
  drop pos c = rest ++ 0 :: tl → Forall (λ c, 0 < c < 256) rest →
  length (outChars s) = 8%nat → Forall byte_ok (outChars s) → (length rest ≤ fuel)%nat →
  ∃ s', print_from fuel i (i + length rest) pos c s = Done tt s' ∧ printed rest s s'.
Proof.
  revert i pos rest s. induction fuel as [|fuel IH]; intros i pos rest s Hd Hr Hl Hb Hf; cbn [print_from].
  all: destruct (Nat.ltb_spec i (i + length rest)) as [Hlt|Hge]; [|exists s; split; [done|]].
  1: lia. 1, 3: destruct rest; [|simpl in Hge; lia]; split; [by destruct s|done|done|by apply does_nothing].
  destruct (fill_outChars_spec 8 0 pos c rest tl s) as (out&pos'&E&Hlo&Hbo&Ht&Hp); try done.
  rewrite (bind_done _ _ _ _ _ E). erewrite bind_done by done. erewrite bind_done by done.
  cbn [fst snd]. set (s1 := _ <| sh_calls ::= _ |>). rewrite !Nat.add_0_l in Ht.
  assert (Hone : does (Typed <$> take 8 rest) s s1).
  { exists [ConsoleWrite out (Z.of_nat (8 `min` length rest))]. split; [done|]. split.
    - unfold events. cbn [mbind list_bind call_events]. rewrite app_nil_r, Nat2Z.id, Ht. f_equal.
      change (take 0 (outChars s)) with (@nil Z). rewrite app_nil_l.
      destruct (decide (8 ≤ length rest)%nat); [by rewrite Nat.min_l|].
      rewrite Nat.min_r, !take_ge by lia. done.
    - apply Forall_singleton. unfold call_ok. split_and!; done || lia. }
  destruct (decide (8 ≤ length rest)%nat) as [Hle|Hgt].
  - destruct (IH (i + OUT_BUF_SIZE)%nat pos' (drop 8 rest) s1) as (s'&E'&Hpr); try done.
    + rewrite Hp by lia. rewrite <- drop_drop, Hd, drop_app_le by lia. done.
    + by apply Forall_drop.
    + rewrite length_drop. lia.
    + exists s'. split.
      * rewrite <- E'. f_equal. rewrite length_drop. unfold OUT_BUF_SIZE. lia.
      * destruct Hpr as [Es Hlo' Hbo' Hd']. split; [by rewrite Es|done|done|].
        rewrite <- (take_drop 8 rest), fmap_app. by eapply does_trans.
  - exists s1. split.
    + destruct fuel; cbn [print_from]; rewrite (proj2 (Nat.ltb_ge _ _)) by (unfold OUT_BUF_SIZE; lia); done.
    + split; [by destruct s|done|done|]. by rewrite take_ge in Hone by lia.
Qed.

Lemma print_spec text tl s :
  Forall (λ c, 0 < c < 256) text → length (outChars s) = 8%nat → Forall byte_ok (outChars s) →
  ∃ s', print (text ++ 0 :: tl) s = Done tt s' ∧ printed text s s'.
Proof.
  intros Ht Hl Hb. unfold print. rewrite strlen_spec by (eapply Forall_impl; [done|]; simpl; lia).
  erewrite bind_done by done. by apply (print_from_spec _ 0 0 _ _ tl).
Qed.
End print.

(** * The console *)

(** What the console server makes of a call. *)
Definition on_console (c : console) (call : shell_call) : option console :=
  match call with
  | ConsoleWrite buffer len => console_write (Buffer buffer 8) len c
  | ConsoleDelete n => console_delete n c
  | ConsoleClear => console_clear c
  | _ => Some c
  end.
Definition screen (calls : list shell_call) (c : console) : option console :=
  foldl (λ c call, c ← c; on_console c call) (Some c) calls.

Lemma screen_cons call log c c' : on_console c call = Some c' → screen (call :: log) c = screen log c'.
Proof. intros E. unfold screen. simpl. by rewrite E. Qed.

Lemma screen_typed log text c t :
  Forall call_ok log → events log = Typed <$> text → console_ok c → shows c t →
  ∃ c', screen log c = Some c' ∧ console_ok c' ∧ shows c' (foldl (λ t ch, type_char true ch t) t text).
Proof.
  intros Hlog. revert text c t. induction Hlog as [|call log Hcall Hlog IH]; intros text c t Hev Hc Hsh.
  { destruct text; [|done]. by exists c. }
  destruct call as [buffer len| | | | | | | | | | |]; try (destruct text; discriminate).
  destruct Hcall as (Hl&Hb&Hlen). unfold events in Hev. cbn [mbind list_bind call_events] in Hev.
  symmetry in Hev. apply fmap_app_inv in Hev as (t1&t2&E1&E2&->).
  apply list_fmap_eq_inj in E1 as <-; [|by intros ?? [= ->]].
  destruct (console_write_shows c t (Buffer buffer 8) len) as (c1&E&Hc1&Hsh1&_); [done|done|done|simpl; lia|].
  simpl in Hsh1. rewrite type_text_plain in Hsh1 by (rewrite ?length_take; lia).
  rewrite (screen_cons _ _ _ c1) by done. rewrite foldl_app. by apply IH.
Qed.

(** C23: a text the shell prints is the text on the console, whatever its length: the
    shell hands it to the console server in buffers of 8 characters, and when the server
    has done these calls the screen shows the terminal with exactly the characters of the
    text typed, the cursor still on the screen. *)
Theorem print_on_console `{System} text tl s c t :
  Forall (λ c, 0 < c < 256) text → shell_ok s → console_ok c → shows c t →
  ∃ s' log c', print (text ++ 0 :: tl) s = Done tt s' ∧ sh_calls s' = sh_calls s ++ log ∧
    screen log c = Some c' ∧ console_ok c' ∧ shows c' (foldl (λ t ch, type_char true ch t) t text).
Proof.
  intros Ht Hs Hc Hsh. destruct (print_spec text tl s Ht (so_out _ Hs) (so_bytes _ Hs)) as (s'&E&[_ _ _ (log&El&Hev&Hok)]).
  destruct (screen_typed log text c t Hok Hev Hc Hsh) as (c'&Esc&Hc'&Hsh'). by exists s', log, c'.
Qed.

(** * Words *)

(** The words of a line, as the spaces separate them: two spaces have an empty one. *)
Fixpoint words (l : list Z) : list (list Z) :=
  match l with
  | [] => [[]]
  | c :: l =>
      if c =? 32 then [] :: words l
      else match words l with w :: ws => (c :: w) :: ws | [] => [[c]] end
  end.

(** The spaces as the NULs they become, and where the words behind them start. *)
Definition cut (l : list Z) : list Z := (λ c, if c =? 32 then 0 else c) <$> l.
Fixpoint starts (i : nat) (l : list Z) : list nat :=
  match l with [] => [] | c :: l => if c =? 32 then S i :: starts (S i) l else starts (S i) l end.

Lemma starts_above i l n p : starts i l !! n = Some p → (i < p)%nat.
Proof.
  revert i n. induction l as [|c l IH]; intros i n; simpl; [done|]. destruct (c =? 32).
  - destruct n; simpl; [intros [= <-]; lia|]. intros Hp%IH. lia.
  - intros Hp%IH. lia.
Qed.

Lemma word_at l i n w rest : Forall (λ c, c ≠ 0) l → words l !! n = Some w →
  ∃ p, (i :: starts i l) !! n = Some p ∧ (i ≤ p)%nat ∧ c_string (drop (p - i) (cut l ++ 0 :: rest)) = Some w.
Proof.
  intros Hl. revert i n w. induction Hl as [|c l Hc Hl IH]; intros i n w.
  { destruct n as [|n]; [|done]. intros [= <-]. exists i. by rewrite Nat.sub_diag. }
  assert (Htail : ∀ p, (S i ≤ p)%nat → ∀ x, drop (p - i) (x :: cut l ++ 0 :: rest) = drop (p - S i) (cut l ++ 0 :: rest)).
  { intros p Hp x. by replace (p - i)%nat with (S (p - S i)) by lia. }
  simpl. destruct (Z.eqb_spec c 32) as [->|Hsp].
  - destruct n as [|n]; simpl; [intros [= <-]; exists i; by rewrite Nat.sub_diag|].
    intros Hw. destruct (IH (S i) n w Hw) as (p&Hp&Hle&Hs). exists p. rewrite Htail by done. split_and!; [done|lia|done].
  - destruct (words l) as [|w0 ws] eqn:E; [by destruct l as [|x l]; simpl in E; [|destruct (x =? 32), (words l)]|].
    destruct n as [|n]; simpl.
    + intros [= <-]. destruct (IH (S i) 0%nat w0 eq_refl) as (p&[= <-]&_&Hs). exists i.
      rewrite !Nat.sub_diag in *. rewrite drop_0 in *. split_and!; [done|done|]. cbn [c_string].
      rewrite (proj2 (Z.eqb_neq c 0) Hc). by rewrite Hs.
    + intros Hw. destruct (IH (S i) (S n) w Hw) as (p&Hp&Hle&Hs). exists p. rewrite Htail by done. split_and!; [done|lia|done].
Qed.

Lemma length_starts i l : S (length (starts i l)) = length (words l).
Proof.
  revert i. induction l as [|c l IH]; intros i; [done|]. simpl. destruct (c =? 32); simpl; [by rewrite IH|].
  specialize (IH (S i)). by destruct (words l).
Qed.

Section line.
Context `{System}.

Lemma split_words_spec l fuel i argv pre rest s :
  Forall (λ c, c ≠ 0 ∧ c ≠ 10) l → cmdChars s = pre ++ l ++ 10 :: rest → i = length pre → (length l < fuel)%nat →
  split_words fuel i argv s = Done (argv ++ starts i l) (s <| cmdChars := pre ++ cut l ++ 0 :: rest |>).
Proof.
  intros Hl. revert fuel i argv pre s. induction Hl as [|c l [Hc0 Hc10] Hl IH]; intros fuel i argv pre s Ec -> Hf;
    (destruct fuel as [|fuel]; [simpl in Hf; lia|]); cbn [split_words app] in *; unfold char_at, set_cmdChar.
  - rewrite bind_assoc. erewrite bind_done by done. rewrite Ec, list_lookup_middle by done. cbn [follow].
    erewrite bind_done by done. change (10 =? 0) with false. change (10 =? 32) with false. rewrite Z.eqb_refl.
    cbv iota. rewrite bind_assoc. erewrite bind_done by done.
    rewrite bind_assoc, Ec, put_Some by (rewrite length_app; simpl; lia). erewrite bind_done by done.
    erewrite bind_done by done. rewrite app_nil_r. simpl app. by rewrite insert_app_r_alt, Nat.sub_diag by lia.
  - rewrite bind_assoc. erewrite bind_done by done. rewrite Ec, list_lookup_middle by done. cbn [follow].
    erewrite bind_done by done. rewrite (proj2 (Z.eqb_neq c 0) Hc0), (proj2 (Z.eqb_neq c 10) Hc10).
    simpl in Hf. cbn [starts cut fmap list_fmap]. destruct (Z.eqb_spec c 32) as [->|Hsp].
    + rewrite bind_assoc. erewrite bind_done by done.
      rewrite bind_assoc, Ec, put_Some by (rewrite length_app; simpl; lia). erewrite bind_done by done.
      erewrite bind_done by done. rewrite insert_app_r_alt, Nat.sub_diag by lia. simpl app.
      rewrite (IH fuel _ _ (pre ++ [0])); [|by simpl; rewrite <- app_assoc|rewrite length_app; simpl; lia|lia].
      rewrite <- !app_assoc. done.
    + rewrite (IH fuel _ _ (pre ++ [c])); [|by rewrite Ec, <- app_assoc|rewrite length_app; simpl; lia|lia].
      rewrite <- app_assoc. done.
Qed.

(** * Editing *)

Definition plain (c : Z) : Prop := 0 < c < 256 ∧ c ≠ KEY_BACKSPACE ∧ c ≠ 9 ∧ c ≠ 10.

(** The line so far. *)
Definition line (s : shell) : list Z := take (cmdPointer s) (cmdChars s).

(** The line with the characters [p] behind it. *)
Definition add_chars (p : list Z) (s : shell) : shell :=
  s <| cmdChars ::= write_at (cmdPointer s) p |> <| cmdPointer ::= λ n, (n + length p)%nat |>.

Lemma line_add p s : (cmdPointer s + length p ≤ length (cmdChars s))%nat → line (add_chars p s) = line s ++ p.
Proof. apply take_write_at. Qed.

Lemma edit_plain p fuel i n clean cp ex s :
  Forall plain p → (∀ j c, p !! j = Some c → inChars s !! (i + j)%nat = Some c) →
  (cmdPointer s + length p ≤ length (cmdChars s))%nat → (cp + length p ≤ length clean)%nat →
  Z.of_nat (i + length p) ≤ n →
  edit (length p + fuel) i n clean cp ex s
  = edit fuel (i + length p) n (write_at cp p clean) (cp + length p) ex (add_chars p s).
Proof.
  intros Hp. revert i clean cp s. induction Hp as [|c p [Hc0 (Hc8&Hc9&Hc10)] Hp IH]; intros i clean cp s Hin Hcmd Hcl Hn.
  { unfold add_chars, write_at. simpl. rewrite !Nat.add_0_r, take_drop. f_equal.
    destruct s; unfold set_field; simpl. by rewrite Nat.add_0_r, take_drop. }
  simpl in Hcmd, Hcl, Hn. cbn [length Nat.add edit]. rewrite (proj2 (Z.ltb_lt _ _)) by lia. unfold char_at, set_cmdChar.
  rewrite bind_assoc. erewrite bind_done by done. pose proof (Hin 0%nat c eq_refl) as Hc. rewrite Nat.add_0_r in Hc.
  rewrite Hc. erewrite bind_done by done. rewrite (proj2 (Z.eqb_neq _ _) Hc8), (proj2 (Z.eqb_neq _ _) Hc10), (proj2 (Z.eqb_neq _ _) Hc9).
  rewrite put_Some by lia. erewrite bind_done by done. erewrite bind_done by done.
  rewrite bind_assoc. erewrite bind_done by done. rewrite bind_assoc, put_Some by lia.
  erewrite bind_done by done. erewrite bind_done by done. erewrite bind_done by done.
  rewrite IH.
  - f_equal; [lia|by apply write_at_cons; lia|lia|]. destruct s; unfold add_chars, set_field; simpl in *.
    f_equal; [|lia]. by apply write_at_cons; lia.
  - intros j c' Hj. replace (S i + j)%nat with (i + S j)%nat by lia. by apply Hin.
  - simpl. rewrite length_insert. lia.
  - rewrite length_insert. lia.
  - lia.
Qed.

Lemma edit_end fuel i n clean cp ex s : n ≤ Z.of_nat i → edit fuel i n clean cp ex s = Done (n, clean, ex) s.
Proof. intros Hn. destruct fuel; cbn [edit]; by rewrite (proj2 (Z.ltb_ge _ _)). Qed.

Lemma edit_newline fuel i clean cp ex s :
  inChars s !! i = Some 10 → (cmdPointer s + 2 ≤ length (cmdChars s))%nat → (cp < length clean)%nat →
  edit (S fuel) i (Z.of_nat (S i)) clean cp ex s
  = Done (Z.of_nat (S i), <[cp := 10]> clean, true) (add_chars [10; 0] s).
Proof.
  intros Hc Hcmd Hcl. cbn [edit]. rewrite (proj2 (Z.ltb_lt _ _)) by lia. unfold char_at, set_cmdChar.
  rewrite bind_assoc. erewrite bind_done by done. rewrite Hc. erewrite bind_done by done.
  change (10 =? KEY_BACKSPACE) with false. rewrite Z.eqb_refl. cbv iota.
  rewrite put_Some by lia. erewrite bind_done by done. erewrite bind_done by done.
  rewrite bind_assoc. erewrite bind_done by done. rewrite bind_assoc, put_Some by lia.
  erewrite bind_done by done. erewrite bind_done by done. rewrite bind_assoc. erewrite bind_done by done.
  rewrite bind_assoc, put_Some by (simpl; rewrite length_insert; lia).
  erewrite bind_done by done. erewrite bind_done by done. erewrite bind_done by done.
  rewrite edit_end by lia. f_equal. destruct s; unfold add_chars, set_field; simpl in *. f_equal; [|lia].
  rewrite <- !write_at_cons by (rewrite ?length_insert; lia). unfold write_at. simpl. by rewrite Nat.add_0_r, take_drop.
Qed.

Lemma edit_backspace fuel i clean cp ex s :
  inChars s !! i = Some KEY_BACKSPACE →
  edit (S fuel) i (Z.of_nat (S i)) clean cp ex s
  = if (0 <? cmdPointer s)%nat
    then Done (Z.of_nat i, clean, ex) (s <| cmdPointer ::= pred |> <| sh_calls ::= λ l, l ++ [ConsoleDelete 1] |>)
    else Done (Z.of_nat (S i), clean, ex) s.
Proof.
  intros Hc. cbn [edit]. rewrite (proj2 (Z.ltb_lt _ _)) by lia. unfold char_at.
  rewrite bind_assoc. erewrite bind_done by done. rewrite Hc. erewrite bind_done by done.
  rewrite Z.eqb_refl. erewrite bind_done by done. destruct (0 <? cmdPointer s)%nat.
  - erewrite bind_done by done. erewrite bind_done by done. rewrite edit_end by lia.
    by replace (Z.of_nat (S i) - 1) with (Z.of_nat i) by lia.
  - by rewrite edit_end.
Qed.

(** * Rounds *)

(** The answer of the keyboard server has the characters [p]. *)
Record delivers (kb : keyboardBuffer) (p : list Z) : Prop := {
  dl_room : length (chars kb) = 7%nat;
  dl_count : numchars kb = Z.of_nat (length p);
  dl_chars : answer kb = p;
}.

Lemma delivers_lookup kb p : delivers kb p → (length p ≤ 7)%nat ∧ ∀ j c, p !! j = Some c → chars kb !! j = Some c.
Proof.
  intros [Hl Hn <-]. unfold answer. split; [rewrite length_take; lia|]. intros j c Hj.
  by apply lookup_take_Some in Hj as [Hj _].
Qed.

(** [strncpy] copies at least the characters before a NUL. *)
Lemma strncpy_front n max d dest src cs :
  (n ≤ max)%nat → (src + max ≤ length cs)%nat → (dest + max ≤ length d)%nat →
  (∀ j c, (j < n)%nat → cs !! (src + j)%nat = Some c → c ≠ 0) →
  ∃ d', strncpy d dest (Other cs) src max = Some d' ∧ length d' = length d ∧
    (∀ j, (j < dest)%nat → d' !! j = d !! j) ∧ ∀ j, (j < n)%nat → d' !! (dest + j)%nat = cs !! (src + j)%nat.
Proof.
  revert n d dest src. induction max as [|max IH]; intros n d dest src Hn Hcs Hd Hnz; cbn [strncpy].
  { exists d. split_and!; try done. lia. }
  destruct (lookup_lt_is_Some_2 cs src) as [c Hc]; [lia|]. simpl. rewrite Hc. cbn [mbind option_bind].
  rewrite put_Some by lia. cbn [mbind option_bind]. destruct (Z.eqb_spec c 0) as [->|Hc0].
  - destruct n as [|n]; [|by destruct (Hnz 0%nat 0); rewrite ?Nat.add_0_r; [lia| |]].
    eexists. split_and!; [done|by rewrite length_insert| |lia]. intros j Hj. apply list_lookup_insert_ne. lia.
  - destruct (IH (pred n) (<[dest := c]> d) (S dest) (S src)) as (d'&E&Hl&Hlow&Hj); [lia|lia|rewrite length_insert; lia| |].
    { intros j c' Hj Hc'. apply (Hnz (S j)); [lia|]. by rewrite Nat.add_succ_r. }
    exists d'. split_and!; [done|by rewrite Hl, length_insert| |].
    + intros j Hj'. rewrite Hlow by lia. apply list_lookup_insert_ne. lia.
    + intros [|j] Hj'.
      * rewrite !Nat.add_0_r, Hlow by lia. rewrite Hc. apply list_lookup_insert_eq. lia.
      * rewrite !Nat.add_succ_r. apply Hj. lia.
Qed.

(** Taking over the characters. *)
Lemma round_start kb p s :
  delivers kb p → Forall (λ c, c ≠ 0) p → shell_ok s →
  ∃ l, strncpy (inChars s) 0 (Other (chars kb)) 0 (OUT_BUF_SIZE - 1) = Some l ∧ shell_ok (s <| inChars := l |>) ∧
    ∀ j c, p !! j = Some c → l !! j = Some c.
Proof.
  intros Hkb Hp [Hc Hi Ho Hb Hptr]. destruct (delivers_lookup _ _ Hkb) as [Hlen Hlk].
  destruct (strncpy_front (length p) 7 (inChars s) 0 0 (chars kb)) as (l&E&Hl&_&Hj); [done|rewrite (dl_room _ _ Hkb); lia|lia| |].
  { intros j c Hj Hcs. destruct (lookup_lt_is_Some_2 p j Hj) as [c' Hc']. pose proof (Hlk j c' Hc') as Hcs'.
    simpl in Hcs. rewrite Hcs in Hcs'. simplify_eq. by eapply (proj1 (Forall_lookup _ _) Hp). }
  exists l. split_and!; [done|split; try done; simpl; lia|]. intros j c Hpj.
  rewrite <- (Hlk j c Hpj). apply Hj. by eapply lookup_lt_Some.
Qed.

Lemma add_chars_ok p s : shell_ok s → (cmdPointer s + length p ≤ 200)%nat → shell_ok (add_chars p s).
Proof.
  intros [Hc Hi Ho Hb Hptr] Hp. split; try done. change (length (write_at (cmdPointer s) p (cmdChars s)) = 200%nat).
  rewrite length_write_at; lia.
Qed.

Lemma printed_ok text s s' : shell_ok s → printed text s s' →
  shell_ok s' ∧ cmdChars s' = cmdChars s ∧ cmdPointer s' = cmdPointer s.
Proof.
  intros [Hc Hi Ho Hb Hptr] [Es Hl Hbo _].
  assert (cmdChars s' = cmdChars s ∧ cmdPointer s' = cmdPointer s ∧ inChars s' = inChars s) as (E1&E2&E3) by by rewrite Es.
  split; [|done]. split; try done; congruence.
Qed.

Lemma length_line s : shell_ok s → length (line s) = cmdPointer s.
Proof. intros [Hc _ _ _ Hptr]. unfold line. rewrite length_take. lia. Qed.

Lemma plain_nz p : Forall plain p → Forall (λ c, c ≠ 0) p.
Proof. intros Hp. eapply Forall_impl; [exact Hp|]. intros c [? _]. lia. Qed.
Lemma plain_text p : Forall plain p → Forall (λ c, 0 < c < 256) p.
Proof. intros Hp. eapply Forall_impl; [exact Hp|]. by intros c []. Qed.

(** [cleanChars] after the characters [p]. *)
Lemma clean_chars p : (length p ≤ 7)%nat → ∃ tl, write_at 0 p (replicate 8 0) = p ++ 0 :: tl.
Proof.
  intros Hp. exists (replicate (7 - length p) 0). unfold write_at. rewrite take_0, drop_replicate. simpl.
  by replace (8 - length p)%nat with (S (7 - length p)) by lia.
Qed.

Lemma round_plain kb p s :
  delivers kb p → Forall plain p → shell_ok s → (length (line s) + length p ≤ 200)%nat →
  ∃ s', shell_round kb s = Done tt s' ∧ shell_ok s' ∧ line s' = line s ++ p ∧ does (Typed <$> p) s s'.
Proof.
  intros Hkb Hp Hs Hlen. rewrite length_line in Hlen by done. destruct (delivers_lookup _ _ Hkb) as [Hl7 _].
  destruct (round_start kb p s Hkb (plain_nz _ Hp) Hs) as (l&E&Hs0&Hlk).
  unfold shell_round. erewrite bind_done by done. rewrite E. erewrite bind_done by done. erewrite bind_done by done.
  set (s0 := s <| inChars := l |>) in *. rewrite (dl_count _ _ Hkb).
  assert (Hed : edit edit_fuel 0 (Z.of_nat (length p)) (replicate 8 0) 0 false s0
    = Done (Z.of_nat (length p), write_at 0 p (replicate 8 0), false) (add_chars p s0)).
  { unfold edit_fuel. replace 9%nat with (length p + (9 - length p))%nat by lia.
    rewrite edit_plain; try done; [by rewrite edit_end|by rewrite (so_cmd _ Hs0)|simpl; lia]. }
  rewrite (bind_done _ _ _ _ _ Hed). cbn [fst snd].
  assert (Hs1 : shell_ok (add_chars p s0)) by (by apply add_chars_ok).
  assert (Hline : line (add_chars p s0) = line s ++ p) by (apply (line_add p s0); by rewrite (so_cmd _ Hs0)).
  destruct p as [|c p].
  { exists (add_chars [] s0). split_and!; [done|done|done|by apply does_nothing]. }
  rewrite (proj2 (Z.eqb_neq _ _)) by (simpl; lia). destruct (clean_chars (c :: p) Hl7) as [tl ->].
  destruct (print_spec (c :: p) tl (add_chars (c :: p) s0) (plain_text _ Hp) (so_out _ Hs1) (so_bytes _ Hs1)) as (s'&Epr&Hpr).
  rewrite (bind_done _ _ _ _ _ Epr). exists s'. destruct (printed_ok _ _ _ Hs1 Hpr) as (Hok&Ec&Ep).
  split_and!; [done|done| |exact (pr_does _ _ _ Hpr)]. rewrite <- Hline. unfold line. by rewrite Ec, Ep.
Qed.

Lemma round_newline kb p s :
  delivers kb (p ++ [10]) → Forall plain p → shell_ok s → (length (line s) + length p ≤ 198)%nat →
  ∃ s' rest, shell_round kb s = run_line s' ∧ shell_ok s' ∧ does (Typed <$> (p ++ [10])) s s' ∧
    cmdChars s' = (line s ++ p) ++ 10 :: 0 :: rest.
Proof.
  intros Hkb Hp Hs Hlen. rewrite length_line in Hlen by done. destruct (delivers_lookup _ _ Hkb) as [Hl7 _].
  rewrite length_app in Hl7. simpl in Hl7.
  assert (Hnz : Forall (λ c, c ≠ 0) (p ++ [10])) by (apply Forall_app; split; [by apply plain_nz|by apply Forall_singleton]).
  destruct (round_start kb (p ++ [10]) s Hkb Hnz Hs) as (l&E&Hs0&Hlk).
  unfold shell_round. erewrite bind_done by done. rewrite E. erewrite bind_done by done. erewrite bind_done by done.
  set (s0 := s <| inChars := l |>) in *. rewrite (dl_count _ _ Hkb), length_app, Nat.add_1_r.
  assert (Hs1 : shell_ok (add_chars p s0)) by (apply add_chars_ok; [done|simpl; lia]).
  set (s1 := add_chars [10; 0] (add_chars p s0)).
  assert (Hs2 : shell_ok s1) by (apply add_chars_ok; [done|simpl; lia]).
  assert (Hed : edit edit_fuel 0 (Z.of_nat (S (length p))) (replicate 8 0) 0 false s0
    = Done (Z.of_nat (S (length p)), write_at 0 (p ++ [10]) (replicate 8 0), true) s1).
  { unfold edit_fuel. replace 9%nat with (length p + S (8 - length p))%nat by lia.
    rewrite edit_plain; try done; try (simpl; lia).
    - rewrite !Nat.add_0_l. rewrite edit_newline.
      + f_equal. f_equal. f_equal. unfold write_at. rewrite !take_0, !Nat.add_0_l, length_app, !app_nil_l.
        rewrite insert_app_r_alt, Nat.sub_diag, !drop_replicate by lia. simpl length.
        replace (8 - length p)%nat with (S (8 - (length p + 1))) by lia. simpl. by rewrite <- app_assoc.
      + apply Hlk. by apply list_lookup_middle.
      + rewrite (so_cmd _ Hs1). simpl. lia.
      + rewrite length_write_at; simpl; lia.
    - intros j c Hj. apply Hlk. by apply lookup_app_l_Some.
    - rewrite (so_cmd _ Hs0). simpl. lia. }
  rewrite (bind_done _ _ _ _ _ Hed). cbn [fst snd]. rewrite (proj2 (Z.eqb_neq _ _)) by lia.
  destruct (clean_chars (p ++ [10])) as [tl ->]; [rewrite length_app; simpl; lia|].
  destruct (print_spec (p ++ [10]) tl s1) as (s'&Epr&Hpr);
    [apply Forall_app; split; [by apply plain_text|apply Forall_singleton; lia]|apply Hs2|apply Hs2|].
  rewrite (bind_done _ _ _ _ _ Epr). destruct (printed_ok _ _ _ Hs2 Hpr) as (Hok&Ec&Ep).
  exists s', (drop (cmdPointer s + length p + 2) (cmdChars (add_chars p s0))).
  split; [reflexivity|]. split_and!; [done|exact (pr_does _ _ _ Hpr)|]. rewrite Ec.
  change (cmdChars s1) with (write_at (cmdPointer s + length p) [10; 0] (cmdChars (add_chars p s0))).
  unfold write_at at 1. change (line s) with (line s0). rewrite <- (line_add p s0) by (rewrite (so_cmd _ Hs0); simpl; lia). done.
Qed.

Lemma round_backspace kb s :
  delivers kb [KEY_BACKSPACE] → shell_ok s →
  ∃ s', shell_round kb s = Done tt s' ∧ shell_ok s' ∧ line s' = removelast (line s) ∧
    does (match line s with [] => [] | _ => [Did (ConsoleDelete 1)] end) s s'.
Proof.
  intros Hkb Hs. destruct (round_start kb _ s Hkb ltac:(by apply Forall_singleton) Hs) as (l&E&Hs0&Hlk).
  unfold shell_round. erewrite bind_done by done. rewrite E. erewrite bind_done by done. erewrite bind_done by done.
  set (s0 := s <| inChars := l |>) in *. rewrite (dl_count _ _ Hkb). pose proof (Hlk 0%nat _ eq_refl) as H0.
  pose proof (length_line s Hs) as Hll. unfold edit_fuel. change (length [KEY_BACKSPACE]) with 1%nat.
  pose proof (edit_backspace 8 0 (replicate 8 0) 0 false s0 H0) as Hed. change (cmdPointer s0) with (cmdPointer s) in Hed.
  destruct Hs0 as [Hc0 Hi0 Ho0 Hb0 Hp0]. unfold line in *. change (cmdPointer s0) with (cmdPointer s) in Hp0.
  destruct (cmdPointer s) as [|n] eqn:En; cbv [Nat.ltb Nat.leb] in Hed; rewrite (bind_done _ _ _ _ _ Hed); cbn [fst snd onlyif].
  - destruct (print_spec [] (replicate 7 0) s0 ltac:(done) Ho0 Hb0) as (s'&Epr&Hpr).
    rewrite (bind_done _ _ _ tt s') by exact Epr.
    destruct (printed_ok [] s0 s') as (Hok&Ec&Ep); [split; try done; change (cmdPointer s ≤ 200)%nat; lia|done|].
    exists s'. change (cmdPointer s0) with (cmdPointer s) in Ep. rewrite Ep, En.
    split_and!; [done|done|done|exact (pr_does _ _ _ Hpr)].
  - eexists. split; [reflexivity|]. split_and!.
    + split; try done. simpl. simpl in Hp0. lia.
    + rewrite removelast_firstn by (rewrite (so_cmd _ Hs); simpl in Hp0; lia). simpl. by rewrite En.
    + destruct (take (S n) (cmdChars s)) ; [done|].
      exists [ConsoleDelete 1]. split_and!; [done|done|by apply Forall_singleton].
Qed.
End line.

(** The first character of the first word, which chooses the command. *)
Definition letter (text : list Z) : Z := default 0 (head (cut text)).

(** What a line amounts to, when files have the contents [file] and the calls [h] have been
    made; a task is waited for under the thread id that the task server gives for the call
    that starts it.  Nothing is said of [download] and [ls], nor of a command without the
    argument it needs. *)
Definition effect `{System} (file : list Z → list Z) (h : list shell_call) (text : list Z) : option (list event) :=
  let argument := words text !! 1%nat in
  let c := letter text in
  if c =? 99 then name ← argument; Some (Did (MapFile name window) :: (Typed <$> file name) ++ [Did (Flush window)])
  else if c =? 115 then path ← argument; Some [Did (StartTask (47 :: path)); Did (WaitTid (start_task h (47 :: path)))]
  else if c =? 100 then None
  else if c =? 114 then name ← argument; Some [Did (DeleteFile name)]
  else if c =? 116 then name ← argument; Some [Did (CreateFile name 9000)]
  else if c =? 108 then None
  else if c =? 63 then Some (Typed <$> txt help)
  else Some (Typed <$> txt ("Shell-Error: Command not found" ++ newline)).

(** The line after the characters [p] of a round, and what the round does: characters of
    the line, or one backspace. *)
Definition press (l p : list Z) : list Z * list event :=
  if decide (p = [KEY_BACKSPACE])
  then (removelast l, match l with [] => [] | _ => [Did (ConsoleDelete 1)] end)
  else (l ++ p, Typed <$> p).
Definition keys (p : list Z) : Prop := p = [KEY_BACKSPACE] ∨ Forall plain p.

Fixpoint typed (l : list Z) (ps : list (list Z)) : list Z :=
  match ps with [] => l | p :: ps => typed (press l p).1 ps end.
Fixpoint echo (l : list Z) (ps : list (list Z)) : list event :=
  match ps with [] => [] | p :: ps => (press l p).2 ++ echo (press l p).1 ps end.

Lemma typed_plain l ps : Forall plain l → Forall keys ps → Forall plain (typed l ps).
Proof.
  intros Hl Hps. revert l Hl. induction Hps as [|p ps Hp Hps IH]; intros l Hl; [done|]. apply IH.
  unfold press. destruct (decide (p = [KEY_BACKSPACE])) as [->|Hne].
  - destruct (decide (l = [])) as [->|Hn]; [done|]. simpl.
    rewrite (app_removelast_last 0 Hn) in Hl. by apply Forall_app in Hl as [? _].
  - destruct Hp as [|Hp]; [done|]. by apply Forall_app.
Qed.

(** The line buffer is never full. *)
Fixpoint fits (l : list Z) (ps : list (list Z)) : Prop :=
  (length l ≤ 198)%nat ∧ match ps with [] => True | p :: ps => fits (press l p).1 ps end.

Section commands.
Context `{System}.

(** The window shows the file that is mapped: its characters and a NUL. *)
Definition shows_files (file : list Z → list Z) : Prop := ∀ h name m,
  ∃ tl, (map_file h name window m <$> seqZ 1073741824 window_size) = file name ++ 0 :: tl ∧
    Forall (λ c, 0 < c < 256) (file name).

Lemma does_call c s : call_events c = [Did c] → call_ok c → does [Did c] s (s <| sh_calls ::= λ l, l ++ [c] |>).
Proof.
  intros E Hc. exists [c]. split_and!; [done| |by apply Forall_singleton].
  unfold events. cbn [mbind list_bind]. by rewrite E.
Qed.

Lemma shell_ok_calls f s : shell_ok s → shell_ok (s <| sh_calls ::= f |>).
Proof. by intros []. Qed.

Lemma literal_spec t s : Forall (λ c, 0 < c < 256) (txt t) → shell_ok s →
  ∃ s', print_literal t s = Done tt s' ∧ does (Typed <$> txt t) s s' ∧ shell_ok s' ∧ cmdChars s' = cmdChars s.
Proof.
  intros Ht Hs. destruct (print_spec (txt t) [] s Ht (so_out _ Hs) (so_bytes _ Hs)) as (s'&E&Hpr).
  exists s'. destruct (printed_ok _ _ _ Hs Hpr) as (?&?&_). split_and!; [exact E|apply Hpr|done|done].
Qed.

Lemma text_checked l : forallb (λ c, (0 <? c) && (c <? 256)) l = true → Forall (λ c, 0 < c < 256) l.
Proof.
  intros H'. apply Forall_forall. intros c Hc%list_elem_of_In.
  apply (proj1 (forallb_forall _ _) H') in Hc. lia.
Qed.

(** The line [text] has been cut: its words are the arguments. *)
Record cut_line (text : list Z) (argv : list nat) (s : shell) : Prop := {
  cl_ok : shell_ok s;
  cl_argv : argv = 0%nat :: starts 0 text;
  cl_text : Forall plain text;
  cl_chars : ∃ rest, cmdChars s = cut text ++ 0 :: rest;
}.

Lemma argument_spec text argv s n w :
  cut_line text argv s → words text !! n = Some w → argument argv n s = Done w s.
Proof.
  intros [_ -> Ht [rest Hc]] Hw. destruct (word_at text 0 n w rest (plain_nz _ Ht) Hw) as (p&Hp&_&Hs).
  rewrite Nat.sub_0_r in Hs. unfold argument, string_at. rewrite Hp. erewrite bind_done by done.
  erewrite bind_done by done. rewrite Hc, Hs. done.
Qed.

Lemma letter_spec text argv s : cut_line text argv s → char_at cmdChars 0 s = Done (letter text) s.
Proof.
  intros [_ _ _ [rest Hc]]. unfold char_at. erewrite bind_done by done. rewrite Hc. unfold letter.
  by destruct text.
Qed.

Lemma cat_spec file text argv s name :
  shows_files file → cut_line text argv s → words text !! 1%nat = Some name →
  ∃ s', cat argv s = Done tt s' ∧ shell_ok s' ∧
    does (Did (MapFile name window) :: (Typed <$> file name) ++ [Did (Flush window)]) s s'.
Proof.
  intros Hf Hc Hw. unfold cat. rewrite (bind_done _ _ _ _ _ (argument_spec _ _ _ _ _ Hc Hw)).
  destruct (Hf (sh_calls s) name (sh_mem s)) as (tl&Em&Ht). destruct Hc as [Hs _ _ _].
  set (s1 := s <| sh_calls ::= λ l, l ++ [MapFile name window] |>).
  set (s2 := s1 <| sh_mem := map_file (sh_calls s) name window (sh_mem s) |>).
  rewrite (bind_done _ _ _ (file_fpage (sh_calls s) name) s2) by done. erewrite bind_done by done.
  change (sh_mem s2) with (map_file (sh_calls s) name window (sh_mem s)). rewrite Em.
  assert (Hs2 : shell_ok s2) by by destruct Hs.
  destruct (print_spec (file name) tl s2 Ht (so_out _ Hs2) (so_bytes _ Hs2)) as (s3&E&Hpr).
  rewrite (bind_done _ _ _ _ _ E). destruct (printed_ok _ _ _ Hs2 Hpr) as (Hs3&_).
  eexists. split; [reflexivity|]. split; [by apply shell_ok_calls|].
  apply (does_trans [_] _ s s2); [by apply (does_call (MapFile name window))|].
  eapply does_trans; [apply Hpr|]. by apply does_call.
Qed.

Lemma start_spec text argv s path :
  cut_line text argv s → words text !! 1%nat = Some path →
  ∃ s', start argv s = Done tt s' ∧ shell_ok s' ∧
    does [Did (StartTask (47 :: path)); Did (WaitTid (start_task (sh_calls s) (47 :: path)))] s s'.
Proof.
  intros [Hs -> Ht [rest Hc]] Hw. destruct (word_at text 0 1 path rest (plain_nz _ Ht) Hw) as (p&Hp&_&Hstr).
  rewrite Nat.sub_0_r in Hstr. pose proof (starts_above 0 text 0 p Hp) as Hp0.
  assert (Hlen : (p ≤ length (cmdChars s))%nat).
  { destruct (decide (p ≤ length (cmdChars s))%nat); [done|]. rewrite drop_ge in Hstr by (rewrite <- Hc; lia). done. }
  unfold start. rewrite Hp. erewrite bind_done by done. unfold set_cmdChar. rewrite bind_assoc. erewrite bind_done by done.
  rewrite bind_assoc, put_Some by lia. erewrite bind_done by done. erewrite bind_done by done.
  set (s1 := s <| cmdChars := _ |>). unfold string_at. rewrite bind_assoc. erewrite bind_done by done.
  change (cmdChars s1) with (<[pred p := 47]> (cmdChars s)).
  assert (Hd : drop (pred p) (<[pred p := 47]> (cmdChars s)) = 47 :: drop p (cmdChars s)).
  { rewrite (drop_S _ 47) by (apply list_lookup_insert_eq; lia). rewrite drop_insert_lt by lia. f_equal. f_equal. lia. }
  rewrite Hd, Hc. cbn [c_string]. change (47 =? 0) with false. cbv iota. rewrite Hstr. erewrite bind_done by done.
  erewrite bind_done by done. erewrite bind_done by done. eexists. split; [reflexivity|].
  assert (Hs1 : shell_ok s1) by (destruct Hs; split; try done; simpl; by rewrite length_insert).
  split; [by do 2 apply shell_ok_calls|]. apply (does_trans [] _ s s1); [by apply does_nothing|].
  by eapply (does_trans [_] [_]); apply does_call.
Qed.

(** The command of the line. *)
Lemma execute_spec file text argv s :
  shows_files file → cut_line text argv s → effect file (sh_calls s) text ≠ None →
  ∃ es s', execute argv s = Done tt s' ∧ effect file (sh_calls s) text = Some es ∧ does es s s' ∧ shell_ok s'.
Proof.
  intros Hf Hc Hsome. unfold execute. rewrite (bind_done _ _ _ _ _ (letter_spec _ _ _ Hc)).
  pose proof (cl_ok _ _ _ Hc) as Hs. unfold effect in *.
  assert (Hone : ∀ c name, words text !! 1%nat = Some name → call_events (c name) = [Did (c name)] → call_ok (c name) →
    ∃ s', (name ← argument argv 1; call (c name)) s = Done tt s' ∧ does [Did (c name)] s s' ∧ shell_ok s').
  { intros c name Hw E Hok. rewrite (bind_done _ _ _ _ _ (argument_spec _ _ _ _ _ Hc Hw)). eexists.
    split; [reflexivity|]. split; [by apply does_call|by apply shell_ok_calls]. }
  destruct (letter text =? 99).
  { destruct (words text !! 1%nat) as [name|] eqn:Hw; [|done].
    destruct (cat_spec file text argv s name Hf Hc Hw) as (s'&E&Hs'&Hd). eauto 10. }
  destruct (letter text =? 115).
  { destruct (words text !! 1%nat) as [path|] eqn:Hw; [|done].
    destruct (start_spec text argv s path Hc Hw) as (s'&E&Hs'&Hd). eauto 10. }
  destruct (letter text =? 100); [done|].
  destruct (letter text =? 114).
  { destruct (words text !! 1%nat) as [name|] eqn:Hw; [|done].
    destruct (Hone DeleteFile name) as (s'&E&Hd&Hs'); try done. eauto 10. }
  destruct (letter text =? 116).
  { destruct (words text !! 1%nat) as [name|] eqn:Hw; [|done].
    destruct (Hone (λ n, CreateFile n 9000) name) as (s'&E&Hd&Hs'); try done. eauto 10. }
  destruct (letter text =? 108); [done|].
  destruct (letter text =? 63).
  - destruct (literal_spec help s) as (s'&E&Hd&Hs'&_); [by apply text_checked|done|]. eauto 10.
  - destruct (literal_spec ("Shell-Error: Command not found" ++ newline) s) as (s'&E&Hd&Hs'&_);
      [by apply text_checked|done|]. eauto 10.
Qed.

Definition prompt : list event := Typed <$> txt "# ".

Lemma run_line_spec file text rest s :
  shows_files file → shell_ok s → Forall plain text → (length text ≤ 198)%nat →
  cmdChars s = text ++ 10 :: 0 :: rest → effect file (sh_calls s) text ≠ None →
  ∃ es s', run_line s = Done tt s' ∧ effect file (sh_calls s) text = Some es ∧ does (es ++ prompt) s s' ∧
    shell_ok s' ∧ line s' = [].
Proof.
  intros Hf Hs Ht Hlen Hc Hsome. unfold run_line.
  assert (Htext : Forall (λ c, c ≠ 0 ∧ c ≠ 10) text).
  { eapply Forall_impl; [exact Ht|]. intros c (?&_&_&?). split; [lia|done]. }
  assert (Hfuel : (length text < split_fuel)%nat) by (unfold split_fuel, MAX_COMMAND_LENGTH; lia).
  pose proof (split_words_spec text split_fuel 0 [0%nat] [] (0 :: rest) s Htext Hc eq_refl Hfuel) as Hsp.
  rewrite (bind_done _ _ _ _ _ Hsp). cbn [app]. set (s1 := s <| cmdChars := _ |>).
  assert (Hs1 : shell_ok s1).
  { destruct Hs as [Hl ????]. split; try done. rewrite <- Hl, Hc. unfold s1, cut. simpl.
    rewrite !length_app, length_fmap. done. }
  destruct (execute_spec file text (0%nat :: starts 0 text) s1 Hf) as (es&s2&E&Hes&Hd&Hs2); [|done|].
  { split; [done|done|done|by eexists]. }
  rewrite (bind_done _ _ _ _ _ E). erewrite bind_done by done. set (s3 := s2 <| cmdPointer := 0%nat |>).
  assert (Hs3 : shell_ok s3) by (destruct Hs2; split; try done; simpl; lia).
  destruct (literal_spec "# " s3) as (s4&Epr&Hd'&Hs4&_); [by apply text_checked|done|].
  exists es, s4. split_and!; [exact Epr|done| |done|].
  - apply (does_trans [] _ s s1); [by apply does_nothing|]. eapply does_trans; [exact Hd|].
    by apply (does_trans [] _ s2 s3); [apply does_nothing|].
  - destruct (print_spec (txt "# ") [] s3 ltac:(by apply text_checked) (so_out _ Hs3) (so_bytes _ Hs3)) as (s5&E5&Hpr).
    destruct (printed_ok _ _ _ Hs3 Hpr) as (_&_&Ep). change (print_literal "# " s3) with (print (txt "# " ++ [0]) s3) in Epr.
    rewrite Epr in E5. injection E5 as <-. unfold line. by rewrite Ep.
Qed.

(** The rounds before the line is complete. *)
Lemma typing_spec ps kbs s :
  shell_ok s → Forall2 delivers kbs ps → Forall keys ps → fits (line s) ps →
  ∃ s', shell_rounds kbs s = Done tt s' ∧ shell_ok s' ∧ line s' = typed (line s) ps ∧ does (echo (line s) ps) s s'.
Proof.
  intros Hs Hkbs. revert s Hs. induction Hkbs as [|kb p kbs ps Hkb Hkbs IH]; intros s Hs Hkeys Hfit.
  { exists s. split_and!; [done|done|done|by apply does_nothing]. }
  apply Forall_cons in Hkeys as [Hp Hkeys]. destruct Hfit as [Hlen Hfit]. cbn [shell_rounds typed echo].
  assert (∃ s1, shell_round kb s = Done tt s1 ∧ shell_ok s1 ∧ line s1 = (press (line s) p).1 ∧
    does (press (line s) p).2 s s1) as (s1&E&Hs1&El&Hd).
  { unfold press in *. destruct (decide (p = [KEY_BACKSPACE])) as [->|Hne]; [by apply round_backspace|].
    destruct Hp as [|Hp]; [done|]. apply round_plain; try done. simpl in Hfit.
    assert (length (line s ++ p) ≤ 198)%nat as Hl by (by destruct ps; destruct Hfit).
    rewrite length_app in Hl. lia. }
  rewrite (bind_done _ _ _ _ _ E). rewrite <- El in Hfit. destruct (IH s1 Hs1 Hkeys Hfit) as (s2&E2&Hs2&El2&Hd2).
  exists s2. split_and!; [done|done|by rewrite El2, El|]. rewrite El in Hd2. by eapply does_trans.
Qed.

Lemma shell_rounds_app l1 l2 s s' : shell_rounds l1 s = Done tt s' → shell_rounds (l1 ++ l2) s = shell_rounds l2 s'.
Proof.
  revert s. induction l1 as [|kb l1 IH]; intros s; simpl; [by intros [= ->]|].
  unfold mbind, Srv_bind. destruct (shell_round kb s) as [[] s1| | |]; try done. apply IH.
Qed.

(** C22: the shell is the line editor and the command interpreter it means to be, for lines
    of at most 198 characters: from an
    empty line, when the keyboard server delivers characters (any number at once) and
    backspaces (one at a time), and at last the end of the line, the screen gets the
    characters as they come and a deletion for each backspace that has a character to
    delete; then the command of the words of the edited line is run, its file, task or
    message as [effect] says (a task is started and the thread the task server has
    answered is waited for), and after it there is a prompt and again an empty line.  The
    commands [download] and [ls], and a command without the argument it needs, are left
    out: [effect] gives them none. *)
Theorem typed_command file ps p kbs kb s :
  let text := typed [] ps ++ p in
  shows_files file → shell_ok s → line s = [] →
  Forall2 delivers kbs ps → Forall keys ps → fits [] ps → delivers kb (p ++ [10]) → Forall plain p →
  (length text ≤ 198)%nat → (∀ h, effect file h text ≠ None) →
  ∃ s1 es s', shell_rounds (kbs ++ [kb]) s = Done tt s' ∧ shell_ok s' ∧ line s' = [] ∧
    does (echo [] ps ++ (Typed <$> (p ++ [10]))) s s1 ∧ effect file (sh_calls s1) text = Some es ∧ does (es ++ prompt) s1 s'.
Proof.
  intros text Hf Hs Hl Hkbs Hkeys Hfit Hkb Hp Hlen Hsome.
  destruct (typing_spec ps kbs s Hs Hkbs Hkeys) as (s1&E1&Hs1&El1&Hd1); [by rewrite Hl|]. rewrite Hl in El1, Hd1.
  rewrite (shell_rounds_app _ _ _ _ E1). cbn [shell_rounds]. unfold text in *. rewrite length_app in Hlen.
  destruct (round_newline kb p s1 Hkb Hp Hs1) as (s2&rest&E2&Hs2&Hd2&Hc2); [rewrite El1; lia|]. rewrite El1 in Hc2.
  destruct (run_line_spec file (typed [] ps ++ p) rest s2 Hf Hs2) as (es&s3&E3&Hes&Hd3&Hs3&Hl3);
    [by apply Forall_app; split; [apply typed_plain|]|rewrite length_app; lia|done|done|].
  rewrite <- E2 in E3. exists s2, es, s3. rewrite (bind_done _ _ _ _ _ E3). split_and!; try done. by eapply does_trans.
Qed.
End commands.
