(* ===== verification/Sigma0.v ===== *)
(** sigma0 (src/sdios/serv/sigma0/sigma0.cc): the server that has all memory at first and
    gives pages to those that ask.

    The descriptors of memory regions are a store from addresses to structures; the free
    ones are linked through their first word, as in the source.  Where the objects of the
    program are, what memory holds before a structure is made in it, and what the kernel
    interface page says is the class [Boot_memory]. *)

From stdpp Require Import gmap.
From S2P Require Import Prelude Machine Server L4Types Message.

Record memregion_t := Memregion { low : Z; high : Z; owner : Z; prev : Z; next : Z }.
#[global] Instance memregion_fields : Fields memregion_t := λ r, {|
  low := low r; high := high r; owner := owner r; prev := prev r; next := next r |}.

(** The size of the packed structure. *)
Definition sizeof_memregion : Z := 20.

Inductive memregion_pool := conv_memory_pool | memory_pool | alloc_pool.

(** [L4_MemoryDesc_t] (kip.h): two words, with the fields [type], [t], [v] and [low] in the
    first one. *)
Record memory_desc := Memory_desc { desc_raw0 : Z; desc_raw1 : Z }.
Definition L4_IsMemoryDescVirtual (d : memory_desc) : bool := negb ((desc_raw0 d / 2 ^ 9) mod 2 =? 0).
Definition L4_MemoryDescType (d : memory_desc) : Z :=
  let type := desc_raw0 d mod 2 ^ 4 in
  if 14 <=? type then type + Z.shiftl ((desc_raw0 d / 2 ^ 4) mod 2 ^ 4) 4 else type.
Definition L4_MemoryDescLow (d : memory_desc) : Z := u32 (Z.shiftl (desc_raw0 d / 2 ^ 10) 10).
Definition L4_MemoryDescHigh (d : memory_desc) : Z := u32 (Z.shiftl (desc_raw1 d / 2 ^ 10) 10 + 1023).
Definition L4_ConventionalMemoryType : Z := 1.
Definition L4_ReservedMemoryType : Z := 2.
Definition L4_DedicatedMemoryType : Z := 3.
Definition L4_SharedMemoryType : Z := 4.
Definition L4_BootLoaderSpecificMemoryType : Z := 14.
Definition L4_ArchitectureSpecificMemoryType : Z := 15.

Class Boot_memory := {
  first_at : memregion_pool → Z;
  last_at : memregion_pool → Z;
  initial_memregs : Z;
  tmp_at : nat → Z;
  garbage : Z → memregion_t;
  page_size_mask : Z;
  memory_descs : list memory_desc;
  kip_word : nat → Z;
  user_base : Z;
  system_base : Z;
  set_page_attribute : Z → Z → bool;
}.

Record sigma0 := Sigma0 {
  regions : gmap Z memregion_t;
  free_list : Z;
  conv_ptr : Z;
  memory_ptr : Z;
  alloc_ptr : Z;
  min_pgsize : Z;
  kernel_id : Z;
  sigma0_id : Z;
  sigma1_id : Z;
  rootserver_id : Z;
  verbose : Z;
}.
#[global] Instance sigma0_fields : Fields sigma0 := λ r, {|
  regions := regions r; free_list := free_list r; conv_ptr := conv_ptr r; memory_ptr := memory_ptr r;
  alloc_ptr := alloc_ptr r; min_pgsize := min_pgsize r; kernel_id := kernel_id r; sigma0_id := sigma0_id r;
  sigma1_id := sigma1_id r; rootserver_id := rootserver_id r; verbose := verbose r |}.


Section sigma0.
Context `{Boot_memory}.

(** A field of the structure at [p], and its change. *)
Definition rget {A} (f : memregion_t → A) (p : Z) : Srv sigma0 A := m ← get regions; x ← follow (m !! p); mret (f x).
Definition rset (p : Z) (f : memregion_t → memregion_t) : Srv sigma0 unit :=
  r ← rget id p; update (λ s, s <| regions ::= <[p := f r]> |>).

Definition page_start (page min : Z) : Z := Z.land page (2 ^ 32 - 1 - (2 ^ min - 1)).
Definition page_end (page min : Z) : Z := Z.land (u32 (page + (2 ^ min - 1))) (2 ^ 32 - 1 - (2 ^ min - 1)).

(** [1UL << n] *)
Definition shift_one (n : Z) : Srv sigma0 Z := if n <? 32 then mret (2 ^ n) else undefined.

(** * memregion_list_t *)

(** [set_next] on raw memory or on a structure: its first word. *)
Definition set_next (m n : Z) : Srv sigma0 unit :=
  update (λ s, s <| regions ::= λ r, <[m := (default (garbage m) (r !! m)) <| low := n |>]> r |>).

Fixpoint add_from (fuel : nat) (m e : Z) : Srv sigma0 unit :=
  let n := u32 (m + sizeof_memregion) in
  if n <? e then
    match fuel with O => spins | S fuel => set_next m n;; add_from fuel n e end
  else l ← get free_list; set_next m l.

Definition list_add (addr size : Z) : Srv sigma0 unit :=
  let '(addr, size) := if addr =? 0 then (u32 (addr + sizeof_memregion), u32 (size - sizeof_memregion)) else (addr, size) in
  add_from (Z.to_nat size) addr (u32 (addr + size));;
  update (λ s, s <| free_list := addr |>).

Definition list_free (r : Z) : Srv sigma0 unit :=
  l ← get free_list; set_next r l;; update (λ s, s <| free_list := r |>).

(** [list = list->next()] *)
Definition take_first : Srv sigma0 Z :=
  r ← get free_list; n ← rget low r; update (λ s, s <| free_list := n |>);; mret r.

(** * memregion_t *)

Definition region_remove (r : Z) : Srv sigma0 unit :=
  p ← rget prev r; n ← rget next r;
  rset p (λ x, x <| next := n |>);; rset n (λ x, x <| prev := p |>);;
  list_free r.

Definition region_swap (this r : Z) : Srv sigma0 unit :=
  x ← rget id this;
  update (λ s, s <| regions ::= <[r := x]> |>);;
  rset (next x) (λ y, y <| prev := r |>);; rset (prev x) (λ y, y <| next := r |>).

Definition concatenate (p r : Z) : Srv sigma0 bool :=
  x ← rget id p; y ← rget id r;
  if negb (owner x =? owner y) then mret false
  else if (low x =? u32 (high y + 1)) && negb (low x =? 0) then rset p (λ x, x <| low := low y |>);; mret true
  else if (u32 (high x + 1) =? low y) && negb (low y =? 0) then rset p (λ x, x <| high := high y |>);; mret true
  else mret false.

(** The bounds of the region when they are aligned. *)
Definition low_a (x : memregion_t) (size : Z) : Z := Z.land (u32 (low x + size - 1)) (2 ^ 32 - 1 - (size - 1)).
Definition high_a (x : memregion_t) (size : Z) : Z := u32 (Z.land (u32 (high x + 1)) (2 ^ 32 - 1 - (size - 1)) - 1).


Definition refused_any (x : memregion_t) (size tid : Z) : bool :=
  (high_a x size <? low_a x size) || (low_a x size <? low x) || (high x <? size - 1) ||
  (u32 (high_a x size - low_a x size) <? size - 1) || (negb (owner x =? tid) && negb (owner x =? L4_anythread)).
Definition refused_at (x : memregion_t) (addr size tid : Z) : bool :=
  (addr <? low_a x size) || (high_a x size <? u32 (addr + size - 1)) ||
  (u32 (high_a x size - low_a x size) <? size - 1) || (low_a x size <? low x) || (high x <? size - 1) ||
  (negb (owner x =? tid) && negb (owner x =? L4_anythread)).

Definition can_allocate (r addr log2size tid : Z) : Srv sigma0 bool :=
  size ← shift_one log2size; x ← rget id r; mret (negb (refused_at x addr size tid)).

Section with_alloc.
Context (alloc : Srv sigma0 Z).

(** [new memregion_t(l, h, o)] *)
Definition new_memregion (l h o : Z) : Srv sigma0 Z :=
  r ← alloc; rset r (λ x, x <| low := l |> <| high := h |> <| owner := o |>);; mret r.

(** A new region behind [r] for what is above [h], and [r] ends at [e].  The structure is
    there before the arguments of its constructor are read. *)
Definition split_region (r e h : Z) : Srv sigma0 unit :=
  n ← alloc; x ← rget id r;
  rset n (λ y, y <| low := h |> <| high := high x |> <| owner := owner x |>);;
  nx ← rget next r;
  rset n (λ y, y <| next := nx |>);; rset n (λ y, y <| prev := r |>);;
  rset r (λ y, y <| next := n |>);; rset nx (λ y, y <| prev := n |>);;
  rset r (λ y, y <| high := e |>).

Definition allocate_any (r log2size tid : Z) : Srv sigma0 Z :=
  size ← shift_one log2size; x ← rget id r;
  if refused_any x size tid then mret L4_Nilpage
  else if low_a x size =? low x then
    (if u32 (low x + size) =? u32 (high x + 1) then region_remove r
     else rset r (λ y, y <| low := u32 (low x + size) |>));;
    mret (L4_FpageLog2 (low x) log2size + L4_FullyAccessible)
  else if high_a x size =? high x then
    rset r (λ y, y <| high := u32 (high x - size) |>);;
    mret (L4_FpageLog2 (u32 (high_a x size - size + 1)) log2size + L4_FullyAccessible)
  else
    split_region r (u32 (low_a x size - 1)) (u32 (low_a x size + size));;
    mret (L4_FpageLog2 (low_a x size) log2size + L4_FullyAccessible).

Definition allocate_at (r addr log2size tid : Z) : Srv sigma0 Z :=
  size ← shift_one log2size; x ← rget id r;
  if refused_at x addr size tid then mret L4_Nilpage
  else if (low_a x size =? low x) && (addr =? low x) then
    (if u32 (low x + size) =? u32 (high x + 1) then region_remove r
     else rset r (λ y, y <| low := u32 (low x + size) |>));;
    mret (L4_FpageLog2 (low x) log2size + L4_FullyAccessible)
  else if (high_a x size =? high x) && (u32 (addr + size - 1) =? high x) then
    rset r (λ y, y <| high := u32 (high x - size) |>);;
    mret (L4_FpageLog2 (u32 (high_a x size - size + 1)) log2size + L4_FullyAccessible)
  else
    split_region r (u32 (addr - 1)) (u32 (addr + size));;
    mret (L4_FpageLog2 addr log2size + L4_FullyAccessible).

(** * memregion_pool_t *)

Definition ptr_of (p : memregion_pool) (s : sigma0) : Z :=
  match p with conv_memory_pool => conv_ptr s | memory_pool => memory_ptr s | alloc_pool => alloc_ptr s end.
Definition set_ptr (p : memregion_pool) (v : Z) (s : sigma0) : sigma0 :=
  match p with
  | conv_memory_pool => s <| conv_ptr := v |>
  | memory_pool => s <| memory_ptr := v |>
  | alloc_pool => s <| alloc_ptr := v |>
  end.

Definition pool_init (p : memregion_pool) : Srv sigma0 unit :=
  update (λ s, s <| regions ::= λ m,
    <[first_at p := Memregion 0 0 L4_nilthread (last_at p) (last_at p)]>
      (<[last_at p := Memregion (2 ^ 32 - 1) (2 ^ 32 - 1) L4_nilthread (first_at p) (first_at p)]> m) |>);;
  update (set_ptr p (last_at p)).

Definition pool_reset (p : memregion_pool) : Srv sigma0 unit :=
  n ← rget next (first_at p); update (set_ptr p n).
Definition pool_next (p : memregion_pool) : Srv sigma0 Z :=
  r ← get (ptr_of p);
  if r =? last_at p then mret 0 else n ← rget next r; update (set_ptr p n);; mret r.

(** [while (low > n->high)]: the regions before and behind the place. *)
Fixpoint find_place (fuel : nat) (l p n : Z) : Srv sigma0 (Z * Z) :=
  h ← rget high n;
  if h <? l then
    match fuel with O => spins | S fuel => n' ← rget next n; find_place fuel l n n' end
  else mret (p, n).

(** A list has at most as many structures as there are. *)
Definition list_fuel : Srv sigma0 nat := m ← get regions; mret (S (size m)).

Definition pool_insert (p : memregion_pool) (r : Z) : Srv sigma0 unit :=
  n ← rget next (first_at p);
  l ← rget low r;
  fuel ← list_fuel;
  pn ← find_place fuel l (first_at p) n;
  b ← concatenate pn.1 r;
  if b : bool then
    list_free r;;
    b ← concatenate pn.1 pn.2;
    if b : bool then region_remove pn.2 else mret tt
  else
    b ← concatenate pn.2 r;
    if b : bool then list_free r
    else
      rset r (λ y, y <| next := pn.2 |>);; rset r (λ y, y <| prev := pn.1 |>);;
      rset pn.2 (λ y, y <| prev := r |>);; rset pn.1 (λ y, y <| next := r |>).

Definition pool_add (p : memregion_pool) (l h o : Z) : Srv sigma0 unit :=
  r ← new_memregion l h o; pool_insert p r.

(** [while (n != &last)] *)
Fixpoint remove_from (fuel : nat) (p : memregion_pool) (l h n : Z) : Srv sigma0 unit :=
  if n =? last_at p then mret tt else
  match fuel with
  | O => spins
  | S fuel =>
      x ← rget id n;
      if (l <=? low x) && (high x <=? h) then
        d ← rget prev (next x); region_remove d;; remove_from fuel p l h (next x)
      else if (l <=? low x) && (low x <=? h) then
        rset n (λ y, y <| low := u32 (h + 1) |>)
      else if (low x <? l) && (l <=? high x) then
        rset n (λ y, y <| high := u32 (l - 1) |>);;
        if h <? high x then pool_add p (u32 (h + 1)) (high x) (owner x)
        else remove_from fuel p l h (next x)
      else remove_from fuel p l h (next x)
  end.

Definition pool_remove (p : memregion_pool) (l h : Z) : Srv sigma0 unit :=
  n ← rget next (first_at p);
  fuel ← list_fuel;
  pn ← find_place fuel l (first_at p) n;
  remove_from fuel p l h pn.2.

(** * Allocation *)

(** [allocate_page] at any place. *)
Fixpoint any_from (fuel : nat) (log2size tid : Z) : Srv sigma0 (option L4_item) :=
  match fuel with
  | O => spins
  | S fuel =>
      r ← pool_next conv_memory_pool;
      if r =? 0 then mret None else
      fp ← allocate_any r log2size L4_anythread;
      if negb (L4_IsNilFpage fp) then
        size ← shift_one log2size;
        pool_add alloc_pool (L4_Address fp) (u32 (L4_Address fp + size - 1)) tid;;
        mret (Some (L4_MapItem fp (L4_Address fp)))
      else any_from fuel log2size tid
  end.

Definition allocate_page_any (tid log2size : Z) : Srv sigma0 (option L4_item) :=
  m ← get min_pgsize;
  if log2size <? m then mret None else
  pool_reset conv_memory_pool;;
  fuel ← list_fuel;
  any_from fuel log2size tid.
End with_alloc.

(** [memregion_list_t::alloc]: without a free structure it asks for a page, with the
    temporary structure that is on the stack at this depth. *)
Fixpoint alloc (fuel : nat) : Srv sigma0 Z :=
  l ← get free_list;
  if negb (l =? 0) then take_first else
  match fuel with
  | O => spins
  | S fuel =>
      list_add (tmp_at fuel) sizeof_memregion;;
      id ← get sigma0_id; m ← get min_pgsize;
      dummy ← allocate_page_any (alloc fuel) id m;
      match dummy with
      | None => halt
      | Some dummy =>
          l ← get free_list;
          let was_alloced := l =? 0 in
          (if negb was_alloced then update (λ s, s <| free_list := 0 |>) else mret tt);;
          list_add (L4_Address (L4_SndFpage dummy)) (2 ^ m);;
          (if was_alloced then r ← alloc fuel; region_swap (tmp_at fuel) r else mret tt);;
          take_first
      end
  end.

(** * Pages at an address *)

(** The greatest depth of [alloc]: each level takes a page. *)
Definition alloc_depth : nat := 64.
Definition do_alloc : Srv sigma0 Z := alloc alloc_depth.

(** The first pool that has the page. *)
Fixpoint conv_from (fuel : nat) (p : memregion_pool) (tid addr addr_high log2size : Z) : Srv sigma0 (option L4_item) :=
  match fuel with
  | O => spins
  | S fuel =>
      r ← pool_next p;
      if r =? 0 then mret None else
      x ← rget id r;
      if (addr_high <? low x) || (high x <? addr) then conv_from fuel p tid addr addr_high log2size else
      fp ← allocate_at do_alloc r addr log2size L4_anythread;
      if negb (L4_IsNilFpage fp) then
        pool_add do_alloc alloc_pool addr addr_high tid;;
        mret (Some (L4_MapItem fp addr))
      else conv_from fuel p tid addr addr_high log2size
  end.

Fixpoint try_pools (ps : list memregion_pool) (tid addr addr_high log2size : Z) : Srv sigma0 (option L4_item) :=
  match ps with
  | [] => mret None
  | p :: ps =>
      pool_reset p;;
      fuel ← list_fuel;
      m ← conv_from fuel p tid addr addr_high log2size;
      match m with Some _ => mret m | None => try_pools ps tid addr addr_high log2size end
  end.

(** Is the page allocated, to [tid] or to all? *)
Fixpoint allocated_from (fuel : nat) (tid addr log2size : Z) : Srv sigma0 bool :=
  match fuel with
  | O => spins
  | S fuel =>
      r ← pool_next alloc_pool;
      if r =? 0 then mret false else
      b ← can_allocate r addr log2size tid;
      if b : bool then mret true else allocated_from fuel tid addr log2size
  end.

(** The regions of a pool that has a part of the smallest size at [a]: the result is
    [failed]. *)
Fixpoint part_from (fuel : nat) (p : memregion_pool) (second : bool) (tid a : Z) (failed : bool) : Srv sigma0 bool :=
  match fuel with
  | O => spins
  | S fuel =>
      m ← get min_pgsize;
      let a_end := u32 (a + 2 ^ m) in
      r ← pool_next p;
      if r =? 0 then mret failed else
      x ← rget id r;
      if (a_end <? low x) || (high x <? a) then part_from fuel p second tid a failed else
      b ← can_allocate r a m tid;
      if b : bool then
        (if second && negb (match p with alloc_pool => true | _ => false end) then
           allocate_at do_alloc r a m tid;; pool_add do_alloc alloc_pool a (u32 (a_end - 1)) tid
         else mret tt);;
        part_from fuel p second tid a false
      else part_from fuel p second tid a failed
  end.

Fixpoint part_pools (ps : list memregion_pool) (second : bool) (tid a : Z) : Srv sigma0 bool :=
  match ps with
  | [] => mret true
  | p :: ps =>
      pool_reset p;;
      fuel ← list_fuel;
      failed ← part_from fuel p second tid a true;
      if failed : bool then part_pools ps second tid a else mret false
  end.

(** [for (a = addr; a < addr_high; a += 1 << min_pgsize)]: false when a part fails. *)
Fixpoint parts (fuel : nat) (ps : list memregion_pool) (second : bool) (tid a addr_high : Z) : Srv sigma0 bool :=
  if a <? addr_high then
    match fuel with
    | O => spins
    | S fuel =>
        failed ← part_pools ps second tid a;
        if failed : bool then mret false
        else m ← get min_pgsize; parts fuel ps second tid (u32 (a + 2 ^ m)) addr_high
    end
  else mret true.

(** After one pass over the address space the parts repeat. *)
Definition parts_fuel (min : Z) : nat := Z.to_nat (2 ^ (33 - min)).

Definition allocate_page (tid addr log2size : Z) (only_conventional : bool) : Srv sigma0 (option L4_item) :=
  m ← get min_pgsize;
  if log2size <? m then mret None else
  size ← shift_one log2size;
  let addr := Z.land addr (2 ^ 32 - 1 - (size - 1)) in
  let addr_high := u32 (addr + size - 1) in
  map ← try_pools (if only_conventional then [conv_memory_pool] else [conv_memory_pool; memory_pool]) tid addr addr_high log2size;
  match map with Some _ => mret map | None =>
  pool_reset alloc_pool;;
  fuel ← list_fuel;
  b ← allocated_from fuel tid addr log2size;
  let item := L4_MapItem (L4_FpageLog2 addr log2size + L4_FullyAccessible) addr in
  if b : bool then mret (Some item) else
  let pools := if only_conventional then [conv_memory_pool; alloc_pool] else [conv_memory_pool; alloc_pool; memory_pool] in
  b ← parts (parts_fuel m) pools false tid addr addr_high;
  if negb b then mret None else
  b ← parts (parts_fuel m) pools true tid addr addr_high;
  if negb b then mret None else mret (Some item)
  end.

(** * The start *)

Fixpoint register_from (fuel : nat) (addr e t : Z) : Srv sigma0 unit :=
  if addr <? e then
    match fuel with
    | O => spins
    | S fuel =>
        m ← get min_pgsize;
        allocate_page t addr m false;;
        register_from fuel (u32 (addr + 2 ^ m)) e t
    end
  else mret tt.

Definition register_memory (l h t : Z) : Srv sigma0 unit :=
  m ← get min_pgsize;
  register_from (parts_fuel m) (page_start l m) (page_end h m) t.

(** One descriptor of the kernel interface page. *)
Definition init_desc (d : memory_desc) : Srv sigma0 unit :=
  if L4_IsMemoryDescVirtual d then mret tt else
  m ← get min_pgsize;
  k ← get kernel_id;
  let l := page_start (L4_MemoryDescLow d) m in
  let h := u32 (page_end (L4_MemoryDescHigh d) m - 1) in
  pool_remove do_alloc conv_memory_pool l h;;
  pool_remove do_alloc memory_pool l h;;
  pool_remove do_alloc alloc_pool l h;;
  let t := L4_MemoryDescType d in
  if (Z.land t 15 =? L4_BootLoaderSpecificMemoryType) || (Z.land t 15 =? L4_ArchitectureSpecificMemoryType) then pool_add do_alloc memory_pool l h L4_anythread
  else if t =? L4_ConventionalMemoryType then pool_add do_alloc conv_memory_pool l h L4_anythread
  else if t =? L4_ReservedMemoryType then pool_add do_alloc alloc_pool l h k
  else if t =? L4_DedicatedMemoryType then pool_add do_alloc memory_pool l h L4_anythread
  else if t =? L4_SharedMemoryType then pool_add do_alloc alloc_pool l h L4_anythread
  else mret tt.

Fixpoint init_descs (l : list memory_desc) : Srv sigma0 unit :=
  match l with [] => mret tt | d :: l => init_desc d;; init_descs l end.

(** [alloc_memory] *)
Definition alloc_memory (idx : nat) (t : Z) : Srv sigma0 unit :=
  if kip_word (S idx) =? 0 then mret tt else register_memory (kip_word idx) (kip_word (S idx)) t.

Definition init_mempool_from_kip : Srv sigma0 unit :=
  pool_add do_alloc memory_pool 0 (2 ^ 32 - 1) L4_anythread;;
  init_descs memory_descs;;
  k ← get kernel_id; s0 ← get sigma0_id; s1 ← get sigma1_id; rs ← get rootserver_id;
  alloc_memory 6 k;; alloc_memory 10 s0;; alloc_memory 14 s1;; alloc_memory 18 rs.

(** [for (m = 1UL << min_pgsize; (m & psmask) == 0; m <<= 1, min_pgsize++)] *)
Fixpoint find_pgsize (fuel : nat) (m : Z) : Srv sigma0 unit :=
  if Z.land m page_size_mask =? 0 then
    match fuel with
    | O => spins
    | S fuel => update (λ s, s <| min_pgsize ::= λ n, n + 1 |>);; find_pgsize fuel (u32 (Z.shiftl m 1))
    end
  else mret tt.

(** The mask that was shifted out is 0 for ever. *)
Definition pgsize_fuel : nat := 32.

Definition init_mempool : Srv sigma0 unit :=
  if page_size_mask =? 0 then spins else
  n ← get min_pgsize;
  m ← shift_one n;
  find_pgsize pgsize_fuel m;;
  list_add initial_memregs (32 * sizeof_memregion);;
  pool_init conv_memory_pool;; pool_init memory_pool;; pool_init alloc_pool;;
  init_mempool_from_kip.

(** Up to the first wait. *)
Definition sigma0_main : Srv sigma0 unit :=
  update (λ s, s <| kernel_id := L4_GlobalId system_base 1 |> <| sigma0_id := L4_GlobalId user_base 1 |>);;
  update (λ s, s <| sigma1_id := L4_GlobalId (user_base + 1) 1 |> <| rootserver_id := L4_GlobalId (user_base + 2) 1 |>);;
  init_mempool.

(** * Requests *)

Definition is_kernel_thread (t : Z) : Srv sigma0 bool :=
  s0 ← get sigma0_id; k ← get kernel_id; mret ((t <? s0) && (k <=? t)).

(** [~((~0UL) >> 12)] *)
Definition L4_REQUEST_MASK : Z := 2 ^ 32 - 2 ^ 20.
Definition L4_PAGEFAULT : Z := u32 (- 2 * 2 ^ 20).
Definition L4_SIGMA0_RPC : Z := u32 (- 6 * 2 ^ 20).
Definition L4_SIGMA0_EXT : Z := u32 (- 1001 * 2 ^ 20).
Definition L4_S0EXT_VERBOSE : Z := 1.
Definition L4_s0EXT_DUMPMEM : Z := 2.

(** [dump]: what is printed is left out; the pointer of the pool runs to its end. *)
Fixpoint dump_from (fuel : nat) (p : memregion_pool) : Srv sigma0 unit :=
  match fuel with
  | O => spins
  | S fuel => r ← pool_next p; if r =? 0 then mret tt else dump_from fuel p
  end.
Definition pool_dump (p : memregion_pool) : Srv sigma0 unit :=
  pool_reset p;; fuel ← list_fuel; dump_from fuel p.
Definition dump_mempools : Srv sigma0 unit :=
  pool_dump conv_memory_pool;; pool_dump memory_pool;; pool_dump alloc_pool.

Inductive reply := No_reply | Nil_reply | Item (item : L4_item).

Definition nil_item : L4_item := L4_MapItem L4_Nilpage 0.

(** The page of a request of the sigma0 protocol. *)
Definition sigma0_rpc (tid fpage attributes : Z) : Srv sigma0 reply :=
  kernel ← is_kernel_thread tid;
  if kernel : bool then mret No_reply else
  map ← (if fpage / 2 ^ 10 =? 2 ^ 22 - 1 then allocate_page_any do_alloc tid (fpage_s fpage)
         else allocate_page tid (L4_Address fpage) (fpage_s fpage) false);
  let item := default nil_item map in
  if negb (attributes =? 0) && negb (set_page_attribute (L4_SndFpage item) attributes)
  then mret (Item nil_item) else mret (Item item).

(** A message with the words [w0] and [w1]. *)
Definition sigma0_request (tid tag w0 w1 : Z) : Srv sigma0 reply :=
  if negb (tag mod 2 ^ 6 =? 2) || negb ((tag / 2 ^ 6) mod 2 ^ 6 =? 0) then mret No_reply else
  let request := Z.land tag L4_REQUEST_MASK in
  if request =? L4_PAGEFAULT then
    m ← get min_pgsize;
    map ← allocate_page tid w0 m true;
    mret (Item (default nil_item map))
  else if request =? L4_SIGMA0_RPC then sigma0_rpc tid w0 w1
  else if request =? L4_SIGMA0_EXT then
    if w0 =? L4_S0EXT_VERBOSE then update (λ s, s <| verbose := w1 |>);; mret No_reply
    else if w0 =? L4_s0EXT_DUMPMEM then
      dump_mempools;; mret (if w1 =? 0 then No_reply else Nil_reply)
    else mret No_reply
  else mret No_reply.
End sigma0.
