(* ===== verification/Sigma0Pool.v ===== *)
(** The pools of sigma0 as lists of regions: what the operations on the linked structures
    make of them. *)

From stdpp Require Import gmap.
From S2P Require Import Prelude Machine Server L4Types Message Sigma0.

Record entry := Entry { place : Z; lo : Z; hi : Z; own : Z }.
Implicit Types (ns : gmap Z memregion_t) (e b c : entry) (l A B M : list entry) (p n : Z).

(** * Chains *)

Definition node_of e p n : memregion_t := Memregion (lo e) (hi e) (own e) p n.
Definition head_place n l : Z := match l with [] => n | e :: _ => place e end.
Definition last_place p l : Z := match last l with Some e => place e | None => p end.

(** The entries of [l] between the structures at [p] and [n], linked in both directions. *)
Fixpoint chain ns p l n : Prop :=
  match l with [] => True | e :: l => ns !! place e = Some (node_of e p (head_place n l)) ∧ chain ns (place e) l n end.

Lemma head_place_app n l1 l2 : head_place n (l1 ++ l2) = head_place (head_place n l2) l1.
Proof. by destruct l1. Qed.
Lemma last_place_cons p e l : last_place p (e :: l) = last_place (place e) l.
Proof.
  unfold last_place. destruct l as [|f l]; [done|]. rewrite last_cons_cons.
  destruct (last (f :: l)) eqn:E; [done|]. by apply last_None in E.
Qed.
Lemma last_place_snoc p l e : last_place p (l ++ [e]) = place e.
Proof. unfold last_place. by rewrite last_snoc. Qed.

Lemma chain_app ns p l1 l2 n :
  chain ns p (l1 ++ l2) n ↔ chain ns p l1 (head_place n l2) ∧ chain ns (last_place p l1) l2 n.
Proof.
  revert p. induction l1 as [|e l1 IH]; intros p; simpl; [tauto|].
  rewrite IH, head_place_app, last_place_cons. tauto.
Qed.

Lemma chain_node ns p l1 e l2 n :
  chain ns p (l1 ++ e :: l2) n → ns !! place e = Some (node_of e (last_place p l1) (head_place n l2)).
Proof. rewrite chain_app. simpl. tauto. Qed.

Lemma chain_frame ns ns' p l n :
  (∀ x, x ∈ (place <$> l) → ns' !! x = ns !! x) → chain ns p l n → chain ns' p l n.
Proof.
  revert p. induction l as [|e l IH]; intros p Hx; simpl; [done|]. intros [He Hl]. split.
  - rewrite Hx; [done|]. by left.
  - apply IH; [|done]. intros x Hin. apply Hx. by right.
Qed.

(** The entries between [b] and [c] are exchanged. *)
Lemma chain_replace ns ns' p A b M c B n M' :
  chain ns p (A ++ b :: M ++ c :: B) n →
  ns' !! place b = Some (node_of b (last_place p A) (head_place (place c) M')) →
  ns' !! place c = Some (node_of c (last_place (place b) M') (head_place n B)) →
  chain ns' (place b) M' (place c) →
  (∀ x, x ∈ (place <$> (A ++ B)) → ns' !! x = ns !! x) →
  chain ns' p (A ++ b :: M' ++ c :: B) n.
Proof.
  rewrite !chain_app. simpl. rewrite !chain_app. simpl. rewrite !head_place_app. simpl.
  intros (HA&_&_&_&HB) Hb Hc HM Hx. split_and!; try done.
  - eapply chain_frame; [|exact HA]. intros x Hin. apply Hx. rewrite fmap_app. apply elem_of_app. by left.
  - eapply chain_frame; [|exact HB]. intros x Hin. apply Hx. rewrite fmap_app. apply elem_of_app. by right.
Qed.

(** The bounds of an entry are changed. *)
Lemma chain_update ns p A e e' B n :
  chain ns p (A ++ e :: B) n → NoDup (place <$> (A ++ e :: B)) → place e' = place e →
  chain (<[place e := node_of e' (last_place p A) (head_place n B)]> ns) p (A ++ e' :: B) n.
Proof.
  rewrite fmap_app, NoDup_app, fmap_cons, NoDup_cons. intros Hc (_&HA&HB&_) Hpl.
  rewrite chain_app in Hc |- *. simpl in *. rewrite Hpl. destruct Hc as (H1&H2&H3). split_and!.
  - eapply chain_frame; [|exact H1]. intros x Hx. apply lookup_insert_ne. intros <-. apply (HA _ Hx). by left.
  - apply lookup_insert_eq.
  - eapply chain_frame; [|exact H3]. intros x Hx. apply lookup_insert_ne. congruence.
Qed.

(** The free structures, linked through their first word. *)
Fixpoint free_chain ns (h : Z) (fr : list Z) : Prop :=
  match fr with [] => h = 0 | a :: fr => h = a ∧ a ≠ 0 ∧ ∃ x, ns !! a = Some x ∧ free_chain ns (low x) fr end.

Lemma free_chain_frame ns ns' h fr : (∀ x, x ∈ fr → ns' !! x = ns !! x) → free_chain ns h fr → free_chain ns' h fr.
Proof.
  revert h. induction fr as [|a fr IH]; intros h Hx; simpl; [done|]. intros (->&Ha&x&E&Hf). split_and!; [done|done|].
  exists x. rewrite Hx by by left. split; [done|]. apply IH; [|done]. intros y Hy. apply Hx. by right.
Qed.

(** * The state *)

Section pools.
Context `{Boot_memory}.
Implicit Types (P Q : memregion_pool) (L : memregion_pool → list entry) (fr : list Z) (s : sigma0).

#[global] Instance pool_eq_dec : EqDecision memregion_pool.
Proof. solve_decision. Defined.

Definition first_entry P : entry := Entry (first_at P) 0 0 L4_nilthread.
Definition last_entry P : entry := Entry (last_at P) (2 ^ 32 - 1) (2 ^ 32 - 1) L4_nilthread.
Definition full P l : list entry := first_entry P :: l ++ [last_entry P].
Definition places P l : list Z := place <$> full P l.

(** [L P]: the regions of the pool; [fr]: the free structures. *)
Record pools_ok s L fr : Prop := {
  po_chain P : ∃ u v, chain (regions s) u (full P (L P)) v;
  po_nodup P : NoDup (places P (L P));
  po_apart P Q x : x ∈ places P (L P) → x ∈ places Q (L Q) → P = Q;
  po_zero P : 0 ∉ places P (L P);
  po_free : free_chain (regions s) (free_list s) fr;
  po_free_nodup : NoDup fr;
  po_free_apart P x : x ∈ places P (L P) → x ∉ fr;
}.

(** The structure at [x] is in no list, and has the entry [e]. *)
Record loose s L fr e : Prop := {
  ls_node : ∃ p n, regions s !! place e = Some (node_of e p n);
  ls_zero : place e ≠ 0;
  ls_pools P : place e ∉ places P (L P);
  ls_free : place e ∉ fr;
}.

Definition upd_pool L P l : memregion_pool → list entry := λ Q, if decide (Q = P) then l else L Q.
Lemma upd_pool_eq L P l : upd_pool L P l P = l.
Proof. unfold upd_pool. by rewrite decide_True. Qed.
Lemma upd_pool_ne L P Q l : Q ≠ P → upd_pool L P l Q = L Q.
Proof. intros. unfold upd_pool. by rewrite decide_False. Qed.

(** Only the structures and their free list change. *)
Definition steps s s' : Prop := s' = s <| regions := regions s' |> <| free_list := free_list s' |>.
Lemma steps_refl s : steps s s.
Proof. by destruct s. Qed.
Lemma steps_trans s1 s2 s3 : steps s1 s2 → steps s2 s3 → steps s1 s3.
Proof. unfold steps. intros E1 E2. rewrite E2 at 1. rewrite E1. done. Qed.

Lemma runs_rget {T} (f : memregion_t → T) x p (R : T → sigma0 → Prop) s :
  regions s !! p = Some x → R (f x) s → runs (rget f p) R s.
Proof. intros E HR. apply runs_bind, runs_get. rewrite E. by apply runs_bind, (runs_follow _ x), runs_ret. Qed.

Lemma runs_rset f x p (R : unit → sigma0 → Prop) s :
  regions s !! p = Some x → R tt (s <| regions ::= <[p := f x]> |>) → runs (rset p f) R s.
Proof. intros E HR. apply runs_bind. eapply runs_rget; [exact E|]. by apply runs_update. Qed.

(** Structures that change their fields. *)
Lemma runs_alter f p (R : unit → sigma0 → Prop) s :
  is_Some (regions s !! p) → R tt (s <| regions ::= alter f p |>) → runs (rset p f) R s.
Proof.
  intros [x E] HR. eapply runs_rset; [exact E|].
  assert (Hm : alter f p (regions s) = <[p := f x]> (regions s)).
  { apply map_eq. intros i. destruct (decide (i = p)) as [->|].
    - by rewrite lookup_alter_eq, lookup_insert_eq, E.
    - by rewrite lookup_alter_ne, lookup_insert_ne by done. }
  unfold set_field in *. by rewrite Hm in HR.
Qed.
Lemma steps_regions F s : steps s (s <| regions ::= F |>).
Proof. by destruct s. Qed.
Lemma regions_set F s : regions (s <| regions ::= F |>) = F (regions s).
Proof. done. Qed.
Lemma free_list_set F s : free_list (s <| regions ::= F |>) = free_list s.
Proof. done. Qed.

(** The regions around the entry [e] of a pool. *)
Lemma neighbours P l1 e l2 : ∃ A b c B, full P (l1 ++ e :: l2) = A ++ b :: e :: c :: B ∧
  full P (l1 ++ l2) = A ++ b :: c :: B ∧ first_entry P :: l1 = A ++ [b] ∧ l2 ++ [last_entry P] = c :: B.
Proof.
  destruct (exists_last (l := first_entry P :: l1)) as (A&b&E); [done|].
  destruct (l2 ++ [last_entry P]) as [|c B] eqn:E2; [by destruct l2|].
  exists A, b, c, B. unfold full. rewrite <- !app_assoc. simpl. rewrite E2.
  change (first_entry P :: l1 ++ ?x) with ((first_entry P :: l1) ++ x). by rewrite E, <- !app_assoc.
Qed.

Lemma places_app P l1 M l2 A b c B :
  first_entry P :: l1 = A ++ [b] → l2 ++ [last_entry P] = c :: B →
  full P (l1 ++ M ++ l2) = A ++ b :: M ++ c :: B.
Proof.
  intros E1 E2. unfold full. rewrite <- !app_assoc, E2.
  change (first_entry P :: l1 ++ ?x) with ((first_entry P :: l1) ++ x). by rewrite E1, <- app_assoc.
Qed.

End pools.

Lemma between_nodup A b M c B : NoDup (place <$> (A ++ b :: M ++ c :: B)) →
  place b ≠ place c ∧ (place b ∉ (place <$> M)) ∧ (place c ∉ (place <$> M)) ∧
  (∀ x, x ∈ (place <$> (A ++ B)) → x ≠ place b ∧ x ≠ place c ∧ (x ∉ (place <$> M))).
Proof.
  rewrite !fmap_app, !fmap_cons, !fmap_app, !fmap_cons, NoDup_app, NoDup_cons, NoDup_app, NoDup_cons.
  setoid_rewrite elem_of_cons. setoid_rewrite elem_of_app. setoid_rewrite elem_of_cons.
  intros (_&HA&Hb&_&HM&Hc&_). split_and!; [naive_solver..|]. intros x [Hx|Hx]; [specialize (HA x Hx); tauto|].
  split_and!; [naive_solver..|]. intros HxM. apply (HM x HxM). tauto.
Qed.

Section between.
Context `{Boot_memory}.
Context (s s' : sigma0) (L : memregion_pool → list entry) (fr : list Z) (P : memregion_pool).
Context (l1 M M' l2 A B : list entry) (b c : entry).
Context (Hok : pools_ok s L fr) (HL : L P = l1 ++ M ++ l2).
Context (E1 : first_entry P :: l1 = A ++ [b]) (E2 : l2 ++ [last_entry P] = c :: B).
Context (Hb : regions s' !! place b = (λ x, x <| next := head_place (place c) M' |>) <$> regions s !! place b).
Context (Hc : regions s' !! place c = (λ x, x <| prev := last_place (place b) M' |>) <$> regions s !! place c).
Context (HM : chain (regions s') (place b) M' (place c)).
Context (Hx : ∀ x, x ≠ place b → x ≠ place c → x ∉ (place <$> M) → x ∉ (place <$> M') → regions s' !! x = regions s !! x).
Context (Hnd : NoDup (place <$> M')).
Context (HM' : ∀ x, x ∈ (place <$> M') → x ∈ (place <$> M) ∨ (x ≠ 0 ∧ (x ∉ fr) ∧ (∀ Q, x ∉ places Q (L Q)))).
Context (Hfl : free_list s' = free_list s).

Let Hfull : full P (L P) = A ++ b :: M ++ c :: B.
Proof. rewrite HL. by apply places_app. Qed.
Let Hfull' : full P (l1 ++ M' ++ l2) = A ++ b :: M' ++ c :: B.
Proof. by apply places_app. Qed.
Let Hdist : NoDup (place <$> (A ++ b :: M ++ c :: B)).
Proof. rewrite <- Hfull. apply Hok. Qed.

Let Hin x : x ∈ places P (L P) ↔ x = place b ∨ x = place c ∨ x ∈ (place <$> M) ∨ x ∈ (place <$> (A ++ B)).
Proof.
  unfold places. rewrite Hfull, !fmap_app, !fmap_cons, !fmap_app, !fmap_cons.
  rewrite !elem_of_app, !elem_of_cons, !elem_of_app, !elem_of_cons. tauto.
Qed.
Let Hin' x : x ∈ places P (l1 ++ M' ++ l2) ↔ x = place b ∨ x = place c ∨ x ∈ (place <$> M') ∨ x ∈ (place <$> (A ++ B)).
Proof.
  unfold places. rewrite Hfull', !fmap_app, !fmap_cons, !fmap_app, !fmap_cons.
  rewrite !elem_of_app, !elem_of_cons, !elem_of_app, !elem_of_cons. tauto.
Qed.

(** A place that is new in the pool was in no list. *)
Let Hold x : x ∈ places P (l1 ++ M' ++ l2) → x ∈ places P (L P) ∨ (x ≠ 0 ∧ (x ∉ fr) ∧ (∀ Q, x ∉ places Q (L Q))).
Proof. rewrite Hin, Hin'. intros [?|[?|[HxM|?]]]; [tauto|tauto| |tauto]. destruct (HM' x HxM); tauto. Qed.

Let Hsame x : x ∉ places P (L P) → (x ∈ fr ∨ ∃ Q, x ∈ places Q (L Q)) → regions s' !! x = regions s !! x.
Proof.
  rewrite Hin. intros Hn Hor. apply Hx; [tauto|tauto|tauto|].
  intros HxM. destruct (HM' x HxM) as [|(_&Hf&HQ)]; [tauto|]. destruct Hor as [|[Q ?]]; [done|by apply (HQ Q)].
Qed.

Let chain_between : ∃ u v, chain (regions s') u (full P (l1 ++ M' ++ l2)) v.
Proof.
  destruct (po_chain _ _ _ Hok P) as (u&v&Hch). rewrite Hfull in Hch. rewrite Hfull'. exists u, v.
  destruct (between_nodup _ _ _ _ _ Hdist) as (_&_&_&Hd).
  pose proof Hch as Hch'. rewrite chain_app in Hch'. simpl in Hch'. rewrite chain_app in Hch'. simpl in Hch'.
  destruct Hch' as (_&Eb&_&Ec&_). rewrite Eb in Hb. rewrite Ec in Hc.
  apply (chain_replace (regions s) _ u A b M c B v M' Hch); try done.
  intros x HAB. destruct (Hd x HAB) as (?&?&?). apply Hx; try done.
  intros HxM. destruct (HM' x HxM) as [|(_&_&HQ)]; [done|]. apply (HQ P). rewrite Hin. tauto.
Qed.

Let nodup_between : NoDup (places P (l1 ++ M' ++ l2)).
Proof.
  assert (Hnew : ∀ x, x ∈ (place <$> M') → x ≠ place b ∧ x ≠ place c ∧ x ∉ (place <$> (A ++ B))).
  { destruct (between_nodup _ _ _ _ _ Hdist) as (_&Hnb&Hnc&Hd). intros x HxM. destruct (HM' x HxM) as [?|(_&_&HQ)].
    - split_and!; [congruence..|]. intros HAB. by destruct (Hd x HAB) as (_&_&?).
    - specialize (HQ P). rewrite Hin in HQ. tauto. }
  unfold places. rewrite Hfull'.
  pose proof Hdist as Hd0. rewrite fmap_app, fmap_cons, fmap_app, fmap_cons in Hd0 |- *.
  setoid_rewrite fmap_app in Hnew.
  rewrite NoDup_app, NoDup_cons, NoDup_app, NoDup_cons in Hd0 |- *.
  setoid_rewrite elem_of_app in Hnew. setoid_rewrite elem_of_cons in Hd0. setoid_rewrite elem_of_app in Hd0.
  setoid_rewrite elem_of_cons in Hd0.
  setoid_rewrite elem_of_cons. setoid_rewrite elem_of_app. setoid_rewrite elem_of_cons.
  destruct Hd0 as (HA&HAd&Hnb&_&_&Hnc&HB). split_and!; try done.
  - intros x HxA. specialize (HAd x HxA). specialize (Hnew x). tauto.
  - specialize (Hnew (place b)). tauto.
  - intros x HxM. specialize (Hnew x HxM). tauto.
Qed.

(** Between two neighbours the entries [M] become [M']. *)
Lemma pools_ok_between : pools_ok s' (upd_pool L P (l1 ++ M' ++ l2)) fr.
Proof.
  split.
  - intros Q. destruct (decide (Q = P)) as [->|HQ]; [by rewrite upd_pool_eq|]. rewrite upd_pool_ne by done.
    destruct (po_chain _ _ _ Hok Q) as (u'&v'&HQch). exists u', v'. eapply chain_frame; [|exact HQch].
    intros x HxQ. apply Hsame; [|by right; exists Q]. intros ?. by apply HQ, (po_apart _ _ _ Hok Q P x).
  - intros Q. destruct (decide (Q = P)) as [->|HQ]; [by rewrite upd_pool_eq|rewrite upd_pool_ne by done; apply Hok].
  - intros Q R x. unfold upd_pool. destruct (decide (Q = P)) as [->|HQ], (decide (R = P)) as [->|HR]; [done| | |by apply Hok].
    + intros Hin0 Hin1. destruct (Hold x Hin0) as [?|(_&_&Hn)]; [by apply (po_apart _ _ _ Hok P R x)|by destruct (Hn R)].
    + intros Hin1 Hin0. destruct (Hold x Hin0) as [?|(_&_&Hn)]; [by apply (po_apart _ _ _ Hok Q P x)|by destruct (Hn Q)].
  - intros Q. unfold upd_pool. destruct (decide (Q = P)) as [->|HQ]; [|apply Hok].
    intros Hin0. destruct (Hold 0 Hin0) as [?|(?&_)]; [by apply (po_zero _ _ _ Hok P)|done].
  - rewrite Hfl. eapply free_chain_frame; [|apply Hok]. intros x Hxf. apply Hsame; [|by left].
    intros Hin0. by apply (po_free_apart _ _ _ Hok P x).
  - apply Hok.
  - intros Q x. unfold upd_pool. destruct (decide (Q = P)) as [->|HQ]; [|apply Hok].
    intros Hin0. destruct (Hold x Hin0) as [?|(_&?&_)]; [by apply (po_free_apart _ _ _ Hok P x)|done].
Qed.
End between.

(** * The operations on structures *)

(** Fields of structures that have just changed. *)
Ltac look := rewrite ?free_list_set, ?regions_set;
  repeat first [rewrite lookup_alter_eq | rewrite lookup_alter_ne by (done || congruence)].

Section operations.
Context `{Boot_memory}.
Implicit Types (P Q : memregion_pool) (L : memregion_pool → list entry) (fr : list Z) (s : sigma0).

(** The entries around a place in a pool. *)
Definition back P l : entry := default (first_entry P) (last l).
Definition front P l : entry := default (last_entry P) (head l).

Lemma back_app P l : ∃ A, first_entry P :: l = A ++ [back P l].
Proof.
  unfold back. destruct (last l) as [e|] eqn:E; simpl.
  - apply last_Some in E as [l' ->]. by exists (first_entry P :: l').
  - apply last_None in E as ->. by exists [].
Qed.
Lemma front_app P l : ∃ B, l ++ [last_entry P] = front P l :: B.
Proof. destruct l as [|e l]; simpl; [by exists []|by exists (l ++ [last_entry P])]. Qed.
Lemma head_place_front P l n : head_place n (l ++ [last_entry P]) = place (front P l).
Proof. by destruct l. Qed.

Lemma pool_node s L fr P l1 e l2 : pools_ok s L fr → L P = l1 ++ e :: l2 →
  regions s !! place e = Some (node_of e (place (back P l1)) (place (front P l2))).
Proof.
  intros Hok HL. destruct (po_chain _ _ _ Hok P) as (u&v&Hc). rewrite HL in Hc. unfold full in Hc.
  destruct (back_app P l1) as [A E]. rewrite <- app_assoc in Hc. simpl in Hc.
  change (chain (regions s) u ((first_entry P :: l1) ++ e :: l2 ++ [last_entry P]) v) in Hc.
  apply chain_node in Hc. by rewrite E, last_place_snoc, head_place_front in Hc.
Qed.
Lemma back_node s L fr P l1 l2 : pools_ok s L fr → L P = l1 ++ l2 →
  ∃ u, regions s !! place (back P l1) = Some (node_of (back P l1) u (place (front P l2))).
Proof.
  intros Hok HL. destruct (po_chain _ _ _ Hok P) as (u&v&Hc). rewrite HL in Hc. unfold full in Hc.
  destruct (back_app P l1) as [A E]. rewrite <- app_assoc in Hc.
  change (chain (regions s) u ((first_entry P :: l1) ++ l2 ++ [last_entry P]) v) in Hc.
  rewrite E, <- app_assoc in Hc. apply chain_node in Hc. rewrite head_place_front in Hc. eauto.
Qed.
Lemma front_node s L fr P l1 l2 : pools_ok s L fr → L P = l1 ++ l2 →
  ∃ v, regions s !! place (front P l2) = Some (node_of (front P l2) (place (back P l1)) v).
Proof.
  intros Hok HL. destruct (po_chain _ _ _ Hok P) as (u&v&Hc). rewrite HL in Hc. unfold full in Hc.
  destruct (back_app P l1) as [A E], (front_app P l2) as [B E2]. rewrite <- app_assoc in Hc.
  change (chain (regions s) u ((first_entry P :: l1) ++ l2 ++ [last_entry P]) v) in Hc.
  rewrite E2 in Hc. apply chain_node in Hc. rewrite E, last_place_snoc in Hc. eauto.
Qed.

(** The places around a place are of different structures. *)
Lemma around_ne s L fr P l1 M l2 : pools_ok s L fr → L P = l1 ++ M ++ l2 →
  place (back P l1) ≠ place (front P l2) ∧ (place (back P l1) ∉ (place <$> M)) ∧ (place (front P l2) ∉ (place <$> M)).
Proof.
  intros Hok HL. destruct (back_app P l1) as [A E1], (front_app P l2) as [B E2].
  pose proof (po_nodup _ _ _ Hok P) as Hnd. rewrite HL in Hnd. unfold places in Hnd.
  rewrite (places_app P l1 M l2 A _ _ B E1 E2) in Hnd. apply between_nodup in Hnd. tauto.
Qed.

Lemma in_places P l1 M l2 x : x ∈ places P (l1 ++ M ++ l2) ↔ x ∈ places P (l1 ++ l2) ∨ x ∈ (place <$> M).
Proof. unfold places, full. rewrite !fmap_cons, !fmap_app, !elem_of_cons, !elem_of_app. tauto. Qed.
Lemma back_place P l1 l2 : place (back P l1) ∈ places P (l1 ++ l2).
Proof.
  destruct (back_app P l1) as [A E]. unfold places, full. rewrite <- app_assoc.
  change (first_entry P :: l1 ++ ?x) with ((first_entry P :: l1) ++ x). rewrite E, !fmap_app. set_solver.
Qed.
Lemma front_place P l1 l2 : place (front P l2) ∈ places P (l1 ++ l2).
Proof.
  destruct (front_app P l2) as [B E]. unfold places, full. rewrite <- app_assoc, E, fmap_cons, fmap_app. set_solver.
Qed.

(** ** Changes of the lists *)

Lemma linked s s' L fr P l1 l2 e : pools_ok s L fr → L P = l1 ++ l2 → loose s L fr e →
  free_list s' = free_list s →
  regions s' !! place e = Some (node_of e (place (back P l1)) (place (front P l2))) →
  regions s' !! place (back P l1) = (λ x, x <| next := place e |>) <$> regions s !! place (back P l1) →
  regions s' !! place (front P l2) = (λ x, x <| prev := place e |>) <$> regions s !! place (front P l2) →
  (∀ x, x ≠ place (back P l1) → x ≠ place (front P l2) → x ≠ place e → regions s' !! x = regions s !! x) →
  pools_ok s' (upd_pool L P (l1 ++ e :: l2)) fr.
Proof.
  intros Hok HL Hls Hfl He Hb Hc Hx. destruct (back_app P l1) as [A E1], (front_app P l2) as [B E2].
  apply (pools_ok_between s s' L fr P l1 [] [e] l2 A B _ _ Hok HL E1 E2); try done.
  - intros x ?? _ Hn. apply Hx; try done. intros ->. apply Hn. by left.
  - simpl. apply NoDup_singleton.
  - intros x Hin. apply list_elem_of_singleton in Hin as ->. right. destruct Hls. done.
Qed.

Lemma unlinked s s' L fr P l1 l2 e : pools_ok s L fr → L P = l1 ++ e :: l2 →
  free_list s' = free_list s → regions s' !! place e = regions s !! place e →
  regions s' !! place (back P l1) = (λ x, x <| next := place (front P l2) |>) <$> regions s !! place (back P l1) →
  regions s' !! place (front P l2) = (λ x, x <| prev := place (back P l1) |>) <$> regions s !! place (front P l2) →
  (∀ x, x ≠ place (back P l1) → x ≠ place (front P l2) → regions s' !! x = regions s !! x) →
  pools_ok s' (upd_pool L P (l1 ++ l2)) fr ∧ loose s' (upd_pool L P (l1 ++ l2)) fr e.
Proof.
  intros Hok HL Hfl He Hb Hc Hx. destruct (back_app P l1) as [A E1], (front_app P l2) as [B E2]. split.
  { apply (pools_ok_between s s' L fr P l1 [e] [] l2 A B _ _ Hok HL E1 E2); try done.
    - intros x ?? _ _. by apply Hx.
    - apply NoDup_nil_2.
    - intros x Hin. by apply elem_of_nil in Hin. }
  assert (Hin : place e ∈ places P (L P)) by (rewrite HL; apply (in_places P l1 [e] l2); right; by left).
  split.
  - rewrite He, (pool_node s L fr P l1 e l2) by done. eauto.
  - intros E. apply (po_zero _ _ _ Hok P). by rewrite <- E.
  - intros Q. unfold upd_pool. case_decide as HQ; [subst Q|intros Hin'; by apply HQ, (po_apart _ _ _ Hok Q P (place e))].
    pose proof (po_nodup _ _ _ Hok P) as Hnd. rewrite HL in Hnd. unfold places, full in *.
    rewrite !fmap_cons, !fmap_app in Hnd |- *. simpl in Hnd. rewrite <- app_assoc in Hnd |- *. simpl in Hnd.
    apply NoDup_cons in Hnd as [Hnf Hnd]. apply NoDup_app in Hnd as (_&Hd&Hnd). apply NoDup_cons in Hnd as [Hnd _].
    rewrite elem_of_cons, elem_of_app. intros [E|[Hl|Hl]]; [|by apply (Hd _ Hl); left|done].
    apply Hnf, elem_of_app. right. apply elem_of_cons. left. symmetry. exact E.
  - by apply (po_free_apart _ _ _ Hok P).
Qed.

(** The bounds of a region change; a loose one stays loose. *)
Lemma rebound s s' L fr P l1 l2 e e' : pools_ok s L fr → L P = l1 ++ e :: l2 → place e' = place e →
  free_list s' = free_list s →
  regions s' !! place e = Some (node_of e' (place (back P l1)) (place (front P l2))) →
  (∀ x, x ≠ place e → regions s' !! x = regions s !! x) →
  pools_ok s' (upd_pool L P (l1 ++ e' :: l2)) fr ∧
  (∀ f, loose s L fr f → loose s' (upd_pool L P (l1 ++ e' :: l2)) fr f).
Proof.
  intros Hok HL Hpl Hfl He Hx.
  assert (Hsame : ∀ Q, places Q (upd_pool L P (l1 ++ e' :: l2) Q) = places Q (L Q)).
  { intros Q. unfold upd_pool. case_decide; [subst|done]. unfold places, full. rewrite HL, !fmap_cons, !fmap_app, !fmap_cons. by rewrite Hpl. }
  destruct (around_ne s L fr P l1 [e] l2 Hok HL) as (_&Hbe&Hce). rewrite list_fmap_singleton, list_elem_of_singleton in Hbe, Hce.
  split.
  - destruct (back_app P l1) as [A E1], (front_app P l2) as [B E2].
    apply (pools_ok_between s s' L fr P l1 [e] [e'] l2 A B _ _ Hok HL E1 E2); try done.
    + rewrite Hx by done. destruct (back_node s L fr P l1 (e :: l2) Hok HL) as [u ->]. simpl. by rewrite Hpl.
    + rewrite Hx by done. change l1 with ([] ++ l1) in HL. destruct (front_node s L fr P (l1 ++ [e]) l2 Hok) as [u ->]; [by rewrite <- app_assoc|].
      simpl. unfold back, last_place. rewrite last_snoc. simpl. by rewrite Hpl.
    + simpl. by rewrite Hpl.
    + intros x ?? Hn _. apply Hx. intros ->. apply Hn. by left.
    + simpl. apply NoDup_singleton.
    + intros x. rewrite list_fmap_singleton, list_elem_of_singleton. intros ->. left. rewrite Hpl. by left.
  - intros f [(p&n&Hn) Hz Hp Hf]. assert (place f ≠ place e).
    { intros E. apply (Hp P). rewrite E, HL. apply (in_places P l1 [e] l2). right. by left. }
    split; [rewrite Hx by done; eauto|done| |done]. intros Q. by rewrite Hsame.
Qed.

(** ** What the code does *)

Lemma runs_free s L fr e (R : unit → sigma0 → Prop) :
  pools_ok s L fr → loose s L fr e →
  (∀ s', steps s s' → pools_ok s' L (place e :: fr) → R tt s') → runs (list_free (place e)) R s.
Proof.
  intros Hok [(p&n&Hn) Hz Hp Hf] HR. apply runs_bind, runs_get, runs_bind, runs_update, runs_update. apply HR; [by destruct s|].
  set (s' := _ <| free_list := _ |>).
  assert (Hr : regions s' = <[place e := (node_of e p n) <| low := free_list s |>]> (regions s)).
  { change (regions s') with (<[place e := (default (garbage (place e)) (regions s !! place e)) <| low := free_list s |>]> (regions s)). by rewrite Hn. }
  assert (Hfl : free_list s' = place e) by done. clearbody s'.
  split; try apply Hok.
  - intros P. destruct (po_chain _ _ _ Hok P) as (u&v&Hc). exists u, v. eapply chain_frame; [|exact Hc].
    intros x Hx. rewrite Hr. apply lookup_insert_ne. intros <-. by apply (Hp P).
  - rewrite Hfl. simpl. split_and!; [done|done|].
    eexists. rewrite Hr, lookup_insert_eq. split; [done|]. eapply free_chain_frame; [|apply Hok].
    intros x Hx. apply lookup_insert_ne. by intros <-.
  - apply NoDup_cons. split; [done|apply Hok].
  - intros P x Hx. apply not_elem_of_cons. split; [intros ->; by apply (Hp P)|by apply (po_free_apart _ _ _ Hok P)].
Qed.

Lemma runs_unlink s L fr P l1 e l2 (R : unit → sigma0 → Prop) :
  pools_ok s L fr → L P = l1 ++ e :: l2 →
  (∀ s', steps s s' → pools_ok s' (upd_pool L P (l1 ++ l2)) (place e :: fr) → R tt s') →
  runs (region_remove (place e)) R s.
Proof.
  intros Hok HL HR. pose proof (pool_node _ _ _ _ _ _ _ Hok HL) as He.
  destruct (back_node _ _ _ _ _ _ Hok HL) as [u Hb].
  destruct (front_node s L fr P (l1 ++ [e]) l2 Hok) as [v Hc]; [by rewrite HL, <- app_assoc|].
  destruct (around_ne s L fr P l1 [e] l2 Hok HL) as (Hbc&Hbe&Hce).
  rewrite list_fmap_singleton, list_elem_of_singleton in Hbe, Hce.
  apply runs_bind. eapply runs_rget; [exact He|]. apply runs_bind. eapply runs_rget; [exact He|]. simpl.
  apply runs_bind, runs_alter; [by rewrite Hb|]. apply runs_bind, runs_alter; [by rewrite regions_set, lookup_alter_ne, Hc|].
  destruct (unlinked s (s <| regions ::= alter (λ x, x <| next := place (front P l2) |>) (place (back P l1)) |>
    <| regions ::= alter (λ x, x <| prev := place (back P l1) |>) (place (front P l2)) |>) L fr P l1 l2 e Hok HL) as [Hok' Hls'];
    [done|by look..| |].
  { intros x ??. by look. }
  eapply runs_free; [exact Hok'|exact Hls'|]. intros s' Hs Hs'. apply HR; [|done].
  eapply steps_trans; [|exact Hs]. eapply steps_trans; apply steps_regions.
Qed.

Lemma runs_rebound s L fr P l1 e e' l2 f (R : unit → sigma0 → Prop) :
  pools_ok s L fr → L P = l1 ++ e :: l2 → place e' = place e → (∀ p n, f (node_of e p n) = node_of e' p n) →
  (∀ s', steps s s' → pools_ok s' (upd_pool L P (l1 ++ e' :: l2)) fr →
    (∀ g, loose s L fr g → loose s' (upd_pool L P (l1 ++ e' :: l2)) fr g) → R tt s') →
  runs (rset (place e) f) R s.
Proof.
  intros Hok HL Hpl Hf HR. pose proof (pool_node _ _ _ _ _ _ _ Hok HL) as He.
  apply runs_alter; [by rewrite He|].
  destruct (rebound s (s <| regions ::= alter f (place e) |>) L fr P l1 l2 e e' Hok HL Hpl) as [Hok' Hls'];
    [done|look; rewrite He; simpl; by rewrite Hf|intros x ?; by look|].
  apply HR; [apply steps_regions|done|done].
Qed.

(** A structure in no list gets its bounds. *)
Lemma loose_alter s L fr e e' f : pools_ok s L fr → loose s L fr e → place e' = place e →
  (∀ p n, ∃ p' n', f (node_of e p n) = node_of e' p' n') →
  let s' := s <| regions ::= alter f (place e) |> in pools_ok s' L fr ∧ loose s' L fr e'.
Proof.
  intros Hok [(p&n&Hn) Hz Hp Hf] Hpl Hff s'. subst s'. split.
  - split; try apply Hok.
    + intros P. destruct (po_chain _ _ _ Hok P) as (u&v&Hc). exists u, v. eapply chain_frame; [|exact Hc].
      intros x Hx. assert (x ≠ place e) by (intros ->; by apply (Hp P)). by look.
    + eapply free_chain_frame; [|apply Hok]. intros x Hx. assert (x ≠ place e) by (by intros ->). by look.
  - destruct (Hff p n) as (p'&n'&E). split; rewrite Hpl; [|done..]. exists p', n'. look. rewrite Hn. simpl. by rewrite E.
Qed.

Lemma runs_link s L fr P l1 l2 e (R : unit → sigma0 → Prop) :
  pools_ok s L fr → L P = l1 ++ l2 → loose s L fr e →
  (∀ s', steps s s' → pools_ok s' (upd_pool L P (l1 ++ e :: l2)) fr → R tt s') →
  runs (rset (place e) (λ y, y <| next := place (front P l2) |>);; rset (place e) (λ y, y <| prev := place (back P l1) |>);;
    rset (place (front P l2)) (λ y, y <| prev := place e |>);; rset (place (back P l1)) (λ y, y <| next := place e |>)) R s ∧
  runs (rset (place e) (λ y, y <| next := place (front P l2) |>);; rset (place e) (λ y, y <| prev := place (back P l1) |>);;
    rset (place (back P l1)) (λ y, y <| next := place e |>);; rset (place (front P l2)) (λ y, y <| prev := place e |>)) R s.
Proof.
  intros Hok HL Hls HR. destruct (back_node _ _ _ _ _ _ Hok HL) as [u Hb]. destruct (front_node _ _ _ _ _ _ Hok HL) as [v Hc].
  destruct (around_ne s L fr P l1 [] l2 Hok HL) as (Hbc&_).
  pose proof (ls_pools _ _ _ _ Hls P) as Hnp. rewrite HL in Hnp.
  assert (place e ≠ place (back P l1)) by (intros E; apply Hnp; rewrite E; apply back_place).
  assert (place e ≠ place (front P l2)) by (intros E; apply Hnp; rewrite E; apply front_place).
  destruct (ls_node _ _ _ _ Hls) as (p&n&Hn).
  split; (apply runs_bind, runs_alter; [by rewrite Hn|]; apply runs_bind, runs_alter; [by look; rewrite Hn|];
    apply runs_bind, runs_alter; [look; by rewrite ?Hb, ?Hc|]; apply runs_alter; [look; by rewrite ?Hb, ?Hc|];
    apply HR; [repeat (eapply steps_trans; [|apply steps_regions]); apply steps_refl|];
    eapply (linked s); [done|done|done|done|by look; rewrite Hn|by look|by look|intros x ???; by look]).
Qed.

(** ** Structures from the free list *)

(** What the pools need of an allocator while there are free structures. *)
Class Allocator (al : Srv sigma0 Z) : Prop :=
  alloc_takes s L fr a (R : Z → sigma0 → Prop) : pools_ok s L (a :: fr) →
    (∀ s' w h o, steps s s' → pools_ok s' L fr → loose s' L fr (Entry a w h o) → R a s') → runs al R s.

Lemma runs_take_first s L fr a (R : Z → sigma0 → Prop) : pools_ok s L (a :: fr) →
  (∀ s' w h o, steps s s' → pools_ok s' L fr → loose s' L fr (Entry a w h o) → R a s') → runs take_first R s.
Proof.
  intros Hok HR. pose proof (po_free _ _ _ Hok) as (E&Ha&x&Hx&Hf).
  pose proof (po_free_nodup _ _ _ Hok) as Hnd. apply NoDup_cons in Hnd as [Han Hnd].
  apply runs_bind, runs_get. rewrite E. apply runs_bind. eapply runs_rget; [exact Hx|]. apply runs_bind, runs_update, runs_ret.
  assert (Hap : ∀ P, a ∉ places P (L P)) by (intros P Hin; apply (po_free_apart _ _ _ Hok P a Hin); by left).
  apply (HR _ (low x) (high x) (owner x)); [by destruct s| |].
  - split; try apply Hok; [done|done|]. intros P y Hy Hyf. apply (po_free_apart _ _ _ Hok P y Hy). by right.
  - split; [|done..]. exists (prev x), (next x). change (regions s !! a = Some (node_of (Entry a (low x) (high x) (owner x)) (prev x) (next x))).
    rewrite Hx. by destruct x.
Qed.

#[global] Instance alloc_allocator fuel : Allocator (alloc fuel).
Proof.
  intros s L fr a R Hok HR. pose proof (po_free _ _ _ Hok) as (E&Ha&_).
  assert (Ht : runs take_first R s) by (by eapply runs_take_first).
  destruct fuel as [|fuel]; simpl; apply runs_bind, runs_get; rewrite E, (proj2 (Z.eqb_neq a 0)) by done; exact Ht.
Qed.

Lemma runs_new (al : Srv sigma0 Z) `{!Allocator al} s L fr a w h o (R : Z → sigma0 → Prop) : pools_ok s L (a :: fr) →
  (∀ s', steps s s' → pools_ok s' L fr → loose s' L fr (Entry a w h o) → R a s') → runs (new_memregion al w h o) R s.
Proof.
  intros Hok HR. apply runs_bind. eapply alloc_takes; [exact Hok|]. intros s1 l0 h0 o0 Hs1 Hok1 Hls1.
  apply runs_bind. change a with (place (Entry a l0 h0 o0)) at 1.
  apply runs_alter; [destruct (ls_node _ _ _ _ Hls1) as (p&n&->); eauto|]. apply runs_ret.
  destruct (loose_alter s1 L fr (Entry a l0 h0 o0) (Entry a w h o) (λ x, x <| low := w |> <| high := h |> <| owner := o |>) Hok1 Hls1) as [Hok2 Hls2];
    [done|by intros p n; exists p, n|].
  apply HR; [eapply steps_trans; [exact Hs1|apply steps_regions]|done|done].
Qed.
End operations.
