(* ===== verification/Sigma0Spec.v ===== *)
(** What sigma0 gives away: pages that it had, to one thread each. *)

From stdpp Require Import gmap sorting.
From S2P Require Import Prelude Machine Server L4Types Message Sigma0 Sigma0Pool.

(** * Pages in a region *)

Section arithmetic.
Context (k : Z) (Hk : 0 ≤ k < 32).
Implicit Types x : memregion_t.

Lemma page_size : 0 < 2 ^ k ∧ 2 ^ k * 2 ^ (32 - k) = 2 ^ 32 ∧ 2 ^ k ≤ 2 ^ 31.
Proof.
  split_and!; [lia| |apply Z.pow_le_mono_r; lia].
  rewrite <- Z.pow_add_r by lia. f_equal. lia.
Qed.

Lemma quotient (w : Z) : 2 ^ k * (w / 2 ^ k) ≤ w < 2 ^ k * (w / 2 ^ k) + 2 ^ k.
Proof. pose proof page_size. pose proof (Z.mul_div_le w (2 ^ k)). pose proof (Z.mul_succ_div_gt w (2 ^ k)). lia. Qed.

Lemma low_a_spec x : 0 ≤ low x < 2 ^ 32 →
  low_a x (2 ^ k) = if low x + 2 ^ k - 1 <? 2 ^ 32 then 2 ^ k * ((low x + 2 ^ k - 1) / 2 ^ k) else 0.
Proof.
  intros Hl. pose proof page_size. unfold low_a. rewrite land_high by (try apply u32_range; lia).
  destruct (Z.ltb_spec (low x + 2 ^ k - 1) (2 ^ 32)); [by rewrite u32_id by lia|].
  replace (u32 _) with (low x + 2 ^ k - 1 - 2 ^ 32) by (unfold u32; zlia).
  rewrite Z.div_small by lia. lia.
Qed.

Lemma high_a_spec x : 0 ≤ high x < 2 ^ 32 →
  high_a x (2 ^ k) = if high x <? 2 ^ k - 1 then 2 ^ 32 - 1 else 2 ^ k * ((high x + 1) / 2 ^ k) - 1.
Proof.
  intros Hh. pose proof page_size as (Hp&HM&H31). unfold high_a. rewrite land_high by (try apply u32_range; lia).
  destruct (Z.ltb_spec (high x) (2 ^ k - 1)).
  - rewrite (u32_id (high x + 1)) by lia. rewrite Z.div_small by lia. rewrite Z.mul_0_r. done.
  - destruct (decide (high x = 2 ^ 32 - 1)) as [->|].
    + replace (2 ^ 32 - 1 + 1) with (2 ^ 32) by lia. change (u32 (2 ^ 32)) with 0.
      rewrite Z.div_0_l, Z.mul_0_r by lia. replace (2 ^ 32 / 2 ^ k) with (2 ^ (32 - k)); [by rewrite HM|].
      by rewrite <- HM, Z.mul_comm, Z.div_mul by lia.
    + rewrite (u32_id (high x + 1)) by lia. pose proof (quotient (high x + 1)).
      assert (1 ≤ (high x + 1) / 2 ^ k) by (apply Z.div_le_lower_bound; lia).
      apply u32_id. nia.
Qed.

(** The page at [a] is in the region, which is [tid]'s or nobody's. *)
Definition has_page x a tid : Prop :=
  low x ≤ a ∧ a + 2 ^ k - 1 ≤ high x ∧ (owner x = tid ∨ owner x = L4_anythread).

Lemma refused_at_spec x a tid :
  0 ≤ low x → low x ≤ high x → high x < 2 ^ 32 → 0 ≤ a → a + 2 ^ k ≤ 2 ^ 32 → a mod 2 ^ k = 0 →
  refused_at x a (2 ^ k) tid = false ↔ has_page x a tid.
Proof.
  intros Hl Hlh Hh Ha0 Ha Hal. pose proof page_size as (Hp&HM&H31). unfold refused_at, has_page.
  rewrite low_a_spec, high_a_spec by lia. rewrite (u32_id (a + 2 ^ k - 1)) by lia.
  pose proof (quotient (low x + 2 ^ k - 1)). pose proof (quotient (high x + 1)).
  assert (Hq : a = 2 ^ k * (a / 2 ^ k)) by (pose proof (Z.div_mod a (2 ^ k)); lia).
  set (q := (low x + 2 ^ k - 1) / 2 ^ k) in *. set (r := (high x + 1) / 2 ^ k) in *. set (c := a / 2 ^ k) in *.
  rewrite !orb_false_iff, andb_false_iff, !negb_false_iff, !Z.eqb_eq, !Z.ltb_ge.
  destruct (Z.ltb_spec (high x) (2 ^ k - 1)); [split; intros Hx; decompose [and] Hx; lia|].
  assert (Hcq : low x ≤ a ↔ q ≤ c) by (rewrite Hq; split; nia).
  assert (Hcr : a + 2 ^ k - 1 ≤ high x ↔ c + 1 ≤ r) by (rewrite Hq; split; nia).
  destruct (Z.ltb_spec (low x + 2 ^ k - 1) (2 ^ 32)).
  - rewrite Hcq, Hcr. split.
    + intros (((((?&?)&_)&_)&_)&?). split_and!; [nia|nia|done].
    + intros (?&?&?). rewrite (u32_id (2 ^ k * r - 1 - 2 ^ k * q)) by nia. split_and!; try done; nia.
  - split; [|lia]. intros (((_&?)&_)&_). lia.
Qed.

(** [low_a] is the first page that is not below the region. *)
Lemma low_a_page x : 0 ≤ low x < 2 ^ 32 →
  low_a x (2 ^ k) mod 2 ^ k = 0 ∧ 0 ≤ low_a x (2 ^ k) ∧ low_a x (2 ^ k) + 2 ^ k ≤ 2 ^ 32.
Proof.
  intros Hl. pose proof page_size as (Hp&HM&H31). rewrite low_a_spec by lia. pose proof (quotient (low x + 2 ^ k - 1)).
  destruct (Z.ltb_spec (low x + 2 ^ k - 1) (2 ^ 32)); [|rewrite Z.mod_0_l by lia; lia].
  assert ((low x + 2 ^ k - 1) / 2 ^ k < 2 ^ (32 - k)) by (apply Z.div_lt_upper_bound; lia).
  assert (0 ≤ (low x + 2 ^ k - 1) / 2 ^ k) by (apply Z.div_pos; lia).
  rewrite (Z.mul_comm (2 ^ k)) at 1. rewrite Z.mod_mul by lia. split_and!; [done|nia|nia].
Qed.
Lemma low_a_first x a : 0 ≤ low x → a mod 2 ^ k = 0 → low x ≤ a → a + 2 ^ k ≤ 2 ^ 32 → low x ≤ low_a x (2 ^ k) ≤ a.
Proof.
  intros Hl Hal Hla Ha. pose proof page_size as (Hp&HM&H31). rewrite low_a_spec by lia. pose proof (quotient (low x + 2 ^ k - 1)).
  assert (Hq : a = 2 ^ k * (a / 2 ^ k)) by (pose proof (Z.div_mod a (2 ^ k)); lia).
  set (c := a / 2 ^ k) in *. set (q := (low x + 2 ^ k - 1) / 2 ^ k) in *.
  destruct (Z.ltb_spec (low x + 2 ^ k - 1) (2 ^ 32)); [|lia]. assert (q ≤ c) by nia. split; nia.
Qed.

Lemma refused_any_at x tid : 0 ≤ low x → low x ≤ high x → high x < 2 ^ 32 →
  refused_any x (2 ^ k) tid = false ↔ has_page x (low_a x (2 ^ k)) tid.
Proof.
  intros Hl Hlh Hh. pose proof page_size as (Hp&HM&H31). destruct (low_a_page x) as (Hal&H0&H32); [lia|].
  rewrite <- refused_at_spec by lia. unfold refused_any, refused_at.
  rewrite !orb_false_iff, !Z.ltb_ge, (u32_id (low_a x (2 ^ k) + 2 ^ k - 1)) by lia.
  assert (0 ≤ high_a x (2 ^ k) < 2 ^ 32) by (unfold high_a; apply u32_range).
  split; intros Hx; decompose [and] Hx; split_and!; try done; try lia.
  match goal with Hu : _ ≤ u32 _ |- _ => rewrite u32_id in Hu by lia end. lia.
Qed.
Lemma refused_any_spec x tid : 0 ≤ low x → low x ≤ high x → high x < 2 ^ 32 →
  refused_any x (2 ^ k) tid = false ↔ ∃ a, a mod 2 ^ k = 0 ∧ has_page x a tid.
Proof.
  intros Hl Hlh Hh. rewrite refused_any_at by lia. destruct (low_a_page x); [lia|]. split; [eauto|].
  intros (a&Hal&Hla&Hah&Ho). destruct (low_a_first x a); try lia. unfold has_page. split_and!; [lia..|done].
Qed.

(** The ends of the region that the code compares. *)
Lemma low_a_low x : 0 ≤ low x → low x + 2 ^ k ≤ 2 ^ 32 → (low_a x (2 ^ k) =? low x) = (low x mod 2 ^ k =? 0).
Proof.
  intros Hl Hx. pose proof page_size. destruct (low_a_page x); [lia|].
  destruct (Z.eqb_spec (low x mod 2 ^ k) 0) as [E|E].
  - apply Z.eqb_eq. pose proof (low_a_first x (low x)). lia.
  - apply Z.eqb_neq. congruence.
Qed.
Lemma high_a_high x : 2 ^ k - 1 ≤ high x < 2 ^ 32 → (high_a x (2 ^ k) =? high x) = ((high x + 1) mod 2 ^ k =? 0).
Proof.
  intros Hh. pose proof page_size. rewrite high_a_spec by lia. rewrite (proj2 (Z.ltb_ge _ _)) by lia.
  pose proof (Z.div_mod (high x + 1) (2 ^ k)). apply eq_true_iff_eq. rewrite !Z.eqb_eq. lia.
Qed.
End arithmetic.

(** * Regions in order *)

Implicit Types (e b c : entry) (l : list entry).

Record ok_entry e : Prop := { oe_low : 0 ≤ lo e; oe_order : lo e ≤ hi e; oe_high : hi e < 2 ^ 32; oe_own : own e ≠ L4_nilthread }.
Definition ahead e c : Prop := hi e < lo c.
Definition good l : Prop := Forall ok_entry l ∧ StronglySorted ahead l.

(** The address [x] is [o]'s in the pool. *)
Definition holds l (x o : Z) : Prop := ∃ e, e ∈ l ∧ lo e ≤ x ≤ hi e ∧ own e = o.

Lemma good_app l1 l2 : good (l1 ++ l2) ↔ good l1 ∧ good l2 ∧ ∀ e c, e ∈ l1 → c ∈ l2 → ahead e c.
Proof.
  unfold good. rewrite Forall_app, StronglySorted_app. naive_solver.
Qed.
Lemma good_one e : good [e] ↔ ok_entry e.
Proof. unfold good. rewrite Forall_singleton. split; [tauto|]. intros He. split; [done|]. repeat constructor. Qed.
Lemma good_between l1 e l2 : good (l1 ++ e :: l2) ↔
  good l1 ∧ good l2 ∧ ok_entry e ∧ (∀ c, c ∈ l1 → ahead c e) ∧ (∀ c, c ∈ l2 → ahead e c) ∧ ∀ b c, b ∈ l1 → c ∈ l2 → ahead b c.
Proof.
  change (e :: l2) with ([e] ++ l2). rewrite !good_app, good_one. setoid_rewrite elem_of_app. setoid_rewrite list_elem_of_singleton.
  naive_solver.
Qed.

Lemma holds_app l1 l2 x o : holds (l1 ++ l2) x o ↔ holds l1 x o ∨ holds l2 x o.
Proof. unfold holds. setoid_rewrite elem_of_app. naive_solver. Qed.
Lemma holds_cons e l x o : holds (e :: l) x o ↔ (lo e ≤ x ≤ hi e ∧ own e = o) ∨ holds l x o.
Proof. unfold holds. setoid_rewrite elem_of_cons. naive_solver. Qed.
Lemma holds_nil x o : ¬ holds [] x o.
Proof. intros (e&He&_). by apply elem_of_nil in He. Qed.

(** Where a region that overlaps none goes. *)
Lemma place_between l e : good l → lo e ≤ hi e → (∀ x o, lo e ≤ x ≤ hi e → ¬ holds l x o) →
  ∃ l1 l2, l = l1 ++ l2 ∧ (∀ c, c ∈ l1 → ahead c e) ∧ (∀ c, c ∈ l2 → ahead e c).
Proof.
  intros Hg He Hno. induction l as [|a l IH]; [exists [], []; split_and!; [done|..]; intros c Hc; by apply elem_of_nil in Hc|].
  apply (good_between [] a l) in Hg as (_&Hl&[]&_&Ha&_). setoid_rewrite holds_cons in Hno.
  destruct (decide (hi a < lo e)).
  - destruct IH as (l1&l2&->&H1&H2); [done|naive_solver|]. exists (a :: l1), l2. split_and!; [done| |done].
    intros c [->|Hc]%elem_of_cons; [done|by apply H1].
  - assert (hi e < lo a).
    { destruct (decide (lo a ≤ hi e)); [|lia]. destruct (Hno (Z.max (lo a) (lo e)) (own a)); [lia|]. left. split; [lia|done]. }
    exists [], (a :: l). split_and!; [done|intros c Hc; by apply elem_of_nil in Hc|].
    intros c [->|Hc]%elem_of_cons; [done|]. specialize (Ha c Hc). unfold ahead in *. lia.
Qed.

(** ** Insertion *)

Definition joined (x y : memregion_t) : option (memregion_t → memregion_t) :=
  if negb (owner x =? owner y) then None
  else if (low x =? u32 (high y + 1)) && negb (low x =? 0) then Some (λ x, x <| low := low y |>)
  else if (u32 (high x + 1) =? low y) && negb (low y =? 0) then Some (λ x, x <| high := high y |>)
  else None.

Lemma runs_concatenate p r x y (R : bool → sigma0 → Prop) s :
  regions s !! p = Some x → regions s !! r = Some y →
  match joined x y with Some f => runs (rset p f) (λ _, R true) s | None => R false s end → runs (concatenate p r) R s.
Proof.
  intros Hx Hy HR. apply runs_bind. eapply runs_rget; [exact Hx|]. apply runs_bind. eapply runs_rget; [exact Hy|]. unfold joined in HR.
  change (id x) with x. change (id y) with y.
  destruct (negb (owner x =? owner y)); [by apply runs_ret|].
  destruct ((low x =? u32 (high y + 1)) && negb (low x =? 0));
    [|destruct ((u32 (high x + 1) =? low y) && negb (low y =? 0)); [|by apply runs_ret]].
  all: apply runs_bind; eapply runs_mono; [exact HR|]; intros [] s' ?; by apply runs_ret.
Qed.

(** Regions join where the one ends and the other starts. *)
Lemma joined_behind b p n e p' n' : ok_entry e → (own b = own e → ok_entry b ∧ ahead b e) →
  joined (node_of b p n) (node_of e p' n') =
    if (own b =? own e) && (hi b + 1 =? lo e) then Some (λ x, x <| high := hi e |>) else None.
Proof.
  intros [] Hb. unfold joined. simpl. destruct (Z.eqb_spec (own b) (own e)) as [E|E]; [|done].
  destruct (Hb E) as [[] Ha]. unfold ahead in Ha. simpl.
  replace ((lo b =? u32 (hi e + 1)) && negb (lo b =? 0)) with false.
  - destruct (Z.eqb_spec (hi b + 1) (lo e)).
    + rewrite u32_id by lia. rewrite (proj2 (Z.eqb_eq _ _)) by lia. by rewrite (proj2 (Z.eqb_neq (lo e) 0)) by lia.
    + rewrite u32_id by lia. by rewrite (proj2 (Z.eqb_neq _ _)) by lia.
  - symmetry. apply andb_false_iff. destruct (decide (lo b = 0)) as [->|]; [by right|left]. apply Z.eqb_neq. unfold u32. zlia.
Qed.
Lemma joined_ahead c p n e p' n' : ok_entry e → (own c = own e → ok_entry c ∧ ahead e c) →
  joined (node_of c p n) (node_of e p' n') =
    if (own c =? own e) && (hi e + 1 =? lo c) then Some (λ x, x <| low := lo e |>) else None.
Proof.
  intros [] Hb. unfold joined. simpl. destruct (Z.eqb_spec (own c) (own e)) as [E|E]; [|done].
  destruct (Hb E) as [[] Ha]. unfold ahead in Ha. simpl. rewrite (u32_id (hi e + 1)) by lia.
  destruct (Z.eqb_spec (hi e + 1) (lo c)).
  - rewrite (proj2 (Z.eqb_eq _ _)) by lia. by rewrite (proj2 (Z.eqb_neq (lo c) 0)) by lia.
  - rewrite (proj2 (Z.eqb_neq (lo c) _)) by lia. simpl.
    replace ((u32 (hi c + 1) =? lo e) && negb (lo e =? 0)) with false; [done|].
    symmetry. apply andb_false_iff. destruct (decide (lo e = 0)) as [->|]; [by right|left]. apply Z.eqb_neq. unfold u32. zlia.
Qed.

Section pool.
Context `{Boot_memory}.
Implicit Types (P Q : memregion_pool) (L : memregion_pool → list entry) (fr : list Z) (s : sigma0).

Lemma back_snoc P l e : back P (l ++ [e]) = e.
Proof. unfold back. by rewrite last_snoc. Qed.

Lemma find_place_runs s L fr P l0 l1 l2 w fuel (R : Z * Z → sigma0 → Prop) :
  pools_ok s L fr → L P = l0 ++ l1 ++ l2 → Forall (λ c, hi c < w) l1 → w ≤ hi (front P l2) → (length l1 ≤ fuel)%nat →
  R (place (back P (l0 ++ l1)), place (front P l2)) s →
  runs (find_place fuel w (place (back P l0)) (place (front P (l1 ++ l2)))) R s.
Proof.
  intros Hok. revert l0 fuel. induction l1 as [|e l1 IH]; intros l0 fuel HL Hlt Hw Hf HR.
  - rewrite app_nil_r in HR. destruct (front_node s L fr P l0 l2 Hok HL) as [v Hn].
    destruct fuel; simpl; (apply runs_bind; eapply runs_rget; [exact Hn|]);
      simpl; rewrite (proj2 (Z.ltb_ge _ _)) by done; by apply runs_ret.
  - destruct fuel as [|fuel]; [simpl in Hf; lia|]. apply Forall_cons in Hlt as [He Hlt].
    pose proof (pool_node s L fr P l0 e (l1 ++ l2) Hok HL) as Hn.
    change (place (front P ((e :: l1) ++ l2))) with (place e). simpl.
    apply runs_bind. eapply runs_rget; [exact Hn|]. simpl. rewrite (proj2 (Z.ltb_lt _ _)) by done.
    apply runs_bind. eapply runs_rget; [exact Hn|]. simpl.
    replace (place e) with (place (back P (l0 ++ [e]))) by by rewrite back_snoc.
    apply (IH (l0 ++ [e])); [by rewrite <- app_assoc|done|done|simpl in Hf; lia|by rewrite <- app_assoc].
Qed.

(** A pool has fewer regions than there are structures. *)
Lemma pool_fuel s L fr P : pools_ok s L fr → (length (L P) < size (regions s))%nat.
Proof.
  intros Hok. assert (Hsub : list_to_set (places P (L P)) ⊆ dom (regions s)).
  { intros x Hx. apply elem_of_list_to_set in Hx. unfold places in Hx. apply list_elem_of_fmap in Hx as (e&->&He).
    destruct (po_chain _ _ _ Hok P) as (u&v&Hc). apply list_elem_of_split in He as (a&b&E). rewrite E in Hc.
    apply chain_node in Hc. apply elem_of_dom. eauto. }
  apply subseteq_size in Hsub. rewrite size_list_to_set in Hsub by apply Hok. rewrite size_dom in Hsub.
  unfold places, full in Hsub. rewrite length_fmap in Hsub. simpl in Hsub. rewrite length_app in Hsub. simpl in Hsub. lia.
Qed.

(** Every address of [e] is added to the pool, for its owner. *)
Record adds P e L L' : Prop := {
  ad_others Q : Q ≠ P → L' Q = L Q;
  ad_good : good (L' P);
  ad_holds x o : holds (L' P) x o ↔ holds (L P) x o ∨ (lo e ≤ x ≤ hi e ∧ own e = o);
  ad_grows c : c ∈ L P → ∃ c', c' ∈ L' P ∧ lo c' ≤ lo c ∧ hi c ≤ hi c' ∧ own c' = own c;
}.

(** One region for those of [M] and the new one. *)
Lemma adds_one P e L L' l1 M l2 r : L P = l1 ++ M ++ l2 → good (L P) →
  (∀ c, c ∈ l1 → ahead c e) → (∀ c, c ∈ l2 → ahead e c) → ok_entry r →
  (∀ x o, lo r ≤ x ≤ hi r ∧ own r = o ↔ holds M x o ∨ (lo e ≤ x ≤ hi e ∧ own e = o)) →
  L' P = l1 ++ r :: l2 → (∀ Q, Q ≠ P → L' Q = L Q) → adds P e L L'.
Proof.
  intros HL Hg H1 H2 Hr Hu HL' Ho. rewrite HL in Hg.
  apply good_app in Hg as (Hg1&Hg&H1M). apply good_app in Hg as (HgM&Hg2&HM2).
  split; [done| | |].
  - rewrite HL'. apply good_between. destruct Hr as [Hr0 Hr1 Hr2 Hr3]. split_and!; try done.
    + intros c Hc. specialize (Hu (lo r) (own r)). unfold ahead in *.
      destruct (proj1 Hu) as [(m&Hm&?&_)|[? _]]; [lia| |specialize (H1 c Hc); lia].
      specialize (H1M c m Hc). rewrite elem_of_app in H1M. pose proof (H1M (or_introl Hm)). lia.
    + intros c Hc. specialize (Hu (hi r) (own r)). unfold ahead in *.
      destruct (proj1 Hu) as [(m&Hm&?&_)|[? _]]; [lia| |specialize (H2 c Hc); lia].
      specialize (HM2 m c Hm Hc). lia.
    + intros b c Hb Hc. apply H1M; [done|]. apply elem_of_app. by right.
  - intros x o. rewrite HL, HL', !holds_app, holds_cons, Hu. tauto.
  - intros c. rewrite HL, HL', !elem_of_app. intros [Hc|[Hc|Hc]]; [exists c; rewrite elem_of_app; split_and!; [tauto|lia|lia|done]| |exists c; rewrite elem_of_app, elem_of_cons; split_and!; [tauto|lia|lia|done]].
    assert (Hco : ok_entry c) by (destruct HgM as [HgM _]; rewrite Forall_forall in HgM; by apply HgM). destruct Hco.
    destruct (proj2 (Hu (lo c) (own c))) as [? Eo]; [left; exists c; split_and!; [done|lia|lia|done]|].
    destruct (proj2 (Hu (hi c) (own c))) as [? _]; [left; exists c; split_and!; [done|lia|lia|done]|].
    exists r. rewrite elem_of_app, elem_of_cons. split_and!; [tauto|lia|lia|done].
Qed.

Lemma joined_owners x y : owner x ≠ owner y → joined x y = None.
Proof. intros E. unfold joined. by rewrite (proj2 (Z.eqb_neq _ _)). Qed.

(** The region in front of a place joins one that ends there. *)
Lemma concat_front s L fr P l1 b l2 (R : bool → sigma0 → Prop) :
  pools_ok s L fr → good (L P) → L P = l1 ++ b :: l2 →
  (R false s) →
  (∀ c l2' s', l2 = c :: l2' → own b = own c → hi b + 1 = lo c → steps s s' →
    pools_ok s' (upd_pool L P (l1 ++ Entry (place b) (lo b) (hi c) (own b) :: l2)) fr → R true s') →
  runs (concatenate (place b) (place (front P l2))) R s.
Proof.
  intros Hok Hg HL HF HT. pose proof (pool_node s L fr P l1 b l2 Hok HL) as Hb.
  destruct (front_node s L fr P (l1 ++ [b]) l2 Hok) as [v Hc]; [by rewrite <- app_assoc|]. rewrite back_snoc in Hc.
  eapply runs_concatenate; [exact Hb|exact Hc|]. rewrite HL in Hg. apply good_between in Hg as (_&Hg2&Hbo&_&Hb2&_).
  destruct l2 as [|c l2].
  { rewrite joined_owners; [exact HF|]. destruct Hbo as [_ _ _ Hown]. exact Hown. }
  change (front P (c :: l2)) with c in *.
  rewrite joined_behind; [|by apply (good_between [] c l2) in Hg2 as (_&_&?&_)|intros _; split; [done|apply Hb2; by left]].
  destruct (Z.eqb_spec (own b) (own c)); [|exact HF]. destruct (Z.eqb_spec (hi b + 1) (lo c)); [|exact HF]. simpl.
  eapply (runs_rebound s L fr P l1 b (Entry (place b) (lo b) (hi c) (own b))); [done|done|done|done|]. intros s' Hs Hok' _.
  by apply (HT c l2 s').
Qed.

Section insert.
Context (s : sigma0) (L : memregion_pool → list entry) (fr : list Z) (P : memregion_pool) (e : entry) (l1 l2 : list entry).
Context (Hok : pools_ok s L fr) (Hg : good (L P)) (Hls : loose s L fr e) (He : ok_entry e).
Context (HL : L P = l1 ++ l2) (H1 : ∀ c, c ∈ l1 → ahead c e) (H2 : ∀ c, c ∈ l2 → ahead e c).
Context (R : unit → sigma0 → Prop).
Context (HR : ∀ s' L' fr', steps s s' → pools_ok s' L' fr' → adds P e L L' → (length fr ≤ length fr')%nat → R tt s').

Let Hgood : good l1 ∧ good l2 ∧ ∀ b c, b ∈ l1 → c ∈ l2 → ahead b c.
Proof. rewrite HL in Hg. by apply good_app. Qed.

(** The region joins the one behind it, and that the one in front of it. *)
Lemma insert_joined l1' b s1 : l1 = l1' ++ [b] → own b = own e → hi b + 1 = lo e → steps s s1 →
  pools_ok s1 (upd_pool L P (l1' ++ Entry (place b) (lo b) (hi e) (own b) :: l2)) fr →
  loose s1 (upd_pool L P (l1' ++ Entry (place b) (lo b) (hi e) (own b) :: l2)) fr e →
  runs (list_free (place e);; b' ← concatenate (place b) (place (front P l2));
        if b' : bool then region_remove (place (front P l2)) else mret tt) R s1.
Proof.
  intros El Eo Ea Hs1 Hok1 Hls1. set (b1 := Entry (place b) (lo b) (hi e) (own b)). fold b1 in Hok1, Hls1.
  destruct Hgood as (Hg1&Hg2&H12). pose proof Hg1 as Hgb. rewrite El in Hgb. apply good_app in Hgb as (_&Hb&_). apply good_one in Hb.
  assert (Hb1 : ok_entry b1) by (destruct Hb, He; split; simpl; try done; lia).
  assert (Ha1 : adds P e L (upd_pool L P (l1' ++ b1 :: l2))).
  { eapply (adds_one P e L _ l1' [b] l2 b1); [by rewrite HL, El, <- app_assoc|done| |done|done| |apply upd_pool_eq|intros Q; apply upd_pool_ne].
    - intros c Hc. apply H1. rewrite El. apply elem_of_app. by left.
    - intros x o. destruct Hb, He. rewrite holds_cons. pose proof (holds_nil x o). rewrite Eo in *. simpl. rewrite Eo.
      split; [intros [? <-]; destruct (decide (x ≤ hi b)); [left; left|right]; split; [lia|done|lia|done]|].
      intros [[[? <-]|?]|[? <-]]; [split; [lia|done]|done|split; [lia|done]]. }
  apply runs_bind. eapply runs_free; [exact Hok1|exact Hls1|]. intros s2 Hs2 Hok2.
  assert (Hss2 : steps s s2) by (by eapply steps_trans).
  apply runs_bind. change (place b) with (place b1).
  eapply concat_front; [exact Hok2|apply Ha1|apply upd_pool_eq| |].
  { apply runs_ret. eapply HR; [exact Hss2|exact Hok2|exact Ha1|simpl; lia]. }
  intros c l2' s3 -> Eoc Eac Hs3 Hok3. set (b2 := Entry (place b1) (lo b1) (hi c) (own b1)) in *.
  apply (good_between [] c l2') in Hg2 as (_&_&Hc&_&Hc2&_).
  eapply (runs_unlink s3 _ _ P (l1' ++ [b2]) c l2'); [exact Hok3|by rewrite upd_pool_eq, <- app_assoc|].
  intros s4 Hs4 Hok4. eapply HR; [eapply steps_trans; [exact Hss2|]; eapply steps_trans; [exact Hs3|exact Hs4]|exact Hok4| |simpl; lia].
  eapply (adds_one P e L _ l1' [b; c] l2' b2); [by rewrite HL, El, <- app_assoc|done| | | | |by rewrite upd_pool_eq, <- app_assoc|intros Q HQ; by rewrite !upd_pool_ne].
  - intros c' Hc'. apply H1. rewrite El. apply elem_of_app. by left.
  - intros c' Hc'. apply H2. by right.
  - destruct Hb, He, Hc. split; simpl; try done; simpl in Eac; lia.
  - intros x o. destruct Hb, He, Hc. rewrite !holds_cons. pose proof (holds_nil x o). simpl in Eoc, Eac. simpl. rewrite <- Eoc, Eo.
    split; [intros [? <-]; destruct (decide (x ≤ hi b)); [left; left; split; [lia|done]|];
      destruct (decide (x ≤ hi e)); [right; split; [lia|done]|left; right; left; split; [lia|done]]|].
    intros [[[? <-]|[[? <-]|?]]|[? <-]]; try done; split; try done; lia.
Qed.

(** The region joins the one in front of it, or is linked in. *)
Lemma insert_ahead :
  runs (b ← concatenate (place (front P l2)) (place e);
        if b : bool then list_free (place e) else
        rset (place e) (λ y, y <| next := place (front P l2) |>);; rset (place e) (λ y, y <| prev := place (back P l1) |>);;
        rset (place (front P l2)) (λ y, y <| prev := place e |>);; rset (place (back P l1)) (λ y, y <| next := place e |>)) R s.
Proof.
  destruct (ls_node _ _ _ _ Hls) as (p&n&Hn). destruct (front_node s L fr P l1 l2 Hok HL) as [v Hc].
  apply runs_bind. eapply runs_concatenate; [exact Hc|exact Hn|].
  assert (Hlink : runs (rset (place e) (λ y, y <| next := place (front P l2) |>);; rset (place e) (λ y, y <| prev := place (back P l1) |>);;
    rset (place (front P l2)) (λ y, y <| prev := place e |>);; rset (place (back P l1)) (λ y, y <| next := place e |>)) R s).
  { refine (proj1 (runs_link s L fr P l1 l2 e R Hok HL Hls _)). intros s' Hs Hok'. eapply HR; [exact Hs|exact Hok'| |lia].
    eapply (adds_one P e L _ l1 [] l2 e); [done|done|done|done|done| |apply upd_pool_eq|intros Q; apply upd_pool_ne].
    intros x o. pose proof (holds_nil x o). tauto. }
  destruct l2 as [|c l2'].
  { rewrite joined_owners; [exact Hlink|]. destruct He as [_ _ _ Hown]. simpl. congruence. }
  change (front P (c :: l2')) with c in *. destruct Hgood as (_&Hg2&_). apply (good_between [] c l2') in Hg2 as (_&_&Hco&_&_&_).
  rewrite joined_ahead; [|done|intros _; split; [done|apply H2; by left]].
  destruct (Z.eqb_spec (own c) (own e)) as [Eo|]; [|exact Hlink]. destruct (Z.eqb_spec (hi e + 1) (lo c)); [|exact Hlink]. simpl.
  eapply (runs_rebound s L fr P l1 c (Entry (place c) (lo e) (hi c) (own c))); [done|done|done|done|]. intros s1 Hs1 Hok1 Hls1.
  eapply runs_free; [exact Hok1|by apply Hls1|]. intros s2 Hs2 Hok2.
  eapply HR; [by eapply steps_trans|exact Hok2| |simpl; lia].
  eapply (adds_one P e L _ l1 [c] l2' (Entry (place c) (lo e) (hi c) (own c))); [done|done|done| | | |apply upd_pool_eq|intros Q; apply upd_pool_ne].
  - intros c' Hc'. apply H2. by right.
  - destruct Hco, He. split; simpl; try done; lia.
  - intros x o. destruct Hco, He. rewrite holds_cons. pose proof (holds_nil x o). simpl. rewrite Eo.
    split; [intros [? <-]; destruct (decide (x ≤ hi e)); [right|left; left]; split; try done; lia|].
    intros [[[? <-]|?]|[? <-]]; try done; split; try done; lia.
Qed.
End insert.

(** What [insert] promises: the addresses of the region are added, and no others change. *)
Lemma runs_insert s L fr P e (R : unit → sigma0 → Prop) :
  pools_ok s L fr → good (L P) → loose s L fr e → ok_entry e → (∀ x o, lo e ≤ x ≤ hi e → ¬ holds (L P) x o) →
  (∀ s' L' fr', steps s s' → pools_ok s' L' fr' → adds P e L L' → (length fr ≤ length fr')%nat → R tt s') →
  runs (pool_insert P (place e)) R s.
Proof.
  intros Hok Hg Hls He Hno HR. destruct (place_between (L P) e Hg (oe_order _ He) Hno) as (l1&l2&HL&H1&H2).
  destruct (ls_node _ _ _ _ Hls) as (p&n&Hn). destruct (back_node s L fr P [] (L P) Hok) as [u Hf]; [done|].
  apply runs_bind. eapply runs_rget; [exact Hf|]. apply runs_bind. eapply runs_rget; [exact Hn|].
  apply runs_bind, runs_bind, runs_get, runs_ret, runs_bind.
  change (next (node_of (back P []) u (place (front P (L P))))) with (place (front P (L P))). rewrite HL.
  eapply (find_place_runs s L fr P [] l1 l2); [exact Hok|exact HL| | |pose proof (pool_fuel s L fr P Hok) as Hpf; rewrite HL, length_app in Hpf; lia|].
  { apply Forall_forall. intros c Hc. by apply H1. }
  { destruct He. destruct l2 as [|c l2]; [simpl; lia|]. change (lo e ≤ hi c). pose proof (H2 c (list_elem_of_here _ _)) as Ha. unfold ahead in Ha.
    rewrite HL in Hg. apply good_between in Hg as (_&_&[]&_). lia. }
  cbn [fst snd app]. pose proof (insert_ahead s L fr P e l1 l2 Hok Hg Hls He HL H1 H2 R HR) as Hahead.
  destruct (back_node s L fr P l1 l2 Hok HL) as [u' Hb].
  apply runs_bind. eapply runs_concatenate; [exact Hb|exact Hn|].
  destruct l1 as [|b l1' _] using rev_ind.
  { rewrite joined_owners; [exact Hahead|]. destruct He as [_ _ _ Hown]. simpl. congruence. }
  rewrite back_snoc in *.
  assert (Hbo : ok_entry b). { rewrite HL in Hg. apply good_app in Hg as (Hg&_). apply good_app in Hg as (_&Hg&_). by apply good_one. }
  rewrite joined_behind; [|done|intros _; split; [done|apply H1, elem_of_app; right; by left]].
  destruct (Z.eqb_spec (own b) (own e)) as [Eo|]; [|exact Hahead]. destruct (Z.eqb_spec (hi b + 1) (lo e)); [|exact Hahead]. simpl.
  eapply (runs_rebound s L fr P l1' b (Entry (place b) (lo b) (hi e) (own b))); [done|by rewrite HL, <- app_assoc|done|done|].
  intros s1 Hs1 Hok1 Hls1. eapply (insert_joined s L fr P e); try done. by apply Hls1.
Qed.

Lemma runs_add (al : Srv sigma0 Z) `{!Allocator al} s L f fr P w h o (R : unit → sigma0 → Prop) :
  pools_ok s L (f :: fr) → good (L P) → ok_entry (Entry f w h o) → (∀ x o, w ≤ x ≤ h → ¬ holds (L P) x o) →
  (∀ s' L' fr', steps s s' → pools_ok s' L' fr' → adds P (Entry f w h o) L L' → (length fr ≤ length fr')%nat → R tt s') →
  runs (pool_add al P w h o) R s.
Proof.
  intros Hok Hg He Hno HR. apply runs_bind. eapply (runs_new al); [exact Hok|]. intros s1 Hs1 Hok1 Hls1.
  change f with (place (Entry f w h o)). eapply runs_insert; [exact Hok1|done|exact Hls1|done|done|].
  intros s' L' fr' Hs Hok' Ha Hf. eapply HR; [by eapply steps_trans|done|done|done].
Qed.

(** ** Allocation *)

Lemma runs_then (m1 m2 m3 m4 k : Srv sigma0 unit) R s :
  runs (m1;; m2;; m3;; m4) (λ _, runs k R) s → runs (m1;; m2;; m3;; m4;; k) R s.
Proof.
  unfold runs, mbind, Srv_bind. destruct (m1 s) as [? s1| | |]; [|done..]. destruct (m2 s1) as [? s2| | |]; [|done..].
  destruct (m3 s2) as [? s3| | |]; [|done..]. by destruct (m4 s3).
Qed.

(** The addresses from [a], [n] of them, leave the pool. *)
Record takes P a n L L' : Prop := {
  tk_others Q : Q ≠ P → L' Q = L Q;
  tk_good : good (L' P);
  tk_holds x o : holds (L' P) x o ↔ holds (L P) x o ∧ ¬ (a ≤ x < a + n);
  tk_keeps c u v : c ∈ L P → lo c ≤ u → u ≤ v → v ≤ hi c → v < a ∨ a + n ≤ u →
    ∃ c', c' ∈ L' P ∧ lo c' ≤ u ∧ v ≤ hi c' ∧ own c' = own c;
}.

Lemma takes_one P a n L L' l1 e M l2 : L P = l1 ++ e :: l2 → good (L P) → lo e ≤ a → a + n - 1 ≤ hi e →
  good M → (∀ r, r ∈ M → lo e ≤ lo r ∧ hi r ≤ hi e) →
  (∀ x o, holds M x o ↔ (lo e ≤ x ≤ hi e ∧ own e = o) ∧ ¬ (a ≤ x < a + n)) →
  (∀ u v, lo e ≤ u → u ≤ v → v ≤ hi e → v < a ∨ a + n ≤ u → ∃ c, c ∈ M ∧ lo c ≤ u ∧ v ≤ hi c ∧ own c = own e) →
  L' P = l1 ++ M ++ l2 → (∀ Q, Q ≠ P → L' Q = L Q) → takes P a n L L'.
Proof.
  intros HL Hg Hl Hh HM Hin Hu Hk HL' Ho. rewrite HL in Hg. apply good_between in Hg as (Hg1&Hg2&He&H1&H2&H12).
  split; [done| | |].
  - rewrite HL'. apply good_app. split_and!; [done| |].
    + apply good_app. split_and!; [done|done|]. intros r c Hr Hc. specialize (Hin r Hr). specialize (H2 c Hc). unfold ahead in *. lia.
    + intros b c Hb Hc. apply elem_of_app in Hc as [Hc|Hc]; [|by apply H12].
      specialize (Hin c Hc). specialize (H1 b Hb). unfold ahead in *. lia.
  - intros x o. rewrite HL, HL', !holds_app, holds_cons, Hu.
    assert (Hout : holds l1 x o ∨ holds l2 x o → ¬ (a ≤ x < a + n)).
    { intros [(c&Hc&Hx&_)|(c&Hc&Hx&_)]; [specialize (H1 c Hc)|specialize (H2 c Hc)]; unfold ahead in *; lia. }
    tauto.
  - intros c u v. rewrite HL, elem_of_app, elem_of_cons. setoid_rewrite HL'. setoid_rewrite elem_of_app. setoid_rewrite elem_of_app.
    intros [?|[->|?]] ????; [exists c; split_and!; [tauto|lia|lia|done]| |exists c; split_and!; [tauto|lia|lia|done]]. destruct (Hk u v) as (c&?&?); [done..|]. exists c. tauto.
Qed.

Section cut.
Context (al : Srv sigma0 Z) `{!Allocator al}.
Context (s : sigma0) (L : memregion_pool → list entry) (fr : list Z) (P : memregion_pool) (l1 l2 : list entry) (e : entry) (a n : Z).
Context (Hok : pools_ok s L fr) (Hg : good (L P)) (HL : L P = l1 ++ e :: l2).
Context (Hn : 0 < n) (Hla : lo e ≤ a) (Hah : a + n - 1 ≤ hi e).
Context (R : unit → sigma0 → Prop).
Context (HR : ∀ s' L' fr', steps s s' → pools_ok s' L' fr' → takes P a n L L' →
  (∃ M, L' P = l1 ++ M ++ l2) → (length fr ≤ S (length fr'))%nat → R tt s').

Let He : ok_entry e.
Proof. rewrite HL in Hg. by apply good_between in Hg as (_&_&?&_). Qed.

Lemma cut_front : a = lo e →
  runs (if u32 (lo e + n) =? u32 (hi e + 1) then region_remove (place e)
        else rset (place e) (λ y, y <| low := u32 (lo e + n) |>)) R s.
Proof.
  intros Ea. pose proof He as [Ho1 Ho2 Ho3 Ho4].
  destruct (Z.eqb_spec (u32 (lo e + n)) (u32 (hi e + 1))) as [E|E].
  - assert (lo e + n = hi e + 1).
    { unfold u32 in E. destruct (decide (hi e = 2 ^ 32 - 1)); zlia. }
    eapply runs_unlink; [exact Hok|exact HL|]. intros s' Hs Hok'. eapply HR; [exact Hs|exact Hok'| |by exists []; rewrite upd_pool_eq|simpl; lia].
    eapply (takes_one P a n L _ l1 e [] l2); [done|done|lia|lia| |by intros r Hr%elem_of_nil| |lia|apply upd_pool_eq|intros Q; apply upd_pool_ne].
    + split; constructor.
    + intros x o. pose proof (holds_nil x o). split; [done|]. intros [[? _] ?]. lia.
  - assert (lo e + n ≤ hi e) by (destruct (decide (lo e + n = hi e + 1)); [congruence|lia]).
    rewrite u32_id by lia. eapply (runs_rebound s L fr P l1 e (Entry (place e) (lo e + n) (hi e) (own e))); [done|done|done|done|].
    intros s' Hs Hok' _. eapply HR; [exact Hs|exact Hok'| |eexists [_]; apply upd_pool_eq|lia].
    eapply (takes_one P a n L _ l1 e [Entry (place e) (lo e + n) (hi e) (own e)] l2);
      [done|done|lia|lia| | | |intros u v ????; eexists; split; [by left|simpl; split_and!; [lia|lia|done]]|apply upd_pool_eq|intros Q; apply upd_pool_ne].
    + apply good_one. split; simpl; try done; lia.
    + intros r ->%list_elem_of_singleton. simpl. lia.
    + intros x o. rewrite holds_cons. pose proof (holds_nil x o). simpl.
      split; [intros [[? <-]|?]; [split; [split; [lia|done]|lia]|done]|intros [[? <-] ?]; left; split; [lia|done]].
Qed.

Lemma cut_back : a ≠ lo e → a + n - 1 = hi e → runs (rset (place e) (λ y, y <| high := u32 (hi e - n) |>)) R s.
Proof.
  intros Ea Eh. pose proof He as [Ho1 Ho2 Ho3 Ho4]. rewrite u32_id by lia.
  eapply (runs_rebound s L fr P l1 e (Entry (place e) (lo e) (hi e - n) (own e))); [done|done|done|done|].
  intros s' Hs Hok' _. eapply HR; [exact Hs|exact Hok'| |eexists [_]; apply upd_pool_eq|lia].
  eapply (takes_one P a n L _ l1 e [Entry (place e) (lo e) (hi e - n) (own e)] l2);
    [done|done|lia|lia| | | |intros u v ????; eexists; split; [by left|simpl; split_and!; [lia|lia|done]]|apply upd_pool_eq|intros Q; apply upd_pool_ne].
  - apply good_one. split; simpl; try done; lia.
  - intros r ->%list_elem_of_singleton. simpl. lia.
  - intros x o. rewrite holds_cons. pose proof (holds_nil x o). simpl.
    split; [intros [[? <-]|?]; [split; [split; [lia|done]|lia]|done]|intros [[? <-] ?]; left; split; [lia|done]].
Qed.

Lemma cut_middle : a ≠ lo e → a + n - 1 ≠ hi e → fr ≠ [] → runs (split_region al (place e) (u32 (a - 1)) (u32 (a + n))) R s.
Proof.
  intros Ea Eh Hfr. pose proof He as [Ho1 Ho2 Ho3 Ho4]. rewrite !u32_id by lia. destruct fr as [|f fr']; [done|].
  apply runs_bind. eapply (alloc_takes s); [exact Hok|]. intros s1 w h o Hs1 Hok1 Hls1.
  pose proof (pool_node s1 L fr' P l1 e l2 Hok1 HL) as Hn1.
  apply runs_bind. eapply runs_rget; [exact Hn1|]. simpl.
  set (e2 := Entry f (a + n) (hi e) (own e)).
  apply runs_bind. change f with (place (Entry f w h o)) at 1.
  apply runs_alter; [destruct (ls_node _ _ _ _ Hls1) as (p&m&->); eauto|].
  destruct (loose_alter s1 L fr' (Entry f w h o) e2 (λ y, y <| low := a + n |> <| high := hi e |> <| owner := own e |>) Hok1 Hls1) as [Hok2 Hls2];
    [done|by intros p m; exists p, m|]. cbn [place] in Hok2, Hls2.
  set (s2 := s1 <| regions ::= _ |>) in *. cbn [place].
  apply runs_bind. eapply runs_rget; [exact (pool_node s2 L fr' P l1 e l2 Hok2 HL)|]. cbn [next node_of].
  assert (HL2 : L P = (l1 ++ [e]) ++ l2) by by rewrite <- app_assoc.
  set (e1 := Entry (place e) (lo e) (a - 1) (own e)).
  assert (Hend : ∀ s', steps s2 s' → pools_ok s' (upd_pool L P ((l1 ++ [e]) ++ e2 :: l2)) fr' →
    runs (rset (place e) (λ y, y <| high := a - 1 |>)) R s').
  { intros s3 Hs3 Hok3. rewrite <- app_assoc in Hok3.
    eapply (runs_rebound s3 _ fr' P l1 e e1 (e2 :: l2)); [exact Hok3|apply upd_pool_eq|done|done|].
    intros s4 Hs4 Hok4 _. eapply HR; [eapply steps_trans; [exact Hs1|]; eapply steps_trans; [apply steps_regions|]; by eapply steps_trans|exact Hok4| |by exists [e1; e2]; rewrite upd_pool_eq|simpl; lia].
    eapply (takes_one P a n L _ l1 e [e1; e2] l2); [done|done|lia|lia| | | | |apply upd_pool_eq|intros Q HQ; by rewrite !upd_pool_ne].
    - apply (good_between [] e1 [e2]). split_and!; [split; constructor|apply good_one; split; simpl; try done; lia|split; simpl; try done; lia|by intros c ?%elem_of_nil| |by intros b c ?%elem_of_nil].
      intros c ->%list_elem_of_singleton. unfold ahead. simpl. lia.
    - intros r [->| ->%list_elem_of_singleton]%elem_of_cons; simpl; lia.
    - intros x o'. rewrite !holds_cons. pose proof (holds_nil x o'). simpl.
      split; [intros [[? <-]|[[? <-]|?]]; [split; [split; [lia|done]|lia]|split; [split; [lia|done]|lia]|done]|].
      intros [[? <-] ?]. destruct (decide (x < a)); [left|right; left]; split; try done; lia.
    - intros u v ???[?|?]; [exists e1|exists e2]; rewrite elem_of_cons, list_elem_of_singleton; simpl; split_and!; try lia; tauto. }
  pose proof (proj2 (runs_link s2 L fr' P (l1 ++ [e]) l2 e2 (λ _, runs (rset (place e) (λ y, y <| high := a - 1 |>)) R) Hok2 HL2 Hls2 Hend)) as Hlink.
  rewrite back_snoc in Hlink. by apply runs_then.
Qed.
End cut.

(** The page of [2 ^ k] bytes at [a] is in the region, which is [tid]'s or anybody's. *)
Definition fits k e a tid : Prop := lo e ≤ a ∧ a + 2 ^ k - 1 ≤ hi e ∧ (own e = tid ∨ own e = L4_anythread).
Definition page_word (a k : Z) : Z := L4_FpageLog2 a k + L4_FullyAccessible.

Section region.
Context (al : Srv sigma0 Z) `{!Allocator al}.
Context (s : sigma0) (L : memregion_pool → list entry) (fr : list Z) (P : memregion_pool) (l1 l2 : list entry) (e : entry) (k tid : Z).
Context (Hok : pools_ok s L fr) (Hg : good (L P)) (HL : L P = l1 ++ e :: l2) (Hk : 0 ≤ k < 32) (Hfr : fr ≠ []).
Context (R : Z → sigma0 → Prop).

Let He : ok_entry e.
Proof. rewrite HL in Hg. by apply good_between in Hg as (_&_&?&_). Qed.

Definition cut_to a : Prop := ∀ s' L' fr', steps s s' → pools_ok s' L' fr' → takes P a (2 ^ k) L L' →
  (∃ M, L' P = l1 ++ M ++ l2) → (length fr ≤ S (length fr'))%nat → R (page_word a k) s'.

Lemma runs_allocate_at a : 0 ≤ a → a + 2 ^ k ≤ 2 ^ 32 → a mod 2 ^ k = 0 →
  (¬ fits k e a tid → R L4_Nilpage s) → (fits k e a tid → cut_to a) →
  runs (allocate_at al (place e) a k tid) R s.
Proof.
  intros Ha0 Ha Hal HF HT. destruct (page_size k Hk) as (Hp&_&_). pose proof He as [Ho1 Ho2 Ho3 Ho4].
  pose proof (pool_node s L fr P l1 e l2 Hok HL) as Hn. set (x := node_of e _ _) in Hn.
  apply runs_bind. unfold shift_one. rewrite (proj2 (Z.ltb_lt k 32)) by lia. apply runs_ret.
  apply runs_bind. eapply runs_rget; [exact Hn|]. change (id x) with x.
  destruct (refused_at x a (2 ^ k) tid) eqn:E.
  { apply runs_ret, HF. intros Hf. assert (refused_at x a (2 ^ k) tid = false) by (by apply refused_at_spec). congruence. }
  apply refused_at_spec in E; [|done..]. assert (Hf : fits k e a tid) by exact E. specialize (HT Hf). destruct Hf as (Hla&Hah&_).
  rewrite (low_a_low k Hk x) by (simpl; lia). rewrite (high_a_high k Hk x) by (simpl; lia).
  change (low x) with (lo e). change (high x) with (hi e).
  destruct (Z.eqb_spec a (lo e)) as [Ea|Ea].
  - rewrite <- Ea, Hal, Z.eqb_refl. cbn [andb]. apply runs_bind. rewrite Ea.
    eapply (cut_front s L fr P l1 l2 e a (2 ^ k)); try done. intros s' L' fr' ?????. apply runs_ret. rewrite <- Ea. by eapply HT.
  - rewrite andb_false_r, (u32_id (a + 2 ^ k - 1)) by lia.
    destruct (Z.eqb_spec (a + 2 ^ k - 1) (hi e)) as [Eh|Eh].
    + assert (Hh : (hi e + 1) mod 2 ^ k = 0).
      { rewrite <- Eh. replace (a + 2 ^ k - 1 + 1) with (a + 1 * 2 ^ k) by lia. by rewrite Z.mod_add by lia. }
      rewrite Hh. cbn [andb Z.eqb]. apply runs_bind.
      eapply (cut_back s L fr P l1 l2 e a (2 ^ k)); try done. intros s' L' fr' ?????. apply runs_ret.
      assert (Hhx : high_a x (2 ^ k) = hi e) by (apply Z.eqb_eq; rewrite high_a_high by (done || simpl; lia); apply Z.eqb_eq; exact Hh).
      rewrite Hhx, u32_id by lia. replace (hi e - 2 ^ k + 1) with a by lia. by eapply HT.
    + rewrite andb_false_r. apply runs_bind. eapply (cut_middle al s L fr P l1 l2 e a (2 ^ k)); try done.
Qed.

(** The page that [allocate] takes: the first of the region, the last when the region ends
    with a page but does not start with one. *)
Definition chosen : Z :=
  let x := node_of e 0 0 in
  if lo e mod 2 ^ k =? 0 then lo e else if (hi e + 1) mod 2 ^ k =? 0 then hi e + 1 - 2 ^ k else low_a x (2 ^ k).

Lemma runs_allocate_any :
  ((∀ a, a mod 2 ^ k = 0 → ¬ fits k e a tid) → R L4_Nilpage s) →
  (chosen mod 2 ^ k = 0 → fits k e chosen tid → cut_to chosen) →
  runs (allocate_any al (place e) k tid) R s.
Proof.
  intros HF HT. destruct (page_size k Hk) as (Hp&_&_). pose proof He as [Ho1 Ho2 Ho3 Ho4].
  pose proof (pool_node s L fr P l1 e l2 Hok HL) as Hn. set (x := node_of e _ _) in Hn.
  apply runs_bind. unfold shift_one. rewrite (proj2 (Z.ltb_lt k 32)) by lia. apply runs_ret.
  apply runs_bind. eapply runs_rget; [exact Hn|]. change (id x) with x.
  destruct (refused_any x (2 ^ k) tid) eqn:E.
  { apply runs_ret, HF. intros a Hal Hf. assert (refused_any x (2 ^ k) tid = false) by (apply refused_any_spec; [done..|by exists a]). congruence. }
  apply refused_any_at in E; [|done..]. destruct (low_a_page k Hk x) as (Hal&_); [simpl; lia|].
  unfold chosen in HT. change (low_a (node_of e 0 0) (2 ^ k)) with (low_a x (2 ^ k)) in HT.
  set (a := low_a x (2 ^ k)) in Hal, E, HT. destruct E as (Hla&Hah&Hown). simpl in Hla, Hah, Hown.
  rewrite (low_a_low k Hk x) by (simpl; lia). rewrite (high_a_high k Hk x) by (simpl; lia).
  change (low x) with (lo e). change (high x) with (hi e).
  destruct (Z.eqb_spec (lo e mod 2 ^ k) 0) as [El|El].
  - specialize (HT El ltac:(unfold fits; split_and!; [lia|lia|done])).
    apply runs_bind. eapply (cut_front s L fr P l1 l2 e (lo e) (2 ^ k)); done || lia.
  - assert (a ≠ lo e) by (intros Ea; rewrite Ea in Hal; done).
    destruct (Z.eqb_spec ((hi e + 1) mod 2 ^ k) 0) as [Eh|Eh].
    + assert (Hal' : (hi e + 1 - 2 ^ k) mod 2 ^ k = 0).
      { replace (hi e + 1 - 2 ^ k) with (hi e + 1 + (-1) * 2 ^ k) by lia. by rewrite Z.mod_add by lia. }
      specialize (HT Hal' ltac:(unfold fits; split_and!; [lia|lia|done])).
      apply runs_bind. eapply (cut_back s L fr P l1 l2 e (hi e + 1 - 2 ^ k) (2 ^ k)); try (done || lia).
      intros s' L' fr' ?????. apply runs_ret.
      assert (Hhx : high_a x (2 ^ k) = hi e) by (apply Z.eqb_eq; rewrite high_a_high by (done || simpl; lia); apply Z.eqb_eq; exact Eh).
      rewrite Hhx, u32_id by lia. replace (hi e - 2 ^ k + 1) with (hi e + 1 - 2 ^ k) by lia. by eapply HT.
    + specialize (HT Hal ltac:(unfold fits; split_and!; [lia|lia|done])).
      apply runs_bind. eapply (cut_middle al s L fr P l1 l2 e a (2 ^ k)); try done.
      intros E. apply Eh. rewrite <- E. replace (a + 2 ^ k - 1 + 1) with (a + 1 * 2 ^ k) by lia. by rewrite Z.mod_add by lia.
Qed.
End region.

(** * The pools together *)

(** The lists are in order, and an address is in one pool at most. *)
Record s0_ok s L fr : Prop := {
  so_pools : pools_ok s L fr;
  so_good P : good (L P);
  so_apart P Q x o o' : holds (L P) x o → holds (L Q) x o' → P = Q;
}.

(** What a request leaves alone: the ids, the smallest page and the verbosity. *)
Definition only_pools s s' : Prop :=
  s' = s <| regions := regions s' |> <| free_list := free_list s' |> <| conv_ptr := conv_ptr s' |>
         <| memory_ptr := memory_ptr s' |> <| alloc_ptr := alloc_ptr s' |>.
#[global] Instance only_pools_preorder : PreOrder only_pools.
Proof. split; [by intros []|]. intros s1 s2 s3 E1 E2. unfold only_pools in *. rewrite E2 at 1. by rewrite E1. Qed.
Lemma steps_only s s' : steps s s' → only_pools s s'.
Proof. intros E. unfold only_pools. rewrite E. by destruct s. Qed.
Lemma set_ptr_only P v s : only_pools s (set_ptr P v s).
Proof. destruct P; by destruct s. Qed.
Lemma only_pools_min s s' : only_pools s s' → min_pgsize s' = min_pgsize s.
Proof. by intros ->. Qed.

Lemma set_ptr_pools P v s L fr : pools_ok s L fr → pools_ok (set_ptr P v s) L fr.
Proof. intros []. by destruct P; split. Qed.
Lemma set_ptr_ok P v s L fr : s0_ok s L fr → s0_ok (set_ptr P v s) L fr.
Proof. intros []. split; try done. by apply set_ptr_pools. Qed.
Lemma ptr_of_set P v s : ptr_of P (set_ptr P v s) = v.
Proof. by destruct P. Qed.

Lemma runs_reset s L fr P (R : unit → sigma0 → Prop) : pools_ok s L fr →
  R tt (set_ptr P (place (front P (L P))) s) → runs (pool_reset P) R s.
Proof.
  intros Hok HR. destruct (back_node s L fr P [] (L P) Hok) as [u Hf]; [done|].
  apply runs_bind. eapply runs_rget; [exact Hf|]. by apply runs_update.
Qed.

Lemma runs_next s L fr P l1 l2 (R : Z → sigma0 → Prop) : pools_ok s L fr → L P = l1 ++ l2 → ptr_of P s = place (front P l2) →
  (l2 = [] → R 0 s) →
  (∀ e l, l2 = e :: l → place e ≠ 0 → R (place e) (set_ptr P (place (front P l)) s)) → runs (pool_next P) R s.
Proof.
  intros Hok HL Hp H0 HR. apply runs_bind, runs_get. rewrite Hp. destruct l2 as [|e l].
  { simpl. rewrite Z.eqb_refl. by apply runs_ret, H0. }
  change (front P (e :: l)) with e.
  assert (Hin : place e ∈ places P (L P)) by (rewrite HL; apply (in_places P l1 [e] l); right; by left).
  rewrite (proj2 (Z.eqb_neq _ _)).
  - apply runs_bind. eapply runs_rget; [exact (pool_node s L fr P l1 e l Hok HL)|]. apply runs_bind, runs_update, runs_ret.
    apply (HR e l); [done|]. intros E. apply (po_zero _ _ _ Hok P). by rewrite <- E.
  - intros E. pose proof (po_nodup _ _ _ Hok P) as Hnd. unfold places, full in Hnd. rewrite app_comm_cons, fmap_app in Hnd.
    apply NoDup_app in Hnd as (_&Hnd&_). apply (Hnd (place e)); [|rewrite E; by left].
    rewrite HL. right. apply list_elem_of_fmap. exists e. split; [done|]. apply elem_of_app. right. by left.
Qed.

(** A page goes from a pool to [tid]. *)
Record moved P a n tid L L' : Prop := {
  mv_from x o : holds (L' P) x o ↔ holds (L P) x o ∧ ¬ (a ≤ x < a + n);
  mv_to x o : holds (L' alloc_pool) x o ↔ holds (L alloc_pool) x o ∨ (a ≤ x < a + n ∧ tid = o);
  mv_others Q : Q ≠ P → Q ≠ alloc_pool → L' Q = L Q;
  mv_keeps Q c u v : c ∈ L Q → lo c ≤ u → u ≤ v → v ≤ hi c → (Q = P → v < a ∨ a + n ≤ u) →
    ∃ c', c' ∈ L' Q ∧ lo c' ≤ u ∧ v ≤ hi c' ∧ own c' = own c;
}.

Lemma page_word_parts a k : 10 ≤ k < 32 → 0 ≤ a → a + 2 ^ k ≤ 2 ^ 32 → a mod 2 ^ k = 0 →
  L4_IsNilFpage (page_word a k) = false ∧ L4_Address (page_word a k) = a.
Proof.
  intros Hk Ha0 Ha Hal. destruct (page_size k) as (Hp&_&Hp31); [lia|].
  assert (Hpk : 2 ^ k = 2 ^ (k - 10) * 1024) by (change 1024 with (2 ^ 10); rewrite <- Z.pow_add_r by lia; f_equal; lia).
  assert (Hpp : 0 < 2 ^ (k - 10)) by (apply Z.pow_pos_nonneg; lia).
  assert (Hd : a = 2 ^ k * (a / 2 ^ k)) by (pose proof (Z.div_mod a (2 ^ k)); lia).
  assert (Hd10 : a = 1024 * (a / 1024)).
  { assert (a mod 1024 = 0); [|zlia]. rewrite Hd, Hpk. rewrite <- Z.mul_assoc, (Z.mul_comm 1024), Z.mul_assoc. by rewrite Z.mod_mul. }
  assert (Hraw : page_word a k = a + 16 * k + 7).
  { unfold page_word, L4_FullyAccessible, L4_FpageLog2, fpage_with. rewrite (Z.mod_small k) by lia.
    change (2 ^ 10) with 1024. change (2 ^ 3) with 8. replace ((a / 8) mod 2) with 0 by zlia. lia. }
  assert (Hs : fpage_s (page_word a k) = k) by (unfold fpage_s; rewrite Hraw; change (2 ^ 4) with 16; change (2 ^ 6) with 64; zlia).
  split; [apply Z.eqb_neq; lia|]. unfold L4_Address. rewrite Hs, Z.shiftl_1_l, u32_id by lia.
  assert (1024 <= 2 ^ k) by nia. rewrite land_high, Hraw by lia.
  replace ((a + 16 * k + 7) / 2 ^ k) with (a / 2 ^ k); [lia|].
  apply (Z.div_unique_pos _ _ _ (16 * k + 7)); lia.
Qed.

#[global] Instance do_alloc_allocator : Allocator do_alloc.
Proof. apply alloc_allocator. Qed.

(** What was cut out of a pool goes to [tid]. *)
Section give.
Context (s s1 : sigma0) (L L1 : memregion_pool → list entry) (fr fr1 : list Z) (P : memregion_pool) (a n tid : Z).
Context (Hs : s0_ok s L fr) (Hs1 : only_pools s s1) (Hok1 : pools_ok s1 L1 fr1) (Ht : takes P a n L L1) (HP : P ≠ alloc_pool).
Context (Hn : 0 < n) (Ha0 : 0 ≤ a) (Ha : a + n ≤ 2 ^ 32) (Hhad : ∀ x, a ≤ x < a + n → ∃ o, holds (L P) x o).
Context (Htid : tid ≠ L4_nilthread) (Hf2 : (2 ≤ length fr)%nat) (Hf1 : (length fr ≤ S (length fr1))%nat).

Let no_other Q x o : a ≤ x < a + n → holds (L Q) x o → Q = P.
Proof. intros Hx Hh. destruct (Hhad x Hx) as [o' Hh']. by apply (so_apart _ _ _ Hs Q P x o o'). Qed.

Lemma given_ok s' f L' fr' : only_pools s1 s' → pools_ok s' L' fr' →
  adds alloc_pool (Entry f a (a + n - 1) tid) L1 L' → s0_ok s' L' fr' ∧ moved P a n tid L L'.
Proof.
  intros Hs' Hok' Had.
  assert (HLP : L' P = L1 P) by by apply (ad_others _ _ _ _ Had).
  assert (HLA : L1 alloc_pool = L alloc_pool) by by apply (tk_others _ _ _ _ _ Ht).
  assert (HLO : ∀ Q, Q ≠ P → Q ≠ alloc_pool → L' Q = L Q).
  { intros Q HQ1 HQ2. rewrite (ad_others _ _ _ _ Had) by done. by apply (tk_others _ _ _ _ _ Ht). }
  assert (Hto : ∀ x o, holds (L' alloc_pool) x o ↔ holds (L alloc_pool) x o ∨ (a ≤ x < a + n ∧ tid = o)).
  { intros x o. rewrite (ad_holds _ _ _ _ Had), HLA. simpl. split; intros [?|[? ?]]; [by left|right; split; [lia|done]|by left|right; split; [lia|done]]. }
  assert (Hfrom : ∀ x o, holds (L' P) x o ↔ holds (L P) x o ∧ ¬ (a ≤ x < a + n)) by (intros x o; rewrite HLP; apply Ht).
  assert (Hold : ∀ Q x o, holds (L' Q) x o → (holds (L Q) x o ∧ ¬ (a ≤ x < a + n)) ∨ (Q = alloc_pool ∧ a ≤ x < a + n)).
  { intros Q x o Hh. destruct (decide (Q = P)) as [->|HQ1]; [left; by apply Hfrom|].
    destruct (decide (Q = alloc_pool)) as [->|HQ2].
    - apply Hto in Hh as [Hh|[? _]]; [|by right]. left. split; [done|]. intros Hx. by apply HQ1, (no_other _ x o).
    - rewrite HLO in Hh by done. left. split; [done|]. intros Hx. by apply HQ1, (no_other _ x o). }
  assert (Hkeeps : ∀ Q c u v, c ∈ L Q → lo c ≤ u → u ≤ v → v ≤ hi c → (Q = P → v < a ∨ a + n ≤ u) →
    ∃ c', c' ∈ L' Q ∧ lo c' ≤ u ∧ v ≤ hi c' ∧ own c' = own c).
  { intros Q c u v Hc Hu Huv Hv Hq. destruct (decide (Q = P)) as [->|HQ1]; [rewrite HLP; by apply (tk_keeps _ _ _ _ _ Ht c u v); auto|].
    destruct (decide (Q = alloc_pool)) as [->|HQ2]; [|exists c; by rewrite HLO].
    destruct (ad_grows _ _ _ _ Had c) as (c'&?&?&?&?); [by rewrite HLA|]. exists c'. split_and!; [done|lia|lia|done]. }
  split; [|by split]. split; [done| |].
  - intros Q. destruct (decide (Q = alloc_pool)) as [->|HQ]; [apply Had|]. destruct (decide (Q = P)) as [->|HQ1]; [rewrite HLP; apply Ht|].
    rewrite HLO by done. apply Hs.
  - intros Q Q' x o o' [[H1 Hx]|[-> Hx]]%Hold [[H2 Hx']|[-> Hx']]%Hold; [by apply (so_apart _ _ _ Hs Q Q' x o o')|done|done|done].
Qed.

Lemma runs_give (al : Srv sigma0 Z) `{!Allocator al} (R : unit → sigma0 → Prop) :
  (∀ s' f L' fr', only_pools s s' → s0_ok s' L' fr' → moved P a n tid L L' →
    (∀ Q, ptr_of Q s' = ptr_of Q s1) → adds alloc_pool (Entry f a (a + n - 1) tid) L1 L' →
    (length fr ≤ length fr' + 2)%nat → R tt s') →
  runs (pool_add al alloc_pool a (u32 (a + n - 1)) tid) R s1.
Proof.
  intros HR. assert (∃ f fr2, fr1 = f :: fr2) as (f&fr2&E) by (destruct fr1 as [|f fr2]; [simpl in Hf1; lia|eauto]).
  pose proof Hok1 as Hok2. rewrite E in Hok2. rewrite u32_id by lia.
  assert (HLA : L1 alloc_pool = L alloc_pool) by by apply (tk_others _ _ _ _ _ Ht).
  eapply (runs_add al s1 L1 f fr2); [exact Hok2|rewrite HLA; apply Hs|split; simpl; try done; lia| |].
  { intros x o Hx Hh. rewrite HLA in Hh. apply HP. symmetry. apply (no_other _ x o); [lia|done]. }
  intros s' L' fr' Hst Hok' Had Hf. destruct (given_ok s' f L' fr') as [Hs' Hm]; [by apply steps_only|done|done|].
  eapply (HR s' f L' fr'); [etrans; [exact Hs1|by apply steps_only]|done|done| |done|rewrite E in Hf1; simpl in Hf1; lia].
  intros Q. rewrite Hst. by destruct Q.
Qed.
End give.
End pool.
