(* ===== verification/Sigma0Contract.v ===== *)
(** sigma0: who has which page after a request. *)

From stdpp Require Import gmap sorting.
From S2P Require Import Prelude Machine Server L4Types Message Sigma0 Sigma0Pool Sigma0Spec.

Section contract.
Context `{Boot_memory}.
Implicit Types (P Q : memregion_pool) (L : memregion_pool → list entry) (fr : list Z) (s : sigma0) (e c : entry).

(** * The searches *)

(** A pass over a pool: where it starts, and each region that it comes to. *)
Lemma runs_start s L fr P (R : unit → sigma0 → Prop) : s0_ok s L fr →
  (∀ s1, s0_ok s1 L fr → only_pools s s1 → ptr_of P s1 = place (front P (L P)) → (length (L P) < size (regions s1))%nat → R tt s1) →
  runs (pool_reset P) R s.
Proof.
  intros Hs HR. eapply runs_reset; [apply Hs|]. set (s1 := set_ptr _ _ s). assert (Hs1 : s0_ok s1 L fr) by by apply set_ptr_ok.
  apply HR; [done|apply set_ptr_only|apply ptr_of_set|apply (pool_fuel s1 L fr), Hs1].
Qed.
Lemma runs_visit s L fr P l1 l2 (R : Z → sigma0 → Prop) : s0_ok s L fr → L P = l1 ++ l2 → ptr_of P s = place (front P l2) →
  (l2 = [] → R 0 s) →
  (∀ e l s1, l2 = e :: l → (place e =? 0) = false → s0_ok s1 L fr → only_pools s s1 → ptr_of P s1 = place (front P l) →
    L P = (l1 ++ [e]) ++ l → R (place e) s1) →
  runs (pool_next P) R s.
Proof.
  intros Hs HL Hp H0 HR. eapply runs_next; [apply Hs|exact HL|exact Hp|exact H0|]. intros e l -> Hz.
  apply (HR e l); [done|by apply Z.eqb_neq|by apply set_ptr_ok|apply set_ptr_only|apply ptr_of_set|by rewrite <- app_assoc].
Qed.

(** A pass over a pool finds the region with the page, or leaves everything as it is. *)
Lemma runs_any_from (al : Srv sigma0 Z) `{!Allocator al} k tid (R : option L4_item → sigma0 → Prop) L fr l2 : ∀ l1 s fuel,
  s0_ok s L fr → (2 ≤ length fr)%nat → 10 ≤ k < 32 → tid ≠ L4_nilthread →
  L conv_memory_pool = l1 ++ l2 → ptr_of conv_memory_pool s = place (front conv_memory_pool l2) → (length l2 < fuel)%nat →
  (∀ e, e ∈ l1 → ∀ a, a mod 2 ^ k = 0 → ¬ fits k e a L4_anythread) →
  (∀ s', only_pools s s' → s0_ok s' L fr →
    (∀ e, e ∈ L conv_memory_pool → ∀ a, a mod 2 ^ k = 0 → ¬ fits k e a L4_anythread) → R None s') →
  (∀ s' L' fr' e a, only_pools s s' → s0_ok s' L' fr' → e ∈ L conv_memory_pool → fits k e a L4_anythread → a mod 2 ^ k = 0 →
    0 ≤ a → a + 2 ^ k ≤ 2 ^ 32 → moved conv_memory_pool a (2 ^ k) tid L L' → (length fr ≤ length fr' + 2)%nat →
    R (Some (L4_MapItem (page_word a k) a)) s') →
  runs (any_from al fuel k tid) R s.
Proof.
  induction l2 as [|e l2 IH]; intros l1 s fuel Hs Hf Hk Htid HL Hp Hfuel Hno HN HS; (destruct fuel as [|fuel]; [simpl in Hfuel; lia|]); simpl.
  - apply runs_bind. eapply runs_visit; [exact Hs|exact HL|exact Hp| |done]. intros _. simpl. apply runs_ret, HN; [reflexivity|done|].
    rewrite HL, app_nil_r. done.
  - apply runs_bind. eapply runs_visit; [exact Hs|exact HL|exact Hp|done|]. intros ? ? s1 [= <- <-] Hz Hs1 H1 Hp1 HL1. rewrite Hz.
    apply runs_bind. eapply (runs_allocate_any al s1 L fr conv_memory_pool l1 l2 e k L4_anythread); try done; [apply Hs1|apply Hs1|lia|intros ->; simpl in Hf; lia| |].
    + intros Hnone. simpl. eapply (IH (l1 ++ [e]) s1 fuel); try done; [simpl in Hfuel; lia| | |].
      * intros c [Hc|Hc%list_elem_of_singleton]%elem_of_app; [by apply Hno|]. by subst c.
      * intros s' Hs'. apply HN. by etrans.
      * intros s' L' fr' c a Hs'. apply HS. by etrans.
    + intros Hal Hfit s2 L2 fr2 Hs2 Hok2 Ht _ Hf2. set (a := chosen e k) in *.
      assert (Hin : e ∈ L conv_memory_pool) by (rewrite HL; apply elem_of_app; right; by left).
      destruct (so_good _ _ _ Hs conv_memory_pool) as [Hgf _]. rewrite Forall_forall in Hgf. destruct (Hgf e Hin).
      pose proof Hfit as (Hla&Hah&Hown). destruct (page_size k) as (Hp2&_&_); [lia|].
      destruct (page_word_parts a k) as [-> ->]; [lia|lia|lia|done|]. simpl.
      apply runs_bind. unfold shift_one. rewrite (proj2 (Z.ltb_lt k 32)) by lia. apply runs_ret, runs_bind.
      eapply (runs_give s s2 L L2 fr fr2 conv_memory_pool a (2 ^ k) tid); try done; [etrans; [exact H1|by apply steps_only]|lia|lia| |].
      { intros x Hx. exists (own e), e. split_and!; [done|lia|lia|done]. }
      intros s' f L' fr' Hs' Hok' Hm _ _ Hlen. apply runs_ret. by eapply (HS s' L' fr' e a); try done; lia.
Qed.

(** The page at [a] is found in one region of a pool, or nothing changes. *)
Lemma runs_conv_from P a k tid (R : option L4_item → sigma0 → Prop) L fr l2 : ∀ l1 s fuel,
  s0_ok s L fr → (2 ≤ length fr)%nat → 10 ≤ k < 32 → tid ≠ L4_nilthread → P ≠ alloc_pool →
  0 ≤ a → a + 2 ^ k ≤ 2 ^ 32 → a mod 2 ^ k = 0 →
  L P = l1 ++ l2 → ptr_of P s = place (front P l2) → (length l2 < fuel)%nat →
  (∀ e, e ∈ l1 → ¬ fits k e a L4_anythread) →
  (∀ s', only_pools s s' → s0_ok s' L fr → (∀ e, e ∈ L P → ¬ fits k e a L4_anythread) → R None s') →
  (∀ s' L' fr' e, only_pools s s' → s0_ok s' L' fr' → e ∈ L P → fits k e a L4_anythread →
    moved P a (2 ^ k) tid L L' → (length fr ≤ length fr' + 2)%nat → R (Some (L4_MapItem (page_word a k) a)) s') →
  runs (conv_from fuel P tid a (u32 (a + 2 ^ k - 1)) k) R s.
Proof.
  induction l2 as [|e l2 IH]; intros l1 s fuel Hs Hf Hk Htid HP Ha0 Ha Hal HL Hp Hfuel Hno HN HS; (destruct fuel as [|fuel]; [simpl in Hfuel; lia|]); simpl.
  - apply runs_bind. eapply runs_visit; [exact Hs|exact HL|exact Hp| |done]. intros _. simpl. apply runs_ret, HN; [reflexivity|done|].
    rewrite HL, app_nil_r. done.
  - apply runs_bind. eapply runs_visit; [exact Hs|exact HL|exact Hp|done|]. intros ? ? s1 [= <- <-] Hz Hs1 H1 Hp1 HL1. rewrite Hz.
    destruct (page_size k) as (Hp2&_&_); [lia|].
    apply runs_bind. eapply runs_rget; [exact (pool_node s1 L fr P l1 e l2 (so_pools _ _ _ Hs1) HL)|]. unfold id. simpl.
    assert (Hskip : ¬ fits k e a L4_anythread → runs (conv_from fuel P tid a (u32 (a + 2 ^ k - 1)) k) R s1).
    { intros Hnone. eapply (IH (l1 ++ [e]) s1 fuel); try done; [simpl in Hfuel; lia| | |].
      - intros c [Hc|Hc%list_elem_of_singleton]%elem_of_app; [by apply Hno|]. by subst c.
      - intros s' Hs'. apply HN. by etrans.
      - intros s' L' fr' c Hs'. apply HS. by etrans. }
    rewrite u32_id in * by lia. destruct ((a + 2 ^ k - 1 <? lo e) || (hi e <? a)) eqn:Eout.
    { apply Hskip. rewrite orb_true_iff, !Z.ltb_lt in Eout. unfold fits. lia. }
    apply runs_bind. eapply (runs_allocate_at do_alloc s1 L fr P l1 l2 e k L4_anythread); try done; [apply Hs1|apply Hs1|lia|intros ->; simpl in Hf; lia|].
    intros Hfit s2 L2 fr2 Hs2 Hok2 Ht _ Hf2. destruct (page_word_parts a k) as [-> _]; [lia|lia|lia|done|]. simpl.
    assert (Hin : e ∈ L P) by (rewrite HL; apply elem_of_app; right; by left).
    apply runs_bind. rewrite <- (u32_id (a + 2 ^ k - 1)) by lia.
    refine (runs_give s s2 L L2 fr fr2 P a (2 ^ k) tid Hs _ Hok2 Ht HP Hp2 Ha0 Ha _ Htid Hf Hf2 do_alloc _ _);
      [etrans; [exact H1|by apply steps_only]| |].
    { intros x Hx. destruct Hfit as (Hla&Hah&_). exists (own e), e. split_and!; [done|lia|lia|done]. }
    intros s' f L' fr' Hs' Hok' Hm _ _ Hlen. apply runs_ret. by eapply (HS s' L' fr' e).
Qed.

Lemma runs_fuel (R : nat → sigma0 → Prop) s : R (S (size (regions s))) s → runs list_fuel R s.
Proof. intros HR. apply runs_bind, runs_get. by apply runs_ret. Qed.

Lemma runs_try_pools a k tid (R : option L4_item → sigma0 → Prop) L fr ps : ∀ s,
  s0_ok s L fr → (2 ≤ length fr)%nat → 10 ≤ k < 32 → tid ≠ L4_nilthread → alloc_pool ∉ ps →
  0 ≤ a → a + 2 ^ k ≤ 2 ^ 32 → a mod 2 ^ k = 0 →
  (∀ s', only_pools s s' → s0_ok s' L fr → (∀ P e, P ∈ ps → e ∈ L P → ¬ fits k e a L4_anythread) → R None s') →
  (∀ s' P L' fr' e, only_pools s s' → s0_ok s' L' fr' → P ∈ ps → e ∈ L P → fits k e a L4_anythread →
    moved P a (2 ^ k) tid L L' → (length fr ≤ length fr' + 2)%nat → R (Some (L4_MapItem (page_word a k) a)) s') →
  runs (try_pools ps tid a (u32 (a + 2 ^ k - 1)) k) R s.
Proof.
  induction ps as [|P ps IH]; intros s Hs Hf Hk Htid Hps Ha0 Ha Hal HN HS; simpl.
  { apply runs_ret, HN; [reflexivity|done|]. by intros P e ?%elem_of_nil. }
  apply not_elem_of_cons in Hps as [HP Hps].
  apply runs_bind. eapply runs_start; [exact Hs|]. intros s1 Hs1 H1 Hp1 Hfu1.
  apply runs_bind, runs_fuel, runs_bind.
  eapply (runs_conv_from P a k tid _ L fr (L P) []); try done; [lia|by intros e ?%elem_of_nil| |].
  - intros s' Hs' Hok' Hnone. apply IH; try done.
    + intros s2 Hs2 Hok2 Hn. apply HN; [etrans; [exact H1|]; by etrans|done|].
      intros Q e [->|HQ]%elem_of_cons; [by apply Hnone|by apply Hn].
    + intros s2 Q L' fr' e Hs2 Hok2 HQ. apply HS; [etrans; [exact H1|]; by etrans|done|by right].
  - intros s' L' fr' e Hs' Hok' He Hfit Hm Hlen. apply runs_ret. eapply (HS s' P L' fr' e); try done; [by etrans|by left].
Qed.

(** [can_allocate] says whether the page is in the region. *)
Lemma runs_can_allocate s L fr P l1 l2 e a k tid (R : bool → sigma0 → Prop) :
  s0_ok s L fr → L P = l1 ++ e :: l2 → 0 ≤ k < 32 → 0 ≤ a → a + 2 ^ k ≤ 2 ^ 32 → a mod 2 ^ k = 0 →
  (fits k e a tid → R true s) → (¬ fits k e a tid → R false s) → runs (can_allocate (place e) a k tid) R s.
Proof.
  intros Hs HL Hk Ha0 Ha Hal HT HF. pose proof (pool_node s L fr P l1 e l2 (so_pools _ _ _ Hs) HL) as Hn. set (x := node_of e _ _) in Hn.
  pose proof (so_good _ _ _ Hs P) as Hg. rewrite HL in Hg. apply good_between in Hg as (_&_&[]&_).
  apply runs_bind. unfold shift_one. rewrite (proj2 (Z.ltb_lt k 32)) by lia. apply runs_ret.
  apply runs_bind. eapply runs_rget; [exact Hn|]. change (id x) with x. apply runs_ret.
  pose proof (refused_at_spec k Hk x a tid ltac:(done) ltac:(done) ltac:(done) Ha0 Ha Hal) as Hr.
  destruct (refused_at x a (2 ^ k) tid).
  - apply HF. intros Hf. by apply Hr in Hf.
  - by apply HT, Hr.
Qed.

Lemma runs_allocated_from a k tid (R : bool → sigma0 → Prop) L fr l2 : ∀ l1 s fuel,
  s0_ok s L fr → 0 ≤ k < 32 → 0 ≤ a → a + 2 ^ k ≤ 2 ^ 32 → a mod 2 ^ k = 0 →
  L alloc_pool = l1 ++ l2 → ptr_of alloc_pool s = place (front alloc_pool l2) → (length l2 < fuel)%nat →
  (∀ s', only_pools s s' → s0_ok s' L fr → (∀ e, e ∈ l2 → ¬ fits k e a tid) → R false s') →
  (∀ s' e, only_pools s s' → s0_ok s' L fr → e ∈ L alloc_pool → fits k e a tid → R true s') →
  runs (allocated_from fuel tid a k) R s.
Proof.
  induction l2 as [|e l2 IH]; intros l1 s fuel Hs Hk Ha0 Ha Hal HL Hp Hfuel HF HT; (destruct fuel as [|fuel]; [simpl in Hfuel; lia|]); simpl.
  - apply runs_bind. eapply runs_visit; [exact Hs|exact HL|exact Hp| |done]. intros _. simpl.
    apply runs_ret, HF; [reflexivity|done|]. by intros e ?%elem_of_nil.
  - apply runs_bind. eapply runs_visit; [exact Hs|exact HL|exact Hp|done|]. intros ? ? s1 [= <- <-] Hz Hs1 H1 Hp1 HL1. rewrite Hz.
    apply runs_bind. eapply (runs_can_allocate s1 L fr alloc_pool l1 l2 e a k tid); try done; intros Hfit; simpl.
    + apply runs_ret, (HT s1 e); try done. rewrite HL. apply elem_of_app. right. by left.
    + apply (IH (l1 ++ [e])); try done; [simpl in Hfuel; lia| |].
      * intros s' Hs' Hok' Hn. apply HF; [by etrans|done|]. intros c [->|Hc]%elem_of_cons; [done|by apply Hn].
      * intros s' c Hs'. apply HT. by etrans.
Qed.

(** * Parts of a page *)

(** [tid] may have the page at [a]: a region of the pools has it, as [tid]'s or anybody's. *)
Definition available (ps : list memregion_pool) L m a tid : Prop := ∃ P e, P ∈ ps ∧ e ∈ L P ∧ fits m e a tid.

(** The page at [a] is with [tid] or everybody: it was, or it came from another pool. *)
Definition got P a n tid L L' : Prop := if decide (P = alloc_pool) then L' = L else moved P a n tid L L'.

Section part.
Context (tid a : Z) (Htid : tid ≠ L4_nilthread) (Ha0 : 0 ≤ a).

(** No region that is left has the page. *)
Lemma runs_part_none P second (failed : bool) (R : bool → sigma0 → Prop) L fr l2 : ∀ l1 s fuel,
  s0_ok s L fr → 0 ≤ min_pgsize s < 32 → a + 2 ^ min_pgsize s < 2 ^ 32 → a mod 2 ^ min_pgsize s = 0 →
  L P = l1 ++ l2 → ptr_of P s = place (front P l2) → (length l2 < fuel)%nat → (∀ e, e ∈ l2 → ¬ fits (min_pgsize s) e a tid) →
  (∀ s', only_pools s s' → s0_ok s' L fr → R failed s') → runs (part_from fuel P second tid a failed) R s.
Proof.
  induction l2 as [|e l2 IH]; intros l1 s fuel Hs Hm Ha Hal HL Hp Hfuel Hno HR; (destruct fuel as [|fuel]; [simpl in Hfuel; lia|]); simpl.
  - apply runs_bind, runs_get, runs_bind. eapply runs_visit; [exact Hs|exact HL|exact Hp| |done]. intros _. simpl. by apply runs_ret, HR.
  - apply runs_bind, runs_get, runs_bind. eapply runs_visit; [exact Hs|exact HL|exact Hp|done|]. intros ? ? s1 [= <- <-] Hz Hs1 H1 Hp1 HL1. rewrite Hz.
    apply runs_bind. eapply runs_rget; [exact (pool_node s1 L fr P l1 e l2 (so_pools _ _ _ Hs1) HL)|]. unfold id. simpl.
    assert (Hrest : runs (part_from fuel P second tid a failed) R s1).
    { assert (Em : min_pgsize s1 = min_pgsize s) by by apply only_pools_min. rewrite <- Em in *.
      apply (IH (l1 ++ [e])); try done; [simpl in Hfuel; lia|intros c Hc; apply Hno; by right|].
      intros s' Hs'. apply HR. by etrans. }
    destruct ((_ <? _) || _); [exact Hrest|]. apply runs_bind.
    eapply (runs_can_allocate s1 L fr P l1 l2 e a (min_pgsize s) tid); try done; [lia|]. intros Hfit. by destruct (Hno e); [left|].
Qed.

(** What a part of the smallest size does to its region. *)
Lemma runs_part_step P s L fr l1 e l2 k (R : unit → sigma0 → Prop) :
  s0_ok s L fr → (2 ≤ length fr)%nat → 0 ≤ k < 32 → a + 2 ^ k < 2 ^ 32 → a mod 2 ^ k = 0 →
  P ≠ alloc_pool → L P = l1 ++ e :: l2 → fits k e a tid →
  (∀ s' L' fr' l1', only_pools s s' → s0_ok s' L' fr' → moved P a (2 ^ k) tid L L' → ptr_of P s' = ptr_of P s →
    L' P = l1' ++ l2 → (length fr ≤ length fr' + 2)%nat → R tt s') →
  runs (allocate_at do_alloc (place e) a k tid;; pool_add do_alloc alloc_pool a (u32 (u32 (a + 2 ^ k) - 1)) tid) R s.
Proof.
  intros Hs Hf Hk Ha Hal HP HL Hfit HR. destruct (page_size k Hk) as (Hp2&_&_). rewrite (u32_id (a + 2 ^ k)) by lia.
  apply runs_bind. eapply (runs_allocate_at do_alloc s L fr P l1 l2 e k tid); try done; [apply Hs|apply Hs|intros ->; simpl in Hf; lia|lia|].
  intros _ s2 L2 fr2 Hs2 Hok2 Ht [M HM] Hf2. assert (Ha' : a + 2 ^ k ≤ 2 ^ 32) by lia.
  refine (runs_give s s2 L L2 fr fr2 P a (2 ^ k) tid Hs _ Hok2 Ht HP Hp2 Ha0 Ha' _ Htid Hf Hf2 do_alloc _ _); [by apply steps_only| |].
  { intros x Hx. destruct Hfit as (Hla&Hah&_). exists (own e), e. split_and!; [rewrite HL; apply elem_of_app; right; by left|lia|lia|done]. }
  intros s' f L' fr' Hs' Hok' Hm Hptr Had Hlen. eapply (HR s' L' fr' (l1 ++ M)); try done.
  - rewrite Hptr, Hs2. by destruct P.
  - rewrite (ad_others _ _ _ _ Had), HM by done. by rewrite <- app_assoc.
Qed.

(** Behind the region that has the part no other has it. *)
Lemma runs_part_end P second (R : bool → sigma0 → Prop) s L fr l1 e l2 s2 L2 fr2 l1' fuel :
  s0_ok s L fr → 0 ≤ min_pgsize s < 32 → a + 2 ^ min_pgsize s < 2 ^ 32 → a mod 2 ^ min_pgsize s = 0 →
  L P = l1 ++ e :: l2 → fits (min_pgsize s) e a tid → only_pools s s2 → s0_ok s2 L2 fr2 → L2 P = l1' ++ l2 →
  ptr_of P s2 = place (front P l2) → (length l2 < fuel)%nat →
  (∀ s', only_pools s2 s' → s0_ok s' L2 fr2 → R false s') → runs (part_from fuel P second tid a false) R s2.
Proof.
  intros Hs Hm Ha Hal HL (?&?&_) Hs2 Hok2 HL2 Hp2 Hfuel HR. pose proof (page_size (min_pgsize s) Hm).
  assert (Em : min_pgsize s2 = min_pgsize s) by by apply only_pools_min.
  apply (runs_part_none P second false R L2 fr2 l2 l1' s2 fuel); rewrite ?Em; try done.
  intros c Hc (Hla&_&_). pose proof (so_good _ _ _ Hs P) as Hg. rewrite HL in Hg. apply good_between in Hg as (_&_&_&_&Hb&_).
  specialize (Hb c Hc). unfold ahead in Hb. lia.
Qed.

(** A pass over a pool for the part at [a]. *)
Lemma runs_part_from P second (R : bool → sigma0 → Prop) L fr l2 : ∀ l1 s fuel,
  s0_ok s L fr → (2 ≤ length fr)%nat → 0 ≤ min_pgsize s < 32 → a + 2 ^ min_pgsize s < 2 ^ 32 → a mod 2 ^ min_pgsize s = 0 →
  L P = l1 ++ l2 → ptr_of P s = place (front P l2) → (length l2 < fuel)%nat → (∀ e, e ∈ l1 → ¬ fits (min_pgsize s) e a tid) →
  (∀ s', only_pools s s' → s0_ok s' L fr → (∀ e, e ∈ L P → ¬ fits (min_pgsize s) e a tid) → R true s') →
  (∀ s' L' fr' e, only_pools s s' → s0_ok s' L' fr' → e ∈ L P → fits (min_pgsize s) e a tid →
    (if second : bool then got P a (2 ^ min_pgsize s) tid L L' else L' = L ∧ fr' = fr) → (length fr ≤ length fr' + 2)%nat → R false s') →
  runs (part_from fuel P second tid a true) R s.
Proof.
  induction l2 as [|e l2 IH]; intros l1 s fuel Hs Hf Hm Ha Hal HL Hp Hfuel Hno HN HS; (destruct fuel as [|fuel]; [simpl in Hfuel; lia|]); simpl.
  { apply runs_bind, runs_get, runs_bind. eapply runs_visit; [exact Hs|exact HL|exact Hp| |done]. intros _. simpl.
    apply runs_ret, HN; [reflexivity|done|]. rewrite HL, app_nil_r. done. }
  apply runs_bind, runs_get, runs_bind. eapply runs_visit; [exact Hs|exact HL|exact Hp|done|]. intros ? ? s1 [= <- <-] Hz Hs1 H1 Hp1 HL1. rewrite Hz.
  assert (Em : min_pgsize s1 = min_pgsize s) by by apply only_pools_min.
  apply runs_bind. eapply runs_rget; [exact (pool_node s1 L fr P l1 e l2 (so_pools _ _ _ Hs1) HL)|]. unfold id. simpl.
  assert (Hskip : ¬ fits (min_pgsize s) e a tid → runs (part_from fuel P second tid a true) R s1).
  { rewrite <- Em in *. intros Hnone. eapply (IH (l1 ++ [e]) s1 fuel); try done; [simpl in Hfuel; lia| | |].
    - intros c [Hc|Hc%list_elem_of_singleton]%elem_of_app; [by apply Hno|]. by subst c.
    - intros s' Hs'. apply HN. by etrans.
    - intros s' L' fr' c Hs'. apply HS. by etrans. }
  rewrite u32_id by lia. destruct ((a + 2 ^ min_pgsize s <? lo e) || (hi e <? a)) eqn:Eout.
  { apply Hskip. rewrite orb_true_iff, !Z.ltb_lt in Eout. unfold fits. lia. }
  apply runs_bind. eapply (runs_can_allocate s1 L fr P l1 l2 e a (min_pgsize s) tid); try done; [lia|]. intros Hfit.
  assert (Hin : e ∈ L P) by (rewrite HL; apply elem_of_app; right; by left).
  assert (Hend : ∀ s2 L2 fr2 l1', only_pools s1 s2 → s0_ok s2 L2 fr2 → L2 P = l1' ++ l2 → ptr_of P s2 = place (front P l2) →
    (if second then got P a (2 ^ min_pgsize s) tid L L2 else L2 = L ∧ fr2 = fr) → (length fr ≤ length fr2 + 2)%nat →
    runs (part_from fuel P second tid a false) R s2).
  { intros s2 L2 fr2 l1' Hs2 Hok2 HL2 Hp2 Hg Hlen. eapply (runs_part_end P second R s L fr l1 e l2); try done; [by etrans|simpl in Hfuel; lia|].
    intros s' Hs' Hok'. eapply (HS s' L2 fr2 e); try done. etrans; [exact H1|]. by etrans. }
  destruct (second && negb (match P with alloc_pool => true | _ => false end)) eqn:Esec.
  - apply andb_prop in Esec as [-> Hpa]. assert (HP : P ≠ alloc_pool) by (by destruct P). apply runs_bind.
    rewrite <- (u32_id (a + 2 ^ min_pgsize s)) by lia.
    eapply (runs_part_step P s1 L fr l1 e l2 (min_pgsize s)); try done.
    intros s' L' fr' l1' Hs' Hok' Hm' Hptr HL' Hlen. eapply (Hend s' L' fr' l1'); try done.
    + by rewrite Hptr.
    + unfold got. by rewrite decide_False.
  - apply runs_bind, runs_ret. eapply (Hend s1 L fr (l1 ++ [e])); try done; [|lia].
    destruct second; [|done]. unfold got. rewrite decide_True; [done|]. by destruct P.
Qed.

Lemma runs_part_pools second (R : bool → sigma0 → Prop) L fr ps : ∀ s,
  s0_ok s L fr → (2 ≤ length fr)%nat → 0 ≤ min_pgsize s < 32 → a + 2 ^ min_pgsize s < 2 ^ 32 → a mod 2 ^ min_pgsize s = 0 →
  (∀ s', only_pools s s' → s0_ok s' L fr → ¬ available ps L (min_pgsize s) a tid → R true s') →
  (∀ s' L' fr' P, only_pools s s' → s0_ok s' L' fr' → P ∈ ps → available [P] L (min_pgsize s) a tid →
    (if second : bool then got P a (2 ^ min_pgsize s) tid L L' else L' = L ∧ fr' = fr) → (length fr ≤ length fr' + 2)%nat → R false s') →
  runs (part_pools ps second tid a) R s.
Proof.
  induction ps as [|P ps IH]; intros s Hs Hf Hm Ha Hal HN HS; simpl.
  { apply runs_ret, HN; [reflexivity|done|]. by intros (P&e&?%elem_of_nil&_). }
  apply runs_bind. eapply runs_start; [exact Hs|]. intros s1 Hs1 H1 Hp1 Hfu1.
  assert (Em : min_pgsize s1 = min_pgsize s) by by apply only_pools_min.
  apply runs_bind, runs_fuel, runs_bind.
  apply (runs_part_from P second _ L fr (L P) [] s1); rewrite ?Em; try done;
    [lia|by intros e ?%elem_of_nil| |].
  - intros s2 Hs2 Hok2 Hnone. assert (Em2 : min_pgsize s2 = min_pgsize s) by (rewrite <- Em; by apply only_pools_min).
    assert (H2 : only_pools s s2) by by etrans. rewrite <- Em2 in *. apply IH; try done.
    + intros s3 Hs3 Hok3 Hn. apply HN; [by etrans|done|]. intros (Q&e&[->|HQ]%elem_of_cons&He&Hfit); [by apply (Hnone e)|].
      apply Hn. by exists Q, e.
    + intros s3 L' fr' Q Hs3 Hok3 HQ. apply HS; [by etrans|done|by right].
  - intros s2 L' fr' e Hs2 Hok2 He Hfit Hg Hlen. apply runs_ret. eapply (HS s2 L' fr' P); try done; [by etrans|by left|].
    exists P, e. split_and!; [by left|done|done].
Qed.
End part.

(** ** All parts *)

(** The first pass: are all parts available? *)
Lemma runs_parts_test ps tid (R : bool → sigma0 → Prop) L fr n : ∀ s a fuel,
  tid ≠ L4_nilthread → s0_ok s L fr → (2 ≤ length fr)%nat → 10 ≤ min_pgsize s < 32 → 0 ≤ a → a mod 2 ^ min_pgsize s = 0 →
  a + Z.of_nat n * 2 ^ min_pgsize s < 2 ^ 32 → (n ≤ fuel)%nat →
  (∀ s', only_pools s s' → s0_ok s' L fr →
    (∀ i, 0 ≤ i < Z.of_nat n → available ps L (min_pgsize s) (a + i * 2 ^ min_pgsize s) tid) → R true s') →
  (∀ s' i, only_pools s s' → s0_ok s' L fr → 0 ≤ i < Z.of_nat n →
    ¬ available ps L (min_pgsize s) (a + i * 2 ^ min_pgsize s) tid → R false s') →
  runs (parts fuel ps false tid a (a + Z.of_nat n * 2 ^ min_pgsize s - 1)) R s.
Proof.
  induction n as [|n IH]; intros s a fuel Htid Hs Hf Hm Ha0 Hal Ha Hfuel HT HF; pose proof (Z.pow_le_mono_r 2 10 (min_pgsize s) ltac:(lia) ltac:(lia)) as Hp2.
  - replace (parts fuel ps false tid a (a + Z.of_nat 0 * 2 ^ min_pgsize s - 1)) with (mret true : Srv sigma0 bool).
    { apply runs_ret, HT; [reflexivity|done|lia]. }
    rewrite Z.mul_0_l. destruct fuel; cbn [parts]; by rewrite (proj2 (Z.ltb_ge _ _)) by lia.
  - destruct fuel as [|fuel]; [lia|]. cbn [parts]. rewrite (proj2 (Z.ltb_lt _ _)) by nia.
    apply runs_bind, (runs_part_pools tid a Htid Ha0 false _ L fr ps s Hs Hf ltac:(lia) ltac:(nia) Hal).
    + intros s' Hs' Hok' Hn. simpl. apply runs_ret, (HF s' 0); [done|done|lia|]. by rewrite Z.mul_0_l, Z.add_0_r.
    + intros s' L' fr' P Hs' Hok' HP Hav [-> ->] _. simpl. assert (Em : min_pgsize s' = min_pgsize s) by by apply only_pools_min.
      apply runs_bind, runs_get. rewrite u32_id by (rewrite Em; nia).
      replace (a + Z.of_nat (S n) * 2 ^ min_pgsize s - 1) with (a + 2 ^ min_pgsize s' + Z.of_nat n * 2 ^ min_pgsize s' - 1) by (rewrite Em; lia).
      apply IH; rewrite ?Em; try done; [lia| |lia|lia| |].
      * replace (a + 2 ^ min_pgsize s) with (a + 1 * 2 ^ min_pgsize s) by lia. by rewrite Z.mod_add by lia.
      * intros s2 Hs2 Hok2 Hall. apply HT; [by etrans|done|]. intros i Hi. destruct (decide (i = 0)) as [->|].
        { rewrite Z.mul_0_l, Z.add_0_r. destruct Hav as (Q&e&->%list_elem_of_singleton&?&?). by exists P, e. }
        replace (a + i * 2 ^ min_pgsize s) with (a + 2 ^ min_pgsize s + (i - 1) * 2 ^ min_pgsize s) by lia. apply Hall. lia.
      * intros s2 i Hs2 Hok2 Hi Hn. apply (HF s2 (i + 1)); [by etrans|done|lia|].
        by replace (a + (i + 1) * 2 ^ min_pgsize s) with (a + 2 ^ min_pgsize s + i * 2 ^ min_pgsize s) by lia.
Qed.

(** From [L] to [L'] the addresses from [a] to [b] have become [tid]'s, or were everybody's;
    nobody has lost one, and nothing else has changed. *)
Record gained tid a b L L' : Prop := {
  ga_outside Q x o : ¬ (a ≤ x < b) → holds (L' Q) x o ↔ holds (L Q) x o;
  ga_inside x : a ≤ x < b → holds (L' alloc_pool) x tid ∨ holds (L' alloc_pool) x L4_anythread;
  ga_kept x o : holds (L alloc_pool) x o → holds (L' alloc_pool) x o;
  ga_lost Q x o : Q ≠ alloc_pool → holds (L' Q) x o → holds (L Q) x o;
  ga_new x o : holds (L' alloc_pool) x o → holds (L alloc_pool) x o ∨ (a ≤ x < b ∧ tid = o);
}.

Lemma gained_trans tid a b d L1 L2 L3 : a ≤ b → b ≤ d → gained tid a b L1 L2 → gained tid b d L2 L3 → gained tid a d L1 L3.
Proof.
  intros Hab Hbc [O1 I1 K1 X1 N1] [O2 I2 K2 X2 N2]. split.
  - intros Q x o Hx. rewrite O2, O1 by lia. done.
  - intros x Hx. destruct (decide (x < b)) as [Hb|Hb]; [|apply I2; lia]. destruct (I1 x) as [?|?]; [lia|left|right]; by apply K2.
  - intros x o Hh. by apply K2, K1.
  - intros Q x o HQ Hh. by apply X1, X2.
  - intros x o [Hh|[? <-]]%N2; [|right; split; [lia|done]]. apply N1 in Hh as [Hh|[? <-]]; [by left|right; split; [lia|done]].
Qed.

Lemma got_gained P a k tid L L' : got P a (2 ^ k) tid L L' → available [P] L k a tid → gained tid a (a + 2 ^ k) L L'.
Proof.
  unfold got. intros Hg (Q&e&->%list_elem_of_singleton&He&Hla&Hah&Hown). destruct (decide (P = alloc_pool)) as [->|HP].
  - subst L'. split; try done; [|intros x o Hh; by left]. intros x Hx. destruct Hown as [Eo|Eo]; [left|right]; exists e; split_and!; done || lia.
  - destruct Hg as [F T O _]. split.
    + intros Q x o Hx. destruct (decide (Q = P)) as [->|HQ]; [rewrite F; tauto|].
      destruct (decide (Q = alloc_pool)) as [->|HQ']; [rewrite T; tauto|]. by rewrite O.
    + intros x Hx. left. apply T. by right.
    + intros x o Hh. apply T. by left.
    + intros Q x o HQ Hh. destruct (decide (Q = P)) as [->|HQ']; [by apply F|]. by rewrite O in Hh.
    + intros x o Hh. by apply T.
Qed.

Lemma got_keeps ps P a k m u tid L L' : 0 ≤ m → got P a (2 ^ k) tid L L' → u + 2 ^ m ≤ a ∨ a + 2 ^ k ≤ u →
  available ps L m u tid → available ps L' m u tid.
Proof.
  unfold got. intros Hm Hg Hu (Q&e&HQ&He&Hla&Hah&Hown). assert (0 < 2 ^ m) by (apply Z.pow_pos_nonneg; lia).
  destruct (decide (P = alloc_pool)) as [->|HP]; [subst L'; by exists Q, e|].
  destruct (mv_keeps _ _ _ _ _ _ Hg Q e u (u + 2 ^ m - 1)) as (c&Hc&?&?&Eo); [done|done|lia|done|intros _; lia|].
  exists Q, c. unfold fits. rewrite Eo. done.
Qed.

(** The second pass: the parts that are not yet [tid]'s become so. *)
Lemma runs_parts_take ps tid (R : bool → sigma0 → Prop) n : ∀ L fr s a fuel,
  tid ≠ L4_nilthread → s0_ok s L fr → (2 * n ≤ length fr)%nat → 10 ≤ min_pgsize s < 32 → 0 ≤ a → a mod 2 ^ min_pgsize s = 0 →
  a + Z.of_nat n * 2 ^ min_pgsize s < 2 ^ 32 → (n ≤ fuel)%nat →
  (∀ i, 0 ≤ i < Z.of_nat n → available ps L (min_pgsize s) (a + i * 2 ^ min_pgsize s) tid) →
  (∀ s' L' fr', only_pools s s' → s0_ok s' L' fr' → gained tid a (a + Z.of_nat n * 2 ^ min_pgsize s) L L' →
    (length fr ≤ length fr' + 2 * n)%nat → R true s') →
  runs (parts fuel ps true tid a (a + Z.of_nat n * 2 ^ min_pgsize s - 1)) R s.
Proof.
  induction n as [|n IH]; intros L fr s a fuel Htid Hs Hf Hm Ha0 Hal Ha Hfuel Hav HR;
    pose proof (Z.pow_le_mono_r 2 10 (min_pgsize s) ltac:(lia) ltac:(lia)) as Hp2.
  - rewrite Z.mul_0_l, Z.add_0_r in *.
    replace (parts fuel ps true tid a (a - 1)) with (mret true : Srv sigma0 bool).
    { apply runs_ret. apply (HR s L fr); [reflexivity|done| |lia]. split; try done; [lia|intros x o Hh; by left]. }
    destruct fuel; cbn [parts]; by rewrite (proj2 (Z.ltb_ge _ _)) by lia.
  - destruct fuel as [|fuel]; [lia|]. cbn [parts]. rewrite (proj2 (Z.ltb_lt _ _)) by nia.
    apply runs_bind, (runs_part_pools tid a Htid Ha0 true _ L fr ps s Hs ltac:(lia) ltac:(lia) ltac:(nia) Hal).
    + intros s' Hs' Hok' Hn. destruct Hn. specialize (Hav 0 ltac:(lia)). by rewrite Z.mul_0_l, Z.add_0_r in Hav.
    + intros s' L' fr' P Hs' Hok' HP Hav' Hg Hlen. simpl. assert (Em : min_pgsize s' = min_pgsize s) by by apply only_pools_min.
      apply runs_bind, runs_get. rewrite u32_id by (rewrite Em; nia).
      replace (a + Z.of_nat (S n) * 2 ^ min_pgsize s - 1) with (a + 2 ^ min_pgsize s' + Z.of_nat n * 2 ^ min_pgsize s' - 1) by (rewrite Em; lia).
      apply (IH L' fr'); rewrite ?Em; try done; [lia|lia| |lia|lia| |].
      * replace (a + 2 ^ min_pgsize s) with (a + 1 * 2 ^ min_pgsize s) by lia. by rewrite Z.mod_add by lia.
      * intros i Hi. eapply (got_keeps ps P a (min_pgsize s)); [lia|done|nia|].
        replace (a + 2 ^ min_pgsize s + i * 2 ^ min_pgsize s) with (a + (i + 1) * 2 ^ min_pgsize s) by lia. apply Hav. lia.
      * intros s2 L2 fr2 Hs2 Hok2 Hga Hlen2. eapply (HR s2 L2 fr2); [by etrans|done| |lia].
        replace (a + Z.of_nat (S n) * 2 ^ min_pgsize s) with (a + 2 ^ min_pgsize s + Z.of_nat n * 2 ^ min_pgsize s) by lia.
        eapply gained_trans; [| |by eapply got_gained|exact Hga]; nia.
Qed.

(** * The contracts *)

Definition free_pools (only_conventional : bool) : list memregion_pool :=
  if only_conventional then [conv_memory_pool] else [conv_memory_pool; memory_pool].
Definition all_pools (only_conventional : bool) : list memregion_pool :=
  if only_conventional then [conv_memory_pool; alloc_pool] else [conv_memory_pool; alloc_pool; memory_pool].

(** Every part of the page is available. *)
Definition grantable only L m k a tid : Prop := ∀ i, 0 ≤ i < 2 ^ (k - m) → available (all_pools only) L m (a + i * 2 ^ m) tid.

Lemma one_region only L m k a tid P e : 0 ≤ m ≤ k → P ∈ all_pools only → e ∈ L P → fits k e a tid ∨ fits k e a L4_anythread →
  grantable only L m k a tid.
Proof.
  intros Hm HP He Hf i Hi. exists P, e. split_and!; [done|done|]. assert (E : 2 ^ k = 2 ^ (k - m) * 2 ^ m) by (rewrite <- Z.pow_add_r by lia; f_equal; lia).
  assert (0 < 2 ^ m) by (apply Z.pow_pos_nonneg; lia).
  assert (lo e ≤ a ∧ a + 2 ^ k - 1 ≤ hi e ∧ (own e = tid ∨ own e = L4_anythread)) as (Hla&Hah&Hown) by (destruct Hf as [(?&?&?)|(?&?&[?|?])]; tauto).
  unfold fits. rewrite E in Hah. split_and!; [nia|nia|done].
Qed.
Lemma free_pools_in only P : P ∈ free_pools only → P ∈ all_pools only ∧ P ≠ alloc_pool.
Proof. destruct only; simpl; rewrite ?elem_of_cons, elem_of_nil; [intros [->|[]]|intros [->|[->|[]]]]; split; tauto || done. Qed.

(** What a request for a page comes to. *)
Definition answer only m k a tid L fr (item : option L4_item) L' fr' : Prop :=
  match item with
  | Some i => i = L4_MapItem (page_word a k) a ∧ grantable only L m k a tid ∧ gained tid a (a + 2 ^ k) L L'
  | None => L' = L ∧ fr' = fr ∧ (k < m ∨ ¬ grantable only L m k a tid)
  end.

(** What is left to do when no region has the whole page. *)
Lemma runs_by_parts s L fr tid k a only (R : option L4_item → sigma0 → Prop) :
  s0_ok s L fr → tid ≠ L4_nilthread → 10 ≤ min_pgsize s ≤ k → k < 32 → 0 ≤ a → a + 2 ^ k < 2 ^ 32 → a mod 2 ^ k = 0 →
  2 * 2 ^ (k - min_pgsize s) ≤ Z.of_nat (length fr) →
  (∀ s' L' fr' item, only_pools s s' → s0_ok s' L' fr' → answer only (min_pgsize s) k a tid L fr item L' fr' → R item s') →
  runs (b ← parts (parts_fuel (min_pgsize s)) (all_pools only) false tid a (u32 (a + 2 ^ k - 1));
        if negb b then mret None else
        b ← parts (parts_fuel (min_pgsize s)) (all_pools only) true tid a (u32 (a + 2 ^ k - 1));
        if negb b then mret None else mret (Some (L4_MapItem (L4_FpageLog2 a k + L4_FullyAccessible) a))) R s.
Proof.
  intros Hs Htid Hm Hk Ha0 Ha Hal Hf HR. set (m := min_pgsize s) in *. set (n := Z.to_nat (2 ^ (k - m))).
  assert (Hpos : 0 < 2 ^ (k - m)) by (apply Z.pow_pos_nonneg; lia).
  assert (E : a + 2 ^ k = a + Z.of_nat n * 2 ^ m).
  { unfold n. rewrite Z2Nat.id, <- Z.pow_add_r by lia. do 2 f_equal. lia. }
  assert (Halm : a mod 2 ^ m = 0).
  { apply Z.mod_divide in Hal as [q ->]; [|lia]. apply Z.mod_divide; [lia|]. apply Z.divide_mul_r. exists (2 ^ (k - m)).
    rewrite <- Z.pow_add_r by lia. f_equal. lia. }
  assert (Hfu : (n ≤ parts_fuel m)%nat).
  { unfold n, parts_fuel. apply Z2Nat.inj_le; [lia|apply Z.pow_nonneg; lia|]. apply Z.pow_le_mono_r; lia. }
  rewrite u32_id, E by lia. apply runs_bind.
  apply (runs_parts_test (all_pools only) tid _ L fr n s a); try done; [lia|lia|fold m; lia| |].
  - fold m. intros s1 Hs1 Hok1 Hall. simpl. assert (Em : min_pgsize s1 = m) by by apply only_pools_min.
    assert (Hg : grantable only L m k a tid) by (intros i Hi; apply Hall; lia).
    apply runs_bind. rewrite <- Em. apply (runs_parts_take (all_pools only) tid _ n L fr s1 a); rewrite ?Em; try done; [lia|lia|lia|].
    intros s2 L2 fr2 Hs2 Hok2 Hga _. apply runs_ret. apply (HR s2 L2 fr2); [by etrans|done|]. rewrite <- E in Hga. done.
  - fold m. intros s1 i Hs1 Hok1 Hi Hn. apply runs_ret. apply (HR s1 L fr); [done|done|]. split_and!; [done|done|]. right.
    intros Hg. apply Hn, Hg. lia.
Qed.

Lemma allocate_page_runs s L fr tid addr k only :
  s0_ok s L fr → tid ≠ L4_nilthread → 10 ≤ min_pgsize s → k < 32 → 0 ≤ addr < 2 ^ 32 →
  2 ^ k * (addr / 2 ^ k) + 2 ^ k < 2 ^ 32 → 2 * 2 ^ (k - min_pgsize s) ≤ Z.of_nat (length fr) →
  runs (allocate_page tid addr k only) (λ item s', only_pools s s' ∧ ∃ L' fr', s0_ok s' L' fr' ∧
    answer only (min_pgsize s) k (2 ^ k * (addr / 2 ^ k)) tid L fr item L' fr') s.
Proof.
  intros Hs Htid Hm Hk Haddr Ha Hf. apply runs_bind, runs_get. destruct (Z.ltb_spec k (min_pgsize s)) as [Hkm|Hkm].
  { apply runs_ret. split; [reflexivity|]. exists L, fr. split; [done|]. unfold answer. tauto. }
  apply runs_bind. unfold shift_one. rewrite (proj2 (Z.ltb_lt k 32)) by lia. apply runs_ret.
  destruct (page_size k) as (Hp&_&_); [lia|]. rewrite land_high by lia. set (a := 2 ^ k * (addr / 2 ^ k)) in *.
  assert (Ha0 : 0 ≤ a) by (apply Z.mul_nonneg_nonneg; [lia|apply Z.div_pos; lia]).
  assert (Hal : a mod 2 ^ k = 0) by (unfold a; rewrite Z.mul_comm; apply Z.mod_mul; lia).
  assert (Hf2 : (2 ≤ length fr)%nat) by (assert (0 < 2 ^ (k - min_pgsize s)) by (apply Z.pow_pos_nonneg; lia); lia).
  change (if only then [conv_memory_pool] else [conv_memory_pool; memory_pool]) with (free_pools only).
  change (if only then [conv_memory_pool; alloc_pool] else [conv_memory_pool; alloc_pool; memory_pool]) with (all_pools only).
  apply runs_bind, (runs_try_pools a k tid _ L fr (free_pools only)); try done; [lia|by intros [_ ?]%free_pools_in|lia| |].
  - intros s1 Hs1 Hok1 _. assert (Em : min_pgsize s1 = min_pgsize s) by by apply only_pools_min.
    apply runs_bind. eapply runs_start; [exact Hok1|]. intros s2 Hs2 H12 Hp2 Hfu2. assert (H2 : only_pools s s2) by by etrans.
    apply runs_bind, runs_fuel, runs_bind.
    apply (runs_allocated_from a k tid _ L fr (L alloc_pool) []); try done;
      [lia|lia|lia| |].
    + intros s3 Hs3 Hok3 _. assert (Em3 : min_pgsize s3 = min_pgsize s) by (apply only_pools_min; by etrans). rewrite <- Em3 in *.
      apply (runs_by_parts s3 L fr tid k a only); try done; try lia.
      intros s' L' fr' item Hs' Hok' Han. split; [etrans; [exact H2|]; by etrans|]. by exists L', fr'.
    + intros s3 e Hs3 Hok3 He Hfit. apply runs_ret. split; [by etrans|]. exists L, fr. split; [done|]. split_and!; [done| |].
      * apply (one_region only L _ k a tid alloc_pool e); [lia|destruct only; set_solver|done|by left].
      * apply (got_gained alloc_pool); [by unfold got; rewrite decide_True|]. exists alloc_pool, e. split_and!; [by left|done|done].
  - intros s1 P L' fr' e Hs1 Hok1 HP He Hfit Hmv _. apply runs_ret. split; [done|]. exists L', fr'. split; [done|].
    apply free_pools_in in HP as [HP HPa]. split_and!; [done|apply (one_region only L _ k a tid P e); [lia|done|done|by right]|].
    apply (got_gained P); [by unfold got; rewrite decide_False|]. exists P, e. split_and!; [by left|done|].
    destruct Hfit as (?&?&[?|?]); unfold fits; tauto.
Qed.

Lemma allocate_page_any_runs s L fr tid k :
  s0_ok s L fr → tid ≠ L4_nilthread → 10 ≤ min_pgsize s → k < 32 → (2 ≤ length fr)%nat →
  runs (allocate_page_any do_alloc tid k) (λ item s', only_pools s s' ∧ ∃ L' fr', s0_ok s' L' fr' ∧
    match item with
    | Some i => ∃ a e, a mod 2 ^ k = 0 ∧ i = L4_MapItem (page_word a k) a ∧ e ∈ L conv_memory_pool ∧ fits k e a L4_anythread ∧
        moved conv_memory_pool a (2 ^ k) tid L L' ∧ gained tid a (a + 2 ^ k) L L'
    | None => L' = L ∧ fr' = fr ∧
        (k < min_pgsize s ∨ ∀ e a, e ∈ L conv_memory_pool → a mod 2 ^ k = 0 → ¬ fits k e a L4_anythread)
    end) s.
Proof.
  intros Hs Htid Hm Hk Hf. apply runs_bind, runs_get. destruct (Z.ltb_spec k (min_pgsize s)) as [Hkm|Hkm].
  { apply runs_ret. split; [reflexivity|]. exists L, fr. tauto. }
  apply runs_bind. eapply runs_start; [exact Hs|]. intros s1 Hs1 H1 Hp1 Hfu1.
  apply runs_bind, runs_fuel.
  apply (runs_any_from do_alloc k tid _ L fr (L conv_memory_pool) []); try done;
    [lia|lia|by intros e ?%elem_of_nil| |].
  - intros s2 Hs2 Hok2 Hn. split; [by etrans|]. exists L, fr. split_and!; [done|done|done|]. right. intros e a He. by apply Hn.
  - intros s2 L' fr' e a Hs2 Hok2 He Hfit Hal Ha0 Ha Hmv _. split; [by etrans|]. exists L', fr'. split; [done|].
    exists a, e. split_and!; try done. apply (got_gained conv_memory_pool); [done|]. exists conv_memory_pool, e.
    split_and!; [by left|done|]. destruct Hfit as (?&?&[?|?]); unfold fits; tauto.
Qed.

(** C11: Pools in order, with enough free structures at hand (two for each part of the
    smallest page size in the page, so that none has to be allocated on the way), and
    a page of [2 ^ k] bytes with [k < 32] that does not end at the top of the address
    space: when a thread asks for the page at an address, it gets it exactly when each
    part of the smallest page size (1 KB or more) is in a region that is its own,
    everybody's or free (conventional memory, or all memory); then every address of
    the page is its own or everybody's afterwards, no thread has lost an address, and
    outside the page nothing has changed. Otherwise the answer is nil and the pools
    are as they were. The pools stay in order and disjoint. (Outside these conditions
    the code can loop, shift by too much, or lose the order of a pool; see the
    findings.) *)
Theorem allocate_page_contract s L fr tid addr k only :
  s0_ok s L fr → tid ≠ L4_nilthread → 10 ≤ min_pgsize s → k < 32 → 0 ≤ addr < 2 ^ 32 →
  2 ^ k * (addr / 2 ^ k) + 2 ^ k < 2 ^ 32 → 2 * 2 ^ (k - min_pgsize s) ≤ Z.of_nat (length fr) →
  runs (allocate_page tid addr k only) (λ item s', only_pools s s' ∧ ∃ L' fr', s0_ok s' L' fr' ∧
    answer only (min_pgsize s) k (2 ^ k * (addr / 2 ^ k)) tid L fr item L' fr') s.
Proof. exact (allocate_page_runs s L fr tid addr k only). Qed.

(** A request for a page anywhere gets an aligned one that was in a region of free
    conventional memory, and every address of it goes to the thread; the answer is nil, and
    nothing changes, only when no such region has a page of this size. *)
Theorem allocate_page_any_contract s L fr tid k :
  s0_ok s L fr → tid ≠ L4_nilthread → 10 ≤ min_pgsize s → k < 32 → (2 ≤ length fr)%nat →
  runs (allocate_page_any do_alloc tid k) (λ item s', only_pools s s' ∧ ∃ L' fr', s0_ok s' L' fr' ∧
    match item with
    | Some i => ∃ a e, a mod 2 ^ k = 0 ∧ i = L4_MapItem (page_word a k) a ∧ e ∈ L conv_memory_pool ∧ fits k e a L4_anythread ∧
        moved conv_memory_pool a (2 ^ k) tid L L' ∧ gained tid a (a + 2 ^ k) L L'
    | None => L' = L ∧ fr' = fr ∧
        (k < min_pgsize s ∨ ∀ e a, e ∈ L conv_memory_pool → a mod 2 ^ k = 0 → ¬ fits k e a L4_anythread)
    end) s.
Proof. exact (allocate_page_any_runs s L fr tid k). Qed.

(** * Requests *)

Lemma runs_pool_dump P s L fr (R : unit → sigma0 → Prop) : s0_ok s L fr →
  (∀ s', only_pools s s' → s0_ok s' L fr → R tt s') → runs (pool_dump P) R s.
Proof.
  intros Hs HR. apply runs_bind. eapply runs_start; [exact Hs|]. intros s1 Hs1 H1 Hp1 Hfu1. apply runs_bind, runs_fuel.
  assert (Hwalk : ∀ l2 l1 s2 fuel, only_pools s s2 → s0_ok s2 L fr → L P = l1 ++ l2 → ptr_of P s2 = place (front P l2) →
    (length l2 < fuel)%nat → runs (dump_from fuel P) R s2).
  { intros l2. induction l2 as [|e l2 IH]; intros l1 s2 fuel H2 Hok2 HL Hp Hfu; (destruct fuel as [|fuel]; [simpl in Hfu; lia|]); simpl;
      (apply runs_bind; eapply runs_visit; [exact Hok2|exact HL|exact Hp| |]; try done).
    - intros _. simpl. by apply runs_ret, HR.
    - intros ? ? s3 [= <- <-] Hz Hs3 H3 Hp3 HL3. rewrite Hz. apply (IH (l1 ++ [e])); try done; [by etrans|simpl in Hfu; lia]. }
  apply (Hwalk (L P) []); done || lia.
Qed.

(** What one thread can make of the pools: it gains addresses that were free, and nobody
    loses one. *)
Record harmless tid L L' : Prop := {
  ha_kept x o : holds (L alloc_pool) x o → holds (L' alloc_pool) x o;
  ha_new x o : holds (L' alloc_pool) x o → holds (L alloc_pool) x o ∨ o = tid;
  ha_lost P x o : P ≠ alloc_pool → holds (L' P) x o → holds (L P) x o;
}.
Lemma harmless_refl tid L : harmless tid L L.
Proof. split; try done. intros x o Hh. by left. Qed.
Lemma gained_harmless tid a b L L' : gained tid a b L L' → harmless tid L L'.
Proof. intros [_ _ K X N]. split; [done| |done]. intros x o [?|[_ <-]]%N; [by left|by right]. Qed.

(** A map item that [tid] may get: nil, or a page that is its own or everybody's. *)
Definition may_map tid L (i : L4_item) : Prop :=
  L4_SndFpage i = L4_Nilpage ∨ ∃ a k, i = L4_MapItem (page_word a k) a ∧
    ∀ x, a ≤ x < a + 2 ^ k → holds (L alloc_pool) x tid ∨ holds (L alloc_pool) x L4_anythread.

(** A request that is not for the last page of the address space, with enough free structures
    for its parts. *)
Definition within s fr k addr : Prop :=
  k < 32 ∧ 2 ^ k * (addr / 2 ^ k) + 2 ^ k < 2 ^ 32 ∧ 2 * 2 ^ (k - min_pgsize s) ≤ Z.of_nat (length fr).
Definition request_within s fr tag w0 : Prop :=
  (Z.land tag L4_REQUEST_MASK = L4_PAGEFAULT → within s fr (min_pgsize s) w0) ∧
  (Z.land tag L4_REQUEST_MASK = L4_SIGMA0_RPC → fpage_s w0 < 32 ∧ (2 ≤ length fr)%nat ∧
    (w0 / 2 ^ 10 ≠ 2 ^ 22 - 1 → within s fr (fpage_s w0) (L4_Address w0))).

(** A request leaves the pools in order, and its reply is allowed. *)
Definition served tid s L (r : reply) s' : Prop := ∃ L' fr', s0_ok s' L' fr' ∧ min_pgsize s' = min_pgsize s ∧ harmless tid L L' ∧
  match r with Item i => may_map tid L' i | _ => True end.

Lemma served_same tid s L fr r s' : s0_ok s' L fr → only_pools s s' → match r with Item i => L4_SndFpage i = L4_Nilpage | _ => True end → served tid s L r s'.
Proof.
  intros Hs Hp Hr. exists L, fr. split_and!; [done|by apply only_pools_min|apply harmless_refl|]. destruct r; try done. by left.
Qed.

(** The page that a request for an address gets. *)
Lemma answer_served only m k a tid s L fr item L' fr' s' : s0_ok s' L' fr' → only_pools s s' →
  answer only m k a tid L fr item L' fr' → served tid s L (Item (default nil_item item)) s'.
Proof.
  intros Hs Hp Han. destruct item as [i|]; simpl in *.
  - destruct Han as (->&_&Hg). exists L', fr'. split_and!; [done|by apply only_pools_min|by eapply gained_harmless|].
    right. exists a, k. split; [done|]. apply Hg.
  - destruct Han as (->&->&_). by eapply served_same.
Qed.

Lemma runs_page_at s L fr tid k addr only (R : option L4_item → sigma0 → Prop) :
  s0_ok s L fr → tid ≠ L4_nilthread → 10 ≤ min_pgsize s → 0 ≤ addr < 2 ^ 32 → within s fr k addr →
  (∀ item s', served tid s L (Item (default nil_item item)) s' → R item s') → runs (allocate_page tid addr k only) R s.
Proof.
  intros Hs Htid Hm Haddr (Hk&Ha&Hf) HR.
  assert (Hc := allocate_page_runs s L fr tid addr k only Hs Htid Hm Hk Haddr Ha Hf).
  eapply runs_mono; [exact Hc|]. intros item s' (Hp&L'&fr'&Hok&Han). apply HR. by eapply answer_served.
Qed.
Lemma runs_page_any s L fr tid k (R : option L4_item → sigma0 → Prop) :
  s0_ok s L fr → tid ≠ L4_nilthread → 10 ≤ min_pgsize s → k < 32 → (2 ≤ length fr)%nat →
  (∀ item s', served tid s L (Item (default nil_item item)) s' → R item s') → runs (allocate_page_any do_alloc tid k) R s.
Proof.
  intros Hs Htid Hm Hk Hf HR. eapply runs_mono; [exact (allocate_page_any_runs s L fr tid k Hs Htid Hm Hk Hf)|].
  intros item s' (Hp&L'&fr'&Hok&Han). apply HR. destruct item as [i|]; simpl.
  - destruct Han as (a&e&_&->&_&_&_&Hg). exists L', fr'. split_and!; [done|by apply only_pools_min|by eapply gained_harmless|].
    right. exists a, k. split; [done|]. apply Hg.
  - destruct Han as (->&->&_). by eapply served_same.
Qed.

(** C12: Whatever message a thread sends whose request is within bounds ([request_within]:
    a page asked for, by a page fault or a call, has less than 2 ^ 32 bytes and does
    not end at the top of the address space, and enough structures are free for its
    parts, so that none has to be allocated on the way), the pools stay in order and
    disjoint, no thread loses an address of its own, only the sender gains any, and a
    page that the reply maps is the sender's or everybody's. Messages of any other
    kind have no condition. *)
Theorem sigma0_request_contract s L fr tid tag w0 w1 :
  s0_ok s L fr → tid ≠ L4_nilthread → 10 ≤ min_pgsize s → 0 ≤ w0 < 2 ^ 32 → request_within s fr tag w0 →
  runs (sigma0_request tid tag w0 w1) (λ r s', served tid s L r s') s.
Proof.
  intros Hs Htid Hm Hw0 [Hpf Hrpc]. unfold sigma0_request.
  assert (Hno : ∀ r, match r with Item _ => False | _ => True end → served tid s L r s) by (intros r Hr; eapply served_same; [done|reflexivity|by destruct r]).
  destruct (negb _ || _); [by apply runs_ret, Hno|].
  destruct (Z.eqb_spec (Z.land tag L4_REQUEST_MASK) L4_PAGEFAULT) as [E|_].
  { apply runs_bind, runs_get, runs_bind. eapply runs_page_at; [exact Hs|done|done|done|by apply Hpf|]. intros item s' Hsv. by apply runs_ret. }
  destruct (Z.eqb_spec (Z.land tag L4_REQUEST_MASK) L4_SIGMA0_RPC) as [E|_].
  { destruct (Hrpc E) as (Hk&Hf&Hat). apply runs_bind, runs_bind, runs_get, runs_bind, runs_get, runs_ret.
    destruct (_ && _); [by apply runs_ret, Hno|]. apply runs_bind.
    assert (Hend : ∀ item s', served tid s L (Item (default nil_item item)) s' →
      runs (if negb (w1 =? 0) && negb (set_page_attribute (L4_SndFpage (default nil_item item)) w1)
            then mret (Item nil_item) else mret (Item (default nil_item item))) (λ r s', served tid s L r s') s').
    { intros item s' Hsv. destruct (_ && _); [|by apply runs_ret]. apply runs_ret.
      destruct Hsv as (L'&fr'&?&?&?&_). exists L', fr'. split_and!; [done|done|done|by left]. }
    destruct (Z.eqb_spec (w0 / 2 ^ 10) (2 ^ 22 - 1)) as [Eany|Eany].
    - by eapply runs_page_any.
    - eapply runs_page_at; [exact Hs|done|done| |by apply Hat|exact Hend]. unfold L4_Address. rewrite Z.land_comm.
      assert (0 ≤ u32 (Z.shiftl 1 (fpage_s w0))) by apply u32_range. pose proof (land_bound (2 ^ 32 - 1 - (u32 (Z.shiftl 1 (fpage_s w0)) - 1)) w0). lia. }
  destruct (_ =? L4_SIGMA0_EXT); [|by apply runs_ret, Hno].
  destruct (_ =? L4_S0EXT_VERBOSE).
  { apply runs_bind, runs_update, runs_ret. exists L, fr. split_and!; [|done|apply harmless_refl|done]. destruct Hs as [[]]. by split. }
  destruct (_ =? L4_s0EXT_DUMPMEM); [|by apply runs_ret, Hno].
  apply runs_bind, runs_bind. eapply runs_pool_dump; [exact Hs|]. intros s1 H1 Hs1.
  apply runs_bind. eapply runs_pool_dump; [exact Hs1|]. intros s2 H2 Hs2. eapply runs_pool_dump; [exact Hs2|]. intros s3 H3 Hs3.
  apply runs_ret. eapply served_same; [exact Hs3|etrans; [exact H1|]; by etrans|by destruct (_ =? 0)].
Qed.
End contract.
