(* ===== verification/Kickstart.v ===== *)
(** kickstart (src/sdios/util/kickstart): from the state the boot loader leaves to the
    entry point of the kernel, on ia32.  elf.cc loads the images, kipmgr.cc writes the
    kernel interface page, mbi.cc and mbi-ia32.cc read what the boot loader says,
    mbi-loader.cc puts it together; lib.cc has the strings.

    All of it works on physical memory; where the objects of the program are, and what
    the boot loader has put into the registers, is the class [Kickstart_image].
    [FAIL()] stops in an endless loop: it is [halt]. *)

From stdpp Require Import strings.
From S2P Require Import Prelude Machine Server L4Types ElfLoader.
From S2P Require Sigma0.

(** * Memory *)

(** The [n] bytes of [v] go to [a], from the lowest one. *)
Fixpoint save (n : nat) (m : memory) (a v : Z) : memory :=
  match n with O => m | S n => save n (store m (u32 a) (v mod 2 ^ 8)) (a + 1) (v / 2 ^ 8) end.

(** * lib.cc *)

Definition is_intersection (start1 end1 start2 end2 : Z) : bool :=
  ((start2 <=? start1) && (start1 <=? end2)) || ((start2 <=? end1) && (end1 <=? end2)) ||
  ((start1 <=? start2) && (end2 <=? end1)).

(** The strings of the program are shorter than their buffer, [STRING_BUFFER_SIZE]; the
    loops over a string read one byte more at most. *)
Definition string_fuel : nat := 4097.

(** [None]: no NUL in the bytes looked at. *)
Fixpoint strlen_from (fuel : nat) (m : memory) (src cnt : Z) : option Z :=
  match fuel with
  | O => None
  | S fuel => if m (u32 (src + cnt)) =? 0 then Some cnt else strlen_from fuel m src (cnt + 1)
  end.
Definition strlen (m : memory) (src : Z) : option Z := if src =? 0 then Some 0 else strlen_from string_fuel m src 0.

Fixpoint strcpy_from (fuel : nat) (m : memory) (dst src : Z) : option memory :=
  match fuel with
  | O => None
  | S fuel =>
      let c := m (u32 src) in
      let m := store m (u32 dst) c in
      if m (u32 src) =? 0 then Some m else strcpy_from fuel m (dst + 1) (src + 1)
  end.
Definition strcpy (m : memory) (dst src : Z) : option memory :=
  if (dst =? 0) || (src =? 0) then Some m else strcpy_from string_fuel m dst src.

(** [strncmp] with a literal, which ends in a NUL. *)
Fixpoint strncmp (n : nat) (m : memory) (s1 : Z) (s2 : list Z) : Z :=
  match n with
  | O => 0
  | S n =>
      let c := m (u32 s1) in
      if negb (c =? default 0 (head s2)) then c - default 0 (head s2)
      else if c =? 0 then 0 else strncmp n m (s1 + 1) (tail s2)
  end.

(** The place behind the next [c], or [None] for the end of the string. *)
Fixpoint find_char (fuel : nat) (m : memory) (s c : Z) : option (option Z) :=
  match fuel with
  | O => None
  | S fuel =>
      let sc := m (u32 s) in
      if sc =? 0 then Some None else if sc =? c then Some (Some (s + 1)) else find_char fuel m (s + 1) c
  end.
Fixpoint find_string (fuel : nat) (m : memory) (s c : Z) (rest : list Z) : option Z :=
  match fuel with
  | O => None
  | S fuel =>
      p ← find_char string_fuel m s c;
      match p with
      | None => Some 0
      | Some p => if strncmp (length rest) m p rest =? 0 then Some (u32 (p - 1)) else find_string fuel m p c rest
      end
  end.
Definition strstr (m : memory) (s : Z) (find : list Z) : option Z :=
  match find with [] => Some s | c :: rest => find_string string_fuel m s c rest end.

Fixpoint strchr_from (fuel : nat) (m : memory) (p ch : Z) : option Z :=
  match fuel with
  | O => None
  | S fuel => let c := m (u32 p) in if c =? ch then Some p else if c =? 0 then Some 0 else strchr_from fuel m (p + 1) ch
  end.
Definition strchr (m : memory) (p ch : Z) : option Z := strchr_from string_fuel m p ch.

Definition isspace (c : Z) : bool := (c =? 32) || (c =? 9).
Definition isdigit (c : Z) : bool := (48 <=? c) && (c <=? 57).
Definition islower (c : Z) : bool := (97 <=? c) && (c <=? 122).
Definition isupper (c : Z) : bool := (65 <=? c) && (c <=? 90).

(** The value of a character as a digit, if it is one of the base. *)
Definition digit (base c : Z) : option Z :=
  d ← (if isdigit c then Some (c - 48)
       else if isupper c then Some (c - 55)
       else if islower c then Some (c - 87) else None);
  if base <=? d then None else Some d.

(** The loop of [strtoul] from the character at [s]: [acc], [any] and where it ends. *)
Fixpoint digits_from (fuel : nat) (m : memory) (s base acc any : Z) : option (Z * Z * Z) :=
  match fuel with
  | O => None
  | S fuel =>
      match digit base (m (u32 s)) with
      | None => Some (acc, any, s)
      | Some c =>
          if any <? 0 then digits_from fuel m (s + 1) base acc any
          else if ((2 ^ 32 - 1) / base <? acc) || ((acc =? (2 ^ 32 - 1) / base) && ((2 ^ 32 - 1) mod base <? c))
          then digits_from fuel m (s + 1) base (2 ^ 32 - 1) (-1)
          else digits_from fuel m (s + 1) base (u32 (u32 (acc * base) + c)) 1
      end
  end.

Fixpoint skip_space (fuel : nat) (m : memory) (s : Z) : option Z :=
  match fuel with O => None | S fuel => if isspace (m (u32 s)) then skip_space fuel m (s + 1) else Some s end.

(** The value, and the place behind the digits. *)
Definition strtoul (m : memory) (nptr base : Z) : option (Z * Z) :=
  s ← skip_space string_fuel m nptr;
  let c := m (u32 s) in
  let neg := c =? 45 in
  let s := if (c =? 45) || (c =? 43) then s + 1 else s in
  let c := m (u32 s) in
  let hex := ((base =? 0) || (base =? 16)) && (c =? 48) && ((m (u32 (s + 1)) =? 120) || (m (u32 (s + 1)) =? 88)) in
  let s := if hex then s + 2 else s in
  let base := if hex then 16 else base in
  let base := if base =? 0 then (if c =? 48 then 8 else 10) else base in
  '(acc, any, s) ← digits_from string_fuel m s base 0 0;
  let acc := if neg && (0 <? any) then u32 (- acc) else acc in
  Some (acc, if any =? 0 then nptr else u32 s).

(** * The program *)

(** Where the linker has put the program and its objects; what the boot loader leaves in
    [eax] and [ebx]. *)
Class Kickstart_image := {
  kickstart_begin : Z;
  kickstart_end : Z;
  mbi_copy : Z;
  mbi_modules : Z;
  orig_mbi_modules : Z;
  strings_copy : Z;
  grub_mbi_ptr : Z;
  grub_mbi_flags : Z;
}.

(** The globals, the local KIP manager of [mbi_init] among them, and physical memory. *)
Record kickstart := Kickstart {
  phys : memory;
  mbi : Z;
  kip : Z;
  mem_desc_cnt : Z;
  mem_desc_offset : Z;
  word_size : Z;
  max_bootinfo_size : Z;
  max_phys_mem : Z;
  additional_kmem_size : Z;
  decode_all_executables : bool;
}.
#[global] Instance kickstart_fields : Fields kickstart := λ r, {|
  phys := phys r; mbi := mbi r; kip := kip r; mem_desc_cnt := mem_desc_cnt r; mem_desc_offset := mem_desc_offset r;
  word_size := word_size r; max_bootinfo_size := max_bootinfo_size r; max_phys_mem := max_phys_mem r;
  additional_kmem_size := additional_kmem_size r; decode_all_executables := decode_all_executables r |}.

Definition ld (n : nat) (a : Z) : Srv kickstart Z := get (λ s, load n (phys s) a).
Definition st (n : nat) (a v : Z) : Srv kickstart unit := update (λ s, s <| phys ::= λ m, save n m a v |>).
Definition memcopy (dst src len : Z) : Srv kickstart unit := update (λ s, s <| phys ::= λ m, copy m dst src (Z.to_nat len) |>).
Definition memset (dst val len : Z) : Srv kickstart unit := update (λ s, s <| phys ::= λ m, fill m dst val (Z.to_nat len) |>).

(** A routine on strings, which may run past what is looked at. *)
Definition on_string {A} (f : memory → option A) : Srv kickstart A :=
  m ← get phys; match f m with Some a => mret a | None => spins end.

(** * kipmgr.cc *)

(** [value] is cut to a word of the kernel. *)
Definition set_val (idx value : Z) : Srv kickstart unit :=
  w ← get word_size; k ← get kip;
  if w =? 4 then st 4 (k + 4 * idx) value
  else if w =? 8 then st 8 (k + 8 * idx) value
  else mret tt.
Definition get_val (idx : Z) : Srv kickstart Z :=
  w ← get word_size; k ← get kip;
  if w =? 4 then ld 4 (k + 4 * idx)
  else if w =? 8 then ld 8 (k + 8 * idx)
  else undefined.

(** [L4_MAGIC], and the places of fields of [L4_KernelConfigurationPage_t] in words. *)
Definition L4_MAGIC : Z := 1273377868.
Definition KCP_Kdebug : Z := 4.
Definition KCP_sigma0 : Z := 8.
Definition KCP_root_server : Z := 16.
Definition KCP_MemoryInfo : Z := 21.
Definition KCP_BootInfo : Z := 46.

(** The loop of [find_kip], which goes on by the size of a pointer. *)
Definition kip_step : Z := 4.
Fixpoint find_kip_from (fuel : nat) (p stop : Z) : Srv kickstart bool :=
  if p <? stop then
    match fuel with
    | O => spins
    | S fuel =>
        magic ← ld 4 p;
        if magic =? L4_MAGIC then
          update (λ s, s <| kip := p |>);;
          w ← ld 4 (p + 4);
          update (λ s, s <| word_size := if negb (w =? 0) then 4 else 8 |>);;
          meminfo ← get_val KCP_MemoryInfo;
          update (λ s, s <| mem_desc_offset := if negb (w =? 0) then Z.shiftr meminfo 16 / 4 else u32 (Z.shiftr meminfo 32 / 8) |>);;
          mret true
        else find_kip_from fuel (u32 (p + kip_step)) stop
    end
  else mret false.

(** As many rounds as places below the end; with more [p] has wrapped around. *)
Definition find_kip (start stop : Z) : Srv kickstart bool :=
  let p := start - start mod 4096 in find_kip_from (Z.to_nat ((stop - p) / kip_step + 2)) p stop.

(** The raw words of [memdesc_t] with all fields set but the paddings, which stay. *)
Definition desc_word0 (raw type sub_type low : Z) : Z :=
  type mod 2 ^ 4 + 2 ^ 4 * (sub_type mod 2 ^ 4) + 2 ^ 8 * ((raw / 2 ^ 8) mod 2) + 2 ^ 10 * (Z.shiftr low 10 mod 2 ^ 54).
Definition desc_word1 (raw high : Z) : Z := raw mod 2 ^ 10 + 2 ^ 10 * (Z.shiftr high 10 mod 2 ^ 54).

Definition dedicate_memory (start stop type sub_type : Z) : Srv kickstart unit :=
  off ← get mem_desc_offset; n ← get mem_desc_cnt;
  raw0 ← get_val (u32 (off + n * 2 + 0));
  raw1 ← get_val (u32 (off + n * 2 + 1));
  set_val (u32 (off + n * 2 + 0)) (desc_word0 raw0 type sub_type start);;
  set_val (u32 (off + n * 2 + 1)) (desc_word1 raw1 stop);;
  update (λ s, s <| mem_desc_cnt ::= λ n, u32 (n + 1) |>).

(** [kip_manager_t::mem_bootloader_e] *)
Definition desc_init_table : Z := 1.
Definition desc_init_server : Z := 2.
Definition desc_boot_module : Z := 3.

(** What [install_sigma0] and [install_root_task] share, for the field at [server]. *)
Definition install_server (server mod_start mod_end entry : Z) : Srv kickstart unit :=
  set_val (server + 2) mod_start;;
  set_val (server + 3) mod_end;;
  set_val (server + 1) entry;;
  dedicate_memory mod_start mod_end Sigma0.L4_BootLoaderSpecificMemoryType desc_init_server.
Definition install_sigma0 := install_server KCP_sigma0.
Definition install_root_task := install_server KCP_root_server.

Definition update_kip (boot_info : Z) : Srv kickstart unit :=
  set_val KCP_BootInfo boot_info;;
  meminfo ← get_val KCP_MemoryInfo;
  w ← get word_size; n ← get mem_desc_cnt;
  let meminfo := if w =? 4 then meminfo - meminfo mod 2 ^ 16 + n
                 else if w =? 8 then meminfo - meminfo mod 2 ^ 32 + n else meminfo in
  set_val KCP_MemoryInfo meminfo.

(** The fields of the [i]-th descriptor. *)
Definition get_desc (i : Z) : Srv kickstart (Z * Z) :=
  off ← get mem_desc_offset;
  raw0 ← get_val (u32 (off + i * 2 + 0));
  raw1 ← get_val (u32 (off + i * 2 + 1));
  mret (raw0, raw1).
Definition desc_type (d : Z * Z) : Z := d.1 mod 2 ^ 4.
Definition desc_v (d : Z * Z) : Z := (d.1 / 2 ^ 9) mod 2.
Definition desc_low (d : Z * Z) : Z := 2 ^ 10 * (d.1 / 2 ^ 10).
Definition desc_high (d : Z * Z) : Z := 2 ^ 10 * (d.2 / 2 ^ 10) + 1023.

(** The loop of [get_phys_mem_max], over the [n] descriptors from [i] on. *)
Fixpoint mem_max_from (n : nat) (i max : Z) : Srv kickstart Z :=
  match n with
  | O => mret max
  | S n =>
      d ← get_desc i;
      mem_max_from n (i + 1)
        (if (desc_type d =? Sigma0.L4_ConventionalMemoryType) && (desc_v d =? 0) && (max <? desc_high d) then desc_high d else max)
  end.
Definition get_phys_mem_max : Srv kickstart Z := n ← get mem_desc_cnt; mem_max_from (Z.to_nat n) 0 0.

(** [for (m = 1UL << min_pgsize; (m & psmask) == 0; m <<= 1, min_pgsize++)]: after 22
    rounds [m] is 0, and stays so. *)
Fixpoint min_pagesize_from (fuel : nat) (psmask m min_pgsize : Z) : Srv kickstart Z :=
  if Z.land m psmask =? 0 then
    match fuel with O => spins | S fuel => min_pagesize_from fuel psmask (u32 (Z.shiftl m 1)) (min_pgsize + 1) end
  else mret (u32 (Z.shiftl 1 min_pgsize)).
Definition get_min_pagesize : Srv kickstart Z :=
  psmask ← get_val 50;
  let psmask := u32 psmask in
  if psmask =? 0 then mret 0 else min_pagesize_from 22 psmask (Z.shiftl 1 10) 10.

(** The four servers the kernel interface page names, from the [i]-th on. *)
Fixpoint servers_free (n : nat) (i start stop : Z) : Srv kickstart bool :=
  match n with
  | O => mret true
  | S n =>
      low ← get_val (KCP_Kdebug + i * 4 + 2); high ← get_val (KCP_Kdebug + i * 4 + 3);
      if is_intersection start stop (u32 low) (u32 high) then mret false else servers_free n (i + 1) start stop
  end.

(** The shared descriptor of the whole address space. *)
Definition covers_all (d : Z * Z) : bool :=
  (desc_type d =? Sigma0.L4_SharedMemoryType) && (desc_low d =? 0) && (u32 (desc_high d) =? 2 ^ 32 - 1).

Fixpoint descs_free (n : nat) (i start stop : Z) : Srv kickstart bool :=
  match n with
  | O => mret true
  | S n =>
      d ← get_desc i;
      if (desc_type d =? Sigma0.L4_ConventionalMemoryType) || (desc_v d =? 1) || covers_all d
      then descs_free n (i + 1) start stop
      else if is_intersection start stop (u32 (desc_low d)) (u32 (desc_high d)) then mret false
      else descs_free n (i + 1) start stop
  end.

Definition kip_is_mem_region_free (start size : Z) : Srv kickstart bool :=
  let stop := u32 (start - 1 + size) in
  b ← servers_free 4 0 start stop;
  if negb b then mret false else n ← get mem_desc_cnt; descs_free (Z.to_nat n) 0 start stop.

(** * elf.cc *)

(** Places of the fields of [ehdr_t], [phdr_t], [shdr_t] for 32 bits. *)
Definition is_elf (m : memory) (a : Z) : bool :=
  (m (u32 a) =? 127) && (m (u32 (a + 1)) =? 69) && (m (u32 (a + 2)) =? 76) && (m (u32 (a + 3)) =? 70).
Definition eh_is_32bit (m : memory) (a : Z) : bool := m (u32 (a + 4)) =? 1.
Definition eh_type (m : memory) (a : Z) : Z := load 2 m (a + 16).
Definition eh_entry (m : memory) (a : Z) : Z := load 4 m (a + 24).
Definition eh_phoff (m : memory) (a : Z) : Z := load 4 m (a + 28).
Definition eh_shoff (m : memory) (a : Z) : Z := load 4 m (a + 32).
Definition eh_phentsize (m : memory) (a : Z) : Z := load 2 m (a + 42).
Definition eh_phnum (m : memory) (a : Z) : Z := load 2 m (a + 44).
Definition eh_shentsize (m : memory) (a : Z) : Z := load 2 m (a + 46).
Definition eh_shnum (m : memory) (a : Z) : Z := load 2 m (a + 48).

Record phdr_t := Phdr_t { ph_type : Z; ph_off : Z; ph_vaddr : Z; ph_paddr : Z; ph_fsize : Z; ph_msize : Z; ph_flags : Z }.
Definition phdr (m : memory) (a : Z) : phdr_t :=
  Phdr_t (load 4 m a) (load 4 m (a + 4)) (load 4 m (a + 8)) (load 4 m (a + 12)) (load 4 m (a + 16)) (load 4 m (a + 20)) (load 4 m (a + 24)).
Definition PF_W : Z := 2.

Record shdr_t := Shdr_t { sh_type : Z; sh_flags : Z; sh_addr : Z; sh_size : Z }.
Definition shdr (m : memory) (a : Z) : shdr_t :=
  Shdr_t (load 4 m (a + 4)) (load 4 m (a + 8)) (load 4 m (a + 12)) (load 4 m (a + 20)).
Definition SHT_PROGBITS : Z := 1.
Definition SHT_NOBITS : Z := 8.
Definition SHF_WRITE : Z := 1.
Definition SHF_ALLOC : Z := 2.
Definition SHF_EXECINSTR : Z := 4.

(** The [i]-th program header. *)
Definition ph_place (m : memory) (file_start i : Z) : Z := u32 (file_start + eh_phoff m file_start + eh_phentsize m file_start * i).
Definition sh_place (m : memory) (addr i : Z) : Z := u32 (addr + eh_shoff m addr + eh_shentsize m addr * i).

(** The body of the loop of [elf_load] for the header at [p]; the header is read again
    after every store. *)
Definition load_ph (file_start p min_addr max_addr : Z) : Srv kickstart (Z * Z) :=
  ph ← get (λ s, phdr (phys s) p);
  if ph_type ph =? PT_LOAD then
    memcopy (ph_paddr ph) (u32 (file_start + ph_off ph)) (ph_fsize ph);;
    ph ← get (λ s, phdr (phys s) p);
    memset (u32 (ph_paddr ph + ph_fsize ph)) 0 (u32 (ph_msize ph - ph_fsize ph));;
    ph ← get (λ s, phdr (phys s) p);
    mret (min_addr `min` ph_paddr ph, max_addr `max` u32 (ph_paddr ph + (ph_msize ph `max` ph_fsize ph)))
  else mret (min_addr, max_addr).

(** [for (i = 0; i < eh->phnum; i++)]; [phnum] has 16 bits. *)
Fixpoint load_phs (fuel : nat) (file_start i min_addr max_addr : Z) : Srv kickstart (Z * Z) :=
  n ← get (λ s, eh_phnum (phys s) file_start);
  if i <? n then
    match fuel with
    | O => spins
    | S fuel =>
        p ← get (λ s, ph_place (phys s) file_start i);
        '(lo, hi) ← load_ph file_start p min_addr max_addr;
        load_phs fuel file_start (i + 1) lo hi
    end
  else mret (min_addr, max_addr).

(** The last three arguments are the places for the results. *)
Definition elf_load32 (file_start memory_start memory_end entry : Z) : Srv kickstart bool :=
  t ← get (λ s, eh_type (phys s) file_start);
  if negb (t =? 2) then mret false else
  off ← get (λ s, eh_phoff (phys s) file_start);
  if off =? 0 then mret false else
  '(min_addr, max_addr) ← load_phs phdr_fuel file_start 0 (2 ^ 32 - 1) 0;
  st 4 memory_start min_addr;;
  st 4 memory_end max_addr;;
  e ← get (λ s, eh_entry (phys s) file_start);
  st 4 entry e;;
  mret true.

Definition elf_load (file_start memory_start memory_end entry : Z) : Srv kickstart bool :=
  m ← get phys;
  if negb (is_elf m file_start) then mret false
  else if eh_is_32bit m file_start then elf_load32 file_start memory_start memory_end entry
  else mret false.

(** The fields of [L4_Boot_SimpleExec_t] behind its start. *)
Definition sizeof_exec : Z := 64.
Definition L4_BootInfo_SimpleExec : Z := 2.

(** A section of the three: [pstart], [vstart] and [size], behind one another, from the
    header at [p], which is read for each of them. *)
Definition set_section (p at_ : Z) (pstart vstart size : phdr_t → Z) : Srv kickstart unit :=
  ph ← get (λ s, phdr (phys s) p); st 4 at_ (pstart ph);;
  ph ← get (λ s, phdr (phys s) p); st 4 (at_ + 4) (vstart ph);;
  ph ← get (λ s, phdr (phys s) p); st 4 (at_ + 8) (size ph).
Definition exec_text (exec : Z) : Z := exec + 12.
Definition exec_data (exec : Z) : Z := exec + 24.
Definition exec_bss (exec : Z) : Z := exec + 36.

(** Without section headers: what a program header says of the sections. *)
Definition guess_sections (exec p : Z) : Srv kickstart unit :=
  ph ← get (λ s, phdr (phys s) p);
  set_section p (if Z.land (ph_flags ph) PF_W =? 0 then exec_text exec else exec_data exec) ph_paddr ph_paddr ph_fsize;;
  ph ← get (λ s, phdr (phys s) p);
  onlyif (ph_fsize ph <? ph_msize ph)
    (set_section p (exec_bss exec) (λ ph, u32 (ph_paddr ph + ph_fsize ph)) (λ ph, u32 (ph_vaddr ph + ph_fsize ph))
       (λ ph, u32 (ph_msize ph - ph_fsize ph))).

Fixpoint each_ph (fuel : nat) (addr i : Z) (body : Z → Srv kickstart unit) : Srv kickstart unit :=
  n ← get (λ s, eh_phnum (phys s) addr);
  if i <? n then
    match fuel with
    | O => spins
    | S fuel => p ← get (λ s, ph_place (phys s) addr i); body p;; each_ph fuel addr (i + 1) body
    end
  else mret tt.

(** The bounds of the three sections: the least address and the greatest end. *)
Record bounds := Bounds { tlow : Z; thigh : Z; dlow : Z; dhigh : Z; blow : Z; bhigh : Z }.
Definition add_section (b : bounds) (sh : shdr_t) : bounds :=
  let low l := if sh_addr sh <? l then sh_addr sh else l in
  let high h := let e := u32 (sh_addr sh + sh_size sh) in if h <? e then e else h in
  if sh_type sh =? SHT_PROGBITS then
    if has (sh_flags sh) SHF_ALLOC && (has (sh_flags sh) SHF_EXECINSTR || negb (has (sh_flags sh) SHF_WRITE))
    then Bounds (low (tlow b)) (high (thigh b)) (dlow b) (dhigh b) (blow b) (bhigh b)
    else if has (sh_flags sh) SHF_ALLOC && has (sh_flags sh) SHF_WRITE
    then Bounds (tlow b) (thigh b) (low (dlow b)) (high (dhigh b)) (blow b) (bhigh b)
    else b
  else if sh_type sh =? SHT_NOBITS
  then Bounds (tlow b) (thigh b) (dlow b) (dhigh b) (low (blow b)) (high (bhigh b))
  else b.

(** The loop over the section headers stores nothing. *)
Definition section_bounds (m : memory) (addr : Z) : bounds :=
  foldl (λ b i, add_section b (shdr m (sh_place m addr i))) (Bounds (2 ^ 32 - 1) 0 (2 ^ 32 - 1) 0 (2 ^ 32 - 1) 0) (seqZ 0 (eh_shnum m addr)).

Definition INSEGMENT (ph : phdr_t) (a : Z) : bool := (ph_vaddr ph <=? a) && (a <? u32 (ph_vaddr ph + ph_msize ph)).
Definition PADDR (ph : phdr_t) (a : Z) : Z := u32 (ph_paddr ph + a - ph_vaddr ph).

(** The section from [low] to [high], if it starts in the segment of the header at [p]. *)
Definition place_section (p at_ low high : Z) : Srv kickstart unit :=
  ph ← get (λ s, phdr (phys s) p);
  onlyif (INSEGMENT ph low) (set_section p at_ (λ ph, PADDR ph low) (λ _, low) (λ _, u32 (high - low))).
Definition place_sections (b : bounds) (exec p : Z) : Srv kickstart unit :=
  place_section p (exec_text exec) (tlow b) (thigh b);;
  place_section p (exec_data exec) (dlow b) (dhigh b);;
  place_section p (exec_bss exec) (blow b) (bhigh b).

Definition elf_find_sections32 (addr exec : Z) : Srv kickstart bool :=
  m ← get phys;
  if negb (eh_type m addr =? 2) then mret false else
  if eh_phoff m addr =? 0 then mret false else
  memset exec 0 sizeof_exec;;
  st 4 exec L4_BootInfo_SimpleExec;;
  st 4 (exec + 4) 1;;
  e ← get (λ s, eh_entry (phys s) addr);
  st 4 (exec + 48) e;;
  st 4 (exec + 8) sizeof_exec;;
  m ← get phys;
  (if negb (eh_phoff m addr =? 0) && (eh_shoff m addr =? 0)
   then each_ph phdr_fuel addr 0 (guess_sections exec)
   else each_ph phdr_fuel addr 0 (place_sections (section_bounds m addr) exec));;
  mret true.

Definition elf_find_sections (addr exec : Z) : Srv kickstart bool :=
  m ← get phys;
  if negb (is_elf m addr) then mret false
  else if eh_is_32bit m addr then elf_find_sections32 addr exec
  else mret false.

(** * mbi.cc and mbi-ia32.cc *)

Section image.
Context `{Kickstart_image}.

(** Places of the fields of [mbi_t] and of [mbi_module_t], and their sizes. *)
Definition sizeof_mbi : Z := 88.
Definition sizeof_module : Z := 16.
Definition has_cmdline (m : memory) (b : Z) : bool := Z.testbit (load 4 m b) 2.
Definition has_mods (m : memory) (b : Z) : bool := Z.testbit (load 4 m b) 3.
Definition has_mmap (m : memory) (b : Z) : bool := Z.testbit (load 4 m b) 6.
Definition mem_lower (m : memory) (b : Z) : Z := load 4 m (b + 4).
Definition mem_upper (m : memory) (b : Z) : Z := load 4 m (b + 8).
Definition cmdline_place (b : Z) : Z := b + 16.
Definition modcount_place (b : Z) : Z := b + 20.
Definition mods_place (b : Z) : Z := b + 24.
Definition modcount (m : memory) (b : Z) : Z := load 4 m (modcount_place b).
Definition mmap_length (m : memory) (b : Z) : Z := load 4 m (b + 44).
Definition mmap_addr (m : memory) (b : Z) : Z := load 4 m (b + 48).
(** [&mbi->mods[i]], and the fields of a module. *)
Definition mod_place (m : memory) (b i : Z) : Z := u32 (load 4 m (mods_place b) + sizeof_module * i).
Definition mod_start (m : memory) (p : Z) : Z := load 4 m p.
Definition mod_end (m : memory) (p : Z) : Z := load 4 m (p + 4).
Definition mod_cmdline_place (p : Z) : Z := p + 8.
Definition mod_entry (m : memory) (p : Z) : Z := load 4 m (p + 12).

Definition prepare : option Z := if grub_mbi_flags =? 732803074 then Some grub_mbi_ptr else None.

(** The space of a string with its NUL, and for its alignment. *)
Definition string_space (m : memory) (place : Z) : option Z := n ← strlen m (load 4 m place); Some (1 + n + 4).
Fixpoint modules_size (n : nat) (m : memory) (b i tot : Z) : option Z :=
  match n with
  | O => Some tot
  | S n => k ← string_space m (mod_cmdline_place (mod_place m b i)); modules_size n m b (i + 1) (tot + sizeof_module + k)
  end.
Definition get_size (b : Z) : Srv kickstart Z :=
  on_string (λ m, k ← string_space m (cmdline_place b); u32 <$> modules_size (Z.to_nat (modcount m b)) m b 0 (sizeof_mbi + k)).

(** The string at [place] goes to [strings], unless it is NULL; what is behind it. *)
Definition copy_cmdline (target place strings : Z) : Srv kickstart Z :=
  p ← ld 4 place;
  if p =? 0 then mret strings else
  st 4 target strings;;
  m ← on_string (λ m, strcpy m (load 4 m target) (load 4 m place));
  update (λ s, s <| phys := m |>);;
  n ← on_string (λ m, strlen m (load 4 m place));
  mret (u32 (strings + 1 + n)).

Fixpoint copy_modules (n : nat) (target b i strings : Z) : Srv kickstart unit :=
  match n with
  | O => mret tt
  | S n =>
      m ← get phys; memcopy (mod_place m target i) (mod_place m b i) sizeof_module;;
      m ← get phys;
      strings ← copy_cmdline (mod_cmdline_place (mod_place m target i)) (mod_cmdline_place (mod_place m b i)) strings;
      copy_modules n target b (i + 1) strings
  end.

(** [b->copy (target)]; the count of the modules is read once, [target] being away. *)
Definition mbi_copy_to (b target : Z) : Srv kickstart unit :=
  n ← get (λ s, modcount (phys s) b);
  let strings := u32 (target + sizeof_mbi + sizeof_module * n) in
  memcopy target b sizeof_mbi;;
  strings ← copy_cmdline (cmdline_place target) (cmdline_place b) strings;
  st 4 (mods_place target) (u32 (target + sizeof_mbi));;
  copy_modules (Z.to_nat n) target b 0 strings.

Definition mbi_is_mem_region_free (b start size : Z) : Srv kickstart bool :=
  m ← get phys;
  let stop := u32 (start - 1 + size) in
  mret (forallb (λ i, negb (is_intersection start stop (mod_start m (mod_place m b i)) (mod_end m (mod_place m b i))))
          (seqZ 0 (modcount m b)) &&
        negb (is_intersection start stop kickstart_begin kickstart_end)).

(** An entry of the BIOS memory map, [mmap_t], which is packed by its alignment of 4. *)
Record mmap_t := Mmap { desc_size : Z; base : Z; size : Z; mm_type : Z }.
Definition mmap_at (m : memory) (p : Z) : mmap_t := Mmap (load 4 m p) (load 8 m (p + 4)) (load 8 m (p + 12)) (load 4 m (p + 20)).
Definition next_mmap (p : Z) (e : mmap_t) : Z := u32 (p + 4 + desc_size e).

Definition MAX_KMEM_END : Z := 240 * 1024 * 1024.

(** The loop over the map: one descriptor for each entry, whose size is cut before to
    [max_phys_mem] if that is set.  The end of the map is computed once: the descriptors
    are stored into the kernel interface page. *)
Fixpoint install_map (fuel : nat) (p stop : Z) : Srv kickstart unit :=
  if p <? stop then
    match fuel with
    | O => spins
    | S fuel =>
        limit ← get max_phys_mem;
        e ← get (λ s, mmap_at (phys s) p);
        onlyif (negb (limit =? 0) && (1024 * 1024 <? size e)) (st 8 (p + 12) (L4Types.u64 (limit - base e)));;
        e ← get (λ s, mmap_at (phys s) p);
        dedicate_memory (base e) (L4Types.u64 (base e + size e - 1))
          (if mm_type e =? 1 then Sigma0.L4_ConventionalMemoryType else Sigma0.L4_ArchitectureSpecificMemoryType) (mm_type e);;
        e ← get (λ s, mmap_at (phys s) p);
        install_map fuel (next_mmap p e) stop
    end
  else mret tt.

(** The second round, for a place for the kernel: [MAX_KMEM_END - additional_kmem_size]
    is unsigned. *)
Fixpoint reserve_kmem (fuel : nat) (p stop : Z) : Srv kickstart unit :=
  if p <? stop then
    match fuel with
    | O => spins
    | S fuel =>
        k ← get additional_kmem_size;
        e ← get (λ s, mmap_at (phys s) p);
        if (mm_type e =? 1) && (k <=? size e) && (base e <=? u32 (MAX_KMEM_END - k)) then
          let stop := u32 (L4Types.u64 (base e + size e) `min` MAX_KMEM_END) in
          dedicate_memory (u32 (stop - k)) (u32 (stop - 1)) Sigma0.L4_ReservedMemoryType 0
        else reserve_kmem fuel (next_mmap p e) stop
    end
  else mret tt.

(** An entry takes 4 bytes at least. *)
Definition mmap_fuel (m : memory) (b : Z) : nat := Z.to_nat (mmap_length m b / 4 + 1).

Definition install_memory (b : Z) : Srv kickstart unit :=
  dedicate_memory 0 (2 ^ 32 - 1) Sigma0.L4_SharedMemoryType 0;;
  m ← get phys;
  (if has_mmap m b then
     install_map (mmap_fuel m b) (mmap_addr m b) (u32 (mmap_addr m b + mmap_length m b));;
     k ← get additional_kmem_size;
     m ← get phys;
     onlyif (negb (k =? 0)) (reserve_kmem (mmap_fuel m b) (mmap_addr m b) (u32 (mmap_addr m b + mmap_length m b)))
   else
     dedicate_memory 0 (L4Types.u64 (mem_lower m b * 1024 - 1)) Sigma0.L4_ConventionalMemoryType 0;;
     m ← get phys; limit ← get max_phys_mem;
     let stop := if limit =? 0 then u32 (2 ^ 20 + mem_upper m b * 1024) else limit in
     dedicate_memory (2 ^ 20) (u32 (stop - 1)) Sigma0.L4_ConventionalMemoryType 0;;
     k ← get additional_kmem_size;
     onlyif (negb (k =? 0)) (dedicate_memory (u32 (stop - k)) (u32 (stop - 1)) Sigma0.L4_ReservedMemoryType 0));;
  dedicate_memory 655360 786431 Sigma0.L4_SharedMemoryType 0;;
  dedicate_memory 786432 983039 Sigma0.L4_SharedMemoryType 0.

(** * mbi-loader.cc *)

Definition MAX_MBI_MODULES : Z := 32.
Definition STRING_BUFFER_SIZE : Z := 4096.

(** [LOADIT(idx)], without [FAIL]. *)
Definition load_module (i : Z) : Srv kickstart bool :=
  b ← get mbi;
  p ← get (λ s, mod_place (phys s) b i);
  start ← get (λ s, mod_start (phys s) p);
  elf_load start p (p + 4) (p + 12).
Definition loadit (i : Z) : Srv kickstart unit := ok ← load_module i; if ok : bool then mret tt else halt.

(** [for (i = 3; i < mbi->modcount; i++) elf_load (...)] *)
Fixpoint load_others (n : nat) (i : Z) : Srv kickstart unit :=
  match n with O => mret tt | S n => load_module i;; load_others n (i + 1) end.

Definition load_modules : Srv kickstart bool :=
  b ← get mbi; m ← get phys;
  if negb (has_mods m b) then halt else
  if modcount m b <? 3 then halt else
  loadit 0;; loadit 1;; loadit 2;;
  all ← get decode_all_executables; m ← get phys;
  onlyif all (load_others (Z.to_nat (modcount m b - 3)) 3);;
  mret true.

(** [for (phys_start = 0; phys_start < (phys_end - size); phys_start += size)]: the address
    is cut to a word for the two tests and in the result. *)
Fixpoint find_free_from (fuel : nat) (phys_start phys_end size : Z) : Srv kickstart Z :=
  if phys_start <? L4Types.u64 (phys_end - size) then
    match fuel with
    | O => spins
    | S fuel =>
        b ← get mbi;
        free ← mbi_is_mem_region_free b (u32 phys_start) size;
        if negb free then find_free_from fuel (L4Types.u64 (phys_start + size)) phys_end size else
        free ← kip_is_mem_region_free (u32 phys_start) size;
        if negb free then find_free_from fuel (L4Types.u64 (phys_start + size)) phys_end size else
        mret (u32 phys_start)
    end
  else mret 0.

(** The rounds for a memory that has the size at least; with less, the bound of the loop
    has wrapped around, and with a size of 0 the loop stays where it is. *)
Definition find_free_mem_region (size : Z) : Srv kickstart Z :=
  phys_end ← get_phys_mem_max;
  find_free_from (Z.to_nat (phys_end / size + 1)) 0 phys_end size.

Definition install_mbi : Srv kickstart Z :=
  b ← get mbi;
  mbi_size ← get_size b;
  let mbi_size := if mbi_size mod 4096 =? 0 then mbi_size else u32 (mbi_size + 4096) - u32 (mbi_size + 4096) mod 4096 in
  target_mbi ← find_free_mem_region mbi_size;
  if target_mbi =? 0 then halt else
  mbi_copy_to b target_mbi;;
  dedicate_memory target_mbi (u32 (target_mbi - 1 + mbi_size)) Sigma0.L4_BootLoaderSpecificMemoryType desc_init_table;;
  mret target_mbi.

(** The fields of [L4_BootInfo_t] and of the records. *)
Definition L4_BOOTINFO_MAGIC : Z := 347079197.
Definition L4_BOOTINFO_VERSION : Z := 1.
Definition sizeof_bootinfo : Z := 32.
Definition sizeof_boot_module : Z := 24.
Definition sizeof_boot_mbi : Z := 16.
Definition L4_BootInfo_Multiboot : Z := 258.
Definition bi_size (bi : Z) : Z := bi + 8.
Definition bi_num_entries (bi : Z) : Z := bi + 16.

Definition init_bootinfo : Srv kickstart Z :=
  k ← get_min_pagesize;
  update (λ s, s <| max_bootinfo_size := k |>);;
  bi ← find_free_mem_region k;
  if bi =? 0 then mret 0 else
  st 4 bi L4_BOOTINFO_MAGIC;;
  st 4 (bi + 4) L4_BOOTINFO_VERSION;;
  st 4 (bi_size bi) sizeof_bootinfo;;
  st 4 (bi + 12) sizeof_bootinfo;;
  st 4 (bi_num_entries bi) 0;;
  dedicate_memory bi (u32 (bi + k - 1)) Sigma0.L4_BootLoaderSpecificMemoryType desc_init_table;;
  mret bi.

Definition align_up (addr size : Z) : Z := Z.land (u32 (addr + size - 1)) (2 ^ 32 - size).

(** The command line of the module at [p] behind the [sz] bytes of the record: its new
    size.  The place of the line is the last field of the two kinds of records. *)
Definition put_cmdline (rec p sz : Z) : Srv kickstart Z :=
  m ← on_string (λ m, strcpy m (u32 (rec + sz)) (load 4 m (mod_cmdline_place p)));
  update (λ s, s <| phys := m |>);;
  n ← on_string (λ m, strlen m (load 4 m (mod_cmdline_place p)));
  let sz := align_up (u32 (sz + (n + 1))) 4 in
  st 4 (rec + 8) sz;;
  mret sz.

(** The record of one module; its size. *)
Definition record_module (rec i : Z) : Srv kickstart Z :=
  b ← get mbi; all ← get decode_all_executables;
  start ← get (λ s, mod_start (phys s) (u32 (orig_mbi_modules + sizeof_module * i)));
  found ← (if all || (i <? 3) then elf_find_sections start rec else mret false);
  p ← get (λ s, mod_place (phys s) b i);
  if found : bool then
    st 4 (rec + 60) sizeof_exec;; put_cmdline rec p sizeof_exec
  else
    st 4 rec L4_BootInfo_Module;;
    st 4 (rec + 4) 1;;
    st 4 (rec + 8) sizeof_boot_module;;
    v ← get (λ s, mod_start (phys s) p); st 4 (rec + 12) v;;
    v ← get (λ s, u32 (mod_end (phys s) p - mod_start (phys s) p)); st 4 (rec + 16) v;;
    st 4 (rec + 20) sizeof_boot_module;; put_cmdline rec p sizeof_boot_module.

(** [num_entries++] and [size += sz] *)
Definition count_record (bi sz : Z) : Srv kickstart unit :=
  n ← ld 4 (bi_num_entries bi); st 4 (bi_num_entries bi) (n + 1);;
  n ← ld 4 (bi_size bi); st 4 (bi_size bi) (n + sz).

Fixpoint record_modules (n : nat) (bi rec i : Z) : Srv kickstart Z :=
  match n with
  | O => mret rec
  | S n =>
      sz ← record_module rec i;
      count_record bi sz;;
      record_modules n bi (u32 (rec + sz)) (i + 1)
  end.
Definition record_bootinfo_modules (bi rec : Z) : Srv kickstart Z :=
  b ← get mbi; m ← get phys;
  if has_mods m b then record_modules (Z.to_nat (modcount m b - 1)) bi rec 1 else mret rec.

Definition mbi_probe : Srv kickstart bool :=
  match prepare with
  | None => mret false
  | Some b => memcopy mbi_copy b sizeof_mbi;; update (λ s, s <| mbi := mbi_copy |>);; mret true
  end.

(** [COPY_STRING] for the pointer at [place], with [sptr] and [nfree] before and after. *)
Definition copy_string (place : Z) (buffer : Z * Z) : Srv kickstart (Z * Z) :=
  let '(sptr, nfree) := buffer in
  m ← get phys;
  match strlen m (load 4 m place) with
  | None => halt
  | Some n =>
      if nfree <? n + 1 then halt else
      m ← on_string (λ m, strcpy m sptr (load 4 m place));
      update (λ s, s <| phys := m |>);;
      st 4 place sptr;;
      mret (sptr + (n + 1), nfree - (n + 1))
  end.

(** The number behind [name] and an equals sign, times its unit. *)
Definition parse_num (name : list Z) : Srv kickstart (option Z) :=
  b ← get mbi;
  p ← on_string (λ m, strstr m (load 4 m (cmdline_place b)) (name ++ [61]));
  if p =? 0 then mret None else
  '(v, p) ← on_string (λ m, strtoul m (p + Z.of_nat (length name) + 1) 10);
  m ← get phys;
  let c := m (u32 p) in
  mret (Some (if c =? 75 then u32 (v * 1024) else if c =? 77 then u32 (v * (1024 * 1024))
              else if c =? 71 then u32 (v * (1024 * 1024 * 1024)) else v)).

Definition literal (s : string) : list Z := txt s.

(** What is behind [name] and an equals sign switches [var]. *)
Definition parse_bool (name : list Z) (var : bool) : Srv kickstart bool :=
  b ← get mbi;
  p ← on_string (λ m, strstr m (load 4 m (cmdline_place b)) (name ++ [61]));
  if p =? 0 then mret var else
  q ← on_string (λ m, strchr m p 61);
  m ← get phys;
  let starts s := strncmp (length (literal s)) m (q + 1) (literal s) =? 0 in
  mret (if starts "yes" || starts "on" || starts "enable" then true
        else if starts "no" || starts "off" || starts "disable" then false else var).

(** The options of the command line; the last two are the results. *)
Definition parse_options : Srv kickstart (bool * bool) :=
  v ← parse_num (literal "maxmem");
  match v with Some v => update (λ s, s <| max_phys_mem := v |>) | None => mret tt end;;
  v ← parse_num (literal "kmem");
  match v with
  | Some v => k ← get_min_pagesize; update (λ s, s <| additional_kmem_size := Z.land v (2 ^ 32 - 1 - u32 (k - 1)) |>)
  | None => mret tt
  end;;
  use_bootinfo ← parse_bool (literal "bootinfo") true;
  use_mbi ← parse_bool (literal "mbi") true;
  all ← get decode_all_executables;
  all ← parse_bool (literal "decode-all") all;
  update (λ s, s <| decode_all_executables := all |>);;
  mret (use_bootinfo, use_mbi).

(** The two copies of the module at [i], and of its string. *)
Fixpoint save_modules (n : nat) (b i : Z) (buffer : Z * Z) : Srv kickstart unit :=
  match n with
  | O => mret tt
  | S n =>
      p ← get (λ s, mod_place (phys s) b i);
      buffer ← copy_string (mod_cmdline_place p) buffer;
      memcopy (u32 (mbi_modules + sizeof_module * i)) p sizeof_module;;
      memcopy (u32 (orig_mbi_modules + sizeof_module * i)) (u32 (mbi_modules + sizeof_module * i)) sizeof_module;;
      save_modules n b (i + 1) buffer
  end.

Definition save_mods (buffer : Z * Z) : Srv kickstart unit :=
  b ← get mbi; m ← get phys;
  onlyif (MAX_MBI_MODULES <? modcount m b) (st 4 (modcount_place b) MAX_MBI_MODULES);;
  m ← get phys;
  let n := modcount m b in
  save_modules (Z.to_nat n) b 0 buffer;;
  st 4 (mods_place b) mbi_modules;;
  onlyif (2 <? n) (p ← get (λ s, mod_place (phys s) b 2); v ← ld 4 (mod_cmdline_place p); st 4 (cmdline_place b) v).

(** [find_kip] in the first module, or [FAIL]. *)
Definition find_kernel_kip : Srv kickstart unit :=
  b ← get mbi;
  p ← get (λ s, mod_place (phys s) b 0);
  start ← get (λ s, mod_start (phys s) p); stop ← get (λ s, mod_end (phys s) p);
  ok ← find_kip start stop;
  if ok : bool then mret tt else halt.

(** One of the two servers that are started by the kernel. *)
Definition install_init_server (install : Z → Z → Z → Srv kickstart unit) (i : Z) : Srv kickstart unit :=
  b ← get mbi; p ← get (λ s, mod_place (phys s) b i); m ← get phys;
  install (mod_start m p) (mod_end m p) (mod_entry m p).

Fixpoint protect_modules (n : nat) (i : Z) : Srv kickstart unit :=
  match n with
  | O => mret tt
  | S n =>
      b ← get mbi; p ← get (λ s, mod_place (phys s) b i); m ← get phys;
      dedicate_memory (mod_start m p) (u32 (mod_end m p - 1)) Sigma0.L4_BootLoaderSpecificMemoryType desc_boot_module;;
      protect_modules n (i + 1)
  end.

(** The boot information, when it is used and there is room for it; [bi->size] is read
    before the test for NULL. *)
Definition make_bootinfo (use_bootinfo : bool) : Srv kickstart (bool * Z * Z) :=
  if negb use_bootinfo then mret (false, 0, 0) else
  bi ← init_bootinfo;
  n ← ld 4 (bi_size bi);
  let rec := u32 (bi + n) in
  if bi =? 0 then mret (false, 0, rec) else
  rec ← record_bootinfo_modules bi rec;
  mret (true, bi, rec).

Definition record_mbi (bi rec : Z) : Srv kickstart unit :=
  st 4 rec L4_BootInfo_Multiboot;;
  st 4 (rec + 4) 1;;
  st 4 (rec + 8) sizeof_boot_mbi;;
  b ← get mbi; st 4 (rec + 12) b;;
  count_record bi sizeof_boot_mbi.

(** The constructor of [kip_manager_t]. *)
Definition kip_manager : Srv kickstart unit :=
  update (λ s, s <| mem_desc_cnt := 0 |> <| mem_desc_offset := 0 |> <| word_size := 0 |>).

Definition mbi_init : Srv kickstart Z :=
  kip_manager;;
  find_kernel_kip;;
  b ← get mbi; m ← get phys;
  let buffer := (strings_copy, STRING_BUFFER_SIZE) in
  '(buffer, use_bootinfo, use_mbi) ←
    (if has_cmdline m b then
       buffer ← copy_string (cmdline_place b) buffer;
       '(use_bootinfo, use_mbi) ← parse_options;
       mret (buffer, use_bootinfo, use_mbi)
     else mret (buffer, true, true));
  m ← get phys;
  onlyif (has_mods m b) (save_mods buffer);;
  ok ← load_modules;
  if negb ok then halt else
  find_kernel_kip;;
  install_memory b;;
  install_init_server install_sigma0 1;;
  install_init_server install_root_task 2;;
  n ← get (λ s, modcount (phys s) b);
  protect_modules (Z.to_nat (n - 3)) 3;;
  '((use_bootinfo, bi), rec) ← make_bootinfo use_bootinfo;
  (if use_mbi : bool then b ← install_mbi; update (λ s, s <| mbi := b |>) else mret tt);;
  onlyif (use_bootinfo && use_mbi) (record_mbi bi rec);;
  b ← get mbi;
  update_kip (if use_bootinfo : bool then bi else if use_mbi : bool then b else 0);;
  get (λ s, mod_entry (phys s) mbi_modules).

(** [loader] of kickstart.cc with the one format there is for ia32: where the kernel
    starts, or nothing. *)
Definition loader : Srv kickstart (option Z) :=
  ok ← mbi_probe; if ok : bool then entry ← mbi_init; mret (Some entry) else mret None.
End image.
