(* ===== verification/KickstartSpec.v ===== *)
(** kickstart: the descriptors it writes are what sigma0 reads, the memory it takes is
    free, and what it makes of the numbers of its command line. *)

From stdpp Require Import strings.
From S2P Require Import Prelude Machine Server L4Types ElfLoader ElfLoaderSpec Kickstart.
From S2P Require Sigma0.

(** * Memory *)






#[local] Arguments load : simpl never.
#[local] Arguments save : simpl never.
#[local] Arguments mmap_at : simpl never.


(** * Ranges *)

Lemma no_intersection a b c d : is_intersection a b c d = false → ∀ x, a ≤ x ≤ b → c ≤ x ≤ d → False.
Proof. unfold is_intersection. intros E x Hx Hy. lia. Qed.

(** * The kernel interface page *)

Section spec.
Context `{Kickstart_image}.
Implicit Types s : kickstart.






(** ** Stores *)

Lemma runs_ld n a (Q : Z → kickstart → Prop) s : Q (load n (phys s) a) s → runs (ld n a) Q s.
Proof. done. Qed.





(** ** Several descriptors *)









(** ** The BIOS memory map *)
































(** * Free memory *)










Definition clear (start stop : Z) (r : Z * Z) : bool := negb (is_intersection start stop r.1 r.2).















End spec.

(** * The command line *)

(** The C string [cs] at [a]. *)
Record cstr (m : memory) (a : Z) (cs : list Z) : Prop := {
  c_at k : (k ≤ length cs)%nat → m (a + Z.of_nat k) = default 0 (cs !! k);
  c_nz : Forall (λ c, c ≠ 0) cs;
  c_range : 0 < a ∧ a + Z.of_nat (length cs) < 2 ^ 32;
  c_len : (length cs < 4096)%nat;
}.

Section string.
Context (m : memory) (a : Z) (cs : list Z) (Hs : cstr m a cs).

Lemma char_at k : (k ≤ length cs)%nat → m (u32 (a + Z.of_nat k)) = default 0 (cs !! k).
Proof. intros Hk. destruct (c_range _ _ _ Hs). rewrite u32_id by lia. by apply Hs. Qed.

Lemma char_in k : (k < length cs)%nat → ∃ c, cs !! k = Some c ∧ c ≠ 0 ∧ m (u32 (a + Z.of_nat k)) = c ∧ drop k cs = c :: drop (S k) cs.
Proof.
  intros Hk. destruct (lookup_lt_is_Some_2 cs k Hk) as [c Ec]. exists c. split_and!; [done| | |by apply drop_S].
  - by apply (Forall_lookup_1 _ _ _ _ (c_nz _ _ _ Hs) Ec).
  - rewrite char_at by lia. by rewrite Ec.
Qed.
Lemma char_end : m (u32 (a + Z.of_nat (length cs))) = 0.
Proof. rewrite char_at by lia. by rewrite lookup_ge_None_2 by lia. Qed.

Lemma strncmp_spec r : ∀ k, (k ≤ length cs)%nat → Forall (λ c, c ≠ 0) r →
  (strncmp (length r) m (a + Z.of_nat k) r =? 0) = bool_decide (r `prefix_of` drop k cs).
Proof.
  induction r as [|c r IH]; intros k Hk Hr; [symmetry; apply bool_decide_true, prefix_nil|].
  cbn [length strncmp]. change (default 0 (head (c :: r))) with c. change (tail (c :: r)) with r.
  apply Forall_cons in Hr as [Hc Hr]. destruct (decide (k = length cs)) as [->|].
  - rewrite char_end, drop_ge by lia. rewrite (proj2 (Z.eqb_neq 0 c)) by lia. cbn [negb].
    rewrite bool_decide_false; [by apply Z.eqb_neq; lia|]. by intros ?%prefix_nil_not.
  - destruct (char_in k ltac:(lia)) as (x&_&Hx&->&->). destruct (Z.eqb_spec x c) as [->|Hne]; cbn [negb].
    + rewrite (proj2 (Z.eqb_neq c 0)) by done. replace (a + Z.of_nat k + 1) with (a + Z.of_nat (S k)) by lia. rewrite IH by (done || lia).
      apply bool_decide_ext. split; [apply prefix_cons|apply prefix_cons_inv_2].
    + rewrite bool_decide_false; [by apply Z.eqb_neq; lia|]. intros H. by apply prefix_cons_inv_1 in H.
Qed.

(** The first place from [k] on where [find] starts. *)
Definition first_at (find : list Z) (k i : nat) : Prop :=
  (k ≤ i)%nat ∧ find `prefix_of` drop i cs ∧ ∀ j, (k ≤ j < i)%nat → ¬ find `prefix_of` drop j cs.

Lemma find_char_spec c fuel k : c ≠ 0 → (k ≤ length cs)%nat → (length cs < k + fuel)%nat →
  find_char fuel m (a + Z.of_nat k) c = Some None ∧ (∀ j x, (k ≤ j)%nat → cs !! j = Some x → x ≠ c) ∨
  ∃ j, (k ≤ j < length cs)%nat ∧ cs !! j = Some c ∧ find_char fuel m (a + Z.of_nat k) c = Some (Some (a + Z.of_nat (S j))) ∧
    ∀ i x, (k ≤ i < j)%nat → cs !! i = Some x → x ≠ c.
Proof.
  intros Hc. revert k. induction fuel as [|fuel IH]; intros k Hk Hf; [lia|]. cbn [find_char].
  destruct (decide (k = length cs)) as [->|].
  - left. rewrite char_end. split; [done|]. intros j x Hj Hx. apply lookup_lt_Some in Hx. lia.
  - destruct (char_in k ltac:(lia)) as (x&Ex&Hx&->&_). rewrite (proj2 (Z.eqb_neq x 0)) by done.
    destruct (Z.eqb_spec x c) as [->|Hne].
    + right. exists k. split_and!; [lia..|done|do 2 f_equal; lia|lia].
    + replace (a + Z.of_nat k + 1) with (a + Z.of_nat (S k)) by lia. destruct (IH (S k)) as [[E Hno]|(j&Hj&Ej&E&Hno)]; [lia|lia|left|right].
      * split; [done|]. intros j y Hj Ey. destruct (decide (j = k)) as [->|]; [congruence|]. apply (Hno j); [lia|done].
      * exists j. split_and!; [lia..|done|done|]. intros i y Hi Ey. destruct (decide (i = k)) as [->|]; [congruence|]. apply (Hno i); [lia|done].
Qed.

Lemma find_string_spec c rest fuel k : Forall (λ c, c ≠ 0) (c :: rest) → (k ≤ length cs)%nat → (length cs < k + fuel)%nat →
  find_string fuel m (a + Z.of_nat k) c rest = Some 0 ∧ (∀ j, (k ≤ j)%nat → ¬ (c :: rest) `prefix_of` drop j cs) ∨
  ∃ i, first_at (c :: rest) k i ∧ (i < length cs)%nat ∧ find_string fuel m (a + Z.of_nat k) c rest = Some (a + Z.of_nat i).
Proof.
  intros Hr. pose proof (proj1 (Forall_cons _ _ _) Hr) as [Hc Hrest]. revert k. induction fuel as [|fuel IH]; intros k Hk Hf; [lia|]. cbn [find_string].
  assert (Hhead : ∀ j, (c :: rest) `prefix_of` drop j cs → cs !! j = Some c).
  { intros j [l Hl]. rewrite <- (Nat.add_0_r j), <- lookup_drop, Hl. done. }
  pose proof (c_len _ _ _ Hs) as Hlen. pose proof (c_range _ _ _ Hs) as [Ha0 Htop].
  destruct (find_char_spec c string_fuel k Hc Hk) as [[-> Hno]|(j&Hj&Ej&->&Hno)]; [unfold string_fuel; lia|left|].
  { cbn [mbind option_bind]. split; [done|]. intros j Hj Hp%Hhead. by apply (Hno j c). }
  cbn [mbind option_bind]. rewrite strncmp_spec by (done || lia).
  assert (Edrop : drop j cs = c :: drop (S j) cs) by by apply drop_S.
  destruct (bool_decide _) eqn:Eb; [apply bool_decide_eq_true in Eb|apply bool_decide_eq_false in Eb].
  - right. exists j. split_and!; [|lia|do 1 f_equal; rewrite u32_id; lia]. split_and!; [lia|rewrite Edrop; by apply prefix_cons|].
    intros i Hi Hp%Hhead. by apply (Hno i c).
  - assert (Hnot : ∀ i, (k ≤ i < S j)%nat → ¬ (c :: rest) `prefix_of` drop i cs).
    { intros i Hi Hp. destruct (decide (i = j)) as [->|]; [rewrite Edrop in Hp; by apply prefix_cons_inv_2 in Hp|].
      apply Hhead in Hp. apply (Hno i c); [lia|done|done]. }
    destruct (IH (S j)) as [[-> Hn]|(i&(Hi&Hp&Hm)&Hlt&->)]; [lia|lia|left|right].
    + split; [done|]. intros i Hi. destruct (decide (i < S j)%nat); [apply Hnot; lia|apply Hn; lia].
    + exists i. split; [|done]. split_and!; [lia|done|]. intros i' Hi'. destruct (decide (i' < S j)%nat); [apply Hnot; lia|apply Hm; lia].
Qed.

Lemma strstr_spec find : Forall (λ c, c ≠ 0) find → find ≠ [] →
  strstr m a find = Some 0 ∧ (∀ j, ¬ find `prefix_of` drop j cs) ∨ ∃ i, first_at find 0 i ∧ (i < length cs)%nat ∧ strstr m a find = Some (a + Z.of_nat i).
Proof.
  intros Hnz Hne. destruct find as [|c rest]; [done|]. unfold strstr. pose proof (c_len _ _ _ Hs) as Hlen.
  assert (Hf : (length cs < 0 + string_fuel)%nat) by (unfold string_fuel; lia).
  pose proof (find_string_spec c rest string_fuel 0 Hnz (Nat.le_0_l _) Hf) as H. rewrite Z.add_0_r in H.
  destruct H as [[-> Hno]|(i&Hi&Hlt&->)]; [left|right; by exists i]. split; [done|]. intros j. apply Hno. lia.
Qed.

(** The value of decimal digits, after [v]. *)
Definition decimal (v : Z) (ds : list Z) : Z := foldl (λ v d, v * 10 + (d - 48)) v ds.
Definition is_digit (d : Z) : Prop := 48 ≤ d ≤ 57.

(** A value in the loop of [strtoul]: itself, or the greatest one for good. *)
Definition shown (v started : Z) : Z * Z := if v <? 2 ^ 32 then (v, started) else (2 ^ 32 - 1, -1).

Lemma decimal_mono ds v : Forall is_digit ds → 0 ≤ v → v ≤ decimal v ds.
Proof. intros Hd. revert v. induction Hd as [|d ds Hd Hds IH]; intros v Hv; simpl; [lia|]. unfold is_digit in Hd. etransitivity; [|apply IH; lia]. lia. Qed.

Lemma digit_Some d : is_digit d → digit 10 d = Some (d - 48).
Proof.
  unfold is_digit, digit, isdigit. intros Hd. rewrite (proj2 (Z.leb_le 48 d)), (proj2 (Z.leb_le d 57)) by lia. cbn [andb mbind option_bind].
  by rewrite (proj2 (Z.leb_gt 10 (d - 48))) by lia.
Qed.

Lemma digits_spec ds : ∀ fuel k v started, Forall is_digit ds → ds `prefix_of` drop k cs → (k + length ds ≤ length cs)%nat → (length ds < fuel)%nat →
  digit 10 (default 0 (cs !! (k + length ds)%nat)) = None → 0 ≤ v → (started = 1 ∨ started = 0 ∧ ds ≠ []) →
  digits_from fuel m (a + Z.of_nat k) 10 (shown v started).1 (shown v started).2 =
    Some ((shown (decimal v ds) 1).1, (shown (decimal v ds) 1).2, a + Z.of_nat (k + length ds)).
Proof.
  induction ds as [|d ds IH]; intros [|fuel] k v started Hd Hp Hk Hf Hend Hv Hst; try (simpl in Hf; lia); cbn [digits_from].
  - rewrite char_at by (simpl in *; lia). rewrite Nat.add_0_r in *. rewrite Hend. by destruct Hst as [->|[_ ?]].
  - apply Forall_cons in Hd as [Hd Hds]. destruct Hp as [l Hl].
    assert (Ek : cs !! k = Some d) by (rewrite <- (Nat.add_0_r k), <- lookup_drop, Hl; done).
    assert (Hnext : ds `prefix_of` drop (S k) cs).
    { exists l. rewrite <- Nat.add_1_r, <- drop_drop, Hl. done. }
    rewrite char_at by (simpl in *; lia). rewrite Ek. cbn [default from_option id]. rewrite digit_Some by done.
    assert (Hstep : digits_from fuel m (a + Z.of_nat (S k)) 10 (shown (v * 10 + (d - 48)) 1).1 (shown (v * 10 + (d - 48)) 1).2 =
      Some ((shown (decimal (v * 10 + (d - 48)) ds) 1).1, (shown (decimal (v * 10 + (d - 48)) ds) 1).2, a + Z.of_nat (k + length (d :: ds)))).
    { unfold is_digit in Hd. rewrite (IH fuel (S k)); [do 2 f_equal; simpl; lia|done|done|simpl in *; lia|simpl in *; lia| |lia|by left].
      rewrite <- Hend. do 3 f_equal. simpl. lia. }
    change (decimal v (d :: ds)) with (decimal (v * 10 + (d - 48)) ds). rewrite <- Hstep. clear Hstep.
    replace (a + Z.of_nat k + 1) with (a + Z.of_nat (S k)) by lia. unfold is_digit in Hd. change ((2 ^ 32 - 1) / 10) with 429496729. change ((2 ^ 32 - 1) mod 10) with 5.
    unfold shown at 1 2 3 4 5 6. destruct (Z.ltb_spec v (2 ^ 32)) as [Hlt|Hge]; cbn [fst snd].
    + assert (Hns : (started <? 0) = false) by (destruct Hst as [->|[-> _]]; done). rewrite Hns.
      destruct (Z.ltb_spec (v * 10 + (d - 48)) (2 ^ 32)) as [Hfit|Hbig].
      * replace ((429496729 <? v) || ((v =? 429496729) && (5 <? d - 48))) with false by lia. rewrite (u32_id (v * 10)), u32_id by lia.
        unfold shown. rewrite (proj2 (Z.ltb_lt _ _) Hfit). done.
      * replace ((429496729 <? v) || ((v =? 429496729) && (5 <? d - 48))) with true by lia.
        unfold shown. rewrite (proj2 (Z.ltb_ge _ _) Hbig). done.
    + cbn. unfold shown. rewrite (proj2 (Z.ltb_ge (v * 10 + (d - 48)) (2 ^ 32))) by lia. done.
Qed.
End string.

Lemma skip_space_none fuel m s : (0 < fuel)%nat → isspace (m (u32 s)) = false → skip_space fuel m s = Some s.
Proof. intros Hf E. destruct fuel; [lia|]. cbn [skip_space]. by rewrite E. Qed.

(** A number without blanks and sign in front. *)
Lemma strtoul_spec m a cs k d ds : cstr m a cs → Forall is_digit (d :: ds) → (d :: ds) `prefix_of` drop k cs → (k + length (d :: ds) ≤ length cs)%nat →
  digit 10 (default 0 (cs !! (k + length (d :: ds))%nat)) = None →
  strtoul m (a + Z.of_nat k) 10 = Some (decimal 0 (d :: ds) `min` (2 ^ 32 - 1), a + Z.of_nat (k + length (d :: ds))).
Proof.
  intros Hs Hd Hp Hk Hend. pose proof (c_len _ _ _ Hs) as Hlen. pose proof (c_range _ _ _ Hs) as [Ha Htop].
  assert (Ek : m (u32 (a + Z.of_nat k)) = d).
  { rewrite (char_at m a cs Hs) by lia. destruct Hp as [l Hl]. by rewrite <- (Nat.add_0_r k), <- lookup_drop, Hl. }
  pose proof (Forall_inv Hd) as Hd0. unfold is_digit in Hd0.
  unfold strtoul. assert (HF : (length cs < string_fuel)%nat) by (unfold string_fuel; lia). generalize dependent string_fuel. intros F HF.
  assert (Esp : skip_space F m (a + Z.of_nat k) = Some (a + Z.of_nat k)).
  { apply skip_space_none; [lia|]. rewrite Ek. unfold isspace. lia. }
  rewrite Esp. cbn [mbind option_bind]. rewrite Ek. rewrite (proj2 (Z.eqb_neq d 45)), (proj2 (Z.eqb_neq d 43)) by lia. cbn [orb andb].
  change (10 =? 0) with false. change (10 =? 16) with false. cbn [orb andb]. change (10 =? 0) with false. cbn match.
  assert (E : digits_from F m (a + Z.of_nat k) 10 (shown 0 0).1 (shown 0 0).2 = _)
    by (apply (digits_spec m a cs Hs (d :: ds)); [done|done|done|lia|done|lia|by right]).
  change (shown 0 0).1 with 0 in E. change (shown 0 0).2 with 0 in E. rewrite E. clear E.
  cbn [mbind option_bind]. unfold shown. rewrite u32_id by lia. destruct (Z.ltb_spec (decimal 0 (d :: ds)) (2 ^ 32)); cbn [fst snd]; do 2 f_equal; lia.
Qed.

Section options.
Context `{Kickstart_image}.

(** The unit behind a number, in words of 32 bits. *)
Definition scaled (c v : Z) : Z :=
  if c =? 75 then u32 (v * 1024) else if c =? 77 then u32 (v * (1024 * 1024)) else if c =? 71 then u32 (v * (1024 * 1024 * 1024)) else v.

Lemma on_string_done {A} (f : memory → option A) s a : f (phys s) = Some a → on_string f s = Done a s.
Proof. intros E. unfold on_string. rewrite (bind_done (get phys) _ s (phys s) s) by done. by rewrite E. Qed.

(** C15: An option that is not on the command line is not set; the first one with the name,
    an equals sign and decimal digits is set to the number, or to the greatest word for a
    number that does not fit, times its unit. *)
Theorem parse_num_contract s name cs :
  cstr (phys s) (load 4 (phys s) (cmdline_place (mbi s))) cs → Forall (λ c, c ≠ 0) name →
  ((∀ j, ¬ (name ++ [61]) `prefix_of` drop j cs) → parse_num name s = Done None s) ∧
  ∀ pre d ds post, cs = pre ++ (name ++ [61]) ++ (d :: ds) ++ post → Forall is_digit (d :: ds) → digit 10 (default 0 (head post)) = None →
    (∀ j, (j < length pre)%nat → ¬ (name ++ [61]) `prefix_of` drop j cs) →
    parse_num name s = Done (Some (scaled (default 0 (head post)) (decimal 0 (d :: ds) `min` (2 ^ 32 - 1)))) s.
Proof.
  intros Hs Hname. set (line := load 4 _ _) in *.
  assert (Hnz : Forall (λ c, c ≠ 0) (name ++ [61])) by (apply Forall_app; split; [done|by repeat constructor]).
  assert (Hne : name ++ [61] ≠ []) by (by destruct name).
  unfold parse_num. rewrite (bind_done (get mbi) _ s (mbi s) s) by done. fold line.
  destruct (strstr_spec (phys s) line cs Hs (name ++ [61]) Hnz Hne) as [[E Hno]|(i&(_&Hp&Hmin)&Hi&E)];
    rewrite (bind_done (on_string _) _ s _ s (on_string_done _ s _ E)).
  - split; [done|]. intros pre d ds post -> _ _ _. destruct (Hno (length pre)). rewrite drop_app_length. by apply prefix_app_r.
  - split; [intros Hno; by destruct (Hno i)|]. intros pre d ds post -> Hd Hpost Hfirst.
    assert (Ei : i = length pre).
    { destruct (Nat.lt_trichotomy i (length pre)) as [Hlt|[->|Hgt]]; [by destruct (Hfirst i)|done|].
      destruct (Hmin (length pre)); [lia|]. rewrite drop_app_length. by apply prefix_app_r. }
    subst i. pose proof (c_range _ _ _ Hs) as [Ha Htop]. rewrite (proj2 (Z.eqb_neq _ 0)) by lia.
    set (cs := pre ++ _) in *. set (k := (length pre + length (name ++ [61%Z]))%nat).
    assert (Edrop : drop k cs = (d :: ds) ++ post) by (unfold cs, k; by rewrite app_assoc, <- length_app, drop_app_length).
    assert (Hlen : length cs = (k + length (d :: ds) + length post)%nat) by (unfold cs, k; rewrite !length_app; lia).
    assert (Eend : cs !! (k + length (d :: ds))%nat = head post).
    { rewrite <- lookup_drop, Edrop, lookup_app_r, Nat.sub_diag by lia. by destruct post. }
    replace (line + Z.of_nat (length pre) + Z.of_nat (length name) + 1) with (line + Z.of_nat k) by (unfold k; rewrite length_app; simpl; lia).
    assert (En : strtoul (phys s) (line + Z.of_nat k) 10 = Some (decimal 0 (d :: ds) `min` (2 ^ 32 - 1), line + Z.of_nat (k + length (d :: ds)))).
    { apply (strtoul_spec (phys s) line cs); [done|done|rewrite Edrop; by apply prefix_app_r|lia|by rewrite Eend]. }
    rewrite (bind_done (on_string _) _ s _ s (on_string_done _ s _ En)), (bind_done (get phys) _ s (phys s) s) by done.
    rewrite (char_at (phys s) line cs Hs) by lia. rewrite Eend. done.
Qed.
End options.
