(* ===== verification/Witness.v ===== *)
(** The theorems at the instances of RamDisk.v: their hypotheses hold in the
    state of a server that has just started, or in one a few steps from it. *)

From S2P Require Import Prelude Machine State Monad Utility Process Device SuperTable Cache CacheInv DiskView Flush CacheSpec CacheContract Bitmap BitmapSpec RamDisk Inode InodeSpec InodeContract FileMap FileMapSpec Path PathSpec Lock Main ProcessSpec LockSpec.

Lemma get_block_contract_witness :
  wp (get_block 256 7 NORMAL)
    (λ bp s', cache_ok ram_tables ram_dev s' ∧ transparent ram_tables ram_dev ram_state s' ∧
       keeps ram_state s' ∧ uses bp 1 ram_state s' ∧ got ram_tables ram_state s' 256 7 bp) ram_state.
Proof.
  apply (get_block_contract ram_dev ram_state 256 7).
  - apply ram_cache_ok.
  - done.
  - apply ram_addressable. lia.
  - apply has_free_available, ram_has_free.
Defined.

Lemma ram_geometry map :
  map_start ram_super map = (if map is IMAP then 2 else 3) ∧ map_blocks ram_super map = 1 ∧
  map_size ram_super map = (if map is IMAP then 41 else 91) ∧ bits_per_block ram_super = 8192.
Proof. by destruct map. Qed.

Lemma ram_map_ok map : map_ok ram_tables ram_dev ram_super map.
Proof.
  destruct (ram_geometry map) as (E1 & E2 & E3 & E4).
  split; rewrite ?E1, ?E2, ?E3, ?E4; [done|done|done|destruct map; lia|lia|].
  intros j Hj. apply ram_addressable. destruct map; lia.
Qed.

Lemma ram_bit_0 map : bit_at ram_state ram_super map 0 = true.
Proof. by destruct map. Qed.
Lemma ram_bit_9 map : bit_at ram_state ram_super map 9 = false.
Proof. by destruct map. Qed.

Lemma alloc_bit_contract_witness :
  wp (alloc_bit 0 ZMAP 50)
    (λ b s', allocated ram_tables ram_dev ram_super ZMAP ram_state s' b) ram_state.
Proof.
  apply (alloc_bit_contract ram_dev ram_state 0 ram_super ZMAP 50).
  - done.
  - done.
  - apply ram_map_ok.
  - apply ram_cache_ok.
  - apply ram_has_free.
  - done.
  - apply ram_bit_0.
Defined.

Lemma free_bit_contract_witness :
  wp (free_bit 0 IMAP 0) (λ _ s', cache_ok ram_tables ram_dev s' ∧ has_free s' ∧
    bit_changed ram_tables ram_dev ram_super IMAP ram_state s' 0 false) ram_state.
Proof.
  apply (free_bit_contract ram_dev ram_state 0 ram_super IMAP 0).
  - done.
  - done.
  - apply ram_map_ok.
  - apply ram_cache_ok.
  - apply ram_has_free.
  - done.
  - apply ram_bit_0.
Defined.

Lemma free_bit_unused_witness : ∃ s', free_bit 0 IMAP 9 ram_state = Panic NO_NUM s'.
Proof.
  apply (free_bit_unused ram_dev ram_state 0 ram_super IMAP 9).
  - done.
  - done.
  - apply ram_map_ok.
  - apply ram_cache_ok.
  - apply ram_has_free.
  - done.
  - apply ram_bit_9.
Defined.

Lemma flushall_contract_witness :
  wp (flushall 256) (λ _ s', cache_ok ram_tables ram_dev s' ∧
    transparent ram_tables ram_dev ram_state s' ∧
    (∀ i b, bufs (cache s') !! i = Some b → b_dev b = 256 → b_dirt b = CLEAN) ∧
    (∀ blk, disk_block ram_tables (kern s') 256 blk =
       view ram_tables (kern ram_state) (bufs (cache ram_state)) 256 blk) ∧
    (∀ dev' blk, ram_dev dev' → dev' ≠ 256 →
       disk_block ram_tables (kern s') dev' blk =
         disk_block ram_tables (kern ram_state) dev' blk)) ram_state.
Proof. apply (flushall_contract ram_dev ram_state 256); [apply ram_cache_ok|done]. Defined.

(** * More of the cache *)

(** A pool whose buffers are all in use. *)
Definition full_cache : cache_state :=
  ram_cache <| bufs ::= fmap (λ b : buf, b <| b_count := 1 |>) |> <| front := None |>
    <| rear := None |> <| bufs_in_use := 6 |>.
Definition full_state : st := ram_state <| cache := full_cache |>.

Lemma full_lookup i b : bufs full_cache !! i = Some b → b = (ram_buf i) <| b_count := 1 |> ∧ (i < 6)%nat.
Proof.
  change (bufs full_cache) with ((λ b : buf, b <| b_count := 1 |>) <$> bufs (cache ram_state)).
  rewrite list_lookup_fmap. by intros (b0 & [-> Hi]%ram_lookup & ->)%fmap_Some.
Qed.

Lemma full_pool_ok : pool_ok None full_cache [] ram_chains.
Proof.
  split.
  - done.
  - done.
  - split; [constructor|done..].
  - intros i b [-> Hi]%full_lookup. split; [done|]. split; [by intros ?%not_elem_of_nil|by intros [? _]].
  - done.
  - intros h Hh. change (h < 4)%nat in Hh. unfold ram_chains.
    do 4 (destruct h as [|h]; [split; [done|apply ram_chain_NoDup|by vm_compute; repeat split]|]).
    lia.
  - intros i b h [-> Hi]%full_lookup Hh. unfold ram_chains. change (hash _) with 0%nat.
    case_decide; [subst h; rewrite elem_of_seq; split; [done|intros _; simpl; lia]|].
    split; [by intros ?%not_elem_of_nil|by intros [-> _]].
Qed.

Lemma get_block_no_buffer_witness : get_block 256 7 NORMAL full_state = Panic (Z.of_nat NR_BUFS) full_state.
Proof.
  apply (get_block_no_buffer full_state [] ram_chains 256 7 NORMAL).
  - apply full_pool_ok.
  - done.
  - intros i b [-> _]%full_lookup. split; [done|]. by intros [? _].
Defined.

(** A block in the hands of a client. *)
Lemma ram_got : ∃ s i b, cache_ok ram_tables ram_dev s ∧ tabs s = ram_tables ∧
  bufs (cache s) !! i = Some b ∧ 0 < b_count b ∧ named 256 7 b.
Proof.
  assert (wp (get_block 256 7 NORMAL) (λ bp s', cache_ok ram_tables ram_dev s' ∧
    ∃ b, bufs (cache s') !! bp = Some b ∧ 0 < b_count b ∧ named 256 7 b) ram_state) as H.
  { eapply wp_mono.
    - apply (get_block_normal ram_tables ram_dev); [apply ram_cache_ok|done|apply ram_addressable; lia|].
      apply has_free_available, ram_has_free.
    - intros bp s' (Hok & _ & _ & _ & b & Hb & Hn & Hc & _). split; [done|]. by exists b. }
  apply wp_unfold in H as (bp & s & _ & Hok & b & Hb & Hc & Hn). exists s, bp, b.
  split_and!; [done|apply Hok|done|done|apply Hn..].
Qed.

Lemma put_block_contract_witness : ∃ s i,
  wp (put_block (Some i) DIRECTORY_BLOCK) (λ _ s', cache_ok (tabs s) ram_dev s' ∧
    transparent (tabs s) ram_dev s s' ∧ content <$> bufs (cache s') = content <$> bufs (cache s) ∧
    uses i (-1) s s') s.
Proof.
  destruct ram_got as (s & i & b & Hok & Ht & Hb & Hc & _). exists s, i.
  apply (put_block_contract ram_dev s i b).
  - by rewrite Ht.
  - done.
  - done.
  - done.
Defined.

(** The memory of the server before [buf_pool]. *)
Definition zero_state : st := ram_state <| cache ::= λ c, c <| buf_hash := replicate 4 None |> |>.

Lemma buf_pool_contract_witness :
  wp buf_pool (λ _ s', same_rest zero_state s' ∧
    pool_ok None (cache s') (seq 0 NR_BUFS) pool_chains ∧
    ∀ i b, bufs (cache s') !! i = Some b → b_dev b = NO_DEV) zero_state.
Proof.
  apply (buf_pool_contract zero_state).
  - done.
  - done.
  - by intros i b [-> _]%ram_lookup.
Defined.

Lemma invalidate_contract_witness :
  wp (invalidate 256) (λ _ s', cache_ok ram_tables ram_dev s' ∧ same_rest ram_state s' ∧
    (∀ blk, view ram_tables (kern s') (bufs (cache s')) 256 blk =
       disk_block ram_tables (kern ram_state) 256 blk) ∧
    (∀ dev' blk, ram_dev dev' → dev' ≠ 256 →
       view ram_tables (kern s') (bufs (cache s')) dev' blk =
         view ram_tables (kern ram_state) (bufs (cache ram_state)) dev' blk)) ram_state.
Proof. apply (invalidate_contract ram_dev ram_state 256); [apply ram_cache_ok|done]. Defined.

(** * Inodes and files *)

(** Slot 0 has a regular file of two blocks, inode 5; one process has it. *)
Definition ram_file : inode :=
  Inode 33188 1 0 0 2048 0 0 0 [12; 13; 0; 0; 0; 0; 0; 0; 0; 0] 256 5 1 7 256 (Some 0%nat) DIRTY
    false false false 1.
Definition file_tables : tables := with_inode 0 ram_file ram_tables.
Definition file_state : st := ram_state <| tabs := file_tables |>.

Lemma file_cache_ok : cache_ok file_tables ram_dev file_state.
Proof. exact (cache_ok_with_inode ram_tables ram_dev ram_state 0 ram_file ram_cache_ok). Qed.

Lemma file_has_free : has_free file_state.
Proof. by apply (has_free_same ram_state); [|apply ram_has_free]. Qed.

Lemma file_place num : 0 < num ≤ 40 → inode_place file_tables ram_dev 256 0 ram_super num.
Proof.
  intros Hnum. split; [done|done|done|lia|done|].
  change (first_inode_block ram_super) with 4. change (per_block ram_super) with 16.
  apply (addressable_devices ram_tables); [done|]. apply ram_addressable. zlia.
Qed.

Lemma ram_clock_ok : clock_ok.
Proof. by intros k. Qed.

Lemma file_fits : inode_fits ram_super ram_file.
Proof. split; [|done]. split; try (simpl; lia); [|done]. simpl. repeat constructor; lia. Qed.

Lemma rw_inode_write_contract_witness :
  wp (rw_inode 0 WRITING) (λ _ s', ∃ now, let r1 := stamped now (ram_file <| i_sp := Some 0%nat |>) in
    cache_ok (tabs s') ram_dev s' ∧ has_free s' ∧ glo s' = glo file_state ∧
    tabs s' = with_inode 0 (r1 <| i_dirt := CLEAN |>) (tabs file_state) ∧
    (∀ r0, ∃ r', disk_inode s' 256 ram_super 5 r0 = Some r' ∧ same_file ram_super r1 r') ∧
    (∀ num' r0, inode_place (tabs file_state) ram_dev 256 0 ram_super num' → num' ≠ 5 →
       disk_inode s' 256 ram_super num' r0 = disk_inode file_state 256 ram_super num' r0) ∧
    (∀ dev' blk, ram_dev dev' → (dev', blk) ≠ (256, inode_block ram_super 5) →
       dview s' dev' blk = dview file_state dev' blk)) file_state.
Proof.
  apply (rw_inode_write_contract ram_dev file_state 0 ram_file 256 0 ram_super 5).
  - apply ram_clock_ok.
  - done.
  - done.
  - done.
  - apply file_fits.
  - by apply file_place.
  - done.
  - apply file_cache_ok.
  - apply file_has_free.
Defined.

Lemma rw_inode_read_contract_witness :
  wp (rw_inode 0 READING) (λ _ s', ∃ r',
    disk_inode file_state 256 ram_super 5 (ram_file <| i_sp := Some 0%nat |>) = Some r' ∧
    tabs s' = with_inode 0 (r' <| i_dirt := CLEAN |>) (tabs file_state) ∧ glo s' = glo file_state ∧
    cache_ok (tabs s') ram_dev s' ∧ has_free s' ∧
    ∀ dev blk, ram_dev dev → dview s' dev blk = dview file_state dev blk) file_state.
Proof.
  apply (rw_inode_read_contract ram_dev file_state 0 ram_file 256 0 ram_super 5).
  - done.
  - done.
  - done.
  - by apply file_place.
  - apply file_cache_ok.
  - apply file_has_free.
Defined.

Lemma file_inodes_ok : inodes_ok (inodes file_tables).
Proof.
  assert (∀ i r, inodes file_tables !! i = Some r → 0 < i_count r → i = 0%nat) as H.
  { change (inodes file_tables) with (<[0%nat := ram_file]> (replicate NR_INODES no_inode)).
    intros i r [(<- & _)|[_ [-> _]%lookup_replicate]]%list_lookup_insert_Some; [done|]. by intros ?. }
  intros i j r r' Hi Hj Hci Hcj _ _. rewrite (H i r), (H j r'); done.
Qed.

Lemma get_inode_contract_witness :
  wp (get_inode 256 7) (λ res s',
    cache_ok (tabs s') ram_dev s' ∧ has_free s' ∧ inodes_ok (inodes (tabs s')) ∧
    (∀ dev blk, ram_dev dev → dview s' dev blk = dview file_state dev blk) ∧
    match res with
    | Some rip => inode_got file_state s' 256 ram_super 7 rip
    | None => s' = file_state <| glo ::= λ g, g <| err_code := ENFILE |> |> ∧
        ∀ r, r ∈ inodes (tabs file_state) → 0 < i_count r ∧ ¬ in_use 256 7 r
    end) file_state.
Proof.
  apply (get_inode_contract ram_dev file_state 256 0 ram_super 7).
  - by apply file_place.
  - apply file_cache_ok.
  - apply file_has_free.
  - apply file_inodes_ok.
Defined.

Lemma ram_file_ok : file_ok file_state ram_dev 0 ram_super ram_file.
Proof.
  assert (∀ z, z ∈ i_zone ram_file → zone_ok ram_super z) as Hzones.
  { simpl. intros z Hz. rewrite !elem_of_cons in Hz.
    repeat destruct Hz as [->|Hz]; try (by left); try (right; simpl; lia). by apply not_elem_of_nil in Hz. }
  assert (∀ i, entry_at file_state 256 ram_super NO_ZONE i = NO_ZONE) as Hhole by done.
  split.
  - done.
  - done.
  - done.
  - done.
  - done.
  - done.
  - intros z Hz. apply (addressable_devices ram_tables); [done|]. apply ram_addressable.
    simpl in Hz. assert (zone_block z (s_log_zone_size ram_super) = z) as ->; [|lia].
    apply u32_id. change (0 ≤ z < 2 ^ 32). lia.
  - done.
  - intros z i [Hz|(z2 & Hz2 & Hz)] Hne _; [by injection Hz as <-|].
    injection Hz2 as <-. destruct Hz as [->|(j & _ & ->)]; [done|]. by rewrite Hhole in Hne.
Qed.

Lemma read_map_contract_witness :
  wp (read_map 0 1500) (λ b s', cache_ok file_tables ram_dev s' ∧ has_free s' ∧
    transparent file_tables ram_dev file_state s' ∧ b = file_block file_state ram_super ram_file 1500) file_state.
Proof.
  apply (read_map_contract ram_dev file_state 0 ram_super 0 ram_file 1500).
  - apply ram_file_ok.
  - done.
  - apply file_cache_ok.
  - apply file_has_free.
  - done.
  - done.
Defined.

(** The second block of the file. *)
Lemma ram_file_block : file_block file_state ram_super ram_file 1500 = 13.
Proof. done. Qed.

(** * Paths and directories *)

(** "/ab/" and the NUL. *)
Definition ram_path : list Z := [47; 97; 98; 47; 0].

Lemma parse_name_spec_witness : ∃ a comp b c rest, path_parts ram_path a comp b c rest ∧
  parse_name ram_path = Some (
    if Z.of_nat (a + length comp + b) <? PATH_MAX then Some (c :: rest) else None,
    take (Z.to_nat NAME_MAX) (take (Z.to_nat (Z.max 0 (PATH_MAX - Z.of_nat a))) comp)).
Proof. apply (parse_name_spec ram_path). unfold ram_path, NUL. rewrite !elem_of_cons. tauto. Defined.

(** A block with the entry "a" of inode 3. *)
Definition ram_dir_block : list Z := [3; 0; 0; 0; 97] ++ replicate 123 0.

Lemma scan_block_spec_witness :
  scan_block LOOK_UP [97] ram_dir_block 2 2 0 0 = Some (
    match list_find (λ e, ends_scan LOOK_UP [97] e = true) (live_slots ram_dir_block 2 2 0) with
    | Some (j, _) => (scan_found LOOK_UP j, 0 + Z.of_nat j + 1)
    | None =>
        let m := length (live_slots ram_dir_block 2 2 0) in
        if decide (m < 2)%nat
        then (if decide (LOOK_UP = ENTER) then Room m else Scanned, 0 + Z.of_nat m + 1)
        else (Scanned, 0 + Z.of_nat 2)
    end).
Proof. apply (scan_block_spec LOOK_UP [97] ram_dir_block 2 2 0); [done|done|simpl; lia]. Defined.

Lemma scan_block_found : scan_block LOOK_UP [97] ram_dir_block 2 2 0 0 = Some (Matched 0, 1).
Proof. done. Qed.



(** * Processes *)

(** Process 9 hangs on a pipe. *)
Definition waiting_proc : fproc := no_fproc <| fp_suspended := true |> <| fp_task := 65 |> <| fp_fd := 515 |>.
Definition waiting_state : st :=
  ram_state <| tabs ::= λ t, t <| fprocs ::= λ l, <[9%nat := waiting_proc]> l |> |>.

Lemma no_fproc_lookup i p : fprocs ram_tables !! i = Some p → p = no_fproc.
Proof. by intros [-> _]%lookup_replicate. Qed.

Lemma ram_reviving_ok : reviving_ok ram_state.
Proof. split; [done|done|]. by intros i p ->%no_fproc_lookup. Qed.

Lemma waiting_reviving_ok : reviving_ok waiting_state.
Proof.
  split; [done|done|]. change (fprocs (tabs waiting_state)) with (<[9%nat := waiting_proc]> (fprocs ram_tables)).
  by intros i p [(_ & <- & _)|[_ ->%no_fproc_lookup]]%list_lookup_insert_Some.
Qed.

Lemma revive_contract_witness :
  wp (revive 9 0) (λ _ s', reviving_ok s' ∧
    tabs s' = tabs (with_proc 9 (woken waiting_proc 0) waiting_state) ∧ cache s' = cache waiting_state ∧
    (if answered waiting_proc then
       m_type (m_out (glo s')) = revive_result waiting_proc 0 ∧
       kern s' = (k_send 9 (m_out (glo s')) (kern waiting_state)).2
     else kern s' = kern waiting_state ∧ m_out (glo s') = m_out (glo waiting_state)) ∧
    glo s' = (glo waiting_state) <| reviving := reviving (glo s') |> <| m_out := m_out (glo s') |>) waiting_state.
Proof.
  apply (revive_contract waiting_state 9 waiting_proc 0).
  - apply waiting_reviving_ok.
  - unfold NR_PROCS. lia.
  - done.
Defined.

(** Process 9 is to be restarted. *)
Definition marked_proc : fproc := waiting_proc <| fp_revived := true |>.
Definition marked_state : st :=
  ram_state <| tabs ::= λ t, t <| fprocs ::= λ l, <[9%nat := marked_proc]> l |> |>
    <| glo ::= λ g, g <| reviving := 1 |> |>.

Lemma marked_reviving_ok : reviving_ok marked_state.
Proof.
  split; [done|done|]. change (fprocs (tabs marked_state)) with (<[9%nat := marked_proc]> (fprocs ram_tables)).
  by intros i p [(_ & <- & _)|[_ ->%no_fproc_lookup]]%list_lookup_insert_Some.
Qed.

Lemma get_work_contract_witness :
  wp get_work (λ _ s', reviving_ok s' ∧ ∃ i p, fprocs (tabs marked_state) !! i = Some p ∧ revived p ∧
    (∀ j q, (j < i)%nat → fprocs (tabs marked_state) !! j = Some q → ¬ revived q) ∧
    restarted marked_state s' i p) marked_state.
Proof. apply (get_work_contract marked_state); [apply marked_reviving_ok|done]. Defined.

Lemma suspend_revive_restart_witness :
  wp (suspend XPIPE) (λ _ s1, reviving_ok s1 ∧ ∀ s2, kept_slot 9 s1 s2 →
    wp (revive (Z.of_nat 9) 0) (λ _ s3, reviving_ok s3 ∧ reviving (glo s3) ≠ 0 ∧ ∀ s4, kept_slot 9 s3 s4 →
      (∀ j q, (j < 9)%nat → fprocs (tabs s4) !! j = Some q → ¬ revived q) →
      wp get_work (λ _ s5, reviving_ok s5 ∧ reviving (glo s5) = reviving (glo s4) - 1 ∧
        who (glo s5) = Z.of_nat 9 ∧ call_nr (glo s5) = call_nr (glo ram_state) ∧
        m1_i1 (m_in (glo s5)) = m1_i1 (m_in (glo ram_state)) ∧ m1_p1 (m_in (glo s5)) = m1_p1 (m_in (glo ram_state)) ∧
        m1_i2 (m_in (glo s5)) = m1_i2 (m_in (glo ram_state)) ∧
        ∃ p', fprocs (tabs s5) !! 9%nat = Some p' ∧ fp_suspended p' = false ∧ fp_revived p' = false) s4) s2) ram_state.
Proof.
  apply (suspend_revive_restart ram_state 9 no_fproc XPIPE 0).
  - apply ram_reviving_ok.
  - done.
  - done.
  - done.
  - by left.
  - done.
  - done.
Defined.

(** The message of another call comes in between. *)
Lemma restart_after_message :
  wp (modify (λ s, s <| glo ::= λ g, g <| m_in ::= λ m, m <| m1_i1 := 3 |> <| m1_p1 := 4096 |> <| m1_i2 := 77 |> |> <| call_nr := READ |> |>);;
      suspend XPIPE;;
      modify (λ s, s <| glo ::= λ g, g <| m_in ::= λ m, m <| m1_i1 := 5 |> <| m1_p1 := 0 |> <| m1_i2 := 1 |> |> <| call_nr := WRITE |> |>);;
      revive 9 0;; get_work)
    (λ _ s, (call_nr (glo s), m1_i1 (m_in (glo s)), m1_p1 (m_in (glo s)), m1_i2 (m_in (glo s))) = (READ, 3, 4096, 77)) ram_state.
Proof. by vm_compute. Qed.

(** * Locks *)

Lemma lock_region_spec_witness :
  lock_region 100 (Flock F_RDLCK SEEK_CUR 4294967286 0 0) =
    let first := 100 + i32 4294967286 in
    if decide (0 ≤ first ∧ first + Z.max 0 (0 - 1) < 2 ^ 32)
    then Some (first, if 0 =? 0 then MAX_FILE_POS else first + 0 - 1) else None.
Proof. by apply (lock_region_spec 100 (Flock F_RDLCK SEEK_CUR 4294967286 0 0)). Defined.

(** Process 9 asks for the first ten bytes of the file in slot 0, open through
    filp 0, with a request of type [ty]. *)
Definition lock_state (ty : Z) (l : list file_lock) (nr : Z) : st :=
  ram_state
    <| tabs := file_tables <| filps ::= λ fs, <[0%nat := Filp 6 2 1 (Some 0%nat) 0 0 0 0]> fs |>
                 <| file_locks := l |> |>
    <| glo ::= λ g, g <| nr_locks := nr |> <| m_in := blank_message <| in_name1 := ty |> |> |>.
Definition lock_request (ty : Z) : flock := Flock ty SEEK_SET 0 10 0.

Lemma lock_state_call ty l nr req :
  ty = F_RDLCK ∨ ty = F_WRLCK ∨ (ty = F_UNLCK ∧ req ≠ F_GETLK) →
  lock_call (lock_state ty l nr) 0 req (lock_request ty) 0 0 9 no_fproc.
Proof.
  intros Hty. split; [|done| |done|done].
  - eexists. split; [done|]. by destruct Hty as [-> |[-> |[-> _]]].
  - exists (Filp 6 2 1 (Some 0%nat) 0 0 0 0), ram_file, 0. split_and!; try done. by left.
Qed.

Definition no_locks : list file_lock := replicate NR_LOCKS no_lock.

Lemma no_locks_ok : locks_ok no_locks 0.
Proof.
  assert (∀ i lk, no_locks !! i = Some lk → ¬ used lk) as H
    by (by intros i lk [-> _]%lookup_replicate []).
  split; [done|done| |].
  - intros i lk Hl Hu. by destruct (H i lk).
  - intros ty ty' ino pid pid' pos (i & lk & Hl & Hu & _). by destruct (H i lk).
Qed.

(** The process of pid 3 has the bytes 5 .. 20. *)
Definition other_lock : file_lock := FileLock F_WRLCK 3 (Some 0%nat) 5 20.
Definition one_lock : list file_lock := <[2%nat := other_lock]> no_locks.

Lemma one_lock_ok : locks_ok one_lock 1.
Proof.
  apply (locks_ok_insert no_locks 0 2 no_lock other_lock no_locks_ok); [done| |].
  - intros _. split; [by right|simpl; lia|done].
  - assert (∀ ty ino pid pos, held one_lock ty ino pid pos → pid = 3) as H.
    { intros ty ino pid pos (i & lk & Hl & Hu & _ & _ & <- & _).
      apply list_lookup_insert_Some in Hl as [(_ & <- & _)|[_ [-> _]%lookup_replicate]]; [done|by destruct Hu]. }
    intros ty ty' ino pid pid' pos ->%H ->%H. done.
Qed.

Lemma lock_set_contract_witness :
  let s := lock_state F_RDLCK no_locks 0 in
  wp (lock_op 0 F_SETLK) (λ r s',
    (r = EAGAIN ∧ s' = s ∧ ∃ j lk, locks s !! j = Some lk ∧ blocks F_RDLCK (Some 0%nat) 0 9 0 lk) ∨
    ((∀ j lk, locks s !! j = Some lk → ¬ blocks F_RDLCK (Some 0%nat) 0 9 0 lk) ∧
     ((r = ENOLCK ∧ s' = s ∧ nr_locks (glo s) = Z.of_nat NR_LOCKS) ∨
      (r = OK ∧ locks_only s s' ∧ st_locks_ok s' ∧ ∀ ty ino pid pos, held (locks s') ty ino pid pos ↔
         held (locks s) ty ino pid pos ∨
         (ty = F_RDLCK ∧ ino = Some 0%nat ∧ pid = 0 ∧ 0 ≤ pos ≤ 9))))) s.
Proof.
  apply (lock_set_contract (lock_state F_RDLCK no_locks 0) 0 (lock_request F_RDLCK) 0 0 9 no_fproc).
  - apply lock_state_call. by left.
  - done.
  - apply no_locks_ok.
Defined.

Lemma lock_reviving_ok ty l nr : reviving_ok (lock_state ty l nr).
Proof. split; [done|done|]. by intros i p ->%no_fproc_lookup. Qed.

Lemma lock_wait_contract_witness :
  let s := lock_state F_WRLCK one_lock 1 in
  wp (lock_op 0 F_SETLKW) (λ r s', r = SUSPEND ∧ reviving_ok s' ∧ locks s' = locks s ∧
    nr_locks (glo s') = nr_locks (glo s) ∧
    ∃ p', fprocs (tabs s') !! fp (glo s) = Some p' ∧ waits_for_lock p' = true ∧
      suspended_in (fp (glo s)) (m_in (glo s)) (call_nr (glo s)) p') s.
Proof.
  apply (lock_wait_contract (lock_state F_WRLCK one_lock 1) 0 (lock_request F_WRLCK) 0 0 9 no_fproc 2 other_lock).
  - apply lock_state_call. by right; left.
  - done.
  - apply one_lock_ok.
  - apply lock_reviving_ok.
  - done.
  - split_and!; try done. by intros [].
  - done.
  - done.
  - done.
Defined.

Lemma lock_clear_contract_witness :
  let s := lock_state F_UNLCK one_lock 1 in
  wp (lock_op 0 F_SETLK) (λ r s', st_locks_ok s' ∧ reviving_ok s' ∧
    (∀ ty ino pid pos, ¬ inside (Some 0%nat) 0 9 ino pos →
       held (locks s') ty ino pid pos ↔ held (locks s) ty ino pid pos) ∧
    ((r = ENOLCK ∧ nr_locks (glo s') = Z.of_nat NR_LOCKS) ∨
     (r = OK ∧
      (∀ ty ino pid pos, inside (Some 0%nat) 0 9 ino pos → ¬ held (locks s') ty ino pid pos) ∧
      (s' = s ∨ ∀ i q, (INIT_PROC_NR < i)%nat → fprocs (tabs s) !! i = Some q →
         fprocs (tabs s') !! i = Some (lock_woken q))))) s.
Proof.
  apply (lock_clear_contract (lock_state F_UNLCK one_lock 1) 0 F_SETLK (lock_request F_UNLCK) 0 0 9 no_fproc).
  - apply lock_state_call. by right; right.
  - done.
  - apply one_lock_ok.
  - apply lock_reviving_ok.
Defined.

Lemma lock_get_contract_witness :
  let s := lock_state F_WRLCK one_lock 1 in
  wp (lock_op 0 F_GETLK) (λ r s', ∃ answer bs k,
    flock_store (lock_answer (lock_request F_WRLCK) answer) = Some bs ∧
    k_vircopy_to (who (glo s)) SEG_D (in_name1 (m_in (glo s))) bs (kern s) = (r, k) ∧ s' = s <| kern := k |> ∧
    match answer with
    | Some lk => ∃ j, locks s !! j = Some lk ∧ blocks F_WRLCK (Some 0%nat) 0 9 0 lk ∧
        ∀ i lk', (i < j)%nat → locks s !! i = Some lk' → ¬ blocks F_WRLCK (Some 0%nat) 0 9 0 lk'
    | None => ∀ j lk, locks s !! j = Some lk → ¬ blocks F_WRLCK (Some 0%nat) 0 9 0 lk
    end) s.
Proof.
  apply (lock_get_contract (lock_state F_WRLCK one_lock 1) 0 (lock_request F_WRLCK) 0 0 9 no_fproc).
  - apply lock_state_call. by right; left.
  - apply one_lock_ok.
Defined.
