(* ===== verification/WitnessCalls.v ===== *)
(** The theorems about the system calls at the instances of RamDisk.v, in states
    a few steps from that of a server that has just started. *)

From S2P Require Import Prelude Machine State Monad Process Device SuperTable Links Cache CacheInv DiskView Flush CacheSpec CacheContract RamDisk Inode InodeSpec InodeContract FileMap Permission PathSpec Filedes Misc FiledesSpec Sync SuperSpec Bitmap BitmapSpec SelectTable DmapSpec Pipe ProcessSpec Open DeviceOpen Dmap Main Witness.

(** * Descriptors *)

(** Process 9 has the file in slot 0 open as descriptors 0 and 1, through filp 0,
    and is about to ask for a copy of descriptor 0. *)
Definition fd_proc : fproc :=
  no_fproc <| fp_filp := Some 0%nat :: Some 0%nat :: replicate 18 None |> <| fp_rootdir := Some 0%nat |>
    <| fp_workdir := Some 0%nat |>.
Definition fd_tables : tables :=
  file_tables <| filps ::= λ l, <[0%nat := Filp 6 2 2 (Some 0%nat) 0 0 0 0]> l |>
    <| fprocs ::= λ l, <[9%nat := fd_proc]> l |>.
Definition fd_state : st := file_state <| tabs := fd_tables |>.

Lemma fd_refs_no_fproc f : fd_refs f no_fproc = 0.
Proof. done. Qed.
Lemma fd_procs_total f : refs f (fprocs fd_tables) = fd_refs f fd_proc.
Proof.
  change (fprocs fd_tables) with (<[9%nat := fd_proc]> (replicate NR_PROCS no_fproc)).
  unfold refs. rewrite (total_insert _ _ _ no_fproc) by done. rewrite fd_refs_no_fproc.
  rewrite (total_ext _ (λ _, 0)); [simpl; lia|]. intros x [-> _]%elem_of_replicate. apply fd_refs_no_fproc.
Qed.

Lemma fd_fds_ok : fds_ok (filps fd_tables) (fprocs fd_tables).
Proof.
  split.
  - intros f x. rewrite fd_procs_total.
    change (filps fd_tables) with (<[0%nat := Filp 6 2 2 (Some 0%nat) 0 0 0 0]> (replicate NR_FILPS no_filp)).
    intros [(<- & <- & _)|[Hne [-> _]%lookup_replicate]]%list_lookup_insert_Some; [done|].
    unfold fd_refs, count, fd_proc. simpl fp_filp.
    rewrite !filter_cons_False by congruence.
    done.
  - intros p rp fd f.
    change (fprocs fd_tables) with (<[9%nat := fd_proc]> (replicate NR_PROCS no_fproc)).
    change (length (filps fd_tables)) with NR_FILPS. unfold NR_FILPS.
    intros [(<- & <- & _)|[_ [-> _]%lookup_replicate]]%list_lookup_insert_Some.
    + simpl. intros Hfd%list_elem_of_lookup_2. rewrite !elem_of_cons in Hfd.
      repeat (destruct Hfd as [[= ->]|Hfd]; try lia). by apply not_elem_of_nil in Hfd.
    + intros [[=] _]%lookup_replicate.
  - intros p rp. change (fprocs fd_tables) with (<[9%nat := fd_proc]> (replicate NR_PROCS no_fproc)).
    by intros [(_ & <- & _)|[_ [-> _]%lookup_replicate]]%list_lookup_insert_Some.
Qed.

Lemma get_fd_contract_witness :
  wp (get_fd 0 R_BIT) (λ r s', got_fd 0 R_BIT fd_state s' 9 r) fd_state.
Proof. by apply (get_fd_contract fd_state 0 R_BIT fd_proc). Defined.

(** The lowest free descriptor is 2, the first unused slot 1. *)
Lemma get_fd_found : ∃ s', get_fd 0 R_BIT fd_state = Ret (inr (2, 1)%nat) s'.
Proof. by eexists. Qed.

Lemma do_dup_contract_witness :
  wp do_dup (λ r s', fds_ok (filps (tabs s')) (fprocs (tabs s')) ∧
    match named fd_proc 0 with
    | None => r = EBADF ∧ tabs s' = tabs fd_state
    | Some f =>
        (r = EMFILE ∧ tabs s' = tabs fd_state ∧ ∀ j, fp_filp fd_proc !! j ≠ Some None) ∨
        (r = ENFILE ∧ tabs s' = tabs fd_state ∧ ∀ g x, filps (tabs fd_state) !! g = Some x → filp_count x ≠ 0) ∨
        ∃ k, r = Z.of_nat k ∧ fp_filp fd_proc !! k = Some None ∧
          (∀ j, (j < k)%nat → fp_filp fd_proc !! j ≠ Some None) ∧
          shared fd_state s' 9 k f fd_proc
    end) fd_state.
Proof. apply (do_dup_contract fd_state fd_proc); [apply fd_fds_ok|done|done]. Defined.

(** The process manager tells of the fork of 9 to 10. *)
Definition fork_state : st :=
  fd_state <| glo ::= λ g, g <| who := 0 |>
    <| m_in := blank_message <| in_parent := 9 |> <| in_child := 10 |> <| in_pid := 33 |> |> |>.

Lemma do_fork_contract_witness :
  wp do_fork (λ r s', r = OK ∧ fds_ok (filps (tabs s')) (fprocs (tabs s')) ∧
    fprocs (tabs s') = <[10%nat := forked fd_proc 33]> (fprocs (tabs fork_state)) ∧
    (∀ f z, filps (tabs fork_state) !! f = Some z →
       filps (tabs s') !! f = Some (z <| filp_count ::= Z.add (fd_refs f fd_proc) |>)) ∧
    (∀ r n, inodes (tabs fork_state) !! r = Some n →
       inodes (tabs s') !! r = Some (n <| i_count ::= Z.add (used_inode 0 0 r) |>)) ∧
    cache s' = cache fork_state ∧ kern s' = kern fork_state ∧ glo s' = glo fork_state) fork_state.
Proof.
  apply (do_fork_contract fork_state 9 10 fd_proc no_fproc 0 0 ram_file ram_file).
  - apply fd_fds_ok.
  - done.
  - done.
  - done.
  - done.
  - done.
  - intros f. apply fd_refs_no_fproc.
  - done.
  - done.
  - done.
  - done.
Defined.

(** * Permissions *)

Lemma forbidden_contract_witness :
  wp (forbidden 0 3) (λ res s', s' = fd_state ∧
    ((res = EACCES ∧ ∃ k, refused fd_state ram_file fd_proc 3 k) ∨
     (res = EROFS ∧ (∀ k, ¬ refused fd_state ram_file fd_proc 3 k) ∧ wants 3 WRITE_IT = true ∧ s_rd_only ram_super ≠ 0) ∨
     (res = OK ∧ (∀ k, ¬ refused fd_state ram_file fd_proc 3 k) ∧ (wants 3 WRITE_IT = true → s_rd_only ram_super = 0)))) fd_state.
Proof. by apply (forbidden_contract fd_state 0 ram_file 0 ram_super fd_proc 3). Defined.

(** Not even the super user may execute it. *)
Lemma forbidden_execution : forbidden 0 X_BIT fd_state = Ret EACCES fd_state.
Proof. done. Qed.

(** * Writing everything back *)

Lemma do_sync_contract_witness :
  wp do_sync (λ res s', res = OK ∧ cache_ok (tabs s') ram_dev s' ∧ has_free s' ∧
    (∀ i r, inodes (tabs s') !! i = Some r → ¬ modified r) ∧
    (∀ i b, bufs (cache s') !! i = Some b → b_dev b ≠ NO_DEV → b_dirt b = CLEAN) ∧
    (∀ i r, inodes (tabs file_state) !! i = Some r → modified r → on_disk ram_dev s' r) ∧
    (∀ dev blk, ram_dev dev →
       (∀ i r sp x, inodes (tabs file_state) !! i = Some r → modified r →
          inode_place (tabs file_state) ram_dev (i_dev r) sp x (i_num r) → (i_dev r, inode_block x (i_num r)) ≠ (dev, blk)) →
       disk_block (tabs s') (kern s') dev blk = dview file_state dev blk)) file_state.
Proof.
  apply (do_sync_contract ram_dev file_state).
  - apply ram_clock_ok.
  - apply file_cache_ok.
  - apply file_has_free.
  - apply file_inodes_ok.
  - done.
  - change (inodes (tabs file_state)) with (<[0%nat := ram_file]> (replicate NR_INODES no_inode)).
    intros i r [(_ & <- & _)|[_ [-> _]%lookup_replicate]]%list_lookup_insert_Some [Hc _]; [|done].
    exists 0%nat, ram_super. split; [by apply file_place|]. split; [done|apply file_fits].
Defined.

(** * Pipes *)

(** Slot 0 has a pipe with 100 bytes, open for reading through filp 0 by process
    10 and for writing through filp 1 by process 9; process 10 hangs in a read. *)
Definition pipe_inode : inode := ram_file <| i_mode := 4480 |> <| i_size := 100 |> <| i_pipe := true |>.
Definition pipe_reader : fproc :=
  no_fproc <| fp_filp := Some 0%nat :: replicate 19 None |> <| fp_suspended := true |> <| fp_fd := READ |>
    <| fp_task := 5 |>.
Definition pipe_tables : tables :=
  (with_inode 0 pipe_inode ram_tables)
    <| filps ::= λ l, <[1%nat := Filp W_BIT O_WRONLY 1 (Some 0%nat) 0 0 0 0]>
                        (<[0%nat := Filp R_BIT 0 1 (Some 0%nat) 0 0 0 0]> l) |>
    <| fprocs ::= λ l, <[10%nat := pipe_reader]> l |>.
Definition pipe_state : st := ram_state <| tabs := pipe_tables |> <| glo ::= λ g, g <| susp_count := 1 |> <| call_nr := WRITE |> |>.

Lemma pipe_proc_lookup i p : fprocs pipe_tables !! i = Some p → i = 10%nat ∧ p = pipe_reader ∨ p = no_fproc.
Proof.
  change (fprocs pipe_tables) with (<[10%nat := pipe_reader]> (replicate NR_PROCS no_fproc)).
  intros [(<- & <- & _)|[_ [-> _]%lookup_replicate]]%list_lookup_insert_Some; [by left|by right].
Qed.

Lemma pipe_reviving_ok : reviving_ok pipe_state.
Proof.
  split; [done| |].
  - change (reviving (glo pipe_state)) with 0.
    change (fprocs (tabs pipe_state)) with (<[10%nat := pipe_reader]> (replicate NR_PROCS no_fproc)).
    rewrite (count_insert revived _ _ no_fproc) by done. done.
  - by intros i p [[_ ->]| ->]%pipe_proc_lookup.
Qed.

Lemma pipe_hangers_ok call : hangers_ok pipe_state call.
Proof.
  intros i p [[_ ->]| ->]%pipe_proc_lookup; [|done]. intros _. exists 0%nat. split; [done|].
  change (0 < NR_FILPS)%nat. unfold NR_FILPS. lia.
Qed.

Lemma pipe_selects_idle op : selects_idle pipe_state 0 op.
Proof.
  intros f x. change (filps (tabs pipe_state)) with
    (<[1%nat := Filp W_BIT O_WRONLY 1 (Some 0%nat) 0 0 0 0]>
       (<[0%nat := Filp R_BIT 0 1 (Some 0%nat) 0 0 0 0]> (replicate NR_FILPS no_filp))).
  intros [(_ & <- & _)|[_ [(_ & <- & _)|[_ [-> _]%lookup_replicate]]%list_lookup_insert_Some]]%list_lookup_insert_Some;
    intros _; unfold has; simpl; rewrite Z.land_0_l; done.
Qed.

Lemma release_contract_witness :
  wp (release 0 READ 1) (λ _ s', release_done (released pipe_state 0 READ 1 (seq 0 NR_PROCS)) pipe_state s') pipe_state.
Proof.
  apply (release_contract pipe_state 0 READ 1).
  - apply pipe_reviving_ok.
  - apply pipe_hangers_ok.
  - done.
  - split; intros _; apply pipe_selects_idle.
Defined.

Lemma pipe_released : released pipe_state 0 READ 1 (seq 0 NR_PROCS) = [10%nat].
Proof. by vm_compute. Qed.

(** A write of a whole pipe that may not block hangs all the same. *)
Lemma pipe_check_contract_witness :
  wp (pipe_check 0 WRITING O_NONBLOCK 7168 100 false) (λ '(res, canwrite) s',
    procs_changed pipe_state s' ∧
    let size := PIPE_SIZE (s_block_size ram_super) in let n := granted 7168 canwrite in
    (res = EPIPE ∧ ¬ has_opened pipe_state 0 R_BIT ∧
       kern s' = (if false then kern pipe_state else k_kill (Z.of_nat (fp (glo pipe_state))) SIGPIPE (kern pipe_state))) ∨
    has_opened pipe_state 0 R_BIT ∧
    ((res = 1 ∧ n = Z.min 7168 (size - 100) ∧ 0 < n ∧ (7168 ≤ size → n = 7168)) ∨
     (size < 100 + 7168 ∧
       ((res = EAGAIN ∧ s' = pipe_state ∧ has O_NONBLOCK O_NONBLOCK = true ∧ (7168 < size ∨ size < 7168 ∧ 100 = size)) ∨
        (res = SUSPEND ∧ (has O_NONBLOCK O_NONBLOCK = false ∧ (7168 ≤ size ∨ 100 = size) ∨ 7168 = size) ∧
         (if false then s' = pipe_state else ∃ p',
            fprocs (tabs s') !! fp (glo pipe_state) = Some p' ∧
            suspended_in (fp (glo pipe_state)) (m_in (glo pipe_state)) (call_nr (glo pipe_state)) p' ∧
            fp_task p' = - XPIPE)))))) pipe_state.
Proof.
  apply (pipe_check_contract pipe_state 0 pipe_inode 0 ram_super no_fproc O_NONBLOCK 7168 100 false).
  - apply pipe_reviving_ok.
  - apply pipe_hangers_ok.
  - done.
  - apply pipe_selects_idle.
  - done.
  - done.
  - done.
  - done.
  - done.
  - done.
  - done.
  - done.
  - done.
  - done.
Defined.

Lemma pipe_check_hangs :
  wp (pipe_check 0 WRITING O_NONBLOCK 7168 100 false) (λ r _, r = (SUSPEND, None)) pipe_state.
Proof. reflexivity. Qed.

(** * Select *)

(** Entry 0 waits for descriptor 3, open through filp 5, to be ready for reading. *)
Definition waiting_select : selectentry :=
  no_select <| requestor := Some 9%nat |> <| req_procnr := 9 |> <| readfds := 8 |> <| vir_readfds := 4096 |>
    <| sel_filps ::= λ l, <[3%nat := Some 5%nat]> l |> <| nfds := 4 |>.
Definition select_state : st := ram_state <| tabs ::= λ t, t <| selecttab ::= λ l, <[0%nat := waiting_select]> l |> |>.

Lemma callback_entry_contract_witness :
  let l := seq 0 (Z.to_nat 4) in
  wp (callback_entry 5 SEL_RD 0) (λ woken s', ∃ e',
    s' = with_table (<[0%nat := e']> (selecttab (tabs select_state))) select_state ∧
    called_back 5 SEL_RD l waiting_select e' ∧
    (woken = true ↔ ∃ fd, fd ∈ l ∧ called 5 SEL_RD waiting_select fd = true)) select_state.
Proof.
  apply (callback_entry_contract select_state 5 SEL_RD 0 waiting_select).
  - done.
  - split; [done|]. intros k i. assert (ready k waiting_select = 0) as -> by (by destruct k).
    unfold FD_ISSET. by rewrite Z.testbit_0_l.
  - done.
Defined.

Lemma callback_wakes : wp (callback_entry 5 SEL_RD 0) (λ r _, r = true) select_state.
Proof. reflexivity. Qed.

(** * Super blocks and zones *)

(** The disk has no super block. *)
Lemma read_super_contract_witness :
  wp (read_super 0) (λ r s', ∃ img x',
    disk_super ram_state (Dmap gen_opcl_r gen_io_r 5 0) 256 = Some img ∧ super_read ram_state s' 0 x' ∧
    x' = (check_super (img <| s_dev := NO_DEV |>)).1 <| s_dev := if r =? OK then 256 else NO_DEV |> ∧
    ((r = OK ∧ super_wf x' ∧ ∃ native, super_type (s_magic img) = Some (s_version x', native)) ∨ r = EINVAL)) ram_state.
Proof. by apply (read_super_contract ram_state 0 ram_super 256 (Dmap gen_opcl_r gen_io_r 5 0)). Defined.

Lemma alloc_zone_contract_witness :
  wp (alloc_zone 256 50) (λ r s', cache_ok (tabs s') ram_dev s' ∧ has_free s' ∧
    ((r = NO_ZONE ∧ err_code (glo s') = ENOSPC ∧
        transparent (tabs ram_state) ram_dev (ram_state <| glo := glo s' |>) s' ∧
        ∀ z', is_zone ram_super z' → zone_used ram_state ram_super z' = true) ∨
     zone_taken ram_dev 0 ram_super ram_state s' r)) ram_state.
Proof.
  apply (alloc_zone_contract ram_dev ram_state 0 ram_super 50).
  - done.
  - done.
  - apply ram_map_ok.
  - apply ram_cache_ok.
  - apply ram_has_free.
  - apply (ram_bit_0 ZMAP).
  - done.
  - done.
  - done.
  - done.
Defined.

(** * Positions *)

(** Process 9 seeks ten bytes before the start of its file. *)
Definition seek_state : st :=
  fd_state <| glo ::= λ g, g <| m_in := blank_message <| in_ls_fd := 1 |> <| in_offset := 4294967286 |> |> |>.

Lemma do_lseek_contract_witness :
  wp do_lseek (λ res s',
    match named fd_proc 1 with
    | None => res = EBADF ∧ tabs s' = tabs seek_state
    | Some f => ∃ x rip r, filps (tabs seek_state) !! f = Some x ∧ filp_ino x = Some rip ∧
        inodes (tabs seek_state) !! rip = Some r ∧
        if i_pipe r then res = ESPIPE ∧ tabs s' = tabs seek_state
        else match seek_target 0 (filp_pos x) (i_size r) (i32 4294967286) with
             | None => res = EINVAL ∧ tabs s' = tabs seek_state
             | Some pos => res = OK ∧ sought seek_state s' f rip x r pos
             end
    end) seek_state.
Proof.
  apply (do_lseek_contract seek_state fd_proc).
  - apply fd_fds_ok.
  - done.
  - change (filps (tabs seek_state)) with (<[0%nat := Filp 6 2 2 (Some 0%nat) 0 0 0 0]> (replicate NR_FILPS no_filp)).
    intros f x [(_ & <- & _)|[_ [-> _]%lookup_replicate]]%list_lookup_insert_Some; [|done]. intros _.
    split; [done|]. exists 0%nat, ram_file. done.
Defined.

(** It succeeds. *)
Lemma seek_before_start : seek_target 0 0 2048 (i32 4294967286) = Some 4294967286.
Proof. done. Qed.

(** * Drivers and the main loop *)

(** A kernel that has [m] for the server, and drivers that have all exited. *)
Definition plain_kernel (m : message) : Kernel := {|
  K := unit;
  k_sendrec _ m v k := (EDEADSRCDST, m, v, k);
  k_receive _ v k := (OK, m, v, k);
  k_send _ _ k := (OK, k);
  k_vircopy_from _ _ addr len _ := (OK, []);
  k_vircopy_to _ _ _ _ k := (OK, k);
  k_umap _ _ addr _ _ := addr;
  k_getuptime _ := (OK, 0);
  k_kill _ _ k := k;
  k_setalarm _ _ k := (OK, k);
  k_tmr_inittimer _ k := k;
  k_tmrs_settimer _ _ k := (0, 0, k);
  k_tmrs_clrtimer _ k := (0, 0, k);
  k_tmrs_exptimers _ k := ([], 0, k);
  k_sysinfo _ _ _ k := (OK, k);
  k_sigismember _ _ := false
|}.
Definition plain_state (m : message) : @st (plain_kernel m) :=
  @St (plain_kernel m) tt ram_cache (ram_tables <| dmaps ::= λ l, l ++ replicate 29 no_dmap |>) ram_globals.

(** Process 9 makes a call that does not exist; a task of the kernel does. *)
Definition odd_call (who nr : Z) : message := blank_message <| m_source := who |> <| m_type := nr |>.

Lemma main_step_refused_witness :
  let m := odd_call 9 95 in
  @wp (plain_kernel m) _ (@main_step ram_config (plain_kernel m)) (λ r s', r = true ∧
    tabs s' = tabs (plain_state m) ∧ cache s' = cache (plain_state m) ∧
    ∃ out, m_type out = ENOSYS ∧ kern s' = (@k_send (plain_kernel m) 9 out tt).2) (plain_state m).
Proof.
  apply (@main_step_refused ram_config (plain_kernel (odd_call 9 95)) (plain_state (odd_call 9 95)) (odd_call 9 95) tt 9 no_fproc).
  - split; [done|]. by exists [].
  - done.
  - done.
  - done.
  - right; left. done.
  - done.
Defined.

Lemma main_step_kernel_source_witness :
  @main_step ram_config (plain_kernel (odd_call (-3) SYN_ALARM)) (plain_state (odd_call (-3) SYN_ALARM)) = Fault.
Proof.
  apply (@main_step_kernel_source ram_config (plain_kernel (odd_call (-3) SYN_ALARM)) _ (odd_call (-3) SYN_ALARM) tt).
  - split; [done|]. by exists [].
  - done.
Defined.

Lemma dev_io_gone_witness :
  @wp (plain_kernel blank_message) _ (@dev_io ram_config (plain_kernel blank_message) DEV_READ 256 9 4096 [] 0 100 0)
    (λ r s', r = (9, []) ∧ s' = plain_state blank_message) (plain_state blank_message).
Proof.
  apply (@dev_io_gone ram_config (plain_kernel blank_message) (plain_state blank_message) DEV_READ 256 9 4096 [] 0 100 0
    (Dmap gen_opcl_r gen_io_r 5 0)); done.
Defined.

Lemma dmap_unmap_by_proc_contract_witness :
  let s := plain_state blank_message in
  @wp (plain_kernel blank_message) _ (@dmap_unmap_by_proc ram_config (plain_kernel blank_message) 5)
    (λ _ s', s' = with_table (unmapped_by 5 <$> dmaps (tabs s)) s) s.
Proof. by apply (@dmap_unmap_by_proc_contract ram_config (plain_kernel blank_message)). Defined.
