(* ===== verification/WitnessServers.v ===== *)
(** The theorems about the C++ servers at concrete states. *)

From stdpp Require Import sorting.
From S2P Require Import Prelude Machine Server L4Types Console Keymap Keyboard TaskServer TaskServerSpec ElfLoader ElfLoaderSpec SimpleFs SimpleFsSpec Heap HeapSpec.

(** * The console: a cleared screen *)

Section console.
Import Console.

Definition blank_screen (h : Z) : console := Console (replicate 4096 0) h 0 980 981 [].
Definition blank_terminal (h : nat) : terminal := Terminal (λ _ _, 0) 0 h.

Lemma blank_screen_ok h : 0 ≤ h ≤ 80 → console_ok (blank_screen h).
Proof. intros Hh. split; [apply length_replicate|exact Hh|done]. Qed.
Lemma blank_screen_shows h : shows (blank_screen (Z.of_nat h)) (blank_terminal h).
Proof. split; [done|done|]. intros v k Hv Hk. apply lookup_replicate_2. lia. Qed.

(** "hi" is typed. *)
Lemma console_write_contract_witness :
  ∃ c', console_write (Buffer [104; 105] 2) 2 (blank_screen 0) = Some c' ∧
    shows c' (type_plain [104; 105] (blank_terminal 0)) ∧
    ports c' = cursor_log (crtcAddrReg (blank_screen 0)) (crtcDataReg (blank_screen 0)) 2.
Proof.
  destruct (console_write_contract (blank_screen 0) (blank_terminal 0) (Buffer [104; 105] 2) 2)
    as (c'&E&_&Hs&Ht&_&_&Hp).
  - apply blank_screen_ok. lia.
  - apply (blank_screen_shows 0).
  - repeat constructor; unfold byte_ok; lia.
  - simpl. lia.
  - exists c'. specialize (Ht ltac:(simpl; lia)). rewrite Ht in Hs. split_and!; [exact E|exact Hs|exact Hp].
Defined.

(** Three characters back from column 5. *)
Lemma console_delete_contract_witness :
  ∃ c', console_delete 3 (blank_screen 5) = Some c' ∧ place c' = 2.
Proof.
  destruct (console_delete_contract (blank_screen 5) 3) as [(c'&E&_&Hp&_) _].
  - apply blank_screen_ok. lia.
  - exists c'. split; [exact E|exact Hp].
Defined.
End console.

(** * The keyboard: "ab" has been typed *)

Section keyboard.
Import Keyboard.

Definition no_answer : keyboardBuffer := KeyboardBuffer 0 0 (replicate 7 0).
Definition typed_ab (client : Z) : keyboard :=
  Keyboard (97 :: 98 :: replicate 1022 0) 2 client no_answer (Modifiers 0 0 0 0 0 0).

Lemma typed_ab_ok client : keyboard_ok (typed_ab client).
Proof.
  split; [done|by apply Nat.ltb_lt|repeat constructor; lia|done|done].
Qed.

Lemma keyboard_read_contract_witness :
  ∃ b k', keyboard_read 5 no_answer (typed_ab 0) = Some (Some b, k') ∧ answer b = [97; 98] ∧ queue k' = [].
Proof.
  destruct (keyboard_read_contract 5 no_answer (typed_ab 0)) as (r&k'&E&_&_&Hr).
  - apply typed_ab_ok.
  - done.
  - done.
  - destruct r as [b|]; [|destruct Hr as [Hr _]; discriminate Hr].
    destruct Hr as [[Ha Hq _ _ _] _]. exists b, k'. split; [exact E|split; [exact Ha|exact Hq]].
Defined.

(** A controller with the scancodes of a list, all ready, and a keyboard that acknowledges at once
    what is written to it. *)
Definition list_controller : Controller := {|
  controller := list Z;
  inb port p := if port =? 96 then match p with [] => (0, []) | c :: p => (u8 c, p) end
                else (match p with [] => 0 | _ => 1 end, p);
  outb port v p := p ++ [250];
|}.
#[local] Existing Instance list_controller.
#[local] Program Instance list_controller_laws : ControllerLaws :=
  {| stream (p : list Z) := u8 <$> p; ready (p : list Z) := length p |}.
Next Obligation.
  intros p. apply Forall_fmap, Forall_true. intros x. apply Z.mod_pos_bound. lia.
Qed.
Next Obligation. intros p. by rewrite length_fmap. Qed.
Next Obligation. by intros [|x p]. Qed.
Next Obligation. intros [|x p] c codes Hr; [done|]. by intros [= <- <-]. Qed.
Next Obligation.
  intros v p. exists (u8 <$> p), [250], []. rewrite !app_nil_r. simpl. rewrite fmap_app, length_fmap, length_app.
  split_and!; try done; [right; exists 250; split; [by left|done]|lia].
Qed.

(** Caps lock (58) and the key "a" (30) are waiting, and so is client 9: it gets "abA", and the two
    acknowledgements have been read too. *)
Lemma keyboard_interrupt_contract_witness :
  ∃ r, @keyboard_interrupt list_controller 5 (typed_ab 9) [58; 30] = Some r ∧ ready r.2 = 0%nat ∧
    (λ a, answer a.2) <$> r.1.1 = Some [97; 98; 65].
Proof.
  destruct (@keyboard_interrupt_contract list_controller list_controller_laws 5 (typed_ab 9) [58; 30]) as (reply&k'&p'&taken&E&_).
  - apply typed_ab_ok.
  - by apply Nat.ltb_lt.
  - exists (reply, k', p'). split; [exact E|]. vm_compute in E. injection E as <- _ <-. split; by vm_compute.
Defined.
End keyboard.

(** * The task server *)

Section taskserver.
Import TaskServer TaskServerSpec.

#[local] Instance some_platform : Platform := {|
  myself := 3; my_local_id := 1048576; utcb_size := 512; utcb_area_size_log2 := 12;
  ram_dsm_id := 4; locate n := 7;
|}.

Definition no_space : as_t := As 0 pagedbyBiElfLoader None.
Definition no_thread : thread_t := Thread 0 0 None None None.
Definition no_listener : listener_t := Listener 0 None.

(** No task runs. *)
Definition idle : ts :=
  Ts (replicate 64 no_space) (replicate 256 no_thread) (replicate 256 no_listener) 0 0 0 5 0 0 [].

(** One task runs, whose only thread has the id 81921. *)
Definition one_task : ts :=
  Ts (As (L4_FpageLog2 1048576 13) pagedbyAppPager (Some 0%nat) :: replicate 63 no_space)
     (Thread 81921 1048576 (Some 0%nat) None None :: replicate 255 no_thread)
     (replicate 256 no_listener) 1 1 0 6 0 0 [].
Definition one_chain (j : nat) : list nat := if decide (j = 0%nat) then [0%nat] else [].

Lemma idle_inv : ts_inv idle (λ _, []) (λ _, []).
Proof.
  assert (Hhome : ∀ t, home (threads idle) t = None).
  { intros t. unfold home. destruct (threads idle !! t) as [x|] eqn:E; [|done].
    by apply lookup_replicate in E as [-> _]. }
  split; [apply length_replicate..|]. split; try done.
  - intros j a [-> _]%lookup_replicate. done.
  - intros j _. constructor.
  - intros j t _. rewrite Hhome. split; [by intros ?%not_elem_of_nil|done].
  - intros t j. by rewrite Hhome.
  - intros t x [-> _]%lookup_replicate. done.
  - intros t _. constructor.
  - intros t l _ ?%not_elem_of_nil. done.
  - intros t t' l _ _ ?%not_elem_of_nil. done.
Qed.

Lemma one_home t : home (threads one_task) t = if decide (t = 0%nat) then Some 0%nat else None.
Proof.
  unfold home. destruct t as [|t]; [done|]. change (threads one_task !! S t) with (replicate 255 no_thread !! t).
  destruct (replicate 255 no_thread !! t) as [x|] eqn:E; [|done]. by apply lookup_replicate in E as [-> _].
Qed.

Lemma one_task_inv : ts_inv one_task one_chain (λ _, []).
Proof.
  split; [done..|]. split; try done.
  - intros [|j] a; [by intros [= <-]|]. change (spaces one_task !! S j) with (replicate 63 no_space !! j).
    intros [-> _]%lookup_replicate. done.
  - intros [|j] _; simpl; [|constructor]. repeat constructor.
  - intros [|j] _; repeat constructor. apply not_elem_of_nil.
  - intros j t _. rewrite one_home. unfold one_chain. repeat case_decide; subst.
    + split; [done|]. intros _. left.
    + split; [by intros ->%list_elem_of_singleton|done].
    + split; [by intros ?%not_elem_of_nil|congruence].
    + split; [by intros ?%not_elem_of_nil|done].
  - intros t j. rewrite one_home. case_decide; [|done]. intros [= <-]. simpl. lia.
  - intros [|t] x; [by intros [= <-]|]. change (threads one_task !! S t) with (replicate 255 no_thread !! t).
    intros [-> _]%lookup_replicate. done.
  - intros t _. constructor.
  - intros t l _ ?%not_elem_of_nil. done.
  - intros t t' l _ _ ?%not_elem_of_nil. done.
Qed.

Lemma one_pager tries : (0 < tries)%nat → pager_known tries one_task.
Proof. intros H. right. exists 0%nat. split; [exact H|done]. Qed.

(** The boot module 49 is started as a task. *)
Lemma startTask_contract_witness :
  runs (startTask 1 [49; 0]) (λ r s', r = L4_GlobalId 5 1 ∧ ∃ i j, ts_inv s' (upd (λ _, []) j [i]) (upd (λ _, []) i [])) idle.
Proof.
  eapply runs_mono; [apply (startTask_contract 1 idle (λ _, []) (λ _, []) 49 [0])|].
  - apply idle_inv.
  - split; [done|]. exists 0%nat. split; [by apply Nat.ltb_lt|done].
  - split; [done|]. exists 0%nat. split; [by apply Nat.ltb_lt|done].
  - right. exists 0%nat. split; [lia|done].
  - intros r s' (Hr&i&j&p&_&_&Hinv&_). split; [exact Hr|]. exists i, j. exact Hinv.
Defined.

Lemma createThread_contract_witness :
  runs (createThread 1 81921) (λ r s', r = L4_GlobalId 6 1 ∧ ∃ i, home (threads one_task) i = None ∧
    home (threads s') i = Some 0%nat) one_task.
Proof.
  eapply runs_mono; [apply (createThread_contract 1 one_task one_chain (λ _, []) 81921 0%nat
    (Thread 81921 1048576 (Some 0%nat) None None) 0%nat (As (L4_FpageLog2 1048576 13) pagedbyAppPager (Some 0%nat)))|].
  - apply one_task_inv.
  - done.
  - done.
  - split; [done|]. exists 0%nat. split; [by apply Nat.ltb_lt|done].
  - done.
  - done.
  - by apply Z.leb_le.
  - apply one_pager. lia.
  - intros r s' (Hr&i&l1&l2&Hi&_&x&_&_&_&Hh&_). split; [exact Hr|]. exists i. split; [exact Hi|].
    rewrite Hh. by rewrite decide_True.
Defined.

Lemma waitTid_contract_witness :
  waitTid 9 5 one_task = Done (Some (2 ^ 32 - 1)) one_task ∧
  runs (waitTid 9 81921) (λ r s', r = None ∧ calls s' = []) one_task.
Proof.
  split.
  - apply (proj1 (waitTid_contract one_task one_chain (λ _, []) 9 5 one_task_inv ltac:(done))). by vm_compute.
  - eapply runs_mono; [apply (proj2 (waitTid_contract one_task one_chain (λ _, []) 9 81921 one_task_inv ltac:(done))
      0%nat (Thread 81921 1048576 (Some 0%nat) None None))|].
    + done.
    + split; [done|]. exists 0%nat. split; [by apply Nat.ltb_lt|done].
    + intros r s' (Hr&l&_&_&_&_&Hc). split; [exact Hr|exact Hc].
Defined.

Lemma kill_contract_witness :
  runs (kill 1 81921) (λ _ s', ∃ ch, ts_inv s' ch (λ _, []) ∧ home (threads s') 0 = None) one_task.
Proof.
  eapply runs_mono; [apply (kill_contract 1 one_task one_chain (λ _, []) 81921 0%nat
    (Thread 81921 1048576 (Some 0%nat) None None) 0%nat)|].
  - apply one_task_inv.
  - done.
  - done.
  - apply one_pager. lia.
  - intros _ s' (l1&l2&told&_&Hinv&Hh&_). eexists. split; [exact Hinv|]. rewrite Hh. by rewrite decide_True.
Defined.

Lemma get_free_tcb_contract_witness :
  get_free_tcb one_task =
    Done 1%nat (one_task <| threads := <[1%nat := no_thread]> (threads one_task) |> <| next_thread_idx := 2 |>).
Proof.
  destruct (get_free_tcb_contract one_task) as [_ H]; [done|by split|].
  destruct (H ltac:(done)) as [H1 _]. apply (H1 0%nat no_thread).
  - by apply Nat.ltb_lt.
  - done.
  - done.
  - intros j Hj. lia.
Defined.
End taskserver.

(** * The ELF loader *)

Section elf.
Import ElfLoader ElfLoaderSpec.

(** An image at 4096 with one segment of 4 bytes, [memsz] in memory, at the address
    8192, and the page at 16 MB that is filled. *)
Definition small_image (memsz : Z) : list Z :=
  replicate 28 0 ++ [52; 0; 0; 0] ++ replicate 12 0 ++ [1; 0] ++ replicate 6 0 ++
  [1; 0; 0; 0] ++ [84; 0; 0; 0] ++ [0; 32; 0; 0] ++ [0; 0; 0; 0] ++ [4; 0; 0; 0] ++ [0; memsz; 0; 0] ++
  replicate 8 0 ++ [11; 12; 13; 14].
Definition image_memory (memsz : Z) : memory := λ x, default 255 (small_image memsz !! Z.to_nat (x - 4096)).

Lemma image_phdrs : ElfLoaderSpec.phdrs (image_memory 1) 4096 = [Phdr 1 84 8192 4 256].
Proof. by vm_compute. Qed.

Lemma image_memory_ok : image_ok (image_memory 1) 4096 88 16777216.
Proof.
  split; [split; [|lia|lia|by vm_compute|]|split; lia|lia].
  - intros x. unfold image_memory. destruct (small_image 1 !! _) as [b|] eqn:E; [|by vm_compute].
    revert E. apply (proj1 (Forall_lookup byte_ok (small_image 1))).
    unfold small_image. rewrite !Forall_app. split_and!; try (apply Forall_replicate; by vm_compute).
    all: repeat constructor; unfold byte_ok; lia.
  - intros ph. rewrite image_phdrs. intros ->%list_elem_of_singleton _. simpl. lia.
Qed.

Lemma fill_page_contract_witness :
  fill_page (L4_FpageLog2 16777216 12) 8200 4096 (image_memory 1) (16777216 + 2) = 13 ∧
  fill_page (L4_FpageLog2 16777216 12) 8200 4096 (image_memory 1) 4096 = 0.
Proof.
  destruct (fill_page_contract (image_memory 1) 4096 88 16777216 image_memory_ok 8200) as [H1 H2].
  - lia.
  - done.
  - rewrite image_phdrs. apply Forall_singleton. intros _ _. by vm_compute.
  - split; [rewrite H1 by lia; by vm_compute|rewrite H2 by lia; by vm_compute].
Defined.

(** The page at 12288 is behind the data of a segment with 2 pages and 4 bytes of
    data: it gets the bytes of the memory behind the image. *)
Lemma bss_page_contract_witness :
  load_section (L4_FpageLog2 16777216 12) 12288 16383 4096 (Phdr 1 84 8192 4 8192) (λ x, x mod 256) 16777216 = 84.
Proof.
  etransitivity.
  - apply (bss_page_contract (image_memory 1) 4096 88 16777216 image_memory_ok (Phdr 1 84 8192 4 8192) 12288).
    all: try (split; simpl; lia).
    all: simpl; try lia; done.
  - done.
Defined.

(** The pages from 16 MB on are free. *)
Definition some_pages : bielfloader :=
  Bielfloader (replicate 64 (Association 0 0)) 0 (replicate 128 0 ++ replicate 128 4294967295) 16777216 0 (λ _, 0).

Lemma getFreePage_contract_witness :
  runs getFreePage (λ r s', ∃ p, r = L4_FpageLog2 (4096 * p) 12 ∧
    page_free (available_b some_pages) p = true ∧ page_free (available_b s') p = false) some_pages.
Proof.
  eapply runs_mono; [apply (getFreePage_contract some_pages 4096)|].
  - apply Forall_app. split; apply Forall_replicate; lia.
  - done.
  - lia.
  - done.
  - intros r s' [Hfound Hfree]. destruct Hfound as [(_&_&Hnone)|(p&Hp&Hr&Hfp&_&Hnext&_)].
    + discriminate (Hnone 4096 ltac:(lia)).
    + exists p. split; [exact Hr|]. split; [exact Hfp|]. rewrite Hnext, Z.eqb_refl by lia. apply andb_false_r.
Defined.
End elf.

(** * The simple file system *)

Section simplefs.
Import SimpleFs SimpleFsSpec.

(** One file, "a", of two pages, of which the second is where its flexpage ends. *)
Definition file_a : filehandle_t := Filehandle 1073741824 8192 true (97 :: replicate 15 0).
Definition no_file : filehandle_t := Filehandle 0 0 false (replicate 16 0).
Definition one_file : simplefs := Simplefs (file_a :: replicate 255 no_file) (1073741824 + 8192) (λ _, 7).

Lemma one_file_only i h : filehandles one_file !! i = Some h → valid h = true → i = 0%nat ∧ h = file_a.
Proof.
  destruct i as [|i]; [by intros [= <-]|]. change (filehandles one_file !! S i) with (replicate 255 no_file !! i).
  intros [-> _]%lookup_replicate. done.
Qed.

Lemma one_file_ok : simplefs_ok one_file.
Proof.
  split.
  - done.
  - constructor; [|apply Forall_replicate]; (split; [done|]); [intros _; right; left|done].
  - unfold beginOfFilesystem. simpl. split; [lia|done].
  - intros i h _ Hh Hv. destruct (one_file_only i h Hh Hv) as [-> ->]. unfold beginOfFilesystem. simpl.
    split_and!; lia || done.
  - intros i j h k _ _ Hij Hh Hk Hv Hv'. destruct (one_file_only i h Hh Hv), (one_file_only j k Hk Hv'). congruence.
  - intros i j h k _ _ Hh Hk Hv Hv' _. destruct (one_file_only i h Hh Hv), (one_file_only j k Hk Hv'). congruence.
Qed.

(** "b" of 5000 bytes is created behind it. *)
Lemma createFile_contract_witness :
  runs (createFile ([98] ++ 0 :: []) 5000) (λ r s', r = None ∧ simplefs_ok s' ∧
    file_of s' [98] = Some (1073741824 + 8192, 8192) ∧ file_of s' [97] = file_of one_file [97]) one_file ∧
  createFile ([98] ++ 0 :: []) 100 one_file = Spins.
Proof.
  destruct (createFile_contract one_file [98] [] 5000) as [_ H].
  - apply one_file_ok.
  - by repeat constructor.
  - simpl. lia.
  - split.
    + eapply runs_mono; [apply H; [lia|by vm_compute]|]. intros [[| | | | |]|] s' Hr.
      1-3: destruct Hr.
      * destruct Hr as (_&_&Hr). discriminate (Hr 1%nat ltac:(by apply Nat.ltb_lt)).
      * destruct Hr as (_&_&Hr). by vm_compute in Hr.
      * destruct Hr as [_ Hr]. by vm_compute in Hr; destruct Hr.
      * destruct Hr as (_&Hok&_&_&Hmap&_). split_and!; [done|exact Hok| |].
        -- rewrite Hmap. by rewrite decide_True.
        -- rewrite Hmap. by rewrite decide_False.
    + destruct (createFile_contract one_file [98] [] 100) as [H' _].
      * apply one_file_ok.
      * by repeat constructor.
      * simpl. lia.
      * apply H'. lia.
Defined.

Lemma mapFile_contract_witness :
  runs (mapFile ([97] ++ 0 :: [])) (λ r s', s' = one_file ∧ ∃ f, r = inr f ∧ L4_Size f = 8192 ∧ L4_Address f = 1073741824) one_file.
Proof.
  eapply runs_mono; [apply (mapFile_contract one_file [97] [])|].
  - apply one_file_ok.
  - by repeat constructor.
  - intros [e|f] s' [-> Hr]; [by destruct Hr as [_ Hr]|]. split; [done|]. exists f. split; [done|].
    destruct Hr as (p&sz&Hf&Hr). assert (file_of one_file [97] = Some (1073741824, 8192)) as E by done.
    rewrite E in Hf. injection Hf as <- <-. destruct (Hr ltac:(lia)) as (Hs&_&Ha&_). split; [by rewrite Hs|by rewrite Ha].
Defined.
End simplefs.

(** * The heap *)

Section heap.
Import Heap HeapSpec.

Definition no_heap : heap := Heap None (λ _, 0) (λ _, 0).

(** The first request of a server whose image ends at 16 MB. *)
Lemma alloc_contract_witness :
  runs (alloc 16777216 1 100) (λ r h', ∃ p, r = Some p ∧ block_taken (started 16777216 no_heap) [1] (1 + (1073741815 - 16777216) / 8) 14 (p - 1) h')
    no_heap.
Proof.
  destruct (alloc_contract 16777216 no_heap [1] (1 + (1073741815 - 16777216) / 8) 1 100) as [H _].
  - apply started_ok; [lia|done].
  - lia.
  - simpl. lia.
  - eapply runs_mono; [apply H|].
    + intros a [= <-]. by vm_compute.
    + intros [p|] h' Hr.
      * exists p. split; [done|]. exact (proj2 Hr).
      * destruct Hr as [_ Hr]. discriminate (Hr 1 ltac:(left)).
Defined.

(** The units 1 to 100 are free, and a block of 10 units behind them is in use. *)
Definition one_block : heap := Heap (Some 1) (λ _, 1) (λ x, if x =? 101 then 10 else 100).

Lemma one_block_ok : heap_ok one_block [1] 200.
Proof.
  split; [done|by repeat constructor| |lia|by exists 1; split; [done|left]].
  apply Forall_singleton. unfold block_ok. simpl. lia.
Qed.

(** Its end is given back, and joined with the units below it. *)
Lemma free_contract_witness :
  runs (free 1 102) (λ _ h', ∃ l', heap_ok h' l' 200 ∧ free_unit h' l' 105) one_block.
Proof.
  destruct (free_contract one_block [1] 200 1 102) as [H _].
  - apply one_block_ok.
  - unfold block_ok. simpl. lia.
  - intros u Hu (a&->%list_elem_of_singleton&Hu'). simpl in *. lia.
  - simpl. lia.
  - eapply runs_mono; [apply H|].
    + intros (a&[= <-]&Hx). done.
    + intros _ h' [(l'&Hok&Hu) _]. exists l'. split; [exact Hok|]. apply Hu. right. simpl. lia.
Defined.
End heap.
