(* ===== verification/WitnessLibs.v ===== *)
(** The theorems about the application pager and the formatted output at concrete states. *)

From stdpp Require Import strings gmap.
From S2P Require Import Prelude Machine Server L4Types ElfLoader Links AppPager AppPagerSpec Print PrintSpec.
From S2P Require Kickstart KickstartSpec Message Sigma0 Sigma0Pool Sigma0Spec Sigma0Contract ElfLoaderSpec Root RootSpec Console Keyboard Shell ShellSpec.

(** * The application pager: a thread 17 in a space with one page, and a file server
    that maps nothing *)

Section pager.

#[local] Instance no_files : Files := {| map_file := λ _ _ m, m; locatorid := 5 |}.

Definition one_thread : pager := {|
  pages := [Page (L4_FpageLog2 1073741824 12) None];
  spaces := [Space None (Some 0%nat) the_slot (Some 0%nat)];
  threads := [Some (Thread None None 17 (Some 0%nat))];
  globalFirstFreePage := None;
  nextAllocablePageStart := 1073741824 + 4096;
  globalFirstThread := Some 0%nat;
  globalFirstFreeSpace := None;
  nextAllocableFileSlot := 2147483648;
  pager_mem := λ _, 0;
  sent := [];
|}.
Definition one : nat → list nat := λ j, if decide (j = 0%nat) then [0%nat] else [].

Lemma live_one j : live (spaces one_thread) [] j → j = 0%nat.
Proof. intros [Hlt _]. simpl in Hlt. lia. Qed.

Lemma one_thread_ok : pager_ok one_thread [0%nat] one one [] [].
Proof.
  split.
  - split; [done|done|by apply NoDup_singleton|]. intros t. rewrite list_elem_of_singleton.
    destruct t as [|t]; [done|]. split; [done|]. by intros [? ?].
  - split; try (intros j Hj; apply live_one in Hj as ->; done || by apply NoDup_singleton).
    + intros j t Hj. apply live_one in Hj as ->. change (one 0) with [0%nat]. rewrite list_elem_of_singleton.
      destruct t as [|t]; done.
    + intros [|t] x; [|done]. intros [= <-]. exists 0%nat. split; [done|]. split; [simpl; lia|apply not_elem_of_nil].
  - split; try done; try (intros j Hj; apply live_one in Hj as ->; done || by apply NoDup_singleton).
    + apply NoDup_nil_2.
    + intros j i _ _. apply not_elem_of_nil.
    + intros j k i Hj%live_one Hk%live_one _ _. congruence.
  - split; [done|done|apply NoDup_nil_2].
  - intros [|i] x; [|done]. by intros [= <-].
  - split; [done|]. simpl. lia.
  - intros [|j] x; [|done]. by intros [= <-].
  - done.
Qed.

Lemma apppager_pagefault_contract_witness :
  runs (apppager_pagefault 17 8192) (λ r s', ∃ ch pg, pager_ok s' [0%nat] ch pg [] [] ∧
    r = (L4_FpageLog2 (1073741824 + 4096) 12, 12287)) one_thread.
Proof.
  pose proof (apppager_pagefault_contract one_thread [0%nat] one one [] [] 17 8192 0%nat
    (Thread None None 17 (Some 0%nat)) one_thread_ok eq_refl eq_refl) as H.
  rewrite decide_False in H by (intros [_ E]; discriminate E).
  eapply runs_mono; [exact H|]. intros r s' (u&y&j&_&_&_&_&_&Hok&Hr&_). eexists _, _. split; [exact Hok|exact Hr].
Defined.

(** The only thread leaves: its page and its space are free. *)
Lemma apppager_deleteAssociation_contract_witness :
  runs (apppager_deleteAssociation 17) (λ _ s', pager_ok s' [] one one [0%nat] [0%nat] ∧
    sent s' = [L4_UnmapFpage the_slot]) one_thread.
Proof.
  destruct (apppager_deleteAssociation_contract one_thread [0%nat] one one [] [] 17 one_thread_ok)
    as [[Hno _]|(t&j&x&Hx&Hid&Hl&Hin&H)].
  - exfalso. by apply (Hno 0%nat (Thread None None 17 (Some 0%nat))).
  - apply live_one in Hl as ->. change (one 0) with [0%nat] in Hin. apply list_elem_of_singleton in Hin as ->.
    rewrite decide_False in H by (intros [_ E]; discriminate E).
    eapply runs_mono; [exact H|]. intros _ s' (_&_&_&Hs). rewrite decide_True in Hs by done. destruct Hs as [Hok Hs].
    split; [exact Hok|exact Hs].
Defined.
End pager.

(** * Formatted output *)

Section print.

#[local] Instance greeting : Strings := λ a, if a =? 100 then Some (txt "hello") else None.




(** An unknown conversion after a number and a double; a format that ends in a percent sign. *)
Definition half : SpecFloat.spec_float := SpecFloat.S754_finite false (2 ^ 52) (-53).
Lemma vsnprintf_bounds_witness :
  vsnprintf 9 (Some (txt "%b%.2f%q" ++ [0])) [Word 5; Double half] = Stores (txt "1010.50%" ++ [0]) [] 8 ∧
  Z.of_nat (length (txt "1010.50%" ++ [0])) ≤ 9 ∧ vsnprintf 9 (Some (txt "%b%" ++ [0])) [Word 5] = Illegal.
Proof.
  assert (E : vsnprintf 9 (Some (txt "%b%.2f%q" ++ [0])) [Word 5; Double half] = Stores (txt "1010.50%" ++ [0]) [] 8) by by vm_compute.
  split; [exact E|]. split; [|by vm_compute].
  destruct (vsnprintf_bounds 9 (Some (txt "%b%.2f%q" ++ [0])) [Word 5; Double half]) as [E'|(bytes&st&r&E'&Hle&_)].
  - lia.
  - repeat constructor; by vm_compute.
  - by rewrite E in E'.
  - rewrite E in E'. by injection E' as <- <- <-.
Defined.

Lemma get_hex_snprintf_witness :
  ∃ digits rest, snprintf 9 (Some (txt "%x" ++ [0])) [Word 48879] = Stores (digits ++ [0]) [] (Z.of_nat (length digits)) ∧
    get_hex (digits ++ [13]) = Some (48879, digits, rest).
Proof.
  assert (E : show [Conversion (Directive [] Unset None None (Hexadecimal false))] = txt "%x" ++ [0]) by by vm_compute.
  rewrite <- E. apply (get_hex_snprintf false 48879). lia.
Defined.
End print.

Section root.
Import L4Types ElfLoader ElfLoaderSpec Root RootSpec.

Definition words (l : list Z) : list Z := l ≫= Z_to_little_endian 4 8.

(** The boot information at 4096 with 4 records, of which the last is the module at 8192:
    a program of one segment, 4 bytes and 4 zeros at 65536. *)
Definition boot_page : list Z :=
  words [347079197; 1; 0; 32; 4; 0; 0; 0] ++
  words [2; 1; 20; 0; 0] ++ words [2; 1; 20; 0; 0] ++ words [2; 1; 20; 0; 0] ++ words [1; 1; 0; 8192; 88].
Definition loader_image (magic : Z) : list Z :=
  [magic; 69; 76; 70] ++ replicate 12 0 ++ [2; 0; 3; 0] ++ words [1; 65538; 52; 0; 0] ++ [52; 0; 32; 0; 1; 0] ++ replicate 6 0 ++
  words [1; 84; 65536; 65536; 4; 8; 0; 0] ++ [11; 12; 13; 14].
Definition boot_memory (magic : Z) : memory := λ x,
  if x <? 8192 then default 0 (boot_page !! Z.to_nat (x - 4096)) else default 7 (loader_image magic !! Z.to_nat (x - 8192)).
Definition at_boot (magic : Z) : root := Root 0 0 0 0 0 4096 0 0 (boot_memory magic) [].

(** The kernel refuses nothing, and sigma0 has no page behind 1 MB. *)
#[local] Instance willing : Boot := {|
  thread_control := λ _, true; space_control := λ _, true; sigma0_grants := λ a, a <? 1048576;
  myself := 2 ^ 14 * 40 + 1; my_pager := 2 ^ 14 * 35 + 1; my_local_id := 3221225472; boot_info := 4096;
  page_size_log2 := 12; utcb_size := 512; utcb_area_log2 := 14; locator_server := 100; syscall_server := 200;
  pager_loop := 300; stack_top := λ i, 4000 + 4096 * i; stack_mtag := 2 ^ 16 * 5 + 2; stack_msg := replicate 64 9 |}.

Lemma bytes_checked l : forallb (λ b, (0 <=? b) && (b <? 256)) l = true → Forall byte_ok l.
Proof.
  intros H. apply Forall_forall. intros b Hb%list_elem_of_In.
  apply (proj1 (forallb_forall _ _) H) in Hb. unfold byte_ok. lia.
Qed.

Lemma boot_memory_ok magic : byte_ok magic → bytes_ok (boot_memory magic).
Proof.
  intros Hm. assert (Hl : ∀ l, Forall byte_ok l → ∀ d i, byte_ok d → byte_ok (default d (l !! i))).
  { intros l Hl d i Hd. destruct (l !! i) eqn:E; [|done]. by eapply Forall_lookup_1 in Hl. }
  intros x. unfold boot_memory. destruct (x <? 8192); apply Hl.
  - by apply bytes_checked.
  - by vm_compute.
  - apply Forall_app. split; [apply Forall_cons_2; [done|]|]; by apply bytes_checked.
  - by vm_compute.
Qed.

Lemma loader_phdrs : phdrs (boot_memory 127) 8192 = [Phdr 1 84 65536 4 8].
Proof. by vm_compute. Qed.

Lemma loader_file : file_ok (boot_memory 127) 8192 88 ∧ Forall (segment_apart 8192 88) (phdrs (boot_memory 127) 8192).
Proof.
  rewrite loader_phdrs. split; [split|].
  - by apply boot_memory_ok.
  - lia.
  - lia.
  - by vm_compute.
  - rewrite loader_phdrs. intros ph ->%list_elem_of_singleton _. simpl. lia.
  - apply Forall_singleton. intros _. simpl. lia.
Qed.

Lemma loader_valid : executable_header (boot_memory 127) 8192.
Proof. apply header_valid_spec; [by apply boot_memory_ok|by vm_compute]. Qed.
Lemma loader_invalid : ¬ executable_header (boot_memory 128) 8192.
Proof. intros Hh%header_valid_spec; [by vm_compute in Hh|by apply boot_memory_ok]. Qed.

(** The module is loaded, with its zeros; one with a wrong first byte is not. *)
Lemma load_elfimage_contract_witness :
  (∃ s', load_elfimage 4188 (at_boot 127) = Done 65538 s' ∧ root_mem s' 65537 = 12 ∧ root_mem s' 65541 = 0 ∧ root_mem s' 65544 = 7) ∧
  load_elfimage 4188 (at_boot 128) = Done 0 (log [GetPage (L4_Fpage 8192 4096)] (at_boot 128)).
Proof.
  pose proof (load_elfimage_contract 4188) as H.
  pose proof (H (at_boot 127)) as H1. pose proof (H (at_boot 128)) as H2. cbv zeta in H1, H2. clear H.
  change (root_mem (at_boot 127)) with (boot_memory 127) in H1. change (root_mem (at_boot 128)) with (boot_memory 128) in H2.
  change (pagesize (at_boot 127)) with 4096 in H1. change (pagesize (at_boot 128)) with 4096 in H2.
  replace (L4_Module_Start (boot_memory 127) 4188) with 8192 in H1 by by vm_compute.
  replace (L4_Module_Start (boot_memory 128) 4188) with 8192 in H2 by by vm_compute.
  replace (L4_Module_Size (boot_memory 127) 4188) with 88 in H1 by by vm_compute.
  replace (L4_Module_Size (boot_memory 128) 4188) with 88 in H2 by by vm_compute.
  split.
  - destruct H1 as [_ H1]; [by apply boot_memory_ok|lia|lia|intros _; exact loader_file|].
    destruct (H1 eq_refl) as [_ H3]. destruct (H3 eq_refl) as [H4 _]. destruct (H4 loader_valid) as [m1 [Hm E]]. eexists. split; [exact E|].
    change (root_mem _) with m1. rewrite !Hm, loader_phdrs. clear. split_and!; vm_compute; reflexivity.
  - destruct H2 as [_ H2]; [by apply boot_memory_ok|lia|lia|intros Hh; by destruct (loader_invalid Hh)|].
    destruct (H2 eq_refl) as [_ H3]. destruct (H3 eq_refl) as [_ H4]. exact (H4 loader_invalid).
Defined.

Lemma locator_refines_map_witness :
  runs (init_locator 77;; serve_all [AskLocate 9; AskAnnounce 9 5; AskAnnounce 25 6; AskLocate 9; AskAnnounce 2 8; AskLocate 2])
    (λ answers _, answers = [Found 0; Conflict false; Conflict true; Found 5; Conflict true; Found 77])
    (Locator (replicate 16 1)).
Proof.
  eapply runs_mono; [apply (locator_refines_map 77)|].
  - done.
  - repeat apply Forall_cons_2; simpl; try lia. apply Forall_nil_2.
  - simpl. intros answers _ ->. by vm_compute.
Defined.

Lemma loader_module_ok : loader_ok (boot_memory 127).
Proof.
  assert (loader_start (boot_memory 127) = 8192) as Es by by vm_compute.
  assert (loader_size (boot_memory 127) = 88) as El by by vm_compute.
  assert (page = 4096) as Ep by by vm_compute.
  split; rewrite ?Es, ?El, ?Ep.
  - clear. by apply boot_memory_ok.
  - lia.
  - lia.
  - intros _. exact loader_file.
Qed.

(** The stack says two words: the loader is sent where it starts, 0, and the label it says. *)
Lemma main_boot_order_witness :
  (∃ s', main (at_boot 127) = Done tt s' ∧ calls s' = script_calls (boot_script (boot_memory 127))) ∧
  length (script_calls (boot_script (boot_memory 127))) = 23%nat ∧
  script_calls (boot_script (boot_memory 127)) !! 12%nat = Some (Send (tid 2) (tid 3) [2 ^ 16 * 5 + 2 ^ 12 + 2; 65538; 0]).
Proof.
  split; [|split; by vm_compute].
  destruct (main_boot_order ltac:(split; by vm_compute) (at_boot 127) ltac:(split; by vm_compute) loader_module_ok) as (_&H&_).
  apply H. vm_compute. repeat split.
Defined.
End root.

Section shell.
Import Console Keyboard Shell ShellSpec.

(** Every file has the text "hi". *)
#[local] Instance small_system : System := {|
  map_file := λ _ _ _ _ x, default 0 (txt "hi" !! Z.to_nat (x - 1073741824));
  file_fpage := λ _ _, 0; sigma0_maps := λ _ _ _ m, Some m; root_maps := λ _ _ _ m, m;
  list_files := λ _ l, l; start_task := λ _ _, 17; kip_BootInfo := 4096 |}.

Lemma small_files : shows_files (λ _, txt "hi").
Proof.
  intros h name m. eexists. split; [|by apply text_checked]. unfold window_size.
  rewrite (seqZ_cons 1073741824), seqZ_cons, seqZ_cons by lia. reflexivity.
Qed.

Definition at_prompt : shell :=
  Shell (replicate 200 0) 0 (replicate 8 0) (replicate 8 0) [] [] [] 2147483648 (λ _, 0) [].
Lemma at_prompt_ok : shell_ok at_prompt.
Proof. split; [done|done|done|by apply Forall_replicate|simpl; lia]. Qed.

Lemma print_on_console_witness :
  ∃ s' log c', print (txt "hello world" ++ 0 :: [7]) at_prompt = Done tt s' ∧ sh_calls s' = log ∧
    screen log (Console (replicate 4096 0) 78 0 980 981 []) = Some c' ∧ consoleCursorVPos c' = 1 ∧ consoleCursorHPos c' = 9.
Proof.
  destruct (print_on_console (txt "hello world") [7] at_prompt (Console (replicate 4096 0) 78 0 980 981 [])
    (Terminal (λ _ _, 0) 0 78)) as (s'&log&c'&E&El&Es&_&Hs).
  - by apply text_checked.
  - apply at_prompt_ok.
  - split; [apply length_replicate|done|done].
  - split; [done|done|]. intros v k Hv Hk. apply lookup_replicate_2. lia.
  - exists s', log, c'. split_and!; [exact E|exact El|exact Es| |].
    + rewrite (sh_row _ _ Hs). by vm_compute.
    + rewrite (sh_col _ _ Hs). by vm_compute.
Defined.

(** "tx", a backspace, " ab", and "c" with the end of the line: the file "abc" is made. *)
Definition keyboard_answer (p : list Z) : keyboardBuffer := KeyboardBuffer (Z.of_nat (length p)) 0 (p ++ replicate (7 - length p) 0).
Lemma keyboard_delivers p : (length p ≤ 7)%nat → delivers (keyboard_answer p) p.
Proof.
  intros Hp. split; [|done|].
  - simpl. rewrite length_app, length_replicate. lia.
  - unfold answer. simpl. rewrite Nat2Z.id. by apply take_app_length.
Qed.
Definition strokes : list (list Z) := [txt "tx"; [8]; txt " ab"].

Lemma strokes_ok : Forall2 delivers (keyboard_answer <$> strokes) strokes ∧ Forall keys strokes.
Proof.
  split.
  - repeat apply Forall2_cons_2; try (apply keyboard_delivers; vm_compute; lia). apply Forall2_nil_2.
  - repeat apply Forall_cons_2; [right|by left|right|done]; repeat constructor; by vm_compute.
Qed.

Lemma typed_command_witness :
  ∃ s', shell_rounds ((keyboard_answer <$> strokes) ++ [keyboard_answer (txt "c" ++ [10])]) at_prompt = Done tt s' ∧
    does ((Typed <$> txt "tx") ++ [Did (ConsoleDelete 1)] ++ (Typed <$> txt " ab") ++ (Typed <$> txt "c" ++ [10]) ++
      [Did (CreateFile (txt "abc") 9000)] ++ (Typed <$> txt "# ")) at_prompt s'.
Proof.
  destruct (typed_command (λ _, txt "hi") strokes (txt "c") (keyboard_answer <$> strokes) (keyboard_answer (txt "c" ++ [10])) at_prompt)
    as (s1&es&s'&E&_&_&Hd1&Hes&Hd2).
  - exact small_files.
  - exact at_prompt_ok.
  - done.
  - apply strokes_ok.
  - apply strokes_ok.
  - vm_compute. lia.
  - apply keyboard_delivers. vm_compute. lia.
  - repeat constructor; by vm_compute.
  - vm_compute. lia.
  - by vm_compute.
  - exists s'. split; [exact E|]. vm_compute in Hes. injection Hes as <-. exact (does_trans _ _ _ _ _ Hd1 Hd2).
Defined.
End shell.

(** * sigma0 *)

Section sigma0.
Import Message Sigma0 Sigma0Pool Sigma0Spec Sigma0Contract.

#[local] Instance small_memory : Boot_memory := {|
  first_at P := match P with conv_memory_pool => 100 | memory_pool => 200 | alloc_pool => 300 end;
  last_at P := match P with conv_memory_pool => 120 | memory_pool => 220 | alloc_pool => 320 end;
  initial_memregs := 1000; tmp_at _ := 500; garbage _ := Memregion 0 0 0 0 0; page_size_mask := 4096; memory_descs := [];
  kip_word _ := 0; user_base := 32; system_base := 16; set_page_attribute _ _ := true |}.

(** Free memory from 0x10000 to 0x20fff, and a page of thread 77 behind it. *)
Definition small_pools (P : memregion_pool) : list entry :=
  match P with
  | conv_memory_pool => [Entry 1000 65536 135167 L4_anythread]
  | memory_pool => []
  | alloc_pool => [Entry 1020 135168 139263 77]
  end.
Definition small_regions : gmap Z memregion_t := list_to_map [
  (100, Memregion 0 0 0 120 1000); (1000, Memregion 65536 135167 L4_anythread 100 120); (120, Memregion (2 ^ 32 - 1) (2 ^ 32 - 1) 0 1000 100);
  (200, Memregion 0 0 0 220 220); (220, Memregion (2 ^ 32 - 1) (2 ^ 32 - 1) 0 200 200);
  (300, Memregion 0 0 0 320 1020); (1020, Memregion 135168 139263 77 300 320); (320, Memregion (2 ^ 32 - 1) (2 ^ 32 - 1) 0 1020 300);
  (1040, Memregion 1060 0 0 0 0); (1060, Memregion 1080 0 0 0 0); (1080, Memregion 1100 0 0 0 0); (1100, Memregion 0 0 0 0 0)].
Definition small_sigma0 : sigma0 := Sigma0 small_regions 1040 1000 220 1020 12 16 32 33 34 0.
Definition small_free : list Z := [1040; 1060; 1080; 1100].

Lemma small_pools_ok : pools_ok small_sigma0 small_pools small_free.
Proof.
  split.
  - intros P. exists (last_at P), (first_at P). destruct P; vm_compute; by repeat split.
  - intros P. destruct P; by apply (bool_decide_unpack _).
  - intros P Q x. destruct P, Q; try done; unfold places, full; simpl; rewrite !elem_of_cons, !elem_of_nil; lia.
  - intros P. destruct P; by apply (bool_decide_unpack _).
  - vm_compute. repeat (split; [done|split; [done|eexists; split; [done|]]]). done.
  - by apply (bool_decide_unpack _).
  - intros P x. destruct P; unfold places, full, small_free; simpl; rewrite !elem_of_cons, !elem_of_nil; lia.
Qed.
Lemma small_ok : s0_ok small_sigma0 small_pools small_free.
Proof.
  split; [exact small_pools_ok| |].
  - intros P. destruct P; split; repeat constructor; done.
  - intros P Q x o o' (e&He&Hx&_) (c&Hc&Hx'&_). destruct P, Q; try done; simpl in He, Hc;
      rewrite ?elem_of_cons, ?elem_of_nil in He; rewrite ?elem_of_cons, ?elem_of_nil in Hc; try tauto;
      destruct He as [->|[]], Hc as [->|[]]; simpl in *; lia.
Qed.

(** The 8 KB page at 0x20000 is half free and half the thread's. *)
Lemma allocate_page_contract_witness :
  match allocate_page 77 131072 13 true small_sigma0 with Done (Some i) _ => L4_SndBase i = 131072 | _ => False end ∧
  runs (allocate_page 77 131072 13 true) (λ item s', only_pools small_sigma0 s' ∧ ∃ L' fr', s0_ok s' L' fr' ∧
    answer true 12 13 131072 77 small_pools small_free item L' fr') small_sigma0.
Proof.
  split; [by vm_compute|].
  apply (allocate_page_contract small_sigma0 small_pools small_free 77 131072 13 true small_ok); [done|done|done|done|done|].
  by vm_compute.
Defined.

Lemma allocate_page_any_contract_witness :
  match allocate_page_any do_alloc 77 14 small_sigma0 with Done (Some i) _ => L4_SndBase i = 65536 | _ => False end ∧
  runs (allocate_page_any do_alloc 77 14) (λ item s', only_pools small_sigma0 s' ∧ ∃ L' fr', s0_ok s' L' fr' ∧
    match item with
    | Some i => ∃ a e, a mod 2 ^ 14 = 0 ∧ i = L4_MapItem (page_word a 14) a ∧ e ∈ small_pools conv_memory_pool ∧ fits 14 e a L4_anythread ∧
        moved conv_memory_pool a (2 ^ 14) 77 small_pools L' ∧ gained 77 a (a + 2 ^ 14) small_pools L'
    | None => L' = small_pools ∧ fr' = small_free ∧
        (14 < 12 ∨ ∀ e a, e ∈ small_pools conv_memory_pool → a mod 2 ^ 14 = 0 → ¬ fits 14 e a L4_anythread)
    end) small_sigma0.
Proof.
  split; [by vm_compute|].
  apply (allocate_page_any_contract small_sigma0 small_pools small_free 77 14 small_ok); [done|done|done|simpl; lia].
Defined.

(** A page fault of thread 77 at 0x11000. *)
Lemma sigma0_request_contract_witness :
  runs (sigma0_request 77 (L4_PAGEFAULT + 2) 69632 4096) (λ r s', served 77 small_sigma0 small_pools r s') small_sigma0.
Proof.
  apply (sigma0_request_contract small_sigma0 small_pools small_free 77 (L4_PAGEFAULT + 2) 69632 4096 small_ok); [done|done|done|].
  split; [intros _; by vm_compute|by intros E; vm_compute in E].
Defined.
End sigma0.

(** * Messages and times *)

Section messages.
Import Message.

Lemma L4_TimePeriod_contract_witness :
  L4_TimePeriod 1000000 = set_timeperiod 10 976 ∧ 512 * (1000000 - 976 * 2 ^ 10) < 1000000 ∧
  L4_TimePeriod_constant 1000000 = L4_TimePeriod 1000000 ∧ L4_TimePeriod (2 ^ 33) = L4_Never.
Proof.
  destruct (L4_TimePeriod_contract 1000000 ltac:(lia)) as (_&H&E). destruct (H ltac:(done)) as (_&_&H').
  split_and!; [by vm_compute|exact H'|exact E|]. by apply (L4_TimePeriod_contract (2 ^ 33)).
Defined.

(** A word, a page, another word and a string in two pieces. *)
Definition letter : list part :=
  [Word 11; Map_item (L4_MapItem (L4_FpageLog2 4096 12 + L4_FullyAccessible) 4096); Word 12; String_item [hdr_of 8 0 1 0 0; 100; 200]].

Lemma message_roundtrip_witness : ∃ msg r1,
  (m ← L4_MsgClear (replicate 64 0); m ← L4_Set_MsgLabel m 77; appends m letter) = Some msg ∧ L4_MsgLoad ∅ msg = Some r1 ∧
  ∃ tag msg3, L4_MsgTag r1 = Some tag ∧ L4_Label tag = 77 ∧ L4_MsgStore r1 tag (replicate 64 5) = Some msg3 ∧
    L4_MsgGet msg3 = Some ([11; 12], [8 + 4096; 4096 + 16 * 12 + 7; hdr_of 8 0 1 0 0; 100; 200]).
Proof.
  destruct (message_roundtrip letter 77 (replicate 64 0) ∅) as (msg&r1&E1&E2&H).
  - reflexivity.
  - lia.
  - repeat constructor. exists O. vm_compute. reflexivity.
  - vm_compute. repeat constructor.
  - exists msg, r1. split; [exact E1|split; [exact E2|]]. exact (H r1 (replicate 64 5) eq_refl (λ _ _, eq_refl)).
Defined.
End messages.

(** * Kickstart *)

Section kickstart.
Import ElfLoader ElfLoaderSpec Kickstart KickstartSpec.

#[local] Instance pc_image : Kickstart_image := {|
  kickstart_begin := 65536; kickstart_end := 131072; mbi_copy := 69632; mbi_modules := 73728; orig_mbi_modules := 77824;
  strings_copy := 81920; grub_mbi_ptr := 69632; grub_mbi_flags := 732803074 |}.

(** The boot information at 69632 with a module at 1 MB, a memory map of two entries at
    86016, and the kernel interface page at 2 MB. *)
Definition pc_words : list (Z * Z) :=
  [(69632, 64 + 8); (69632 + 20, 1); (69632 + 24, 73728); (69632 + 44, 48); (69632 + 48, 86016);
   (73728, 2 ^ 20); (73732, 2 ^ 20 + 300000);
   (86016, 20); (86024 - 4, 0); (86028, 640 * 1024); (86036, 1); (86040, 20); (86044, 2 ^ 20); (86052, 63 * 2 ^ 20); (86060, 1)].
Definition pc_phys : memory := foldl (λ m w, save 4 m w.1 w.2) (λ _, 0) pc_words.
Definition pc_kick : kickstart := Kickstart.Kickstart pc_phys 69632 (2 ^ 21) 0 64 4 0 0 (2 ^ 24) false.









(** A command line at 65600. *)
Definition line_kick : kickstart :=
  pc_kick <| phys := λ x, if x =? 69648 then 64 else if x =? 69649 then 0 else if x =? 69650 then 1 else if x =? 69651 then 0
    else if 65600 <=? x then default 0 (txt "kernel kmem=16M quiet" !! Z.to_nat (x - 65600)) else 0 |>.

Lemma parse_num_contract_witness : parse_num (literal "kmem") line_kick = Done (Some (2 ^ 24)) line_kick ∧ parse_num (literal "maxmem") line_kick = Done None line_kick.
Proof.
  assert (Hs : cstr (phys line_kick) (load 4 (phys line_kick) (cmdline_place (mbi line_kick))) (txt "kernel kmem=16M quiet")).
  { replace (load 4 _ _) with 65600 by (vm_compute; reflexivity). split; [|vm_compute; repeat constructor; discriminate|vm_compute; split; [done|reflexivity]|cbn; lia].
    intros k Hk. cbn in Hk. do 22 (destruct k as [|k]; [vm_compute; reflexivity|]). lia. }
  split.
  - refine (proj2 (parse_num_contract line_kick (literal "kmem") _ Hs _) (txt "kernel ") 49 (txt "6") (txt "M quiet") _ _ _ _);
      [vm_compute; repeat constructor; discriminate|reflexivity|repeat constructor; vm_compute; discriminate|reflexivity|].
    intros j Hj. cbn in Hj. do 7 (destruct j as [|j]; [apply (bool_decide_unpack _); vm_compute; exact I|]). lia.
  - refine (proj1 (parse_num_contract line_kick (literal "maxmem") _ Hs _) _); [vm_compute; repeat constructor; discriminate|].
    intros j. do 22 (destruct j as [|j]; [apply (bool_decide_unpack _); vm_compute; exact I|]). rewrite drop_ge by (cbn; lia). by intros ?%prefix_nil_not.
Defined.
End kickstart.
